(* ===== verification/_CoqProject ===== *)
-Q . S2P
Prelude.v
Float64.v
Format.v
Utils.v
BTree.v
BTreeIterator.v
Types.v
MemDB.v
MultiMemDB.v
MVData.v
MVDataFacts.v
MVValidate.v
MVProps.v
MVView.v
MergeIterator.v
ViewIterator.v
MVMemory.v
Prog.v
Status.v
Scheduler.v
Cells.v
Kernel.v
KernelMoves.v
KernelFollows.v
KernelRuns.v
KernelInv.v
KernelOwned.v
KernelObliged.v
KernelAwaiting.v
KernelChecked.v
KernelReach.v
KernelSafety.v
Admission.v
KernelPolicy.v
PolicyGate.v
WorkerPool.v
PolicySched.v
Encoding.v
Model.v
Canonical.v
State.v
Runtime.v
Plan.v
Workload.v
Generator.v
GeneratorFacts.v
GeneratorProps.v
Control.v
Telemetry.v
Dispatcher.v
Serial.v
Experiment.v
Dependency.v
DependencyFacts.v
DependencyProps.v
Adapter.v
Accounting.v
Engine.v
Serializable.v
FrozenBlock.v
FrozenContract.v
Execution.v
Runner.v
RunnerProps.v
MockBlock.v
PolicyView.v
Entry.v
KernelEntry.v
