(* ===== verification/Prelude.v ===== *)
(** * Verification of the learned block-execution framework

    The program executes the transactions of a block in parallel with the
    result of executing them in order.  Its parts are, bottom up:

    - the _kernel_ (the Go files at the root of the repository), a Block-STM:
      a multi-version store, the view one transaction has of it, the scheduler
      that hands out execution and validation tasks to executors, an admission
      window that bounds speculation, and a second scheduler with selectable
      policies for ESTIMATE reads, idle workers and dispatch;
    - the _runtime_ ([internal/runtime/flat]), an interpreter of small programs
      over an overlay of a key-value state ([internal/state],
      [internal/model]);
    - the _engine layer_ ([internal/engine]), which resolves a run
      configuration to plans, analyses the programs of a block statically,
      builds dependency structures and gates, and drives kernel and runtime;
    - _experiments_ ([internal/workload], [internal/experiment],
      [internal/telemetry]), which generate workloads, check that the engines
      agree on them, run a matrix of cases and collect what was measured.

    ** Which file models what

    - [Prelude], [Prog]: outcomes of a call (returns, panics, waits), 64-bit
      integers with explicit wrap-around, byte strings and their order, slices
      indexed by [Z]; concurrent code as sequences of atomic actions ([prog]),
      with [run] for one goroutine and [pool_step] for interleavings.
    - [Utils] (utils.go), [BTree] (btree.go), [BTreeIterator]
      (btreeiterator.go), [Types] (types.go), [MemDB] (memdb.go): the
      containers.  The immutable tree library is the class [BTreeLib] with the
      laws [BTreeLaws]; [ListTree] implements it.  Compare-and-swap loops run
      against the sequence of values other goroutines publish.
    - [MVData] (mvdata.go, mviterator.go) with [MVDataFacts], [MVValidate] and
      [MVProps]: the two-level multi-version tree.  Inner trees are shared
      objects, so the model has a store of them and outer items hold locations.
    - [MergeIterator] (mergeiterator.go), [ViewIterator] (mvview.go): merging two
      iterators, what the merge of sorted sequences is, and the three-way
      iterator of a view.  [iteration] relates an iterator to the items to come.
    - [MVView] (mvview.go), [MVMemory] (mvmemory.go, multimvview.go): views and
      the memory over several stores.  [MVStore] and [MVView] are classes with
      laws, the memory is proved against them and [MVData], [MVView] discharge
      them; the order of ranging over a map is the class [MapRange].
    - [Status] (status.go, condvar.go), [Scheduler] (scheduler.go,
      executor.go), [Admission] (speculation.go): the scheduling of the kernel.
      A transaction's execution is an oracle that says on which transactions
      it blocks and whether validation fails.
    - [Kernel] (executor.go over mvmemory.go, mvdata.go, mvview.go, stm.go): the
      kernel as a whole, executors interleaving at every read, write, wait and
      scheduler step ([kernel_step]).  [Cells] specifies the store they share.
      The proof: [KernelMoves] summarises an executor by a program point and
      its actions by moves, [KernelFollows] shows that the code makes only such
      moves, [KernelRuns] what an attempt tells, [KernelInv] states the
      invariants, [KernelOwned], [KernelObliged], [KernelAwaiting] and
      [KernelChecked] preserve one each, [KernelReach] puts them together for
      reachable states and [KernelSafety] concludes.
    - [KernelPolicy] (execpolicy.go, stm.go), [PolicyGate], [PolicySched]
      (execpolicysched.go, execpolicyview.go), [WorkerPool]
      (execpolicyexec.go), [PolicyView] (execpolicyview.go): the policy kernel.
    - [Entry] (stm.go), [KernelEntry] (speculation.go, execpolicy.go): the entry
      points, from their arguments to the storage.
    - [Model], [State], [Encoding], [Runtime], [Canonical]: the data model, the
      overlay and in-memory store, the interpreter and the canonical digest.
    - [Plan] (engine.go, control/dependency.go, control/kernel.go),
      [Dependency] (blockstm/dependency.go) with [DependencyFacts] and
      [DependencyProps]: plans, static analysis, dependency structures, gates.
    - [Control] (control/events.go, decisions.go, trace.go), [Dispatcher]
      (policy/dispatcher.go, policy/fixed/preset.go): events, capability
      reports, the trace recorder, and the dispatcher between engines and a
      policy, which is any record of functions on a state of its own.
    - [Serial] (engine/serial/engine.go): the serial engine, and what every
      engine is given.  [Adapter] (blockstm/state_adapter.go), [Accounting]
      (result slots and counters) and [Engine] (blockstm/engine.go): the
      Block-STM engine, with the callback the kernel calls for each attempt.
    - [Serializable]: a callback over a memory that changes under it, and the
      theorem that the Block-STM engine does what the serial one does.
      [FrozenBlock]: the engine's callback as a transaction of [Kernel], and
      [FrozenContract]: the contract of the kernel, for the frozen path.
    - [Float64], [Format]: binary64 arithmetic (the Standard Library's
      specification) and the padded decimal numbers of names.  [Workload]
      (workload/artifact.go): artifacts and their checks.  [Generator]
      (synthetic/generator.go): the workload generator; [GeneratorFacts] has the
      facts about its loops and programs, [GeneratorProps] what it promises.
    - [Telemetry] (telemetry/records.go): records and metrics.  [Experiment]
      (experiment/config.go, protocol.go): configurations and the statistical
      protocol.  [Execution] (experiment/execution.go): a workload on an engine.
      [Runner] (experiment/runner.go): validation against the serial oracle,
      schedule, worker and matrix; [RunnerProps] says what the runner promises.
      What a file, a process, the clock or the platform says is an argument.
    - [MockBlock] (mock_block.go) over [MultiMemDB] (memdb.go): the simulated
      transactions, run on the stores and on the kernel.

    ** What the theorems show

    - The kernel is serializable.  [kernel_serializable]: under any interleaving
      of the frozen path, once the completion marker is set, results and memory
      are those of the block in order.  The invariants say who owns a
      transaction's cells, that whoever has read something outdated is yet to
      be validated again (an ESTIMATE mark makes a change to its cell
      invisible to valid reads, and a new location lowers the validation
      index), and what the double collect of [CheckDone] has established.
      [ExecuteBlock_exact] is the same from the entry point on, with the error
      paths: executors leave only when the block is done or the context cancelled.
    - The engines agree.  [blockstm_refines_serial]: a call of the Block-STM
      engine that succeeds has published the results, the state and the digest
      of the serial execution ([run_block], which [serial_engine_reference]
      shows to be what the serial engine does), for every policy and schedule;
      [blockstm_serializable]: and it does succeed when every last attempt is
      valid in the final memory.  The argument composes the layers: the
      callback runs the interpreter over the framed view; the interpreter
      depends only on what it reads; a valid read set reads in the final memory
      what it read before; so each attempt is the run on the state its
      transaction sees, by induction on the block the serial state.
      [frozen_block_serial] composes the same layers with the kernel model
      itself, for the frozen path and a policy that never objects.  The kernel's
      part is the contract [kernel_contract]; [frozen_path_contract] derives it
      from the kernel model for that path, so nothing is assumed of it there;
      [kernel_assumed] (Execution) says what the theorems about experiments
      assume of a case: nothing for a serial case or on the frozen path, the
      contract elsewhere.  Both engines publish all or nothing.
    - The policy seam: the dispatcher is transparent and logs every field exactly; traces
      do not depend on the interleaving of their emissions; counters are exact.
    - The multi-version store: which reads each write, estimate and deletion
      changes; validation accepts exactly the read sets that are still
      current, iterators included; the snapshot holds the last writer's value;
      recording an incarnation leaves exactly the values it wrote and its read sets.
    - A view refines a plain map, iterators included.  The read set it records
      validates, except that closing an iterator early may leave a read behind
      the stop key ([view_Close_validates] says exactly when).
    - The scheduler: under any interleaving the active-task counter counts the
      tasks held, each executor's own being what it has added to the counter, and
      without one an executor touches nothing but the counter and the done marker; suspended and aborted transactions are resumed or
      rescheduled; status entries follow their diagram; no wakeup is lost.
    - Speculation is bounded and its frontier moves only over transactions that
      have passed; the gates release exactly the transactions whose
      predecessors completed, cannot deadlock, and what the engine prepares is
      what the kernel accepts.
    - The interpreter always ends within its budget, in one of the ways of [ended],
      each with its cause, status and code, and depends on the state
      only through the reads it records; its codec and its overflow tests are
      exact; static analysis covers every access of every execution; the two
      conflict-graph builders are equivalent.
    - The simulated transactions do what they say: [IterateTx_exact], and on the
      kernel a block of them counts nonces exactly ([noop_block_nonces]).
    - The canonical digest is taken of bytes that determine the result up to
      permutations of its writes and its state.
    - Workloads: [Validate] accepts exactly the well-formed artifacts, which the
      engines can run; an accepted configuration never makes the generator fail,
      and what it generates is well formed and stays within its gas budget.
    - Experiments: an accepted configuration records what runs; whatever case
      executes a workload, the results are the reference's
      ([Execute_reference]); the differential validation finds every case that
      differs, whatever its kernel did, and under the contract raises no false
      alarm but one ([validate_exact]); the schedule is balanced, and a matrix
      measures every case in every round or ends with a worker's failure or
      differing digest ([run_matrix_exact]); metrics are exact sums.

    ** Bounds and fuel

    Loops over data recurse on the data.  [ValidateReadSet] and the iterators
    take fuel and are proved to return when it exceeds the number of keys;
    a view's iterator takes the number of items and keys it merges;
    [read_loop] takes the number of waits; [ExecuteWithHooks] runs with
    [MaxUnits + 1] rounds, enough because every instruction costs a unit;
    [summary_loop_wait] takes the number of wakeups it may see.  Block sizes and
    worker counts are below 2^63 where a counter could otherwise wrap, and a run of
    the kernel takes fewer than 2^62 steps; the fuel of a round, which bounds
    its waits, is any number.  The generator's loops that draw until a key is new
    take the fuel [patience]; the theorems bound it from how soon every value is
    drawn.  Key names are eight digits wide, so key spaces are at most 10^8.

    ** What is not modelled

    The start of goroutines, clocks and the statistics made from them,
    signatures; the commands, the files and processes of an
    experiment, and the probing of the hardware; the cache wrappers of the
    Cosmos store package.  [kernel_serializable] is about the frozen path with
    one store and access by key; [kernel_contract], which the theorems about the
    Block-STM engine and about experiments assume of the kernel, is derived from
    its model for the frozen path ([frozen_path_contract]) but not for the
    admission window and the policy path, nor for a callback that its policy or
    context stops. *)

From Stdlib Require Import ZArith Lia.
From Stdlib Require Import Strings.Byte.
From stdpp Require Export base tactics list gmap strings sorting.

(** ** Scopes and tactics *)

Declare Scope go_scope.
Delimit Scope go_scope with go.

(** Closes goals by the arithmetic solver after splitting boolean tests. *)
Ltac bool_lia :=
  repeat match goal with
  | H : (_ <? _)%Z = true |- _ => apply Z.ltb_lt in H
  | H : (_ <? _)%Z = false |- _ => apply Z.ltb_ge in H
  | H : (_ <=? _)%Z = true |- _ => apply Z.leb_le in H
  | H : (_ <=? _)%Z = false |- _ => apply Z.leb_gt in H
  | H : (_ =? _)%Z = true |- _ => apply Z.eqb_eq in H
  | H : (_ =? _)%Z = false |- _ => apply Z.eqb_neq in H
  | H : (_ && _)%bool = true |- _ => apply andb_prop in H; destruct H
  end; lia.

(** Splits every [match] of the goal or of a hypothesis, keeping equations. *)
Ltac split_matches :=
  repeat (case_match; simplify_eq/=).

(** ** Outcomes of a call

    A Go call returns, panics, or has not come back yet: it waits on a
    condition or is still looping when the fuel of the model is used up. *)

Inductive outcome (A : Type) : Type :=
| Returns (a : A)
| Panics
| Waits.
Arguments Returns {_} _.
Arguments Panics {_}.
Arguments Waits {_}.

#[export] Instance outcome_ret : MRet outcome := @Returns.
#[export] Instance outcome_bind : MBind outcome := λ A B k c,
  match c with Returns a => k a | Panics => Panics | Waits => Waits end.

#[export] Instance outcome_fmap : FMap outcome := λ A B f c,
  match c with Returns a => Returns (f a) | Panics => Panics | Waits => Waits end.

(** A nil dereference or an out-of-range access panics. *)
Definition deref {A} (o : option A) : outcome A :=
  match o with Some a => Returns a | None => Panics end.

Lemma outcome_bind_ret {A B} (a : A) (k : A → outcome B) :
  (Returns a ≫= k) = k a.
Proof. done. Qed.

(** A loop over a list in the outcome monad. *)
Fixpoint foldM {A S} (f : S → A → outcome S) (s : S) (l : list A) : outcome S :=
  match l with
  | [] => Returns s
  | x :: l' => s' ← f s x; foldM f s' l'
  end.

(** Invariant rule for such loops: no iteration panics or waits. *)
Lemma foldM_inv {A S} (f : S → A → outcome S) (P : list A → S → Prop) l s :
  P [] s →
  (∀ done x s, done ++ [x] `prefix_of` l → P done s →
     ∃ s', f s x = Returns s' ∧ P (done ++ [x]) s') →
  ∃ s', foldM f s l = Returns s' ∧ P l s'.
Proof.
  intros H0 Hstep.
  enough (∀ rest dn s, dn ++ rest = l → P dn s →
    ∃ s', foldM f s rest = Returns s' ∧ P l s') as H by (by apply (H l [])).
  clear H0 s. induction rest as [|x rest IH]; intros dn s Hl HP; simpl.
  - rewrite app_nil_r in Hl. subst. eauto.
  - destruct (Hstep dn x s) as (s' & -> & HP'); [|done|].
    + exists rest. by rewrite <- Hl, <- app_assoc.
    + apply (IH (dn ++ [x])); [by rewrite <- app_assoc|done].
Qed.

(** ** Machine integers

    A Go [uint64] is a [Z] in [0, 2^64); an [int64] a [Z] in [-2^63, 2^63).
    Every arithmetic result is wrapped explicitly. *)

Definition W64 : Z := 2 ^ 64.
Definition u64 (z : Z) : Z := z mod W64.
Definition i64 (z : Z) : Z := (z + 2 ^ 63) mod W64 - 2 ^ 63.
Definition u64_range (z : Z) : Prop := (0 <= z < W64)%Z.
Definition i64_range (z : Z) : Prop := (- 2 ^ 63 <= z < 2 ^ 63)%Z.

Definition maxInt64 : Z := 2 ^ 63 - 1.
Definition minInt64 : Z := - 2 ^ 63.
Definition maxUint64 : Z := 2 ^ 64 - 1.

Lemma u64_bound z : u64_range (u64 z).
Proof. unfold u64_range, u64. apply Z.mod_pos_bound. reflexivity. Qed.

Lemma u64_id z : u64_range z → u64 z = z.
Proof. unfold u64_range, u64. intros. by apply Z.mod_small. Qed.

Lemma i64_bound z : i64_range (i64 z).
Proof.
  unfold i64_range, i64.
  pose proof (Z.mod_pos_bound (z + 2 ^ 63) W64 ltac:(reflexivity)).
  unfold W64 in *. lia.
Qed.

Lemma i64_id z : i64_range z → i64 z = z.
Proof.
  unfold i64_range, i64. intros H. rewrite Z.mod_small; [lia|].
  unfold W64. lia.
Qed.

(** Adding [2^64 - 1], the way the code decrements, subtracts one. *)
Lemma u64_decr z : u64 (z + maxUint64) = u64 (z - 1).
Proof.
  unfold u64, maxUint64, W64.
  replace (z + (2 ^ 64 - 1))%Z with (z - 1 + 1 * 2 ^ 64)%Z by lia.
  apply Z_mod_plus_full.
Qed.

(** ** Byte strings

    A Go byte slice is a list of bytes; where the code distinguishes a nil
    slice, an [option] of one.  Go strings are byte strings too, so a string
    made from a slice is the same list. *)

Abbreviation Bytes := (list Byte.byte).

#[export] Instance byte_eq_dec : EqDecision Byte.byte := Byte.byte_eq_dec.

Definition byte_to_nat (b : Byte.byte) : nat := N.to_nat (Byte.to_N b).

#[export] Instance byte_countable : Countable Byte.byte :=
  inj_countable Byte.to_N Byte.of_N Byte.of_to_N.

Lemma byte_to_N_inj a b : Byte.to_N a = Byte.to_N b → a = b.
Proof.
  intros H. apply (f_equal Byte.of_N) in H. rewrite !Byte.of_to_N in H. congruence.
Qed.

(** [bytes.Compare]: lexicographic, the shorter of two equal prefixes first. *)
Fixpoint bytes_compare (a b : Bytes) : comparison :=
  match a, b with
  | [], [] => Eq
  | [], _ :: _ => Lt
  | _ :: _, [] => Gt
  | x :: a', y :: b' =>
      match N.compare (Byte.to_N x) (Byte.to_N y) with
      | Eq => bytes_compare a' b'
      | c => c
      end
  end.

Definition bytes_ltb (a b : Bytes) : bool :=
  match bytes_compare a b with Lt => true | _ => false end.

Definition bytes_lt (a b : Bytes) : Prop := bytes_compare a b = Lt.

#[export] Instance bytes_lt_dec : RelDecision bytes_lt.
Proof. intros a b. unfold bytes_lt. solve_decision. Defined.

Lemma bytes_compare_eq a b : bytes_compare a b = Eq ↔ a = b.
Proof.
  revert b; induction a as [|x a IH]; intros [|y b]; simpl; try done.
  destruct (N.compare_spec (Byte.to_N x) (Byte.to_N y)) as [E|E|E].
  - apply byte_to_N_inj in E as ->. rewrite IH. naive_solver.
  - split; [done|]. intros [= -> ->]. lia.
  - split; [done|]. intros [= -> ->]. lia.
Qed.

Lemma bytes_compare_refl a : bytes_compare a a = Eq.
Proof. by apply bytes_compare_eq. Qed.

Lemma bytes_compare_antisym a b : bytes_compare b a = CompOpp (bytes_compare a b).
Proof.
  revert b; induction a as [|x a IH]; intros [|y b]; simpl; try done.
  rewrite (N.compare_antisym (Byte.to_N x) (Byte.to_N y)).
  destruct (N.compare (Byte.to_N x) (Byte.to_N y)); simpl; auto.
Qed.

Lemma bytes_lt_trans a b c : bytes_lt a b → bytes_lt b c → bytes_lt a c.
Proof.
  unfold bytes_lt. revert b c; induction a as [|x a IH]; intros [|y b] [|z c];
    simpl; try done.
  destruct (N.compare_spec (Byte.to_N x) (Byte.to_N y)) as [E|E|E]; [rewrite E| |done];
    destruct (N.compare_spec (Byte.to_N y) (Byte.to_N z)) as [F|F|F]; try done; eauto.
  - intros _ _. rewrite <- F. by apply N.compare_lt_iff in E as ->.
  - intros _ _. assert ((Byte.to_N x < Byte.to_N z)%N) as G by lia.
    by apply N.compare_lt_iff in G as ->.
Qed.

Lemma bytes_lt_irrefl a : ¬ bytes_lt a a.
Proof. unfold bytes_lt. by rewrite bytes_compare_refl. Qed.

#[export] Instance bytes_lt_strict : StrictOrder bytes_lt.
Proof.
  split; [intros a; apply bytes_lt_irrefl | intros a b c; apply bytes_lt_trans].
Qed.

Lemma bytes_gt_lt a b : bytes_compare a b = Gt ↔ bytes_lt b a.
Proof. unfold bytes_lt. rewrite (bytes_compare_antisym a b). by destruct (bytes_compare a b). Qed.

#[export] Instance bytes_lt_trichotomy : TrichotomyT bytes_lt.
Proof.
  intros a b. destruct (bytes_compare a b) eqn:E.
  - left; right. by apply bytes_compare_eq.
  - by left; left.
  - right. by apply bytes_gt_lt.
Defined.

Lemma bytes_ltb_lt a b : bytes_ltb a b = true ↔ bytes_lt a b.
Proof. unfold bytes_ltb, bytes_lt. by destruct (bytes_compare a b). Qed.

Lemma bytes_ltb_ge a b : bytes_ltb a b = false ↔ a = b ∨ bytes_lt b a.
Proof.
  unfold bytes_ltb. rewrite <- (bytes_compare_eq a b), <- bytes_gt_lt.
  destruct (bytes_compare a b); naive_solver.
Qed.

Lemma bytes_lt_asym a b : bytes_lt a b → bytes_lt b a → False.
Proof. intros H1 H2. exact (bytes_lt_irrefl a (bytes_lt_trans _ _ _ H1 H2)). Qed.

Create HintDb go.
#[export] Hint Resolve bytes_lt_trans bytes_lt_irrefl u64_bound i64_bound : go.

(** ** Sorted key lists *)

(** Strictly increasing keys, the order every sorted container of the code keeps. *)
Abbreviation sorted_keys := (StronglySorted bytes_lt).

Lemma StronglySorted_cons_inv {A} (R : relation A) x l :
  StronglySorted R (x :: l) → StronglySorted R l ∧ ∀ y, y ∈ l → R x y.
Proof.
  intros H. inversion H; subst. split; [done|]. by apply Forall_forall.
Qed.

Lemma StronglySorted_cons_2 {A} (R : relation A) x l :
  StronglySorted R l → (∀ y, y ∈ l → R x y) → StronglySorted R (x :: l).
Proof. intros. constructor; [done|]. by apply Forall_forall. Qed.

Lemma StronglySorted_NoDup {A} (R : relation A) `{!Irreflexive R} l :
  StronglySorted R l → NoDup l.
Proof.
  induction l as [|x l IH]; intros H; [constructor|].
  apply StronglySorted_cons_inv in H as [Hl Hx]. constructor; [|auto].
  intros Hin. destruct (irreflexivity R x); auto.
Qed.

(** Two strictly sorted lists with the same members are the same list. *)
Lemma StronglySorted_ext {A} (R : relation A) `{!StrictOrder R} l1 l2 :
  StronglySorted R l1 → StronglySorted R l2 → (∀ x, x ∈ l1 ↔ x ∈ l2) → l1 = l2.
Proof.
  revert l2; induction l1 as [|x l1 IH]; intros [|y l2] H1 H2 Hm; [done| | |].
  - exfalso. apply (not_elem_of_nil y), Hm. by left.
  - exfalso. apply (not_elem_of_nil x), Hm. by left.
  - apply StronglySorted_cons_inv in H1 as [H1 Hx].
    apply StronglySorted_cons_inv in H2 as [H2 Hy].
    assert (x = y) as ->.
    { destruct (proj1 (elem_of_cons l2 x y) (proj1 (Hm x) ltac:(by left))) as [|Hz];
        [done|].
      destruct (proj1 (elem_of_cons l1 y x) (proj2 (Hm y) ltac:(by left))) as [|Hz'];
        [done|].
      destruct (irreflexivity R x). transitivity y; auto. }
    f_equal. apply IH; [done..|]. intros z. split; intros Hz.
    + destruct (proj1 (elem_of_cons _ _ _) (proj1 (Hm z) ltac:(by right)))
        as [->|]; [|done]. destruct (irreflexivity R y); auto.
    + destruct (proj1 (elem_of_cons _ _ _) (proj2 (Hm z) ltac:(by right)))
        as [->|]; [|done]. destruct (irreflexivity R y); auto.
Qed.

(** [list_find]-style lookup through a boolean test. *)
Fixpoint findb {A} (p : A → bool) (l : list A) : option A :=
  match l with
  | [] => None
  | x :: l' => if p x then Some x else findb p l'
  end.

Lemma findb_Some {A} (p : A → bool) l x : findb p l = Some x → x ∈ l ∧ p x = true.
Proof.
  induction l as [|y l IH]; simpl; [done|].
  destruct (p y) eqn:E; intros H; [simplify_eq; split; [by left|done]|].
  apply IH in H as [H ?]. split; [by right|done].
Qed.

Lemma findb_None {A} (p : A → bool) l : findb p l = None ↔ ∀ x, x ∈ l → p x = false.
Proof.
  induction l as [|y l IH]; simpl; [by split; [intros _ x ?%elem_of_nil|]|].
  destruct (p y) eqn:E; split; [done| | |].
  - intros H. specialize (H y ltac:(by left)). congruence.
  - intros H x [->|Hx]%elem_of_cons; [done|]. by apply IH.
  - intros H. apply IH. intros x Hx. apply H. by right.
Qed.

(** Filtering by a boolean test. *)
Lemma findb_ext {A} (p q : A → bool) l : (∀ x, p x = q x) → findb p l = findb q l.
Proof. intros H. induction l as [|x l IH]; cbn; [done|]. by rewrite H, IH. Qed.

Lemma filter_ext_in {A} (p q : A → bool) (l : list A) :
  (∀ x, x ∈ l → p x = q x) →
  filter (λ x, p x = true) l = filter (λ x, q x = true) l.
Proof.
  induction l as [|x l IH]; intros H; [done|]. rewrite !filter_cons.
  rewrite IH by (intros y Hy; apply H; by right).
  specialize (H x ltac:(by left)). rewrite H. by repeat case_decide.
Qed.

Lemma filter_none {A} (p : A → bool) (l : list A) :
  (∀ x, x ∈ l → p x = false) → filter (λ x, p x = true) l = [].
Proof.
  induction l as [|x l IH]; intros H; [done|].
  rewrite filter_cons_False by (rewrite H; [done|by left]).
  apply IH. intros y Hy. apply H. by right.
Qed.

Lemma filter_all {A} (p : A → bool) (l : list A) :
  (∀ x, x ∈ l → p x = true) → filter (λ x, p x = true) l = l.
Proof.
  induction l as [|x l IH]; intros H; [done|].
  rewrite filter_cons_True by (apply H; by left). f_equal. apply IH.
  intros y Hy. apply H. by right.
Qed.

(** In-range access by an index of type [Z], the way the code indexes a slice. *)
Definition at_index {A} (l : list A) (i : Z) : option A :=
  if (0 <=? i)%Z then l !! Z.to_nat i else None.
Definition set_index {A} (l : list A) (i : Z) (x : A) : option (list A) :=
  if (0 <=? i)%Z && (i <? Z.of_nat (length l))%Z then Some (<[Z.to_nat i := x]> l)
  else None.

Section indices.
Local Open Scope Z_scope.

Lemma set_index_length {A} (l l' : list A) i x : set_index l i x = Some l' → length l' = length l.
Proof. unfold set_index. destruct (_ && _); [intros [= <-]; apply length_insert|done]. Qed.

Lemma at_index_nonneg {A} (l : list A) i x : at_index l i = Some x → 0 <= i.
Proof. unfold at_index. destruct (0 <=? i) eqn:E; [|done]. intros _. bool_lia. Qed.

Lemma at_index_Some {A} (l : list A) i x : at_index l i = Some x → 0 <= i < Z.of_nat (length l).
Proof.
  unfold at_index. destruct (0 <=? i) eqn:E; [|done]. intros H%lookup_lt_Some. bool_lia.
Qed.

Lemma at_index_in {A} (l : list A) i : 0 <= i < Z.of_nat (length l) → ∃ x, at_index l i = Some x.
Proof.
  intros H. unfold at_index. rewrite (proj2 (Z.leb_le _ _)) by lia.
  apply lookup_lt_is_Some_2. lia.
Qed.

Lemma set_index_in {A} (l : list A) i x :
  0 <= i < Z.of_nat (length l) → set_index l i x = Some (<[Z.to_nat i := x]> l).
Proof.
  intros H. unfold set_index. rewrite (proj2 (Z.leb_le _ _)), (proj2 (Z.ltb_lt _ _)) by lia. done.
Qed.

Lemma set_index_same {A} (l : list A) i x : at_index l i = Some x → <[Z.to_nat i := x]> l = l.
Proof. unfold at_index. destruct (0 <=? i); [|done]. apply list_insert_id. Qed.

Lemma at_index_insert {A} (l : list A) i j x :
  0 <= i < Z.of_nat (length l) → 0 <= j →
  at_index (<[Z.to_nat i := x]> l) j = if decide (j = i) then Some x else at_index l j.
Proof.
  intros Hi Hj. unfold at_index. rewrite (proj2 (Z.leb_le _ _) Hj).
  case_decide; [subst; apply list_lookup_insert_eq; lia|]. apply list_lookup_insert_ne. lia.
Qed.

Lemma at_index_insert_ne {A} (l : list A) i j x :
  0 <= i → j ≠ i → at_index (<[Z.to_nat i := x]> l) j = at_index l j.
Proof.
  intros Hi Hj. unfold at_index. destruct (0 <=? j) eqn:E; [|done]. apply Z.leb_le in E.
  apply list_lookup_insert_ne. lia.
Qed.

Lemma at_index_lookup {A} (l : list A) i x : 0 <= i → at_index l i = Some x ↔ l !! Z.to_nat i = Some x.
Proof. intros H. unfold at_index. by rewrite (proj2 (Z.leb_le _ _) H). Qed.

Lemma set_index_Some {A} (l l' : list A) i x :
  set_index l i x = Some l' → 0 <= i < Z.of_nat (length l) ∧ l' = <[Z.to_nat i := x]> l.
Proof.
  unfold set_index. destruct (0 <=? i) eqn:E1, (i <? Z.of_nat (length l)) eqn:E2; simpl; try done.
  intros [= <-]. split; [bool_lia|done].
Qed.

End indices.

(** ** Sums and ranges over maps *)

Definition total (l : list Z) : Z := foldr Z.add 0%Z l.

Lemma total_app l l' : total (l ++ l') = (total l + total l')%Z.
Proof. unfold total. induction l as [|x l IH]; cbn; [done|]. rewrite IH. lia. Qed.

Lemma total_perm l l' : l ≡ₚ l' → total l = total l'.
Proof. unfold total. induction 1; cbn; lia. Qed.

Lemma total_concat {A} (f : A → Z) (ls : list (list A)) : total (f <$> concat ls) = total ((λ l, total (f <$> l)) <$> ls).
Proof. induction ls as [|l ls IH]; [done|]. cbn [concat fmap list_fmap]. by rewrite fmap_app, total_app, IH. Qed.

(** A counter that every round of a loop adds to, wrapping around, holds the sum. *)
Lemma foldl_u64_in {A S} (step : S → A → S) (g : S → Z) (h : A → Z) l s :
  (∀ s x, u64_range (g s) → g (step s x) = u64 (g s + h x)) → u64_range (g s) →
  g (foldl step s l) = u64 (g s + total (h <$> l)).
Proof.
  intros Hg. revert s. induction l as [|x l IH]; intros s Hs; cbn.
  { by rewrite Z.add_0_r, u64_id. }
  rewrite IH by (rewrite Hg by done; apply u64_bound). rewrite Hg by done. unfold total. cbn.
  unfold u64. rewrite Zplus_mod_idemp_l. f_equal. lia.
Qed.

Lemma foldl_u64 {A S} (step : S → A → S) (g : S → Z) (h : A → Z) l s :
  (∀ s x, g (step s x) = u64 (g s + h x)) → u64_range (g s) → g (foldl step s l) = u64 (g s + total (h <$> l)).
Proof. intros Hg. by apply foldl_u64_in. Qed.

(** What no round of a loop touches. *)
Lemma foldl_keeps {A S B} (step : S → A → S) (g : S → B) l s : (∀ s x, g (step s x) = g s) → g (foldl step s l) = g s.
Proof. intros Hg. revert s. induction l as [|x l IH]; intros s; cbn; [done|]. by rewrite IH. Qed.

(** The order in which a Go [range] visits a map: any enumeration. *)
Class MapRange := {
  range : ∀ {K} `{Countable K} {A}, gmap K A → list (K * A);
  range_perm : ∀ {K} `{Countable K} {A} (m : gmap K A), range m ≡ₚ map_to_list m;
}.
