(* ===== verification/Float64.v ===== *)
(** * Binary floating-point numbers

    Go's [float64] as the standard library's specification of IEEE 754 with 53
    bits of mantissa and exponents below 1024, rounding to nearest even.  What
    is shown of rounding is what the clients need: a product that does not
    exceed an integer of at most 53 bits does not exceed it after rounding. *)

From Stdlib Require Import ZArith Lia.
From Stdlib Require Export Floats.SpecFloat.
From S2P Require Import Prelude.
Local Open Scope Z_scope.

Abbreviation float64 := spec_float.
Definition fadd : float64 → float64 → float64 := SFadd 53 1024.
Definition fsub : float64 → float64 → float64 := SFsub 53 1024.
Definition fmul : float64 → float64 → float64 := SFmul 53 1024.
Definition fdiv : float64 → float64 → float64 := SFdiv 53 1024.
Definition flt : float64 → float64 → bool := SFltb.
Definition fle : float64 → float64 → bool := SFleb.
Definition feq : float64 → float64 → bool := SFeqb.

Definition IsNaN (f : float64) : bool := match f with S754_nan => true | _ => false end.
(** [math.IsInf(f, 0)] *)
Definition IsInf (f : float64) : bool := match f with S754_infinity _ => true | _ => false end.

(** The conversion of an integer. *)
Definition float_of (z : Z) : float64 := binary_normalize 53 1024 z 0 false.
Definition f0 : float64 := S754_zero false.
Definition f1 : float64 := float_of 1.

(** [uint64(f)], towards zero.  The language leaves the conversion of values out
    of range to the implementation: [None]. *)
Definition to_uint64 (f : float64) : option Z :=
  match f with
  | S754_zero _ => Some 0
  | S754_finite false m e =>
      let z := if 0 <=? e then Z.pos m * 2 ^ e else Z.pos m / 2 ^ (- e) in
      if z <? W64 then Some z else None
  | _ => None
  end.

(** A well-formed number. *)
Definition is_float64 (f : float64) : bool := valid_binary 53 1024 f.

(** ** Rounding *)

(** [i] shifts to the right of the exact number [m]. *)
Definition shifted (m : Z) (i : nat) : shr_record := Nat.iter i shr_1 (Build_shr_record m false false).

Lemma iter_pos_iter {A} (f : A → A) p x : SpecFloat.iter_pos f p x = Nat.iter (Pos.to_nat p) f x.
Proof.
  revert x. induction p as [p IH|p IH|]; intros x; cbn [SpecFloat.iter_pos].
  - rewrite !IH, <- !Nat.iter_add, <- Nat.iter_succ_r. f_equal. lia.
  - rewrite !IH, <- Nat.iter_add. f_equal. lia.
  - done.
Qed.

Lemma shr_1_m mrs : 0 <= shr_m mrs → shr_m (shr_1 mrs) = shr_m mrs / 2.
Proof.
  destruct mrs as [[|[p|p|]|p] r s]; cbn; intros H; try lia; first [done | apply Z.div_unique with (r := 1); lia | apply Z.div_unique with (r := 0); lia].
Qed.

Lemma shr_1_flags mrs : 0 <= shr_m mrs →
  shr_r (shr_1 mrs) || shr_s (shr_1 mrs) = Z.odd (shr_m mrs) || (shr_r mrs || shr_s mrs).
Proof. by destruct mrs as [[|[p|p|]|p] [] []]; cbn; intros; try lia. Qed.

Lemma shifted_m m i : 0 <= m → shr_m (shifted m i) = m / 2 ^ Z.of_nat i.
Proof.
  intros Hm. induction i as [|i IH]; [by rewrite Z.div_1_r|].
  change (shifted m (S i)) with (shr_1 (shifted m i)).
  rewrite shr_1_m by (rewrite IH; apply Z.div_pos; lia). rewrite IH, Z.div_div by lia.
  f_equal. rewrite Nat2Z.inj_succ, Z.pow_succ_r by lia. lia.
Qed.

(** The flags tell whether anything was lost. *)
Lemma shifted_flags m i : 0 <= m →
  shr_r (shifted m i) || shr_s (shifted m i) = negb (m =? m / 2 ^ Z.of_nat i * 2 ^ Z.of_nat i).
Proof.
  intros Hm. induction i as [|i IH]; [cbn; rewrite Z.div_1_r, Z.mul_1_r; by rewrite Z.eqb_refl|].
  change (shifted m (S i)) with (shr_1 (shifted m i)). set (q := m / 2 ^ Z.of_nat i) in *.
  assert (0 <= q) as Hq by (apply Z.div_pos; lia).
  rewrite shr_1_flags, IH, shifted_m by (rewrite ?shifted_m; done). fold q.
  rewrite Nat2Z.inj_succ, Z.pow_succ_r, (Z.mul_comm 2), <- Z.div_div by lia. fold q.
  pose proof (Z.pow_pos_nonneg 2 (Z.of_nat i)). set (x := 2 ^ Z.of_nat i) in *.
  pose proof (Z.mul_div_le m x ltac:(lia)). fold q in H0. pose proof (Zmod_odd q). pose proof (Z.div_mod q 2).
  destruct (Z.odd q); cbn [orb].
  - symmetry. apply negb_true_iff, Z.eqb_neq. nia.
  - f_equal. apply eq_true_iff_eq. rewrite !Z.eqb_eq. nia.
Qed.

(** [m * 2^e] is at most the integer [u]; [k] makes the exponents positive. *)
Definition at_most (m e u : Z) : Prop := ∃ k, 0 <= k ∧ 0 <= e + k ∧ m * 2 ^ (e + k) <= u * 2 ^ k.

Lemma at_most_at m e u k : at_most m e u → 0 <= k → 0 <= e + k → m * 2 ^ (e + k) <= u * 2 ^ k.
Proof.
  intros (j & Hj & Hej & H) Hk Hek. destruct (Z.le_ge_cases j k).
  - assert (2 ^ (e + k) = 2 ^ (e + j) * 2 ^ (k - j)) as -> by (rewrite <- Z.pow_add_r by lia; f_equal; lia).
    assert (2 ^ k = 2 ^ j * 2 ^ (k - j)) as -> by (rewrite <- Z.pow_add_r by lia; f_equal; lia).
    rewrite !Z.mul_assoc. apply Z.mul_le_mono_nonneg_r; [apply Z.pow_nonneg; lia|done].
  - apply (Z.mul_le_mono_pos_r _ _ (2 ^ (j - k))); [apply Z.pow_pos_nonneg; lia|].
    rewrite <- !Z.mul_assoc, <- !Z.pow_add_r by lia.
    by replace (e + k + (j - k)) with (e + j) by lia; replace (k + (j - k)) with j by lia.
Qed.

Lemma at_most_le m m' e u : at_most m e u → m' <= m → at_most m' e u.
Proof. intros (k & ? & ? & H) ?. exists k. split_and!; [done..|]. pose proof (Z.pow_pos_nonneg 2 (e + k)). nia. Qed.

(** Dropping digits does not exceed. *)
Lemma at_most_shift m e u n : 0 <= n → at_most m e u → at_most (m / 2 ^ n) (e + n) u.
Proof.
  intros Hn (k & ? & ? & H). exists k. split_and!; [done|lia|].
  replace (e + n + k) with (n + (e + k)) by lia. rewrite Z.pow_add_r by lia.
  rewrite Z.mul_assoc. transitivity (m * 2 ^ (e + k)); [|done]. apply Z.mul_le_mono_nonneg_r; [apply Z.pow_nonneg; lia|].
  rewrite Z.mul_comm. apply Z.mul_div_le, Z.pow_pos_nonneg; lia.
Qed.

(** Nor does rounding up to a multiple of what divides the bound. *)
Lemma at_most_round m e u n : 0 < n → e + n <= 0 → at_most m e u →
  m ≠ m / 2 ^ n * 2 ^ n → at_most (m / 2 ^ n + 1) (e + n) u.
Proof.
  intros Hn He H Hne. exists (- e). split_and!; [lia|lia|].
  apply (at_most_at _ _ _ (- e)) in H; [|lia..]. rewrite Z.add_opp_diag_r, Z.mul_1_r in H.
  replace (e + n + - e) with n by lia. set (q := 2 ^ n) in *.
  assert (0 < q) by (apply Z.pow_pos_nonneg; lia).
  assert (2 ^ (- e) = q * 2 ^ (- e - n)) as E by (unfold q; rewrite <- Z.pow_add_r by lia; f_equal; lia).
  rewrite E in *. rewrite Z.mul_assoc in H. pose proof (Z.mul_div_le m q ltac:(done)).
  assert (m / q * q < u * 2 ^ (- e - n) * q) by lia. assert (m / q < u * 2 ^ (- e - n)) by nia. nia.
Qed.

Lemma digits2_log2 p : Z.pos (digits2_pos p) = Z.log2 (Z.pos p) + 1.
Proof.
  induction p as [p IH|p IH|]; cbn [digits2_pos]; [| |done]; rewrite Pos2Z.inj_succ, IH.
  - rewrite Pos2Z.inj_xI, Z.log2_succ_double by lia. lia.
  - rewrite Pos2Z.inj_xO, Z.log2_double by lia. lia.
Qed.

Lemma Zdigits2_log2 m : 0 < m → Zdigits2 m = Z.log2 m + 1.
Proof. destruct m; [lia| |lia]. intros _. apply digits2_log2. Qed.

Lemma shr_exact m e n : shr (Build_shr_record m false false) e n = (shifted m (Z.to_nat n), e + Z.max 0 n).
Proof.
  destruct n as [|p|p]; cbn [shr].
  - by rewrite Z.add_0_r.
  - rewrite iter_pos_iter. done.
  - by rewrite Z.add_0_r.
Qed.

Lemma scaled_le a m x u v y : 0 <= x → 0 <= y → a <= m → m * x <= u * y → u <= v → a * x <= v * y.
Proof.
  intros. transitivity (m * x); [by apply Z.mul_le_mono_nonneg_r|]. transitivity (u * y); [done|by apply Z.mul_le_mono_nonneg_r].
Qed.

Lemma rounded_at_most m e u n : 0 < m → u <= 2 ^ 53 → at_most m e u → Z.max (Z.log2 m + 1 + e - 53) (-1074) - e = n →
  let mrs := shifted m (Z.to_nat n) in
  at_most (round_nearest_even (shr_m mrs) (loc_of_shr_record mrs)) (e + Z.max 0 n) u ∧
  0 <= round_nearest_even (shr_m mrs) (loc_of_shr_record mrs).
Proof.
  intros Hm Hu Ham Hn mrs. assert (shr_m mrs = m / 2 ^ Z.max 0 n) as Em.
  { unfold mrs. rewrite shifted_m by lia. do 2 f_equal. lia. }
  assert (0 <= shr_m mrs) as H0 by (rewrite Em; apply Z.div_pos; [lia|apply Z.pow_pos_nonneg; lia]).
  assert (at_most (shr_m mrs) (e + Z.max 0 n) u) as Hdown by (rewrite Em; apply at_most_shift; [lia|done]).
  assert (shr_r mrs || shr_s mrs = true → at_most (shr_m mrs + 1) (e + Z.max 0 n) u) as Hup.
  { unfold mrs. rewrite shifted_flags by lia. intros Hne%negb_true_iff%Z.eqb_neq. fold mrs. rewrite Em.
    assert (Z.of_nat (Z.to_nat n) = Z.max 0 n) as En by lia. rewrite En in Hne.
    assert (0 < n) as Hpos.
    { destruct (Z.le_gt_cases n 0); [|done]. exfalso. apply Hne. rewrite Z.max_l by lia.
      by rewrite Z.div_1_r, Z.mul_1_r. }
    rewrite Z.max_r in * by lia. apply at_most_round; [done| |done..].
    pose proof (Z.log2_spec m Hm) as [Hlo _]. pose proof (Z.log2_nonneg m).
    destruct (Z.le_gt_cases (Z.log2 m + 1 + e) 53); [lia|].
    assert (Z.log2 m + e <= 53) as Hle.
    { pose proof (at_most_at _ _ _ (Z.max 0 (- e)) Ham ltac:(lia) ltac:(lia)) as Hat.
      assert (2 ^ (Z.log2 m + e + Z.max 0 (- e)) <= 2 ^ (53 + Z.max 0 (- e))) as Hp.
      { replace (Z.log2 m + e + Z.max 0 (- e)) with (Z.log2 m + (e + Z.max 0 (- e))) by lia.
        rewrite (Z.pow_add_r 2 (Z.log2 m)), (Z.pow_add_r 2 53) by lia.
        by apply (scaled_le _ m _ u); [apply Z.pow_nonneg..| | |]. }
      apply Z.pow_le_mono_r_iff in Hp; lia. }
    exfalso. apply Hne. assert (m = 2 ^ (53 - e)) as ->.
    { apply Z.le_antisymm; [|by replace (53 - e) with (Z.log2 m) by lia].
      pose proof (at_most_at _ _ _ (- e) Ham ltac:(lia) ltac:(lia)) as Hat.
      rewrite Z.add_opp_diag_r, Z.mul_1_r in Hat. replace (53 - e) with (53 + - e) by lia.
      rewrite Z.pow_add_r by lia. transitivity (u * 2 ^ (- e)); [done|]. apply Z.mul_le_mono_nonneg_r; [by apply Z.pow_nonneg|done]. }
    replace (53 - e) with (53 - e - n + n) at 2 by lia. rewrite Z.pow_add_r, Z.div_mul by lia.
    rewrite <- Z.pow_add_r by lia. f_equal. lia. }
  unfold loc_of_shr_record. destruct mrs as [q [] []]; cbn [shr_m shr_r shr_s] in *; cbn [round_nearest_even].
  - split; [by apply Hup|lia].
  - destruct (Z.even q); [done|]. split; [by apply Hup|lia].
  - done.
  - done.
Qed.

(** Rounding does not exceed an integer of at most 53 bits. *)
Lemma binary_round_aux_at_most m e u : 0 < m → u <= 2 ^ 53 → at_most m e u →
  match binary_round_aux 53 1024 false m e loc_Exact with
  | S754_zero _ => True
  | S754_finite false m' e' => at_most (Z.pos m') e' u
  | _ => False
  end.
Proof.
  intros Hm Hu Ham. unfold binary_round_aux, shr_fexp, fexp, emin. cbn [shr_record_of_loc].
  rewrite shr_exact, (Zdigits2_log2 m Hm). change (3 - 1024 - 53) with (-1074).
  destruct (rounded_at_most m e u _ Hm Hu Ham eq_refl) as [Hr H0]. cbv zeta in Hr, H0.
  set (n := Z.max _ _ - e) in *. set (q := round_nearest_even _ _) in *. rewrite shr_exact.
  set (n2 := Z.max _ _ - _). set (e2 := e + Z.max 0 n) in *.
  assert (at_most (shr_m (shifted q (Z.to_nat n2))) (e2 + Z.max 0 n2) u) as H2.
  { rewrite shifted_m by done. replace (Z.of_nat (Z.to_nat n2)) with (Z.max 0 n2) by lia. apply at_most_shift; [lia|done]. }
  assert (0 <= shr_m (shifted q (Z.to_nat n2))) as H3 by (rewrite shifted_m by done; apply Z.div_pos; lia).
  destruct (shr_m (shifted q _)) as [|p|p]; [exact I| |lia]. rewrite (proj2 (Z.leb_le _ _)); [exact H2|].
  set (e3 := e2 + Z.max 0 n2) in *. pose proof (at_most_at _ _ _ (Z.max 0 (- e3)) H2 ltac:(lia) ltac:(lia)) as Hat.
  assert (2 ^ (e3 + Z.max 0 (- e3)) <= 2 ^ (53 + Z.max 0 (- e3))) as H4.
  { rewrite (Z.pow_add_r 2 53), <- (Z.mul_1_l (2 ^ (e3 + _))) by lia.
    by apply (scaled_le _ (Z.pos p) _ u); [apply Z.pow_nonneg..|lia| |]. }
  apply Z.pow_le_mono_r_iff in H4; lia.
Qed.

Lemma at_most_mul m1 e1 m2 e2 u : 0 <= m1 → 0 <= m2 → at_most m1 e1 u → at_most m2 e2 1 → at_most (m1 * m2) (e1 + e2) u.
Proof.
  intros Hm1 Hm2 (k1 & ? & ? & Ha) (k2 & ? & ? & Hb). exists (k1 + k2). split_and!; [lia|lia|].
  replace (e1 + e2 + (k1 + k2)) with (e1 + k1 + (e2 + k2)) by lia.
  rewrite (Z.pow_add_r 2 (e1 + k1)), (Z.pow_add_r 2 k1) by lia.
  assert (0 <= 2 ^ (e1 + k1)) as Hp1 by (by apply Z.pow_nonneg). assert (0 <= 2 ^ (e2 + k2)) as Hp2 by (by apply Z.pow_nonneg).
  set (p1 := 2 ^ (e1 + k1)) in *. set (p2 := 2 ^ (e2 + k2)) in *. rewrite Z.mul_1_l in Hb.
  replace (m1 * m2 * (p1 * p2)) with (m1 * p1 * (m2 * p2)) by lia. rewrite (Z.mul_assoc u).
  apply Z.mul_le_mono_nonneg; [by apply Z.mul_nonneg_nonneg|done|by apply Z.mul_nonneg_nonneg|done].
Qed.

(** At most [u], and not negative. *)
Definition float_at_most (f : float64) (u : Z) : Prop :=
  match f with
  | S754_zero _ => True
  | S754_finite false m e => at_most (Z.pos m) e u
  | _ => False
  end.

Lemma float_of_at_most u : 0 <= u <= 2 ^ 53 → float_at_most (float_of u) u.
Proof.
  intros [H0 Hu]. unfold float_of, binary_normalize. destruct u as [|u|u]; [done| |lia].
  unfold binary_round, shl_align. set (e' := fexp _ _ _). rewrite Z.sub_0_r. destruct e' as [|p|p].
  - apply binary_round_aux_at_most; [lia|done|]. exists 0. split_and!; lia.
  - apply binary_round_aux_at_most; [lia|done|]. exists 0. split_and!; lia.
  - apply binary_round_aux_at_most; [lia|done|]. exists (Z.pos p). split_and!; [lia|lia|].
    replace (Z.neg p + Z.pos p) with 0 by lia. rewrite Z.pow_0_r, Z.mul_1_r.
    clear. induction p as [|p IH] using Pos.peano_ind; [cbn; lia|].
    rewrite Pos.iter_succ, (Pos2Z.inj_succ p), Z.pow_succ_r, Pos2Z.inj_xO by lia. lia.
Qed.

Lemma fraction_at_most p : is_float64 p = true → fle f0 p = true → fle p f1 = true → float_at_most p 1.
Proof.
  unfold is_float64, fle, f1, SFleb. change (float_of 1) with (S754_finite false 4503599627370496 (-52)).
  destruct p as [s|s| |s m e]; [done|by destruct s|done|]. cbn [valid_binary f0 SFcompare]. destruct s; [done|].
  intros [Hc _]%andb_true_iff _. unfold canonical_mantissa in Hc. apply Z.eqb_eq in Hc.
  rewrite digits2_log2 in Hc. unfold fexp, emin in Hc.
  assert (Z.pos m < 2 ^ 53) as Hm.
  { pose proof (Z.log2_spec (Z.pos m) ltac:(lia)) as [_ Hlt]. eapply Z.lt_le_trans; [exact Hlt|].
    apply Z.pow_le_mono_r; lia. }
  cbn [SFcompare]. destruct (Z.compare_spec e (-52)) as [->|He|He]; [| |done].
  - intros Hle. exists 52. split_and!; [lia|lia|]. change (2 ^ (-52 + 52)) with 1. change (1 * 2 ^ 52) with 4503599627370496.
    destruct (Pos.compare_cont Eq m 4503599627370496) eqn:Ec; [| |done]; change (Pos.compare_cont Eq) with Pos.compare in Ec.
    + apply Pos.compare_eq in Ec as ->. lia.
    + rewrite Z.mul_1_r. apply Z.lt_le_incl. exact Ec.
  - intros _. exists (- e). split_and!; [lia|lia|]. rewrite Z.add_opp_diag_r, Z.mul_1_r, Z.mul_1_l.
    transitivity (2 ^ 53); [lia|]. apply Z.pow_le_mono_r; lia.
Qed.

Lemma to_uint64_at_most f u : float_at_most f u → 0 <= u <= 2 ^ 53 → ∃ v, to_uint64 f = Some v ∧ 0 <= v <= u.
Proof.
  intros Hf [H0 Hu]. destruct f as [|?| |[] m e]; try done; [by exists 0|]. cbn [float_at_most to_uint64] in *.
  assert (0 <= (if 0 <=? e then Z.pos m * 2 ^ e else Z.pos m / 2 ^ (- e)) <= u) as Hz.
  { destruct (Z.leb_spec 0 e).
    - pose proof (at_most_at _ _ _ 0 Hf ltac:(lia) ltac:(lia)) as Ha. rewrite Z.add_0_r, Z.pow_0_r, Z.mul_1_r in Ha.
      split; [|done]. apply Z.mul_nonneg_nonneg; [lia|by apply Z.pow_nonneg].
    - pose proof (at_most_at _ _ _ (- e) Hf ltac:(lia) ltac:(lia)) as Ha. rewrite Z.add_opp_diag_r, Z.mul_1_r in Ha.
      split; [apply Z.div_pos; [lia|apply Z.pow_pos_nonneg; lia]|].
      apply Z.div_le_upper_bound; [apply Z.pow_pos_nonneg; lia|lia]. }
  set (z := if 0 <=? e then Z.pos m * 2 ^ e else Z.pos m / 2 ^ (- e)) in *. exists z. rewrite (proj2 (Z.ltb_lt _ _)); [done|].
  change W64 with (2 ^ 64). lia.
Qed.

(** A fraction of [u] units, rounded and truncated, is at most [u]. *)
Lemma fraction_of_units u p : 0 <= u <= 2 ^ 53 → is_float64 p = true → fle f0 p = true → fle p f1 = true →
  ∃ v, to_uint64 (fmul (float_of u) p) = Some v ∧ 0 <= v <= u.
Proof.
  intros Hu Hp H0 H1. apply to_uint64_at_most; [|done]. pose proof (fraction_at_most p Hp H0 H1) as Hf.
  pose proof (float_of_at_most u Hu) as Hof. destruct (float_of u) as [s|?| |[] m1 e1], p as [s'|?| |[] m2 e2]; try done.
  cbn [float_at_most fmul SFmul xorb] in *. apply binary_round_aux_at_most; [lia|lia|].
  rewrite Pos2Z.inj_mul. by apply at_most_mul.
Qed.

Example fraction_of_ten : to_uint64 (fmul (float_of 10) (fdiv (float_of 1) (float_of 4))) = Some 2.
Proof. reflexivity. Qed.
