(* ===== verification/Format.v ===== *)
(** * Numbers in names

    [fmt.Sprintf]'s [%0wd] on non-negative integers: decimal digits, padded
    with zeros to a width, never cut.  Padded numbers are told apart, and of
    the same length they are ordered as their digits are. *)

From Stdlib Require Import ZArith Lia String.
From Stdlib Require Import Strings.Byte.
From S2P Require Import Prelude.
Local Open Scope Z_scope.

Definition bytes_of : string → Bytes := String.list_byte_of_string.
Definition string_of : Bytes → string := String.string_of_list_byte.

Lemma string_of_inj a b : string_of a = string_of b → a = b.
Proof.
  intros H. apply (f_equal String.list_byte_of_string) in H.
  unfold string_of in H. by rewrite !String.list_byte_of_string_of_list_byte in H.
Qed.

Definition digit (d : Z) : byte := default x00 (Byte.of_N (Z.to_N (48 + d))).

(** The [k] last digits of [n]. *)
Fixpoint decimal (k : nat) (n : Z) : Bytes :=
  match k with
  | O => []
  | S k => decimal k (n / 10) ++ [digit (n mod 10)]
  end.

(** How many digits a number has; [fuel] of them at most. *)
Fixpoint digits_of (fuel : nat) (n : Z) : nat :=
  match fuel with
  | O => 1
  | S fuel => if n <? 10 then 1 else S (digits_of fuel (n / 10))
  end.

Definition digit_count (n : Z) : nat := digits_of (S (Z.to_nat (Z.log2 n))) n.
Definition padded (width : nat) (n : Z) : Bytes := decimal (Nat.max width (digit_count n)) n.

Example padded_small : padded 6 42 = bytes_of "000042".
Proof. reflexivity. Qed.
Example padded_large : padded 3 12345 = bytes_of "12345".
Proof. reflexivity. Qed.

(** ** Facts *)

Definition digit_value (b : byte) : Z := Z.of_N (Byte.to_N b) - 48.
Definition parse (l : Bytes) : Z := foldl (λ n b, 10 * n + digit_value b) 0 l.

Lemma digit_spec d : 0 <= d < 10 → Byte.to_N (digit d) = Z.to_N (48 + d).
Proof.
  intros Hd. unfold digit. destruct (Byte.of_N (Z.to_N (48 + d))) as [b|] eqn:E; [by apply Byte.to_of_N|].
  apply Byte.of_N_None_iff in E. lia.
Qed.

Lemma decimal_length k n : length (decimal k n) = k.
Proof. revert n. induction k as [|k IH]; intros n; cbn; [done|]. rewrite length_app, IH. cbn. lia. Qed.

Lemma parse_decimal k n : 0 <= n < 10 ^ Z.of_nat k → parse (decimal k n) = n.
Proof.
  revert n. induction k as [|k IH]; intros n; cbn [decimal].
  { cbn. intros ?. unfold parse. cbn. lia. }
  rewrite Nat2Z.inj_succ, Z.pow_succ_r by lia. intros Hn. unfold parse. rewrite foldl_app. fold (parse (decimal k (n / 10))).
  pose proof (Z.div_mod n 10). pose proof (Z.mod_pos_bound n 10). rewrite IH by lia.
  cbn [foldl]. unfold digit_value. rewrite digit_spec by lia. lia.
Qed.

Lemma digits_of_enough fuel n : 0 <= n < 10 ^ Z.of_nat fuel → n < 10 ^ Z.of_nat (digits_of fuel n).
Proof.
  revert n. induction fuel as [|fuel IH]; intros n; cbn [digits_of]; [cbn; lia|].
  rewrite Nat2Z.inj_succ, Z.pow_succ_r by lia. intros Hn. destruct (Z.ltb_spec n 10); [cbn; lia|].
  pose proof (IH (n / 10)) as Hi. pose proof (Z.div_mod n 10). pose proof (Z.mod_pos_bound n 10).
  rewrite Nat2Z.inj_succ, Z.pow_succ_r by lia. lia.
Qed.

Lemma padded_bound width n : 0 <= n → n < 10 ^ Z.of_nat (Nat.max width (digit_count n)).
Proof.
  intros Hn. assert (n < 10 ^ Z.of_nat (S (Z.to_nat (Z.log2 n)))) as Hlog.
  { rewrite Nat2Z.inj_succ, Z2Nat.id by apply Z.log2_nonneg. destruct (Z.eq_dec n 0) as [->|]; [done|].
    eapply Z.lt_le_trans; [apply Z.log2_spec; lia|]. pose proof (Z.log2_nonneg n). apply Z.pow_le_mono_l. lia. }
  eapply Z.lt_le_trans; [by apply digits_of_enough|]. apply Z.pow_le_mono_r; [done|]. unfold digit_count. lia.
Qed.

Lemma parse_padded width n : 0 <= n → parse (padded width n) = n.
Proof. intros Hn. apply parse_decimal. split; [lia|by apply padded_bound]. Qed.

Lemma padded_inj width n m : 0 <= n → 0 <= m → padded width n = padded width m → n = m.
Proof. intros Hn Hm E. by rewrite <- (parse_padded width n Hn), E, parse_padded. Qed.

(** Within the width all have the same length. *)
Lemma padded_decimal width n : 0 < Z.of_nat width <= 19 → 0 <= n < 10 ^ Z.of_nat width → padded width n = decimal width n.
Proof.
  intros Hw Hn. unfold padded. f_equal. apply Nat.max_l.
  assert (∀ fuel k n, (0 < k)%nat → 0 <= n < 10 ^ Z.of_nat k → (digits_of fuel n <= k)%nat) as Hle.
  { clear. induction fuel as [|fuel IH]; intros k n Hk Hn; cbn [digits_of]; [lia|].
    destruct (Z.ltb_spec n 10); [lia|]. destruct k as [|k]; [lia|]. apply le_n_S.
    rewrite Nat2Z.inj_succ, Z.pow_succ_r in Hn by lia. pose proof (Z.div_mod n 10). pose proof (Z.mod_pos_bound n 10).
    apply IH; [|lia]. destruct k; [|lia]. cbn in Hn. lia. }
  apply Hle; lia.
Qed.

Lemma bytes_lt_prefix a b x y : length a = length b → bytes_lt a b → bytes_lt (a ++ x) (b ++ y).
Proof.
  unfold bytes_lt. revert b. induction a as [|c a IH]; intros [|d b]; cbn; try done.
  intros [= Hl]. destruct (N.compare _ _); auto.
Qed.

Lemma bytes_lt_app a x y : bytes_lt x y → bytes_lt (a ++ x) (a ++ y).
Proof. unfold bytes_lt. induction a as [|c a IH]; cbn; [done|]. rewrite N.compare_refl. auto. Qed.

Lemma decimal_lt k n m : 0 <= n → n < m → m < 10 ^ Z.of_nat k → bytes_lt (decimal k n) (decimal k m).
Proof.
  revert n m. induction k as [|k IH]; intros n m Hn Hnm; [cbn; lia|]. cbn [decimal].
  rewrite Nat2Z.inj_succ, Z.pow_succ_r by lia. intros Hm.
  pose proof (Z.div_mod n 10). pose proof (Z.mod_pos_bound n 10). pose proof (Z.div_mod m 10). pose proof (Z.mod_pos_bound m 10).
  destruct (Z.lt_ge_cases (n / 10) (m / 10)).
  - apply bytes_lt_prefix; [by rewrite !decimal_length|]. apply IH; [apply Z.div_pos|..]; lia.
  - assert (n / 10 = m / 10) as -> by lia. apply bytes_lt_app. unfold bytes_lt. cbn. rewrite !digit_spec by lia.
    assert (Z.to_N (48 + n mod 10) < Z.to_N (48 + m mod 10))%N as -> by lia. done.
Qed.

Lemma padded_lt width n m : 0 < Z.of_nat width <= 19 → 0 <= n → n < m → m < 10 ^ Z.of_nat width →
  bytes_lt (padded width n) (padded width m).
Proof. intros. rewrite !padded_decimal by lia. by apply decimal_lt. Qed.

(** A separator that is not a digit splits what it separates. *)
Lemma separator_inj {A} (d : A) l1 l2 r1 r2 : d ∉ l1 → d ∉ l2 → l1 ++ d :: r1 = l2 ++ d :: r2 → l1 = l2 ∧ r1 = r2.
Proof.
  revert l2. induction l1 as [|x l1 IH]; intros [|y l2] H1 H2; cbn.
  - by intros [= ->].
  - intros [= <- _]. set_solver.
  - intros [= -> _]. set_solver.
  - intros [= -> E]. destruct (IH l2) as [-> ->]; set_solver.
Qed.

Lemma dash_not_digit k n : 0 <= n → "-"%byte ∉ decimal k n.
Proof.
  revert n. induction k as [|k IH]; intros n Hn; cbn [decimal]; [apply not_elem_of_nil|].
  intros [Hin|Hin]%elem_of_app; [by apply IH in Hin; [|apply Z.div_pos; lia]|].
  apply list_elem_of_singleton in Hin. pose proof (Z.mod_pos_bound n 10).
  apply (f_equal Byte.to_N) in Hin. rewrite digit_spec in Hin by lia. cbn in Hin. lia.
Qed.

Lemma padded_split width n m r s : 0 <= n → 0 <= m →
  padded width n ++ "-"%byte :: r = padded width m ++ "-"%byte :: s → n = m ∧ r = s.
Proof.
  intros Hn Hm [E ->]%separator_inj; [|apply dash_not_digit; lia..]. split; [|done]. by apply padded_inj in E.
Qed.
