(* ===== verification/Utils.v ===== *)
(** * utils.go: atomic counters, the ordered diff and key comparisons

    [StoreMin] is modelled with the interference of other goroutines: the
    loop's compare-and-swap succeeds or fails depending on what was stored
    between its load and its swap.  [DiffOrderedList] is modelled with a
    stateful callback that may stop the traversal. *)

From Stdlib Require Import ZArith Lia.
From S2P Require Import Prelude.
Local Open Scope Z_scope.

(** ** Atomic counters *)

(** One iteration per list element: [None] when nobody stores between the
    load and the swap of that attempt, [Some v] when another goroutine leaves
    [v] there.  After the listed attempts nobody interferes any more.  The
    result is the value of the atomic when the function returns. *)
Fixpoint StoreMin (interference : list (option Z)) (a b : Z) : Z :=
  if a <=? b then a
  else
    match interference with
    | [] | None :: _ => b
    | Some v :: rest => if v =? a then b else StoreMin rest v b
    end.

Definition DecrAtomic (a : Z) : Z := u64 (a + maxUint64).
Definition IncrAtomic (a : Z) : Z := u64 (a + 1).

(** New value of the atomic and the value returned. *)
Definition FetchIncr (a : Z) : Z * Z :=
  let a' := u64 (a + 1) in (a', u64 (a' - 1)).

(** ** Ordered diff *)

Section DiffOrderedList.
Context {S : Type} (callback : Bytes → bool → S → S * bool).

(** The trailing [for ; i < len(l); i++] loops; the flag says whether the
    function has returned. *)
Fixpoint drain (is_new : bool) (l : list Bytes) (s : S) : S * bool :=
  match l with
  | [] => (s, true)
  | k :: l' =>
      let '(s', continue) := callback k is_new s in
      if continue then drain is_new l' s' else (s', false)
  end.

(** The suffixes [old[i:]] and [new[j:]] stand for the two indices. *)
Fixpoint DiffOrderedList (old : list Bytes) : list Bytes → S → S :=
  fix over_new (new : list Bytes) (s : S) : S :=
    match old, new with
    | k :: old', k' :: new' =>
        match bytes_compare k k' with
        | Lt =>
            let '(s', continue) := callback k false s in
            if continue then DiffOrderedList old' new s' else s'
        | Gt =>
            let '(s', continue) := callback k' true s in
            if continue then over_new new' s' else s'
        | Eq => DiffOrderedList old' new' s
        end
    | _, _ =>
        let '(s', continue) := drain false old s in
        if continue then fst (drain true new s') else s'
    end.
End DiffOrderedList.

(** ** Byte helpers *)

Definition BytesBeyond (a b : Bytes) (ascending : bool) : bool :=
  if ascending then match bytes_compare a b with Gt => true | _ => false end
  else match bytes_compare a b with Lt => true | _ => false end.

Definition BytesIsZero (v : option Bytes) : bool :=
  match v with None => true | Some _ => false end.
Definition BytesLen (v : option Bytes) : Z :=
  match v with None => 0 | Some b => Z.of_nat (length b) end.
Definition ObjIsZero {A} (v : option A) : bool :=
  match v with None => true | Some _ => false end.
Definition ObjLen {A} (v : option A) : Z := 1.

(** ** The diff as a list: a reference definition *)

Fixpoint diff_list (old : list Bytes) : list Bytes → list (Bytes * bool) :=
  fix over_new (new : list Bytes) : list (Bytes * bool) :=
    match old, new with
    | k :: old', k' :: new' =>
        match bytes_compare k k' with
        | Lt => (k, false) :: diff_list old' new
        | Gt => (k', true) :: over_new new'
        | Eq => diff_list old' new'
        end
    | _, _ => ((λ k, (k, false)) <$> old) ++ ((λ k, (k, true)) <$> new)
    end.

(** Feeds the callback until it answers false. *)
Fixpoint feed {S} (callback : Bytes → bool → S → S * bool)
    (l : list (Bytes * bool)) (s : S) : S * bool :=
  match l with
  | [] => (s, true)
  | (k, b) :: l' =>
      let '(s', continue) := callback k b s in
      if continue then feed callback l' s' else (s', false)
  end.

Lemma feed_app {S} (cb : Bytes → bool → S → S * bool) l1 l2 s :
  feed cb (l1 ++ l2) s =
    let '(s', continue) := feed cb l1 s in
    if continue then feed cb l2 s' else (s', false).
Proof.
  revert s; induction l1 as [|[k b] l1 IH]; intros s; simpl; [done|].
  destruct (cb k b s) as [s' []]; [apply IH|done].
Qed.

Lemma drain_feed {S} (cb : Bytes → bool → S → S * bool) b l s :
  drain cb b l s = feed cb ((λ k, (k, b)) <$> l) s.
Proof.
  revert s; induction l as [|k l IH]; intros s; simpl; [done|].
  destruct (cb k b s) as [s' []]; [apply IH|done].
Qed.

Lemma DiffOrderedList_feed {S} (cb : Bytes → bool → S → S * bool) old new s :
  DiffOrderedList cb old new s = fst (feed cb (diff_list old new) s).
Proof.
  revert new s; induction old as [|k old IH]; intros new; [|induction new as [|k' new IHn]];
    intros s; cbn [DiffOrderedList diff_list].
  - cbn [drain fmap list_fmap app]. by destruct new; rewrite drain_feed.
  - rewrite !drain_feed, feed_app. by destruct (feed _ _ _) as [? []].
  - destruct (bytes_compare k k').
    + apply IH.
    + cbn [feed]. destruct (cb k false s) as [s' []]; [apply IH|done].
    + cbn [feed]. destruct (cb k' true s) as [s' []]; [apply IHn|done].
Qed.

Lemma elem_of_tagged (l : list Bytes) (t : bool) (k : Bytes) (b : bool) :
  (k, b) ∈ ((λ k', (k', t)) <$> l) ↔ k ∈ l ∧ b = t.
Proof.
  rewrite list_elem_of_fmap. split.
  - by intros (k' & [= -> ->] & ?).
  - intros [? ->]. eauto.
Qed.

(** Membership in the diff, for sorted inputs. *)
Lemma diff_list_spec old new :
  sorted_keys old → sorted_keys new → ∀ k b,
  (k, b) ∈ diff_list old new ↔
    (b = false ∧ k ∈ old ∧ k ∉ new) ∨ (b = true ∧ k ∈ new ∧ k ∉ old).
Proof.
  revert new; induction old as [|x old IH]; intros new Ho; [|induction new as [|y new IHn]];
    intros Hn k b; cbn [diff_list].
  - destruct new; simpl; rewrite ?elem_of_cons, ?elem_of_tagged; set_solver.
  - rewrite app_nil_r, elem_of_tagged. set_solver.
  - apply StronglySorted_cons_inv in Ho as [Ho Hx].
    pose proof Hn as Hn'. apply StronglySorted_cons_inv in Hn as [Hn Hy].
    destruct (bytes_compare x y) eqn:E.
    + apply bytes_compare_eq in E as ->. rewrite (IH new Ho Hn).
      rewrite !elem_of_cons.
      pose proof (bytes_lt_irrefl y). naive_solver.
    + rewrite elem_of_cons, (IH _ Ho Hn').
      assert (x ∉ y :: new) as Hxn.
      { intros [->|H]%elem_of_cons; [by apply (bytes_lt_irrefl y)|].
        apply (bytes_lt_asym x y); eauto. }
      pose proof (bytes_lt_irrefl x). rewrite !elem_of_cons in *.
      naive_solver.
    + apply bytes_gt_lt in E. rewrite elem_of_cons, (IHn Hn).
      assert (y ∉ x :: old) as Hyo.
      { intros [->|H]%elem_of_cons; [by apply (bytes_lt_irrefl x)|].
        apply (bytes_lt_asym x y); eauto. }
      pose proof (bytes_lt_irrefl y). rewrite !elem_of_cons in *.
      naive_solver.
Qed.

(** Every key of the diff is a key of one of the inputs. *)
Lemma diff_list_keys old new k b :
  (k, b) ∈ diff_list old new → k ∈ old ∨ k ∈ new.
Proof.
  revert new; induction old as [|x old IH]; intros new; [|induction new as [|y new IHn]];
    cbn [diff_list].
  - destruct new; simpl; rewrite ?elem_of_cons, ?elem_of_tagged; set_solver.
  - rewrite app_nil_r, elem_of_tagged. set_solver.
  - destruct (bytes_compare x y).
    + intros H%IH. set_solver.
    + intros [H|H%IH]%elem_of_cons; set_solver.
    + intros [H|H%IHn]%elem_of_cons; set_solver.
Qed.

Lemma diff_list_sorted old new :
  sorted_keys old → sorted_keys new → sorted_keys (fst <$> diff_list old new).
Proof.
  assert (∀ t (l : list Bytes), fst <$> ((λ k, (k, t)) <$> l : list (Bytes * bool)) = l)
    as Hfst.
  { intros t l. rewrite <- list_fmap_compose. apply list_fmap_id. }
  revert new; induction old as [|x old IH]; intros new Ho; [|induction new as [|y new IHn]];
    intros Hn; cbn [diff_list].
  - destruct new; simpl; [constructor|]. by rewrite Hfst.
  - by rewrite app_nil_r, Hfst.
  - pose proof Ho as Ho'. pose proof Hn as Hn'.
    apply StronglySorted_cons_inv in Ho as [Ho Hx].
    apply StronglySorted_cons_inv in Hn as [Hn Hy].
    destruct (bytes_compare x y) eqn:E; [by apply IH| |].
    + cbn. apply StronglySorted_cons_2; [by apply IH|].
      intros z ([k b] & -> & [H|H]%diff_list_keys)%list_elem_of_fmap; cbn; [by apply Hx|].
      apply elem_of_cons in H as [->|H]; [done|].
      eapply bytes_lt_trans; [exact E|by apply Hy].
    + apply bytes_gt_lt in E. cbn. apply StronglySorted_cons_2; [by apply IHn|].
      intros z ([k b] & -> & H)%list_elem_of_fmap; cbn.
      change ((k, b) ∈ diff_list (x :: old) new) in H.
      apply diff_list_keys in H as [H|H]; [|by apply Hy].
      apply elem_of_cons in H as [->|H]; [done|].
      eapply bytes_lt_trans; [exact E|by apply Hx].
Qed.

(** ** Properties *)

(** [StoreMin] linearises under any interference: it leaves the minimum of
    its bound and the value [cur] the atomic held when it took effect, which
    is the initial value or one stored by another goroutine. *)
Lemma StoreMin_linearizable interference a b :
  ∃ cur, (cur = a ∨ Some cur ∈ interference) ∧
    StoreMin interference a b = Z.min cur b.
Proof.
  revert a; induction interference as [|[v|] env IH]; intros a; simpl.
  - exists a. split; [by left|]. destruct (a <=? b) eqn:?; bool_lia.
  - destruct (a <=? b) eqn:E; [exists a; split; [by left|bool_lia]|].
    destruct (v =? a) eqn:E'; [exists a; split; [by left|bool_lia]|].
    destruct (IH v) as (cur & [->|Hc] & ->).
    + exists v. split; [right; by left|done].
    + exists cur. split; [right; by right|done].
  - exists a. split; [by left|]. destruct (a <=? b) eqn:?; bool_lia.
Qed.

Lemma StoreMin_quiet a b : StoreMin [] a b = Z.min a b.
Proof. simpl. destruct (a <=? b) eqn:?; bool_lia. Qed.

Lemma DecrAtomic_sub a : DecrAtomic a = u64 (a - 1).
Proof. apply u64_decr. Qed.

Lemma DecrAtomic_pos a : 0 < a < W64 → DecrAtomic a = a - 1.
Proof. intros. rewrite DecrAtomic_sub. apply u64_id. unfold u64_range. lia. Qed.

Lemma FetchIncr_spec a : u64_range a → FetchIncr a = (u64 (a + 1), a).
Proof.
  intros H. unfold FetchIncr. f_equal. unfold u64 at 1 2.
  rewrite Zminus_mod_idemp_l. replace (a + 1 - 1) with a by lia.
  by apply Z.mod_small.
Qed.

Lemma BytesBeyond_spec a b asc :
  BytesBeyond a b asc = true ↔ if asc then bytes_lt b a else bytes_lt a b.
Proof.
  unfold BytesBeyond. destruct asc.
  - rewrite <- bytes_gt_lt. by destruct (bytes_compare a b).
  - unfold bytes_lt. by destruct (bytes_compare a b).
Qed.
