(* ===== verification/BTree.v ===== *)
(** * btree.go: the copy-on-write wrapper over an ordered tree

    The B-tree itself is the third-party package [tidwall/btree]; it is a
    parameter here, the type class [BTreeLib], with what its documentation
    promises in [BTreeLaws].  A tree is observed through [bt_Scan], the
    items a full scan visits.  [ListTree] is a concrete implementation by
    sorted lists, used to show that the laws can be met and to run witnesses. *)

From Stdlib Require Import ZArith Lia.
From S2P Require Import Prelude.

(** The zero value of a Go type. *)
Class GoZero (T : Type) := zero : T.

#[export] Instance zero_Z : GoZero Z := 0%Z.
#[export] Instance zero_option A : GoZero (option A) := None.
#[export] Instance zero_list A : GoZero (list A) := [].

(** ** The ordered-tree package *)

Class BTreeLib := {
  btree : ∀ T : Type, (T → T → bool) → Type;
  bt_new : ∀ {T less}, btree T less;
  bt_Get : ∀ {T less}, btree T less → T → option T;
  bt_Set : ∀ {T less}, btree T less → T → btree T less * option T;
  bt_Delete : ∀ {T less}, btree T less → T → btree T less * option T;
  bt_Scan : ∀ {T less}, btree T less → list T;
  bt_Max : ∀ {T less}, btree T less → option T;
  bt_Len : ∀ {T less}, btree T less → nat;
  (** the items [Descend] visits from a pivot, while the callback goes on *)
  bt_Descend : ∀ {T less}, btree T less → T → list T;
  bt_iter : ∀ T : Type, (T → T → bool) → Type;
  bt_Iter : ∀ {T less}, btree T less → bt_iter T less;
  iter_Seek : ∀ {T less}, bt_iter T less → T → bt_iter T less * bool;
  iter_First : ∀ {T less}, bt_iter T less → bt_iter T less * bool;
  iter_Last : ∀ {T less}, bt_iter T less → bt_iter T less * bool;
  iter_Next : ∀ {T less}, bt_iter T less → bt_iter T less * bool;
  iter_Prev : ∀ {T less}, bt_iter T less → bt_iter T less * bool;
  iter_Item : ∀ {T less} `{!GoZero T}, bt_iter T less → T;
  (** ghost observations of an iterator: its tree's items and its position *)
  iter_items : ∀ {T less}, bt_iter T less → list T;
  iter_pos : ∀ {T less}, bt_iter T less → option nat;
}.

(** The comparison a tree is built with. *)
Class StrictWeak {T} (less : T → T → bool) : Prop := {
  less_irrefl : ∀ x, less x x = false;
  less_trans : ∀ x y z, less x y = true → less y z = true → less x z = true;
  less_cotrans : ∀ x y z, less x z = true → less x y = true ∨ less y z = true;
}.

Definition same {T} (less : T → T → bool) (x y : T) : bool :=
  negb (less x y) && negb (less y x).

(** What [Set] and [Delete] do to the scanned items. *)
Fixpoint ins {T} (less : T → T → bool) (x : T) (l : list T) : list T :=
  match l with
  | [] => [x]
  | y :: l' =>
      if less x y then x :: l
      else if less y x then y :: ins less x l' else x :: l'
  end.

Fixpoint del {T} (less : T → T → bool) (x : T) (l : list T) : list T :=
  match l with
  | [] => []
  | y :: l' =>
      if less x y then l
      else if less y x then y :: del less x l' else l'
  end.

(** Index of the first item not below the pivot. *)
Fixpoint seek_index {T} (less : T → T → bool) (x : T) (l : list T) : nat :=
  match l with
  | [] => 0
  | y :: l' => if less y x then S (seek_index less x l') else 0
  end.

(** The position [i] when it is one, and whether there is one. *)
Definition moved {T} (items : list T) (i : nat) : option nat * bool :=
  if decide (i < length items) then (Some i, true) else (None, false).

Class BTreeLaws `{!BTreeLib} : Prop := {
  Scan_new {T} {less : T → T → bool} : bt_Scan (bt_new (less := less)) = [];
  Scan_Set {T} {less : T → T → bool} `{!StrictWeak less} (t : btree T less) x :
    bt_Scan (bt_Set t x).1 = ins less x (bt_Scan t);
  Scan_Delete {T} {less : T → T → bool} `{!StrictWeak less} (t : btree T less) x :
    bt_Scan (bt_Delete t x).1 = del less x (bt_Scan t);
  Get_Scan {T} {less : T → T → bool} `{!StrictWeak less} (t : btree T less) x :
    bt_Get t x = findb (same less x) (bt_Scan t);
  Max_Scan {T} {less : T → T → bool} `{!StrictWeak less} (t : btree T less) :
    bt_Max t = last (bt_Scan t);
  Len_Scan {T} {less : T → T → bool} `{!StrictWeak less} (t : btree T less) :
    bt_Len t = length (bt_Scan t);
  Descend_Scan {T} {less : T → T → bool} `{!StrictWeak less} (t : btree T less) x :
    bt_Descend t x = reverse (filter (λ y, less x y = false) (bt_Scan t));
  Iter_items {T} {less : T → T → bool} (t : btree T less) :
    iter_items (bt_Iter t) = bt_Scan t;
  Seek_spec {T} {less : T → T → bool} `{!StrictWeak less} (it : bt_iter T less) x :
    iter_items (iter_Seek it x).1 = iter_items it ∧
    let p := moved (iter_items it) (seek_index less x (iter_items it)) in
    (iter_Seek it x).2 = p.2 ∧ (p.2 = true → iter_pos (iter_Seek it x).1 = p.1);
  First_spec {T} {less : T → T → bool} `{!StrictWeak less} (it : bt_iter T less) :
    iter_items (iter_First it).1 = iter_items it ∧
    let p := moved (iter_items it) 0 in
    (iter_First it).2 = p.2 ∧ (p.2 = true → iter_pos (iter_First it).1 = p.1);
  Last_spec {T} {less : T → T → bool} `{!StrictWeak less} (it : bt_iter T less) :
    iter_items (iter_Last it).1 = iter_items it ∧
    let p := moved (iter_items it) (length (iter_items it) - 1) in
    (iter_Last it).2 = p.2 ∧ (p.2 = true → iter_pos (iter_Last it).1 = p.1);
  Next_spec {T} {less : T → T → bool} `{!StrictWeak less} (it : bt_iter T less) i :
    iter_pos it = Some i →
    iter_items (iter_Next it).1 = iter_items it ∧
    let p := moved (iter_items it) (S i) in
    (iter_Next it).2 = p.2 ∧ (p.2 = true → iter_pos (iter_Next it).1 = p.1);
  Prev_spec {T} {less : T → T → bool} `{!StrictWeak less} (it : bt_iter T less) i :
    iter_pos it = Some i →
    iter_items (iter_Prev it).1 = iter_items it ∧
    (iter_Prev it).2 = bool_decide (0 < i) ∧
    (0 < i → iter_pos (iter_Prev it).1 = Some (i - 1));
  Item_spec {T} {less : T → T → bool} `{!GoZero T} (it : bt_iter T less) i :
    iter_pos it = Some i → i < length (iter_items it) →
    iter_items it !! i = Some (iter_Item it);
}.

(** ** Items kept in order *)

Section sorted_items.
Context {T} (less : T → T → bool) `{!StrictWeak less}.

Definition below (x y : T) : Prop := less x y = true.

#[export] Instance below_strict : StrictOrder below.
Proof.
  split.
  - intros x H. unfold below in H. by rewrite less_irrefl in H.
  - intros x y z. apply less_trans.
Qed.

Lemma same_refl x : same less x x = true.
Proof. unfold same. by rewrite (less_irrefl (less := less) x). Qed.

Lemma same_spec x y : same less x y = true ↔ less x y = false ∧ less y x = false.
Proof. unfold same. destruct (less x y), (less y x); naive_solver. Qed.

Lemma same_sym x y : same less x y = same less y x.
Proof. unfold same. apply andb_comm. Qed.

(** Equivalent items compare alike. *)
Lemma same_less_l x y z : same less x y = true → less x z = less y z.
Proof.
  intros [H1 H2]%same_spec. destruct (less x z) eqn:A, (less y z) eqn:B; try done.
  - destruct (less_cotrans x y z A); congruence.
  - destruct (less_cotrans y x z B); congruence.
Qed.

Lemma same_less_r x y z : same less x y = true → less z x = less z y.
Proof.
  intros [H1 H2]%same_spec. destruct (less z x) eqn:A, (less z y) eqn:B; try done.
  - destruct (less_cotrans z y x A); congruence.
  - destruct (less_cotrans z x y B); congruence.
Qed.

Lemma same_trans x y z : same less x y = true → same less x z = same less y z.
Proof.
  intros H. unfold same. by rewrite (same_less_l x y z), (same_less_r x y z).
Qed.

Lemma elem_of_ins x l z : z ∈ ins less x l → z = x ∨ z ∈ l.
Proof.
  induction l as [|y l IH]; simpl; [set_solver|].
  destruct (less x y), (less y x); set_solver.
Qed.

Lemma elem_of_del x l z : z ∈ del less x l → z ∈ l.
Proof.
  induction l as [|y l IH]; simpl; [done|].
  destruct (less x y), (less y x); set_solver.
Qed.

Lemma ins_sorted x l : StronglySorted below l → StronglySorted below (ins less x l).
Proof.
  induction l as [|y l IH]; simpl; intros H.
  - apply StronglySorted_cons_2; [done|]. by intros ? ?%elem_of_nil.
  - pose proof H as H'. apply StronglySorted_cons_inv in H as [Hl Hy].
    destruct (less x y) eqn:A; [|destruct (less y x) eqn:B].
    + apply StronglySorted_cons_2; [done|].
      intros z [->|Hz]%elem_of_cons; [done|]. eapply less_trans; eauto. by apply Hy.
    + apply StronglySorted_cons_2; [by apply IH|].
      intros z [->|Hz]%elem_of_ins; [done|by apply Hy].
    + apply StronglySorted_cons_2; [done|].
      intros z Hz. unfold below. rewrite (same_less_l x y z); [by apply Hy|].
      by apply same_spec.
Qed.

Lemma del_sorted x l : StronglySorted below l → StronglySorted below (del less x l).
Proof.
  induction l as [|y l IH]; simpl; intros H; [done|].
  pose proof H as H'. apply StronglySorted_cons_inv in H as [Hl Hy].
  destruct (less x y), (less y x); try done; auto;
    apply StronglySorted_cons_2; auto; intros z Hz%elem_of_del; by apply Hy.
Qed.

(** Lookup after an insertion and after a deletion. *)
Lemma findb_ins x z l :
  StronglySorted below l →
  findb (same less z) (ins less x l) =
    if same less z x then Some x else findb (same less z) l.
Proof.
  induction l as [|y l IH]; simpl; intros H; [done|].
  apply StronglySorted_cons_inv in H as [Hl Hy].
  destruct (less x y) eqn:A; [|destruct (less y x) eqn:B]; simpl.
  - done.
  - rewrite IH by done. destruct (same less z x) eqn:C; [|done].
    rewrite (same_trans z x y) by done. unfold same. by rewrite A, B.
  - destruct (same less z x) eqn:C; [done|].
    assert (same less x y = true) as D by (by apply same_spec).
    rewrite same_sym, <- (same_trans x y z), same_sym, C by done. done.
Qed.

Lemma findb_above x l :
  (∀ y, y ∈ l → less x y = true) → findb (same less x) l = None.
Proof.
  intros H. apply findb_None. intros y Hy. unfold same. by rewrite H.
Qed.

Lemma findb_del x z l :
  StronglySorted below l →
  findb (same less z) (del less x l) =
    if same less z x then None else findb (same less z) l.
Proof.
  induction l as [|y l IH]; simpl; intros H; [by destruct (same less z x)|].
  apply StronglySorted_cons_inv in H as [Hl Hy].
  destruct (less x y) eqn:A; [|destruct (less y x) eqn:B]; simpl.
  - destruct (same less z x) eqn:C; [|done].
    rewrite (same_trans z x y) by done. unfold same at 1. rewrite A; simpl.
    apply findb_above. intros w Hw. rewrite (same_less_l z x w) by done.
    eapply less_trans; [exact A|by apply Hy].
  - rewrite IH by done. destruct (same less z x) eqn:C; [|done].
    rewrite (same_trans z x y) by done. unfold same. by rewrite A, B.
  - assert (same less x y = true) as D by (by apply same_spec).
    rewrite (same_sym z x), (same_trans x y z), (same_sym y z) by done.
    destruct (same less z y) eqn:C; [|done].
    apply findb_above. intros w Hw. rewrite (same_less_l z y w) by done. by apply Hy.
Qed.

Lemma above_not_same x (l : list T) y :
  (∀ z, z ∈ l → less x z = true) → y ∈ l → same less x y = false.
Proof. intros H Hy. unfold same. by rewrite (H y Hy). Qed.

(** Members after an insertion and after a deletion. *)
Lemma elem_of_ins_iff x (l : list T) z :
  StronglySorted below l → z ∈ ins less x l ↔ z = x ∨ (z ∈ l ∧ same less x z = false).
Proof.
  induction l as [|y l IH]; simpl; intros H; [set_solver|].
  apply StronglySorted_cons_inv in H as [Hl Hy].
  destruct (less x y) eqn:A; [|destruct (less y x) eqn:B].
  - assert (∀ w, w ∈ y :: l → less x w = true) as Hx.
    { intros w [->|Hw]%elem_of_cons; [done|]. eapply less_trans; [exact A|by apply Hy]. }
    pose proof (above_not_same x (y :: l) z Hx). rewrite (elem_of_cons _ z x). tauto.
  - rewrite !elem_of_cons, (IH Hl).
    assert (same less x y = false) by (unfold same; by rewrite A, B). naive_solver.
  - assert (same less x y = true) as D by (by apply same_spec).
    assert (∀ w, w ∈ l → less x w = true) as Hx.
    { intros w Hw. rewrite (same_less_l x y w D). by apply Hy. }
    pose proof (above_not_same x l z Hx). rewrite !elem_of_cons.
    split; [intros [->|Hz]; [by left|right; auto]|].
    intros [->|[[->|Hz] Hs]]; [by left|congruence|by right].
Qed.

Lemma elem_of_del_iff x (l : list T) z :
  StronglySorted below l → z ∈ del less x l ↔ z ∈ l ∧ same less x z = false.
Proof.
  induction l as [|y l IH]; simpl; intros H; [set_solver|].
  apply StronglySorted_cons_inv in H as [Hl Hy].
  destruct (less x y) eqn:A; [|destruct (less y x) eqn:B].
  - assert (∀ w, w ∈ y :: l → less x w = true) as Hx.
    { intros w [->|Hw]%elem_of_cons; [done|]. eapply less_trans; [exact A|by apply Hy]. }
    pose proof (above_not_same x (y :: l) z Hx). tauto.
  - rewrite !elem_of_cons, (IH Hl).
    assert (same less x y = false) by (unfold same; by rewrite A, B). naive_solver.
  - assert (same less x y = true) as D by (by apply same_spec).
    assert (∀ w, w ∈ l → less x w = true) as Hx.
    { intros w Hw. rewrite (same_less_l x y w D). by apply Hy. }
    pose proof (above_not_same x l z Hx). rewrite !elem_of_cons.
    split; [auto|]. intros [[->|Hz] Hs]; [congruence|done].
Qed.

(** In a sorted list an item is the one found under its own key. *)
Lemma findb_sorted x l :
  StronglySorted below l → x ∈ l → findb (same less x) l = Some x.
Proof.
  induction l as [|y l IH]; simpl; intros H Hx; [by apply elem_of_nil in Hx|].
  apply StronglySorted_cons_inv in H as [Hl Hy].
  apply elem_of_cons in Hx as [->|Hx]; [by rewrite same_refl|].
  assert (same less x y = false) as ->; [|by apply IH].
  unfold same. rewrite (Hy x Hx). by rewrite andb_false_r.
Qed.
End sorted_items.

#[export] Hint Resolve ins_sorted del_sorted : go.

(** ** The copy-on-write wrapper

    [BTree] holds an atomic pointer to an immutable tree.  Every update loads
    the pointer, copies and changes the tree, and swaps the pointer; the
    swap fails when another goroutine published its own tree meanwhile.
    [interference] lists those trees, one per failed attempt. *)

Section wrapper.
Context {BT : BTreeLib} {T : Type} {less : T → T → bool}.

Definition BTree : Type := btree T less.
Definition NewBTree : BTree := bt_new.
Definition Get (bt : BTree) (item : T) : option T := bt_Get bt item.

Fixpoint GetOrDefault (interference : list BTree) (bt : BTree) (item : T)
    (fillDefaults : T → T) : BTree * T :=
  match bt_Get bt item with
  | Some result => (bt, result)
  | None =>
      let item' := fillDefaults item in
      let c := (bt_Set bt item').1 in
      match interference with
      | [] => (c, item')
      | bt' :: rest => GetOrDefault rest bt' item' fillDefaults
      end
  end.

Fixpoint Set_ (interference : list BTree) (bt : BTree) (item : T) : BTree * option T :=
  let '(c, prev) := bt_Set bt item in
  match interference with
  | [] => (c, prev)
  | bt' :: rest => Set_ rest bt' item
  end.

Fixpoint Delete (interference : list BTree) (bt : BTree) (item : T) : BTree * option T :=
  let '(c, prev) := bt_Delete bt item in
  match interference with
  | [] => (c, prev)
  | bt' :: rest => Delete rest bt' item
  end.

Definition Scan (bt : BTree) : list T := bt_Scan bt.
Definition Max (bt : BTree) : option T := bt_Max bt.
Definition Iter (bt : BTree) : bt_iter T less := bt_Iter bt.

(** The callback stops at the first item. *)
Definition ReverseSeek (bt : BTree) (pivot : T) : option T :=
  head (bt_Descend bt pivot).
End wrapper.
Arguments BTree {_} _ _.
Arguments NewBTree {_} _ _.

Section wrapper_facts.
Context {BT : BTreeLib} {BL : BTreeLaws} {T : Type} {less : T → T → bool} `{!StrictWeak less}.
Implicit Types bt : BTree T less.

(** The tree an update is applied to: the last one published by others. *)
Definition linearized (interference : list (BTree T less)) bt : BTree T less :=
  default bt (last interference).

Lemma linearized_cons bt' rest bt :
  linearized (bt' :: rest) bt = linearized rest bt'.
Proof. unfold linearized. rewrite last_cons. by destruct (last rest). Qed.

Lemma Set_linearizes interference bt item :
  Set_ interference bt item = bt_Set (linearized interference bt) item.
Proof.
  revert bt; induction interference as [|bt' rest IH]; intros bt; simpl.
  - change (linearized [] bt) with bt. by destruct (bt_Set bt item).
  - destruct (bt_Set bt item). by rewrite IH, linearized_cons.
Qed.

Lemma Delete_linearizes interference bt item :
  Delete interference bt item = bt_Delete (linearized interference bt) item.
Proof.
  revert bt; induction interference as [|bt' rest IH]; intros bt; simpl.
  - change (linearized [] bt) with bt. by destruct (bt_Delete bt item).
  - destruct (bt_Delete bt item). by rewrite IH, linearized_cons.
Qed.

(** [y] is the greatest item of [l] that is not above [x]. *)
Definition greatest_le (x : T) (l : list T) (y : T) : Prop :=
  y ∈ l ∧ less x y = false ∧ ∀ z, z ∈ l → less x z = false → z = y ∨ less z y = true.

Lemma greatest_le_unique x l y y' :
  greatest_le x l y → greatest_le x l y' → y = y'.
Proof.
  intros (Hy & Hxy & Hmax) (Hy' & Hxy' & Hmax').
  destruct (Hmax y' Hy' Hxy') as [|H1]; [done|].
  destruct (Hmax' y Hy Hxy) as [|H2]; [done|].
  pose proof (less_trans _ _ _ H1 H2) as F. by rewrite (less_irrefl (less := less)) in F.
Qed.

Lemma elem_of_le_filter x (l : list T) y :
  y ∈ filter (λ z, less x z = false) l ↔ less x y = false ∧ y ∈ l.
Proof. by rewrite list_elem_of_filter. Qed.

Lemma last_filter_greatest (x : T) (l : list T) y :
  StronglySorted (below less) l →
  last (filter (λ z, less x z = false) l) = Some y → greatest_le x l y.
Proof.
  induction l as [|w l IH]; intros Hl; [done|].
  apply StronglySorted_cons_inv in Hl as [Hl Hw].
  rewrite filter_cons. destruct (decide (less x w = false)) as [Hd|Hd].
  - rewrite last_cons. destruct (last (filter _ l)) as [y'|] eqn:E.
    + intros [= <-]. destruct (IH Hl) as (H1 & H2 & H3); [done|].
      split; [by right|]. split; [done|].
      intros z [->|Hz]%elem_of_cons Hxz; [right; by apply Hw|auto].
    + intros [= <-]. split; [by left|]. split; [done|].
      intros z [->|Hz]%elem_of_cons Hxz; [by left|].
      apply last_None in E. pose proof (proj2 (elem_of_le_filter x l z) (conj Hxz Hz)) as F.
      rewrite E in F. by apply elem_of_nil in F.
  - intros E. destruct (IH Hl E) as (H1 & H2 & H3).
    split; [by right|]. split; [done|].
    intros z [->|Hz]%elem_of_cons Hxz; [done|auto].
Qed.

Lemma last_filter_le (x : T) (l : list T) y :
  StronglySorted (below less) l →
  last (filter (λ z, less x z = false) l) = Some y ↔ greatest_le x l y.
Proof.
  intros Hl. split; [by apply last_filter_greatest|]. intros Hg.
  destruct (last (filter (λ z, less x z = false) l)) as [y'|] eqn:E.
  - f_equal. eapply greatest_le_unique; [by apply last_filter_greatest|done].
  - exfalso. apply last_None in E. destruct Hg as (Hy & Hxy & _).
    pose proof (proj2 (elem_of_le_filter x l y) (conj Hxy Hy)) as F.
    rewrite E in F. by apply elem_of_nil in F.
Qed.

(** [ReverseSeek] returns the greatest item not above the pivot. *)
Lemma ReverseSeek_spec bt pivot y :
  StronglySorted (below less) (Scan bt) →
  ReverseSeek bt pivot = Some y ↔ greatest_le pivot (Scan bt) y.
Proof.
  intros Hs. unfold ReverseSeek. rewrite Descend_Scan, head_reverse.
  by apply last_filter_le.
Qed.

Lemma ReverseSeek_None bt pivot :
  ReverseSeek bt pivot = None ↔ ∀ z, z ∈ Scan bt → less pivot z = true.
Proof.
  unfold ReverseSeek. rewrite Descend_Scan, head_reverse, last_None. split.
  - intros E z Hz. destruct (less pivot z) eqn:F; [done|].
    pose proof (proj2 (elem_of_le_filter pivot (bt_Scan bt) z) (conj F Hz)) as G.
    rewrite E in G. by apply elem_of_nil in G.
  - intros Hb. apply elem_of_nil_inv. intros z [F Hz]%elem_of_le_filter.
    apply Hb in Hz. congruence.
Qed.
End wrapper_facts.

(** ** An implementation by sorted lists *)

Record list_iter (T : Type) := ListIter { li_items : list T; li_pos : option nat }.
Arguments ListIter {_} _ _.
Arguments li_items {_} _.
Arguments li_pos {_} _.

Definition li_move {T} (items : list T) (i : nat) : list_iter T * bool :=
  let p := moved items i in (ListIter items p.1, p.2).

Definition ListTree : BTreeLib := {|
  btree T _ := list T;
  bt_new _ _ := [];
  bt_Get T less (t : list T) x := findb (same less x) t;
  bt_Set T less (t : list T) x := (ins less x t, findb (same less x) t);
  bt_Delete T less (t : list T) x := (del less x t, findb (same less x) t);
  bt_Scan T _ (t : list T) := t;
  bt_Max T _ (t : list T) := last t;
  bt_Len T _ (t : list T) := length t;
  bt_Descend T less (t : list T) x := reverse (filter (λ y, less x y = false) t);
  bt_iter T _ := list_iter T;
  bt_Iter T _ (t : list T) := ListIter t None;
  iter_Seek T less (it : list_iter T) x := li_move (li_items it) (seek_index less x (li_items it));
  iter_First T _ (it : list_iter T) := li_move (li_items it) 0;
  iter_Last T _ (it : list_iter T) := li_move (li_items it) (length (li_items it) - 1);
  iter_Next T _ (it : list_iter T) :=
    match li_pos it with Some i => li_move (li_items it) (S i) | None => (it, false) end;
  iter_Prev T _ (it : list_iter T) :=
    match li_pos it with
    | Some (S i) => (ListIter (li_items it) (Some i), true)
    | _ => (it, false)
    end;
  iter_Item T _ z (it : list_iter T) :=
    match li_pos it with Some i => default (@zero T z) (li_items it !! i) | None => @zero T z end;
  iter_items T _ (it : list_iter T) := li_items it;
  iter_pos T _ (it : list_iter T) := li_pos it;
|}.

Lemma ListTree_laws : @BTreeLaws ListTree.
Proof.
  split; try done.
  - intros T less _ it i Hi. simpl in *. by rewrite Hi.
  - intros T less _ it i Hi. simpl in *. rewrite Hi. destruct i; simpl; [done|].
    split; [done|]. split; [done|]. intros _. by rewrite Nat.sub_0_r.
  - intros T less z it i Hi Hlt. simpl in *. rewrite Hi.
    by apply lookup_lt_is_Some_2 in Hlt as [x ->].
Qed.
