(* ===== verification/BTreeIterator.v ===== *)
(** * btreeiterator.go: range iteration over a tree of keyed items

    [BTreeIteratorG] restricts the package's iterator to [start, end), in
    either direction.  The range theorem says which items a client sees. *)

From Stdlib Require Import ZArith Lia.
From S2P Require Import Prelude BTree.

(** types.go: items with a byte-string key, and their order. *)
Class KeyItem (T : Type) := GetKey : T → Bytes.

Definition KeyItemLess {T} `{!KeyItem T} (a b : T) : bool :=
  match bytes_compare (GetKey a) (GetKey b) with Lt => true | _ => false end.

#[export] Instance KeyItemLess_weak {T} `{!KeyItem T} : StrictWeak (@KeyItemLess T _).
Proof.
  split; unfold KeyItemLess.
  - intros x. by rewrite bytes_compare_refl.
  - intros x y z Hxy Hyz.
    destruct (bytes_compare (GetKey x) (GetKey y)) eqn:E1; try done.
    destruct (bytes_compare (GetKey y) (GetKey z)) eqn:E2; try done.
    by rewrite (bytes_lt_trans _ _ _ E1 E2).
  - intros x y z Hxz.
    destruct (bytes_compare (GetKey x) (GetKey z)) eqn:E; try done.
    destruct (trichotomyT bytes_lt (GetKey x) (GetKey y)) as [[H|H]|H].
    + left. by rewrite H.
    + right. by rewrite <- H, E.
    + right. by rewrite (bytes_lt_trans _ _ _ H E).
Qed.

Lemma KeyItemLess_lt {T} `{!KeyItem T} (a b : T) :
  KeyItemLess a b = true ↔ bytes_lt (GetKey a) (GetKey b).
Proof. unfold KeyItemLess, bytes_lt. by destruct (bytes_compare _ _). Qed.

Lemma same_key {T} `{!KeyItem T} (a b : T) :
  same KeyItemLess a b = true ↔ GetKey a = GetKey b.
Proof.
  rewrite same_spec. unfold KeyItemLess. rewrite <- bytes_compare_eq.
  rewrite (bytes_compare_antisym (GetKey a)). destruct (bytes_compare _ _); naive_solver.
Qed.

Section iterator.
Context {BT : BTreeLib} {T : Type} `{!KeyItem T, !GoZero T}.
Notation less := (@KeyItemLess T _).

Record BTreeIteratorG := MkBTreeIteratorG {
  iter : bt_iter T less;
  start : option Bytes;
  end_ : option Bytes;
  ascending : bool;
  valid : bool;
}.

Definition keyInRange (mi : BTreeIteratorG) (key : Bytes) : bool :=
  if ascending mi &&
     match end_ mi with
     | Some e => match bytes_compare key e with Lt => false | _ => true end
     | None => false
     end
  then false
  else if negb (ascending mi) &&
     match start mi with
     | Some s => match bytes_compare key s with Lt => true | _ => false end
     | None => false
     end
  then false
  else true.

Definition Item (mi : BTreeIteratorG) : T := iter_Item (iter mi).
Definition Key (mi : BTreeIteratorG) : Bytes := GetKey (Item mi).
Definition Valid (mi : BTreeIteratorG) : bool := valid mi.

Definition set_valid (mi : BTreeIteratorG) (b : bool) : BTreeIteratorG :=
  MkBTreeIteratorG (iter mi) (start mi) (end_ mi) (ascending mi) b.

(** [if mi.valid { mi.valid = mi.keyInRange(mi.Key()) }] *)
Definition check_range (mi : BTreeIteratorG) : BTreeIteratorG :=
  if valid mi then set_valid mi (keyInRange mi (Key mi)) else mi.

(** [mkItem] builds the item whose key is a bound; an absent bound is a
    nil key, [startItem.GetKey() == nil]. *)
Definition NewBTreeIteratorG (mkItem : Bytes → T) (start_ end__ : option Bytes)
    (it : bt_iter T less) (asc : bool) : BTreeIteratorG :=
  let '(it', v) :=
    if asc then
      match start_ with
      | Some s => iter_Seek it (mkItem s)
      | None => iter_First it
      end
    else
      match end__ with
      | Some e =>
          let '(it1, v1) := iter_Seek it (mkItem e) in
          if v1 then iter_Prev it1 (* end is exclusive *) else iter_Last it1
      | None => iter_Last it
      end in
  check_range (MkBTreeIteratorG it' start_ end__ asc v).

(** [None] is the panic of [assertValid]. *)
Definition Next (mi : BTreeIteratorG) : option BTreeIteratorG :=
  if Valid mi then
    let '(it', v) := if ascending mi then iter_Next (iter mi) else iter_Prev (iter mi) in
    Some (check_range (MkBTreeIteratorG it' (start mi) (end_ mi) (ascending mi) v))
  else None.

(** A client loop [for ; it.Valid(); it.Next()], at most [n] rounds. *)
Fixpoint collect (n : nat) (mi : BTreeIteratorG) : list T :=
  match n with
  | O => []
  | S n' =>
      if Valid mi then
        Item mi :: match Next mi with Some mi' => collect n' mi' | None => [] end
      else []
  end.
End iterator.
Arguments BTreeIteratorG {_} _ {_}.

(** ** The items a range iteration visits *)

Definition in_range (start_ end__ : option Bytes) (k : Bytes) : bool :=
  match start_ with Some s => negb (bytes_ltb k s) | None => true end &&
  match end__ with Some e => bytes_ltb k e | None => true end.

Section iterator_facts.
Context {BT : BTreeLib} {BL : BTreeLaws} {T : Type} `{!KeyItem T, !GoZero T}.
Notation less := (@KeyItemLess T _).
Context (mkItem : Bytes → T) (mkItem_key : ∀ k, GetKey (mkItem k) = k).

(** The iterator stands on item [i] of [l] and has checked its range. *)
Definition stands (mi : BTreeIteratorG T) (l : list T) (i : nat) : Prop :=
  iter_items (iter mi) = l ∧ iter_pos (iter mi) = Some i ∧ i < length l ∧
  ∃ x, l !! i = Some x ∧ Item mi = x ∧ valid mi = keyInRange mi (GetKey x).

Lemma check_range_stands it l i s e asc :
  iter_items it = l → iter_pos it = Some i → i < length l →
  stands (check_range (MkBTreeIteratorG it s e asc true)) l i.
Proof.
  intros Hl Hp Hlt. pose proof (Item_spec it i Hp) as Hi. rewrite Hl in Hi.
  specialize (Hi Hlt). repeat split; try done. by exists (iter_Item it).
Qed.

Lemma keyInRange_asc mi k :
  ascending mi = true →
  keyInRange mi k = match end_ mi with Some e => bytes_ltb k e | None => true end.
Proof.
  intros Ha. unfold keyInRange, bytes_ltb. rewrite Ha. simpl.
  destruct (end_ mi); [|done]. by destruct (bytes_compare k _).
Qed.

Lemma keyInRange_desc mi k :
  ascending mi = false →
  keyInRange mi k = match start mi with Some s => negb (bytes_ltb k s) | None => true end.
Proof.
  intros Ha. unfold keyInRange, bytes_ltb. rewrite Ha. simpl.
  destruct (start mi); [|done]. by destruct (bytes_compare k _).
Qed.

Lemma ltb_up (e k k' : Bytes) : bytes_lt k k' → bytes_ltb k e = false → bytes_ltb k' e = false.
Proof.
  intros H [->|H']%bytes_ltb_ge; apply bytes_ltb_ge; right; [done|].
  by eapply bytes_lt_trans.
Qed.

Lemma ltb_down (e k k' : Bytes) : bytes_lt k k' → bytes_ltb k' e = true → bytes_ltb k e = true.
Proof. rewrite !bytes_ltb_lt. apply bytes_lt_trans. Qed.

(** Ascending iteration from position [i]. *)
Lemma collect_asc n mi l i :
  StronglySorted (below less) l → ascending mi = true → stands mi l i →
  length l - i ≤ n →
  collect n mi =
    filter (λ x, match end_ mi with Some e => bytes_ltb (GetKey x) e | None => true end
                 = true) (drop i l).
Proof.
  intros Hs. revert mi i; induction n as [|n IH]; intros mi i Ha Hst Hn;
    destruct Hst as (Hl & Hp & Hlt & x & Hx & Hit & Hv); [lia|].
  rewrite (drop_S l x i Hx). simpl. unfold Valid.
  rewrite Hv, keyInRange_asc by done.
  destruct (match end_ mi with Some e => bytes_ltb (GetKey x) e | None => true end) eqn:E.
  - rewrite filter_cons_True by done. rewrite Hit. f_equal.
    unfold Next, Valid. rewrite Hv, keyInRange_asc, E, Ha by done.
    pose proof (Next_spec (iter mi) i Hp) as (HN1 & HN2 & HN3).
    destruct (iter_Next (iter mi)) as [it' v]; simpl in *. rewrite Hl in *.
    unfold moved in *. destruct (decide (S i < length l)) as [Hd|Hd]; simpl in *; subst v.
    + rewrite (IH _ (S i)); try done; [|lia].
      by apply check_range_stands; auto.
    + rewrite drop_ge by lia. destruct n; done.
  - rewrite filter_cons_False by congruence. symmetry.
    destruct (end_ mi) as [e|]; [|done].
    apply filter_none. intros y Hy.
    eapply ltb_up; [|exact E]. apply KeyItemLess_lt.
    apply (StronglySorted_app_1_elem_of (below less) (take (S i) l) (drop (S i) l));
      [by rewrite take_drop| |done].
    apply (list_elem_of_lookup_2 _ i). rewrite lookup_take_lt by lia. done.
Qed.

(** Descending iteration from position [i]. *)
Lemma collect_desc n mi l i :
  StronglySorted (below less) l → ascending mi = false → stands mi l i →
  i < n →
  collect n mi =
    reverse (filter (λ x, match start mi with Some s => negb (bytes_ltb (GetKey x) s)
                          | None => true end = true) (take (S i) l)).
Proof.
  intros Hs. revert mi i; induction n as [|n IH]; intros mi i Ha Hst Hn;
    destruct Hst as (Hl & Hp & Hlt & x & Hx & Hit & Hv); [lia|].
  rewrite (take_S_r l i x Hx), filter_app, reverse_app. simpl. unfold Valid.
  rewrite Hv, keyInRange_desc by done.
  destruct (match start mi with Some s => negb (bytes_ltb (GetKey x) s) | None => true end)
    eqn:E.
  - rewrite filter_cons_True by done. rewrite filter_nil, reverse_singleton, Hit. simpl.
    f_equal. unfold Next, Valid. rewrite Hv, keyInRange_desc, E, Ha by done.
    pose proof (Prev_spec (iter mi) i Hp) as (HN1 & HN2 & HN3).
    destruct (iter_Prev (iter mi)) as [it' v]; simpl in *. rewrite Hl in *.
    destruct i as [|i]; simpl in *.
    + rewrite HN2. destruct n; done.
    + rewrite HN2.
      specialize (HN3 ltac:(lia)). replace (i - 0) with i in HN3 by lia.
      rewrite (IH _ i); try done; [|lia].
      by apply check_range_stands; auto with lia.
  - rewrite filter_cons_False by congruence. rewrite filter_nil. simpl.
    destruct (start mi) as [s|]; [|done].
    rewrite filter_none; [done|]. intros y Hy.
    apply negb_false_iff in E. apply negb_false_iff.
    eapply ltb_down; [|exact E]. apply KeyItemLess_lt.
    apply (StronglySorted_app_1_elem_of (below less) (take i l) (drop i l));
      [by rewrite take_drop|done|].
    rewrite (drop_S l x i Hx). by left.
Qed.

Lemma seek_index_le (x : T) (l : list T) : seek_index less x l ≤ length l.
Proof. induction l as [|y l IH]; simpl; [done|]. destruct (less y x); lia. Qed.

Lemma seek_index_split (s : Bytes) (l : list T) :
  StronglySorted (below less) l →
  let n := seek_index less (mkItem s) l in
  (∀ y, y ∈ take n l → bytes_ltb (GetKey y) s = true) ∧
  (∀ y, y ∈ drop n l → bytes_ltb (GetKey y) s = false).
Proof.
  induction l as [|y l IH]; simpl; intros Hs; [set_solver|].
  apply StronglySorted_cons_inv in Hs as [Hs Hy]. specialize (IH Hs) as [IH1 IH2].
  destruct (less y (mkItem s)) eqn:E; simpl.
  - split; [|done]. intros z [->|Hz]%elem_of_cons; [|auto].
    apply bytes_ltb_lt. apply KeyItemLess_lt in E. by rewrite mkItem_key in E.
  - split; [set_solver|]. intros z [->|Hz]%elem_of_cons.
    + destruct (bytes_ltb (GetKey y) s) eqn:F; [|done].
      apply bytes_ltb_lt in F. rewrite <- (mkItem_key s) in F.
      apply KeyItemLess_lt in F. congruence.
    + destruct (bytes_ltb (GetKey z) s) eqn:F; [|done].
      specialize (Hy z Hz). apply KeyItemLess_lt in Hy.
      apply (ltb_down s) in Hy; [|done]. apply bytes_ltb_lt in Hy.
      rewrite <- (mkItem_key s) in Hy. apply KeyItemLess_lt in Hy. congruence.
Qed.
(** What the constructor does in each direction. *)
Lemma collect_from_none n mi : valid mi = false → collect n mi = [].
Proof. intros H. destruct n; simpl; [done|]. unfold Valid. by rewrite H. Qed.

(** The position a bound selects: items before it are below the bound. *)
Definition bound_split (b : option Bytes) (dflt : nat) (l : list T) : nat :=
  match b with Some k => seek_index less (mkItem k) l | None => dflt end.

Lemma moved_pos (l : list T) i (it : bt_iter T less) v :
  v = (moved l i).2 → ((moved l i).2 = true → iter_pos it = (moved l i).1) →
  v = bool_decide (i < length l) ∧ (i < length l → iter_pos it = Some i).
Proof. unfold moved. intros -> H. case_decide; simpl in *; rewrite ?bool_decide_eq_true_2, ?bool_decide_eq_false_2 by done; naive_solver. Qed.

Lemma forward_start s (t : BTree T less) :
  let r := match s with Some k => iter_Seek (Iter t) (mkItem k) | None => iter_First (Iter t) end in
  let i := bound_split s 0 (Scan t) in
  iter_items r.1 = Scan t ∧ r.2 = bool_decide (i < length (Scan t)) ∧
  (i < length (Scan t) → iter_pos r.1 = Some i).
Proof.
  destruct s as [k|]; simpl.
  - destruct (Seek_spec (Iter t) (mkItem k)) as (E1 & E2 & E3).
    unfold Iter in *. rewrite Iter_items in *. split; [done|]. by eapply moved_pos.
  - destruct (First_spec (Iter t)) as (E1 & E2 & E3).
    unfold Iter in *. rewrite Iter_items in *. split; [done|]. by eapply moved_pos.
Qed.

Lemma backward_start e (t : BTree T less) :
  let r := match e with
           | Some k => let '(it1, v1) := iter_Seek (Iter t) (mkItem k) in
                       if v1 then iter_Prev it1 else iter_Last it1
           | None => iter_Last (Iter t) end in
  let i := bound_split e (length (Scan t)) (Scan t) in
  iter_items r.1 = Scan t ∧ r.2 = bool_decide (0 < i) ∧
  (0 < i → iter_pos r.1 = Some (i - 1)).
Proof.
  assert (∀ it : bt_iter T less, iter_items it = Scan t →
    iter_items (iter_Last it).1 = Scan t ∧
    (iter_Last it).2 = bool_decide (0 < length (Scan t)) ∧
    (0 < length (Scan t) → iter_pos (iter_Last it).1 = Some (length (Scan t) - 1))) as HL.
  { intros it Hit. destruct (Last_spec it) as (E1 & E2 & E3). rewrite Hit in *.
    split; [done|]. destruct (moved_pos (Scan t) (length (Scan t) - 1)
      (iter_Last it).1 (iter_Last it).2) as [M1 M2]; [done|done|].
    split; [rewrite M1; apply bool_decide_ext; lia|]. intros. apply M2. lia. }
  destruct e as [k|]; simpl; [|apply HL; apply Iter_items].
  destruct (forward_start (Some k) t) as (E1 & E2 & E3); simpl in *.
  destruct (iter_Seek (Iter t) (mkItem k)) as [it1 v1]; simpl in *.
  pose proof (seek_index_le (mkItem k) (Scan t)) as Hle.
  case_bool_decide as Hd; subst v1.
  - destruct (Prev_spec it1 _ (E3 Hd)) as (P1 & P2 & P3). by rewrite P1.
  - destruct (HL it1 E1) as (L1 & L2 & L3).
    assert (seek_index less (mkItem k) (Scan t) = length (Scan t)) as -> by lia. done.
Qed.

Lemma bound_split_lo k (l : list T) y :
  StronglySorted (below less) l →
  y ∈ take (bound_split (Some k) 0 l) l → bytes_ltb (GetKey y) k = true.
Proof. intros Hs. by apply seek_index_split. Qed.

Lemma collect_new_asc s e (t : BTree T less) n :
  StronglySorted (below less) (Scan t) → length (Scan t) ≤ n →
  collect n (NewBTreeIteratorG mkItem s e (Iter t) true) =
    filter (λ x, in_range s e (GetKey x) = true) (Scan t).
Proof.
  intros Hs Hn. unfold NewBTreeIteratorG.
  destruct (forward_start s t) as (E1 & E2 & E3).
  destruct (match s with Some _ => _ | None => _ end) as [it v]; simpl in *.
  set (i := bound_split s 0 (Scan t)) in *.
  transitivity (filter (λ x, match e with Some e => bytes_ltb (GetKey x) e | None => true end
                 = true) (drop i (Scan t))).
  { case_bool_decide as Hd; subst v.
    - erewrite (collect_asc n _ (Scan t) i); [|done|done| |lia]; [done|].
      by apply check_range_stands; auto.
    - rewrite drop_ge by lia. by rewrite collect_from_none. }
  rewrite <- (take_drop i (Scan t)) at 2. rewrite filter_app, (filter_none _ (take i _)).
  - apply filter_ext_in. intros x Hx. unfold in_range. destruct s as [s|]; [|done].
    apply seek_index_split in Hx; [|done]. by rewrite Hx.
  - intros x Hx. unfold in_range. destruct s as [s|]; [|by apply elem_of_nil in Hx].
    apply bound_split_lo in Hx; [|done]. by rewrite Hx.
Qed.

Lemma collect_new_desc s e (t : BTree T less) n :
  StronglySorted (below less) (Scan t) → length (Scan t) ≤ n →
  collect n (NewBTreeIteratorG mkItem s e (Iter t) false) =
    reverse (filter (λ x, in_range s e (GetKey x) = true) (Scan t)).
Proof.
  intros Hs Hn. unfold NewBTreeIteratorG.
  destruct (backward_start e t) as (E1 & E2 & E3).
  destruct (match e with Some _ => _ | None => _ end) as [it v]; simpl in *.
  set (i := bound_split e (length (Scan t)) (Scan t)) in *.
  assert (i ≤ length (Scan t)) as Hi.
  { unfold i. destruct e; simpl; [apply seek_index_le|done]. }
  transitivity (reverse (filter (λ x, match s with Some s => negb (bytes_ltb (GetKey x) s)
                 | None => true end = true) (take i (Scan t)))).
  { case_bool_decide as Hd; subst v.
    - erewrite (collect_desc n _ (Scan t) (i - 1)); [|done|done| |lia].
      + simpl. by replace (S (i - 1)) with i by lia.
      + apply check_range_stands; auto. lia.
    - replace i with 0 by lia. by rewrite collect_from_none. }
  rewrite <- (take_drop i (Scan t)) at 2.
  rewrite filter_app, (filter_none _ (drop i _)), app_nil_r.
  - f_equal. apply filter_ext_in. intros x Hx. unfold in_range.
    destruct e as [e|]; [|by rewrite andb_true_r].
    apply bound_split_lo in Hx; [|done]. by rewrite Hx, andb_true_r.
  - intros x Hx. unfold in_range. unfold i in Hx. destruct e as [e|]; simpl in Hx.
    + apply seek_index_split in Hx; [|done]. by rewrite Hx, andb_false_r.
    + rewrite drop_all in Hx. by apply elem_of_nil in Hx.
Qed.

(** The items an iterator still has to show. *)
Inductive iterates : BTreeIteratorG T → list T → Prop :=
| iterates_nil mi : Valid mi = false → iterates mi []
| iterates_cons mi mi' l :
    Valid mi = true → Next mi = Some mi' → iterates mi' l → iterates mi (Item mi :: l).

Lemma iterates_nil_inv mi : iterates mi [] → Valid mi = false.
Proof. by inversion 1. Qed.

Lemma iterates_cons_inv mi x l :
  iterates mi (x :: l) → Valid mi = true ∧ Item mi = x ∧ ∃ mi', Next mi = Some mi' ∧ iterates mi' l.
Proof. inversion 1; subst. eauto. Qed.

Lemma collect_iterates n mi : length (collect n mi) < n → iterates mi (collect n mi).
Proof.
  revert mi; induction n as [|n IH]; intros mi Hn; simpl in *; [lia|].
  destruct (Valid mi) eqn:E; [|by constructor].
  assert (∃ mi', Next mi = Some mi') as [mi' Hmi'].
  { unfold Next. rewrite E. destruct (if ascending mi then _ else _). eauto. }
  rewrite Hmi' in *. simpl in Hn. eapply iterates_cons; [done..|]. apply IH. lia.
Qed.

(** What a full iteration shows: the items of the range, in order. *)
Lemma collect_new s e (t : BTree T less) asc n :
  StronglySorted (below less) (Scan t) → length (Scan t) ≤ n →
  collect n (NewBTreeIteratorG mkItem s e (Iter t) asc) =
    let l := filter (λ x, in_range s e (GetKey x) = true) (Scan t) in
    if asc then l else reverse l.
Proof. intros. destruct asc; [by apply collect_new_asc|by apply collect_new_desc]. Qed.
Definition range_items s e (asc : bool) (l : list T) : list T :=
  let r := filter (λ x, in_range s e (GetKey x) = true) l in
  if asc then r else reverse r.

Lemma range_items_length s e asc l : length (range_items s e asc l) ≤ length l.
Proof.
  unfold range_items. destruct asc; rewrite ?length_reverse; apply length_filter.
Qed.

Lemma iterates_new s e (t : BTree T less) asc :
  StronglySorted (below less) (Scan t) →
  iterates (NewBTreeIteratorG mkItem s e (Iter t) asc) (range_items s e asc (Scan t)).
Proof.
  intros Hs. pose proof (collect_new s e t asc (S (length (Scan t))) Hs ltac:(lia)) as E.
  change (collect (S (length (Scan t))) (NewBTreeIteratorG mkItem s e (Iter t) asc) =
    range_items s e asc (Scan t)) in E.
  rewrite <- E. apply collect_iterates. rewrite E.
  pose proof (range_items_length s e asc (Scan t)). lia.
Qed.
End iterator_facts.
