(* ===== verification/Types.v ===== *)
(** * types.go: versions, read descriptors and store interfaces

    The data shared by the multi-version memory, its views and the
    scheduler, and the interface of a key-value store. *)

From Stdlib Require Import ZArith Lia.
From S2P Require Import Prelude.
Local Open Scope Z_scope.

(** [TxnIndex] is an [int], [Incarnation] a [uint]. *)
Record TxnVersion := MkVersion { Index : Z; Incarnation : Z }.

#[export] Instance TxnVersion_eq_dec : EqDecision TxnVersion.
Proof. solve_decision. Defined.

Definition InvalidTxnVersion : TxnVersion := MkVersion (-1) 0.

Definition version_Valid (v : TxnVersion) : bool := 0 <=? Index v.

(** An invalid version says the key was read from storage. *)
Record ReadDescriptor := MkRead { rd_Key : Bytes; rd_Version : TxnVersion }.

#[export] Instance ReadDescriptor_eq_dec : EqDecision ReadDescriptor.
Proof. solve_decision. Defined.

(** [Start, End) is the range of the iterator; an absent bound is nil. *)
Record IteratorOptions := MkOptions {
  opt_Start : option Bytes;
  opt_End : option Bytes;
  opt_Ascending : bool;
}.

Record IteratorDescriptor := MkIteratorDescriptor {
  id_Options : IteratorOptions;
  id_Stop : option Bytes;
  id_Reads : list ReadDescriptor;
}.

Record ReadSet := MkReadSet {
  rs_Reads : list ReadDescriptor;
  rs_Iterators : list IteratorDescriptor;
}.

Definition emptyReadSet : ReadSet := MkReadSet [] [].

(** What the code uses of a [storetypes.GKVStore]: the state of a store and
    its point operations; [Set] panics on a zero value.  The laws say a
    store is a map in which the zero value stands for absence; [kv_ok] is
    the store's own invariant. *)
Class KVStore (S V : Type) := {
  kv_Get : S → Bytes → V;
  kv_Set : S → Bytes → V → outcome S;
  kv_Delete : S → Bytes → S;
}.

Class KVStoreLaws (S V : Type) `{!KVStore S V} (isZero : V → bool) (zero : V)
    (kv_ok : S → Prop) : Prop := {
  kv_Set_spec : ∀ s k v, kv_ok s → isZero v = false →
    ∃ s', kv_Set s k v = Returns s' ∧ kv_ok s' ∧
      ∀ k', kv_Get s' k' = if decide (k' = k) then v else kv_Get s k';
  kv_Delete_spec : ∀ s k, kv_ok s →
    kv_ok (kv_Delete s k) ∧
    ∀ k', kv_Get (kv_Delete s k) k' = if decide (k' = k) then zero else kv_Get s k';
}.
