(* ===== verification/MemDB.v ===== *)
(** * memdb.go: an ordered in-memory store

    Used as a base storage and, as an overlay, as the write set of a
    transaction, where the zero value marks a deleted key. *)

From Stdlib Require Import ZArith Lia.
From S2P Require Import Prelude BTree BTreeIterator Types.

Record memdbItem (V : Type) := MkMemdbItem { mi_key : Bytes; mi_value : V }.
Arguments MkMemdbItem {_} _ _.
Arguments mi_key {_} _.
Arguments mi_value {_} _.

#[export] Instance memdbItem_key V : KeyItem (memdbItem V) := mi_key.
#[export] Instance memdbItem_zero V `{!GoZero V} : GoZero (memdbItem V) :=
  MkMemdbItem [] zero.

Section memdb.
Context {BT : BTreeLib} {V : Type} `{!GoZero V} (isZero : V → bool).

Definition GMemDB : Type := btree (memdbItem V) KeyItemLess.

Definition NewGMemDB : GMemDB := bt_new.

(** The same without the tree's own locks. *)
Definition NewGMemDBNonConcurrent : GMemDB := bt_new.

Definition item_of (key : Bytes) : memdbItem V := MkMemdbItem key zero.

Definition mem_Get (db : GMemDB) (key : Bytes) : V :=
  match bt_Get db (item_of key) with
  | Some item => mi_value item
  | None => zero
  end.

Definition mem_Has (db : GMemDB) (key : Bytes) : bool := negb (isZero (mem_Get db key)).

(** A nil value panics. *)
Definition mem_Set (db : GMemDB) (key : Bytes) (value : V) : outcome GMemDB :=
  if isZero value then Panics
  else Returns (bt_Set db (MkMemdbItem key value)).1.

Definition mem_Delete (db : GMemDB) (key : Bytes) : GMemDB :=
  (bt_Delete db (item_of key)).1.

Definition OverlayGet (db : GMemDB) (key : Bytes) : V * bool :=
  match bt_Get db (item_of key) with
  | Some item => (mi_value item, true)
  | None => (zero, false)
  end.

Definition OverlaySet (db : GMemDB) (key : Bytes) (value : V) : GMemDB :=
  (bt_Set db (MkMemdbItem key value)).1.

(** [Scan] with a callback that never stops: its arguments, in order. *)
Definition mem_Scan (db : GMemDB) : list (Bytes * V) :=
  (λ item, (mi_key item, mi_value item)) <$> bt_Scan db.

Definition NewMemDBIterator (start_ end__ : option Bytes) (it : bt_iter (memdbItem V) KeyItemLess) (asc : bool) :
    BTreeIteratorG (memdbItem V) :=
  NewBTreeIteratorG item_of start_ end__ it asc.

Definition mem_iterator (db : GMemDB) (start_ end__ : option Bytes) (asc : bool) :
    BTreeIteratorG (memdbItem V) :=
  NewMemDBIterator start_ end__ (bt_Iter db) asc.

Definition mem_Iterator (db : GMemDB) (start_ end__ : option Bytes) := mem_iterator db start_ end__ true.
Definition mem_ReverseIterator (db : GMemDB) (start_ end__ : option Bytes) := mem_iterator db start_ end__ false.

Definition mem_Value (it : BTreeIteratorG (memdbItem V)) : V := mi_value (Item it).

(** The store behind the interface of types.go. *)
Definition memdb_store : KVStore GMemDB V := {|
  kv_Get := mem_Get;
  kv_Set := mem_Set;
  kv_Delete := mem_Delete;
|}.
End memdb.
Arguments GMemDB {_} _.
Arguments NewGMemDB {_} _.

Section memdb_facts.
Context {BT : BTreeLib} {BL : BTreeLaws} {V : Type} `{!GoZero V} (isZero : V → bool).
Implicit Types db : GMemDB V.

Definition mem_wf db : Prop := StronglySorted (below KeyItemLess) (bt_Scan db).

Lemma NewGMemDB_wf : mem_wf (NewGMemDB V).
Proof. unfold mem_wf, NewGMemDB. rewrite Scan_new. constructor. Qed.

Lemma OverlaySet_wf db k v : mem_wf db → mem_wf (OverlaySet db k v).
Proof. unfold mem_wf, OverlaySet. rewrite Scan_Set. apply ins_sorted, _. Qed.

Lemma mem_Delete_wf db k : mem_wf db → mem_wf (mem_Delete db k).
Proof. unfold mem_wf, mem_Delete. rewrite Scan_Delete. apply del_sorted, _. Qed.

Lemma same_item (k k' : Bytes) (v v' : V) :
  same KeyItemLess (MkMemdbItem k v) (MkMemdbItem k' v') = bool_decide (k = k').
Proof.
  destruct (same _ _ _) eqn:E.
  - apply same_key in E. by rewrite bool_decide_eq_true_2.
  - symmetry. apply bool_decide_eq_false_2. intros ->.
    assert (same KeyItemLess (MkMemdbItem k' v) (MkMemdbItem k' v') = true); [|congruence].
    by apply same_key.
Qed.

Lemma OverlayGet_Set db k v k' :
  mem_wf db →
  OverlayGet (OverlaySet db k v) k' = if decide (k' = k) then (v, true) else OverlayGet db k'.
Proof.
  intros Hwf. unfold OverlayGet, OverlaySet. rewrite !Get_Scan, Scan_Set.
  rewrite findb_ins by (apply _ || done). unfold item_of. rewrite same_item.
  repeat case_decide; case_bool_decide; try done.
Qed.

Lemma OverlayGet_Delete db k k' :
  mem_wf db →
  OverlayGet (mem_Delete db k) k' = if decide (k' = k) then (zero, false) else OverlayGet db k'.
Proof.
  intros Hwf. unfold OverlayGet, mem_Delete. rewrite !Get_Scan, Scan_Delete.
  rewrite findb_del by (apply _ || done). unfold item_of. rewrite same_item.
  repeat case_decide; case_bool_decide; try done.
Qed.

Lemma mem_Get_Overlay db k : mem_Get db k = (OverlayGet db k).1.
Proof. unfold mem_Get, OverlayGet. by destruct (bt_Get db (item_of k)). Qed.
(** The in-memory store implements the store interface. *)
Lemma memdb_store_laws :
  @KVStoreLaws (GMemDB V) V (memdb_store isZero) isZero zero mem_wf.
Proof.
  split; simpl.
  - intros db k v Hwf Hv. unfold mem_Set. rewrite Hv. eexists; split; [done|].
    split; [by apply OverlaySet_wf|]. intros k'.
    rewrite !mem_Get_Overlay. change (bt_Set _ _).1 with (OverlaySet db k v).
    rewrite OverlayGet_Set by done. by case_decide.
  - intros db k Hwf. split; [by apply mem_Delete_wf|]. intros k'.
    rewrite !mem_Get_Overlay, OverlayGet_Delete by done. by case_decide.
Qed.
End memdb_facts.
