(* ===== verification/MultiMemDB.v ===== *)
(** * memdb.go: a store per store key

    [MultiMemDB] keeps a memory database for every key it is made with, and
    hands out the database itself, which its callers then change. *)

From Stdlib Require Import ZArith Lia.
From S2P Require Import Prelude Utils BTree BTreeIterator Types MemDB.

(** What transactions use of the [MultiStore] of types.go.  [GetKVStore]
    returns a pointer; [on_KVStore] is the multi-store when the store behind it
    has become another. *)
Class MultiStore (M K S : Type) := {
  GetKVStore : M → K → outcome S;
  on_KVStore : M → K → S → M;
}.

Class MultiStoreLaws (M K S : Type) `{!MultiStore M K S, !EqDecision K} : Prop := {
  GetKVStore_on : ∀ m name s s' name',
    GetKVStore m name = Returns s →
    GetKVStore (on_KVStore m name s') name' = if decide (name' = name) then Returns s' else GetKVStore m name';
}.

Section multi.
Context {BT : BTreeLib} {MR : MapRange}.
(** Objects are of any type; [isObjectKey] tells an [ObjectStoreKey]. *)
Context {Obj StoreKey : Type} `{!EqDecision StoreKey, !Countable StoreKey} (isObjectKey : StoreKey → bool).

Abbreviation MemDB := (GMemDB (option Bytes)).
Abbreviation ObjMemDB := (GMemDB (option Obj)).

Definition NewMemDB : MemDB := NewGMemDB _.
Definition NewObjMemDB : ObjMemDB := NewGMemDB _.

(** The dynamic type of a [storetypes.Store]. *)
Inductive AnyStore :=
| KVMem (db : MemDB)
| ObjMem (db : ObjMemDB).

Record MultiMemDB := MkMultiMemDB { dbs : gmap StoreKey AnyStore }.

Definition NewMultiMemDB (stores : gmap StoreKey Z) : MultiMemDB :=
  MkMultiMemDB (foldl (λ dbs name,
    <[name := if isObjectKey name then ObjMem NewObjMemDB else KVMem NewMemDB]> dbs) ∅ (range stores).*1).

(** [None] is a nil interface. *)
Definition GetStore (mmdb : MultiMemDB) (store : StoreKey) : option AnyStore := dbs mmdb !! store.

(** The type assertions panic on nil and on the other kind of store. *)
Definition multi_GetKVStore (mmdb : MultiMemDB) (store : StoreKey) : outcome MemDB :=
  match GetStore mmdb store with Some (KVMem db) => Returns db | _ => Panics end.

Definition GetObjKVStore (mmdb : MultiMemDB) (store : StoreKey) : outcome ObjMemDB :=
  match GetStore mmdb store with Some (ObjMem db) => Returns db | _ => Panics end.

#[export] Instance memdb_multi : MultiStore MultiMemDB StoreKey MemDB := {|
  GetKVStore := multi_GetKVStore;
  on_KVStore mmdb name db := MkMultiMemDB (<[name := KVMem db]> (dbs mmdb));
|}.

(** ** Facts *)

Lemma made_dbs names (m : gmap StoreKey AnyStore) name :
  foldl (λ dbs name, <[name := if isObjectKey name then ObjMem NewObjMemDB else KVMem NewMemDB]> dbs) m names !! name =
  if decide (name ∈ names) then Some (if isObjectKey name then ObjMem NewObjMemDB else KVMem NewMemDB) else m !! name.
Proof.
  revert m. induction names as [|n names IH]; intros m; cbn [foldl]; [by rewrite decide_False by apply not_elem_of_nil|].
  rewrite IH. destruct (decide (name ∈ names)) as [H|H]; [by rewrite decide_True by (by right)|].
  destruct (decide (name = n)) as [->|Hn].
  - rewrite decide_True by (by left). by rewrite lookup_insert_eq.
  - rewrite decide_False by (rewrite elem_of_cons; tauto). by rewrite lookup_insert_ne by done.
Qed.

(** Every name has an empty store of its kind, and no other name has one. *)
Lemma NewMultiMemDB_stores (stores : gmap StoreKey Z) name :
  GetStore (NewMultiMemDB stores) name =
  if decide (is_Some (stores !! name))
  then Some (if isObjectKey name then ObjMem NewObjMemDB else KVMem NewMemDB) else None.
Proof.
  unfold GetStore, NewMultiMemDB. cbn [dbs]. rewrite made_dbs, lookup_empty. apply decide_ext.
  rewrite list_elem_of_fmap. setoid_rewrite range_perm. split.
  - intros ([n i] & -> & Hin). apply elem_of_map_to_list in Hin. by exists i.
  - intros [i Hi]. exists (name, i). split; [done|]. by apply elem_of_map_to_list.
Qed.

#[export] Instance memdb_multi_laws : MultiStoreLaws MultiMemDB StoreKey MemDB.
Proof.
  split. intros m name s s' name' _. cbn. unfold multi_GetKVStore, GetStore. cbn [dbs].
  case_decide as H; [subst; by rewrite lookup_insert_eq|by rewrite lookup_insert_ne by done].
Qed.
End multi.
Arguments AnyStore {_} _.
Arguments MultiMemDB {_} _ _ {_ _}.
