(* ===== verification/MVData.v ===== *)
(** * mvdata.go and mviterator.go: the multi-version store of one key space

    The outer tree maps a key to the pointer of an inner tree; an inner tree
    holds one entry per transaction that wrote the key.  Pointers are
    modelled: an iterator keeps the outer tree it was created on, and reads
    the inner trees as they are when it reaches them. *)

From Stdlib Require Import ZArith Lia.
From S2P Require Import Prelude Utils BTree BTreeIterator Types.
Local Open Scope Z_scope.

(** ** Entries *)

Record secondaryDataItem (V : Type) := MkSecondary {
  s_Index : Z;
  s_Incarnation : Z;
  s_Value : V;
  s_Estimate : bool;
}.
Arguments MkSecondary {_} _ _ _ _.
Arguments s_Index {_} _.
Arguments s_Incarnation {_} _.
Arguments s_Value {_} _.
Arguments s_Estimate {_} _.

Definition secondaryLesser {V} (a b : secondaryDataItem V) : bool := s_Index a <? s_Index b.

Definition secondary_Version {V} (item : secondaryDataItem V) : TxnVersion :=
  MkVersion (s_Index item) (s_Incarnation item).

#[export] Instance secondaryLesser_weak V : StrictWeak (@secondaryLesser V).
Proof.
  split; unfold secondaryLesser.
  - intros x. apply Z.ltb_irrefl.
  - intros x y z. rewrite !Z.ltb_lt. lia.
  - intros x y z. rewrite !Z.ltb_lt. lia.
Qed.

(** A pointer to an inner tree; [None] is nil. *)
Abbreviation loc := nat.

Record dataItem := MkDataItem { d_Key : Bytes; d_Tree : option loc }.

#[export] Instance dataItem_key : KeyItem dataItem := d_Key.
#[export] Instance dataItem_zero : GoZero dataItem := MkDataItem [] None.

Section mvdata.
Context {BT : BTreeLib} {V : Type} `{!GoZero V} (isZero : V → bool).

Abbreviation innerTree := (BTree (secondaryDataItem V) secondaryLesser).
Abbreviation outerTree := (BTree dataItem KeyItemLess).

(** The inner trees by address. *)
Abbreviation world := (gmap loc innerTree).

Record GMVData := MkMVData {
  outer : outerTree;
  inner : world;
  next_loc : loc;
}.

Definition NewGMVData : GMVData := MkMVData bt_new ∅ 0.

Definition txn_item (txn : Z) : secondaryDataItem V := MkSecondary txn 0 zero false.

(** [seekClosestTxn]: the closest transaction below [txn]. *)
Definition seekClosestTxn (tree : innerTree) (txn : Z) : option (secondaryDataItem V) :=
  ReverseSeek tree (txn_item (txn - 1)).

(** [nil] if not found. *)
Definition getTree (d : GMVData) (key : Bytes) : option loc :=
  match Get (outer d) (MkDataItem key None) with
  | Some item => d_Tree item
  | None => None
  end.

(** The callback allocates the inner tree at the next address. *)
Definition getTreeOrDefault (d : GMVData) (key : Bytes) : GMVData * option loc :=
  let '(outer', item) :=
    GetOrDefault [] (outer d) (MkDataItem key None)
      (λ item, match d_Tree item with
               | None => MkDataItem (d_Key item) (Some (next_loc d))
               | Some _ => item
               end) in
  if decide (d_Tree item = Some (next_loc d)) then
    (MkMVData outer' (<[next_loc d := NewBTree _ _]> (inner d)) (S (next_loc d)), d_Tree item)
  else (MkMVData outer' (inner d) (next_loc d), d_Tree item).

(** An update through the pointer [getTreeOrDefault] returned. *)
Definition update_tree (d : GMVData) (key : Bytes) (f : innerTree → innerTree) :
    outcome GMVData :=
  let '(d', tree) := getTreeOrDefault d key in
  l ← deref tree;
  t ← deref (inner d' !! l);
  Returns (MkMVData (outer d') (<[l := f t]> (inner d')) (next_loc d')).

Definition Write (d : GMVData) (key : Bytes) (value : V) (version : TxnVersion) :
    outcome GMVData :=
  update_tree d key (λ t,
    (Set_ [] t (MkSecondary (Index version) (Incarnation version) value false)).1).

Definition WriteEstimate (d : GMVData) (key : Bytes) (txn : Z) : outcome GMVData :=
  update_tree d key (λ t, (Set_ [] t (MkSecondary txn 0 zero true)).1).

Definition MVDelete (d : GMVData) (key : Bytes) (txn : Z) : outcome GMVData :=
  update_tree d key (λ t, (Delete [] t (txn_item txn)).1).

(** Value, version, and whether an ESTIMATE was found. *)
Definition Read (d : GMVData) (key : Bytes) (txn : Z) : outcome (V * TxnVersion * bool) :=
  if txn =? 0 then Returns (zero, InvalidTxnVersion, false)
  else
    match getTree d key with
    | None => Returns (zero, InvalidTxnVersion, false)
    | Some l =>
        tree ← deref (inner d !! l);
        match seekClosestTxn tree txn with
        | None => Returns (zero, InvalidTxnVersion, false)
        | Some item => Returns (s_Value item, secondary_Version item, s_Estimate item)
        end
    end.

(** ** The multi-version iterator *)

Record MVIterator := MkMVIterator {
  base : BTreeIteratorG dataItem;
  mv_txn : Z;
  mv_value : V;
  mv_version : TxnVersion;
  mv_reads : list ReadDescriptor;
  readEstimateValue : bool;
}.

(** [waitFn] blocks until another transaction has finished; what the others
    did meanwhile is a change of the inner trees.  [None] is validation
    mode. *)
Context (waitFn : option (Z → world → world)).

Definition Executing : bool := match waitFn with Some _ => true | None => false end.

(** [Returns (w, Some v, true)]: found; [(w, None, true)]: no entry below
    [txn]; [(w, None, false)]: an estimate in validation mode. *)
Fixpoint resolveValueInner (fuel : nat) (w : world) (tree : option loc) (txn : Z) :
    outcome (world * option (secondaryDataItem V) * bool) :=
  match fuel with
  | O => Waits
  | S fuel' =>
      l ← deref tree;
      t ← deref (w !! l);
      match seekClosestTxn t txn with
      | None => Returns (w, None, true)
      | Some v =>
          if s_Estimate v then
            match waitFn with
            | Some wait => resolveValueInner fuel' (wait (s_Index v) w) tree txn
            | None => Returns (w, None, false)
            end
          else Returns (w, Some v, true)
      end
  end.

Definition set_base (it : MVIterator) (b : BTreeIteratorG dataItem) : MVIterator :=
  MkMVIterator b (mv_txn it) (mv_value it) (mv_version it) (mv_reads it)
    (readEstimateValue it).

(** Skips the keys without a visible entry, and caches the first one found. *)
Fixpoint resolveValue (fuel : nat) (w : world) (it : MVIterator) : outcome (world * MVIterator) :=
  if Valid (base it) then
    match fuel with
    | O => Waits
    | S fuel' =>
        '(w', v, ok) ← resolveValueInner fuel w (d_Tree (Item (base it))) (mv_txn it);
        if negb ok then
          (* abort the iterator, signal the validation to fail *)
          Returns (w', MkMVIterator (set_valid (base it) false) (mv_txn it) (mv_value it)
                         (mv_version it) (mv_reads it) true)
        else
          match v with
          | None =>
              b ← deref (Next (base it));
              resolveValue fuel' w' (set_base it b)
          | Some v =>
              let version := secondary_Version v in
              let reads :=
                if Executing
                then mv_reads it ++ [MkRead (d_Key (Item (base it))) version]
                else mv_reads it in
              Returns (w', MkMVIterator (base it) (mv_txn it) (s_Value v) version reads
                             (readEstimateValue it))
          end
    end
  else Returns (w, it).

Definition NewMVIterator (fuel : nat) (opts : IteratorOptions) (txn : Z)
    (it : bt_iter dataItem KeyItemLess) (w : world) : outcome (world * MVIterator) :=
  resolveValue fuel w
    (MkMVIterator
       (NewBTreeIteratorG (λ k, MkDataItem k None) (opt_Start opts) (opt_End opts) it
          (opt_Ascending opts))
       txn zero (MkVersion 0 0) [] false).

Definition MVNext (fuel : nat) (w : world) (it : MVIterator) : outcome (world * MVIterator) :=
  b ← deref (Next (base it));
  resolveValue fuel w (set_base it b).
End mvdata.
Arguments GMVData {_} _.
Arguments NewGMVData {_} _.
Arguments MVIterator {_} _.

(** ** Validation *)

Section validation.
Context {BT : BTreeLib} {V : Type} `{!GoZero V}.

(** The replay loop of [validateIterator]; [i] counts the reads matched. *)
Fixpoint validate_loop (fuel : nat) (desc : IteratorDescriptor)
    (w : gmap loc (BTree (secondaryDataItem V) secondaryLesser)) (it : MVIterator V) (i : nat) :
    outcome bool :=
  let finish := Returns (negb (readEstimateValue it) && bool_decide (i = length (id_Reads desc))) in
  if Valid (base it) then
    match fuel with
    | O => Waits
    | S fuel' =>
        let key := Key (base it) in
        if match id_Stop desc with
           | Some stop => BytesBeyond key stop (opt_Ascending (id_Options desc))
           | None => false
           end
        then finish
        else if decide (length (id_Reads desc) ≤ i)%nat then Returns false
        else
          read ← deref (id_Reads desc !! i);
          if negb (bool_decide (rd_Version read = mv_version it)) ||
             negb (bool_decide (rd_Key read = key))
          then Returns false
          else
            '(w', it') ← MVNext None fuel w it;
            validate_loop fuel' desc w' it' (S i)
    end
  else finish.

Definition validateIterator (fuel : nat) (d : GMVData V) (desc : IteratorDescriptor) (txn : Z) :
    outcome bool :=
  '(w, it) ← NewMVIterator None fuel (id_Options desc) txn (Iter (outer d)) (inner d);
  validate_loop fuel desc w it 0.

Fixpoint validate_reads (d : GMVData V) (txn : Z) (reads : list ReadDescriptor) : outcome bool :=
  match reads with
  | [] => Returns true
  | desc :: rest =>
      '(_, version, estimate) ← Read d (rd_Key desc) txn;
      if (estimate : bool) then Returns false
      else if decide (version = rd_Version desc) then validate_reads d txn rest
      else Returns false
  end.

Fixpoint validate_iterators (fuel : nat) (d : GMVData V) (txn : Z)
    (its : list IteratorDescriptor) : outcome bool :=
  match its with
  | [] => Returns true
  | desc :: rest =>
      ok ← validateIterator fuel d desc txn;
      if negb ok then Returns false else validate_iterators fuel d txn rest
  end.

Definition ValidateReadSet (fuel : nat) (d : GMVData V) (txn : Z) (rs : ReadSet) :
    outcome bool :=
  ok ← validate_reads d txn (rs_Reads rs);
  if negb ok then Returns false else validate_iterators fuel d txn (rs_Iterators rs).

(** ** Snapshots *)

(** The callback may stop the scan. *)
Fixpoint snapshot_scan {S} (w : gmap loc (BTree (secondaryDataItem V) secondaryLesser))
    (cb : Bytes → V → S → outcome (S * bool)) (items : list dataItem) (s : S) : outcome S :=
  match items with
  | [] => Returns s
  | o :: rest =>
      l ← deref (d_Tree o);
      t ← deref (w !! l);
      match Max t with
      | None => snapshot_scan w cb rest s
      | Some item =>
          if s_Estimate item then snapshot_scan w cb rest s
          else
            '(s', continue) ← cb (d_Key o) (s_Value item) s;
            if (continue : bool) then snapshot_scan w cb rest s' else Returns s'
      end
  end.

Definition SnapshotTo {S} (d : GMVData V) (cb : Bytes → V → S → outcome (S * bool)) (s : S) :
    outcome S :=
  snapshot_scan (inner d) cb (Scan (outer d)) s.

Definition Snapshot (d : GMVData V) : outcome (list (Bytes * V)) :=
  SnapshotTo d (λ k v snapshot, Returns (snapshot ++ [(k, v)], true)) [].

Definition SnapshotToStore {S} `{!KVStore S V} (isZero : V → bool) (d : GMVData V) (store : S) :
    outcome S :=
  SnapshotTo d (λ key value kv,
    if isZero value then Returns (kv_Delete kv key, true)
    else kv' ← kv_Set kv key value; Returns (kv', true)) store.
End validation.
