(* ===== verification/MVDataFacts.v ===== *)
(** * What the multi-version store promises

    The store is specified by [entries d key], the entries of a key in the
    order of their transactions, and every operation is described by what it
    does to them.  [mv_wf] is the invariant all operations preserve. *)

From Stdlib Require Import ZArith Lia.
From S2P Require Import Prelude Utils BTree BTreeIterator Types MVData.
Local Open Scope Z_scope.

Section facts.
Context {BT : BTreeLib} {BL : BTreeLaws} {V : Type} `{!GoZero V}.
Implicit Types (d : GMVData V) (e : secondaryDataItem V).
Abbreviation sec := (secondaryDataItem V).
Abbreviation sec_sorted := (StronglySorted (below (@secondaryLesser V))).
Abbreviation key_sorted := (StronglySorted (below (@KeyItemLess dataItem _))).

(** ** Specification of one key's entries *)

Lemma same_txn e1 e2 : same secondaryLesser e1 e2 = bool_decide (s_Index e1 = s_Index e2).
Proof.
  unfold same, secondaryLesser. case_bool_decide as H; [|].
  - rewrite H, Z.ltb_irrefl. done.
  - destruct (s_Index e1 <? s_Index e2) eqn:A, (s_Index e2 <? s_Index e1) eqn:B; try done.
    bool_lia.
Qed.

(** The entry a transaction sees: the last one of a lower transaction. *)
Definition closest (l : list sec) (txn : Z) : option sec :=
  last (filter (λ e, (s_Index e <? txn) = true) l).

Lemma closest_spec l txn e :
  sec_sorted l →
  closest l txn = Some e ↔
    e ∈ l ∧ s_Index e < txn ∧ ∀ e', e' ∈ l → s_Index e' < txn → e' = e ∨ s_Index e' < s_Index e.
Proof.
  intros Hl. unfold closest.
  rewrite (list_filter_iff _ (λ y, secondaryLesser (txn_item (txn - 1)) y = false)).
  - rewrite last_filter_le by done. unfold greatest_le, secondaryLesser, txn_item. simpl.
    setoid_rewrite Z.ltb_ge. setoid_rewrite Z.ltb_lt.
    split; intros (H1 & H2 & H3); (split; [done|]; split; [lia|]); intros z Hz Hlt;
      destruct (H3 z Hz); auto; lia.
  - intros y. unfold secondaryLesser, txn_item. simpl.
    destruct (s_Index y <? txn) eqn:E, (txn - 1 <? s_Index y) eqn:F; split; intros; try done;
      bool_lia.
Qed.

Lemma closest_None l txn :
  closest l txn = None ↔ ∀ e, e ∈ l → txn <= s_Index e.
Proof.
  unfold closest. rewrite last_None. split.
  - intros H e He. destruct (s_Index e <? txn) eqn:E; [|by apply Z.ltb_ge].
    assert (e ∈ filter (λ e, (s_Index e <? txn) = true) l) as Hf
      by (by apply list_elem_of_filter).
    rewrite H in Hf. by apply elem_of_nil in Hf.
  - intros H. apply filter_none. intros e He. apply Z.ltb_ge. by apply H.
Qed.

Lemma seekClosestTxn_closest (t : BTree sec secondaryLesser) txn :
  seekClosestTxn t txn = closest (Scan t) txn.
Proof.
  unfold seekClosestTxn, ReverseSeek, closest. rewrite Descend_Scan, head_reverse.
  f_equal. apply list_filter_iff. intros y. unfold secondaryLesser, txn_item. simpl.
  destruct (s_Index y <? txn) eqn:E, (txn - 1 <? s_Index y) eqn:F; split; intros; try done;
    bool_lia.
Qed.

Lemma elem_of_ins_entry l e z :
  sec_sorted l → z ∈ ins secondaryLesser e l ↔ z = e ∨ z ∈ l ∧ s_Index e ≠ s_Index z.
Proof.
  intros Hl. rewrite elem_of_ins_iff by (done || apply _).
  by rewrite same_txn, bool_decide_eq_false.
Qed.

Lemma ins_entry_sorted l e : sec_sorted l → sec_sorted (ins secondaryLesser e l).
Proof. apply ins_sorted, _. Qed.

(** Later transactions' entries are invisible. *)
Lemma closest_ins_later l e txn :
  sec_sorted l → txn <= s_Index e → closest (ins secondaryLesser e l) txn = closest l txn.
Proof.
  intros Hl He. pose proof (ins_entry_sorted l e Hl) as Hi.
  apply option_eq. intros e'. rewrite !closest_spec by done.
  setoid_rewrite (elem_of_ins_entry l e _ Hl).
  split; intros (H1 & H2 & H3).
  - destruct H1 as [->|[H1 _]]; [lia|]. split; [done|]. split; [done|].
    intros z Hz Hlt. apply H3; [right; split; [done|lia]|done].
  - split; [right; split; [done|lia]|]. split; [done|].
    intros z [->|[Hz _]] Hlt; [lia|by apply H3].
Qed.

(** An earlier transaction's entry is seen unless one in between hides it. *)
Lemma closest_ins_earlier l e txn :
  sec_sorted l → s_Index e < txn →
  closest (ins secondaryLesser e l) txn =
    match closest l txn with
    | Some e' => if s_Index e <? s_Index e' then Some e' else Some e
    | None => Some e
    end.
Proof.
  intros Hl He. pose proof (ins_entry_sorted l e Hl) as Hi.
  pose proof (λ z, elem_of_ins_entry l e z Hl) as Hm.
  destruct (closest l txn) as [e'|] eqn:E.
  - apply closest_spec in E as (E1 & E2 & E3); [|done].
    destruct (s_Index e <? s_Index e') eqn:F; apply closest_spec; try done;
      setoid_rewrite Hm; (split; [|split; [done|]]).
    + right. split; [done|]. bool_lia.
    + intros z [->|[Hz _]] Hlt; [right; bool_lia|by apply E3].
    + by left.
    + intros z [->|[Hz Hne]] Hlt; [by left|].
      destruct (E3 z Hz Hlt) as [->|]; right; bool_lia.
  - apply closest_spec; [done|]. setoid_rewrite Hm. rewrite closest_None in E.
    split; [by left|]. split; [done|]. intros z [->|[Hz _]] Hlt; [by left|].
    specialize (E z Hz). lia.
Qed.

(** ** The invariant *)

Record mv_wf d : Prop := {
  wf_outer : key_sorted (Scan (outer d));
  wf_tree : ∀ it, it ∈ Scan (outer d) → ∃ l t,
    d_Tree it = Some l ∧ inner d !! l = Some t ∧ sec_sorted (Scan t) ∧ (l < next_loc d)%nat;
  wf_inj : ∀ it1 it2, it1 ∈ Scan (outer d) → it2 ∈ Scan (outer d) →
    d_Tree it1 = d_Tree it2 → it1 = it2;
}.

Definition tree_entries (w : gmap loc (BTree sec secondaryLesser)) (l : option loc) : list sec :=
  match l ≫= (w !!.) with Some t => Scan t | None => [] end.

Definition entries d (key : Bytes) : list sec := tree_entries (inner d) (getTree d key).

Definition mv_keys d : list Bytes := d_Key <$> Scan (outer d).

Lemma same_dataItem (k k' : Bytes) l l' :
  same KeyItemLess (MkDataItem k l) (MkDataItem k' l') = bool_decide (k = k').
Proof.
  destruct (same _ _ _) eqn:E.
  - apply same_key in E. by rewrite bool_decide_eq_true_2.
  - symmetry. apply bool_decide_eq_false_2. intros ->.
    assert (same KeyItemLess (MkDataItem k' l) (MkDataItem k' l') = true); [|congruence].
    by apply same_key.
Qed.

Lemma Get_outer d key it :
  mv_wf d → Get (outer d) (MkDataItem key None) = Some it ↔ it ∈ Scan (outer d) ∧ d_Key it = key.
Proof.
  intros Hwf. unfold Get. rewrite Get_Scan. split.
  - intros [H1 H2]%findb_Some. split; [done|]. destruct it as [k l].
    rewrite same_dataItem in H2. by apply bool_decide_eq_true in H2.
  - intros [H1 <-].
    rewrite <- (findb_sorted KeyItemLess it (bt_Scan (outer d)) (wf_outer d Hwf) H1).
    destruct it as [k l]. simpl. clear H1.
    induction (bt_Scan (outer d)) as [|[k' l'] ll IH]; simpl; [done|].
    by rewrite !same_dataItem, IH.
Qed.

Lemma Get_outer_None d key :
  Get (outer d) (MkDataItem key None) = None ↔ key ∉ mv_keys d.
Proof.
  unfold Get, mv_keys. rewrite Get_Scan, findb_None, list_elem_of_fmap. split.
  - intros H (it & -> & Hit). apply H in Hit. destruct it as [k l].
    rewrite same_dataItem in Hit. by apply bool_decide_eq_false in Hit.
  - intros H [k l] Hit. rewrite same_dataItem. apply bool_decide_eq_false_2. intros ->.
    apply H. by exists (MkDataItem k l).
Qed.

Lemma entries_of_item d it :
  mv_wf d → it ∈ Scan (outer d) → entries d (d_Key it) = tree_entries (inner d) (d_Tree it).
Proof.
  intros Hwf Hit. unfold entries, getTree.
  by rewrite (proj2 (Get_outer d (d_Key it) it Hwf)).
Qed.

Lemma entries_no_key d key : key ∉ mv_keys d → entries d key = [].
Proof. intros H%Get_outer_None. unfold entries, getTree. by rewrite H. Qed.

Lemma entries_sorted d key : mv_wf d → sec_sorted (entries d key).
Proof.
  intros Hwf. unfold entries, getTree.
  destruct (Get (outer d) _) as [it|] eqn:E; [|constructor].
  apply Get_outer in E as [E _]; [|done].
  destruct (wf_tree d Hwf it E) as (l & t & -> & Hl & Ht & _).
  unfold tree_entries. simpl. by rewrite Hl.
Qed.

(** Two stores with the same entries answer reads alike. *)
Lemma Read_spec d key txn :
  mv_wf d →
  Read d key txn =
    Returns match (if txn =? 0 then None else closest (entries d key) txn) with
            | Some e => (s_Value e, secondary_Version e, s_Estimate e)
            | None => (zero, InvalidTxnVersion, false)
            end.
Proof.
  intros Hwf. unfold Read. destruct (txn =? 0); [done|].
  unfold entries, getTree.
  destruct (Get (outer d) (MkDataItem key None)) as [it|] eqn:E; [|done].
  apply Get_outer in E as [E _]; [|done].
  destruct (wf_tree d Hwf it E) as (l & t & -> & Hl & Ht & _).
  unfold tree_entries. simpl. rewrite Hl. simpl. rewrite seekClosestTxn_closest.
  by destruct (closest (Scan t) txn).
Qed.
(** ** Updates *)

Lemma NewGMVData_wf : mv_wf (NewGMVData V).
Proof.
  assert (Scan (outer (NewGMVData V)) = []) as E by apply Scan_new.
  split; rewrite E; [apply SSorted_nil|intros it Hit|intros it it' Hit];
    by apply elem_of_nil in Hit.
Qed.

Lemma getTree_item d key l :
  mv_wf d → getTree d key = Some l ↔ MkDataItem key (Some l) ∈ Scan (outer d).
Proof.
  intros Hwf. unfold getTree.
  destruct (Get (outer d) (MkDataItem key None)) as [it|] eqn:E.
  - pose proof E as [E1 E2]%Get_outer; [|done]. split.
    + intros <-. subst key. by destruct it.
    + intros Hin. rewrite (proj2 (Get_outer d key _ Hwf) (conj Hin eq_refl)) in E.
      injection E as <-. done.
  - apply Get_outer_None in E. split; [done|]. intros Hin. exfalso. apply E.
    apply list_elem_of_fmap. by exists (MkDataItem key (Some l)).
Qed.

(** Pointers lead to distinct trees. *)
Lemma getTree_inj d k1 k2 l :
  mv_wf d → getTree d k1 = Some l → getTree d k2 = Some l → k1 = k2.
Proof.
  intros Hwf H1%getTree_item H2%getTree_item; [|done..].
  by pose proof (wf_inj d Hwf _ _ H1 H2 eq_refl) as [=].
Qed.

Lemma getTree_alloc d k l :
  mv_wf d → getTree d k = Some l →
  ∃ t, inner d !! l = Some t ∧ sec_sorted (Scan t) ∧ (l < next_loc d)%nat.
Proof.
  intros Hwf H%getTree_item; [|done].
  destruct (wf_tree d Hwf _ H) as (l' & t & [= <-] & ?). eauto.
Qed.

(** The store after a new, empty inner tree has been published for [key]. *)
Lemma publish_wf d key :
  mv_wf d → key ∉ mv_keys d →
  let d' := MkMVData (bt_Set (outer d) (MkDataItem key (Some (next_loc d)))).1
              (<[next_loc d := NewBTree _ _]> (inner d)) (S (next_loc d)) in
  mv_wf d' ∧ getTree d' key = Some (next_loc d) ∧
  (∀ k, k ≠ key → getTree d' k = getTree d k) ∧
  (∀ k, k ∈ mv_keys d' ↔ k = key ∨ k ∈ mv_keys d).
Proof.
  intros Hwf Hkey d'.
  assert (∀ it, it ∈ Scan (outer d') ↔ it = MkDataItem key (Some (next_loc d)) ∨ it ∈ Scan (outer d))
    as Hm.
  { intros it. unfold d', Scan. simpl. rewrite Scan_Set.
    rewrite elem_of_ins_iff by (apply _ || apply Hwf). split; [naive_solver|].
    intros [->|Hit]; [by left|]. right. split; [done|]. destruct it as [k l].
    rewrite same_dataItem. apply bool_decide_eq_false_2. intros ->. apply Hkey.
    apply list_elem_of_fmap. by exists (MkDataItem k l). }
  assert (∀ it, it ∈ Scan (outer d) → d_Tree it ≠ Some (next_loc d)) as Hnew.
  { intros it Hit Heq. destruct (wf_tree d Hwf it Hit) as (l & t & E & _ & _ & Hlt).
    rewrite Heq in E. simplify_eq. lia. }
  assert (mv_wf d') as Hwf'.
  { split.
    - unfold d', Scan. simpl. rewrite Scan_Set. apply ins_sorted; [apply _|apply Hwf].
    - intros it [->|Hit]%Hm; simpl.
      + exists (next_loc d), (NewBTree _ _). rewrite lookup_insert_eq.
        repeat split; [|lia]. unfold Scan, NewBTree. rewrite Scan_new. constructor.
      + destruct (wf_tree d Hwf it Hit) as (l & t & E & Hl & Hs & Hlt).
        exists l, t. rewrite lookup_insert_ne by lia. repeat split; auto.
    - intros it1 it2 [->|H1]%Hm [->|H2]%Hm Heq; [done|..].
      + destruct (Hnew it2 H2). by rewrite <- Heq.
      + destruct (Hnew it1 H1). by rewrite Heq.
      + by apply (wf_inj d Hwf). }
  split; [done|]. split; [apply getTree_item, Hm; [done|by left]|]. split.
  - intros k Hk. apply option_eq. intros l. rewrite !getTree_item by done.
    rewrite Hm. naive_solver.
  - intros k. unfold mv_keys. rewrite !list_elem_of_fmap. setoid_rewrite Hm. naive_solver.
Qed.

(** What [getTreeOrDefault] returns: an allocated tree, nothing else changed. *)
Lemma getTreeOrDefault_spec d key :
  mv_wf d → ∃ d' l t, getTreeOrDefault d key = (d', Some l) ∧ mv_wf d' ∧
    getTree d' key = Some l ∧ inner d' !! l = Some t ∧ Scan t = entries d key ∧
    (∀ k, k ≠ key → getTree d' k = getTree d k ∧ entries d' k = entries d k) ∧
    (∀ k, k ∈ mv_keys d' ↔ k = key ∨ k ∈ mv_keys d).
Proof.
  intros Hwf. unfold getTreeOrDefault. simpl.
  destruct (bt_Get (outer d) (MkDataItem key None)) as [it|] eqn:E.
  - pose proof (proj1 (Get_outer d key it Hwf) E) as [Hit <-].
    destruct (wf_tree d Hwf it Hit) as (l & t & El & Hl & Hs & Hlt).
    rewrite decide_False by (rewrite El; intros [=]; lia).
    exists d, l, t. rewrite El. destruct d as [o i n]. split; [done|]. split; [done|].
    split; [apply getTree_item; [done|]; destruct it; simpl in *; by subst|].
    split; [done|]. split; [|split; [done|]].
    + rewrite (entries_of_item _ it) by done. unfold tree_entries. rewrite El. simpl in *.
      by rewrite Hl.
    + intros k. split; [by right|]. intros [->|]; [|done].
      apply list_elem_of_fmap. by exists it.
  - pose proof (proj1 (Get_outer_None d key) E) as Hkey. simpl.
    rewrite decide_True by done.
    destruct (publish_wf d key Hwf Hkey) as (Hwf' & H1 & H2 & H3).
    eexists _, _, (NewBTree _ _). split; [done|]. split; [done|]. split; [done|].
    split; [apply lookup_insert_eq|]. split; [|split; [|done]].
    + rewrite entries_no_key by done. unfold Scan, NewBTree. by rewrite Scan_new.
    + intros k Hk. split; [by apply H2|]. unfold entries. rewrite H2 by done.
      destruct (getTree d k) as [l|] eqn:El; [|done].
      destruct (getTree_alloc d k l Hwf El) as (t & Hl & _ & Hlt).
      unfold tree_entries. simpl. by rewrite lookup_insert_ne by lia.
Qed.

(** An update changes the entries of its key by [f], and no others. *)
Lemma update_tree_spec d key f (g : list sec → list sec) :
  mv_wf d →
  (∀ t, Scan (f t) = g (Scan t)) → (∀ l, sec_sorted l → sec_sorted (g l)) →
  ∃ d', update_tree d key f = Returns d' ∧ mv_wf d' ∧
    (∀ k, entries d' k = if decide (k = key) then g (entries d key) else entries d k) ∧
    (∀ k, k ∈ mv_keys d' ↔ k = key ∨ k ∈ mv_keys d).
Proof.
  intros Hwf Hf Hg. unfold update_tree.
  destruct (getTreeOrDefault_spec d key Hwf) as (d1 & l & t & -> & Hwf1 & Hk & Hl & Ht & Ho & Hks).
  simpl. rewrite Hl. simpl. eexists. split; [done|].
  assert (∀ k, getTree (MkMVData (outer d1) (<[l:=f t]> (inner d1)) (next_loc d1)) k
               = getTree d1 k) as HgT by done.
  split; [split|split]; simpl.
  - apply Hwf1.
  - intros it Hit. destruct (wf_tree d1 Hwf1 it Hit) as (l' & t' & E & Hl' & Hs & Hlt).
    exists l'. destruct (decide (l = l')) as [<-|Hne].
    + exists (f t). rewrite lookup_insert_eq. repeat split; try done.
      rewrite Hf. apply Hg. simplify_eq. done.
    + exists t'. by rewrite lookup_insert_ne.
  - apply (wf_inj d1 Hwf1).
  - intros k. unfold entries at 1. rewrite HgT. simpl. case_decide as Hd.
    + subst k. rewrite Hk. unfold tree_entries. simpl. rewrite lookup_insert_eq.
      by rewrite Hf, Ht.
    + destruct (Ho k Hd) as [HT <-]. unfold entries, tree_entries.
      destruct (getTree d1 k) as [l'|] eqn:E; [|done]. simpl.
      rewrite lookup_insert_ne; [done|]. intros ->. apply Hd.
      by eapply getTree_inj.
  - done.
Qed.

Definition put_entry (e : sec) (l : list sec) : list sec := ins secondaryLesser e l.
Definition drop_entry (txn : Z) (l : list sec) : list sec := del secondaryLesser (txn_item txn) l.

Definition value_entry (value : V) (version : TxnVersion) : sec :=
  MkSecondary (Index version) (Incarnation version) value false.
Definition estimate_entry (txn : Z) : sec := MkSecondary txn 0 zero true.

(** The store [d'] is [d] with the entries of [key] changed by [g]. *)
Definition changes_entries d key (g : list sec → list sec) d' : Prop :=
  mv_wf d' ∧ (∀ k, entries d' k = if decide (k = key) then g (entries d key) else entries d k) ∧
  (∀ k, k ∈ mv_keys d' ↔ k = key ∨ k ∈ mv_keys d).

Lemma Write_changes d key value version :
  mv_wf d → ∃ d', Write d key value version = Returns d' ∧
    changes_entries d key (put_entry (value_entry value version)) d'.
Proof.
  intros Hwf. apply update_tree_spec; [done| |].
  - intros t. unfold Scan. simpl. destruct (bt_Set t _) eqn:E. simpl.
    change b with ((b, o).1). rewrite <- E. by rewrite Scan_Set.
  - intros l. apply ins_sorted, _.
Qed.

Lemma WriteEstimate_changes d key txn :
  mv_wf d → ∃ d', WriteEstimate d key txn = Returns d' ∧
    changes_entries d key (put_entry (estimate_entry txn)) d'.
Proof.
  intros Hwf. apply update_tree_spec; [done| |].
  - intros t. unfold Scan. simpl. destruct (bt_Set t _) eqn:E. simpl.
    change b with ((b, o).1). rewrite <- E. by rewrite Scan_Set.
  - intros l. apply ins_sorted, _.
Qed.

Lemma MVDelete_changes d key txn :
  mv_wf d → ∃ d', MVDelete d key txn = Returns d' ∧
    changes_entries d key (drop_entry txn) d'.
Proof.
  intros Hwf. apply update_tree_spec; [done| |].
  - intros t. unfold Scan. simpl. destruct (bt_Delete t _) eqn:E. simpl.
    change b with ((b, o).1). rewrite <- E. by rewrite Scan_Delete.
  - intros l. apply del_sorted, _.
Qed.
End facts.
