(* ===== verification/MVValidate.v ===== *)
(** * Validation and snapshots of the multi-version store

    [replay] says which keys an iterator of a transaction sees and whether it
    runs into an estimate; the validation of a read set is characterised by
    it, and never panics or waits. *)

From Stdlib Require Import ZArith Lia.
From S2P Require Import Prelude Utils BTree BTreeIterator Types MVData MVDataFacts.
Local Open Scope Z_scope.

(** The longest prefix whose elements pass a test. *)
Fixpoint take_while {A} (p : A → bool) (l : list A) : list A :=
  match l with
  | [] => []
  | x :: l' => if p x then x :: take_while p l' else []
  end.

Section replay.
Context {BT : BTreeLib} {BL : BTreeLaws} {V : Type} `{!GoZero V}.
Implicit Types (d : GMVData V) (w : gmap loc (BTree (secondaryDataItem V) secondaryLesser)).

(** The reads an iterator records over [items], up to the first estimate. *)
Fixpoint replay w (txn : Z) (items : list dataItem) : list ReadDescriptor * bool :=
  match items with
  | [] => ([], false)
  | x :: rest =>
      match closest (tree_entries w (d_Tree x)) txn with
      | None => replay w txn rest
      | Some e =>
          if s_Estimate e then ([], true)
          else
            let '(reads, est) := replay w txn rest in
            (MkRead (d_Key x) (secondary_Version e) :: reads, est)
      end
  end.

(** Skips to the first key with a visible entry. *)
Fixpoint to_visible w (txn : Z) (items : list dataItem) :
    option (dataItem * secondaryDataItem V * list dataItem) :=
  match items with
  | [] => None
  | x :: rest =>
      match closest (tree_entries w (d_Tree x)) txn with
      | None => to_visible w txn rest
      | Some e => Some (x, e, rest)
      end
  end.

Lemma replay_to_visible w txn items :
  replay w txn items =
    match to_visible w txn items with
    | None => ([], false)
    | Some (x, e, rest) =>
        if s_Estimate e then ([], true)
        else
          let '(reads, est) := replay w txn rest in
          (MkRead (d_Key x) (secondary_Version e) :: reads, est)
    end.
Proof.
  induction items as [|x items IH]; simpl; [done|].
  by destruct (closest _ _).
Qed.

Lemma to_visible_length w txn items x e rest :
  to_visible w txn items = Some (x, e, rest) → (length rest < length items)%nat.
Proof.
  induction items as [|y items IH]; simpl; [done|].
  destruct (closest _ _); [intros [= -> -> ->]; lia|]. intros H%IH. lia.
Qed.

Definition allocated w (items : list dataItem) : Prop :=
  ∀ x, x ∈ items → ∃ l t, d_Tree x = Some l ∧ w !! l = Some t.

Lemma to_visible_allocated w txn items x e rest :
  to_visible w txn items = Some (x, e, rest) → allocated w items → allocated w rest.
Proof.
  induction items as [|y items IH]; simpl; [done|].
  destruct (closest _ _).
  - intros [= -> -> ->] H z Hz. apply H. by right.
  - intros Hv H. apply IH; [done|]. intros z Hz. apply H. by right.
Qed.

(** The state of the iterator after [resolveValue], in validation mode. *)
Definition resolved w txn items (it it' : MVIterator V) : Prop :=
  mv_txn it' = txn ∧
  match to_visible w txn items with
  | None => Valid (base it') = false ∧ readEstimateValue it' = readEstimateValue it
  | Some (x, e, rest) =>
      if s_Estimate e then Valid (base it') = false ∧ readEstimateValue it' = true
      else iterates (base it') (x :: rest) ∧ mv_version it' = secondary_Version e ∧
           readEstimateValue it' = readEstimateValue it
  end.

Lemma resolveValue_spec fuel w items it :
  iterates (base it) items → allocated w items → (length items < fuel)%nat →
  ∃ it', resolveValue None fuel w it = Returns (w, it') ∧
    resolved w (mv_txn it) items it it'.
Proof.
  revert items it; induction fuel as [|fuel IH]; intros items it Hit Hal Hf; [lia|].
  inversion Hit as [b Hv Hb Hi|b b' rest Hv Hn Hrest Hb Hi]; subst; cbn [resolveValue];
    rewrite Hv.
  - exists it. by repeat split.
  - destruct (Hal (Item (base it)) ltac:(by left)) as (l & t & El & Hl).
    unfold resolved. cbn [to_visible]. unfold tree_entries. rewrite El. cbn.
    rewrite Hl. cbn. rewrite seekClosestTxn_closest.
    destruct (closest (Scan t) (mv_txn it)) as [e|] eqn:E.
    + destruct (s_Estimate e) eqn:Hest; cbn.
      * eexists. split; [done|]. by repeat split.
      * eexists. split; [done|]. split; [done|]. cbn. done.
    + rewrite Hn. cbn. destruct (IH rest (set_base it b')) as (it' & -> & Hr); [done| | |].
      * intros x Hx. apply Hal. by right.
      * cbn in Hf. lia.
      * exists it'. split; [done|]. exact Hr.
Qed.

Definition not_beyond (desc : IteratorDescriptor) (r : ReadDescriptor) : bool :=
  match id_Stop desc with
  | Some stop => negb (BytesBeyond (rd_Key r) stop (opt_Ascending (id_Options desc)))
  | None => true
  end.

(** What the replay must show: the recorded reads, up to the stop key, and
    no estimate unless the stop key was reached first. *)
Definition matches (desc : IteratorDescriptor) (recorded : list ReadDescriptor)
    (shown : list ReadDescriptor * bool) : bool :=
  let seen := take_while (not_beyond desc) shown.1 in
  bool_decide (seen = recorded) &&
  (negb shown.2 || bool_decide (length seen < length shown.1)%nat).

Lemma validate_loop_spec fuel desc w items it0 it i :
  resolved w (mv_txn it) items it0 it → readEstimateValue it0 = false →
  allocated w items → (length items < fuel)%nat → (i ≤ length (id_Reads desc))%nat →
  validate_loop fuel desc w it i =
    Returns (matches desc (drop i (id_Reads desc)) (replay w (mv_txn it) items)).
Proof.
  revert items it0 it i; induction fuel as [|fuel IH]; intros items it0 it i Hr Hit0 Hal Hf Hi; [lia|].
  assert (bool_decide (i = length (id_Reads desc)) = bool_decide ([] = drop i (id_Reads desc)))
    as Hend.
  { apply bool_decide_ext. split; intros H.
    - rewrite drop_ge by lia. done.
    - apply (f_equal length) in H. rewrite length_drop in H. simpl in H. lia. }
  destruct Hr as [_ Hr]. rewrite replay_to_visible.
  destruct (to_visible w (mv_txn it) items) as [[[x e] rest]|] eqn:E; cbn [validate_loop].
  2:{ destruct Hr as [-> ->]. rewrite Hit0. unfold matches. cbn. by rewrite andb_true_r, Hend. }
  pose proof (to_visible_length _ _ _ _ _ _ E) as Hlen.
  pose proof (to_visible_allocated _ _ _ _ _ _ E Hal) as Hal'.
  destruct (s_Estimate e) eqn:Hest.
  { destruct Hr as [-> ->]. unfold matches. cbn. by rewrite andb_false_r. }
  destruct Hr as (Hiter & Hver & Hflag).
  inversion Hiter as [|b b' l Hv Hn Hrest Hb Hx]; subst. rewrite Hv.
  change (Key (base it)) with (d_Key (Item (base it))).
  set (r := MkRead (d_Key (Item (base it))) (secondary_Version e)).
  assert (match id_Stop desc with
          | Some stop => BytesBeyond (d_Key (Item (base it))) stop (opt_Ascending (id_Options desc))
          | None => false end = negb (not_beyond desc r)) as ->.
  { unfold not_beyond, r. destruct (id_Stop desc); cbn; [by rewrite negb_involutive|done]. }
  destruct (replay w (mv_txn it) rest) as [reads est] eqn:Erep.
  unfold matches. cbn. destruct (not_beyond desc r) eqn:Hnb; cbn.
  2:{ rewrite Hflag, Hit0, Hend. cbn. by rewrite orb_true_r, andb_true_r. }
  destruct (decide (length (id_Reads desc) ≤ i)%nat) as [Hge|Hlt].
  { rewrite drop_ge by lia. done. }
  destruct (lookup_lt_is_Some_2 (id_Reads desc) i ltac:(lia)) as [rd Hrd].
  rewrite Hrd. cbn. rewrite (drop_S _ rd) by done. rewrite Hver.
  destruct (decide (rd = r)) as [->|Hne].
  2:{ rewrite (bool_decide_eq_false_2 (r :: _ = _)) by congruence. cbn.
      destruct rd as [k v]. unfold r in Hne. clear Hend. cbn.
      repeat case_bool_decide; subst; cbn; congruence. }
  rewrite !bool_decide_eq_true_2 by done. cbn -[MVNext].
  destruct (resolveValue_spec (S fuel) w rest (set_base it b')) as (it' & Hres & Hr');
    [done|done|lia|].
  assert (MVNext None (S fuel) w it = Returns (w, it')) as ->
    by (unfold MVNext; rewrite Hn; exact Hres).
  cbn.
  assert (mv_txn it' = mv_txn it) as Htxn by apply Hr'.
  rewrite (IH rest (set_base it b')); [|by rewrite Htxn|by rewrite <- Hit0|done|lia|lia].
  rewrite Htxn, Erep. unfold matches. cbn. do 2 f_equal.
  - apply bool_decide_ext. split; [by intros ->|by intros [=]].
  - f_equal. apply bool_decide_ext. lia.
Qed.

Definition range_of d (opts : IteratorOptions) : list dataItem :=
  range_items (opt_Start opts) (opt_End opts) (opt_Ascending opts) (Scan (outer d)).

Lemma range_of_elem d opts x : x ∈ range_of d opts → x ∈ Scan (outer d).
Proof.
  unfold range_of, range_items. destruct (opt_Ascending opts);
    rewrite ?elem_of_reverse; by intros [_ ?]%list_elem_of_filter.
Qed.

Lemma validateIterator_spec fuel d desc txn :
  mv_wf d → (length (Scan (outer d)) < fuel)%nat →
  validateIterator fuel d desc txn =
    Returns (matches desc (id_Reads desc)
               (replay (inner d) txn (range_of d (id_Options desc)))).
Proof.
  intros Hwf Hf. unfold validateIterator, NewMVIterator.
  set (it0 := MkMVIterator _ txn _ _ _ _).
  pose proof (range_items_length (opt_Start (id_Options desc)) (opt_End (id_Options desc))
                (opt_Ascending (id_Options desc)) (Scan (outer d))) as Hlen.
  assert (allocated (inner d) (range_of d (id_Options desc))) as Hal.
  { intros x Hx%range_of_elem. destruct (wf_tree d Hwf x Hx) as (l & t & ? & ? & _). eauto. }
  destruct (resolveValue_spec fuel (inner d) (range_of d (id_Options desc)) it0)
    as (it & -> & Hr); [|done|unfold range_of; lia|].
  { apply (iterates_new (λ k, MkDataItem k None)); [done|apply Hwf]. }
  cbn. assert (mv_txn it = txn) as Htxn by apply Hr.
  rewrite (validate_loop_spec fuel desc (inner d) (range_of d (id_Options desc)) it0);
    [|by rewrite Htxn|done|done|unfold range_of; lia|lia].
  by rewrite Htxn, drop_0.
Qed.
End replay.
