(* ===== verification/MVProps.v ===== *)
(** * Properties of the multi-version store

    What a read sees after each update, when a read set is still valid, and
    what a snapshot writes to the base storage. *)

From Stdlib Require Import ZArith Lia.
From S2P Require Import Prelude Utils BTree BTreeIterator Types MemDB MVData MVDataFacts MVValidate.
Local Open Scope Z_scope.

Section lemmas.
Context {BT : BTreeLib} {BL : BTreeLaws} {V : Type} `{!GoZero V}.
Implicit Types (d : GMVData V) (e : secondaryDataItem V).

(** The answer of [Read] given the entry it found. *)
Definition answer (o : option (secondaryDataItem V)) : V * TxnVersion * bool :=
  match o with
  | Some e => (s_Value e, secondary_Version e, s_Estimate e)
  | None => (zero, InvalidTxnVersion, false)
  end.

(** The entry a reader sees once [e] is stored: [e], if it is older than the
    reader and nothing the reader saw is newer. *)
Definition overridden e (txn : Z) (old : V * TxnVersion * bool) : V * TxnVersion * bool :=
  if (s_Index e <? txn) && negb (txn =? 0) && (Index old.1.2 <=? s_Index e)
  then answer (Some e) else old.

Lemma overridden_decide (P : Prop) `{!Decision P} e txn old :
  (if decide P then overridden e txn old else old) =
  if decide (P ∧ txn ≠ 0 ∧ s_Index e < txn ∧ Index old.1.2 <= s_Index e)
  then answer (Some e) else old.
Proof.
  unfold overridden.
  destruct (Z.ltb_spec (s_Index e) txn), (Z.eqb_spec txn 0), (Z.leb_spec (Index old.1.2) (s_Index e));
    cbn; repeat case_decide; try done; naive_solver lia.
Qed.

Lemma Read_answer d key txn :
  mv_wf d →
  Read d key txn = Returns (answer (if txn =? 0 then None else closest (entries d key) txn)).
Proof. apply Read_spec. Qed.

Lemma put_entry_read d d' key e k txn old :
  mv_wf d → 0 <= s_Index e → changes_entries d key (put_entry e) d' →
  Read d k txn = Returns old →
  Read d' k txn = Returns (if decide (k = key) then overridden e txn old else old).
Proof.
  intros Hwf He (Hwf' & Hent & _). rewrite !Read_answer by done. intros [= <-].
  rewrite Hent. case_decide as Hk; [|done]. subst k. f_equal. unfold overridden, put_entry.
  destruct (txn =? 0) eqn:E0; [by rewrite andb_false_r|]. rewrite andb_true_r.
  pose proof (entries_sorted d key Hwf) as Hs.
  destruct (s_Index e <? txn) eqn:E; simpl.
  2:{ rewrite closest_ins_later; [done|done|bool_lia]. }
  rewrite closest_ins_earlier by (done || bool_lia).
  destruct (closest (entries d key) txn) as [e'|]; simpl.
  - rewrite Z.ltb_antisym. by destruct (s_Index e' <=? s_Index e).
  - by rewrite (proj2 (Z.leb_le _ _)) by lia.
Qed.

Lemma validate_reads_spec d txn reads :
  mv_wf d →
  validate_reads d txn reads =
    Returns (forallb (λ r, match Read d (rd_Key r) txn with
                           | Returns (_, version, estimate) =>
                               negb estimate && bool_decide (version = rd_Version r)
                           | _ => false
                           end) reads).
Proof.
  intros Hwf. induction reads as [|r reads IH]; simpl; [done|].
  rewrite Read_answer by done. cbn.
  destruct (answer _) as [[v ver] est]. destruct est; cbn; [done|].
  case_decide; case_bool_decide; try done.
Qed.

Lemma validate_iterators_spec fuel d txn its :
  mv_wf d → (length (Scan (outer d)) < fuel)%nat →
  validate_iterators fuel d txn its =
    Returns (forallb (λ desc, matches desc (id_Reads desc)
               (replay (inner d) txn (range_of d (id_Options desc)))) its).
Proof.
  intros Hwf Hf. induction its as [|desc its IH]; simpl; [done|].
  rewrite validateIterator_spec by done. cbn. by destruct (matches _ _ _).
Qed.

(** The pairs a snapshot passes to its callback. *)
Definition snapshot_entry d (x : dataItem) : option (Bytes * V) :=
  match last (tree_entries (inner d) (d_Tree x)) with
  | Some e => if s_Estimate e then None else Some (d_Key x, s_Value e)
  | None => None
  end.

Definition snapshot_pairs d : list (Bytes * V) := omap (snapshot_entry d) (Scan (outer d)).

Lemma snapshot_scan_all {S} d (cb : Bytes → V → S → outcome S) items s :
  (∀ x, x ∈ items → x ∈ Scan (outer d)) → mv_wf d →
  snapshot_scan (inner d) (λ k v s, s' ← cb k v s; Returns (s', true)) items s =
    foldM (λ s kv, cb kv.1 kv.2 s) s (omap (snapshot_entry d) items).
Proof.
  intros Hin Hwf. revert s; induction items as [|x items IH]; intros s; [done|].
  assert (x ∈ Scan (outer d)) as Hx by (apply Hin; by left).
  assert (∀ z, z ∈ items → z ∈ Scan (outer d)) as Hin' by (intros z Hz; apply Hin; by right).
  specialize (IH Hin').
  destruct (wf_tree d Hwf x Hx) as (l & t & El & Hl & _ & _).
  assert (snapshot_entry d x = match last (Scan t) with
          | Some e => if s_Estimate e then None else Some (d_Key x, s_Value e)
          | None => None end) as Hent.
  { unfold snapshot_entry, tree_entries. rewrite El. cbn. by rewrite Hl. }
  change (omap (snapshot_entry d) (x :: items)) with
    (match snapshot_entry d x with
     | Some y => y :: omap (snapshot_entry d) items
     | None => omap (snapshot_entry d) items end).
  rewrite Hent. cbn [snapshot_scan]. rewrite El. cbn. rewrite Hl. cbn.
  unfold Max. rewrite Max_Scan. fold (Scan t).
  destruct (last (Scan t)) as [e|]; [|apply IH]. destruct (s_Estimate e); [apply IH|].
  cbn. destruct (cb (d_Key x) (s_Value e) s); cbn; [apply IH|done..].
Qed.

Lemma entries_elem d k e : mv_wf d → e ∈ entries d k → k ∈ mv_keys d.
Proof.
  intros Hwf He. destruct (decide (k ∈ mv_keys d)) as [|Hk]; [done|].
  rewrite (entries_no_key d k Hk) in He. by apply elem_of_nil in He.
Qed.

Lemma snapshot_pairs_elem d k v :
  mv_wf d → (k, v) ∈ snapshot_pairs d ↔
    ∃ e, last (entries d k) = Some e ∧ s_Estimate e = false ∧ s_Value e = v.
Proof.
  intros Hwf. unfold snapshot_pairs. rewrite list_elem_of_omap. split.
  - intros (x & Hx & Hs). unfold snapshot_entry in Hs.
    destruct (last _) as [e|] eqn:E; [|done]. destruct (s_Estimate e) eqn:Hest; [done|].
    injection Hs as <- <-. exists e. by rewrite entries_of_item.
  - intros (e & Hl & Hest & <-).
    assert (e ∈ entries d k) as He by (by apply last_Some_elem_of).
    apply entries_elem in He; [|done]. apply list_elem_of_fmap in He as (x & -> & Hx).
    exists x. split; [done|]. unfold snapshot_entry.
    rewrite <- entries_of_item by done. by rewrite Hl, Hest.
Qed.

Lemma snapshot_pairs_sorted d :
  mv_wf d → StronglySorted bytes_lt (fst <$> snapshot_pairs d).
Proof.
  intros [Hs _ _]. unfold snapshot_pairs. induction Hs as [|x l Hs IH Hx]; simpl; [constructor|].
  destruct (snapshot_entry d x) as [[k v]|] eqn:E; [|done]. simpl.
  constructor; [done|]. rewrite Forall_forall. intros k' ([k1 v1] & -> & Hin)%list_elem_of_fmap.
  apply list_elem_of_omap in Hin as (y & Hy & Ey).
  rewrite Forall_forall in Hx. specialize (Hx y Hy). apply KeyItemLess_lt in Hx.
  unfold snapshot_entry in E, Ey.
  destruct (last _) as [e|]; [|done]. destruct (s_Estimate e); [done|]. injection E as <- <-.
  destruct (last (tree_entries _ (d_Tree y))) as [e'|]; [|done].
  destruct (s_Estimate e'); [done|]. by injection Ey as <- <-.
Qed.

Section store.
Context {S : Type} `{!KVStore S V} (isZero : V → bool) (ok : S → Prop).
Context `{!KVStoreLaws S V isZero zero ok}.

Definition stored (v : V) : V := if isZero v then zero else v.

Definition store_pair (s : S) (kv : Bytes * V) : outcome S :=
  if isZero kv.2 then Returns (kv_Delete s kv.1) else kv_Set s kv.1 kv.2.

Lemma store_pairs pairs s :
  ok s → NoDup (fst <$> pairs) →
  ∃ s', foldM store_pair s pairs = Returns s' ∧ ok s' ∧
    (∀ k v, (k, v) ∈ pairs → kv_Get s' k = stored v) ∧
    (∀ k, k ∉ fst <$> pairs → kv_Get s' k = kv_Get s k).
Proof.
  revert s; induction pairs as [|[k v] pairs IH]; intros s Hok Hnd; simpl.
  { exists s. split; [done|]. split; [done|]. split; [|done].
    by intros k v ?%elem_of_nil. }
  apply NoDup_cons in Hnd as [Hk Hnd].
  assert (∃ s1, store_pair s (k, v) = Returns s1 ∧ ok s1 ∧
            ∀ k', kv_Get s1 k' = if decide (k' = k) then stored v else kv_Get s k')
    as (s1 & -> & Hok1 & Hs1).
  { unfold store_pair, stored. simpl. destruct (isZero v) eqn:Ev.
    - destruct (kv_Delete_spec s k Hok). eauto.
    - destruct (kv_Set_spec s k v Hok Ev) as (s1 & ? & ? & ?). eauto. }
  simpl. destruct (IH s1 Hok1 Hnd) as (s' & -> & Hok' & Hin & Hout).
  exists s'. split; [done|]. split; [done|]. split.
  - intros k' v' [[= -> ->]|H]%elem_of_cons; [|by apply Hin].
    by rewrite Hout, Hs1, decide_True.
  - intros k' Hk'. apply not_elem_of_cons in Hk' as [Hne Hk'].
    by rewrite Hout, Hs1, decide_False.
Qed.

Lemma SnapshotToStore_pairs d s :
  mv_wf d → SnapshotToStore isZero d s = foldM store_pair s (snapshot_pairs d).
Proof.
  intros Hwf. unfold SnapshotToStore, SnapshotTo, snapshot_pairs.
  rewrite <- (snapshot_scan_all d (λ k v s, store_pair s (k, v))) by done.
  assert (∀ cb1 cb2 items s, (∀ k v s, cb1 k v s = cb2 k v s) →
    snapshot_scan (S := S) (inner d) cb1 items s = snapshot_scan (inner d) cb2 items s) as Hext.
  { intros cb1 cb2 items s0 Hcb. revert s0. induction items as [|x items IH]; intros s0; [done|].
    simpl. destruct (d_Tree x); simpl; [|done]. destruct (inner d !! _); simpl; [|done].
    destruct (Max b) as [e|]; [|done]. destruct (s_Estimate e); [done|].
    rewrite Hcb. destruct (cb2 _ _ _) as [[s1 c]| |]; simpl; [|done..].
    by destruct c. }
  apply Hext. intros k v s0. unfold store_pair. simpl. by destruct (isZero v).
Qed.
End store.
End lemmas.

Section properties.
Context {BT : BTreeLib} {BL : BTreeLaws} {V : Type} `{!GoZero V}.
Implicit Types (d : GMVData V).

Lemma drop_entry_read d d' key txn k reader old :
  mv_wf d → (∀ e, e ∈ entries d key → 0 <= s_Index e) → 0 <= txn →
  changes_entries d key (drop_entry txn) d' →
  Read d k reader = Returns old →
  Read d' k reader =
    if decide (k = key ∧ Index old.1.2 = txn) then Read d key txn else Returns old.
Proof.
  intros Hwf Hnn Htxn (Hwf' & Hent & _). rewrite !Read_answer by done. intros [= <-].
  rewrite Hent. destruct (decide (k = key)) as [->|Hk];
    [|by rewrite decide_False by tauto].
  pose proof (entries_sorted d key Hwf) as Hs.
  assert (∀ e, e ∈ drop_entry txn (entries d key) ↔ e ∈ entries d key ∧ s_Index e ≠ txn) as Hm.
  { intros e. unfold drop_entry. rewrite elem_of_del_iff by (done || apply _).
    rewrite same_txn, bool_decide_eq_false. simpl. naive_solver. }
  assert (StronglySorted (below secondaryLesser) (drop_entry txn (entries d key))) as Hs'
    by (by apply del_sorted; [apply _|]).
  destruct (reader =? 0) eqn:E0.
  { rewrite decide_False; [done|]. simpl. lia. }
  destruct (closest (entries d key) reader) as [e|] eqn:E.
  2:{ rewrite decide_False by (simpl; lia). do 2 f_equal. apply closest_None. intros e He.
      rewrite closest_None in E. apply E, Hm, He. }
  pose proof E as (H1 & H2 & H3)%closest_spec; [|done]. cbn.
  case_decide as Hd; do 2 f_equal.
  - destruct Hd as [_ <-].
    destruct (s_Index e =? 0) eqn:Ez.
    + apply closest_None. intros z [Hz Hne]%Hm. specialize (Hnn z Hz).
      destruct (Z.lt_ge_cases (s_Index z) reader) as [Hlt|]; [|done].
      destruct (H3 z Hz Hlt) as [->|]; lia.
    + destruct (closest (entries d key) (s_Index e)) as [e'|] eqn:E'.
      * apply closest_spec in E' as (G1 & G2 & G3); [|done]. apply closest_spec; [done|].
        setoid_rewrite Hm. split; [split; [done|lia]|]. split; [lia|].
        intros z [Hz Hne] Hlt. apply G3; [done|]. destruct (H3 z Hz Hlt) as [->|]; lia.
      * rewrite closest_None in E'. apply closest_None. intros z [Hz Hne]%Hm.
        destruct (Z.lt_ge_cases (s_Index z) reader) as [Hlt|]; [|done].
        specialize (E' z Hz). destruct (H3 z Hz Hlt) as [->|]; lia.
  - assert (closest (drop_entry txn (entries d key)) reader = Some e) as ->; [|done].
    apply closest_spec; [done|]. setoid_rewrite Hm.
    split; [split; [done|tauto]|]. split; [done|]. intros z [Hz _] Hlt. by apply H3.
Qed.

(** C9: [Write] stores an entry that exactly the later transactions see: a
    read of the key by transaction [txn > Index version] now returns the new
    value, its version and no estimate, unless it already saw the entry of a
    transaction between the two; every other read, in particular by the
    writer and by earlier transactions, is unchanged.  [Write] never panics
    and keeps the store well formed. *)
Theorem Write_read d key value version :
  mv_wf d → 0 <= Index version →
  ∃ d', Write d key value version = Returns d' ∧ mv_wf d' ∧
    ∀ k txn old, Read d k txn = Returns old →
      Read d' k txn = Returns
        (if decide (k = key ∧ txn ≠ 0 ∧ Index version < txn ∧ Index old.1.2 <= Index version)
         then (value, version, false) else old).
Proof.
  intros Hwf Hidx. destruct (Write_changes d key value version Hwf) as (d' & HW & Hc).
  exists d'. split; [done|]. split; [apply Hc|]. intros k txn old Hold.
  rewrite (put_entry_read d d' key (value_entry value version) k txn old Hwf Hidx Hc Hold), overridden_decide.
  by destruct version.
Qed.

(** After [WriteEstimate] the same readers as for a write run into an
    ESTIMATE of that transaction, and no other read changes. *)
Theorem WriteEstimate_read d key writer :
  mv_wf d → 0 <= writer →
  ∃ d', WriteEstimate d key writer = Returns d' ∧ mv_wf d' ∧
    ∀ k txn old, Read d k txn = Returns old →
      Read d' k txn = Returns
        (if decide (k = key ∧ txn ≠ 0 ∧ writer < txn ∧ Index old.1.2 <= writer)
         then (zero, MkVersion writer 0, true) else old).
Proof.
  intros Hwf Hidx. destruct (WriteEstimate_changes d key writer Hwf) as (d' & HW & Hc).
  exists d'. split; [done|]. split; [apply Hc|]. intros k txn old Hold.
  rewrite (put_entry_read d d' key (estimate_entry writer) k txn old Hwf Hidx Hc Hold), overridden_decide.
  done.
Qed.

(** [Delete] removes exactly the entry of transaction [txn]: a read that
    found it now finds what [txn] itself would read, every other read is
    unchanged. *)
Theorem Delete_read d key txn :
  mv_wf d → (∀ e, e ∈ entries d key → 0 <= s_Index e) → 0 <= txn →
  ∃ d', MVDelete d key txn = Returns d' ∧ mv_wf d' ∧
    ∀ k reader old, Read d k reader = Returns old →
      Read d' k reader =
        if decide (k = key ∧ Index old.1.2 = txn) then Read d key txn else Returns old.
Proof.
  intros Hwf Hnn Htxn. destruct (MVDelete_changes d key txn Hwf) as (d' & HW & Hc).
  exists d'. split; [done|]. split; [apply Hc|]. intros k reader old Hold.
  by apply (drop_entry_read d d' key txn).
Qed.

(** C10: [ValidateReadSet] terminates without a panic and answers [true]
    exactly when every recorded point read would return the recorded version
    now, without an estimate, and every recorded iterator, replayed up to
    its stop key, sees exactly the recorded keys with the recorded versions
    and no estimate before the stop key. *)
Theorem ValidateReadSet_exact fuel d txn rs :
  mv_wf d → (length (Scan (outer d)) < fuel)%nat →
  ∃ b, ValidateReadSet fuel d txn rs = Returns b ∧
    (b = true ↔
      (∀ r, r ∈ rs_Reads rs → ∃ v, Read d (rd_Key r) txn = Returns (v, rd_Version r, false)) ∧
      (∀ desc, desc ∈ rs_Iterators rs →
         let shown := replay (inner d) txn (range_of d (id_Options desc)) in
         let seen := take_while (not_beyond desc) shown.1 in
         seen = id_Reads desc ∧ (shown.2 = true → (length seen < length shown.1)%nat))).
Proof.
  intros Hwf Hf. unfold ValidateReadSet. rewrite validate_reads_spec by done. cbn.
  set (ps := forallb _ (rs_Reads rs)).
  set (qs := forallb (λ desc, matches desc (id_Reads desc)
               (replay (inner d) txn (range_of d (id_Options desc)))) (rs_Iterators rs)).
  exists (ps && qs). split.
  { destruct ps; cbn; [|done]. by rewrite validate_iterators_spec. }
  rewrite andb_true_iff. unfold ps, qs. rewrite !forallb_forall.
  setoid_rewrite <- list_elem_of_In.
  assert (∀ A B C D : Prop, (A ↔ C) → (B ↔ D) → (A ∧ B ↔ C ∧ D)) as Hand by tauto.
  apply Hand; (split; intros H x Hx; specialize (H x Hx)).
  - rewrite Read_answer in * by done. destruct (answer _) as [[v ver] est].
    apply andb_prop in H as [H1%negb_true_iff H2%bool_decide_eq_true]. subst. by exists v.
  - destruct H as [v ->]. by rewrite bool_decide_eq_true_2.
  - unfold matches in H. apply andb_prop in H as [H1%bool_decide_eq_true H2].
    split; [done|]. intros E. rewrite E in H2. by apply bool_decide_eq_true in H2.
  - destruct H as [H1 H2]. unfold matches.
    rewrite bool_decide_eq_true_2 by done. simpl.
    destruct (_.2); simpl; [|done]. by apply bool_decide_eq_true, H2.
Qed.

(** [SnapshotToStore] terminates and leaves in the base store, for every
    key, the value of the last transaction that wrote it, a zero value
    meaning deletion; a key without entry, or whose last entry is an
    estimate, keeps its stored value. *)
Theorem SnapshotToStore_last {S} `{!KVStore S V} (isZero : V → bool) (ok : S → Prop)
    `{!KVStoreLaws S V isZero zero ok} d s :
  mv_wf d → ok s →
  ∃ s', SnapshotToStore isZero d s = Returns s' ∧ ok s' ∧
    ∀ k, kv_Get s' k =
      match last (entries d k) with
      | Some e =>
          if s_Estimate e then kv_Get s k
          else if isZero (s_Value e) then zero else s_Value e
      | None => kv_Get s k
      end.
Proof.
  intros Hwf Hok. rewrite SnapshotToStore_pairs by done.
  destruct (store_pairs isZero ok (snapshot_pairs d) s Hok) as (s' & HR & Hok' & Hin & Hout).
  { apply (StronglySorted_NoDup bytes_lt), snapshot_pairs_sorted, Hwf. }
  exists s'. split; [done|]. split; [done|]. intros k.
  assert (∀ A : Prop, (∀ v, (k, v) ∈ snapshot_pairs d → A) → k ∈ fst <$> snapshot_pairs d → A) as Hk.
  { intros A HA ([k' v] & -> & H)%list_elem_of_fmap. eauto. }
  destruct (last (entries d k)) as [e|] eqn:El; [destruct (s_Estimate e) eqn:Ee|].
  2:{ apply (Hin k (s_Value e)). apply snapshot_pairs_elem; eauto. }
  all: apply Hout; refine (Hk False _); intros v Hv;
    apply snapshot_pairs_elem in Hv as (e' & Hl & He & _); congruence.
Qed.
End properties.

(** ** Concrete stores *)

Section witnesses.
#[local] Existing Instance ListTree.
#[local] Existing Instance ListTree_laws.

Definition key1 : Bytes := [Byte.x01].
Definition key2 : Bytes := [Byte.x02].

(** The result of a call that returned. *)
Definition result {A} (dflt : A) (o : outcome A) : A :=
  match o with Returns a => a | _ => dflt end.

(** Transaction 1 wrote 7 to [key1], transaction 3 an estimate to [key2]. *)
Definition store1 : GMVData Z := result (NewGMVData Z) (Write (NewGMVData Z) key1 7 (MkVersion 1 0)).
Definition store2 : GMVData Z := result store1 (WriteEstimate store1 key2 3).

Lemma store1_wf : mv_wf store1.
Proof.
  destruct (Write_changes (NewGMVData Z) key1 7 (MkVersion 1 0) NewGMVData_wf) as (d & E & Hd & _).
  unfold store1. by rewrite E.
Qed.

Lemma store2_wf : mv_wf store2.
Proof.
  destruct (WriteEstimate_changes store1 key2 3 store1_wf) as (d & E & Hd & _).
  unfold store2. by rewrite E.
Qed.

Lemma Write_read_witness :
  ∃ d', Write store2 key1 9 (MkVersion 2 5) = Returns d' ∧
    Read d' key1 2 = Returns (7, MkVersion 1 0, false) ∧
    Read d' key1 3 = Returns (9, MkVersion 2 5, false) ∧
    Read d' key2 5 = Returns (0, MkVersion 3 0, true).
Proof.
  destruct (Write_read store2 key1 9 (MkVersion 2 5) store2_wf ltac:(done))
    as (d' & E & _ & HR).
  exists d'. split; [done|].
  split; [|split]; [apply (HR key1 2 (7, MkVersion 1 0, false))|apply (HR key1 3 (7, MkVersion 1 0, false))|
    apply (HR key2 5 (0, MkVersion 3 0, true))]; vm_compute; reflexivity.
Defined.

Lemma WriteEstimate_read_witness :
  ∃ d', WriteEstimate store2 key1 2 = Returns d' ∧
    Read d' key1 2 = Returns (7, MkVersion 1 0, false) ∧
    Read d' key1 3 = Returns (0, MkVersion 2 0, true).
Proof.
  destruct (WriteEstimate_read store2 key1 2 store2_wf ltac:(done)) as (d' & E & _ & HR).
  exists d'. split; [done|].
  split; [apply (HR key1 2 (7, MkVersion 1 0, false))|apply (HR key1 3 (7, MkVersion 1 0, false))];
    vm_compute; reflexivity.
Defined.

Lemma Delete_read_witness :
  ∃ d', MVDelete store2 key2 3 = Returns d' ∧ Read d' key2 5 = Read store2 key2 3 ∧
    Read d' key1 5 = Returns (7, MkVersion 1 0, false).
Proof.
  destruct (Delete_read store2 key2 3 store2_wf) as (d' & E & _ & HR); [|done|].
  - intros e He. vm_compute in He. apply list_elem_of_singleton in He as ->. done.
  - exists d'. split; [done|]. split.
    + apply (HR key2 5 (0, MkVersion 3 0, true)). vm_compute. reflexivity.
    + apply (HR key1 5 (7, MkVersion 1 0, false)). vm_compute. reflexivity.
Defined.

(** The read set of transaction 2: [key1] in version (1, 0), and an iteration
    over everything, which sees [key1] only. *)
Definition readset2 : ReadSet :=
  let r := MkRead key1 (MkVersion 1 0) in
  MkReadSet [r] [MkIteratorDescriptor (MkOptions None None true) None [r]].

Lemma ValidateReadSet_exact_witness :
  (∃ b, ValidateReadSet 9 store2 2 readset2 = Returns b ∧ b = true) ∧
  (∃ b, ValidateReadSet 9 store2 5 readset2 = Returns b ∧ b = false).
Proof.
  assert (length (Scan (outer store2)) < 9)%nat as Hf by (vm_compute; lia).
  split.
  - destruct (ValidateReadSet_exact 9 store2 2 readset2 store2_wf Hf) as (b & E & Hb).
    exists b. split; [done|]. apply Hb. vm_compute in E. injection E as <-. by apply Hb.
  - destruct (ValidateReadSet_exact 9 store2 5 readset2 store2_wf Hf) as (b & E & Hb).
    exists b. split; [done|]. vm_compute in E. by injection E as <-.
Defined.

Definition zero_value (v : Z) : bool := v =? 0.

Lemma SnapshotToStore_last_witness :
  ∃ s', @SnapshotToStore _ _ _ (memdb_store zero_value) zero_value store2 (NewGMemDB Z) = Returns s' ∧
    mem_Get s' key1 = 7 ∧ mem_Get s' key2 = 0.
Proof.
  destruct (@SnapshotToStore_last _ _ Z _ _ (memdb_store zero_value) zero_value mem_wf
    (memdb_store_laws zero_value) store2 (NewGMemDB Z) store2_wf NewGMemDB_wf) as (s' & E & _ & HG).
  exists s'. split; [exact E|]. split; [etransitivity; [apply (HG key1)|]|etransitivity; [apply (HG key2)|]];
    vm_compute; reflexivity.
Defined.
End witnesses.
