(* ===== verification/MVView.v ===== *)
(** * mvview.go: what one transaction sees of a store

    A view keeps the transaction's reads and its pending writes.  The shared
    multi-version store is passed along, since other transactions may change
    it while the view waits for one of them. *)

From Stdlib Require Import ZArith Lia.
From S2P Require Import Prelude Utils BTree BTreeIterator Types MemDB MVData MVDataFacts MVValidate MVProps.
Local Open Scope Z_scope.

Section view.
Context {BT : BTreeLib} {V : Type} `{!GoZero V} (isZero : V → bool).
Context {Store : Type} `{!KVStore Store V}.

Record GMVMemoryView := MkView {
  v_storage : Store;
  v_store : nat;
  v_txn : Z;
  v_readSet : ReadSet;
  v_writeSet : option (GMemDB V);
}.

Definition NewGMVMemoryView (store : nat) (storage : Store) (txn : Z) : GMVMemoryView :=
  MkView storage store txn emptyReadSet None.

Definition set_writeSet (s : GMVMemoryView) (ws : GMemDB V) : GMVMemoryView :=
  MkView (v_storage s) (v_store s) (v_txn s) (v_readSet s) (Some ws).

Definition add_read (s : GMVMemoryView) (r : ReadDescriptor) : GMVMemoryView :=
  MkView (v_storage s) (v_store s) (v_txn s)
    (MkReadSet (rs_Reads (v_readSet s) ++ [r]) (rs_Iterators (v_readSet s))) (v_writeSet s).

Definition view_init (s : GMVMemoryView) : GMVMemoryView :=
  match v_writeSet s with
  | None => set_writeSet s (NewGMemDB V)
  | Some _ => s
  end.

(** The write set after [init]. *)
Definition init_writeSet (s : GMVMemoryView) : GMemDB V :=
  default (NewGMemDB V) (v_writeSet (view_init s)).

(** Publishes the writes; the keys written, in order. *)
Definition ApplyWriteSet (s : GMVMemoryView) (m : GMVData V) (version : TxnVersion) :
    outcome (GMVData V * list Bytes) :=
  match v_writeSet s with
  | None => Returns (m, [])
  | Some ws =>
      if decide (bt_Len ws = 0%nat) then Returns (m, [])
      else
        foldM (λ '(m, newLocations) '(key, value),
                 m' ← Write m key value version;
                 Returns (m', newLocations ++ [key]))
          (m, []) (mem_Scan ws)
  end.

(** [waitFor]: what the store has become when the wait for a transaction is over. *)
Context (waitFor : Z → GMVData V → GMVData V).

Fixpoint read_loop (fuel : nat) (s : GMVMemoryView) (m : GMVData V) (key : Bytes) :
    outcome (GMVMemoryView * GMVData V * V) :=
  match fuel with
  | O => Waits
  | S fuel' =>
      '(value, version, estimate) ← Read m key (v_txn s);
      if (estimate : bool) then read_loop fuel' s (waitFor (Index version) m) key
      else
        let s' := add_read s (MkRead key version) in
        if negb (version_Valid version) then Returns (s', m, kv_Get (v_storage s) key)
        else Returns (s', m, value)
  end.

Definition view_Get (fuel : nat) (s : GMVMemoryView) (m : GMVData V) (key : Bytes) :
    outcome (GMVMemoryView * GMVData V * V) :=
  match v_writeSet s with
  | Some ws =>
      let '(value, found) := OverlayGet ws key in
      if (found : bool) then Returns (s, m, value) else read_loop fuel s m key
  | None => read_loop fuel s m key
  end.

Definition view_Has (fuel : nat) (s : GMVMemoryView) (m : GMVData V) (key : Bytes) :
    outcome (GMVMemoryView * GMVData V * bool) :=
  '(s', m', v) ← view_Get fuel s m key;
  Returns (s', m', negb (isZero v)).

Definition view_Set (s : GMVMemoryView) (key : Bytes) (value : V) : outcome GMVMemoryView :=
  if isZero value then Panics
  else Returns (set_writeSet s (OverlaySet (init_writeSet s) key value)).

Definition view_Delete (s : GMVMemoryView) (key : Bytes) : GMVMemoryView :=
  set_writeSet s (OverlaySet (init_writeSet s) key zero).

(** ** A transaction as a sequence of store operations *)

Inductive store_op :=
| OpGet (key : Bytes)
| OpHas (key : Bytes)
| OpSet (key : Bytes) (value : V)
| OpDelete (key : Bytes).

(** What the caller observes. *)
Inductive observation :=
| SawValue (v : V)
| SawBool (b : bool)
| SawNothing.

Definition view_op (fuel : nat) (s : GMVMemoryView) (m : GMVData V) (op : store_op) :
    outcome (GMVMemoryView * GMVData V * observation) :=
  match op with
  | OpGet key => '(s', m', v) ← view_Get fuel s m key; Returns (s', m', SawValue v)
  | OpHas key => '(s', m', b) ← view_Has fuel s m key; Returns (s', m', SawBool b)
  | OpSet key v => s' ← view_Set s key v; Returns (s', m, SawNothing)
  | OpDelete key => Returns (view_Delete s key, m, SawNothing)
  end.

(** The same operation on a plain map. *)
Definition map_op (f : Bytes → V) (op : store_op) : outcome ((Bytes → V) * observation) :=
  match op with
  | OpGet key => Returns (f, SawValue (f key))
  | OpHas key => Returns (f, SawBool (negb (isZero (f key))))
  | OpSet key v =>
      if isZero v then Panics
      else Returns (λ k, if decide (k = key) then v else f k, SawNothing)
  | OpDelete key => Returns (λ k, if decide (k = key) then zero else f k, SawNothing)
  end.

Fixpoint run_view (fuel : nat) (s : GMVMemoryView) (m : GMVData V) (ops : list store_op) :
    outcome (GMVMemoryView * list observation) :=
  match ops with
  | [] => Returns (s, [])
  | op :: ops =>
      '(s', m', o) ← view_op fuel s m op;
      '(s'', os) ← run_view fuel s' m' ops;
      Returns (s'', o :: os)
  end.

Fixpoint run_map (f : Bytes → V) (ops : list store_op) :
    outcome ((Bytes → V) * list observation) :=
  match ops with
  | [] => Returns (f, [])
  | op :: ops =>
      '(f', o) ← map_op f op;
      '(f'', os) ← run_map f' ops;
      Returns (f'', o :: os)
  end.
End view.
Arguments GMVMemoryView {_} _ _.

Section view_facts.
Context {BT : BTreeLib} {BL : BTreeLaws} {V : Type} `{!GoZero V} (isZero : V → bool).
Context {Store : Type} `{!KVStore Store V} (waitFor : Z → GMVData V → GMVData V).
Implicit Types (s : GMVMemoryView V Store) (m : GMVData V).

(** The value a transaction starts from: the closest earlier write, or the
    base storage. *)
Definition visible m (storage : Store) (txn : Z) (key : Bytes) : V :=
  match (if txn =? 0 then None else closest (entries m key) txn) with
  | Some e => if version_Valid (secondary_Version e) then s_Value e else kv_Get storage key
  | None => kv_Get storage key
  end.

(** What a view shows: its own writes over [visible]. *)
Definition shows s m (key : Bytes) : V :=
  match v_writeSet s with
  | Some ws =>
      match OverlayGet ws key with
      | (v, true) => v
      | (_, false) => visible m (v_storage s) (v_txn s) key
      end
  | None => visible m (v_storage s) (v_txn s) key
  end.

Definition view_wf s : Prop := from_option mem_wf True (v_writeSet s).

(** No reader of transaction [txn] runs into an estimate. *)
Definition no_estimates m (txn : Z) : Prop :=
  ∀ key v version estimate, Read m key txn = Returns (v, version, estimate) → estimate = false.

(** The reads recorded so far are what would be read now. *)
Definition reads_current s m : Prop :=
  ∀ r, r ∈ rs_Reads (v_readSet s) →
    ∃ v, Read m (rd_Key r) (v_txn s) = Returns (v, rd_Version r, false).

Lemma view_Get_shows fuel s m key :
  mv_wf m → no_estimates m (v_txn s) →
  ∃ s', view_Get waitFor (S fuel) s m key = Returns (s', m, shows s m key) ∧
    v_writeSet s' = v_writeSet s ∧ v_storage s' = v_storage s ∧ v_txn s' = v_txn s ∧
    (reads_current s m → reads_current s' m) ∧
    rs_Iterators (v_readSet s') = rs_Iterators (v_readSet s).
Proof.
  intros Hwf Hne.
  assert (∃ s', read_loop waitFor (S fuel) s m key =
                  Returns (s', m, visible m (v_storage s) (v_txn s) key) ∧
    v_writeSet s' = v_writeSet s ∧ v_storage s' = v_storage s ∧ v_txn s' = v_txn s ∧
    (reads_current s m → reads_current s' m) ∧
    rs_Iterators (v_readSet s') = rs_Iterators (v_readSet s)) as Hloop.
  { pose proof (Read_answer m key (v_txn s) Hwf) as HR.
    set (o := if v_txn s =? 0 then None else closest (entries m key) (v_txn s)) in HR.
    cbn [read_loop]. rewrite HR. destruct (answer o) as [[v version] est] eqn:Ea. cbn.
    assert (est = false) as -> by (by eapply Hne).
    exists (add_read s (MkRead key version)). split; [|repeat split; try done].
    - unfold visible. fold o. destruct o as [e|]; cbn in Ea.
      + injection Ea as <- <- _. by destruct (version_Valid _).
      + injection Ea as <- <-. done.
    - intros Hcur r Hr. cbn in Hr. apply elem_of_app in Hr as [Hr|Hr]; [by apply Hcur|].
      apply list_elem_of_singleton in Hr as ->. by exists v. }
  unfold view_Get, shows. destruct (v_writeSet s) as [ws|] eqn:E; [|done].
  destruct (OverlayGet ws key) as [v [|]]; [|done]. exists s. by rewrite E.
Qed.

Lemma view_write_shows s m ws k v key :
  mem_wf ws → (v_writeSet s = Some ws ∨ v_writeSet s = None ∧ ws = NewGMemDB V) →
  shows (set_writeSet s (OverlaySet ws k v)) m key =
    if decide (key = k) then v else shows s m key.
Proof.
  intros Hwf Hws. unfold shows. simpl. rewrite OverlayGet_Set by done.
  case_decide; [done|]. destruct Hws as [->|[-> ->]]; [done|].
  unfold OverlayGet, NewGMemDB. rewrite Get_Scan, Scan_new. done.
Qed.

Lemma init_writeSet_wf s :
  view_wf s → mem_wf (init_writeSet s) ∧
  (v_writeSet s = Some (init_writeSet s) ∨ v_writeSet s = None ∧ init_writeSet s = NewGMemDB V).
Proof.
  unfold view_wf, init_writeSet, view_init. destruct (v_writeSet s) as [ws|] eqn:E; simpl.
  - rewrite E. simpl. auto.
  - intros _. split; [apply NewGMemDB_wf|auto].
Qed.

(** The simulation between a view and the plain map [f]. *)
Record simulates m (storage : Store) (txn : Z) s (f : Bytes → V) : Prop := {
  sim_wf : view_wf s;
  sim_txn : v_txn s = txn;
  sim_storage : v_storage s = storage;
  sim_shows : ∀ k, shows s m k = f k;
  sim_reads : reads_current s m;
  sim_iters : rs_Iterators (v_readSet s) = [];
}.

Lemma simulates_new m storage store txn :
  simulates m storage txn (NewGMVMemoryView store storage txn) (visible m storage txn).
Proof. split; try done. intros r Hr. by apply elem_of_nil in Hr. Qed.

Lemma simulates_write m storage txn s f key v :
  simulates m storage txn s f →
  simulates m storage txn (set_writeSet s (OverlaySet (init_writeSet s) key v))
    (λ k, if decide (k = key) then v else f k).
Proof.
  intros [Hwf Ht Hs Hsh Hr Hi]. destruct (init_writeSet_wf s Hwf) as [Hws Hcase].
  split; try done; [by apply OverlaySet_wf|].
  intros k. rewrite view_write_shows by done. case_decide; [done|apply Hsh].
Qed.

Lemma simulates_op fuel m storage txn s f op :
  mv_wf m → no_estimates m txn → simulates m storage txn s f →
  match map_op isZero f op with
  | Returns (f', o) => ∃ s', view_op isZero waitFor (S fuel) s m op = Returns (s', m, o) ∧
                         simulates m storage txn s' f'
  | _ => view_op isZero waitFor (S fuel) s m op = Panics
  end.
Proof.
  intros Hwf Hne Hsim.
  assert (∀ key, ∃ s', view_Get waitFor (S fuel) s m key = Returns (s', m, f key) ∧
            simulates m storage txn s' f) as Hget.
  { intros key. destruct Hsim as [Hv Ht Hs Hsh Hr Hi]. subst txn storage.
    destruct (view_Get_shows fuel s m key Hwf Hne) as (s' & E & Ew & Es & Et & Hr' & Hi').
    exists s'. rewrite E, Hsh. split; [done|].
    split; try congruence; [unfold view_wf; by rewrite Ew|..|by apply Hr'].
    intros k. rewrite <- Hsh. unfold shows. by rewrite Ew, Es, Et. }
  destruct op as [key|key|key v|key]; simpl.
  - destruct (Hget key) as (s' & E & Hs'). exists s'. by rewrite E.
  - unfold view_Has. destruct (Hget key) as (s' & E & Hs'). exists s'. by rewrite E.
  - unfold view_Set. destruct (isZero v); [done|].
    eexists. split; [done|]. by apply simulates_write.
  - eexists. split; [done|]. by apply simulates_write.
Qed.

Lemma simulates_run fuel m storage txn s f ops :
  mv_wf m → no_estimates m txn → simulates m storage txn s f →
  match run_map isZero f ops with
  | Returns (f', os) => ∃ s', run_view isZero waitFor (S fuel) s m ops = Returns (s', os) ∧
                          simulates m storage txn s' f'
  | _ => run_view isZero waitFor (S fuel) s m ops = Panics
  end.
Proof.
  intros Hwf Hne. revert s f; induction ops as [|op ops IH]; intros s f Hsim; simpl; [eauto|].
  pose proof (simulates_op fuel m storage txn s f op Hwf Hne Hsim) as Hop.
  destruct (map_op isZero f op) as [[f' o]| |]; simpl; [|by rewrite Hop..].
  destruct Hop as (s' & -> & Hs'). cbn. specialize (IH s' f' Hs').
  destruct (run_map isZero f' ops) as [[f'' os]| |]; simpl; [|by rewrite IH..].
  destruct IH as (s'' & -> & Hs''). cbn. eauto.
Qed.

(** Once the waits are over the loop returns, with the answer of the last read. *)
Fixpoint after_waits (n : nat) (m : GMVData V) (key : Bytes) (txn : Z) : GMVData V :=
  match n, Read m key txn with
  | S n', Returns (_, version, true) => after_waits n' (waitFor (Index version) m) key txn
  | _, _ => m
  end.
End view_facts.

Section properties.
Context {BT : BTreeLib} {BL : BTreeLaws} {V : Type} `{!GoZero V} (isZero : V → bool).
Context {Store : Type} `{!KVStore Store V} (waitFor : Z → GMVData V → GMVData V).
Implicit Types (m : GMVData V).

(** C13: A transaction's view behaves as a plain map that starts with the
    values of the transactions before it over the base storage: every
    sequence of gets, membership tests, sets and deletes on a fresh view
    observes what it would observe on that map, and panics when a zero value
    is set, exactly as the map does; and the read set it recorded is valid as
    long as the shared store does not change.  (The store holds no estimate
    the transaction would wait for.) *)
Theorem view_refines_map fuel fuel' m (storage : Store) (store : nat) (txn : Z) (ops : list (store_op (V := V))) :
  mv_wf m → no_estimates m txn → (length (Scan (outer m)) < fuel')%nat →
  match run_map isZero (visible m storage txn) ops with
  | Returns (f, observed) =>
      ∃ s', run_view isZero waitFor (S fuel) (NewGMVMemoryView store storage txn) m ops =
              Returns (s', observed) ∧
        (∀ k, shows s' m k = f k) ∧
        ValidateReadSet fuel' m txn (v_readSet s') = Returns true
  | _ => run_view isZero waitFor (S fuel) (NewGMVMemoryView store storage txn) m ops = Panics
  end.
Proof.
  intros Hwf Hne Hf.
  pose proof (simulates_run isZero waitFor fuel m storage txn _ _ ops Hwf Hne
    (simulates_new m storage store txn)) as Hrun.
  destruct (run_map _ _ _) as [[f os]| |]; [|done..].
  destruct Hrun as (s' & E & [_ Ht _ Hsh Hr Hi]). exists s'. split; [done|]. split; [done|].
  unfold ValidateReadSet. rewrite Hi, validate_reads_spec by done. cbn.
  rewrite (proj2 (forallb_forall _ _)); [done|]. intros r Hin%list_elem_of_In.
  destruct (Hr r Hin) as [v Hv]. rewrite Ht in Hv. rewrite Hv. by rewrite bool_decide_eq_true_2.
Qed.

Lemma read_loop_waits n fuel s m key :
  (n < fuel)%nat →
  mv_wf (after_waits waitFor n m key (v_txn s)) → (∀ i m', mv_wf m' → mv_wf (waitFor i m')) → mv_wf m →
  (∀ v version, Read (after_waits waitFor n m key (v_txn s)) key (v_txn s) ≠ Returns (v, version, true)) →
  ∃ m' s' v, read_loop waitFor fuel s m key = Returns (s', m', v) ∧
    m' = after_waits waitFor n m key (v_txn s) ∧
    v = visible m' (v_storage s) (v_txn s) key ∧
    ∃ version v0, s' = add_read s (MkRead key version) ∧
      Read m' key (v_txn s) = Returns (v0, version, false).
Proof.
  intros Hn Hwfn Hw Hwf Hne. revert n m Hn Hwfn Hwf Hne.
  induction fuel as [|fuel IH]; intros n m Hn Hwfn Hwf Hne; [lia|].
  pose proof (Read_answer m key (v_txn s) Hwf) as HR. cbn [read_loop]. rewrite HR.
  destruct (answer _) as [[v version] [|]] eqn:Ea; cbn.
  - destruct n as [|n]; [by destruct (Hne v version)|].
    simpl in *. rewrite HR in *.
    apply (IH n); [lia|done|by apply Hw|done].
  - assert (after_waits waitFor n m key (v_txn s) = m) as Hm.
    { destruct n; simpl; [done|]. by rewrite HR. }
    rewrite Hm in *.
    set (o := if v_txn s =? 0 then None else closest (entries m key) (v_txn s)) in *.
    exists m, (add_read s (MkRead key version)).
    exists (if version_Valid version then v else kv_Get (v_storage s) key).
    split; [by destruct (version_Valid version)|]. split; [done|]. split; [|eauto].
    unfold visible. fold o. destruct o as [e|]; cbn in Ea; injection Ea as <- <-; done.
Qed.

(** A read that runs into ESTIMATE marks waits for each blocking
    transaction in turn and returns once the mark is gone: if after at most
    [n] waits the read finds no estimate, [Get] returns within [n + 1] rounds,
    with the value then visible, and records exactly one read, of the
    version it returned. *)
Lemma view_Get_waits n fuel s m key :
  (n < fuel)%nat → v_writeSet s = None →
  mv_wf m → (∀ i m', mv_wf m' → mv_wf (waitFor i m')) →
  (∀ v version, Read (after_waits waitFor n m key (v_txn s)) key (v_txn s) ≠ Returns (v, version, true)) →
  ∃ s' m', view_Get waitFor fuel s m key = Returns (s', m', visible m' (v_storage s) (v_txn s) key) ∧
    m' = after_waits waitFor n m key (v_txn s) ∧
    ∃ version v0, rs_Reads (v_readSet s') = rs_Reads (v_readSet s) ++ [MkRead key version] ∧
      Read m' key (v_txn s) = Returns (v0, version, false).
Proof.
  intros Hn Hws Hwf Hw Hne. unfold view_Get. rewrite Hws.
  assert (∀ n m, mv_wf m → mv_wf (after_waits waitFor n m key (v_txn s))) as Haw.
  { clear -Hw. induction n as [|n IH]; intros m Hwf; simpl; [done|].
    destruct (Read m key (v_txn s)) as [[[v ver] [|]]| |]; auto. }
  destruct (read_loop_waits n fuel s m key Hn (Haw n m Hwf) Hw Hwf Hne)
    as (m' & s' & v & E & Em & -> & version & v0 & -> & HR).
  exists (add_read s (MkRead key version)), m'. rewrite E. eauto 6.
Qed.
End properties.

(** ** Concrete views *)

Section witnesses.
#[local] Existing Instance ListTree.
#[local] Existing Instance ListTree_laws.
#[local] Instance memdb_Z : KVStore (GMemDB Z) Z := memdb_store zero_value.

Lemma store1_no_estimates txn : no_estimates store1 txn.
Proof.
  intros key v version est HR. rewrite Read_answer in HR by apply store1_wf.
  destruct (if txn =? 0 then None else _) as [e|] eqn:E; [|by injection HR as <- <- <-].
  destruct (txn =? 0); [done|].
  assert (e ∈ entries store1 key) as He.
  { apply closest_spec in E as [E _]; [done|]. apply entries_sorted, store1_wf. }
  clear E. destruct (Write_changes (NewGMVData Z) key1 7 (MkVersion 1 0) NewGMVData_wf)
    as (d & E & _ & Hd & _).
  unfold store1 in He. rewrite E in He. simpl in He. rewrite Hd in He. case_decide.
  - apply elem_of_ins in He as [->|He]; [by injection HR as <- <- <-| |apply _].
    vm_compute in He. by apply elem_of_nil in He.
  - rewrite entries_no_key in He; [by apply elem_of_nil in He|].
    vm_compute. intros H1. by apply elem_of_nil in H1.
Qed.

(** Transaction 2 reads [key1], overwrites it, deletes [key2] and looks again. *)
Definition script : list (store_op (V := Z)) :=
  [OpGet key1; OpSet key1 5; OpDelete key2; OpHas key2; OpGet key1].

Lemma view_refines_map_witness :
  ∃ s', run_view zero_value (λ _ m, m) 3 (NewGMVMemoryView 0 (NewGMemDB Z) 2) store1 script
    = Returns (s', [SawValue 7; SawNothing; SawNothing; SawBool false; SawValue 5]) ∧
    ValidateReadSet 9 store1 2 (v_readSet s') = Returns true.
Proof.
  assert (length (Scan (outer store1)) < 9)%nat as Hf by (vm_compute; lia).
  pose proof (view_refines_map zero_value (λ _ m, m) 2 9 store1 (NewGMemDB Z) 0 2 script
    store1_wf (store1_no_estimates 2) Hf) as H.
  vm_compute run_map in H. cbv iota beta in H. destruct H as (s' & E & _ & Hv).
  exists s'. split; [exact E|exact Hv].
Defined.

(** The writer of the estimate gives it up. *)
Definition stop_waiting (txn : Z) (m : GMVData Z) : GMVData Z := result m (MVDelete m key2 txn).

Lemma view_Get_waits_witness :
  ∃ s' m', view_Get stop_waiting 2 (NewGMVMemoryView 0 (NewGMemDB Z) 5) store2 key2 = Returns (s', m', 0) ∧
    rs_Reads (v_readSet s') = [MkRead key2 InvalidTxnVersion].
Proof.
  assert (∀ i m, mv_wf m → mv_wf (stop_waiting i m)) as Hw.
  { intros i m Hwf. destruct (MVDelete_changes m key2 i Hwf) as (d & E & Hd & _).
    unfold stop_waiting. by rewrite E. }
  destruct (view_Get_waits stop_waiting 1 2 (NewGMVMemoryView 0 (NewGMemDB Z) 5) store2 key2
    ltac:(lia) eq_refl store2_wf Hw) as (s' & m' & E & -> & version & v0 & Hrs & HR).
  { intros v version. vm_compute. congruence. }
  vm_compute in HR. injection HR as <- <-. eexists s', _. split; [exact E|exact Hrs].
Defined.
End witnesses.
