(* ===== verification/MergeIterator.v ===== *)
(** * mergeiterator.go: merging an iterator with one that shadows it

    [cacheMergeIterator] walks two iterators in step; an item of the second
    replaces the first one's item of the same key, and hides it when its value
    is zero.  The iterators merged are values of an interface, here a class. *)

From Stdlib Require Import ZArith Lia.
From S2P Require Import Prelude BTree BTreeIterator Types MemDB.

(** What the code uses of a [storetypes.GIterator]: [Next] panics on an
    invalid iterator, and may wait for another transaction. *)
Class GIterator (I V : Type) := {
  git_Valid : I → bool;
  git_Key : I → Bytes;
  git_Value : I → V;
  git_Next : I → outcome I;
}.

Section merge.
Context {V P C : Type} `{!GIterator P V, !GIterator C V} (isZero : V → bool).

Record cacheMergeIterator := MkMergeIterator {
  parent : P;
  cache : C;
  mi_ascending : bool;
  mi_valid : bool;
}.

Definition set_cache (it : cacheMergeIterator) (c : C) : cacheMergeIterator :=
  MkMergeIterator (parent it) c (mi_ascending it) (mi_valid it).
Definition set_parent (it : cacheMergeIterator) (p : P) : cacheMergeIterator :=
  MkMergeIterator p (cache it) (mi_ascending it) (mi_valid it).
Definition set_merge_valid (it : cacheMergeIterator) (b : bool) : cacheMergeIterator :=
  MkMergeIterator (parent it) (cache it) (mi_ascending it) b.

(** Like [bytes.Compare] but opposite if not ascending. *)
Definition compare (asc : bool) (a b : Bytes) : comparison :=
  if asc then bytes_compare a b else CompOpp (bytes_compare a b).

(** No limit is a nil [until]. *)
Fixpoint skipCacheDeletes (fuel : nat) (it : cacheMergeIterator) (until : option Bytes) :
    outcome cacheMergeIterator :=
  if git_Valid (cache it) && isZero (git_Value (cache it)) &&
     match until with
     | None => true
     | Some until => match compare (mi_ascending it) (git_Key (cache it)) until with Lt => true | _ => false end
     end
  then
    match fuel with
    | O => Waits
    | S fuel => c ← git_Next (cache it); skipCacheDeletes fuel (set_cache it c) until
    end
  else Returns it.

Fixpoint skipUntilExistsOrInvalid (fuel : nat) (it : cacheMergeIterator) : outcome (cacheMergeIterator * bool) :=
  if negb (git_Valid (parent it)) then
    it ← skipCacheDeletes fuel it None;
    Returns (it, git_Valid (cache it))
  else if negb (git_Valid (cache it)) then Returns (it, true)
  else
    match compare (mi_ascending it) (git_Key (parent it)) (git_Key (cache it)) with
    | Lt => Returns (it, true)
    | Eq =>
        if isZero (git_Value (cache it)) then
          match fuel with
          | O => Waits
          | S fuel =>
              p ← git_Next (parent it);
              c ← git_Next (cache it);
              skipUntilExistsOrInvalid fuel (set_cache (set_parent it p) c)
          end
        else Returns (it, true)
    | Gt =>
        if isZero (git_Value (cache it)) then
          match fuel with
          | O => Waits
          | S fuel =>
              it ← skipCacheDeletes fuel it (Some (git_Key (parent it)));
              skipUntilExistsOrInvalid fuel it
          end
        else Returns (it, true)
    end.

Definition NewCacheMergeIterator (fuel : nat) (p : P) (c : C) (asc : bool) : outcome cacheMergeIterator :=
  '(it, valid) ← skipUntilExistsOrInvalid fuel (MkMergeIterator p c asc false);
  Returns (set_merge_valid it valid).

Definition merge_Next (fuel : nat) (it : cacheMergeIterator) : outcome cacheMergeIterator :=
  if negb (mi_valid it) then Panics else
  it ← (if negb (git_Valid (parent it)) then c ← git_Next (cache it); Returns (set_cache it c)
        else if negb (git_Valid (cache it)) then p ← git_Next (parent it); Returns (set_parent it p)
        else match compare (mi_ascending it) (git_Key (parent it)) (git_Key (cache it)) with
        | Lt => p ← git_Next (parent it); Returns (set_parent it p)
        | Eq => p ← git_Next (parent it); c ← git_Next (cache it); Returns (set_cache (set_parent it p) c)
        | Gt => c ← git_Next (cache it); Returns (set_cache it c)
        end);
  '(it, valid) ← skipUntilExistsOrInvalid fuel it;
  Returns (set_merge_valid it valid).

(** [Key] and [Value] panic on an invalid iterator; these are their values on
    a valid one. *)
Definition merge_Key (it : cacheMergeIterator) : Bytes :=
  if negb (git_Valid (parent it)) then git_Key (cache it)
  else if negb (git_Valid (cache it)) then git_Key (parent it)
  else match compare (mi_ascending it) (git_Key (parent it)) (git_Key (cache it)) with
  | Gt => git_Key (cache it)
  | _ => git_Key (parent it)
  end.

Definition merge_Value (it : cacheMergeIterator) : V :=
  if negb (git_Valid (parent it)) then git_Value (cache it)
  else if negb (git_Valid (cache it)) then git_Value (parent it)
  else match compare (mi_ascending it) (git_Key (parent it)) (git_Key (cache it)) with
  | Lt => git_Value (parent it)
  | _ => git_Value (cache it)
  end.
End merge.
Arguments cacheMergeIterator : clear implicits.
Arguments MkMergeIterator {_ _} _ _ _ _.
Arguments parent {_ _} _.
Arguments cache {_ _} _.
Arguments mi_ascending {_ _} _.
Arguments mi_valid {_ _} _.

(** A merge iterator is an iterator; the fuel of its loops is part of it. *)
#[export] Instance merge_iterator {V P C : Type} `{!GIterator P V, !GIterator C V} (isZero : V → bool) (fuel : nat) :
    GIterator (cacheMergeIterator P C) V := {|
  git_Valid := mi_valid;
  git_Key := merge_Key;
  git_Value := merge_Value;
  git_Next := merge_Next isZero fuel;
|}.
#[local] Existing Instance merge_iterator | 10.

(** The iterator of a memory database, and the one over nothing. *)
#[export] Instance memdb_iterator {BT : BTreeLib} {V} `{!GoZero V} : GIterator (BTreeIteratorG (memdbItem V)) V := {|
  git_Valid := Valid;
  git_Key := Key;
  git_Value := mem_Value;
  git_Next it := deref (Next it);
|}.

Definition NewNoopIterator {BT : BTreeLib} {V} `{!GoZero V} (start_ end__ : option Bytes) (asc : bool) :
    BTreeIteratorG (memdbItem V) :=
  MkBTreeIteratorG (bt_Iter (NewGMemDB V)) start_ end__ asc false.

(** ** What a merge yields *)

Section merged.
Context {V : Type} (isZero : V → bool) (asc : bool).
Abbreviation pairs := (list (Bytes * V)).

Fixpoint merge_pairs (lp : pairs) : pairs → pairs :=
  match lp with
  | [] => λ lc, filter (λ kv, isZero kv.2 = false) lc
  | (kp, vp) :: lp' =>
      fix go lc :=
        match lc with
        | [] => lp
        | (kc, vc) :: lc' =>
            match compare asc kp kc with
            | Lt => (kp, vp) :: merge_pairs lp' lc
            | Eq => if isZero vc then merge_pairs lp' lc' else (kp, vc) :: merge_pairs lp' lc'
            | Gt => if isZero vc then go lc' else (kc, vc) :: go lc'
            end
        end
  end.

Lemma merge_pairs_nil_r lp : merge_pairs lp [] = lp.
Proof. by destruct lp as [|[k v] lp]. Qed.

Lemma merge_pairs_cons kp vp lp kc vc lc :
  merge_pairs ((kp, vp) :: lp) ((kc, vc) :: lc) =
    match compare asc kp kc with
    | Lt => (kp, vp) :: merge_pairs lp ((kc, vc) :: lc)
    | Eq => if isZero vc then merge_pairs lp lc else (kp, vc) :: merge_pairs lp lc
    | Gt => if isZero vc then merge_pairs ((kp, vp) :: lp) lc else (kc, vc) :: merge_pairs ((kp, vp) :: lp) lc
    end.
Proof. done. Qed.

(** No deletion is in front: the merge is at its next item. *)
Definition settled (lp lc : pairs) : Prop :=
  match lp, lc with
  | [], (_, vc) :: _ => isZero vc = false
  | (kp, _) :: _, (kc, vc) :: _ => compare asc kp kc = Lt ∨ isZero vc = false
  | _, [] => True
  end.
End merged.

(** [R it l]: the iterator stands before exactly the items [l]. *)
Record iteration {I V} `{!GIterator I V} (R : I → list (Bytes * V) → Prop) : Prop := {
  it_nil : ∀ it, R it [] → git_Valid it = false;
  it_cons : ∀ it k v l, R it ((k, v) :: l) →
    git_Valid it = true ∧ git_Key it = k ∧ git_Value it = v ∧ ∃ it', git_Next it = Returns it' ∧ R it' l;
}.

Section merge_facts.
Context {V P C : Type} `{!GIterator P V, !GIterator C V} (isZero : V → bool) (asc : bool).
Context (Rp : P → list (Bytes * V) → Prop) (Rc : C → list (Bytes * V) → Prop).
Context (HP : iteration Rp) (HC : iteration Rc).
Abbreviation pairs := (list (Bytes * V)).
Abbreviation merged := (merge_pairs isZero asc).

(** An invariant of the items to come, kept by the three moves of a merge. *)
Context (Inv : pairs → pairs → Prop).
Definition first_ahead (k : Bytes) (l : pairs) : Prop :=
  match l with [] => True | (k', _) :: _ => compare asc k k' = Lt end.
Record kept : Prop := {
  kept_cache : ∀ lp k v lc, Inv lp ((k, v) :: lc) → first_ahead k lp → Inv lp lc;
  kept_parent : ∀ k v lp lc, Inv ((k, v) :: lp) lc → first_ahead k lc → Inv lp lc;
  kept_both : ∀ k v v' lp lc, Inv ((k, v) :: lp) ((k, v') :: lc) → Inv lp lc;
}.
Context (HI : kept).

Lemma compare_swap a b : compare asc b a = CompOpp (compare asc a b).
Proof. unfold compare. rewrite (bytes_compare_antisym a b). by destruct asc. Qed.

Lemma compare_same a b : compare asc a b = Eq → a = b.
Proof. unfold compare. intros H. apply bytes_compare_eq. destruct asc; [done|]. by destruct (bytes_compare a b). Qed.

Lemma skipCacheDeletes_spec fuel (it : cacheMergeIterator P C) until lc :
  mi_ascending it = asc → Rc (cache it) lc → (length lc ≤ fuel)%nat →
  ∃ c' lc', skipCacheDeletes isZero fuel it until = Returns (set_cache it c') ∧ Rc c' lc' ∧
    (length lc' ≤ length lc)%nat ∧
    match until with
    | None => filter (λ kv, isZero kv.2 = false) lc' = filter (λ kv, isZero kv.2 = false) lc ∧
              settled isZero asc [] lc'
    | Some kp => ∀ vp lp, merged ((kp, vp) :: lp) lc' = merged ((kp, vp) :: lp) lc
    end ∧
    (lc' = lc ∨ (length lc' < length lc)%nat) ∧
    (∀ k v l, lc = (k, v) :: l → isZero v = true →
       match until with None => True | Some kp => compare asc k kp = Lt end → (length lc' < length lc)%nat) ∧
    (∀ lp, Inv lp lc → match until with None => lp = [] | Some kp => ∃ vp l, lp = (kp, vp) :: l end → Inv lp lc').
Proof.
  revert it lc. induction fuel as [|fuel IH]; intros it lc Ha Hc Hl;
    (destruct lc as [|[k v] lc];
      [cbn [skipCacheDeletes]; rewrite (it_nil _ HC _ Hc); cbn; exists (cache it), [];
       (split; [by destruct it|]); (split; [done|]); (split; [done|]); (split; [by destruct until|]); (split; [by left|]); by split|]).
  { cbn in Hl. lia. }
  cbn [skipCacheDeletes]. destruct (it_cons _ HC _ _ _ _ Hc) as (-> & -> & -> & c' & Hn & Hc'). cbn [andb].
  destruct (isZero v && _) eqn:E.
  - apply andb_prop in E as [Ez Eu]. rewrite Hn. cbn [mbind outcome_bind].
    destruct (IH (set_cache it c') lc) as (c2 & lc2 & E2 & Hc2 & Hl2 & Hm & _ & _ & Hi); [done|done|cbn in Hl; lia|].
    exists c2, lc2. split; [exact E2|]. split; [done|]. split; [cbn; lia|]. split; [|split; [right; cbn; lia|split; [intros; cbn; lia|]]];
      [|intros lp Hinv Hlp; apply Hi; [|done]; apply (kept_cache HI _ _ _ _ Hinv); rewrite Ha in Eu; destruct until as [kp|];
        [destruct Hlp as (vp & l & ->); cbn; by destruct (compare asc k kp)|by subst lp]].
    rewrite Ha in Eu. destruct until as [kp|].
    + intros vp lp. rewrite Hm, merge_pairs_cons. destruct (compare asc k kp) eqn:Ek; [done| |done].
      by rewrite compare_swap, Ek, Ez.
    + destruct Hm as [Hm Hs]. split; [|done]. rewrite Hm, filter_cons_False; [done|]. cbn. by rewrite Ez.
  - exists (cache it), ((k, v) :: lc). split; [by destruct it|]. split; [done|]. split; [done|].
    destruct (isZero v) eqn:Ez; cbn [andb] in E.
    + destruct until as [kp|]; [|done]. split; [done|]. split; [by left|]. split; [|done].
      intros k' v' l [= -> -> ->] _ Hlt. by rewrite Ha, Hlt in E.
    + split; [by destruct until|]. split; [by left|]. split; [|done]. intros k' v' l [= -> -> ->] ?; congruence.
Qed.

Lemma skipUntilExists_spec fuel (it : cacheMergeIterator P C) lp lc :
  mi_ascending it = asc → Rp (parent it) lp → Rc (cache it) lc → Inv lp lc → (length lp + length lc ≤ fuel)%nat →
  ∃ it' lp' lc', skipUntilExistsOrInvalid isZero fuel it =
      Returns (it', match merged lp lc with [] => false | _ => true end) ∧
    mi_ascending it' = asc ∧ Rp (parent it') lp' ∧ Rc (cache it') lc' ∧ Inv lp' lc' ∧ settled isZero asc lp' lc' ∧
    merged lp' lc' = merged lp lc ∧ (length lp' + length lc' ≤ length lp + length lc)%nat.
Proof.
  revert it lp lc. induction fuel as [|fuel IH]; intros it lp lc Ha Hp Hc Hi Hl.
  { destruct lp; [|cbn in Hl; lia]. destruct lc; [|cbn in Hl; lia].
    exists it, [], []. cbn [skipUntilExistsOrInvalid skipCacheDeletes]. rewrite (it_nil _ HP _ Hp), (it_nil _ HC _ Hc). cbn.
    by rewrite (it_nil _ HC _ Hc). }
  destruct lp as [|[kp vp] lp].
  { cbn [skipUntilExistsOrInvalid]. rewrite (it_nil _ HP _ Hp). cbn [negb].
    destruct (skipCacheDeletes_spec (S fuel) it None lc) as (c' & lc' & -> & Hc' & Hl' & [Hm Hs] & _ & _ & Hi'); [done|done|cbn in *; lia|].
    specialize (Hi' [] Hi eq_refl).
    cbn [mbind outcome_bind]. exists (set_cache it c'), [], lc'. cbn [merge_pairs]. rewrite <- Hm.
    split; [|by repeat split]. do 2 f_equal. destruct lc' as [|[k v] lc']; [by apply (it_nil _ HC)|].
    cbn in Hs. rewrite filter_cons_True by done. by destruct (it_cons _ HC _ _ _ _ Hc'). }
  destruct (it_cons _ HP _ _ _ _ Hp) as (Hvp & Hkp & _ & p' & Hnp & Hp').
  cbn [skipUntilExistsOrInvalid]. rewrite Hvp. cbn [negb].
  destruct lc as [|[kc vc] lc].
  { rewrite (it_nil _ HC _ Hc). exists it, ((kp, vp) :: lp), []. by rewrite merge_pairs_nil_r. }
  destruct (it_cons _ HC _ _ _ _ Hc) as (Hvc & Hkc & Hxc & c' & Hnc & Hc').
  rewrite Hvc, Hkp, Hkc, Hxc, Ha. cbn [negb]. cbn [length] in Hl.
  assert (∀ b, (compare asc kp kc = Lt ∨ isZero vc = false) →
    match merged ((kp, vp) :: lp) ((kc, vc) :: lc) with [] => false | _ => true end = b →
    ∃ it' lp' lc', Returns (it, true) = Returns (it', b) ∧
      mi_ascending it' = asc ∧ Rp (parent it') lp' ∧ Rc (cache it') lc' ∧ Inv lp' lc' ∧ settled isZero asc lp' lc' ∧
      merged lp' lc' = merged ((kp, vp) :: lp) ((kc, vc) :: lc) ∧ (length lp' + length lc' ≤ S (length lp) + S (length lc))%nat) as Hstop.
  { intros b Hs Hb. exists it, ((kp, vp) :: lp), ((kc, vc) :: lc). split; [|done]. do 2 f_equal. rewrite <- Hb, merge_pairs_cons.
    destruct Hs as [->| ->]; [done|]. by destruct (compare asc kp kc). }
  destruct (compare asc kp kc) eqn:Ek.
  - destruct (isZero vc) eqn:Ez; [|apply Hstop; [by right|done]].
    rewrite Hnp, Hnc. cbn [mbind outcome_bind].
    apply compare_same in Ek as ->.
    destruct (IH (set_cache (set_parent it p') c') lp lc) as (it' & lp' & lc' & -> & Ha' & Hp1 & Hc1 & Hi1 & Hs1 & Hm1 & Hl1);
      [done..|by eapply (kept_both HI)|lia|].
    assert (compare asc kc kc = Eq) as Ek by (unfold compare; rewrite bytes_compare_refl; by destruct asc).
    exists it', lp', lc'. rewrite merge_pairs_cons, Ek, Ez. cbn [length]. split; [done|]. repeat split; [done..|lia].
  - apply Hstop; [by left|done].
  - destruct (isZero vc) eqn:Ez; [|apply Hstop; [by right|done]].
    destruct (skipCacheDeletes_spec fuel it (Some kp) ((kc, vc) :: lc)) as (c2 & lc2 & E2 & Hc2 & Hl2 & Hm2 & _ & Hlt2 & Hi2);
      [done|done|cbn [length]; lia|].
    rewrite E2. cbn [mbind outcome_bind].
    assert (compare asc kc kp = Lt) as Ek' by (by rewrite compare_swap, Ek).
    specialize (Hi2 _ Hi ltac:(by do 2 eexists)).
    specialize (Hlt2 kc vc lc eq_refl Ez Ek'). cbn [length] in Hlt2, Hl2.
    destruct (IH (set_cache it c2) ((kp, vp) :: lp) lc2) as (it' & lp' & lc' & -> & Ha' & Hp1 & Hc1 & Hi1 & Hs1 & Hm1 & Hl1);
      [done..|cbn [length]; lia|].
    exists it', lp', lc'. rewrite Hm1, Hm2. split; [done|]. cbn [length] in *. repeat split; [done..|lia].
Qed.

(** The merge iterator before the items [l], with its two iterators where they
    must be. *)
Definition merge_stands (fuel : nat) (it : cacheMergeIterator P C) (l : pairs) : Prop :=
  ∃ lp lc, mi_ascending it = asc ∧ Rp (parent it) lp ∧ Rc (cache it) lc ∧ Inv lp lc ∧ settled isZero asc lp lc ∧
    l = merged lp lc ∧ mi_valid it = (match l with [] => false | _ => true end) ∧ (length lp + length lc ≤ fuel)%nat.

Lemma merge_settle fuel (it : cacheMergeIterator P C) lp lc :
  mi_ascending it = asc → Rp (parent it) lp → Rc (cache it) lc → Inv lp lc → (length lp + length lc ≤ fuel)%nat →
  ∃ it', ('(it, valid) ← skipUntilExistsOrInvalid isZero fuel it; Returns (set_merge_valid it valid)) = Returns it' ∧
    merge_stands fuel it' (merged lp lc).
Proof.
  intros Ha Hp Hc Hi Hl.
  destruct (skipUntilExists_spec fuel it lp lc Ha Hp Hc Hi Hl) as (it' & lp' & lc' & -> & Ha' & Hp' & Hc' & Hi' & Hs' & Hm & Hl').
  cbn [mbind outcome_bind]. eexists. split; [done|]. exists lp', lc'. cbn. repeat split; [done..|lia].
Qed.

Lemma NewCacheMergeIterator_stands fuel p c lp lc :
  Rp p lp → Rc c lc → Inv lp lc → (length lp + length lc ≤ fuel)%nat →
  ∃ it, NewCacheMergeIterator isZero fuel p c asc = Returns it ∧ merge_stands fuel it (merged lp lc).
Proof. intros Hp Hc Hi Hl. by apply (merge_settle fuel (MkMergeIterator p c asc false)). Qed.

(** Merging iterators gives an iterator. *)
Lemma merge_iteration fuel : iteration (GIterator0 := merge_iterator isZero fuel) (merge_stands fuel).
Proof.
  split.
  - intros it (lp & lc & _ & _ & _ & _ & _ & _ & Hv & _). exact Hv.
  - intros it k v l (lp & lc & Ha & Hp & Hc & Hi & Hs & Hm & Hv & Hl). split; [exact Hv|]. cbn [git_Key git_Value git_Next merge_iterator].
    unfold merge_Key, merge_Value, merge_Next. rewrite Hv, Ha. cbn [negb].
    destruct lp as [|[kp vp] lp].
    { rewrite (it_nil _ HP _ Hp). cbn [negb]. destruct lc as [|[kc vc] lc]; [done|]. cbn [merge_pairs] in Hm. cbn in Hs.
      rewrite filter_cons_True in Hm by done. injection Hm as -> -> ->.
      destruct (it_cons _ HC _ _ _ _ Hc) as (_ & -> & -> & c' & -> & Hc'). split; [done|]. split; [done|].
      cbn [mbind outcome_bind]. apply (merge_settle fuel (set_cache it c') []); [done..|by eapply (kept_cache HI)|cbn in *; lia]. }
    destruct (it_cons _ HP _ _ _ _ Hp) as (Hvp & Hkp & Hxp & p' & Hnp & Hp'). rewrite Hvp. cbn [negb].
    destruct lc as [|[kc vc] lc].
    { rewrite (it_nil _ HC _ Hc). cbn [negb]. rewrite merge_pairs_nil_r in Hm. injection Hm as -> -> ->.
      split; [done|]. split; [done|]. rewrite Hnp. cbn [mbind outcome_bind].
      rewrite <- (merge_pairs_nil_r isZero asc lp). apply (merge_settle fuel (set_parent it p')); [done..|by eapply (kept_parent HI)|cbn in *; lia]. }
    destruct (it_cons _ HC _ _ _ _ Hc) as (Hvc & Hkc & Hxc & c' & Hnc & Hc').
    rewrite Hvc, Hkp, Hkc, Hxp, Hxc, Hnp, Hnc. cbn [negb]. rewrite merge_pairs_cons in Hm. cbn [length] in Hl. cbn in Hs.
    destruct (compare asc kp kc) eqn:Ek.
    + destruct Hs as [?|Hz]; [done|]. rewrite Hz in Hm. injection Hm as -> -> ->. split; [done|]. split; [done|].
      cbn [mbind outcome_bind]. apply (merge_settle fuel (set_cache (set_parent it p') c')); [done..| |lia]. apply compare_same in Ek as ->. by eapply (kept_both HI).
    + injection Hm as -> -> ->. split; [done|]. split; [done|]. cbn [mbind outcome_bind].
      apply (merge_settle fuel (set_parent it p') lp ((kc, vc) :: lc)); [done..|by eapply (kept_parent HI)|cbn [length]; lia].
    + destruct Hs as [?|Hz]; [done|]. rewrite Hz in Hm. injection Hm as -> -> ->. split; [done|]. split; [done|].
      cbn [mbind outcome_bind]. apply (merge_settle fuel (set_cache it c') ((kp, vp) :: lp) lc); [done..| |cbn [length]; lia].
      eapply (kept_cache HI); [exact Hi|]. cbn. by rewrite compare_swap, Ek.
Qed.
End merge_facts.

(** ** The merge of sorted items *)

Definition ahead (asc : bool) (a b : Bytes) : Prop := compare asc a b = Lt.
Definition sorted_pairs {V} (asc : bool) (l : list (Bytes * V)) : Prop :=
  StronglySorted (λ x y, ahead asc x.1 y.1) l.

Lemma ahead_lt asc a b : ahead asc a b ↔ if asc then bytes_lt a b else bytes_lt b a.
Proof.
  unfold ahead, compare. destruct asc; [done|]. unfold bytes_lt. rewrite (bytes_compare_antisym a).
  by destruct (bytes_compare a b).
Qed.

Lemma compare_eq asc a b : compare asc a b = Eq ↔ a = b.
Proof.
  unfold compare. rewrite <- bytes_compare_eq. destruct asc; [done|]. by destruct (bytes_compare a b).
Qed.

Lemma compare_gt asc a b : compare asc a b = Gt ↔ ahead asc b a.
Proof.
  unfold ahead, compare. rewrite (bytes_compare_antisym a). destruct asc; by destruct (bytes_compare a b).
Qed.

#[export] Instance ahead_strict asc : StrictOrder (ahead asc).
Proof.
  split.
  - intros a H. apply ahead_lt in H. destruct asc; by apply bytes_lt_irrefl in H.
  - intros a b c. rewrite !ahead_lt. destruct asc; [apply bytes_lt_trans|]. intros H1 H2. by eapply bytes_lt_trans.
Qed.

Section sorted_merge.
Context {V : Type} (isZero : V → bool) (asc : bool).
Implicit Types (lp lc : list (Bytes * V)).
Abbreviation merged := (merge_pairs isZero asc).

Lemma sorted_pairs_cons k v (l : list (Bytes * V)) :
  sorted_pairs asc ((k, v) :: l) ↔ sorted_pairs asc l ∧ ∀ x, x ∈ l → ahead asc k x.1.
Proof.
  unfold sorted_pairs. split.
  - intros [H1 H2]%StronglySorted_cons_inv. done.
  - intros [H1 H2]. constructor; [done|]. by apply Forall_forall.
Qed.

(** A key ahead of all of a list is not one of its keys. *)
Lemma ahead_fresh k (l : list (Bytes * V)) : (∀ x, x ∈ l → ahead asc k x.1) → k ∉ l.*1.
Proof. intros H ([k' v] & -> & Hin)%list_elem_of_fmap. apply H in Hin. by apply (irreflexivity (ahead asc)) in Hin. Qed.

Lemma fst_elem k v (l : list (Bytes * V)) : (k, v) ∈ l → k ∈ l.*1.
Proof. intros H. apply list_elem_of_fmap. by exists (k, v). Qed.

Lemma ahead_cons_fresh k kc vc lc : ahead asc k kc → sorted_pairs asc ((kc, vc) :: lc) → k ∉ ((kc, vc) :: lc).*1.
Proof.
  intros Hk [_ H]%sorted_pairs_cons. apply ahead_fresh. intros x [->|Hx]%elem_of_cons; [done|].
  etrans; [exact Hk|by apply H].
Qed.

Lemma merged_elem lp lc k v :
  sorted_pairs asc lp → sorted_pairs asc lc →
  (k, v) ∈ merged lp lc ↔ (k, v) ∈ lc ∧ isZero v = false ∨ (k, v) ∈ lp ∧ k ∉ lc.*1.
Proof.
  revert lc. induction lp as [|[kp vp] lp IHp]; intros lc Hp Hc.
  { cbn [merge_pairs]. rewrite list_elem_of_filter. cbn. split; [naive_solver|].
    intros [?|[?%elem_of_nil _]]; naive_solver. }
  pose proof Hp as [Hp' Hpa]%sorted_pairs_cons.
  induction lc as [|[kc vc] lc IHc].
  { rewrite merge_pairs_nil_r. split; [intros H; right; split; [done|by intros ?%elem_of_nil]|].
    intros [[?%elem_of_nil _]|[? _]]; done. }
  pose proof Hc as [Hc' Hca]%sorted_pairs_cons. specialize (IHc Hc').
  rewrite merge_pairs_cons. destruct (compare asc kp kc) eqn:Ek.
  - apply compare_eq in Ek as ->. pose proof (ahead_fresh kc lp Hpa) as Hfp. pose proof (ahead_fresh kc lc Hca) as Hfc.
    assert ((k, v) ∈ (if isZero vc then merged lp lc else (kc, vc) :: merged lp lc) ↔
            (k, v) = (kc, vc) ∧ isZero v = false ∨ (k, v) ∈ merged lp lc) as ->.
    { destruct (isZero vc) eqn:Ez; [|rewrite elem_of_cons]; naive_solver congruence. }
    rewrite (IHp lc Hp' Hc'). cbn [fmap list_fmap fst]. rewrite !elem_of_cons.
    split; [|naive_solver congruence].
    intros [[[= -> ->] Hz]|[[Hin Hz]|[Hin Hn]]]; [by left; split; [left|]|by left; split; [right|]|].
    right. split; [by right|]. intros [->|?]; [|done]. apply Hfp. by eapply fst_elem.
  - pose proof (ahead_cons_fresh kp kc vc lc Ek Hc) as Hf.
    rewrite elem_of_cons, (IHp _ Hp' Hc), (elem_of_cons lp). split.
    + intros [[= -> ->]|[?|[? ?]]]; [right; split; [by left|done]|by left|right; split; [by right|done]].
    + intros [?|[[[= -> ->]|?] ?]]; [by right; left|by left|by right; right].
  - apply compare_gt in Ek. pose proof (ahead_cons_fresh kc kp vp lp Ek Hp) as Hf.
    assert ((k, v) ∈ (if isZero vc then merged ((kp, vp) :: lp) lc else (kc, vc) :: merged ((kp, vp) :: lp) lc) ↔
            (k, v) = (kc, vc) ∧ isZero v = false ∨ (k, v) ∈ merged ((kp, vp) :: lp) lc) as ->.
    { destruct (isZero vc) eqn:Ez; [|rewrite elem_of_cons]; naive_solver congruence. }
    rewrite IHc, (elem_of_cons lc). cbn [fmap list_fmap fst]. rewrite not_elem_of_cons. split; [|naive_solver].
    intros [[E Hz]|[[Hin Hz]|[Hin Hn]]]; [by left; split; [left|]|by left; split; [right|]|].
    right. split; [done|]. split; [|done]. intros ->. apply Hf. by eapply fst_elem.
Qed.

Lemma filter_sorted (p : Bytes * V → Prop) `{!∀ x, Decision (p x)} lc :
  sorted_pairs asc lc → sorted_pairs asc (filter p lc).
Proof.
  induction lc as [|[k v] lc IH]; intros Hs; [done|]. apply sorted_pairs_cons in Hs as [Hs Ha].
  rewrite filter_cons. case_decide; [|by apply IH]. apply sorted_pairs_cons. split; [by apply IH|].
  intros x [_ Hx]%list_elem_of_filter. by apply Ha.
Qed.

Lemma merged_sorted lp lc : sorted_pairs asc lp → sorted_pairs asc lc → sorted_pairs asc (merged lp lc).
Proof.
  revert lc. induction lp as [|[kp vp] lp IHp]; intros lc Hp Hc.
  { cbn [merge_pairs]. by apply filter_sorted. }
  pose proof Hp as [Hp' Hpa]%sorted_pairs_cons.
  induction lc as [|[kc vc] lc IHc]; [by rewrite merge_pairs_nil_r|].
  pose proof Hc as [Hc' Hca]%sorted_pairs_cons. specialize (IHc Hc').
  rewrite merge_pairs_cons. destruct (compare asc kp kc) eqn:Ek.
  - apply compare_eq in Ek as ->. destruct (isZero vc); [by apply IHp|]. apply sorted_pairs_cons. split; [by apply IHp|].
    intros [k v] [[Hin _]|[Hin _]]%merged_elem; [by apply Hca|by apply Hpa|done|done].
  - apply sorted_pairs_cons. split; [by apply IHp|].
    intros [k v] [[Hin _]|[Hin _]]%merged_elem; [|by apply Hpa|done|done].
    apply elem_of_cons in Hin as [[= -> ->]|Hin]; [done|]. etrans; [exact Ek|by apply Hca].
  - apply compare_gt in Ek. destruct (isZero vc); [done|]. apply sorted_pairs_cons. split; [done|].
    intros [k v] [[Hin _]|[Hin _]]%merged_elem; [by apply Hca| |done|done].
    apply elem_of_cons in Hin as [[= -> ->]|Hin]; [done|]. etrans; [exact Ek|by apply Hpa].
Qed.
End sorted_merge.

(** *** What has been passed *)

(** Of two sorted lists, the items passed on one side are ahead of those to
    come on the other. *)
Section crossed.
Context {V : Type} (asc : bool) (Lp Lc : list (Bytes * V)).
Context (HLp : sorted_pairs asc Lp) (HLc : sorted_pairs asc Lc).
Implicit Types (l : list (Bytes * V)).

Definition all_ahead (l1 l2 : list (Bytes * V)) : Prop := ∀ x y, x ∈ l1 → y ∈ l2 → ahead asc x.1 y.1.

Definition crossed (lp lc : list (Bytes * V)) : Prop :=
  ∃ dp dc, Lp = dp ++ lp ∧ Lc = dc ++ lc ∧ all_ahead dc lp ∧ all_ahead dp lc.

Lemma sorted_pairs_app (l1 l2 : list (Bytes * V)) :
  sorted_pairs asc (l1 ++ l2) → sorted_pairs asc l2 ∧ all_ahead l1 l2.
Proof.
  induction l1 as [|[k v] l1 IH]; cbn [app]; [intros H; split; [done|by intros x y ?%elem_of_nil]|].
  intros [Hs Ha]%sorted_pairs_cons. destruct (IH Hs) as [H2 H12]. split; [done|].
  intros x y [->|Hx]%elem_of_cons Hy; [|by apply H12]. apply (Ha y). apply elem_of_app. by right.
Qed.

Lemma first_ahead_all k l : sorted_pairs asc l → first_ahead asc k l → ∀ y, y ∈ l → ahead asc k y.1.
Proof.
  destruct l as [|[k' v] l]; [by intros _ _ y ?%elem_of_nil|]. intros [_ Ha]%sorted_pairs_cons Hk y [->|Hy]%elem_of_cons; [done|].
  etrans; [exact Hk|by apply Ha].
Qed.

Lemma all_ahead_snoc (l1 l2 : list (Bytes * V)) k v :
  all_ahead l1 l2 → (∀ y, y ∈ l2 → ahead asc k y.1) → all_ahead (l1 ++ [(k, v)]) l2.
Proof. intros H Hk x y [Hx| ->%list_elem_of_singleton]%elem_of_app Hy; [by apply H|by apply Hk]. Qed.

Lemma all_ahead_tail (l1 l2 : list (Bytes * V)) y : all_ahead l1 (y :: l2) → all_ahead l1 l2.
Proof. intros H a b Ha Hb. apply H; [done|]. by right. Qed.

Lemma crossed_kept : kept asc crossed.
Proof.
  split.
  - intros lp k v lc (dp & dc & E1 & E2 & H1 & H2) Hf. exists dp, (dc ++ [(k, v)]).
    split; [done|]. split; [by rewrite <- app_assoc|]. split; [|by eapply all_ahead_tail].
    apply all_ahead_snoc; [done|]. apply first_ahead_all; [|done]. rewrite E1 in HLp. exact (proj1 (sorted_pairs_app _ _ HLp)).
  - intros k v lp lc (dp & dc & E1 & E2 & H1 & H2) Hf. exists (dp ++ [(k, v)]), dc.
    split; [by rewrite <- app_assoc|]. split; [done|]. split; [by eapply all_ahead_tail|].
    apply all_ahead_snoc; [done|]. apply first_ahead_all; [|done]. rewrite E2 in HLc. exact (proj1 (sorted_pairs_app _ _ HLc)).
  - intros k v v' lp lc (dp & dc & E1 & E2 & H1 & H2). exists (dp ++ [(k, v)]), (dc ++ [(k, v')]).
    split; [by rewrite <- app_assoc|]. split; [by rewrite <- app_assoc|].
    rewrite E1 in HLp. rewrite E2 in HLc. apply sorted_pairs_app in HLp as [Hp _], HLc as [Hc _].
    apply sorted_pairs_cons in Hp as [_ Hp], Hc as [_ Hc].
    split; (apply all_ahead_snoc; [by eapply all_ahead_tail|done]).
Qed.

Lemma crossed_start : crossed Lp Lc.
Proof. exists [], []. split; [done|]. split; [done|]. split; by intros x y ?%elem_of_nil. Qed.
End crossed.

(** In front of a settled merge stands the least key of both sides. *)
Lemma merged_head {V} (isZero : V → bool) asc (lp lc : list (Bytes * V)) x y :
  sorted_pairs asc lp → sorted_pairs asc lc → settled isZero asc lp lc → x ∈ lp ++ lc →
  head (merge_pairs isZero asc lp lc) = Some y → y.1 = x.1 ∨ ahead asc y.1 x.1.
Proof.
  intros Hp Hc Hs Hx. destruct lp as [|[kp vp] lp].
  { destruct lc as [|[kc vc] lc]; [by apply elem_of_nil in Hx|]. cbn [settled merge_pairs] in *.
    rewrite filter_cons_True by done. intros [= <-]. apply sorted_pairs_cons in Hc as [_ Hc].
    apply elem_of_cons in Hx as [->|Hx]; [by left|right; by apply Hc]. }
  apply sorted_pairs_cons in Hp as [_ Hp]. destruct lc as [|[kc vc] lc].
  { rewrite merge_pairs_nil_r, app_nil_r in *. intros [= <-].
    apply elem_of_cons in Hx as [->|Hx]; [by left|right; by apply Hp]. }
  apply sorted_pairs_cons in Hc as [_ Hc]. rewrite merge_pairs_cons. cbn [settled] in Hs. intros Hy.
  assert ((y.1 = kp ∨ ahead asc y.1 kp) ∧ (y.1 = kc ∨ ahead asc y.1 kc)) as [Hyp Hyc].
  { destruct (compare asc kp kc) eqn:Ek.
    - apply compare_eq in Ek as ->. destruct Hs as [?|Hz]; [done|]. rewrite Hz in Hy. injection Hy as <-. auto.
    - injection Hy as <-. auto.
    - apply compare_gt in Ek. destruct Hs as [?|Hz]; [done|]. rewrite Hz in Hy. injection Hy as <-. auto. }
  assert (∀ a b c : Bytes, (a = b ∨ ahead asc a b) → ahead asc b c → ahead asc a c) as Htr.
  { intros a b c [->|H1] H2; [done|by etrans]. }
  cbn [app] in Hx. apply elem_of_cons in Hx as [->|[Hx|[->|Hx]%elem_of_cons]%elem_of_app]; [done| |done| ].
  - right. eapply Htr; [exact Hyp|by apply Hp].
  - right. eapply Htr; [exact Hyc|by apply Hc].
Qed.

(** A merge with an item to come has one in front. *)
Lemma merged_nil {V} (isZero : V → bool) asc (lp lc : list (Bytes * V)) :
  settled isZero asc lp lc → merge_pairs isZero asc lp lc = [] → lp = [] ∧ lc = [].
Proof.
  destruct lp as [|[kp vp] lp].
  { destruct lc as [|[kc vc] lc]; [done|]. cbn [settled merge_pairs]. intros Hs. by rewrite filter_cons_True. }
  destruct lc as [|[kc vc] lc]; [done|]. rewrite merge_pairs_cons. cbn [settled].
  destruct (compare asc kp kc); [|done|]; by intros [H|H]; rewrite ?H.
Qed.
