(* ===== verification/ViewIterator.v ===== *)
(** * mvview.go: iterating over what a transaction sees

    A view's iterator merges the base storage with the multi-version data and
    that with the transaction's own writes.  Closing it records what it read:
    the entries of the multi-version data it met, up to the last key shown to
    the caller. *)

From Stdlib Require Import ZArith Lia.
From S2P Require Import Prelude Utils BTree BTreeIterator Types MemDB MVData MVDataFacts MVValidate MVProps MVView MergeIterator.
Local Open Scope Z_scope.

Abbreviation world V := (gmap loc (BTree (secondaryDataItem V) secondaryLesser)).

(** [storage.Iterator] and [storage.ReverseIterator] *)
Class GStoreIterator (S I : Type) := store_iterator : S → IteratorOptions → I.

Section view_iterator.
Context {BT : BTreeLib} {V : Type} `{!GoZero V} (isZero : V → bool).
Context {Store SI : Type} `{!KVStore Store V, !GIterator SI V, !GStoreIterator Store SI}.

(** [waitFor]: what the other transactions have made of the inner trees when a
    wait is over; [fuel] bounds the loops of the iterators. *)
Context (waitFor : Z → world V → world V) (fuel : nat).

(** The multi-version iterator with the inner trees it reads. *)
Record mvIter := MkMvIter { mvi_world : world V; mvi_it : MVIterator V }.

#[export] Instance mv_iterator : GIterator mvIter V := {|
  git_Valid mi := Valid (base (mvi_it mi));
  git_Key mi := Key (base (mvi_it mi));
  git_Value mi := mv_value (mvi_it mi);
  git_Next mi := '(w, it) ← MVNext (Some waitFor) fuel (mvi_world mi) (mvi_it mi); Returns (MkMvIter w it);
|}.

#[local] Instance inner_iterator : GIterator (cacheMergeIterator SI mvIter) V := merge_iterator isZero fuel.

Abbreviation viewIter := (cacheMergeIterator (cacheMergeIterator SI mvIter) (BTreeIteratorG (memdbItem V))).

Definition view_iterator (s : GMVMemoryView V Store) (m : GMVData V) (opts : IteratorOptions) : outcome viewIter :=
  '(w, it) ← NewMVIterator (Some waitFor) fuel opts (v_txn s) (Iter (outer m)) (inner m);
  let wsIter := match v_writeSet s with
                | None => NewNoopIterator (opt_Start opts) (opt_End opts) (opt_Ascending opts)
                | Some ws => mem_iterator ws (opt_Start opts) (opt_End opts) (opt_Ascending opts)
                end in
  let parentIter := store_iterator (v_storage s) opts in
  merged ← NewCacheMergeIterator isZero fuel parentIter (MkMvIter w it) (opt_Ascending opts);
  NewCacheMergeIterator isZero fuel merged wsIter (opt_Ascending opts).

Definition view_Next (it : viewIter) : outcome viewIter := merge_Next isZero fuel it.

(** The reads that are recorded: the merge may have read one more key, not
    observed by the caller, which is removed. *)
Definition observed_reads (reads : list ReadDescriptor) (stopKey : option Bytes) (asc : bool) : list ReadDescriptor :=
  match stopKey, last reads with
  | Some stopKey, Some lastRead =>
      if BytesBeyond (rd_Key lastRead) stopKey asc then take (length reads - 1) reads else reads
  | _, _ => reads
  end.

(** [Close]: the callback [onClose] of the outer merge. *)
Definition view_Close (s : GMVMemoryView V Store) (opts : IteratorOptions) (it : viewIter) : GMVMemoryView V Store :=
  let reads := mv_reads (mvi_it (cache (parent it))) in
  let stopKey := if mi_valid it then Some (merge_Key it) else None in
  let desc := MkIteratorDescriptor opts stopKey (observed_reads reads stopKey (opt_Ascending opts)) in
  MkView (v_storage s) (v_store s) (v_txn s)
    (MkReadSet (rs_Reads (v_readSet s)) (rs_Iterators (v_readSet s) ++ [desc])) (v_writeSet s).

(** A caller that takes up to [n] items, and closes. *)
Fixpoint view_take (n : nat) (it : viewIter) : outcome (viewIter * list (Bytes * V)) :=
  match n with
  | O => Returns (it, [])
  | S n =>
      if mi_valid it then
        let item := (merge_Key it, merge_Value it) in
        it ← view_Next it;
        '(it, items) ← view_take n it;
        Returns (it, item :: items)
      else Returns (it, [])
  end.

Definition view_iterate (n : nat) (s : GMVMemoryView V Store) (m : GMVData V) (opts : IteratorOptions) :
    outcome (GMVMemoryView V Store * list (Bytes * V)) :=
  it ← view_iterator s m opts;
  '(it, items) ← view_take n it;
  Returns (view_Close s opts it, items).
End view_iterator.
Arguments mvIter {_} _.

(** ** The multi-version iterator on a memory at rest *)

Section mv_iteration.
Context {BT : BTreeLib} {BL : BTreeLaws} {V : Type} `{!GoZero V}.
Context (waitFor : Z → world V → world V) (fuel : nat) (w : world V) (txn : Z).
Abbreviation sec := (secondaryDataItem V).

(** The entries the transaction sees among some keys. *)
Definition seen (items : list dataItem) : list (Bytes * sec) :=
  omap (λ x, (λ e, (d_Key x, e)) <$> closest (tree_entries w (d_Tree x)) txn) items.

Definition read_of (x : Bytes * sec) : ReadDescriptor := MkRead x.1 (secondary_Version x.2).
Definition value_of (x : Bytes * sec) : Bytes * V := (x.1, s_Value x.2).

Lemma seen_to_visible items :
  seen items = match to_visible w txn items with
               | None => []
               | Some (x, e, rest) => (d_Key x, e) :: seen rest
               end.
Proof.
  induction items as [|x items IH]; cbn [to_visible]; [done|]. unfold seen in *. cbn [omap list_omap].
  destruct (closest _ _); cbn; [done|exact IH].
Qed.

Definition at_rest (items : list dataItem) : Prop :=
  allocated w items ∧ (length items < fuel)%nat ∧ ∀ x, x ∈ seen items → s_Estimate x.2 = false.

Lemma seen_cons x items : ∃ l, seen (x :: items) = l ++ seen items.
Proof. unfold seen. cbn [omap list_omap]. destruct (_ <$> _); [by eexists [_]|by exists []]. Qed.

Lemma at_rest_tail x items : at_rest (x :: items) → at_rest items.
Proof.
  intros (Ha & Hf & He). split; [intros y Hy; apply Ha; by right|]. split; [cbn in Hf; lia|].
  intros y Hy. apply He. destruct (seen_cons x items) as [l ->]. apply elem_of_app. by right.
Qed.

Lemma to_visible_at_rest items x e rest :
  to_visible w txn items = Some (x, e, rest) → at_rest items → at_rest rest ∧ s_Estimate e = false.
Proof.
  intros E (Ha & Hf & He). pose proof (to_visible_length _ _ _ _ _ _ E).
  pose proof (to_visible_allocated _ _ _ _ _ _ E Ha). rewrite seen_to_visible, E in He.
  split; [|apply (He (d_Key x, e)); by left]. split; [done|]. split; [lia|]. intros y Hy. apply He. by right.
Qed.

(** What [resolveValue] leaves. *)
Definition resolved_at (items : list dataItem) (reads : list ReadDescriptor) (it : MVIterator V) : Prop :=
  mv_txn it = txn ∧
  match to_visible w txn items with
  | None => Valid (base it) = false ∧ mv_reads it = reads
  | Some (x, e, rest) =>
      iterates (base it) (x :: rest) ∧ mv_value it = s_Value e ∧ mv_reads it = reads ++ [read_of (d_Key x, e)]
  end.

Lemma resolveValue_rest n items it :
  iterates (base it) items → at_rest items → (length items < n)%nat → mv_txn it = txn →
  ∃ it', resolveValue (Some waitFor) n w it = Returns (w, it') ∧ resolved_at items (mv_reads it) it'.
Proof.
  revert items it; induction n as [|n IH]; intros items it Hit Hr Hf Ht; [lia|].
  inversion Hit as [b Hv Hb Hi|b b' rest Hv Hn Hrest Hb Hi]; subst; cbn [resolveValue]; rewrite Hv.
  - exists it. by repeat split.
  - pose proof Hr as (Hal & _ & He). destruct (Hal (Item (base it)) ltac:(by left)) as (l & t & El & Hl).
    unfold resolved_at. cbn [to_visible]. cbn [resolveValueInner]. rewrite El. cbn [deref mbind outcome_bind]. rewrite Hl.
    cbn [deref mbind outcome_bind]. rewrite seekClosestTxn_closest.
    assert (tree_entries w (Some l) = Scan t) as -> by (unfold tree_entries; cbn; by rewrite Hl).
    rewrite Ht. destruct (closest (Scan t) txn) as [e|] eqn:E.
    + assert (s_Estimate e = false) as ->.
      { apply (He (d_Key (Item (base it)), e)). unfold seen. cbn [omap list_omap]. rewrite El. unfold tree_entries.
        cbn. rewrite Hl. cbn. rewrite E. by left. }
      cbn. eexists. split; [done|]. by repeat split.
    + rewrite Hn. cbn. destruct (IH rest (set_base it b')) as (it' & -> & Hr'); [done|by eapply at_rest_tail|cbn in Hf; lia|done|].
      exists it'. split; [done|]. exact Hr'.
Qed.

(** The iterator over the seen entries [L], before [l]: it has read those it
    passed and the one it stands on. *)
Definition mv_stands (L : list (Bytes * sec)) (mi : mvIter V) (l : list (Bytes * V)) : Prop :=
  ∃ passed rest, L = passed ++ rest ∧ l = value_of <$> rest ∧
    mvi_world mi = w ∧ mv_txn (mvi_it mi) = txn ∧
    mv_reads (mvi_it mi) = read_of <$> (passed ++ take 1 rest) ∧
    match rest with
    | [] => Valid (base (mvi_it mi)) = false
    | (k, e) :: rest' => ∃ x items, iterates (base (mvi_it mi)) (x :: items) ∧ d_Key x = k ∧
        mv_value (mvi_it mi) = s_Value e ∧ seen items = rest' ∧ at_rest items
    end.

Lemma resolved_stands items passed it :
  at_rest items → resolved_at items (read_of <$> passed) it →
  mv_stands (passed ++ seen items) (MkMvIter w it) (value_of <$> seen items).
Proof.
  intros Hr [Ht H]. exists passed, (seen items). split; [done|]. split; [done|]. cbn [mvi_world mvi_it].
  split; [done|]. split; [done|]. rewrite seen_to_visible. destruct (to_visible w txn items) as [[[x e] rest]|] eqn:E.
  - destruct H as (Hi & Hv & Hrd). destruct (to_visible_at_rest _ _ _ _ E Hr) as [Hr' _].
    split; [by rewrite Hrd, fmap_app|]. by exists x, rest.
  - destruct H as [Hv Hrd]. cbn [take]. by rewrite app_nil_r.
Qed.

#[local] Existing Instance mv_iterator.

Lemma mv_iteration L : iteration (GIterator0 := mv_iterator waitFor fuel) (mv_stands L).
Proof.
  split.
  - intros mi (passed & rest & _ & E & _ & _ & _ & H). symmetry in E. apply fmap_nil_inv in E as ->. exact H.
  - intros mi k v l (passed & rest & -> & E & Hw & Ht & Hrd & H).
    symmetry in E. apply fmap_cons_inv in E as ([k' e] & rest' & [= -> ->] & -> & ->).
    destruct H as (x & items & Hi & Hk & Hv & <- & Hr). apply iterates_cons_inv in Hi as (HV & HI & b' & Hn & Hi).
    cbn [git_Valid git_Key git_Value git_Next mv_iterator]. split; [exact HV|]. split; [unfold Key; by rewrite HI|]. split; [exact Hv|].
    unfold MVNext. rewrite Hn, Hw. cbn [deref mbind outcome_bind].
    pose proof Hr as (_ & Hf & _).
    destruct (resolveValue_rest fuel items (set_base (mvi_it mi) b')) as (it' & -> & Hres); [done..|].
    cbn [mbind outcome_bind]. eexists. split; [reflexivity|]. rewrite cons_middle, app_assoc.
    apply resolved_stands; [done|]. cbn in Hres. by rewrite Hrd in Hres.
Qed.

Lemma NewMVIterator_stands opts it0 items :
  iterates (NewBTreeIteratorG (λ k, MkDataItem k None) (opt_Start opts) (opt_End opts) it0 (opt_Ascending opts)) items →
  at_rest items →
  ∃ it, NewMVIterator (Some waitFor) fuel opts txn it0 w = Returns (w, it) ∧
    mv_stands (seen items) (MkMvIter w it) (value_of <$> seen items).
Proof.
  intros Hi Hr. unfold NewMVIterator. pose proof Hr as (_ & Hf & _).
  match goal with |- context [resolveValue _ _ _ ?i] => destruct (resolveValue_rest fuel items i) as (it & -> & Hres); [done..|] end.
  exists it. split; [done|]. by apply (resolved_stands items []).
Qed.
End mv_iteration.

(** ** The iterator of a write set *)

Section ranges.
Context {BT : BTreeLib} {BL : BTreeLaws}.

(** Sorted keys, in the order of an iteration. *)
Definition keys_ahead {T} `{!KeyItem T} (asc : bool) : list T → Prop :=
  StronglySorted (λ x y, ahead asc (GetKey x) (GetKey y)).

Lemma filter_ahead {T} `{!KeyItem T} (p : T → Prop) `{!∀ x, Decision (p x)} asc (l : list T) :
  keys_ahead asc l → keys_ahead asc (filter p l).
Proof.
  induction l as [|x l IH]; intros Hs; [done|]. apply StronglySorted_cons_inv in Hs as [Hs Ha].
  rewrite filter_cons. case_decide; [|by apply IH]. apply StronglySorted_cons_2; [by apply IH|].
  intros y [_ Hy]%list_elem_of_filter. by apply Ha.
Qed.

Lemma snoc_ahead {T} `{!KeyItem T} asc (l : list T) x :
  keys_ahead asc l → (∀ y, y ∈ l → ahead asc (GetKey y) (GetKey x)) → keys_ahead asc (l ++ [x]).
Proof.
  induction l as [|y l IH]; intros Hs Ha; cbn [app].
  { apply StronglySorted_cons_2; [constructor|]. by intros z ?%elem_of_nil. }
  apply StronglySorted_cons_inv in Hs as [Hs Hy]. apply StronglySorted_cons_2.
  - apply IH; [done|]. intros z Hz. apply Ha. by right.
  - intros z [Hz| ->%list_elem_of_singleton]%elem_of_app; [by apply Hy|]. apply Ha. by left.
Qed.

Lemma range_ahead {T} `{!KeyItem T} s e asc (l : list T) :
  StronglySorted (below KeyItemLess) l → keys_ahead asc (range_items s e asc l).
Proof.
  intros Hs. assert (keys_ahead true l) as Hl.
  { induction Hs as [|x l Hs IH Hx]; [constructor|]. apply StronglySorted_cons_2; [exact IH|].
    intros y Hy. rewrite Forall_forall in Hx. apply ahead_lt, KeyItemLess_lt. by apply Hx. }
  unfold range_items. apply (filter_ahead (λ x, in_range s e (GetKey x) = true)) in Hl.
  destruct asc; [exact Hl|]. induction (filter _ l) as [|x r IH]; [constructor|].
  apply StronglySorted_cons_inv in Hl as [Hr Hx]. rewrite reverse_cons. apply snoc_ahead; [by apply IH|].
  intros y Hy. rewrite elem_of_reverse in Hy. specialize (Hx y Hy). by rewrite !ahead_lt in *.
Qed.

Lemma range_items_elem {T} `{!KeyItem T} s e asc (l : list T) x :
  x ∈ range_items s e asc l ↔ x ∈ l ∧ in_range s e (GetKey x) = true.
Proof. unfold range_items. destruct asc; rewrite ?elem_of_reverse, list_elem_of_filter; naive_solver. Qed.

Context {V : Type} `{!GoZero V}.

Definition pair_of (item : memdbItem V) : Bytes * V := (mi_key item, mi_value item).

Definition mem_stands (it : BTreeIteratorG (memdbItem V)) (l : list (Bytes * V)) : Prop :=
  ∃ items, iterates it items ∧ l = pair_of <$> items.

Lemma mem_iteration : iteration mem_stands.
Proof.
  split.
  - intros it (items & Hi & E). symmetry in E. apply fmap_nil_inv in E as ->. by apply iterates_nil_inv.
  - intros it k v l (items & Hi & E). symmetry in E. apply fmap_cons_inv in E as (item & items' & [= -> ->] & -> & ->).
    apply iterates_cons_inv in Hi as (HV & HI & it' & Hn & Hi). cbn [git_Valid git_Key git_Value git_Next memdb_iterator].
    unfold Key, mem_Value. rewrite HI, Hn. repeat split; [done|]. exists it'. split; [done|]. by exists items'.
Qed.

(** The pending writes of a range, deletions included. *)
Definition pending_range (ws : option (GMemDB V)) (opts : IteratorOptions) : list (Bytes * V) :=
  match ws with
  | None => []
  | Some ws => pair_of <$> range_items (opt_Start opts) (opt_End opts) (opt_Ascending opts) (bt_Scan ws)
  end.

Lemma keys_ahead_pairs {T} `{!KeyItem T} (f : T → Bytes * V) asc (l : list T) :
  (∀ x, (f x).1 = GetKey x) → keys_ahead asc l → sorted_pairs asc (f <$> l).
Proof.
  intros Hf. induction l as [|x l IH]; intros Hs; [constructor|]. apply StronglySorted_cons_inv in Hs as [Hs Hx].
  rewrite fmap_cons. apply StronglySorted_cons_2; [by apply IH|].
  intros y (z & -> & Hz)%list_elem_of_fmap. rewrite !Hf. by apply Hx.
Qed.

Lemma pending_range_sorted ws opts : from_option mem_wf True ws → sorted_pairs (opt_Ascending opts) (pending_range ws opts).
Proof.
  destruct ws as [ws|]; [|constructor]. intros Hw. apply keys_ahead_pairs; [done|]. by apply range_ahead.
Qed.

Lemma OverlayGet_elem ws k v : mem_wf ws → OverlayGet ws k = (v, true) ↔ MkMemdbItem k v ∈ bt_Scan ws.
Proof.
  intros Hw. unfold OverlayGet. rewrite Get_Scan. split.
  - destruct (findb _ (bt_Scan ws)) as [[k' v']|] eqn:E; [|done]. apply findb_Some in E as [Hin Hs].
    unfold item_of in Hs. rewrite same_item in Hs. apply bool_decide_eq_true in Hs as <-. by intros [= ->].
  - intros Hin. rewrite (findb_ext _ (same KeyItemLess (MkMemdbItem k v))).
    + by rewrite (findb_sorted KeyItemLess _ _ Hw Hin).
    + intros [k' v']. unfold item_of. by rewrite !same_item.
Qed.

Lemma pending_range_elem ws opts k v :
  from_option mem_wf True ws →
  (k, v) ∈ pending_range ws opts ↔
    in_range (opt_Start opts) (opt_End opts) k = true ∧ match ws with Some ws => OverlayGet ws k = (v, true) | None => False end.
Proof.
  destruct ws as [ws|]; cbn [pending_range from_option]; intros Hw; [|rewrite elem_of_nil; naive_solver].
  rewrite OverlayGet_elem by done. rewrite list_elem_of_fmap. split.
  - intros ([k' v'] & [= -> ->] & [Hin Hr]%range_items_elem). done.
  - intros [Hr Hin]. exists (MkMemdbItem k v). split; [done|]. by apply range_items_elem.
Qed.

Lemma pending_iterator_stands (s : option (GMemDB V)) opts :
  from_option mem_wf True s →
  mem_stands (match s with
              | None => NewNoopIterator (opt_Start opts) (opt_End opts) (opt_Ascending opts)
              | Some ws => mem_iterator ws (opt_Start opts) (opt_End opts) (opt_Ascending opts)
              end) (pending_range s opts).
Proof.
  destruct s as [ws|]; intros Hw.
  - eexists. split; [|reflexivity]. by apply (iterates_new item_of).
  - exists []. split; [by constructor|done].
Qed.
End ranges.

(** ** What a transaction sees of the multi-version data *)

Section seen_facts.
Context {BT : BTreeLib} {BL : BTreeLaws} {V : Type} `{!GoZero V}.
Context (d : GMVData V) (txn : Z) (opts : IteratorOptions).
Context (Hwf : mv_wf d).
Abbreviation sec := (secondaryDataItem V).
Abbreviation seen_range := (seen (inner d) txn (range_of d opts)).

Lemma seen_elem items k (e : sec) :
  (k, e) ∈ seen (inner d) txn items ↔ ∃ x, x ∈ items ∧ d_Key x = k ∧ closest (tree_entries (inner d) (d_Tree x)) txn = Some e.
Proof.
  unfold seen. rewrite list_elem_of_omap. split.
  - intros (x & Hx & E). destruct (closest _ _) as [e'|] eqn:Ec; [|done]. injection E as <- <-. eauto.
  - intros (x & Hx & <- & E). exists x. by rewrite E.
Qed.

Lemma seen_range_elem k (e : sec) :
  (k, e) ∈ seen_range ↔ in_range (opt_Start opts) (opt_End opts) k = true ∧ closest (entries d k) txn = Some e.
Proof.
  rewrite seen_elem. split.
  - intros (x & Hx & <- & E). apply range_items_elem in Hx as [Hx Hr]. split; [exact Hr|]. by rewrite (entries_of_item d x).
  - intros [Hr E]. destruct (decide (k ∈ mv_keys d)) as [Hk|Hk]; [|by rewrite (entries_no_key d k Hk) in E].
    unfold mv_keys in Hk. apply list_elem_of_fmap in Hk as (x & -> & Hx). exists x.
    split; [by apply range_items_elem|]. split; [done|]. by rewrite <- (entries_of_item d x).
Qed.

Lemma seen_sorted items :
  keys_ahead (opt_Ascending opts) items → sorted_pairs (opt_Ascending opts) (value_of <$> seen (inner d) txn items).
Proof.
  induction items as [|x items IH]; intros Hs; [constructor|]. apply StronglySorted_cons_inv in Hs as [Hs Hx].
  unfold seen. cbn [omap list_omap]. destruct (closest _ _) as [e|]; cbn [fmap option_fmap option_map]; [|by apply IH].
  rewrite fmap_cons. apply StronglySorted_cons_2; [by apply IH|].
  intros y ([k' e'] & -> & (z & Hz & <- & _)%seen_elem)%list_elem_of_fmap. by apply Hx.
Qed.

Lemma seen_range_sorted : sorted_pairs (opt_Ascending opts) (value_of <$> seen_range).
Proof. apply seen_sorted, range_ahead, Hwf. Qed.
End seen_facts.

(** What the code relies on in the iterators of the base storage: they are
    sorted and show exactly the stored keys of the range. *)
Class GStoreIteratorLaws {V S I} `{!KVStore S V, !GIterator I V, !GStoreIterator S I} (isZero : V → bool) (ok : S → Prop) := {
  store_range : S → IteratorOptions → list (Bytes * V);
  store_stands : I → list (Bytes * V) → Prop;
  store_iteration : iteration store_stands;
  store_starts : ∀ s opts, ok s → store_stands (store_iterator s opts) (store_range s opts);
  store_sorted : ∀ s opts, ok s → sorted_pairs (opt_Ascending opts) (store_range s opts);
  store_elem : ∀ s opts k v, ok s →
    (k, v) ∈ store_range s opts ↔
      in_range (opt_Start opts) (opt_End opts) k = true ∧ kv_Get s k = v ∧ isZero v = false;
}.

(** The in-memory store keeps these laws as long as it holds no zero value. *)
Section memdb_storage.
Context {BT : BTreeLib} {BL : BTreeLaws} {V : Type} `{!GoZero V} (isZero : V → bool) (Hzero : isZero zero = true).

Definition memdb_store_iterator : GStoreIterator (GMemDB V) (BTreeIteratorG (memdbItem V)) := λ db opts,
  if opt_Ascending opts then mem_Iterator db (opt_Start opts) (opt_End opts)
  else mem_ReverseIterator db (opt_Start opts) (opt_End opts).

Definition no_zeros (db : GMemDB V) : Prop := mem_wf db ∧ ∀ k v, OverlayGet db k = (v, true) → isZero v = false.

#[local] Existing Instance memdb_store_iterator.
#[local] Instance memdb_kv : KVStore (GMemDB V) V := memdb_store isZero.

Definition memdb_iterator_laws : GStoreIteratorLaws isZero no_zeros.
Proof.
  refine {| store_range db := pending_range (Some db); store_stands := mem_stands; store_iteration := mem_iteration |}.
  - intros db opts [Hw _]. pose proof (pending_iterator_stands (Some db) opts Hw) as H.
    unfold store_iterator, memdb_store_iterator, mem_Iterator, mem_ReverseIterator. by destruct (opt_Ascending opts).
  - intros db opts [Hw _]. by apply pending_range_sorted.
  - intros db opts k v [Hw Hz]. rewrite pending_range_elem by done. cbn [kv_Get memdb_kv memdb_store].
    rewrite mem_Get_Overlay. split.
    + intros [Hr E]. rewrite E. eauto.
    + intros (Hr & <- & Hv). split; [done|]. destruct (OverlayGet db k) as [v [|]] eqn:E; [done|].
      exfalso. unfold OverlayGet in E. destruct (bt_Get _ _); [done|]. injection E as <-. cbn in Hv. congruence.
Defined.
End memdb_storage.

(** ** The three-way merge *)

Lemma merged_length {V} (isZero : V → bool) asc (lp lc : list (Bytes * V)) :
  (length (merge_pairs isZero asc lp lc) ≤ length lp + length lc)%nat.
Proof.
  revert lc. induction lp as [|[kp vp] lp IHp]; intros lc; [cbn; apply length_filter|].
  induction lc as [|[kc vc] lc IHc]; [rewrite merge_pairs_nil_r; lia|].
  rewrite merge_pairs_cons. destruct (compare asc kp kc); [|pose proof (IHp ((kc, vc) :: lc)); cbn in *; lia|];
    destruct (isZero vc); cbn [length] in *; try pose proof (IHp lc); lia.
Qed.

Lemma take_while_app {A} (p : A → bool) (l1 l2 : list A) :
  forallb p l1 = true → match l2 with [] => True | x :: _ => p x = false end → take_while p (l1 ++ l2) = l1.
Proof.
  induction l1 as [|x l1 IH]; cbn.
  - destruct l2; cbn; [done|]. by intros _ ->.
  - destruct (p x); [|done]. cbn. intros H1 H2. by rewrite IH.
Qed.

Lemma take_while_all {A} (p : A → bool) (l : list A) : forallb p (take_while p l) = true.
Proof. induction l as [|x l IH]; cbn; [done|]. destruct (p x) eqn:E; cbn; [by rewrite E|done]. Qed.

(** With no estimate on the way, what a replay shows is what is seen. *)
Lemma replay_at_rest {BT : BTreeLib} {V} `{!GoZero V} (w : world V) txn items :
  (∀ x, x ∈ seen w txn items → s_Estimate x.2 = false) → replay w txn items = (read_of <$> seen w txn items, false).
Proof.
  induction items as [|x items IH]; intros He; [done|]. cbn [replay]. unfold seen in He |- *. cbn [omap list_omap] in He |- *.
  destruct (closest _ _) as [e|]; cbn [fmap option_fmap option_map] in He |- *; [|by apply IH].
  pose proof (He (d_Key x, e) ltac:(by left)) as E. cbn in E. rewrite E, IH; [done|]. intros y Hy. apply He. by right.
Qed.

Section three_way.
Context {BT : BTreeLib} {BL : BTreeLaws} {V : Type} `{!GoZero V} (isZero : V → bool).
Context {Store SI : Type} `{!KVStore Store V, !GIterator SI V, !GStoreIterator Store SI}.
Context (ok : Store → Prop) `{!GStoreIteratorLaws isZero ok}.
Context (waitFor : Z → world V → world V) (fuel : nat).
Context (s : GMVMemoryView V Store) (m : GMVData V) (opts : IteratorOptions).

(** A memory at rest: no other transaction writes, and no write the reader
    would wait for is pending; the fuel covers what there is to iterate. *)
Record resting : Prop := {
  r_wf : mv_wf m;
  r_view : view_wf s;
  r_storage : ok (v_storage s);
  r_indices : ∀ k e, e ∈ entries m k → 0 ≤ s_Index e;
  r_estimates : no_estimates m (v_txn s);
  r_fuel : (length (store_range (v_storage s) opts) + length (Scan (outer m)) +
              length (pending_range (v_writeSet s) opts) < fuel)%nat;
}.
Context (HR : resting).
Abbreviation asc := (opt_Ascending opts).
Abbreviation txn := (v_txn s).
Abbreviation L := (seen (inner m) txn (range_of m opts)).
Abbreviation stored := (store_range (v_storage s) opts).
Abbreviation pending := (pending_range (v_writeSet s) opts).
Abbreviation below_writes := (merge_pairs isZero asc stored (value_of <$> L)).
Definition view_items : list (Bytes * V) := merge_pairs isZero asc below_writes pending.

#[local] Instance it_mv : GIterator (mvIter V) V := mv_iterator waitFor fuel.
#[local] Instance it_inner : GIterator (cacheMergeIterator SI (mvIter V)) V := merge_iterator isZero fuel.

Definition inner_stands : cacheMergeIterator SI (mvIter V) → list (Bytes * V) → Prop :=
  merge_stands isZero asc store_stands (mv_stands fuel (inner m) txn L) (crossed asc stored (value_of <$> L)) fuel.
Definition view_stands : cacheMergeIterator (cacheMergeIterator SI (mvIter V)) (BTreeIteratorG (memdbItem V)) →
    list (Bytes * V) → Prop :=
  merge_stands isZero asc inner_stands mem_stands (crossed asc below_writes pending) fuel.

Lemma seen_values_sorted : sorted_pairs asc (value_of <$> L).
Proof. apply seen_range_sorted, HR. Qed.

Lemma stored_sorted : sorted_pairs asc stored.
Proof. apply store_sorted, HR. Qed.

Lemma below_sorted : sorted_pairs asc below_writes.
Proof. apply merged_sorted; [apply stored_sorted|apply seen_values_sorted]. Qed.

Lemma pending_sorted : sorted_pairs asc pending.
Proof. apply pending_range_sorted, HR. Qed.

Lemma inner_iteration : iteration (GIterator0 := it_inner) inner_stands.
Proof.
  apply merge_iteration; [apply store_iteration|exact (mv_iteration waitFor fuel _ _ _)|].
  apply crossed_kept; [apply stored_sorted|apply seen_values_sorted].
Qed.

Lemma view_iteration : iteration (GIterator0 := merge_iterator isZero fuel) view_stands.
Proof.
  apply merge_iteration; [apply inner_iteration|apply mem_iteration|].
  apply crossed_kept; [apply below_sorted|apply pending_sorted].
Qed.

Lemma seen_no_estimate x : x ∈ L → s_Estimate x.2 = false.
Proof.
  destruct x as [k e]. intros [_ E]%(seen_range_elem m txn opts (r_wf HR)). pose proof (r_estimates HR k) as He.
  rewrite Read_answer in He by apply HR. cbn [snd].
  assert ((txn =? 0) = false) as Ht.
  { apply Z.eqb_neq. intros Ht. apply closest_spec in E as (Hin & Hlt & _); [|by apply entries_sorted, HR].
    pose proof (r_indices HR k e Hin). lia. }
  rewrite Ht, E in He. by eapply He.
Qed.

Lemma range_at_rest : at_rest fuel (inner m) txn (range_of m opts).
Proof.
  split; [|split; [|apply seen_no_estimate]].
  - intros x Hx%range_of_elem. destruct (wf_tree m (r_wf HR) x Hx) as (l & t & ? & ? & _). eauto.
  - pose proof (r_fuel HR). pose proof (range_items_length (opt_Start opts) (opt_End opts) asc (Scan (outer m))).
    unfold range_of. lia.
Qed.

Lemma seen_length : (length L ≤ length (Scan (outer m)))%nat.
Proof.
  pose proof (range_items_length (opt_Start opts) (opt_End opts) asc (Scan (outer m))).
  assert (∀ items, length (seen (inner m) txn items) ≤ length items)%nat as Hs.
  { induction items as [|x items IH]; [done|]. unfold seen in *. cbn [omap list_omap]. destruct (_ <$> _); cbn; lia. }
  specialize (Hs (range_of m opts)). unfold range_of in *. lia.
Qed.

Lemma view_iterator_stands : ∃ it, view_iterator isZero waitFor fuel s m opts = Returns it ∧ view_stands it view_items.
Proof.
  pose proof (r_fuel HR). pose proof seen_length. unfold view_iterator.
  destruct (NewMVIterator_stands waitFor fuel (inner m) txn opts (Iter (outer m)) (range_of m opts)) as (mi & -> & Hmi).
  { apply (iterates_new (λ k, MkDataItem k None)); [done|apply HR]. }
  { apply range_at_rest. }
  cbn [mbind outcome_bind].
  destruct (NewCacheMergeIterator_stands (GIterator1 := it_mv) isZero asc store_stands (mv_stands fuel (inner m) txn L) store_iteration
    (mv_iteration waitFor fuel _ _ _) (crossed asc stored (value_of <$> L))
    (crossed_kept asc _ _ stored_sorted seen_values_sorted) fuel (store_iterator (v_storage s) opts) (MkMvIter (inner m) mi)
    stored (value_of <$> L)) as (it1 & E1 & H1); [apply store_starts, HR|exact Hmi|apply crossed_start|rewrite length_fmap; lia|].
  unfold it_mv in E1. rewrite E1. cbn [mbind outcome_bind].
  pose proof (merged_length isZero asc stored (value_of <$> L)) as Hl. rewrite length_fmap in Hl.
  apply (NewCacheMergeIterator_stands (GIterator0 := it_inner) isZero asc inner_stands mem_stands inner_iteration mem_iteration
    (crossed asc below_writes pending) (crossed_kept asc _ _ below_sorted pending_sorted) fuel);
    [exact H1|apply pending_iterator_stands, HR|apply crossed_start|lia].
Qed.

Lemma view_take_stands n it l : view_stands it l →
  ∃ it', view_take isZero waitFor fuel n it = Returns (it', take n l) ∧ view_stands it' (drop n l).
Proof.
  revert it l. induction n as [|n IH]; intros it l Hit; cbn [view_take]; [rewrite take_0, drop_0; eauto|].
  destruct l as [|[k v] l].
  - pose proof (it_nil _ view_iteration _ Hit) as Hv. cbn in Hv. rewrite Hv. by exists it.
  - destruct (it_cons _ view_iteration _ _ _ _ Hit) as (Hv & Hk & Hx & it1 & Hn & H1). cbn in Hv. rewrite Hv.
    assert (view_Next isZero waitFor fuel it = Returns it1) as -> by exact Hn. cbn [mbind outcome_bind]. destruct (IH it1 l H1) as (it' & -> & H').
    cbn [mbind outcome_bind]. exists it'. cbn [take drop]. by rewrite <- Hk, <- Hx.
Qed.

(** *** The items are those of the map the view shows *)

Lemma closest_now k : (if txn =? 0 then None else closest (entries m k) txn) = closest (entries m k) txn.
Proof.
  destruct (txn =? 0) eqn:Ht; [|done]. apply Z.eqb_eq in Ht. destruct (closest (entries m k) txn) as [e|] eqn:E; [|done].
  apply closest_spec in E as (Hin & Hlt & _); [|by apply entries_sorted, HR]. pose proof (r_indices HR k e Hin). lia.
Qed.

Lemma visible_closest k : visible m (v_storage s) txn k =
  match closest (entries m k) txn with Some e => s_Value e | None => kv_Get (v_storage s) k end.
Proof.
  unfold visible. rewrite closest_now. destruct (closest (entries m k) txn) as [e|] eqn:E; [|done].
  apply closest_spec in E as (Hin & _ & _); [|by apply entries_sorted, HR]. pose proof (r_indices HR k e Hin) as Hi.
  unfold version_Valid, secondary_Version. cbn [Index]. by rewrite (proj2 (Z.leb_le _ _) Hi).
Qed.

Lemma seen_value_elem k v : (k, v) ∈ value_of <$> L ↔ ∃ e, (k, e) ∈ L ∧ s_Value e = v.
Proof.
  rewrite list_elem_of_fmap. split; [intros ([k' e] & [= -> ->] & H); eauto|]. intros (e & H & <-). by exists (k, e).
Qed.

Lemma seen_key_elem k : k ∈ (value_of <$> L).*1 ↔ ∃ e, (k, e) ∈ L.
Proof.
  rewrite list_elem_of_fmap. split.
  - intros ([k' v] & -> & (e & H & _)%seen_value_elem). by exists e.
  - intros [e H]. exists (k, s_Value e). split; [done|]. apply seen_value_elem. eauto.
Qed.

Lemma below_elem k v : (k, v) ∈ below_writes ↔
  in_range (opt_Start opts) (opt_End opts) k = true ∧ visible m (v_storage s) txn k = v ∧ isZero v = false.
Proof.
  rewrite merged_elem by (apply stored_sorted || apply seen_values_sorted).
  rewrite seen_value_elem, seen_key_elem, store_elem by apply HR. rewrite visible_closest.
  setoid_rewrite (seen_range_elem m txn opts (r_wf HR)). destruct (closest (entries m k) txn) as [e|] eqn:E; split.
  - intros [[(e' & [Hr [= <-]] & Hv) Hz]|[_ []]]; [done|]. exists e. naive_solver.
  - intros (Hr & Hv & Hz). left. eauto.
  - intros [[(e' & [_ [=]] & _) _]|[H _]]. exact H.
  - intros H. right. split; [exact H|]. by intros (e & _ & [=]).
Qed.

Lemma pending_key k : k ∈ pending.*1 ↔ in_range (opt_Start opts) (opt_End opts) k = true ∧
  match v_writeSet s with Some ws => ∃ v, OverlayGet ws k = (v, true) | None => False end.
Proof.
  rewrite list_elem_of_fmap. split.
  - intros ([k' v] & -> & [Hr H]%pending_range_elem); [|apply HR]. split; [exact Hr|].
    destruct (v_writeSet s); [by exists v|done].
  - intros [Hr H]. destruct (v_writeSet s) as [ws|] eqn:E; [|done]. destruct H as [v H]. exists (k, v). split; [done|].
    pose proof (r_view HR) as Hw. unfold view_wf in Hw. rewrite E in Hw. by apply (pending_range_elem (Some ws)).
Qed.

Lemma view_items_elem k v : (k, v) ∈ view_items ↔
  in_range (opt_Start opts) (opt_End opts) k = true ∧ shows s m k = v ∧ isZero v = false.
Proof.
  unfold view_items. rewrite merged_elem by (apply below_sorted || apply pending_sorted).
  rewrite pending_range_elem by apply HR. rewrite pending_key, below_elem. unfold shows.
  destruct (v_writeSet s) as [ws|]; [|naive_solver]. destruct (OverlayGet ws k) as [v' [|]]; naive_solver.
Qed.

Lemma view_items_sorted : sorted_pairs asc view_items.
Proof. apply merged_sorted; [apply below_sorted|apply pending_sorted]. Qed.

(** *** What closing it records *)

(** Where a view's iterator stands: the entries read so far, and the key in
    front. *)
Lemma view_stands_reads it l : view_stands it l → ∃ passed rest,
  L = passed ++ rest ∧ mv_reads (mvi_it (cache (parent it))) = read_of <$> (passed ++ take 1 rest) ∧
  (mi_valid it = false ∧ l = [] ∧ rest = [] ∨
   mi_valid it = true ∧ (∃ x, head l = Some x ∧ merge_Key it = x.1) ∧
   (∀ x, x ∈ rest → merge_Key it = x.1 ∨ ahead asc (merge_Key it) x.1) ∧
   (∀ x, x ∈ passed → isZero (s_Value x.2) = false → ahead asc x.1 (merge_Key it))).
Proof.
  intros Hit. pose proof Hit as (lp & lc & _ & Hp & _ & Hc & Hs & Hl & Hv & _).
  destruct Hp as (lp1 & lc1 & _ & _ & Hmv & Hc1 & Hs1 & Hl1 & _ & _). destruct Hmv as (passed & rest & EL & -> & _ & _ & Hrd & _).
  exists passed, rest. split; [exact EL|]. split; [exact Hrd|].
  destruct l as [|[k v] l].
  - left. split; [exact Hv|]. split; [done|]. symmetry in Hl. apply merged_nil in Hl as [-> ->]; [|done].
    symmetry in Hl1. apply merged_nil in Hl1 as [_ Hr]; [|done]. by apply fmap_nil_inv in Hr.
  - right. split; [exact Hv|]. destruct (it_cons _ view_iteration _ _ _ _ Hit) as (_ & Hk & _).
    assert (merge_Key it = k) as -> by exact Hk. split; [by exists (k, v)|].
    destruct Hc as (dp & dc & Ep & Ec & Hdc & Hdp). destruct Hc1 as (dp1 & dc1 & Ep1 & Ec1 & Hdc1 & Hdp1).
    pose proof stored_sorted as Hss. rewrite Ep1 in Hss. apply sorted_pairs_app in Hss as [Hss _].
    pose proof seen_values_sorted as Hsv. rewrite Ec1 in Hsv. apply sorted_pairs_app in Hsv as [Hsv Hsv'].
    pose proof below_sorted as Hbs. rewrite Ep in Hbs. apply sorted_pairs_app in Hbs as [Hbs Hbs'].
    pose proof pending_sorted as Hps. rewrite Ec in Hps. apply sorted_pairs_app in Hps as [Hps _].
    assert (dc1 = value_of <$> passed) as ->.
    { rewrite EL, fmap_app in Ec1. by apply app_inv_tail in Ec1. }
    split.
    + intros x Hx. assert (value_of x ∈ lp1 ++ (value_of <$> rest)) as Hx1.
      { apply elem_of_app. right. by apply (list_elem_of_fmap_2 value_of). }
      destruct lp as [|[k1 v1] lp].
      { symmetry in Hl1. apply merged_nil in Hl1 as [_ Hr]; [|done]. apply fmap_nil_inv in Hr as ->. by apply elem_of_nil in Hx. }
      pose proof (merged_head isZero asc lp1 (value_of <$> rest) (value_of x) (k1, v1) Hss Hsv Hs1 Hx1 ltac:(by rewrite <- Hl1)) as H1.
      assert ((k1, v1) ∈ ((k1, v1) :: lp) ++ lc) as Hx2 by (by left).
      pose proof (merged_head isZero asc _ lc _ (k, v) Hbs Hps Hs Hx2 ltac:(by rewrite <- Hl)) as H2. cbn [fst value_of] in H1, H2.
      destruct H2 as [->|H2]; [exact H1|]. right. destruct H1 as [<-|H1]; [exact H2|by etrans].
    + intros x Hx Hz. assert (value_of x ∈ below_writes) as Hb.
      { apply merged_elem; [apply stored_sorted|apply seen_values_sorted|]. left. split; [|exact Hz].
        rewrite EL, fmap_app. apply elem_of_app. left. by apply (list_elem_of_fmap_2 value_of). }
      rewrite Ep in Hb. apply elem_of_app in Hb as [Hb|Hb].
      * assert ((k, v) ∈ lp ++ lc) as Hkv; [|apply elem_of_app in Hkv as [Hkv|Hkv]; [by apply (Hbs' _ _ Hb Hkv)|by apply (Hdp _ _ Hb Hkv)]].
        assert ((k, v) ∈ merge_pairs isZero asc lp lc) as Hm by (rewrite <- Hl; by left).
        apply merged_elem in Hm as [[H _]|[H _]]; [..|done|done]; apply elem_of_app; auto.
      * exfalso. rewrite Hl1 in Hb. apply merged_elem in Hb as [[H _]|[H _]]; [| |done|done].
        -- apply (irreflexivity (ahead asc) x.1). apply (Hsv' (value_of x) (value_of x)); [by apply (list_elem_of_fmap_2 value_of)|exact H].
        -- apply (irreflexivity (ahead asc) x.1). apply (Hdc1 (value_of x) (value_of x)); [by apply (list_elem_of_fmap_2 value_of)|exact H].
Qed.

Abbreviation stop_of it := (if mi_valid it then Some (merge_Key it) else None).
Abbreviation desc_of it := (MkIteratorDescriptor opts (stop_of it)
  (observed_reads (mv_reads (mvi_it (cache (parent it)))) (stop_of it) asc)).

Lemma beyond_ahead k (x : Bytes * secondaryDataItem V) desc :
  id_Options desc = opts → id_Stop desc = Some k → not_beyond desc (read_of x) = false ↔ ahead asc k x.1.
Proof.
  intros E1 E2. unfold not_beyond. rewrite E2, E1, negb_false_iff, BytesBeyond_spec, ahead_lt. done.
Qed.

(** [observed_reads] drops the last read when it is beyond the stop key. *)
Lemma observed_reads_last k (l : list (Bytes * secondaryDataItem V)) x desc :
  id_Options desc = opts → id_Stop desc = Some k →
  observed_reads (read_of <$> (l ++ [x])) (Some k) asc =
    if not_beyond desc (read_of x) then read_of <$> (l ++ [x]) else read_of <$> l.
Proof.
  intros E1 E2. unfold observed_reads, not_beyond. rewrite E1, E2, fmap_app. cbn [fmap list_fmap].
  rewrite last_snoc, length_app, Nat.add_sub, take_app_length. by destruct (BytesBeyond _ _ _).
Qed.

(** What is kept of the reads: all before the one in front, which stays if it
    is not beyond the stop key; what was seen and not kept is beyond it. *)
Lemma desc_reads it l : view_stands it l → ∃ kept_ dropped,
  L = kept_ ++ dropped ∧ id_Reads (desc_of it) = read_of <$> kept_ ∧
  match read_of <$> dropped with [] => True | r :: _ => not_beyond (desc_of it) r = false end ∧
  (mi_valid it = false ∨ (∀ x, x ∈ L → isZero (s_Value x.2) = false) →
   forallb (not_beyond (desc_of it)) (read_of <$> kept_) = true).
Proof.
  intros (passed & rest & EL & Hrd & [(Hv & _ & ->)|(Hv & _ & Hrest & Hpassed)])%view_stands_reads.
  { exists L, []. rewrite app_nil_r. split; [done|]. cbn [id_Reads]. rewrite Hv, Hrd, app_nil_r in *. cbn [observed_reads].
    split; [by rewrite EL|]. split; [done|]. intros _. apply forallb_forall. by intros r _. }
  cbn [id_Reads]. rewrite Hrd, Hv in *. set (desc := MkIteratorDescriptor _ _ _).
  assert (∀ x, not_beyond desc (read_of x) = false ↔ ahead asc (merge_Key it) x.1) as Hb
    by (intros x; by apply beyond_ahead).
  assert ((∀ x, x ∈ L → isZero (s_Value x.2) = false) → forallb (not_beyond desc) (read_of <$> passed) = true) as Hall.
  { intros Hz. apply forallb_forall. intros r Hr%list_elem_of_In. apply list_elem_of_fmap in Hr as (x & -> & Hx).
    destruct (not_beyond _ _) eqn:E; [done|]. apply Hb in E. exfalso. apply (irreflexivity (ahead asc) x.1).
    etrans; [apply (Hpassed _ Hx)|exact E]. apply Hz. rewrite EL. apply elem_of_app. by left. }
  assert (∀ l x, observed_reads (read_of <$> (l ++ [x])) (Some (merge_Key it)) asc =
    if not_beyond desc (read_of x) then read_of <$> (l ++ [x]) else read_of <$> l) as Hobs
    by (intros; by apply observed_reads_last).
  clearbody desc. destruct rest as [|x rest]; cbn [take].
  - rewrite app_nil_r in *. destruct passed as [|x front _] using rev_ind.
    { exists [], []. cbn. rewrite EL. by repeat split. }
    rewrite Hobs. destruct (not_beyond desc (read_of x)) eqn:E.
    + exists (front ++ [x]), []. rewrite app_nil_r. split; [done|]. split; [done|]. split; [done|]. by intros [?|?]; [|apply Hall].
    + exists front, [x]. split; [done|]. split; [done|]. split; [exact E|]. intros [?|Hz]; [done|].
      specialize (Hall Hz). rewrite fmap_app, forallb_app in Hall. by apply andb_prop in Hall as [? _].
  - rewrite Hobs. destruct (not_beyond desc (read_of x)) eqn:E.
    + exists (passed ++ [x]), rest. rewrite <- app_assoc. split; [done|]. split; [done|]. split.
      * destruct rest as [|y rest]; [done|]. cbn [fmap list_fmap]. apply Hb.
        pose proof seen_values_sorted as Hss. rewrite EL, fmap_app in Hss. apply sorted_pairs_app in Hss as [Hss _].
        cbn [fmap list_fmap] in Hss. apply sorted_pairs_cons in Hss as [_ Hss]. specialize (Hss (value_of y) ltac:(by left)).
        destruct (Hrest x ltac:(by left)) as [->|H]; [exact Hss|by etrans].
      * intros [?|Hz]; [done|]. rewrite fmap_app, forallb_app, (Hall Hz). cbn. by rewrite E.
    + exists passed, (x :: rest). split; [done|]. split; [done|]. split; [exact E|]. by intros [?|?]; [|apply Hall].
Qed.

Lemma desc_valid fuel' it l : view_stands it l → (length (Scan (outer m)) < fuel')%nat →
  validateIterator fuel' m (desc_of it) txn = Returns (forallb (not_beyond (desc_of it)) (id_Reads (desc_of it))) ∧
  (mi_valid it = false ∨ (∀ x, x ∈ L → isZero (s_Value x.2) = false) →
   forallb (not_beyond (desc_of it)) (id_Reads (desc_of it)) = true).
Proof.
  intros Hit Hf. destruct (desc_reads it l Hit) as (kept_ & dropped & EL & Er & Hd & Ha). rewrite Er. split; [|exact Ha].
  rewrite validateIterator_spec by (exact Hf || apply HR). cbn [id_Options]. rewrite (replay_at_rest _ _ _ seen_no_estimate). f_equal.
  unfold matches. rewrite Er. clear Er Ha. set (desc := desc_of it) in *. clearbody desc. cbn [fst snd negb orb]. rewrite andb_true_r, EL, fmap_app.
  apply eq_true_iff_eq. rewrite bool_decide_eq_true. split; [|intros H; by apply take_while_app].
  intros <-. apply take_while_all.
Qed.
End three_way.

(** ** The properties *)

Section properties.
Context {BT : BTreeLib} {BL : BTreeLaws} {V : Type} `{!GoZero V} (isZero : V → bool).
Context {Store SI : Type} `{!KVStore Store V, !GIterator SI V, !GStoreIterator Store SI}.
Context (ok : Store → Prop) `{!GStoreIteratorLaws isZero ok}.
Context (waitFor : Z → world V → world V).

(** C14: Iterating over a view yields what iterating over the map the view
    shows would: the keys of the range whose value is not zero, each once with
    that value, in the order asked for, whatever mixture of own writes and
    deletions, earlier transactions' writes and deletions and stored items is
    behind them.  The loops end, and a caller that stops after [n] items has
    seen the first [n] of them; the view shows the same map afterwards. *)
Theorem view_iterate_refines_map fuel (s : GMVMemoryView V Store) (m : GMVData V) (opts : IteratorOptions) :
  resting isZero ok fuel s m opts →
  ∃ items : list (Bytes * V), sorted_pairs (opt_Ascending opts) items ∧
    (∀ k v, (k, v) ∈ items ↔
       in_range (opt_Start opts) (opt_End opts) k = true ∧ shows s m k = v ∧ isZero v = false) ∧
    ∀ n, ∃ s', view_iterate isZero waitFor fuel n s m opts = Returns (s', take n items) ∧
      (∀ k, shows s' m k = shows s m k) ∧ rs_Reads (v_readSet s') = rs_Reads (v_readSet s).
Proof.
  intros HR. exists (view_items isZero ok s m opts).
  split; [by apply (view_items_sorted isZero ok fuel)|]. split; [intros k v; by apply (view_items_elem isZero ok fuel)|].
  intros n. unfold view_iterate. destruct (view_iterator_stands isZero ok waitFor fuel s m opts HR) as (it & -> & Hit).
  cbn [mbind outcome_bind]. destruct (view_take_stands isZero ok waitFor fuel s m opts HR n it _ Hit) as (it' & -> & _).
  by eexists.
Qed.

(** C15: Closing an iterator records one descriptor.  Validating it against
    the very memory that was read succeeds exactly when no recorded read lies
    beyond the key the caller stopped at; that is the case when the caller
    went to the end, and when no deletion by an earlier transaction lies in the
    range. *)
Theorem view_Close_validates fuel fuel' n (s : GMVMemoryView V Store) (m : GMVData V) (opts : IteratorOptions) :
  resting isZero ok fuel s m opts → (length (Scan (outer m)) < fuel')%nat →
  ∃ s' items desc, view_iterate isZero waitFor fuel n s m opts = Returns (s', items) ∧
    rs_Iterators (v_readSet s') = rs_Iterators (v_readSet s) ++ [desc] ∧ id_Options desc = opts ∧
    validateIterator fuel' m desc (v_txn s) = Returns (forallb (not_beyond desc) (id_Reads desc)) ∧
    (id_Stop desc = None ∨
       (∀ k e, in_range (opt_Start opts) (opt_End opts) k = true → closest (entries m k) (v_txn s) = Some e →
          isZero (s_Value e) = false) →
     forallb (not_beyond desc) (id_Reads desc) = true).
Proof.
  intros HR Hf. unfold view_iterate. destruct (view_iterator_stands isZero ok waitFor fuel s m opts HR) as (it & -> & Hit).
  cbn [mbind outcome_bind]. destruct (view_take_stands isZero ok waitFor fuel s m opts HR n it _ Hit) as (it' & -> & Hit').
  cbn [mbind outcome_bind]. destruct (desc_valid isZero ok waitFor fuel s m opts HR fuel' it' _ Hit' Hf) as [Hv Ha].
  do 3 eexists. split; [done|]. split; [done|]. split; [done|]. split; [exact Hv|].
  intros H. apply Ha. cbn [id_Stop] in H. destruct H as [H|Hz]; [left; by destruct (mi_valid it')|right].
  intros [k e] Hx. apply (seen_range_elem m (v_txn s) opts (r_wf _ _ _ _ _ _ HR)) in Hx as [Hr E]. by eapply Hz.
Qed.
End properties.

(** ** Concrete iterations *)

(** Entries of finished transactions only. *)
Definition no_marks {BT : BTreeLib} {V} (m : GMVData V) : Prop :=
  mv_wf m ∧ ∀ k e, e ∈ entries m k → s_Estimate e = false ∧ 0 ≤ s_Index e.

Lemma no_marks_new {BT : BTreeLib} {BL : BTreeLaws} {V} : no_marks (NewGMVData V).
Proof.
  split; [apply NewGMVData_wf|]. intros k e He. rewrite entries_no_key in He; [by apply elem_of_nil in He|].
  unfold mv_keys, NewGMVData. cbn [outer]. unfold Scan. cbn. rewrite Scan_new. by intros ?%elem_of_nil.
Qed.

Lemma no_marks_Write {BT : BTreeLib} {BL : BTreeLaws} {V} (m : GMVData V) k v version d :
  no_marks m → 0 ≤ Index version → Write m k v version = Returns d → no_marks d.
Proof.
  intros [Hw Hm] Hv E. destruct (Write_changes m k v version Hw) as (d' & E' & Hd & Hent & _).
  rewrite E' in E. injection E as <-. split; [exact Hd|]. intros k' e. rewrite Hent. case_decide; [|apply Hm].
  intros He. apply (elem_of_ins secondaryLesser) in He as [->|He]; [done|by apply (Hm k)].
Qed.

Lemma no_marks_estimates {BT : BTreeLib} {BL : BTreeLaws} {V} `{!GoZero V} (m : GMVData V) txn :
  no_marks m → no_estimates m txn.
Proof.
  intros [Hw Hm] k v version est HR. rewrite Read_answer in HR by done.
  destruct (if txn =? 0 then None else _) as [e|] eqn:E; injection HR as <- <- <-; [|done].
  destruct (txn =? 0); [done|]. apply closest_spec in E as [He _]; [by apply (Hm k)|by apply entries_sorted].
Qed.

Section witnesses.
#[local] Existing Instance ListTree.
#[local] Existing Instance ListTree_laws.
#[local] Existing Instance memdb_store_iterator.
#[local] Instance memdb_Z : KVStore (GMemDB Z) Z := memdb_store zero_value.
#[local] Instance memdb_Z_laws : GStoreIteratorLaws (S := GMemDB Z) zero_value (no_zeros zero_value) :=
  memdb_iterator_laws zero_value eq_refl.

Definition kb : Bytes := [Byte.x62].
Definition km : Bytes := [Byte.x6d].
Definition kz : Bytes := [Byte.x7a].

(** Transaction 1 deleted [km] and wrote 7 to [kz]. *)
Definition deleted_m : GMVData Z :=
  result (NewGMVData Z) (m ← Write (NewGMVData Z) km 0 (MkVersion 1 0); Write m kz 7 (MkVersion 1 0)).

Lemma deleted_m_no_marks : no_marks deleted_m.
Proof.
  unfold deleted_m. destruct (Write_changes (NewGMVData Z) km 0 (MkVersion 1 0) NewGMVData_wf) as (d & E & _).
  pose proof (no_marks_Write _ km 0 (MkVersion 1 0) d no_marks_new Z.le_0_1 E) as Hd. rewrite E. cbn [mbind outcome_bind].
  destruct (Write_changes d kz 7 (MkVersion 1 0) (proj1 Hd)) as (d2 & E2 & _).
  rewrite E2. exact (no_marks_Write d kz 7 (MkVersion 1 0) d2 Hd Z.le_0_1 E2).
Qed.

(** The store holds 5 at [km]; transaction 2 wrote 1 to [kb]. *)
Definition base_m : GMemDB Z := OverlaySet (NewGMemDB Z) km 5.
Definition view_b : GMVMemoryView Z (GMemDB Z) :=
  MkView base_m 0 2 emptyReadSet (Some (OverlaySet (NewGMemDB Z) kb 1)).
Definition everything (asc : bool) : IteratorOptions := MkOptions None None asc.

Lemma view_b_resting asc : resting zero_value (no_zeros zero_value) 10 view_b deleted_m (everything asc).
Proof.
  pose proof deleted_m_no_marks as H. split.
  - apply H.
  - apply OverlaySet_wf, NewGMemDB_wf.
  - split; [apply OverlaySet_wf, NewGMemDB_wf|]. intros k v. cbn [v_storage view_b]. unfold base_m.
    rewrite OverlayGet_Set by apply NewGMemDB_wf. case_decide; [by intros [= <-]|]. by vm_compute.
  - intros k e He. by apply (proj2 H k).
  - by apply no_marks_estimates.
  - destruct asc; vm_compute; lia.
Qed.

Lemma view_iterate_refines_map_witness :
  ∃ s', view_iterate zero_value (λ _ w, w) 10 5 view_b deleted_m (everything false) = Returns (s', [(kz, 7); (kb, 1)]) ∧
    ∀ k, shows s' deleted_m k = shows view_b deleted_m k.
Proof.
  destruct (view_iterate_refines_map zero_value (no_zeros zero_value) (λ _ w, w) 10 view_b deleted_m (everything false)
    (view_b_resting false)) as (items & _ & _ & H).
  destruct (H 5%nat) as (s' & E & Hs & _). revert E. generalize (take 5 items). intros l E. exists s'. split; [|exact Hs]. rewrite E.
  vm_compute in E. injection E as _ <-. reflexivity.
Defined.

(** The caller closes at its own write of [kb]: the merge has by then read
    past the deletion of [km] to [kz], and only [kz] is dropped.  The memory
    has not changed, yet the transaction does not validate. *)
Lemma view_Close_validates_witness :
  ∃ s' desc, view_iterate zero_value (λ _ w, w) 10 0 view_b deleted_m (everything true) = Returns (s', []) ∧
    rs_Iterators (v_readSet s') = [desc] ∧ id_Stop desc = Some kb ∧ id_Reads desc = [MkRead km (MkVersion 1 0)] ∧
    validateIterator 10 deleted_m desc 2 = Returns false.
Proof.
  destruct (view_Close_validates zero_value (no_zeros zero_value) (λ _ w, w) 10 10 0 view_b deleted_m (everything true)
    (view_b_resting true) ltac:(vm_compute; lia)) as (s' & items & desc & E & Hi & _ & Hv & _).
  exists s', desc. vm_compute in E. injection E as <- <-. vm_compute in Hi. injection Hi as <-.
  split; [reflexivity|]. split; [reflexivity|]. split; [reflexivity|]. split; [reflexivity|]. exact Hv.
Defined.
End witnesses.
