(* ===== verification/MVMemory.v ===== *)
(** * mvmemory.go and multimvview.go: the memory of a block

    The memory keeps one multi-version store per key space and, per
    transaction, the locations its last incarnation wrote and the read set it
    recorded.  It uses the stores and the views only through the interfaces
    of types.go; [MVStore] and [MVView] are these, with laws in terms of the
    [slot]s of a store: which transaction has an entry for which key. *)

From Stdlib Require Import ZArith Lia.
From S2P Require Import Prelude Utils BTree BTreeIterator Types MemDB MVData MVDataFacts MVValidate MVProps MVView.
Local Open Scope Z_scope.

(** ** Interfaces *)

(** What a transaction's entry holds: a value, or the mark that one is to come. *)
Inductive content {X : Type} := Estimate | Value (x : X).
Arguments content : clear implicits.

Class MVStore (M St X : Type) := {
  ms_Delete : M → Bytes → Z → outcome M;
  ms_WriteEstimate : M → Bytes → Z → outcome M;
  ms_ValidateReadSet : M → Z → ReadSet → outcome bool;
  ms_SnapshotToStore : M → St → outcome St;
  (** observation: incarnation and content of a transaction's entry *)
  slot : M → Z → Bytes → option (Z * content X);
}.

Definition update_slot {A} (f : Z → Bytes → option A) (t : Z) (k : Bytes)
    (x : option A) : Z → Bytes → option A :=
  λ t' k', if decide (t' = t ∧ k' = k) then x else f t' k'.

Class MVStoreLaws (M St X : Type) `{!MVStore M St X} (ms_ok : M → Prop) : Prop := {
  ms_Delete_spec : ∀ m k t, ms_ok m →
    ∃ m', ms_Delete m k t = Returns m' ∧ ms_ok m' ∧
      ∀ t' k', slot m' t' k' = update_slot (slot m) t k None t' k';
  ms_WriteEstimate_spec : ∀ m k t, ms_ok m →
    ∃ m', ms_WriteEstimate m k t = Returns m' ∧ ms_ok m' ∧
      ∀ t' k', slot m' t' k' = update_slot (slot m) t k (Some (0, Estimate)) t' k';
}.

Class MVView (W M X : Type) := {
  mvv_ReadSet : W → ReadSet;
  mvv_ApplyWriteSet : W → M → TxnVersion → outcome (M * list Bytes);
  (** observation: the pending writes, in the order of their keys *)
  mvv_writes : W → list (Bytes * X);
}.

Section view_writes.
Context {W M X : Type} `{!MVView W M X}.

Definition mvv_keys (w : W) : list Bytes := (mvv_writes w).*1.

(** The value written to a key. *)
Definition mvv_value (w : W) : gmap Bytes X := list_to_map (mvv_writes w).

Lemma mvv_value_key w k : mvv_value w !! k ≠ None ↔ k ∈ mvv_keys w.
Proof.
  unfold mvv_value, mvv_keys. rewrite <- not_elem_of_list_to_map. destruct (decide (k ∈ (mvv_writes w).*1)); tauto.
Qed.
End view_writes.

Class MVViewLaws (W M St X : Type) `{!MVStore M St X, !MVView W M X} (ms_ok : M → Prop)
    (view_ok : W → Prop) : Prop := {
  mvv_keys_sorted : ∀ w, view_ok w → sorted_keys (mvv_keys w);
  mvv_ApplyWriteSet_spec : ∀ w m version, ms_ok m → view_ok w →
    ∃ m', mvv_ApplyWriteSet w m version = Returns (m', mvv_keys w) ∧ ms_ok m' ∧
      ∀ t k, slot m' t k =
        if decide (t = Index version ∧ k ∈ mvv_keys w)
        then (λ x, (Incarnation version, Value x)) <$> mvv_value w !! k else slot m t k;
}.

(** ** The memory *)

Section memory.
Context {MR : MapRange} {M W St X : Type} `{!MVStore M St X, !MVView W M X}.
Context {StoreKey : Type} `{!EqDecision StoreKey, !Countable StoreKey}.

Abbreviation Locations := (list Bytes).
Abbreviation MultiLocations := (gmap nat (list Bytes)).
Abbreviation MultiReadSet := (gmap nat ReadSet).

Record MVMemory := MkMVMemory {
  mv_stores : gmap StoreKey nat;
  mv_data : list (option M);
  lastWrittenLocations : list (option MultiLocations);
  lastReadSet : list (option MultiReadSet);
}.

(** [mv.data[i]], a non-nil store. *)
Definition GetMVStore (data : list (option M)) (i : nat) : outcome M :=
  deref (mjoin (data !! i)).

Definition on_store (data : list (option M)) (i : nat) (f : M → outcome M) :
    outcome (list (option M)) :=
  m ← GetMVStore data i;
  m' ← f m;
  Returns (<[i := Some m']> data).

Definition readLastWrittenLocations (mv : MVMemory) (txn : Z) : outcome MultiLocations :=
  p ← deref (at_index (lastWrittenLocations mv) txn);
  Returns (default ∅ p).

Definition set_data (mv : MVMemory) (data : list (option M)) : MVMemory :=
  MkMVMemory (mv_stores mv) data (lastWrittenLocations mv) (lastReadSet mv).

(** The callback of [DiffOrderedList], which never stops the diff. *)
Definition diff_callback (i : nat) (txn : Z) (key : Bytes) (is_new : bool)
    (s : outcome (list (option M) * bool)) : outcome (list (option M) * bool) * bool :=
  (('(data, wrote) ← s;
    if is_new then Returns (data, true)
    else data' ← on_store data i (λ m, ms_Delete m key txn); Returns (data', wrote)), true).

Definition delete_all (i : nat) (txn : Z) (data : list (option M)) (keys : Locations) :
    outcome (list (option M)) :=
  foldM (λ data key, on_store data i (λ m, ms_Delete m key txn)) data keys.

Definition rcu_touched (txn : Z) (prevLocations : MultiLocations)
    (s : list (option M) * bool) (new : nat * Locations) : outcome (list (option M) * bool) :=
  let '(i, newLoc) := new in
  match prevLocations !! i with
  | None => Returns (s.1, s.2 || bool_decide (newLoc ≠ []))
  | Some prevLoc => DiffOrderedList (diff_callback i txn) prevLoc newLoc (Returns s)
  end.

Definition rcu_untouched (txn : Z) (newLocations : MultiLocations)
    (data : list (option M)) (prev : nat * Locations) : outcome (list (option M)) :=
  let '(i, prevLoc) := prev in
  match newLocations !! i with
  | Some _ => Returns data
  | None => delete_all i txn data prevLoc
  end.

Definition rcuUpdateWrittenLocations (mv : MVMemory) (txn : Z) (newLocations : MultiLocations) :
    outcome (MVMemory * bool) :=
  prevLocations ← readLastWrittenLocations mv txn;
  '(data, wroteNewLocation) ←
    foldM (rcu_touched txn prevLocations) (mv_data mv, false) (range newLocations);
  data ← foldM (rcu_untouched txn newLocations) data (range prevLocations);
  (* delete all the keys in un-touched stores *)
  written ← deref (set_index (lastWrittenLocations mv) txn (Some newLocations));
  Returns (MkMVMemory (mv_stores mv) data written (lastReadSet mv), wroteNewLocation).

Definition estimate_all (txn : Z) (data : list (option M)) (l : nat * Locations) :
    outcome (list (option M)) :=
  foldM (λ data key, on_store data l.1 (λ m, ms_WriteEstimate m key txn)) data l.2.

Definition ConvertWritesToEstimates (mv : MVMemory) (txn : Z) : outcome MVMemory :=
  locations ← readLastWrittenLocations mv txn;
  data ← foldM (estimate_all txn) (mv_data mv) (range locations);
  Returns (set_data mv data).

Fixpoint validate_stores (data : list (option M)) (txn : Z) (rs : list (nat * ReadSet)) :
    outcome bool :=
  match rs with
  | [] => Returns true
  | (i, readSet) :: rest =>
      m ← GetMVStore data i;
      ok ← ms_ValidateReadSet m txn readSet;
      if negb ok then Returns false else validate_stores data txn rest
  end.

(** Panics when no [Record] was made for the transaction. *)
Definition mem_ValidateReadSet (mv : MVMemory) (txn : Z) : outcome bool :=
  p ← deref (at_index (lastReadSet mv) txn);
  rs ← deref p;
  validate_stores (mv_data mv) txn (range rs).

(** [storage.GetStore] is a map lookup that panics on an unknown name. *)
Definition WriteSnapshot (mv : MVMemory) (storage : gmap StoreKey St) :
    outcome (gmap StoreKey St) :=
  foldM (λ storage '(name, i),
    m ← GetMVStore (mv_data mv) i;
    st ← deref (storage !! name);
    st' ← ms_SnapshotToStore m st;
    Returns (<[name := st']> storage)) storage (range (mv_stores mv)).

Definition NewMVMemoryWithEstimates (newStore : StoreKey → M) (block_size : nat)
    (stores : gmap StoreKey nat) (estimates : list MultiLocations) : outcome MVMemory :=
  data ← foldM (λ data '(key, i), deref (set_index data (Z.of_nat i) (Some (newStore key))))
           (replicate (size stores) None) (range stores);
  foldM (λ mv '(txn, est),
    '(mv', _) ← rcuUpdateWrittenLocations mv (Z.of_nat txn) est;
    ConvertWritesToEstimates mv' (Z.of_nat txn))
    (MkMVMemory stores data (replicate block_size None) (replicate block_size None))
    (zip (seq 0 (length estimates)) estimates).

Definition NewMVMemory (newStore : StoreKey → M) (block_size : nat)
    (stores : gmap StoreKey nat) : outcome MVMemory :=
  NewMVMemoryWithEstimates newStore block_size stores [].

(** ** The view of a transaction over all stores *)

Record MultiMVMemoryView := MkMultiView {
  mm_stores : gmap StoreKey nat;
  mm_views : gmap StoreKey W;
  mm_newMVView : StoreKey → Z → W;
  mm_txn : Z;
}.

Definition NewMultiMVMemoryView (stores : gmap StoreKey nat) (newMVView : StoreKey → Z → W)
    (txn : Z) : MultiMVMemoryView := MkMultiView stores ∅ newMVView txn.

Definition set_view (mm : MultiMVMemoryView) (name : StoreKey) (w : W) : MultiMVMemoryView :=
  MkMultiView (mm_stores mm) (<[name := w]> (mm_views mm)) (mm_newMVView mm) (mm_txn mm).

Definition getViewOrInit (mm : MultiMVMemoryView) (name : StoreKey) : MultiMVMemoryView * W :=
  match mm_views mm !! name with
  | Some view => (mm, view)
  | None => let view := mm_newMVView mm name (mm_txn mm) in (set_view mm name view, view)
  end.

(** A name the memory does not know is at index 0, Go's zero value. *)
Definition store_index (mm : MultiMVMemoryView) (name : StoreKey) : nat :=
  default 0%nat (mm_stores mm !! name).

Definition multi_ReadSet (mm : MultiMVMemoryView) : MultiReadSet :=
  foldl (λ rs '(key, view), <[store_index mm key := mvv_ReadSet view]> rs) ∅ (range (mm_views mm)).

Definition multi_ApplyWriteSet (mm : MultiMVMemoryView) (data : list (option M))
    (version : TxnVersion) : outcome (list (option M) * MultiLocations) :=
  foldM (λ '(data, newLocations) '(key, view),
    let i := store_index mm key in
    m ← GetMVStore data i;
    '(m', locs) ← mvv_ApplyWriteSet view m version;
    Returns (<[i := Some m']> data, <[i := locs]> newLocations))
    (data, ∅) (range (mm_views mm)).

Definition View (mv : MVMemory) (newMVView : StoreKey → Z → W) (txn : Z) : MultiMVMemoryView :=
  NewMultiMVMemoryView (mv_stores mv) newMVView txn.

Definition Record_ (mv : MVMemory) (version : TxnVersion) (view : MultiMVMemoryView) :
    outcome (MVMemory * bool) :=
  '(data, newLocations) ← multi_ApplyWriteSet view (mv_data mv) version;
  '(mv', wroteNewLocation) ←
    rcuUpdateWrittenLocations (set_data mv data) (Index version) newLocations;
  reads ← deref (set_index (lastReadSet mv') (Index version) (Some (multi_ReadSet view)));
  Returns (MkMVMemory (mv_stores mv') (mv_data mv') (lastWrittenLocations mv') reads,
           wroteNewLocation).
End memory.
Arguments MVMemory _ _ {_ _}.
Arguments MultiMVMemoryView _ _ {_ _}.

Section memory_facts.
Context {MR : MapRange} {M W St X : Type} `{!MVStore M St X, !MVView W M X}.
Context {ms_ok : M → Prop} {view_ok : W → Prop} {ML : MVStoreLaws M St X ms_ok}
  {VL : MVViewLaws W M St X ms_ok view_ok}.
Context {StoreKey : Type} `{!EqDecision StoreKey, !Countable StoreKey}.
Abbreviation stores_data := (list (option M)).

Definition all_ok (data : stores_data) : Prop :=
  ∀ i, (i < length data)%nat → ∃ m, data !! i = Some (Some m) ∧ ms_ok m.

Definition slot_at (data : stores_data) (i : nat) (t : Z) (k : Bytes) : option (Z * content X) :=
  match mjoin (data !! i) with Some m => slot m t k | None => None end.

(** [data'] is [data] with the slots of [txn] selected by [p] set as [val] says. *)
Definition effect (txn : Z) (val : nat → Bytes → option (Z * content X)) (p : nat → Bytes → bool)
    (data data' : stores_data) : Prop :=
  all_ok data' ∧ length data' = length data ∧
  ∀ j t k, slot_at data' j t k =
    if decide (t = txn) then if p j k then val j k else slot_at data j t k else slot_at data j t k.

Lemma effect_id txn val p data :
  all_ok data → (∀ j k, p j k = false) → effect txn val p data data.
Proof. intros Hok Hp. repeat split; auto. intros j t k. rewrite Hp. by case_decide. Qed.

Lemma effect_trans txn val p1 p2 d1 d2 d3 :
  effect txn val p1 d1 d2 → effect txn val p2 d2 d3 →
  effect txn val (λ j k, p2 j k || p1 j k) d1 d3.
Proof.
  intros (H1 & L1 & S1) (H2 & L2 & S2). split; [done|]. split; [congruence|].
  intros j t k. rewrite S2, S1. by destruct (decide (t = txn)), (p1 j k), (p2 j k).
Qed.

Lemma effect_ext txn val p p' d d' :
  (∀ j k, p j k = p' j k) → effect txn val p d d' → effect txn val p' d d'.
Proof. intros Hp (H1 & L1 & S1). split; [done|]. split; [done|]. intros. by rewrite <- Hp. Qed.

Lemma on_store_effect data i f txn key val :
  all_ok data → (i < length data)%nat →
  (∀ m, ms_ok m → ∃ m', f m = Returns m' ∧ ms_ok m' ∧
     ∀ t k, slot m' t k = update_slot (slot m) txn key (val i key) t k) →
  ∃ data', on_store data i f = Returns data' ∧
    effect txn val (λ j k, bool_decide (j = i) && bool_decide (k = key)) data data'.
Proof.
  intros Hok Hi Hf. destruct (Hok i Hi) as (m & Hm & Hmok).
  destruct (Hf m Hmok) as (m' & Hf' & Hmok' & Hs).
  unfold on_store, GetMVStore. rewrite Hm. cbn. rewrite Hf'. cbn.
  eexists. split; [done|]. split; [|split].
  - intros j Hj. rewrite length_insert in Hj. destruct (decide (i = j)) as [->|Hne].
    + exists m'. by rewrite list_lookup_insert_eq.
    + rewrite list_lookup_insert_ne by done. by apply Hok.
  - apply length_insert.
  - intros j t k. unfold slot_at. destruct (decide (j = i)) as [->|Hne].
    + rewrite list_lookup_insert_eq, Hm by done. cbn. rewrite Hs. unfold update_slot.
      rewrite bool_decide_eq_true_2 by done. cbn.
      repeat (case_decide || case_bool_decide); destruct_and?; subst; try done; tauto.
    + rewrite list_lookup_insert_ne by done. rewrite bool_decide_eq_false_2 by done. cbn.
      by case_decide.
Qed.

(** Loops whose steps have such effects. *)
Lemma fold_effect {S A} (dat : S → stores_data) (flag : S → bool) (step : S → A → outcome S)
    (tgt : A → nat → Bytes → bool) (news : A → bool) txn val (l : list A) s :
  (∀ a s', a ∈ l → all_ok (dat s') → length (dat s') = length (dat s) →
     ∃ s'', step s' a = Returns s'' ∧ effect txn val (tgt a) (dat s') (dat s'') ∧
       flag s'' = flag s' || news a) →
  all_ok (dat s) →
  ∃ s', foldM step s l = Returns s' ∧
    effect txn val (λ j k, existsb (λ a, tgt a j k) l) (dat s) (dat s') ∧
    flag s' = flag s || existsb news l.
Proof.
  revert s; induction l as [|a l IH]; intros s Hstep Hok; simpl.
  { exists s. split; [done|]. rewrite orb_false_r. split; [by apply effect_id|done]. }
  destruct (Hstep a s ltac:(by left) Hok eq_refl) as (s1 & -> & He & Hf). cbn.
  destruct (IH s1) as (s2 & -> & He2 & Hf2).
  - intros b s' Hb Hok' Hlen. apply Hstep; [by right|done|].
    rewrite Hlen. by destruct He as (_ & -> & _).
  - by destruct He.
  - exists s2. split; [done|]. split; [|by rewrite Hf2, Hf, orb_assoc].
    eapply effect_ext; [|by eapply effect_trans]. intros j k. apply orb_comm.
Qed.

Lemma existsb_bool_decide {A} (p : A → bool) (l : list A) (P : Prop) `{!Decision P} :
  ((∃ a, a ∈ l ∧ p a = true) ↔ P) → existsb p l = bool_decide P.
Proof.
  intros H. apply eq_true_iff_eq. rewrite existsb_exists, bool_decide_eq_true.
  setoid_rewrite <- list_elem_of_In. done.
Qed.

Definition locs_at (l : gmap nat (list Bytes)) (i : nat) : list Bytes := default [] (l !! i).

Lemma range_elem {K} `{Countable K} {A} (m : gmap K A) k a : (k, a) ∈ range m ↔ m !! k = Some a.
Proof. rewrite range_perm. apply elem_of_map_to_list. Qed.

Lemma delete_all_effect data i txn keys :
  all_ok data → (i < length data)%nat →
  ∃ data', delete_all i txn data keys = Returns data' ∧
    effect txn (λ _ _, None) (λ j k, bool_decide (j = i) && bool_decide (k ∈ keys)) data data'.
Proof.
  intros Hok Hi. unfold delete_all.
  destruct (fold_effect (λ d, d) (λ _, false)
    (λ data key, on_store data i (λ m, ms_Delete m key txn))
    (λ key j k, bool_decide (j = i) && bool_decide (k = key)) (λ _, false) txn (λ _ _, None) keys data)
    as (data' & E & He & _); [|done|].
  - intros key d Hkey Hd Hlen.
    destruct (on_store_effect d i (λ m, ms_Delete m key txn) txn key (λ _ _, None) Hd) as (d' & E & He);
      [lia|by intros; apply ms_Delete_spec|eauto].
  - exists data'. split; [done|]. eapply effect_ext; [|done]. intros j k. cbn.
    case_bool_decide as Hj; cbn.
    + rewrite (existsb_bool_decide _ _ (k ∈ keys)); [done|].
      setoid_rewrite bool_decide_eq_true. naive_solver.
    + rewrite (existsb_bool_decide _ _ False); [done|]. naive_solver.
Qed.

Lemma DiffOrderedList_fold i txn prev new s :
  DiffOrderedList (diff_callback i txn) prev new (Returns s) =
    foldM (λ '(data, wrote) '(key, is_new),
      if (is_new : bool) then Returns (data, true)
      else data' ← on_store data i (λ m, ms_Delete m key txn); Returns (data', wrote))
      s (diff_list prev new).
Proof.
  rewrite DiffOrderedList_feed. revert s.
  assert (∀ l o, o = Panics ∨ o = Waits → (feed (diff_callback i txn) l o).1 = o) as Hstop.
  { induction l as [|[k b] l IH]; intros o [->| ->]; simpl; auto. }
  induction (diff_list prev new) as [|[k b] l IH]; intros [data wrote]; [done|].
  cbn [feed diff_callback foldM]. cbn.
  destruct b; [apply IH|].
  destruct (on_store data i _); cbn; [apply IH|apply Hstop; auto..].
Qed.

Lemma rcu_touched_effect txn prev i newLoc data wrote :
  all_ok data → sorted_keys newLoc →
  (∀ l, prev !! i = Some l → (i < length data)%nat ∧ sorted_keys l) →
  ∃ s', rcu_touched txn prev (data, wrote) (i, newLoc) = Returns s' ∧
    effect txn (λ _ _, None) (λ j k, bool_decide (j = i) &&
                            bool_decide (k ∈ locs_at prev i ∧ k ∉ newLoc)) data s'.1 ∧
    s'.2 = wrote || existsb (λ k, bool_decide (k ∉ locs_at prev i)) newLoc.
Proof.
  intros Hok Hnew Hprev. unfold rcu_touched, locs_at.
  destruct (prev !! i) as [l|]; simpl.
  2:{ eexists. split; [done|]. split.
      - apply effect_id; [done|]. intros j k. apply andb_false_r.
      - simpl. f_equal. by destruct newLoc. }
  destruct (Hprev l eq_refl) as [Hi Hl]. rewrite DiffOrderedList_fold.
  destruct (fold_effect (S := stores_data * bool) fst snd
    (λ '(data, wrote) '(key, is_new),
      if (is_new : bool) then Returns (data, true)
      else data' ← on_store data i (λ m, ms_Delete m key txn); Returns (data', wrote))
    (λ '(key, b) j k, negb b && (bool_decide (j = i) && bool_decide (k = key))) snd
    txn (λ _ _, None) (diff_list l newLoc) (data, wrote)) as (s' & E & He & Hf); [|done|].
  - intros [key b] [d w] _ Hd Hlen. cbn in *. destruct b.
    + exists (d, true). split; [done|]. split; [by apply effect_id|by rewrite orb_true_r].
    + destruct (on_store_effect d i (λ m, ms_Delete m key txn) txn key (λ _ _, None) Hd) as (d' & -> & He);
        [lia|by intros; apply ms_Delete_spec|].
      exists (d', w). split; [done|]. split; [done|by rewrite orb_false_r].
  - exists s'. split; [done|]. split; [|rewrite Hf].
    + eapply effect_ext; [|exact He]. intros j k. cbn.
      rewrite (existsb_bool_decide _ _ (j = i ∧ k ∈ l ∧ k ∉ newLoc)).
      * repeat case_bool_decide; try done; tauto.
      * split.
        -- intros ([key b] & Hin%diff_list_spec & Hb); [|done..].
           apply andb_prop in Hb as [Hb [Hj%bool_decide_eq_true Hk%bool_decide_eq_true]%andb_prop].
           subst. destruct b; naive_solver.
        -- intros (-> & H1 & H2). exists (k, false). rewrite diff_list_spec by done.
           rewrite !bool_decide_eq_true_2 by done. auto.
    + cbn. f_equal. apply eq_true_iff_eq. rewrite !existsb_exists.
      setoid_rewrite <- list_elem_of_In. split.
      * intros ([key b] & Hin%diff_list_spec & Hb); [|done..]. simpl in Hb. subst.
        exists key. rewrite bool_decide_eq_true. naive_solver.
      * intros (k & Hk & Hn%bool_decide_eq_true). exists (k, true).
        rewrite diff_list_spec by done. auto.
Qed.

(** What the memory remembers of a transaction's writes is what is in the stores. *)
Record tracks (mv : MVMemory M StoreKey) : Prop := {
  tr_ok : all_ok (mv_data mv);
  tr_locs : ∀ txn prev i l, readLastWrittenLocations mv txn = Returns prev →
    prev !! i = Some l → (i < length (mv_data mv))%nat ∧ sorted_keys l;
  tr_slots : ∀ txn prev, readLastWrittenLocations mv txn = Returns prev →
    ∀ i k, slot_at (mv_data mv) i txn k ≠ None ↔ k ∈ locs_at prev i;
}.

Lemma rcu_effect (mv : MVMemory M StoreKey) txn prev newLocs :
  readLastWrittenLocations mv txn = Returns prev →
  all_ok (mv_data mv) →
  (∀ i l, prev !! i = Some l → (i < length (mv_data mv))%nat ∧ sorted_keys l) →
  (∀ i l, newLocs !! i = Some l → sorted_keys l) →
  ∃ data wrote, rcuUpdateWrittenLocations mv txn newLocs =
      Returns (MkMVMemory (mv_stores mv) data
        (<[Z.to_nat txn := Some newLocs]> (lastWrittenLocations mv)) (lastReadSet mv), wrote) ∧
    effect txn (λ _ _, None) (λ i k, bool_decide (k ∈ locs_at prev i ∧ k ∉ locs_at newLocs i))
      (mv_data mv) data ∧
    (wrote = true ↔ ∃ i k, k ∈ locs_at newLocs i ∧ k ∉ locs_at prev i).
Proof.
  intros Hread Hok Hprev Hnew. unfold rcuUpdateWrittenLocations. rewrite Hread. cbn.
  destruct (fold_effect (S := stores_data * bool) fst snd (rcu_touched txn prev)
    (λ '(i, newLoc) j k, bool_decide (j = i) && bool_decide (k ∈ locs_at prev i ∧ k ∉ newLoc))
    (λ '(i, newLoc), existsb (λ k, bool_decide (k ∉ locs_at prev i)) newLoc) txn (λ _ _, None)
    (range newLocs) (mv_data mv, false)) as ([d1 w1] & -> & He1 & Hf1); [|done|].
  { intros [i newLoc] [d w] Hin%range_elem Hd Hlen. apply rcu_touched_effect; [done|by eapply Hnew|].
    intros l Hl. rewrite Hlen. by apply Hprev. }
  cbn in *. destruct (fold_effect (λ d, d) (λ _, false) (rcu_untouched txn newLocs)
    (λ '(i, prevLoc) j k, bool_decide (newLocs !! i = None) &&
                          (bool_decide (j = i) && bool_decide (k ∈ prevLoc)))
    (λ _, false) txn (λ _ _, None) (range prev) d1) as (d2 & -> & He2 & _); [|by destruct He1|].
  { intros [i prevLoc] d Hin%range_elem Hd Hlen. cbn. destruct (newLocs !! i).
    - exists d. split; [done|]. split; [by apply effect_id|done].
    - destruct (delete_all_effect d i txn prevLoc Hd) as (d' & E & He); [|by eauto].
      rewrite Hlen. destruct He1 as (_ & -> & _). by eapply Hprev. }
  cbn. assert (set_index (lastWrittenLocations mv) txn (Some newLocs) =
    Some (<[Z.to_nat txn := Some newLocs]> (lastWrittenLocations mv))) as ->.
  { unfold readLastWrittenLocations, at_index in Hread. unfold set_index.
    destruct (0 <=? txn) eqn:E0; [|done].
    destruct (lastWrittenLocations mv !! Z.to_nat txn) eqn:El; [|done].
    apply lookup_lt_Some in El. cbn. destruct (txn <? _) eqn:E; [done|]. bool_lia. }
  cbn. eexists _, _. split; [done|]. split.
  - eapply effect_ext; [|by eapply effect_trans]. intros j k. cbn.
    rewrite (existsb_bool_decide _ _ (k ∈ locs_at prev j ∧ newLocs !! j = None)).
    2:{ split.
        - intros ([i l] & Hin%range_elem & Hb). unfold locs_at.
          apply andb_prop in Hb as [H1%bool_decide_eq_true Hb].
          apply andb_prop in Hb as [->%bool_decide_eq_true H2%bool_decide_eq_true].
          by rewrite Hin.
        - unfold locs_at. intros [Hk Hn]. destruct (prev !! j) as [l|] eqn:E;
            [|by apply elem_of_nil in Hk].
          exists (j, l). rewrite range_elem. rewrite !bool_decide_eq_true_2 by done. done. }
    rewrite (existsb_bool_decide _ _ (newLocs !! j ≠ None ∧ k ∈ locs_at prev j ∧ k ∉ locs_at newLocs j)).
    2:{ split.
        - intros ([i l] & Hin%range_elem & Hb).
          apply andb_prop in Hb as [->%bool_decide_eq_true H2%bool_decide_eq_true].
          split; [by rewrite Hin|]. unfold locs_at at 2. rewrite Hin. done.
        - intros (Hn & Hk). unfold locs_at at 2 in Hk. destruct (newLocs !! j) as [l|] eqn:E; [|done].
          exists (j, l). rewrite range_elem. rewrite !bool_decide_eq_true_2 by done. done. }
    unfold locs_at. destruct (newLocs !! j) as [l|]; cbn.
    + repeat case_bool_decide; try done; naive_solver.
    + pose proof (not_elem_of_nil k). repeat case_bool_decide; try done; naive_solver.
  - rewrite Hf1. rewrite existsb_exists. setoid_rewrite <- list_elem_of_In. split.
    + intros ([i l] & Hin%range_elem & Hb). apply existsb_exists in Hb as (k & Hk & Hb).
      exists i, k. apply list_elem_of_In in Hk. apply bool_decide_eq_true in Hb.
      unfold locs_at at 1. by rewrite Hin.
    + intros (i & k & Hk & Hn). unfold locs_at in Hk at 1.
      destruct (newLocs !! i) as [l|] eqn:E; [|by apply elem_of_nil in Hk].
      exists (i, l). rewrite range_elem. split; [done|]. apply existsb_exists.
      exists k. rewrite <- list_elem_of_In. by rewrite bool_decide_eq_true_2.
Qed.

(** A view whose stores are stores of the memory. *)
Record multi_view_ok (n : nat) (mm : MultiMVMemoryView W StoreKey) : Prop := {
  mvo_view : ∀ name w, mm_views mm !! name = Some w →
    view_ok w ∧ ∃ i, mm_stores mm !! name = Some i ∧ (i < n)%nat;
  mvo_inj : ∀ n1 n2 i, mm_stores mm !! n1 = Some i → mm_stores mm !! n2 = Some i → n1 = n2;
}.

(** The view of the store at index [i]. *)
Definition views_at (mm : MultiMVMemoryView W StoreKey) (i : nat) (w : W) : Prop :=
  ∃ name, mm_views mm !! name = Some w ∧ mm_stores mm !! name = Some i.

(** What the transaction's views hold for each store, as a map. *)
Definition per_store {A} (f : W → A) (mm : MultiMVMemoryView W StoreKey) (l : gmap nat A) : Prop :=
  ∀ i a, l !! i = Some a ↔ ∃ w, views_at mm i w ∧ a = f w.

(** The keys the transaction wrote to each store. *)
Definition wrote_keys (mm : MultiMVMemoryView W StoreKey) : gmap nat (list Bytes) → Prop := per_store mvv_keys mm.

(** The value it wrote to a key of a store. *)
Definition value_at (values : gmap nat (gmap Bytes X)) (i : nat) (k : Bytes) : option X := default ∅ (values !! i) !! k.

(** The views of the first stores of the enumeration, as a map. *)
Definition per_store_in {A} (f : W → A) (mm : MultiMVMemoryView W StoreKey) (done : list (StoreKey * W)) (l : gmap nat A) : Prop :=
  ∀ i a, l !! i = Some a ↔ ∃ name w, (name, w) ∈ done ∧ mm_stores mm !! name = Some i ∧ a = f w.

Lemma per_store_in_nil {A} (f : W → A) mm : per_store_in f mm [] ∅.
Proof. intros i a. rewrite lookup_empty. split; [done|]. by intros (? & ? & ?%elem_of_nil & _). Qed.

Lemma per_store_in_snoc {A} (f : W → A) n mm done name w i l : multi_view_ok n mm →
  NoDup (done ++ [(name, w)]).*1 → mm_stores mm !! name = Some i → per_store_in f mm done l →
  l !! i = None ∧ per_store_in f mm (done ++ [(name, w)]) (<[i := f w]> l).
Proof.
  intros Hmm Hnd Hi Hl. rewrite fmap_app in Hnd. apply NoDup_app in Hnd as (_ & Hnd & _).
  assert (∀ name' w', (name', w') ∈ done → mm_stores mm !! name' ≠ Some i) as Hfresh.
  { intros name' w' Hin Hi'. pose proof (mvo_inj _ _ Hmm _ _ _ Hi Hi') as <-.
    apply (Hnd name); [by apply (list_elem_of_fmap_2 fst _ (name, w'))|by left]. }
  split.
  { apply eq_None_not_Some. intros [a (name' & w' & Hin & Hi' & _)%Hl]. by apply (Hfresh name' w'). }
  intros j a. destruct (decide (j = i)) as [->|Hne].
  - rewrite lookup_insert_eq. split.
    + intros [= <-]. exists name, w. set_solver.
    + intros (name' & w' & Hin & Hi' & ->). apply elem_of_app in Hin as [Hin|Hin]; [by destruct (Hfresh name' w')|].
      by apply list_elem_of_singleton in Hin as [= -> ->].
  - rewrite lookup_insert_ne by done. rewrite (Hl j a). split.
    + intros (name' & w' & Hin & H'). exists name', w'. set_solver.
    + intros (name' & w' & [Hin|Hin]%elem_of_app & Hi' & ->); [eauto 6|].
      apply list_elem_of_singleton in Hin as [= -> ->]. congruence.
Qed.

Lemma per_store_in_all {A} (f : W → A) n mm l : multi_view_ok n mm →
  per_store_in f mm (range (mm_views mm)) l → per_store f mm l.
Proof.
  intros Hmm Hl i a. rewrite (Hl i a). unfold views_at. setoid_rewrite range_elem. naive_solver.
Qed.

Lemma wrote_value_key mm newLocs values i k :
  wrote_keys mm newLocs → per_store mvv_value mm values → value_at values i k ≠ None ↔ k ∈ locs_at newLocs i.
Proof.
  intros Hn Hv. unfold value_at, locs_at. destruct (newLocs !! i) as [keys|] eqn:E.
  - apply Hn in E as (w & Hw & ->). assert (values !! i = Some (mvv_value w)) as -> by (apply Hv; eauto).
    apply mvv_value_key.
  - destruct (values !! i) as [v|] eqn:Ev.
    + apply Hv in Ev as (w & Hw & ->). assert (newLocs !! i = Some (mvv_keys w)) by (apply Hn; eauto). congruence.
    + cbn. rewrite lookup_empty. split; [done|]. by intros ?%elem_of_nil.
Qed.

Lemma multi_view_elem n mm done name w rest : multi_view_ok n mm → range (mm_views mm) = (done ++ [(name, w)]) ++ rest →
  NoDup (done ++ [(name, w)]).*1 ∧ view_ok w ∧ ∃ i, mm_stores mm !! name = Some i ∧ (i < n)%nat.
Proof.
  intros Hmm Hpre. split.
  - assert (NoDup (fst <$> range (mm_views mm))) as Hnd by (rewrite range_perm; apply NoDup_fst_map_to_list).
    rewrite Hpre, fmap_app in Hnd. by apply NoDup_app in Hnd as [Hnd _].
  - apply (mvo_view _ _ Hmm name w). apply range_elem. rewrite Hpre. set_solver.
Qed.

Lemma multi_ApplyWriteSet_effect mm data version :
  all_ok data → multi_view_ok (length data) mm →
  ∃ data' newLocs values, multi_ApplyWriteSet mm data version = Returns (data', newLocs) ∧
    effect (Index version) (λ i k, (λ x, (Incarnation version, Value x)) <$> value_at values i k)
      (λ i k, bool_decide (k ∈ locs_at newLocs i)) data data' ∧
    wrote_keys mm newLocs ∧ per_store mvv_value mm values.
Proof.
  intros Hok Hmm. unfold multi_ApplyWriteSet.
  set (P := λ (dn : list (StoreKey * W)) (s : stores_data * gmap nat (list Bytes)), ∃ values,
    effect (Index version) (λ i k, (λ x, (Incarnation version, Value x)) <$> value_at values i k)
      (λ i k, bool_decide (k ∈ locs_at s.2 i)) data s.1 ∧
    per_store_in mvv_keys mm dn s.2 ∧ per_store_in mvv_value mm dn values).
  destruct (foldM_inv (λ '(data, newLocations) '(key, view),
    let i := store_index mm key in
    m ← GetMVStore data i;
    '(m', locs) ← mvv_ApplyWriteSet view m version;
    Returns (<[i := Some m']> data, <[i := locs]> newLocations)) P (range (mm_views mm)) (data, ∅))
    as ([data' newLocs] & E & values & HP & Hw & Hv).
  - exists ∅. split; [by apply effect_id|]. split; apply per_store_in_nil.
  - intros dn [name w] [d locs] [rest Hpre] (values & He & Hlocs & Hvalues). cbn in He, Hlocs.
    destruct (multi_view_elem _ _ _ _ _ _ Hmm Hpre) as (Hnd & Hwok & i & Hi & Hlt).
    destruct (per_store_in_snoc mvv_keys _ _ _ _ _ _ _ Hmm Hnd Hi Hlocs) as [Hnew Hlocs'].
    destruct (per_store_in_snoc mvv_value _ _ _ _ _ _ _ Hmm Hnd Hi Hvalues) as [Hnewv Hvalues'].
    unfold store_index. rewrite Hi. cbn.
    destruct He as (Hdok & Hlen & Hs). destruct (Hdok i ltac:(congruence)) as (m & Hm & Hmok).
    unfold GetMVStore. rewrite Hm. cbn.
    destruct (mvv_ApplyWriteSet_spec w m version Hmok Hwok) as (m' & -> & Hmok' & Hsl). cbn.
    eexists. split; [done|]. exists (<[i := mvv_value w]> values). split; [|by split]. cbn.
    split; [|split].
    + intros j Hj. rewrite length_insert in Hj. destruct (decide (i = j)) as [->|Hne].
      * exists m'. by rewrite list_lookup_insert_eq.
      * rewrite list_lookup_insert_ne by done. by apply Hdok.
    + by rewrite length_insert.
    + intros j t k. unfold slot_at at 1, locs_at, value_at. destruct (decide (j = i)) as [->|Hne].
      * rewrite list_lookup_insert_eq, !lookup_insert_eq by congruence. cbn. rewrite Hsl.
        specialize (Hs i t k). unfold slot_at at 1, locs_at in Hs. rewrite Hm, Hnew in Hs.
        cbn in Hs. rewrite Hs. pose proof (not_elem_of_nil k).
        repeat (case_decide || case_bool_decide); try done; tauto.
      * rewrite list_lookup_insert_ne, !lookup_insert_ne by done. apply Hs.
  - exists data', newLocs, values. split; [exact E|]. split; [exact HP|].
    split; by eapply per_store_in_all.
Qed.

(** The read sets of the views, under the indices of their stores. *)
Lemma multi_ReadSet_per_store n mm : multi_view_ok n mm → per_store mvv_ReadSet mm (multi_ReadSet mm).
Proof.
  intros Hmm. apply (per_store_in_all _ n); [done|]. unfold multi_ReadSet.
  assert (∀ dn rest, range (mm_views mm) = dn ++ rest →
    per_store_in mvv_ReadSet mm dn (foldl (λ rs '(key, view), <[store_index mm key := mvv_ReadSet view]> rs) ∅ dn)) as H.
  { induction dn as [|[name w] dn IH] using rev_ind; intros rest Hpre; [apply per_store_in_nil|].
    rewrite foldl_app. cbn. destruct (multi_view_elem _ _ _ _ _ _ Hmm Hpre) as (Hnd & _ & i & Hi & _).
    unfold store_index at 1. rewrite Hi. cbn [default from_option id].
    eapply per_store_in_snoc; [done..|]. apply (IH ([(name, w)] ++ rest)). by rewrite Hpre, <- app_assoc. }
  apply (H _ []). by rewrite app_nil_r.
Qed.

Lemma readLast_set (mv : MVMemory M StoreKey) (data : stores_data) rs txn txn' prev new :
  readLastWrittenLocations mv txn = Returns prev →
  readLastWrittenLocations (MkMVMemory (mv_stores mv) data
    (<[Z.to_nat txn := Some new]> (lastWrittenLocations mv)) rs) txn' =
  if decide (txn' = txn) then Returns new else readLastWrittenLocations mv txn'.
Proof.
  unfold readLastWrittenLocations, at_index. cbn. intros Hr.
  destruct (0 <=? txn) eqn:E; [|done].
  destruct (lastWrittenLocations mv !! Z.to_nat txn) as [p|] eqn:El; [|done].
  apply lookup_lt_Some in El. destruct (decide (txn' = txn)) as [->|Hne].
  - rewrite E. cbn. by rewrite list_lookup_insert_eq.
  - destruct (0 <=? txn') eqn:E'; [|done]. rewrite list_lookup_insert_ne; [done|]. bool_lia.
Qed.

Lemma estimate_all_effect data txn l :
  all_ok data → (∀ i keys, (i, keys) ∈ l → (i < length data)%nat) →
  ∃ data', foldM (estimate_all txn) data l = Returns data' ∧
    effect txn (λ _ _, Some (0, Estimate))
      (λ j k, existsb (λ x, bool_decide (j = x.1) && bool_decide (k ∈ x.2)) l) data data'.
Proof.
  intros Hok Hl.
  destruct (fold_effect (λ d, d) (λ _, false) (estimate_all txn)
    (λ x j k, bool_decide (j = x.1) && bool_decide (k ∈ x.2)) (λ _, false) txn
    (λ _ _, Some (0, Estimate)) l data) as (data' & E & He & _); [|done|eauto].
  intros [i keys] d Hin Hd Hlen. unfold estimate_all. cbn.
  destruct (fold_effect (λ d, d) (λ _, false)
    (λ data key, on_store data i (λ m, ms_WriteEstimate m key txn))
    (λ key j k, bool_decide (j = i) && bool_decide (k = key)) (λ _, false) txn (λ _ _, Some (0, Estimate))
    keys d) as (d' & E & He & _); [|done|].
  - intros key d1 Hkey Hd1 Hlen1.
    destruct (on_store_effect d1 i (λ m, ms_WriteEstimate m key txn) txn key (λ _ _, Some (0, Estimate)) Hd1)
      as (d' & E & He); [rewrite Hlen1, Hlen; by eapply Hl|by intros; apply ms_WriteEstimate_spec|eauto].
  - exists d'. split; [done|]. split; [|done]. eapply effect_ext; [|done]. intros j k. cbn.
    case_bool_decide as Hj; cbn.
    + rewrite (existsb_bool_decide _ _ (k ∈ keys)); [done|].
      setoid_rewrite bool_decide_eq_true. naive_solver.
    + rewrite (existsb_bool_decide _ _ False); [done|]. naive_solver.
Qed.

Lemma Convert_effect (mv : MVMemory M StoreKey) txn prev :
  all_ok (mv_data mv) → readLastWrittenLocations mv txn = Returns prev →
  (∀ i l, prev !! i = Some l → (i < length (mv_data mv))%nat) →
  ∃ data', ConvertWritesToEstimates mv txn = Returns (set_data mv data') ∧
    effect txn (λ _ _, Some (0, Estimate)) (λ j k, bool_decide (k ∈ locs_at prev j)) (mv_data mv) data'.
Proof.
  intros Hok Hr Hl. unfold ConvertWritesToEstimates. rewrite Hr. cbn.
  destruct (estimate_all_effect (mv_data mv) txn (range prev) Hok) as (data' & -> & He).
  { intros i keys Hin%range_elem. by eapply Hl. }
  exists data'. split; [done|]. eapply effect_ext; [|done]. intros j k. cbn.
  apply existsb_bool_decide. unfold locs_at. split.
  - intros ([i l] & Hin%range_elem & Hb).
    apply andb_prop in Hb as [->%bool_decide_eq_true H2%bool_decide_eq_true].
    cbn in *. by rewrite Hin.
  - intros Hk. destruct (prev !! j) as [l|] eqn:E; [|by apply elem_of_nil in Hk].
    exists (j, l). rewrite range_elem. cbn. by rewrite !bool_decide_eq_true_2.
Qed.
End memory_facts.

(** ** The stores and views of mvdata.go and mvview.go *)

Section instances.
Context {BT : BTreeLib} {BL : BTreeLaws} {V : Type} `{!GoZero V} (isZero : V → bool).
Context {St : Type} `{!KVStore St V}.

Definition entry_slot (e : secondaryDataItem V) : Z * content V :=
  (s_Incarnation e, if s_Estimate e then Estimate else Value (s_Value e)).

Definition gmv_slot (m : GMVData V) (t : Z) (k : Bytes) : option (Z * content V) :=
  entry_slot <$>
    findb (same secondaryLesser (txn_item t)) (entries m k).

Definition gmv_store : MVStore (GMVData V) St V := {|
  ms_Delete m k t := MVDelete m k t;
  ms_WriteEstimate m k t := WriteEstimate m k t;
  ms_ValidateReadSet m t rs := ValidateReadSet (S (length (Scan (outer m)))) m t rs;
  ms_SnapshotToStore m st := SnapshotToStore isZero m st;
  slot := gmv_slot;
|}.

Definition gmv_view : MVView (GMVMemoryView V St) (GMVData V) V := {|
  mvv_ReadSet w := v_readSet w;
  mvv_ApplyWriteSet w m version := ApplyWriteSet w m version;
  mvv_writes w := from_option (λ ws, (λ item, (mi_key item, mi_value item)) <$> bt_Scan ws) [] (v_writeSet w);
|}.

Lemma same_txn_item (e : secondaryDataItem V) t :
  same secondaryLesser (txn_item t) e = bool_decide (t = s_Index e).
Proof. by rewrite same_txn. Qed.

Lemma slot_put (m m' : GMVData V) k e t k' :
  mv_wf m → changes_entries m k (put_entry e) m' →
  gmv_slot m' t k' =
    update_slot (gmv_slot m) (s_Index e) k (Some (entry_slot e)) t k'.
Proof.
  intros Hwf (_ & He & _). unfold gmv_slot, update_slot. rewrite He.
  destruct (decide (k' = k)) as [->|Hk]; [|rewrite decide_False by tauto; done].
  unfold put_entry. rewrite findb_ins by (apply _ || by apply entries_sorted).
  rewrite same_txn_item. case_bool_decide; case_decide; try done; naive_solver.
Qed.

Lemma slot_drop (m m' : GMVData V) k txn t k' :
  mv_wf m → changes_entries m k (drop_entry txn) m' →
  gmv_slot m' t k' = update_slot (gmv_slot m) txn k None t k'.
Proof.
  intros Hwf (_ & He & _). unfold gmv_slot, update_slot. rewrite He.
  destruct (decide (k' = k)) as [->|Hk]; [|rewrite decide_False by tauto; done].
  unfold drop_entry. rewrite findb_del by (apply _ || by apply entries_sorted).
  rewrite same_txn_item. simpl. case_bool_decide; case_decide; try done; naive_solver.
Qed.

Lemma gmv_store_laws : @MVStoreLaws (GMVData V) St V gmv_store mv_wf.
Proof.
  split; simpl.
  - intros m k t Hwf. destruct (MVDelete_changes m k t Hwf) as (m' & E & Hc).
    exists m'. split; [done|]. split; [apply Hc|]. intros. by apply slot_drop.
  - intros m k t Hwf. destruct (WriteEstimate_changes m k t Hwf) as (m' & E & Hc).
    exists m'. split; [done|]. split; [apply Hc|]. intros. by apply (slot_put _ _ _ (estimate_entry t)).
Qed.

(** Writing a list of items in order. *)
Lemma write_items version (items : list (memdbItem V)) m locs : mv_wf m → NoDup (mi_key <$> items) →
  ∃ m', foldM (λ '(m, newLocations) '(key, value),
      m' ← Write m key value version; Returns (m', newLocations ++ [key])) (m, locs)
      ((λ item, (mi_key item, mi_value item)) <$> items) = Returns (m', locs ++ (mi_key <$> items)) ∧ mv_wf m' ∧
    ∀ t k, gmv_slot m' t k =
      if decide (t = Index version ∧ k ∈ mi_key <$> items)
      then (λ x, (Incarnation version, Value x)) <$>
        (list_to_map ((λ item, (mi_key item, mi_value item)) <$> items) : gmap Bytes V) !! k
      else gmv_slot m t k.
Proof.
  revert m locs. induction items as [|x items IH]; intros m locs Hwf Hnd.
  { exists m. rewrite app_nil_r. split; [done|]. split; [done|]. intros t k.
    rewrite decide_False; [done|]. intros [_ H]. by apply elem_of_nil in H. }
  rewrite !fmap_cons in *. apply NoDup_cons in Hnd as [Hx Hnd]. cbn [foldM].
  destruct (Write_changes m (mi_key x) (mi_value x) version Hwf) as (m1 & -> & Hc). cbn [mbind outcome_bind].
  destruct (IH m1 (locs ++ [mi_key x])) as (m' & E' & Hwf' & Hs); [apply Hc|done|].
  exists m'. rewrite <- app_assoc in E'. split; [exact E'|]. split; [done|]. intros t k. rewrite Hs.
  rewrite (slot_put m m1 (mi_key x) (value_entry (mi_value x) version)) by done.
  unfold update_slot. cbn [value_entry s_Index]. pose proof (elem_of_cons (mi_key <$> items) k (mi_key x)) as Hcons.
  rewrite list_to_map_cons. destruct (decide (k = mi_key x)) as [->|Hk].
  - rewrite lookup_insert_eq. rewrite (decide_False (P := t = Index version ∧ mi_key x ∈ mi_key <$> items)) by tauto.
    repeat case_decide; try done; tauto.
  - rewrite lookup_insert_ne by done. repeat case_decide; try done; tauto.
Qed.

Lemma gmv_writes_sorted (w : GMVMemoryView V St) : view_wf w → sorted_keys (@mvv_keys _ _ _ gmv_view w).
Proof.
  intros Hw. unfold mvv_keys. cbn. destruct (v_writeSet w) as [ws|] eqn:E; cbn; [|constructor].
  unfold view_wf in Hw. rewrite E in Hw. simpl in Hw. unfold mem_wf in Hw.
  induction Hw as [|x l Hl IH Hx]; simpl; constructor; [done|].
  rewrite <- list_fmap_compose, Forall_fmap. eapply Forall_impl; [exact Hx|]. intros y Hy. by apply KeyItemLess_lt in Hy.
Qed.

Lemma gmv_view_laws :
  @MVViewLaws (GMVMemoryView V St) (GMVData V) St V gmv_store gmv_view mv_wf view_wf.
Proof.
  split; [apply gmv_writes_sorted|]. intros w m version Hwf Hw.
  assert (NoDup (@mvv_keys _ _ _ gmv_view w)) as Hnd by (eapply StronglySorted_NoDup; [|by apply gmv_writes_sorted]; intros ?; apply bytes_lt_irrefl).
  unfold mvv_keys, mvv_value in *. cbn [mvv_ApplyWriteSet mvv_writes gmv_view slot gmv_store] in *. unfold ApplyWriteSet.
  assert (∀ A (x y : A) t k, (if decide (t = Index version ∧ k ∈ @nil Bytes) then x else y) = y) as Hnil.
  { intros. rewrite decide_False; [done|]. by intros [_ ?%elem_of_nil]. }
  destruct (v_writeSet w) as [ws|] eqn:E; cbn [from_option fmap list_fmap] in *.
  2:{ exists m. split; [done|]. split; [done|]. intros t k. by rewrite Hnil. }
  rewrite Len_Scan. unfold mem_Scan. rewrite <- list_fmap_compose in *. change (fst ∘ (λ item, (mi_key item, mi_value item))) with (@mi_key V) in *.
  case_decide as Hlen.
  { apply length_zero_iff_nil in Hlen. rewrite Hlen. exists m. split; [done|]. split; [done|]. intros t k. by rewrite Hnil. }
  by apply (write_items version (bt_Scan ws) m []).
Qed.
End instances.

Section properties.
Context {MR : MapRange} {M W St X : Type} `{!MVStore M St X, !MVView W M X}.
Context {ms_ok : M → Prop} {view_ok : W → Prop} {ML : MVStoreLaws M St X ms_ok}
  {VL : MVViewLaws W M St X ms_ok view_ok}.
Context {StoreKey : Type} `{!EqDecision StoreKey, !Countable StoreKey}.
Implicit Types (mv : MVMemory M StoreKey) (mm : MultiMVMemoryView W StoreKey).

Lemma set_lastReadSet mv txn prev (rs : gmap nat ReadSet) :
  readLastWrittenLocations mv txn = Returns prev → length (lastReadSet mv) = length (lastWrittenLocations mv) →
  set_index (lastReadSet mv) txn (Some rs) = Some (<[Z.to_nat txn := Some rs]> (lastReadSet mv)).
Proof.
  intros Hread Hlen. unfold readLastWrittenLocations, at_index in Hread. unfold set_index. rewrite Hlen.
  destruct (0 <=? txn) eqn:E0; [|done].
  destruct (lastWrittenLocations mv !! _) eqn:El; [|done].
  apply lookup_lt_Some in El. cbn. destruct (txn <? _) eqn:E; [done|]. bool_lia.
Qed.

(** Writing the new locations and then deleting the ones left over leaves the
    transaction with what it has written. *)
Lemma recorded_own data d1 d2 version mm prev newLocs values :
  (∀ i k, slot_at data i (Index version) k ≠ None ↔ k ∈ locs_at prev i) →
  wrote_keys mm newLocs → per_store mvv_value mm values →
  effect (ms_ok := ms_ok) (Index version) (λ i k, (λ x, (Incarnation version, Value x)) <$> value_at values i k)
    (λ i k, bool_decide (k ∈ locs_at newLocs i)) data d1 →
  effect (ms_ok := ms_ok) (Index version) (λ _ _, None)
    (λ i k, bool_decide (k ∈ locs_at prev i ∧ k ∉ locs_at newLocs i)) d1 d2 →
  (∀ i k, slot_at d2 i (Index version) k = (λ x, (Incarnation version, Value x)) <$> value_at values i k) ∧
  (∀ i txn k, txn ≠ Index version → slot_at d2 i txn k = slot_at data i txn k).
Proof.
  intros Hslots Hw Hv (_ & _ & Hs1) (_ & _ & Hs2). split.
  - intros i k. rewrite Hs2, Hs1, !decide_True by done.
    pose proof (Hslots i k) as Hp. pose proof (wrote_value_key mm newLocs values i k Hw Hv) as Hk.
    case_bool_decide as Hb.
    + destruct (value_at values i k); [|done]. exfalso. apply Hb, Hk. done.
    + case_bool_decide as Hb'; [done|]. destruct (value_at values i k); [by destruct Hb'; apply Hk|].
      destruct (slot_at data i (Index version) k); [|done]. exfalso.
      apply Hb. split; [by apply Hp|done].
  - intros i txn k Hne. by rewrite Hs2, Hs1, !decide_False.
Qed.

(** C11: [Record] makes the stores hold exactly the writes of the incarnation
    just executed, and remembers its reads: afterwards the transaction has an entry at the keys its views
    wrote, with its incarnation and the value written, and at no others;
    the entries of the other transactions are untouched; the remembered
    locations are the keys and the stored read sets the read sets of its views, store by store,
    the other transactions' staying as they were; and it answers [true] exactly when some
    location was not written by the previous incarnation.  The order in which
    the maps are enumerated does not matter. *)
Theorem Record_exact mv version mm prev :
  tracks (ms_ok := ms_ok) mv → multi_view_ok (view_ok := view_ok) (length (mv_data mv)) mm →
  readLastWrittenLocations mv (Index version) = Returns prev →
  length (lastReadSet mv) = length (lastWrittenLocations mv) →
  ∃ mv' wrote newLocs values reads, Record_ mv version mm = Returns (mv', wrote) ∧
    tracks (ms_ok := ms_ok) mv' ∧ mv_stores mv' = mv_stores mv ∧
    wrote_keys mm newLocs ∧ per_store mvv_value mm values ∧ per_store mvv_ReadSet mm reads ∧
    (∀ txn, readLastWrittenLocations mv' txn =
       if decide (txn = Index version) then Returns newLocs else readLastWrittenLocations mv txn) ∧
    lastReadSet mv' = <[Z.to_nat (Index version) := Some reads]> (lastReadSet mv) ∧
    (∀ i k, slot_at (mv_data mv') i (Index version) k =
       (λ x, (Incarnation version, Value x)) <$> value_at values i k) ∧
    (∀ i txn k, txn ≠ Index version →
       slot_at (mv_data mv') i txn k = slot_at (mv_data mv) i txn k) ∧
    (wrote = true ↔ ∃ i k, k ∈ locs_at newLocs i ∧
       slot_at (mv_data mv) i (Index version) k = None).
Proof.
  intros [Hok Hlocs Hslots] Hmm Hread Hlen. unfold Record_.
  destruct (multi_ApplyWriteSet_effect mm (mv_data mv) version Hok Hmm)
    as (d1 & newLocs & values & -> & (Hok1 & Hlen1 & Hs1) & Hw & Hv). cbn.
  assert (∀ i l, newLocs !! i = Some l → (i < length d1)%nat ∧ sorted_keys l) as Hnew.
  { intros i l (w & (name & Hvw & Hi) & ->)%Hw.
    destruct (mvo_view _ _ Hmm name w Hvw) as (Hwok & j & Hj & Hlt).
    rewrite Hlen1. replace i with j by congruence. split; [done|].
    by apply (mvv_keys_sorted (St := St) (ms_ok := ms_ok) (view_ok := view_ok)). }
  destruct (rcu_effect (set_data mv d1) (Index version) prev newLocs Hread Hok1)
    as (d2 & wrote & -> & He2 & Hwrote).
  { intros i l Hl. cbn. rewrite Hlen1. by eapply Hlocs. }
  { intros i l Hl. by eapply Hnew. }
  cbn [mbind outcome_bind set_data lastReadSet]. erewrite set_lastReadSet by done. cbn [deref mbind outcome_bind].
  destruct (recorded_own (mv_data mv) d1 d2 version mm prev newLocs values (Hslots _ _ Hread) Hw Hv) as [Hown Hoth]; [done..|].
  destruct He2 as (Hok2 & Hlen2 & _). cbn in Hlen2.
  assert (∀ txn, readLastWrittenLocations (MkMVMemory (mv_stores mv) d2
      (<[Z.to_nat (Index version) := Some newLocs]> (lastWrittenLocations mv))
      (<[Z.to_nat (Index version) := Some (multi_ReadSet mm)]> (lastReadSet mv))) txn =
    if decide (txn = Index version) then Returns newLocs else readLastWrittenLocations mv txn) as Hrl.
  { intros txn. by eapply readLast_set. }
  eexists _, wrote, newLocs, values, (multi_ReadSet mm). split; [done|]. split; [split|].
  - done.
  - intros txn p i l. rewrite Hrl. cbn. rewrite Hlen2. case_decide as Hd.
    + intros [= <-]. apply Hnew.
    + rewrite Hlen1. apply Hlocs.
  - intros txn p. rewrite Hrl. cbn. case_decide as Hd; [subst|].
    + intros [= <-] i k. rewrite Hown, <- (wrote_value_key mm newLocs values i k Hw Hv). by destruct (value_at values i k).
    + intros Hp i k. rewrite Hoth by done. by apply Hslots.
  - split; [done|]. split; [done|]. split; [done|]. split; [by eapply multi_ReadSet_per_store|].
    split; [exact Hrl|]. split; [done|]. split; [exact Hown|]. split; [exact Hoth|].
    rewrite Hwrote. pose proof (Hslots _ _ Hread) as Hp. cbn. split.
    + intros (i & k & Hk & Hn). exists i, k. split; [done|].
      destruct (slot_at _ _ _ _) eqn:E; [|done]. exfalso. apply Hn, Hp. by rewrite E.
    + intros (i & k & Hk & Hn). exists i, k. split; [done|]. rewrite <- Hp, Hn. tauto.
Qed.

(** [ConvertWritesToEstimates] turns every entry of the transaction into
    an ESTIMATE, in every store, and touches no other entry; the memory still
    remembers the same locations. *)
Lemma ConvertWritesToEstimates_exact mv txn prev :
  tracks (ms_ok := ms_ok) mv → readLastWrittenLocations mv txn = Returns prev →
  ∃ mv', ConvertWritesToEstimates mv txn = Returns mv' ∧ tracks (ms_ok := ms_ok) mv' ∧
    lastWrittenLocations mv' = lastWrittenLocations mv ∧
    ∀ i t k, slot_at (mv_data mv') i t k =
      if decide (t = txn ∧ slot_at (mv_data mv) i t k ≠ None) then Some (0, Estimate)
      else slot_at (mv_data mv) i t k.
Proof.
  intros [Hok Hlocs Hslots] Hread.
  destruct (Convert_effect mv txn prev Hok Hread) as (d & -> & (Hok' & Hlen & Hs)).
  { intros i l Hl. by eapply Hlocs. }
  assert (∀ i t k, slot_at d i t k =
      if decide (t = txn ∧ slot_at (mv_data mv) i t k ≠ None) then Some (0, Estimate)
      else slot_at (mv_data mv) i t k) as Hs'.
  { intros i t k. rewrite Hs. pose proof (Hslots _ _ Hread i k) as Hp.
    repeat (case_decide || case_bool_decide); subst; try done; tauto. }
  exists (set_data mv d). split; [done|]. split; [split; cbn|].
  - done.
  - intros t p i l. rewrite Hlen. apply Hlocs.
  - intros t p Hp i k. rewrite Hs'. rewrite <- (Hslots t p Hp i k). case_decide; [|done].
    split; intros; [tauto|done].
  - split; [done|]. exact Hs'.
Qed.
End properties.

(** ** A concrete memory *)

Section witnesses.
#[local] Existing Instance ListTree.
#[local] Existing Instance ListTree_laws.
#[local] Instance memory_base : KVStore (GMemDB Z) Z := memdb_store zero_value.
#[local] Instance memory_store : MVStore (GMVData Z) (GMemDB Z) Z := gmv_store zero_value.
#[local] Instance memory_store_laws : MVStoreLaws (GMVData Z) (GMemDB Z) Z mv_wf :=
  gmv_store_laws zero_value.
#[local] Instance memory_view : MVView (GMVMemoryView Z (GMemDB Z)) (GMVData Z) Z := gmv_view.
#[local] Instance memory_view_laws :
  MVViewLaws (GMVMemoryView Z (GMemDB Z)) (GMVData Z) (GMemDB Z) Z mv_wf view_wf :=
  gmv_view_laws zero_value.
#[local] Instance list_range : MapRange :=
  {| range _ _ _ _ m := map_to_list m; range_perm _ _ _ _ m := reflexivity _ |}.

(** One store, named 0; transaction 1 has written [key1] and [key2] in its
    first incarnation. *)
Definition store12 : GMVData Z :=
  result store1 (Write store1 key2 8 (MkVersion 1 0)).

Definition memory1 : MVMemory (GMVData Z) nat :=
  MkMVMemory {[0%nat := 0%nat]} [Some store12]
    [None; Some {[0%nat := [key1; key2]]}; None] [None; None; None].

(** The second incarnation writes [key2] only. *)
Definition view12 : MultiMVMemoryView (GMVMemoryView Z (GMemDB Z)) nat :=
  let w := NewGMVMemoryView 0 (NewGMemDB Z) 1 in
  MkMultiView {[0%nat := 0%nat]}
    {[0%nat := result w (view_Set zero_value w key2 9)]} (λ _ _, w) 1.

Lemma memory1_entries k :
  mv_wf store12 ∧ entries store12 k =
    if decide (k = key2) then [value_entry 8 (MkVersion 1 0)]
    else if decide (k = key1) then [value_entry 7 (MkVersion 1 0)] else [].
Proof.
  destruct (Write_changes (NewGMVData Z) key1 7 (MkVersion 1 0) NewGMVData_wf)
    as (d1 & E1 & Hw1 & H1 & _).
  assert (store1 = d1) as Hd1 by (unfold store1; by rewrite E1).
  destruct (Write_changes store1 key2 8 (MkVersion 1 0) store1_wf) as (d2 & E2 & Hw2 & H2 & _).
  assert (store12 = d2) as Hd2 by (unfold store12; by rewrite E2).
  rewrite Hd2. split; [done|]. rewrite H2, Hd1, !H1.
  repeat case_decide; subst; try done.
Qed.

Lemma memory1_tracks : tracks (ms_ok := mv_wf) memory1.
Proof.
  assert (∀ txn prev, readLastWrittenLocations memory1 txn = Returns prev →
    (txn = 1 ∧ prev = {[0%nat := [key1; key2]]}) ∨ (txn ≠ 1 ∧ prev = ∅)) as Hread.
  { intros txn prev. unfold readLastWrittenLocations, at_index. cbn.
    destruct (0 <=? txn) eqn:E; [|done].
    destruct (Z.to_nat txn) as [|[|[|n]]] eqn:En; cbn; intros [= <-]; try done;
      [right|left|right]; (split; [bool_lia|done]). }
  split.
  - intros [|i] Hi; [|cbn in Hi; lia]. exists store12. split; [done|apply (memory1_entries [])].
  - intros txn prev i l [[-> ->]|[_ ->]]%Hread; [|by rewrite lookup_empty].
    intros [<- <-]%lookup_singleton_Some. split; [cbn; lia|].
    repeat constructor; done.
  - intros txn prev Hr i k. unfold slot_at. cbn. unfold locs_at.
    destruct i as [|i]; cbn.
    2:{ destruct (Hread txn prev Hr) as [[-> ->]|[_ ->]];
          rewrite ?lookup_singleton_ne, ?lookup_empty by done; cbn;
          (split; [done|intros H%elem_of_nil; done]). }
    unfold gmv_slot. rewrite (proj2 (memory1_entries k)).
    destruct (Hread txn prev Hr) as [[-> ->]|[Hne ->]].
    + rewrite lookup_singleton_eq. cbn.
      repeat case_decide; subst; cbn; try (split; [set_solver|done]).
      split; [done|]. set_solver.
    + rewrite lookup_empty. cbn.
      assert (∀ v : Z, findb (same secondaryLesser (txn_item txn)) [value_entry v (MkVersion 1 0)] = None)
        as Hnone by (intros v; cbn; by rewrite same_txn_item, bool_decide_eq_false_2).
      repeat case_decide; rewrite ?Hnone; cbn; (split; [done|intros H1%elem_of_nil; done]).
Qed.

Lemma view12_ok : multi_view_ok (view_ok := view_wf) 1 view12.
Proof.
  split.
  - intros name w Hv. unfold view12 in Hv. cbn [mm_views] in Hv. apply (lookup_singleton_Some (M := gmap nat)) in Hv as [<- <-]. split.
    + unfold view_wf. cbn. repeat constructor.
    + exists 0%nat. split; [done|lia].
  - intros n1 n2 i H1 H2. unfold view12 in H1, H2. cbn [mm_stores] in H1, H2. apply (lookup_singleton_Some (M := gmap nat)) in H1 as [<- _].
    by apply (lookup_singleton_Some (M := gmap nat)) in H2 as [<- _].
Qed.

Lemma view12_at : ∃ w, views_at view12 0 w ∧ mvv_value w = {[key2 := 9]} ∧ mvv_ReadSet w = v_readSet w.
Proof. eexists. split; [exists 0%nat; split; vm_compute; reflexivity|]. split; [vm_compute|]; reflexivity. Qed.

Lemma Record_exact_witness :
  ∃ mv' wrote, Record_ memory1 (MkVersion 1 1) view12 = Returns (mv', wrote) ∧ wrote = false ∧
    slot_at (mv_data mv') 0 1 key2 = Some (1, Value 9) ∧ slot_at (mv_data mv') 0 1 key1 = None ∧
    ∃ reads, lastReadSet mv' = [None; Some reads; None] ∧ reads !! 0%nat ≠ None.
Proof.
  destruct (Record_exact (St := GMemDB Z) memory1 (MkVersion 1 1) view12 {[0%nat := [key1; key2]]}
    memory1_tracks view12_ok eq_refl eq_refl)
    as (mv' & wrote & locs & values & reads & E & _ & _ & Hl & Hv & Hr & _ & Hrs & Hown & _ & Hw).
  destruct view12_at as (w & Hat & Hval & _).
  assert (values !! 0%nat = Some {[key2 := 9]}) as Hvalues by (apply Hv; exists w; split; [exact Hat|symmetry; exact Hval]).
  exists mv', wrote. split; [done|]. split; [vm_compute in E; congruence|].
  cbn in Hown. rewrite !Hown. unfold value_at. rewrite Hvalues. split; [reflexivity|]. split; [reflexivity|].
  exists reads. split; [exact Hrs|]. assert (reads !! 0%nat = Some (mvv_ReadSet w)) as -> by (apply Hr; exists w; split; [exact Hat|reflexivity]).
  discriminate.
Defined.

Lemma ConvertWritesToEstimates_exact_witness :
  ∃ mv', ConvertWritesToEstimates memory1 1 = Returns mv' ∧
    slot_at (mv_data mv') 0 1 key1 = Some (0, Estimate) ∧ slot_at (mv_data mv') 0 2 key1 = None.
Proof.
  destruct (ConvertWritesToEstimates_exact (St := GMemDB Z) memory1 1
    {[0%nat := [key1; key2]]} memory1_tracks eq_refl) as (mv' & E & _ & _ & Hs).
  exists mv'. split; [done|]. rewrite !Hs. done.
Defined.
End witnesses.
