(* ===== verification/Prog.v ===== *)
(** * Concurrent programs as sequences of atomic actions

    A goroutine's code is a [prog]: it returns, or performs one atomic action
    on the shared state and continues with its result.  An action that cannot
    run yet (a held lock, a condition not signalled) answers [Waits].  [run]
    executes a program alone; [pool_step] interleaves several. *)

From Stdlib Require Import ZArith Lia.
From S2P Require Import Prelude.

Inductive prog (S A : Type) : Type :=
| Ret (a : A)
| Act {X : Type} (act : S → outcome (S * X)) (k : X → prog S A).
Arguments Ret {_ _} _.
Arguments Act {_ _ _} _ _.

Declare Scope prog_scope.
Delimit Scope prog_scope with prog.

Section prog.
Context {S : Type}.

Fixpoint pbind {A B} (p : prog S A) (f : A → prog S B) : prog S B :=
  match p with
  | Ret a => f a
  | Act act k => Act act (λ x, pbind (k x) f)
  end.

(** One atomic action. *)
Definition atomic {X} (act : S → outcome (S * X)) : prog S X := Act act Ret.

Definition load {X} (f : S → X) : prog S X := atomic (λ s, Returns (s, f s)).
Definition modify (f : S → S) : prog S unit := atomic (λ s, Returns (f s, tt)).
(** Go's panic. *)
Definition panic {X} : prog S X := atomic (λ _, Panics).

(** Alone, a waiting action never gets its turn. *)
Fixpoint run {A} (p : prog S A) (s : S) : outcome (S * A) :=
  match p with
  | Ret a => Returns (s, a)
  | Act act k => '(s', x) ← act s; run (k x) s'
  end.

Lemma run_bind {A B} (p : prog S A) (f : A → prog S B) s :
  run (pbind p f) s = '(s', a) ← run p s; run (f a) s'.
Proof.
  revert s; induction p as [a|X act k IH]; intros s; simpl; [done|].
  destruct (act s) as [[s' x]| |]; simpl; [apply IH|done..].
Qed.

(** One action of one of the programs of a pool. *)
Inductive pool_step {A} : S * list (prog S A) → S * list (prog S A) → Prop :=
| pool_act s s' ps i X (act : S → outcome (S * X)) k x :
    ps !! i = Some (Act act k) → act s = Returns (s', x) →
    pool_step (s, ps) (s', <[i := k x]> ps).

(** ** Accounting

    [owes n p]: started while it owns [n] of the resource counted by [m], the
    program changes the counter exactly by what it acquires and releases,
    never owns more than [cap], and owns [post a] when it returns [a].  [I]
    holds of every state, and [G n] of every step taken while [n] is owned. *)
Section owes.
Context {A : Type} (m : S → Z) (I : S → Prop) (G : Z → S → S → Prop) (cap : Z) (post : A → Z).

Fixpoint owes (n : Z) (p : prog S A) : Prop :=
  match p with
  | Ret a => n = post a
  | Act act k => ∀ s s' x, I s → act s = Returns (s', x) →
      ∃ n', m s' = u64 (m s + (n' - n)) ∧ G n s s' ∧ (0 <= n' <= cap)%Z ∧ owes n' (k x)
  end.
End owes.

Lemma owes_bind {A B} m I G cap (mid : A → Z) (post : B → Z) n p f :
  owes m I G cap mid n p → (∀ a, owes m I G cap post (mid a) (f a)) →
  owes m I G cap post n (pbind p f).
Proof.
  intros Hp Hf. revert n Hp; induction p as [a|X act k IH]; intros n; simpl; [by intros ->|].
  intros H s s' x Hs Hact. destruct (H s s' x Hs Hact) as (n' & ? & ? & ? & ?). eauto 6.
Qed.

(** An action that acquires [d]. *)
Lemma owes_acquire {X B} m (I : S → Prop) G cap (post : B → Z) n d (act : S → outcome (S * X))
    (k : X → prog S B) :
  (0 <= n + d <= cap)%Z →
  (∀ s s' x, I s → act s = Returns (s', x) →
     m s' = u64 (m s + d) ∧ G n s s' ∧ owes m I G cap post (n + d)%Z (k x)) →
  owes m I G cap post n (pbind (atomic act) k).
Proof.
  intros Hn Hact s s' x Hs E. exists (n + d)%Z.
  replace (m s + (n + d - n))%Z with (m s + d)%Z by lia.
  destruct (Hact s s' x Hs E) as (? & ? & ?). auto.
Qed.

(** An action that leaves the counter alone. *)
Lemma owes_atomic {X B} m (I : S → Prop) G cap (post : B → Z) n (act : S → outcome (S * X))
    (k : X → prog S B) :
  (0 <= n <= cap)%Z → (∀ s, I s → u64_range (m s)) →
  (∀ s s' x, I s → act s = Returns (s', x) →
     m s' = m s ∧ G n s s' ∧ owes m I G cap post n (k x)) →
  owes m I G cap post n (pbind (atomic act) k).
Proof.
  intros Hn HI Hact s s' x Hs E. exists n.
  replace (m s + (n - n))%Z with (m s) by lia. rewrite u64_id by auto.
  destruct (Hact s s' x Hs E) as (? & ? & ?). auto.
Qed.
End prog.

(** A program on a part of a larger state. *)
Fixpoint lift {S T A} (get : T → S) (put : S → T → T) (p : prog S A) : prog T A :=
  match p with
  | Ret a => Ret a
  | Act act k =>
      Act (λ t, '(s, x) ← act (get t); Returns (put s t, x)) (λ x, lift get put (k x))
  end.

Lemma run_lift {S T A} (get : T → S) (put : S → T → T) (p : prog S A) t :
  (∀ s t, get (put s t) = s) → (∀ s s' t, put s (put s' t) = put s t) → (∀ t, put (get t) t = t) →
  run (lift get put p) t = '(s, a) ← run p (get t); Returns (put s t, a).
Proof.
  intros Hgp Hpp Hpg. revert t; induction p as [a|X act k IH]; intros t; simpl.
  - by rewrite Hpg.
  - destruct (act (get t)) as [[s x]| |]; simpl; [|done..]. rewrite IH, Hgp.
    destruct (run (k x) s) as [[s' a]| |]; simpl; [|done..]. by rewrite Hpp.
Qed.

Notation "x ⇐ y ; z" := (pbind y (λ x : _, z))
  (at level 20, y at level 100, z at level 200, only parsing) : prog_scope.
Notation "' x ⇐ y ; z" := (pbind y (λ x : _, z))
  (at level 20, x pattern, y at level 100, z at level 200, only parsing) : prog_scope.
Notation "x ;; z" := (pbind x (λ _, z))
  (at level 100, z at level 200, only parsing, right associativity) : prog_scope.
