(* ===== verification/Status.v ===== *)
(** * status.go and condvar.go: the status of one transaction

    Every method holds the entry's mutex from start to end, so each is one
    function on the entry.  A condition variable is its [notified] flag; [Wait]
    can go on once it is set. *)

From Stdlib Require Import ZArith Lia.
From S2P Require Import Prelude.
Local Open Scope Z_scope.

Inductive Status :=
| StatusReadyToExecute
| StatusExecuting
| StatusExecuted
| StatusAborting
| StatusSuspended.

#[export] Instance Status_eq_dec : EqDecision Status.
Proof. solve_decision. Defined.

(** A pointer to a condition variable. *)
Abbreviation cond_loc := nat.

Record StatusEntry := MkEntry {
  e_incarnation : Z;
  e_status : Status;
  e_cond : option cond_loc;
}.

Definition new_entry : StatusEntry := MkEntry 0 StatusReadyToExecute None.

Definition IsExecuted (s : StatusEntry) : bool * Z :=
  if decide (e_status s = StatusExecuted) then (true, e_incarnation s) else (false, 0).

Definition setStatus (s : StatusEntry) (status : Status) : StatusEntry :=
  MkEntry (e_incarnation s) status (e_cond s).

Definition TrySetExecuting (s : StatusEntry) : StatusEntry * (Z * bool) :=
  if decide (e_status s = StatusReadyToExecute)
  then (setStatus s StatusExecuting, (e_incarnation s, true))
  else (s, (0, false)).

(** Panics on a nil condition; otherwise the condition to notify. *)
Definition Resume (s : StatusEntry) : outcome (StatusEntry * cond_loc) :=
  c ← deref (e_cond s);
  Returns (MkEntry (e_incarnation s) StatusExecuting None, c).

Definition SetExecuted (s : StatusEntry) : StatusEntry := setStatus s StatusExecuted.

Definition TryValidationAbort (s : StatusEntry) (incarnation : Z) : StatusEntry * bool :=
  if decide (e_incarnation s = incarnation ∧ e_status s = StatusExecuted)
  then (setStatus s StatusAborting, true)
  else (s, false).

Definition SetReadyStatus (s : StatusEntry) : StatusEntry :=
  MkEntry (u64 (e_incarnation s + 1)) StatusReadyToExecute (e_cond s).

Definition Suspend (s : StatusEntry) (cond : cond_loc) : StatusEntry :=
  MkEntry (e_incarnation s) StatusSuspended (Some cond).

(** ** Condition variables, by address *)

Definition NewCondvar (conds : list bool) : list bool * cond_loc :=
  (conds ++ [false], length conds).

Definition Notify (conds : list bool) (c : cond_loc) : list bool := <[c := true]> conds.

Definition cond_Wait (conds : list bool) (c : cond_loc) : outcome (list bool) :=
  match conds !! c with
  | Some true => Returns conds
  | Some false => Waits
  | None => Panics
  end.

(** ** The documented state machine *)

Inductive transition : Status → Status → Prop :=
| ReadyToExecute_Executing : transition StatusReadyToExecute StatusExecuting
| Executing_Executed : transition StatusExecuting StatusExecuted
| Executing_Suspended : transition StatusExecuting StatusSuspended
| Executed_Aborting : transition StatusExecuted StatusAborting
| Aborting_ReadyToExecute : transition StatusAborting StatusReadyToExecute
| Suspended_Executing : transition StatusSuspended StatusExecuting.

(** The operations, with what their callers must ensure. *)
Inductive status_op :=
| OpTrySetExecuting
| OpSetExecuted
| OpTryValidationAbort (incarnation : Z)
| OpSetReadyStatus
| OpSuspend (cond : cond_loc)
| OpResume.

Definition apply_op (op : status_op) (s : StatusEntry) : outcome StatusEntry :=
  match op with
  | OpTrySetExecuting => Returns (TrySetExecuting s).1
  | OpSetExecuted => Returns (SetExecuted s)
  | OpTryValidationAbort i => Returns (TryValidationAbort s i).1
  | OpSetReadyStatus => Returns (SetReadyStatus s)
  | OpSuspend c => Returns (Suspend s c)
  | OpResume => '(s', _) ← Resume s; Returns s'
  end.

Definition op_allowed (op : status_op) (s : StatusEntry) : Prop :=
  match op with
  | OpTrySetExecuting | OpTryValidationAbort _ => True
  | OpSetExecuted | OpSuspend _ => e_status s = StatusExecuting
  | OpSetReadyStatus => e_status s = StatusAborting
  | OpResume => e_status s = StatusSuspended
  end.

(** A condition is set exactly while the transaction is suspended. *)
Definition entry_wf (s : StatusEntry) : Prop :=
  is_Some (e_cond s) ↔ e_status s = StatusSuspended.

Fixpoint apply_ops (ops : list status_op) (s : StatusEntry) : outcome StatusEntry :=
  match ops with
  | [] => Returns s
  | op :: ops => s' ← apply_op op s; apply_ops ops s'
  end.

(** Used as its comments ask, an entry follows the documented state
    diagram: every operation whose precondition holds succeeds, leaves the
    status unchanged or takes one transition of the diagram, increments the
    incarnation exactly when it takes Aborting to ReadyToExecute, and keeps a
    condition exactly while the transaction is suspended. *)
Lemma status_follows_diagram op s :
  entry_wf s → op_allowed op s →
  ∃ s', apply_op op s = Returns s' ∧ entry_wf s' ∧
    (s' = s ∨ transition (e_status s) (e_status s')) ∧
    e_incarnation s' =
      if decide (e_status s = StatusAborting ∧ e_status s' = StatusReadyToExecute)
      then u64 (e_incarnation s + 1) else e_incarnation s.
Proof.
  destruct s as [inc st c]. unfold entry_wf. cbn [e_status e_cond e_incarnation]. intros Hwf Hop.
  assert (∀ st', st' ≠ StatusSuspended → st ≠ StatusSuspended → is_Some c ↔ st' = StatusSuspended) as Hother.
  { intros st' H1 H2. rewrite Hwf. by split; intros ?. }
  destruct op; cbn [apply_op op_allowed e_status] in *; unfold TrySetExecuting, TryValidationAbort; cbn [e_status e_incarnation].
  - case_decide as E; [subst st|]; (eexists; split; [reflexivity|]); (split; [by auto|]); cbn.
    + split; [right; constructor|]. by rewrite decide_False by naive_solver.
    + split; [by left|]. by rewrite decide_False by naive_solver.
  - subst st. eexists; split; [reflexivity|]. cbn. split; [by auto|]. split; [right; constructor|].
    by rewrite decide_False by naive_solver.
  - case_decide as E; [destruct E as [-> ->]|]; (eexists; split; [reflexivity|]); (split; [by auto|]); cbn.
    + split; [right; constructor|]. by rewrite decide_False by naive_solver.
    + split; [by left|]. by rewrite decide_False by naive_solver.
  - subst st. eexists; split; [reflexivity|]. cbn. split; [by auto|]. split; [right; constructor|].
    by rewrite decide_True.
  - subst st. eexists; split; [reflexivity|]. cbn. split; [by split; eauto|]. split; [right; constructor|].
    by rewrite decide_False by naive_solver.
  - subst st. destruct c as [c|]; [|by destruct (proj2 Hwf eq_refl)]. eexists; split; [reflexivity|]. cbn.
    split; [by split; [intros []|]|]. split; [right; constructor|]. by rewrite decide_False by naive_solver.
Qed.

(** [TrySetExecuting] and [TryValidationAbort] are test-and-set: among any
    callers of [TrySetExecuting] on one entry, with no other operation in
    between, at most the first succeeds, and it succeeds exactly when the
    transaction was ready; a validation abort succeeds exactly once per
    executed incarnation, for the incarnation it names. *)
Theorem status_test_and_set s i j :
  (TrySetExecuting s).2.2 = bool_decide (e_status s = StatusReadyToExecute) ∧
  (TrySetExecuting (TrySetExecuting s).1).2.2 = false ∧
  (TryValidationAbort s i).2 = bool_decide (e_incarnation s = i ∧ e_status s = StatusExecuted) ∧
  ((TryValidationAbort s i).2 = true → (TryValidationAbort (TryValidationAbort s i).1 j).2 = false).
Proof.
  unfold TrySetExecuting, TryValidationAbort.
  repeat split; repeat (case_decide || case_bool_decide); cbn in *; naive_solver.
Qed.

(** No wakeup is lost: once [Notify] has run on a condition variable,
    [Wait] on it returns, whatever was notified or created since; before, it
    waits. *)
Lemma condvar_no_lost_wakeup conds c others :
  let '(conds1, cv) := NewCondvar conds in
  cond_Wait conds1 cv = Waits ∧
  ((c < length conds)%nat → cond_Wait (Notify conds1 c) cv = Waits) ∧
  let conds2 := foldl Notify (Notify conds1 cv) others in
  cond_Wait conds2 cv = Returns conds2.
Proof.
  cbn. unfold cond_Wait, Notify.
  assert ((conds ++ [false]) !! length conds = Some false) as E
    by (by rewrite lookup_app_r, Nat.sub_diag).
  rewrite E. split; [done|]. split.
  { intros Hc. rewrite list_lookup_insert_ne by lia. by rewrite E. }
  set (l := <[_ := true]> _).
  assert (l !! length conds = Some true) as Hl
    by (apply list_lookup_insert_eq; rewrite length_app; simpl; lia).
  clearbody l. clear E. assert (foldl (λ (conds0 : list bool) (c0 : cond_loc), <[c0 := true]> conds0)
    l others !! length conds = Some true) as ->; [|done].
  revert l Hl; induction others as [|o others IH]; intros l Hl; simpl; [done|].
  apply IH. destruct (decide (o = length conds)) as [->|Hne].
  - apply list_lookup_insert_eq. by eapply lookup_lt_Some.
  - by rewrite list_lookup_insert_ne.
Qed.

Lemma status_follows_diagram_witness :
  ∃ s', apply_op OpSetReadyStatus (MkEntry 4 StatusAborting None) = Returns s' ∧
    e_status s' = StatusReadyToExecute ∧ e_incarnation s' = 5.
Proof.
  destruct (status_follows_diagram OpSetReadyStatus (MkEntry 4 StatusAborting None))
    as (s' & E & _ & _ & Hi).
  - split; [by intros []|done].
  - done.
  - exists s'. split; [done|]. injection E as <-. split; [done|]. by vm_compute.
Defined.

Lemma status_test_and_set_witness :
  (TryValidationAbort (TryValidationAbort (MkEntry 2 StatusExecuted None) 2).1 2).2 = false.
Proof.
  apply (status_test_and_set (MkEntry 2 StatusExecuted None) 2 2). vm_compute. reflexivity.
Defined.

Lemma condvar_no_lost_wakeup_witness :
  cond_Wait (Notify [false; false] 0) 1 = Waits ∧
  cond_Wait (foldl Notify (Notify [false; false] 1) [0%nat]) 1 = Returns [true; true].
Proof.
  pose proof (condvar_no_lost_wakeup [false] 0 [0%nat]) as (_ & H1 & H2).
  split; [apply H1; simpl; lia|exact H2].
Defined.
