(* ===== verification/Scheduler.v ===== *)
(** * scheduler.go and executor.go: the collaborative scheduler

    The methods of [Scheduler] as programs over its shared state: one action
    per atomic load or store, per critical section of a status entry, and per
    lock operation of a dependency list.  The executor's loop is one program
    per iteration. *)

From Stdlib Require Import ZArith Lia.
From S2P Require Import Prelude Utils Types Status Prog.
Local Open Scope Z_scope.

Inductive TaskKind := TaskKindExecution | TaskKindValidation.

Record TxDependency := MkTxDependency { dep_locked : bool; dependents : list Z }.

Record Scheduler := MkScheduler {
  block_size : Z;
  execution_idx : Z;
  validation_idx : Z;
  decrease_cnt : Z;
  num_active_tasks : Z;
  done_marker : bool;
  txn_dependency : list TxDependency;
  txn_status : list StatusEntry;
  conds : list bool;
  executedTxns : Z;
  validatedTxns : Z;
}.

Definition NewScheduler (block_size : nat) : Scheduler :=
  MkScheduler (Z.of_nat block_size) 0 0 0 0 false
    (replicate block_size (MkTxDependency false [])) (replicate block_size new_entry) [] 0 0.

(** ** Field updates *)

Definition set_execution_idx (v : Z) (s : Scheduler) : Scheduler :=
  MkScheduler (block_size s) v (validation_idx s) (decrease_cnt s) (num_active_tasks s)
    (done_marker s) (txn_dependency s) (txn_status s) (conds s) (executedTxns s) (validatedTxns s).
Definition set_validation_idx (v : Z) (s : Scheduler) : Scheduler :=
  MkScheduler (block_size s) (execution_idx s) v (decrease_cnt s) (num_active_tasks s)
    (done_marker s) (txn_dependency s) (txn_status s) (conds s) (executedTxns s) (validatedTxns s).
Definition set_decrease_cnt (v : Z) (s : Scheduler) : Scheduler :=
  MkScheduler (block_size s) (execution_idx s) (validation_idx s) v (num_active_tasks s)
    (done_marker s) (txn_dependency s) (txn_status s) (conds s) (executedTxns s) (validatedTxns s).
Definition set_num_active_tasks (v : Z) (s : Scheduler) : Scheduler :=
  MkScheduler (block_size s) (execution_idx s) (validation_idx s) (decrease_cnt s) v
    (done_marker s) (txn_dependency s) (txn_status s) (conds s) (executedTxns s) (validatedTxns s).
Definition set_done_marker (v : bool) (s : Scheduler) : Scheduler :=
  MkScheduler (block_size s) (execution_idx s) (validation_idx s) (decrease_cnt s)
    (num_active_tasks s) v (txn_dependency s) (txn_status s) (conds s) (executedTxns s) (validatedTxns s).
Definition set_txn_dependency (v : list TxDependency) (s : Scheduler) : Scheduler :=
  MkScheduler (block_size s) (execution_idx s) (validation_idx s) (decrease_cnt s)
    (num_active_tasks s) (done_marker s) v (txn_status s) (conds s) (executedTxns s) (validatedTxns s).
Definition set_txn_status (v : list StatusEntry) (s : Scheduler) : Scheduler :=
  MkScheduler (block_size s) (execution_idx s) (validation_idx s) (decrease_cnt s)
    (num_active_tasks s) (done_marker s) (txn_dependency s) v (conds s) (executedTxns s) (validatedTxns s).
Definition set_conds (v : list bool) (s : Scheduler) : Scheduler :=
  MkScheduler (block_size s) (execution_idx s) (validation_idx s) (decrease_cnt s)
    (num_active_tasks s) (done_marker s) (txn_dependency s) (txn_status s) v (executedTxns s) (validatedTxns s).
Definition set_stats (e v : Z) (s : Scheduler) : Scheduler :=
  MkScheduler (block_size s) (execution_idx s) (validation_idx s) (decrease_cnt s)
    (num_active_tasks s) (done_marker s) (txn_dependency s) (txn_status s) (conds s) e v.

(** ** Atomic actions *)

(** A method of the status entry of [txn]; an index out of range panics. *)
Definition on_status {X} (txn : Z) (f : StatusEntry → outcome (StatusEntry * X)) :
    prog Scheduler X :=
  atomic (λ s,
    e ← deref (at_index (txn_status s) txn);
    '(e', x) ← f e;
    st ← deref (set_index (txn_status s) txn e');
    Returns (set_txn_status st s, x)).

Definition on_dependency {X} (txn : Z) (f : TxDependency → outcome (TxDependency * X)) :
    prog Scheduler X :=
  atomic (λ s,
    d ← deref (at_index (txn_dependency s) txn);
    '(d', x) ← f d;
    deps ← deref (set_index (txn_dependency s) txn d');
    Returns (set_txn_dependency deps s, x)).

Definition incr_active : prog Scheduler unit :=
  modify (λ s, set_num_active_tasks (IncrAtomic (num_active_tasks s)) s).
Definition decr_active : prog Scheduler unit :=
  modify (λ s, set_num_active_tasks (DecrAtomic (num_active_tasks s)) s).

Definition Lock (txn : Z) : prog Scheduler unit :=
  on_dependency txn (λ d,
    if dep_locked d then Waits else Returns (MkTxDependency true (dependents d), tt)).
Definition Unlock (txn : Z) : prog Scheduler unit :=
  on_dependency txn (λ d, Returns (MkTxDependency false (dependents d), tt)).

(** One critical section under the entry's own lock. *)
Definition Swap (txn : Z) (new : list Z) : prog Scheduler (list Z) :=
  on_dependency txn (λ d,
    if dep_locked d then Waits else Returns (MkTxDependency false new, dependents d)).

(** [txn_status[txn].IsExecuted()] *)
Definition check_executed (txn : Z) : prog Scheduler (bool * Z) :=
  on_status txn (λ e, Returns (e, IsExecuted e)).

Definition wait_cond (c : cond_loc) : prog Scheduler unit :=
  atomic (λ s, cs ← cond_Wait (conds s) c; Returns (set_conds cs s, tt)).

Local Open Scope prog_scope.

(** ** The methods *)

Definition Done : prog Scheduler bool := load done_marker.

(** The compare-and-swap loop of [StoreMin] takes effect at one point. *)
Definition DecreaseValidationIdx (target : Z) : prog Scheduler unit :=
  modify (λ s, set_validation_idx (Z.min (validation_idx s) (u64 target)) s) ;;
  modify (λ s, set_decrease_cnt (u64 (decrease_cnt s + 1)) s).

Definition CheckDone : prog Scheduler unit :=
  observed_cnt ⇐ load decrease_cnt;
  e ⇐ load execution_idx;
  size ⇐ load (λ s, u64 (block_size s));
  if size <=? e then
    v ⇐ load validation_idx;
    if size <=? v then
      n ⇐ load num_active_tasks;
      if n =? 0 then
        cnt ⇐ load decrease_cnt;
        if observed_cnt =? cnt then modify (set_done_marker true) else Ret tt
      else Ret tt
    else Ret tt
  else Ret tt.

Definition TryIncarnate (idx : Z) : prog Scheduler TxnVersion :=
  size ⇐ load block_size;
  if idx <? size then
    '(incarnation, ok) ⇐ on_status idx (λ e, Returns (TrySetExecuting e));
    if (ok : bool) then Ret (MkVersion idx incarnation)
    else decr_active ;; Ret InvalidTxnVersion
  else decr_active ;; Ret InvalidTxnVersion.

(** [execution_idx.Add(1) - 1] *)
Definition fetch_execution_idx : prog Scheduler Z :=
  atomic (λ s, let '(v, old) := FetchIncr (execution_idx s) in Returns (set_execution_idx v s, old)).
Definition fetch_validation_idx : prog Scheduler Z :=
  atomic (λ s, let '(v, old) := FetchIncr (validation_idx s) in Returns (set_validation_idx v s, old)).

Definition NextVersionToExecute : prog Scheduler TxnVersion :=
  e ⇐ load execution_idx;
  size ⇐ load (λ s, u64 (block_size s));
  if size <=? e then CheckDone ;; Ret InvalidTxnVersion
  else
    incr_active ;;
    idx_to_execute ⇐ fetch_execution_idx;
    TryIncarnate (i64 idx_to_execute).

Definition NextVersionToValidate : prog Scheduler TxnVersion :=
  v ⇐ load validation_idx;
  size ⇐ load (λ s, u64 (block_size s));
  if size <=? v then CheckDone ;; Ret InvalidTxnVersion
  else
    incr_active ;;
    idx_to_validate ⇐ fetch_validation_idx;
    if idx_to_validate <? size then
      '(ok, incarnation) ⇐ check_executed idx_to_validate;
      if (ok : bool) then Ret (MkVersion (i64 idx_to_validate) incarnation)
      else decr_active ;; Ret InvalidTxnVersion
    else decr_active ;; Ret InvalidTxnVersion.

Definition NextTask : prog Scheduler (TxnVersion * TaskKind) :=
  validation_idx ⇐ load validation_idx;
  execution_idx ⇐ load execution_idx;
  if validation_idx <? execution_idx then
    version ⇐ NextVersionToValidate; Ret (version, TaskKindValidation)
  else version ⇐ NextVersionToExecute; Ret (version, TaskKindExecution).

Definition WaitForDependency (txn blocking_txn : Z) : prog Scheduler (option cond_loc) :=
  cond ⇐ atomic (λ s, let '(cs, c) := NewCondvar (conds s) in Returns (set_conds cs s, c));
  Lock blocking_txn ;;
  '(ok, _) ⇐ check_executed blocking_txn;
  if (ok : bool) then Unlock blocking_txn ;; Ret None
  else
    on_status txn (λ e, Returns (Suspend e cond, tt)) ;;
    on_dependency blocking_txn (λ d,
      Returns (MkTxDependency (dep_locked d) (dependents d ++ [txn]), tt)) ;;
    Unlock blocking_txn ;;
    Ret (Some cond).

(** [Resume] notifies within the entry's critical section. *)
Definition resume_txn (txn : Z) : prog Scheduler unit :=
  atomic (λ s,
    (e ← deref (at_index (txn_status s) txn);
     '(e', c) ← Resume e;
     st ← deref (set_index (txn_status s) txn e');
     Returns (set_conds (Notify (conds s) c) (set_txn_status st s), tt))%stdpp).

Fixpoint ResumeDependencies (txns : list Z) : prog Scheduler unit :=
  match txns with
  | [] => Ret tt
  | txn :: txns => resume_txn txn ;; ResumeDependencies txns
  end.

Definition FinishExecution (version : TxnVersion) (wroteNewPath : bool) :
    prog Scheduler (TxnVersion * TaskKind) :=
  on_status (Index version) (λ e, Returns (SetExecuted e, tt)) ;;
  deps ⇐ Swap (Index version) [];
  ResumeDependencies deps ;;
  v ⇐ load validation_idx;
  if u64 (Index version) <? v then
    (* otherwise index already small enough *)
    if negb wroteNewPath then Ret (version, TaskKindValidation)
    else
      DecreaseValidationIdx (Index version) ;;
      decr_active ;; Ret (InvalidTxnVersion, TaskKindExecution)
  else decr_active ;; Ret (InvalidTxnVersion, TaskKindExecution).

Definition try_validation_abort (version : TxnVersion) : prog Scheduler bool :=
  on_status (Index version) (λ e, Returns (TryValidationAbort e (Incarnation version))).

Definition FinishValidation (txn : Z) (aborted : bool) : prog Scheduler (TxnVersion * TaskKind) :=
  if aborted then
    on_status txn (λ e, Returns (SetReadyStatus e, tt)) ;;
    DecreaseValidationIdx (txn + 1) ;;
    e ⇐ load execution_idx;
    if u64 txn <? e then version ⇐ TryIncarnate txn; Ret (version, TaskKindExecution)
    else decr_active ;; Ret (InvalidTxnVersion, TaskKindExecution)
  else decr_active ;; Ret (InvalidTxnVersion, TaskKindExecution).

(** ** The executor

    What the callback and the memory answer is left open: the transactions a
    transaction waits for, whether it wrote a new location, whether its read
    set is valid. *)

Record answers := MkAnswers {
  ans_blocking : list Z;
  ans_wroteNewLocation : bool;
  ans_valid : bool;
  ans_cancelled : bool;
}.

(** [GMVMemoryView.waitFor] *)
Definition waitFor (txn blocking : Z) : prog Scheduler unit :=
  cond ⇐ WaitForDependency txn blocking;
  match cond with Some c => wait_cond c | None => Ret tt end.

Fixpoint execute (txn : Z) (blocking : list Z) : prog Scheduler unit :=
  match blocking with
  | [] => Ret tt
  | b :: blocking => waitFor txn b ;; execute txn blocking
  end.

Definition TryExecute (a : answers) (version : TxnVersion) : prog Scheduler (TxnVersion * TaskKind) :=
  modify (λ s, set_stats (i64 (executedTxns s + 1)) (validatedTxns s) s) ;;
  execute (Index version) (ans_blocking a) ;;
  FinishExecution version (ans_wroteNewLocation a).

Definition NeedsReexecution (a : answers) (version : TxnVersion) :
    prog Scheduler (TxnVersion * TaskKind) :=
  modify (λ s, set_stats (executedTxns s) (i64 (validatedTxns s + 1)) s) ;;
  aborted ⇐ (if ans_valid a then Ret false else try_validation_abort version);
  FinishValidation (Index version) aborted.

(** One round of [Executor.Run]; [None] leaves the loop. *)
Definition Run_round (a : answers) (version : TxnVersion) (kind : TaskKind) :
    prog Scheduler (option (TxnVersion * TaskKind)) :=
  d ⇐ Done;
  if (d : bool) then Ret None
  else if negb (version_Valid version) then
    if ans_cancelled a then Ret None
    else t ⇐ NextTask; Ret (Some t)
  else
    t ⇐ match kind with
        | TaskKindExecution => TryExecute a version
        | TaskKindValidation => NeedsReexecution a version
        end;
    Ret (Some t).

(** ** Accounting for the active tasks *)

Close Scope prog_scope.

(** A worker with a valid version holds one task. *)
Definition held (version : TxnVersion) : Z := if version_Valid version then 1 else 0.
Definition held_task (t : TxnVersion * TaskKind) : Z := held t.1.

(** What no action changes, and that [done_marker] is never reset. *)
Definition keeps_shape (s s' : Scheduler) : Prop :=
  block_size s' = block_size s ∧ length (txn_status s') = length (txn_status s) ∧
  length (txn_dependency s') = length (txn_dependency s) ∧
  (done_marker s = true → done_marker s' = true).

(** [num_active_tasks] is a machine word, [block_size] an [int]. *)
Definition sched_range (s : Scheduler) : Prop :=
  u64_range (num_active_tasks s) ∧ 0 <= block_size s < 2 ^ 63.

(** What an executor without a task may do: take one on the counter, or set
    [done_marker].  No index is claimed, no status, dependency list or condition
    is touched. *)
Definition idle_change (s s' : Scheduler) : Prop :=
  ∃ n d, s' = set_done_marker d (set_num_active_tasks n s) ∧ (done_marker s = true → d = true).

(** What an action does while [n] tasks are held. *)
Definition guarantee (n : Z) (s s' : Scheduler) : Prop := keeps_shape s s' ∧ (n = 0 → idle_change s s').

Lemma idle_same s : idle_change s s.
Proof. exists (num_active_tasks s), (done_marker s). split; [by destruct s|done]. Qed.

Lemma idle_counter n s : idle_change s (set_num_active_tasks n s).
Proof. exists n, (done_marker s). split; [by destruct s|done]. Qed.

Lemma idle_done s : idle_change s (set_done_marker true s).
Proof. exists (num_active_tasks s), true. split; [by destruct s|done]. Qed.

Abbreviation counts := (owes num_active_tasks sched_range guarantee 1).

Section accounting.
Context {B : Type} (post : B → Z).

Lemma counts_load {X} (f : Scheduler → X) n (k : X → prog Scheduler B) :
  0 <= n <= 1 → (∀ s, sched_range s → counts post n (k (f s))) →
  counts post n (pbind (load f) k).
Proof.
  intros Hn Hk. apply owes_atomic; [done|by intros s []|]. intros s s' x Hs [= <- <-].
  split; [done|]. split; [|by apply Hk]. split; [by repeat split|intros _; apply idle_same].
Qed.

(** With a task, an action that leaves the counter alone may change anything. *)
Lemma counts_act {X} (act : Scheduler → outcome (Scheduler * X)) (k : X → prog Scheduler B) :
  (∀ s s' x, act s = Returns (s', x) → num_active_tasks s' = num_active_tasks s ∧ keeps_shape s s' ∧ counts post 1 (k x)) →
  counts post 1 (pbind (atomic act) k).
Proof.
  intros Hact. apply owes_atomic; [lia|by intros s []|]. intros s s' x Hs E.
  destruct (Hact s s' x E) as (? & ? & ?). split; [done|]. by split.
Qed.

Lemma counts_modify f (k : unit → prog Scheduler B) :
  (∀ s, num_active_tasks (f s) = num_active_tasks s ∧ keeps_shape s (f s)) →
  counts post 1 (k tt) → counts post 1 (pbind (modify f) k).
Proof. intros Hf Hk. apply counts_act. intros s s' x [= <- <-]. destruct (Hf s). auto. Qed.

Lemma counts_set_done : counts (λ _, 0) 0 (modify (set_done_marker true)).
Proof.
  intros s s' x [Hr _] [= <- <-]. exists 0. cbn. rewrite Z.add_0_r, u64_id by done.
  split; [done|]. split; [|split; [lia|done]]. split; [by repeat split|intros _; apply idle_done].
Qed.

Lemma counts_on_status {X} txn (f : StatusEntry → outcome (StatusEntry * X))
    (k : X → prog Scheduler B) :
  (0 <= txn → ∀ x, counts post 1 (k x)) → counts post 1 (pbind (on_status txn f) k).
Proof.
  intros Hk. apply counts_act. intros s s' x H.
  destruct (at_index _ _) as [e|] eqn:Ei; [|done]. apply at_index_nonneg in Ei. cbn in H.
  destruct (f e) as [[e' y]| |]; [|done..]. cbn in H.
  destruct (set_index _ _ _) as [st|] eqn:E; [|done]. apply set_index_length in E.
  injection H as <- <-. repeat split; auto.
Qed.

Lemma counts_on_dependency {X} txn (f : TxDependency → outcome (TxDependency * X))
    (k : X → prog Scheduler B) :
  (∀ x, counts post 1 (k x)) → counts post 1 (pbind (on_dependency txn f) k).
Proof.
  intros Hk. apply counts_act. intros s s' x H.
  destruct (at_index _ _) as [e|]; [|done]. cbn in H.
  destruct (f e) as [[e' y]| |]; [|done..]. cbn in H.
  destruct (set_index _ _ _) as [st|] eqn:E; [|done]. apply set_index_length in E.
  injection H as <- <-. repeat split; auto.
Qed.

Lemma counts_incr (k : unit → prog Scheduler B) :
  counts post 1 (k tt) → counts post 0 (pbind incr_active k).
Proof.
  intros Hk. apply (owes_acquire _ _ _ _ _ 0 1); [lia|]. intros s s' x Hs [= <- <-].
  split; [done|]. split; [|done]. split; [by repeat split|intros _; apply idle_counter].
Qed.

Lemma counts_decr (k : unit → prog Scheduler B) :
  counts post 0 (k tt) → counts post 1 (pbind decr_active k).
Proof.
  intros Hk. apply (owes_acquire _ _ _ _ _ 1 (-1)); [lia|]. intros s s' x Hs [= <- <-].
  split; [apply DecrAtomic_sub|]. split; [|done]. by repeat split.
Qed.

(** The two [Add(1) - 1] counters. *)
Lemma counts_fetch (get : Scheduler → Z) (set : Z → Scheduler → Scheduler)
    (k : Z → prog Scheduler B) :
  (∀ v s, num_active_tasks (set v s) = num_active_tasks s ∧ keeps_shape s (set v s)) →
  (∀ old, u64_range old → counts post 1 (k old)) →
  counts post 1 (pbind (atomic (λ s,
    let '(v, old) := FetchIncr (get s) in Returns (set v s, old))) k).
Proof.
  intros Hset Hk. apply counts_act. intros s s' x H.
  unfold FetchIncr in H. injection H as <- <-.
  destruct (Hset (u64 (get s + 1)) s). split; [done|]. split; [done|]. apply Hk, u64_bound.
Qed.
End accounting.

(** Walks through a program, accounting for each action. *)
Ltac account_one :=
  first
    [ done
    | apply counts_incr
    | apply counts_decr
    | apply counts_load; [lia|intros ? ?]
    | apply counts_modify; [intros ?; by repeat split|]
    | apply counts_set_done
    | apply counts_on_status; intros ? ?
    | apply counts_on_dependency; intros ?
    | apply counts_fetch; [intros ? ?; by repeat split|intros ? ?]
    | match goal with |- owes _ _ _ _ _ _ (match ?b with _ => _ end) => destruct b eqn:? end ].
Ltac account := repeat account_one.

Lemma CheckDone_counts : counts (λ _, 0) 0 CheckDone.
Proof. unfold CheckDone. account. Qed.

Lemma counts_CheckDone {B} (post : B → Z) (k : unit → prog Scheduler B) :
  counts post 0 (k tt) → counts post 0 (pbind CheckDone k).
Proof. intros Hk. eapply owes_bind; [apply CheckDone_counts|by intros []]. Qed.

Lemma held_nonneg idx inc : 0 <= idx → held (MkVersion idx inc) = 1.
Proof. intros H. unfold held, version_Valid. cbn. by rewrite (proj2 (Z.leb_le _ _) H). Qed.

Lemma TryIncarnate_counts idx : counts held 1 (TryIncarnate idx).
Proof. unfold TryIncarnate. account. cbn. by rewrite held_nonneg. Qed.

Lemma NextVersionToExecute_counts : counts held 0 NextVersionToExecute.
Proof.
  unfold NextVersionToExecute.
  repeat first [apply counts_CheckDone | apply TryIncarnate_counts | account_one].
Qed.

Lemma NextVersionToValidate_counts : counts held 0 NextVersionToValidate.
Proof.
  unfold NextVersionToValidate. repeat first [apply counts_CheckDone | account_one].
  - cbn. rewrite held_nonneg; [done|]. unfold sched_range, u64_range in *.
    assert (u64 (block_size s0) = block_size s0) as E by (apply u64_id; unfold u64_range, W64; lia).
    rewrite i64_id; unfold i64_range; bool_lia.
Qed.

Lemma NextTask_counts : counts held_task 0 NextTask.
Proof.
  unfold NextTask. do 3 account_one;
    (apply (owes_bind _ _ _ _ held); [|intros a; done]);
    [apply NextVersionToValidate_counts|apply NextVersionToExecute_counts].
Qed.

(** A program that keeps its task, followed by another. *)
Lemma counts_keep {A B} (post : B → Z) (p : prog Scheduler A) (k : A → prog Scheduler B) :
  counts (λ _, 1) 1 p → (∀ a, counts post 1 (k a)) → counts post 1 (pbind p k).
Proof. intros Hp Hk. by apply (owes_bind _ _ _ _ (λ _, 1) _ _ _ _ Hp). Qed.

Lemma WaitForDependency_counts txn blocking :
  counts (λ _, 1) 1 (WaitForDependency txn blocking).
Proof.
  unfold WaitForDependency, Lock, Unlock, check_executed.
  apply counts_act. intros s s' x [= <- <-].
  split; [done|]. split; [by repeat split|]. account.
Qed.

Lemma execute_counts txn blocking : counts (λ _, 1) 1 (execute txn blocking).
Proof.
  induction blocking as [|b blocking IH]; [done|]. cbn [execute].
  apply counts_keep; [|done]. unfold waitFor.
  apply counts_keep; [apply WaitForDependency_counts|].
  intros [c|]; [|done]. intros s s' x [Hr _] H. exists 1.
  destruct (cond_Wait (conds s) c) as [cs| |]; [|done..]. injection H as <- <-. cbn.
  replace (_ + _) with (num_active_tasks s) by lia. rewrite u64_id by done.
  split; [done|]. split; [by repeat split|]. by split.
Qed.

Lemma ResumeDependencies_counts txns : counts (λ _, 1) 1 (ResumeDependencies txns).
Proof.
  induction txns as [|t txns IH]; [done|]. cbn [ResumeDependencies].
  apply counts_act. intros s s' x H.
  destruct (at_index _ _) as [e|]; [|done]. cbn in H.
  destruct (Resume e) as [[e' c]| |]; [|done..]. cbn in H.
  destruct (set_index _ _ _) as [st|] eqn:E; [|done]. apply set_index_length in E.
  injection H as <- <-. by repeat split.
Qed.

Lemma FinishExecution_counts version wrote :
  counts held_task 1 (FinishExecution version wrote).
Proof.
  unfold FinishExecution, Swap, DecreaseValidationIdx.
  apply counts_on_status; intros Hidx _. apply counts_on_dependency; intros deps.
  apply counts_keep; [apply ResumeDependencies_counts|intros []]. account.
  destruct version. cbn in *. unfold held_task. cbn. by rewrite held_nonneg.
Qed.

Lemma FinishValidation_counts txn aborted : counts held_task 1 (FinishValidation txn aborted).
Proof.
  unfold FinishValidation, DecreaseValidationIdx. destruct aborted; [|account].
  do 5 account_one; [|account].
  apply (owes_bind _ _ _ _ held); [apply TryIncarnate_counts|done].
Qed.

Lemma Run_round_counts a version kind :
  counts (λ t, from_option held_task (held version) t) (held version) (Run_round a version kind).
Proof.
  assert (0 <= held version <= 1) as Hh by (unfold held; destruct (version_Valid version); lia).
  unfold Run_round, Done. apply counts_load; [done|]. intros s Hs.
  destruct (done_marker s); [done|].
  destruct (version_Valid version) eqn:Ev; cbn [negb].
  - assert (held version = 1) as Hv by (unfold held; by rewrite Ev). rewrite Hv.
    apply (owes_bind _ _ _ _ held_task); [|done]. destruct kind.
    + unfold TryExecute. apply counts_modify; [intros ?; by repeat split|].
      apply counts_keep; [apply execute_counts|intros []].
      apply FinishExecution_counts.
    + unfold NeedsReexecution, try_validation_abort.
      apply counts_modify; [intros ?; by repeat split|].
      destruct (ans_valid a); [apply FinishValidation_counts|].
      apply counts_on_status. intros _ aborted. apply FinishValidation_counts.
  - destruct (ans_cancelled a); [done|].
    assert (held version = 0) as Hv by (unfold held; by rewrite Ev). rewrite Hv.
    apply (owes_bind _ _ _ _ held_task); [apply NextTask_counts|done].
Qed.

(** ** Several executors *)

Record worker := Worker {
  w_version : TxnVersion;
  w_kind : TaskKind;
  w_prog : prog Scheduler (option (TxnVersion * TaskKind));
}.

(** One atomic action of a worker, or the start of its next round, whatever
    the callback and the memory answer. *)
Inductive exec_step : Scheduler * list worker → Scheduler * list worker → Prop :=
| exec_act s s' ws i v k X (act : Scheduler → outcome (Scheduler * X)) c x :
    ws !! i = Some (Worker v k (Act act c)) → act s = Returns (s', x) →
    exec_step (s, ws) (s', <[i := Worker v k (c x)]> ws)
| exec_round s ws i v k v' k' a :
    ws !! i = Some (Worker v k (Ret (Some (v', k')))) →
    exec_step (s, ws) (s, <[i := Worker v' k' (Run_round a v' k')]> ws).

(** Executors that have just entered [Run]. *)
Definition start_worker (a : answers) : worker :=
  Worker InvalidTxnVersion TaskKindExecution (Run_round a InvalidTxnVersion TaskKindExecution).

Definition reachable (size : nat) (ws0 : list answers) : Scheduler * list worker → Prop :=
  rtc exec_step (NewScheduler size, start_worker <$> ws0).

(** The same steps, kept account of: what an executor has added to the counter is
    put down as its own. *)
Inductive held_step : Scheduler * list worker * list Z → Scheduler * list worker * list Z → Prop :=
| held_act s s' ws tokens i v k X (act : Scheduler → outcome (Scheduler * X)) c x t :
    ws !! i = Some (Worker v k (Act act c)) → act s = Returns (s', x) → tokens !! i = Some t →
    held_step (s, ws, tokens)
      (s', <[i := Worker v k (c x)]> ws, <[i := t + (num_active_tasks s' - num_active_tasks s)]> tokens)
| held_round s ws tokens i v k v' k' a :
    ws !! i = Some (Worker v k (Ret (Some (v', k')))) →
    held_step (s, ws, tokens) (s, <[i := Worker v' k' (Run_round a v' k')]> ws, tokens).

Definition ran (size : nat) (ws0 : list answers) : Scheduler * list worker * list Z → Prop :=
  rtc held_step (NewScheduler size, start_worker <$> ws0, replicate (length ws0) 0).

Lemma held_step_length s ws tokens s' ws' tokens' : held_step (s, ws, tokens) (s', ws', tokens') →
  length ws' = length ws ∧ length tokens' = length tokens.
Proof. inversion 1; subst; by rewrite ?length_insert. Qed.

(** Every run can be kept account of. *)
Lemma reachable_ran size ws0 s ws : reachable size ws0 (s, ws) → ∃ tokens, ran size ws0 (s, ws, tokens).
Proof.
  intros Hr. unfold reachable in Hr. remember (s, ws) as st eqn:Est.
  enough (∃ tokens, ran size ws0 (st.1, st.2, tokens) ∧ length tokens = length st.2) as (tokens & H & _) by (subst; eauto).
  clear Est. revert st Hr. apply (rtc_ind_r (λ st, ∃ tokens, ran size ws0 (st.1, st.2, tokens) ∧ length tokens = length st.2)).
  2: intros [s1 ws1] st2 _ Hstep (tokens & Hran & Hlen).
  { exists (replicate (length ws0) 0). split; [apply rtc_refl|]. cbn. by rewrite length_replicate, length_fmap. }
  cbn in *. inversion Hstep as [s' s2 ws' i v k X act c x Hw Hact|s' ws' i v k v' k' a Hw]; subst.
  - destruct (lookup_lt_is_Some_2 tokens i) as [t Ht]; [rewrite Hlen; by eapply lookup_lt_Some|].
    eexists. split; [by eapply rtc_r; [exact Hran|eapply held_act]|]. cbn. by rewrite !length_insert.
  - exists tokens. split; [by eapply rtc_r; [exact Hran|eapply held_round]|]. cbn. by rewrite length_insert.
Qed.

Definition sum_tokens (l : list Z) : Z := foldr Z.add 0 l.

Lemma sum_tokens_insert l i t t' :
  l !! i = Some t → sum_tokens (<[i := t']> l) = sum_tokens l + (t' - t).
Proof.
  revert i; induction l as [|x l IH]; intros [|i] H; simpl in *; simplify_eq; [lia|].
  rewrite (IH i) by done. lia.
Qed.

Lemma sum_tokens_bound l :
  Forall (λ t, 0 <= t <= 1) l → 0 <= sum_tokens l <= Z.of_nat (length l).
Proof. induction 1; simpl; lia. Qed.

(** The accounting invariant of a pool. *)
Record accounted (size : nat) (tokens : list Z) (st : Scheduler * list worker) : Prop := {
  acc_size : block_size st.1 = Z.of_nat size;
  acc_len : length tokens = length st.2;
  acc_cap : Forall (λ t, 0 <= t <= 1) tokens;
  acc_sum : num_active_tasks st.1 = sum_tokens tokens;
  acc_owes : ∀ i w t, st.2 !! i = Some w → tokens !! i = Some t →
    counts (λ o, from_option held_task (held (w_version w)) o) t (w_prog w);
}.

Lemma held_bound v : 0 <= held v <= 1.
Proof. unfold held. destruct (version_Valid v); lia. Qed.

Lemma accounted_start size ws0 :
  accounted size (replicate (length ws0) 0) (NewScheduler size, start_worker <$> ws0).
Proof.
  split; cbn.
  - done.
  - by rewrite length_replicate, length_fmap.
  - apply Forall_replicate. lia.
  - induction ws0; simpl; [done|]. by rewrite <- IHws0.
  - intros i w t Hw [-> _]%lookup_replicate.
    apply list_lookup_fmap_Some in Hw as (a & -> & _).
    apply (Run_round_counts a InvalidTxnVersion TaskKindExecution).
Qed.

Lemma accounted_update size tokens s s' ws i w w' t t' :
  accounted size tokens (s, ws) → ws !! i = Some w → tokens !! i = Some t →
  0 <= t' <= 1 → block_size s' = block_size s →
  num_active_tasks s' = sum_tokens tokens + (t' - t) →
  counts (λ o, from_option held_task (held (w_version w')) o) t' (w_prog w') →
  accounted size (<[i := t']> tokens) (s', <[i := w']> ws).
Proof.
  intros [Hsize Hlen Hcap Hsum Howes] Hw Ht Ht' Hs' Hn Hc; cbn in *. split; cbn.
  - congruence.
  - by rewrite !length_insert.
  - by apply Forall_insert.
  - by rewrite (sum_tokens_insert _ _ t).
  - intros j w1 t1. destruct (decide (i = j)) as [<-|Hne].
    + rewrite !list_lookup_insert_eq by (eapply lookup_lt_Some; eauto).
      by intros [= <-] [= <-].
    + rewrite !list_lookup_insert_ne by done. apply Howes.
Qed.

(** One action: the token it leaves, and what it may have done without one. *)
Lemma accounted_act size tokens s s' ws i v k X (act : Scheduler → outcome (Scheduler * X)) c x t :
  Z.of_nat size < 2 ^ 63 → Z.of_nat (length tokens) < W64 → accounted size tokens (s, ws) →
  ws !! i = Some (Worker v k (Act act c)) → act s = Returns (s', x) → tokens !! i = Some t →
  (t = 0 → idle_change s s') ∧
  accounted size (<[i := t + (num_active_tasks s' - num_active_tasks s)]> tokens) (s', <[i := Worker v k (c x)]> ws).
Proof.
  intros Hsz Hnw Hacc Hw Hact Ht. pose proof Hacc as [Hsize Hlen Hcap Hsum Howes]; cbn in *.
  pose proof (Howes i _ t Hw Ht) as Hc; cbn in Hc. pose proof (sum_tokens_bound tokens Hcap) as Hb.
  assert (sched_range s) as Hr by (unfold sched_range, u64_range; lia).
  destruct (Hc s s' x Hr Hact) as (t' & Hn & [(Hs' & _) Hidle] & Ht' & Hc').
  assert (0 <= sum_tokens (<[i := t']> tokens) <= Z.of_nat (length tokens)) as Hb'.
  { rewrite <- (length_insert tokens i t'). by apply sum_tokens_bound, Forall_insert. }
  rewrite (sum_tokens_insert _ _ t) in Hb' by done.
  rewrite Hsum, u64_id in Hn by (unfold u64_range; lia). split; [done|].
  replace (t + (num_active_tasks s' - num_active_tasks s)) with t' by lia.
  eapply accounted_update; eauto.
Qed.

Lemma accounted_step size s ws tokens s' ws' tokens' :
  Z.of_nat size < 2 ^ 63 → Z.of_nat (length tokens) < W64 →
  accounted size tokens (s, ws) → held_step (s, ws, tokens) (s', ws', tokens') → accounted size tokens' (s', ws').
Proof.
  intros Hsz Hnw Hacc Hstep. inversion Hstep as [? ? ? ? i v k X act c x t Hw Hact Ht|? ? ? i v k v' k' a Hw]; subst.
  - by eapply accounted_act.
  - pose proof Hacc as [Hsize Hlen Hcap Hsum Howes]; cbn in *.
    destruct (lookup_lt_is_Some_2 tokens' i) as [t Ht]; [rewrite Hlen; by eapply lookup_lt_Some|].
    assert (t = held v') as -> by exact (Howes i _ t Hw Ht).
    rewrite <- (list_insert_id tokens' i (held v')) by done.
    eapply accounted_update; eauto using held_bound; [lia|]. apply Run_round_counts.
Qed.

Lemma ran_accounted size ws0 s ws tokens :
  Z.of_nat size < 2 ^ 63 → Z.of_nat (length ws0) < W64 → ran size ws0 (s, ws, tokens) →
  accounted size tokens (s, ws) ∧ length tokens = length ws0.
Proof.
  intros Hsz Hn Hr. unfold ran in Hr. remember (s, ws, tokens) as st eqn:Est.
  enough (accounted size st.2 st.1 ∧ length st.2 = length ws0) as H by by subst.
  clear Est. revert st Hr. apply (rtc_ind_r (λ st, accounted size st.2 st.1 ∧ length st.2 = length ws0)).
  2: intros [[s1 ws1] t1] [[s2 ws2] t2] _ Hstep [IH Hl]; cbn in *.
  - split; [apply accounted_start|apply length_replicate].
  - split; [eapply accounted_step; [done| |done..]; lia|]. apply held_step_length in Hstep as [_ Hl']. lia.
Qed.

(** C12: The documented invariant of [num_active_tasks].  Put down, along any
    interleaving of any number of executors, what each executor has added to the
    counter and taken off it: that is always 0 or 1, and the counter is the sum,
    so it never wraps around.  An executor between two rounds has one there exactly
    when it has a valid version; and inside a round, one that has none can do nothing but take one or set [done_marker]:
    claiming an index, executing, suspending, resuming, finishing and aborting all happen with
    a task held.  In particular, while the counter is 0, no executor is about to
    do any of these, or has a task to run. *)
Theorem num_active_tasks_exact size ws0 s ws :
  Z.of_nat size < 2 ^ 63 → Z.of_nat (length ws0) < W64 → reachable size ws0 (s, ws) →
  (∃ tokens, ran size ws0 (s, ws, tokens)) ∧
  ∀ tokens, ran size ws0 (s, ws, tokens) →
    length tokens = length ws ∧ Forall (λ t, 0 <= t <= 1) tokens ∧
    num_active_tasks s = sum_tokens tokens ∧
    (∀ i w version kind, ws !! i = Some w → w_prog w = Ret (Some (version, kind)) →
      tokens !! i = Some (held version) ∧ (num_active_tasks s = 0 → version_Valid version = false)) ∧
    (∀ i v k X (act : Scheduler → outcome (Scheduler * X)) c s' x,
      ws !! i = Some (Worker v k (Act act c)) → act s = Returns (s', x) →
      tokens !! i = Some 0 ∨ num_active_tasks s = 0 → idle_change s s').
Proof.
  intros Hsz Hn Hr. split; [by apply reachable_ran|]. intros tokens Hran.
  destruct (ran_accounted size ws0 s ws tokens Hsz Hn Hran) as [Hacc Hl]. pose proof Hacc as [_ Hlen Hcap Hsum Howes].
  cbn in *. split; [done|]. split; [done|]. split; [done|].
  assert (∀ i t, tokens !! i = Some t → num_active_tasks s = 0 → t = 0) as Hzero.
  { intros i t Ht H0. pose proof (Forall_lookup_1 _ _ _ _ Hcap Ht) as Hb. cbn in Hb.
    assert (sum_tokens (<[i := 0]> tokens) = - t) as Hs by (rewrite (sum_tokens_insert _ _ t) by done; lia).
    assert (0 <= sum_tokens (<[i := 0]> tokens)) by (apply sum_tokens_bound, Forall_insert; [done|lia]). lia. }
  split.
  - intros i w version kind Hw Hp.
    destruct (lookup_lt_is_Some_2 tokens i) as [t Ht]; [rewrite Hlen; by eapply lookup_lt_Some|].
    pose proof (Howes i w t Hw Ht) as Hc. rewrite Hp in Hc. cbn in Hc. subst t.
    split; [done|]. intros H0. pose proof (Hzero i _ Ht H0) as H1. unfold held_task, held in H1. cbn in H1.
    by destruct (version_Valid version).
  - intros i v k X act c s' x Hw Hact H0.
    destruct (lookup_lt_is_Some_2 tokens i) as [t Ht]; [rewrite Hlen; by eapply lookup_lt_Some|].
    destruct (accounted_act size tokens s s' ws i v k X act c x t Hsz ltac:(lia) Hacc Hw Hact Ht) as [Hidle _].
    apply Hidle. destruct H0 as [H0|H0]; [rewrite Ht in H0; congruence|by eapply Hzero].
Qed.

(** ** What each method does when nobody interferes *)

Record sched_wf (s : Scheduler) : Prop := {
  swf_size : 0 <= block_size s < 2 ^ 62;
  swf_exec : 0 <= execution_idx s < 2 ^ 62;
  swf_valid : 0 <= validation_idx s < 2 ^ 62;
  swf_active : 0 <= num_active_tasks s < 2 ^ 62;
  swf_status : Z.of_nat (length (txn_status s)) = block_size s;
  swf_deps : Z.of_nat (length (txn_dependency s)) = block_size s;
}.

(** The entry of a transaction of the block. *)
Definition entry_at (s : Scheduler) (txn : Z) : StatusEntry :=
  default new_entry (at_index (txn_status s) txn).

Definition with_entry (txn : Z) (e : StatusEntry) (s : Scheduler) : Scheduler :=
  set_txn_status (<[Z.to_nat txn := e]> (txn_status s)) s.

(** The state after a completion check. *)
Definition checked (s : Scheduler) : Scheduler :=
  if (block_size s <=? execution_idx s) && (block_size s <=? validation_idx s) &&
     (num_active_tasks s =? 0)
  then set_done_marker true s else s.

Definition NextTask_spec (s : Scheduler) : Scheduler * (TxnVersion * TaskKind) :=
  if validation_idx s <? execution_idx s then
    if block_size s <=? validation_idx s then (checked s, (InvalidTxnVersion, TaskKindValidation))
    else
      let txn := validation_idx s in
      let s1 := set_validation_idx (txn + 1) s in
      let e := entry_at s txn in
      if decide (e_status e = StatusExecuted)
      then (set_num_active_tasks (num_active_tasks s + 1) s1,
            (MkVersion txn (e_incarnation e), TaskKindValidation))
      else (s1, (InvalidTxnVersion, TaskKindValidation))
  else
    if block_size s <=? execution_idx s then (checked s, (InvalidTxnVersion, TaskKindExecution))
    else
      let txn := execution_idx s in
      let s1 := set_execution_idx (txn + 1) s in
      let e := entry_at s txn in
      if decide (e_status e = StatusReadyToExecute)
      then (set_num_active_tasks (num_active_tasks s + 1)
              (with_entry txn (setStatus e StatusExecuting) s1),
            (MkVersion txn (e_incarnation e), TaskKindExecution))
      else (s1, (InvalidTxnVersion, TaskKindExecution)).

Lemma run_on_status {X A} txn (f : StatusEntry → outcome (StatusEntry * X)) (k : X → prog Scheduler A) s e' x :
  0 <= txn < Z.of_nat (length (txn_status s)) → f (entry_at s txn) = Returns (e', x) →
  run (pbind (on_status txn f) k) s = run (k x) (with_entry txn e' s).
Proof.
  intros Ht Hf. destruct (at_index_in (txn_status s) txn Ht) as [e He].
  unfold entry_at in Hf. rewrite He in Hf. cbn in *. rewrite He. cbn. rewrite Hf. cbn.
  by rewrite set_index_in.
Qed.

Lemma with_entry_same s txn :
  0 <= txn < Z.of_nat (length (txn_status s)) → with_entry txn (entry_at s txn) s = s.
Proof.
  intros Ht. destruct (at_index_in (txn_status s) txn Ht) as [e He].
  unfold with_entry, entry_at. rewrite He. cbn. rewrite set_index_same by done. by destruct s.
Qed.

Lemma u64_small z : 0 <= z < 2 ^ 63 → u64 z = z.
Proof. intros H. apply u64_id. unfold u64_range, W64. lia. Qed.

Lemma run_CheckDone {A} s (k : unit → prog Scheduler A) :
  sched_wf s → run (pbind CheckDone k) s = run (k tt) (checked s).
Proof.
  intros [Hsz Hex Hva _ _ _]. cbn. unfold checked.
  rewrite u64_small by lia.
  destruct (block_size s <=? execution_idx s); cbn; [|done].
  destruct (block_size s <=? validation_idx s); cbn; [|done].
  destruct (num_active_tasks s =? 0); cbn; [|done].
  by rewrite Z.eqb_refl.
Qed.

Lemma run_fetch {A} (get : Scheduler → Z) (set : Z → Scheduler → Scheduler) (k : Z → prog Scheduler A) s :
  0 <= get s < 2 ^ 62 →
  run (pbind (atomic (λ s, let '(v, old) := FetchIncr (get s) in Returns (set v s, old))) k) s =
    run (k (get s)) (set (get s + 1) s).
Proof.
  intros H. assert (FetchIncr (get s) = (get s + 1, get s)) as E.
  { rewrite FetchIncr_spec by (unfold u64_range, W64; lia). by rewrite u64_small by lia. }
  cbn -[FetchIncr]. by rewrite E.
Qed.

Lemma run_load {X A} (f : Scheduler → X) (k : X → prog Scheduler A) s :
  run (pbind (load f) k) s = run (k (f s)) s.
Proof. done. Qed.

Lemma run_incr {A} (k : unit → prog Scheduler A) s :
  0 <= num_active_tasks s < 2 ^ 62 →
  run (pbind incr_active k) s = run (k tt) (set_num_active_tasks (num_active_tasks s + 1) s).
Proof. intros H. cbn -[IncrAtomic]. unfold IncrAtomic. by rewrite u64_small by lia. Qed.

Lemma run_decr {A} (k : unit → prog Scheduler A) s :
  0 < num_active_tasks s < 2 ^ 63 →
  run (pbind decr_active k) s = run (k tt) (set_num_active_tasks (num_active_tasks s - 1) s).
Proof. intros H. cbn -[DecrAtomic]. rewrite DecrAtomic_pos; [done|unfold W64; lia]. Qed.

Lemma entry_at_exec s txn v : entry_at (set_num_active_tasks v (set_execution_idx txn s)) = entry_at s.
Proof. done. Qed.

Lemma set_active_same s v : num_active_tasks s = v → set_num_active_tasks v s = s.
Proof. intros <-. by destruct s. Qed.

(** [NextTask], alone, is the specification [NextTask_spec]: validation
    goes first while its index is behind the execution index; the transaction
    at the chosen index is handed out exactly when it is executed
    (respectively ready, and it is then executing), with its incarnation and
    one more active task; an index past the block only checks for completion;
    and in all other cases the index moves on and nothing else changes. *)
Theorem NextTask_sequential s :
  sched_wf s → run NextTask s = Returns (NextTask_spec s).
Proof.
  intros Hwf. pose proof Hwf as [Hsz Hex Hva Hac Hst _].
  unfold NextTask, NextTask_spec. rewrite !run_load.
  destruct (validation_idx s <? execution_idx s).
  - rewrite run_bind. unfold NextVersionToValidate. rewrite !run_load, u64_small by lia.
    destruct (block_size s <=? validation_idx s) eqn:E; [by rewrite run_CheckDone|].
    rewrite run_incr by lia. unfold fetch_validation_idx. rewrite run_fetch by (cbn; lia).
    cbn -[Z.add pbind run check_executed decr_active entry_at].
    rewrite (proj2 (Z.ltb_lt _ _)) by bool_lia. unfold check_executed.
    erewrite run_on_status; [|cbn; bool_lia|done].
    rewrite with_entry_same by (cbn; bool_lia).
    change (entry_at _ _) with (entry_at s (validation_idx s)). unfold IsExecuted.
    case_decide; cbn -[Z.add entry_at decr_active pbind i64].
    + rewrite i64_id by (unfold i64_range; lia). done.
    + rewrite run_decr by (cbn; lia). cbn. rewrite Z.add_simpl_r. by destruct s.
  - rewrite run_bind. unfold NextVersionToExecute. rewrite !run_load, u64_small by lia.
    destruct (block_size s <=? execution_idx s) eqn:E; [by rewrite run_CheckDone|].
    rewrite run_incr by lia. unfold fetch_execution_idx. rewrite run_fetch by (cbn; lia).
    unfold TryIncarnate. rewrite run_load.
    cbn -[Z.add pbind run on_status decr_active entry_at i64].
    rewrite i64_id by (unfold i64_range; lia). rewrite (proj2 (Z.ltb_lt _ _)) by bool_lia.
    erewrite run_on_status; [|cbn; bool_lia|by rewrite (surjective_pairing (TrySetExecuting _))].
    change (entry_at _ _) with (entry_at s (execution_idx s)).
    set (e := entry_at s (execution_idx s)). unfold TrySetExecuting.
    case_decide; cbn -[Z.add decr_active pbind with_entry].
    + done.
    + unfold e. rewrite run_decr by (cbn; lia). cbn. rewrite Z.add_simpl_r.
      assert (with_entry (execution_idx s) (entry_at s (execution_idx s)) s = s) as Hs
        by (apply with_entry_same; bool_lia).
      unfold with_entry in Hs. apply (f_equal txn_status) in Hs. cbn in Hs.
      unfold with_entry. cbn. rewrite Hs. by destruct s.
Qed.

Definition with_dependency (txn : Z) (d : TxDependency) (s : Scheduler) : Scheduler :=
  set_txn_dependency (<[Z.to_nat txn := d]> (txn_dependency s)) s.

Lemma entry_at_with s i j e :
  0 <= i < Z.of_nat (length (txn_status s)) → 0 <= j →
  entry_at (with_entry i e s) j = if decide (j = i) then e else entry_at s j.
Proof.
  intros Hi Hj. unfold entry_at, with_entry. cbn. rewrite at_index_insert by done. by case_decide.
Qed.

Lemma run_on_dependency {X A} txn (f : TxDependency → outcome (TxDependency * X))
    (k : X → prog Scheduler A) s d d' x :
  at_index (txn_dependency s) txn = Some d → 0 <= txn < Z.of_nat (length (txn_dependency s)) →
  f d = Returns (d', x) →
  run (pbind (on_dependency txn f) k) s = run (k x) (with_dependency txn d' s).
Proof. intros Hd Ht Hf. cbn. rewrite Hd. cbn. rewrite Hf. cbn. by rewrite set_index_in. Qed.

Lemma dep_at_with s i j d :
  0 <= i < Z.of_nat (length (txn_dependency s)) → 0 <= j →
  at_index (txn_dependency (with_dependency i d s)) j =
    if decide (j = i) then Some d else at_index (txn_dependency s) j.
Proof. intros. by apply at_index_insert. Qed.

Lemma with_dependency_twice s i d d' :
  with_dependency i d' (with_dependency i d s) = with_dependency i d' s.
Proof. unfold with_dependency. cbn. by rewrite list_insert_insert_eq. Qed.

(** The state in which [txn] waits for [blocking] on a new condition. *)
Definition waiting (txn blocking : Z) (s : Scheduler) : Scheduler :=
  with_dependency blocking (MkTxDependency false [txn])
    (with_entry txn (Suspend (entry_at s txn) (length (conds s)))
       (set_conds (conds s ++ [false]) s)).

Lemma run_WaitForDependency s txn blocking :
  sched_wf s → 0 <= blocking < block_size s → 0 <= txn < block_size s →
  at_index (txn_dependency s) blocking = Some (MkTxDependency false []) →
  run (WaitForDependency txn blocking) s =
    if decide (e_status (entry_at s blocking) = StatusExecuted)
    then Returns (set_conds (conds s ++ [false]) s, None)
    else Returns (waiting txn blocking s, Some (length (conds s))).
Proof.
  intros [_ _ _ _ Hst Hde] Hb Ht Hdep. unfold WaitForDependency, Lock, Unlock, check_executed.
  change (run (pbind (atomic ?f) ?k) s) with ('(s', x) ← f s; run (k x) s').
  cbn [NewCondvar mbind outcome_bind].
  set (s0 := set_conds _ s).
  assert (∀ d, at_index (txn_dependency (with_dependency blocking d s0)) blocking = Some d) as Hwd.
  { intros d. rewrite dep_at_with by (cbn; lia). by rewrite decide_True. }
  erewrite run_on_dependency; [|exact Hdep|cbn; lia|done].
  erewrite run_on_status; [|cbn; lia|by rewrite (surjective_pairing (IsExecuted _))].
  rewrite with_entry_same by (cbn; lia).
  change (entry_at _ blocking) with (entry_at s blocking). unfold IsExecuted.
  case_decide as Hex; cbn [fst snd].
  - erewrite run_on_dependency; [|apply Hwd|cbn; rewrite length_insert; lia|done].
    rewrite with_dependency_twice. cbn [run dependents].
    f_equal. f_equal. unfold with_dependency. cbn. rewrite set_index_same by done. by destruct s.
  - erewrite run_on_status; [|cbn; lia|done].
    erewrite run_on_dependency; [|apply Hwd|cbn; rewrite length_insert; lia|done].
    erewrite run_on_dependency; [|cbn; rewrite list_insert_insert_eq; apply Hwd|
      cbn; rewrite !length_insert; lia|done].
    cbn [run]. f_equal. f_equal. unfold waiting.
    unfold with_dependency, with_entry. cbn. by rewrite !list_insert_insert_eq.
Qed.

(** A transaction that finds an ESTIMATE of [blocking] and suspends is
    resumed by the end of [blocking]'s execution: after [WaitForDependency]
    and then [FinishExecution] of the blocking transaction, it is executing
    again, its condition is signalled, so that its [Wait] returns, and it is
    no longer listed; and no wait happens when the blocking transaction has
    already executed. *)
Lemma dependency_resumed s txn version wrote :
  sched_wf s → 0 < num_active_tasks s → 0 <= Index version → Index version < txn → txn < block_size s →
  at_index (txn_dependency s) (Index version) = Some (MkTxDependency false []) →
  let executed := bool_decide (e_status (entry_at s (Index version)) = StatusExecuted) in
  ∃ s1, run (WaitForDependency txn (Index version)) s =
      Returns (s1, if executed then None else Some (length (conds s))) ∧
    (executed = false →
       e_status (entry_at s1 txn) = StatusSuspended ∧ cond_Wait (conds s1) (length (conds s)) = Waits ∧
       ∃ s2 t, run (FinishExecution version wrote) s1 = Returns (s2, t) ∧
         e_status (entry_at s2 txn) = StatusExecuting ∧
         e_status (entry_at s2 (Index version)) = StatusExecuted ∧
         cond_Wait (conds s2) (length (conds s)) = Returns (conds s2) ∧
         at_index (txn_dependency s2) (Index version) = Some (MkTxDependency false [])).
Proof.
  intros Hwf Hact H0 Hlt Htx Hdep executed. pose proof Hwf as [Hsz Hex Hva Hac Hst Hde].
  rewrite run_WaitForDependency by (done || lia). unfold executed.
  case_decide as Hex'; [eexists; rewrite bool_decide_eq_true_2 by done; by split|].
  rewrite bool_decide_eq_false_2 by done. eexists. split; [done|]. intros _.
  set (c := length (conds s)). set (b := Index version) in *. set (w := waiting txn b s).
  assert (entry_at w txn = Suspend (entry_at s txn) c) as Hwt.
  { unfold w, waiting, entry_at. cbn. rewrite at_index_insert by lia. by rewrite decide_True. }
  assert ((conds s ++ [false]) !! c = Some false) as Hc
    by (unfold c; by rewrite lookup_app_r, Nat.sub_diag).
  rewrite Hwt. split; [done|]. split; [unfold w; cbn; unfold cond_Wait; by rewrite Hc|].
  unfold FinishExecution, Swap. fold b.
  erewrite run_on_status; [|cbn; rewrite length_insert; lia|done].
  set (w1 := with_entry b _ w).
  assert (at_index (txn_dependency w1) b = Some (MkTxDependency false [txn])) as Hd.
  { unfold w1, w, waiting. cbn. rewrite at_index_insert by lia. by rewrite decide_True. }
  erewrite run_on_dependency; [|exact Hd|cbn; rewrite length_insert; lia|done].
  set (w2 := with_dependency b _ w1). cbn [dependents ResumeDependencies].
  assert (at_index (txn_status w2) txn = Some (Suspend (entry_at s txn) c)) as Het.
  { unfold w2, w1. cbn. rewrite at_index_insert by (rewrite ?length_insert; lia).
    rewrite decide_False by lia. rewrite at_index_insert by lia. by rewrite decide_True. }
  set (w3 := set_conds (Notify (conds w2) c)
    (with_entry txn (MkEntry (e_incarnation (entry_at s txn)) StatusExecuting None) w2)).
  assert (∀ {A} (k : unit → prog Scheduler A), run (pbind (resume_txn txn ;; Ret tt)%prog k) w2 = run (k tt) w3)
    as Hres.
  { intros A k. unfold resume_txn, atomic. cbn [pbind run]. rewrite Het.
    cbn [deref mbind outcome_bind Resume Suspend e_cond e_incarnation].
    rewrite set_index_in by (cbn; rewrite !length_insert; lia). done. }
  rewrite Hres, run_load. change (validation_idx w3) with (validation_idx s).
  assert (∀ s2, txn_status s2 = txn_status w3 → conds s2 = conds w3 →
      txn_dependency s2 = txn_dependency w3 →
      e_status (entry_at s2 txn) = StatusExecuting ∧
      e_status (entry_at s2 b) = StatusExecuted ∧
      cond_Wait (conds s2) c = Returns (conds s2) ∧
      at_index (txn_dependency s2) b = Some (MkTxDependency false [])) as Hfin.
  { intros s2 E1 E2 E3. unfold entry_at. rewrite E1, E2, E3. unfold w3. cbn.
    rewrite !at_index_insert by (rewrite ?length_insert; lia).
    rewrite (decide_True (P := txn = txn)), !(decide_True (P := b = b)),
      (decide_False (P := b = txn)) by (done || lia).
    split; [done|]. split; [done|]. split; [|done].
    unfold cond_Wait, Notify. rewrite list_lookup_insert_eq; [done|].
    rewrite length_app. unfold c. simpl. lia. }
  assert (num_active_tasks w3 = num_active_tasks s) as Hn3 by done.
  destruct (u64 b <? validation_idx s); [destruct wrote|]; cbn [negb].
  - unfold DecreaseValidationIdx. eexists _, _. split; [reflexivity|]. by apply Hfin.
  - eexists _, _. split; [reflexivity|]. by apply Hfin.
  - eexists _, _. split; [reflexivity|]. by apply Hfin.
Qed.

(** Three transactions: the first is executing, the second runs into its estimate. *)
Definition sched3 : Scheduler :=
  MkScheduler 3 3 1 0 2 false (replicate 3 (MkTxDependency false []))
    [MkEntry 0 StatusExecuting None; MkEntry 1 StatusExecuting None; MkEntry 0 StatusExecuted None]
    [] 2 0.

Lemma sched3_wf : sched_wf sched3.
Proof. split; cbn; lia. Qed.

Lemma NextTask_sequential_witness :
  run NextTask sched3 = Returns (NextTask_spec sched3) ∧
  (NextTask_spec sched3).2 = (InvalidTxnVersion, TaskKindValidation).
Proof. split; [apply NextTask_sequential, sched3_wf|vm_compute; reflexivity]. Defined.

Lemma dependency_resumed_witness :
  ∃ s1 s2 t, run (WaitForDependency 1 0) sched3 = Returns (s1, Some 0%nat) ∧
    run (FinishExecution (MkVersion 0 0) false) s1 = Returns (s2, t) ∧
    e_status (entry_at s1 1) = StatusSuspended ∧ e_status (entry_at s2 1) = StatusExecuting.
Proof.
  destruct (dependency_resumed sched3 1 (MkVersion 0 0) false sched3_wf) as (s1 & E1 & H);
    try (cbn; lia); [reflexivity|].
  destruct (H eq_refl) as (Hs1 & _ & s2 & t & E2 & Hs2 & _).
  exists s1, s2, t. auto.
Defined.

Definition no_answers : answers := MkAnswers [] false true false.

(** Executor [i] takes a turn: an action, or the start of its next round. *)
Definition turn (st : Scheduler * list worker * list Z) (i : nat) : Scheduler * list worker * list Z :=
  let '(s, ws, tokens) := st in
  match ws !! i, tokens !! i with
  | Some (Worker v k (Act act c)), Some t =>
      match act s with
      | Returns (s', x) => (s', <[i := Worker v k (c x)]> ws, <[i := t + (num_active_tasks s' - num_active_tasks s)]> tokens)
      | _ => st
      end
  | Some (Worker v k (Ret (Some (v', k')))), _ => (s, <[i := Worker v' k' (Run_round no_answers v' k')]> ws, tokens)
  | _, _ => st
  end.

Lemma turn_steps st i : rtc held_step st (turn st i).
Proof.
  destruct st as [[s ws] tokens]. unfold turn. destruct (ws !! i) as [[v k [[[v' k']|]|X act c]]|] eqn:Ew; [| | |done].
  - apply rtc_once. exact (held_round s ws tokens i v k v' k' no_answers Ew).
  - by destruct (tokens !! i).
  - destruct (tokens !! i) as [t|] eqn:Et; [|done]. destruct (act s) as [[s' x]| |] eqn:E; [|done..].
    eapply rtc_once, held_act; eauto.
Qed.

Lemma turns_steps st turns : rtc held_step st (foldl turn st turns).
Proof. revert st. induction turns as [|i turns IH]; intros st; [done|]. etrans; [apply turn_steps|apply IH]. Qed.

Lemma ran_reachable size ws0 s ws tokens : ran size ws0 (s, ws, tokens) → reachable size ws0 (s, ws).
Proof.
  intros Hr. unfold ran in Hr. remember (s, ws, tokens) as st eqn:Est. enough (reachable size ws0 st.1) as H by by subst.
  clear Est. revert st Hr. apply (rtc_ind_r (λ st, reachable size ws0 st.1)); [apply rtc_refl|].
  intros [[s1 ws1] t1] [[s2 ws2] t2] _ Hstep IH.
  eapply rtc_r; [exact IH|]. cbn. inversion Hstep; subst; [by eapply exec_act|by eapply exec_round].
Qed.

(** Two executors on three transactions, in turn, after [n] turns. *)
Definition busy (n : nat) : Scheduler * list worker * list Z :=
  foldl turn (NewScheduler 3, start_worker <$> [no_answers; no_answers], replicate 2 0)
    (take n (mjoin (replicate n [0; 1]%nat))).

Lemma busy_ran n : ran 3 [no_answers; no_answers] (busy n).
Proof. apply turns_steps. Qed.

(** After 17 turns both hold a task: the first is back with the first transaction,
    the second has claimed its own within a round.  After 11 turns only the
    first does: the other can do nothing yet but take one too. *)
Lemma num_active_tasks_exact_witness :
  (let '(s, ws, tokens) := busy 17 in
     num_active_tasks s = sum_tokens tokens ∧ tokens = [1; 1] ∧ execution_idx s = 2 ∧
     ∃ w, ws !! 0%nat = Some w ∧ w_prog w = Ret (Some (MkVersion 0 0, TaskKindExecution))) ∧
  (let '(s, ws, tokens) := busy 11 in
     tokens = [1; 0] ∧ ∀ v k X (act : Scheduler → outcome (Scheduler * X)) c s' x,
       ws !! 1%nat = Some (Worker v k (Act act c)) → act s = Returns (s', x) → idle_change s s').
Proof.
  split.
  - assert (let '(s, ws, tokens) := busy 17 in tokens = [1; 1] ∧ execution_idx s = 2 ∧
      ∃ w, ws !! 0%nat = Some w ∧ w_prog w = Ret (Some (MkVersion 0 0, TaskKindExecution))) as H
      by (vm_compute; split_and!; [reflexivity..|]; eexists; split; reflexivity).
    pose proof (busy_ran 17) as Hr. destruct (busy 17) as [[s ws] tokens].
    destruct (num_active_tasks_exact 3 [no_answers; no_answers] s ws) as [_ Hn]; [done|done|by eapply ran_reachable|].
    destruct (Hn tokens Hr) as (_ & _ & Hsum & _). split; [exact Hsum|exact H].
  - assert (let '(s, ws, tokens) := busy 11 in tokens = [1; 0]) as H by (vm_compute; reflexivity).
    pose proof (busy_ran 11) as Hr. destruct (busy 11) as [[s ws] tokens]. split; [exact H|].
    destruct (num_active_tasks_exact 3 [no_answers; no_answers] s ws) as [_ Hn]; [done|done|by eapply ran_reachable|].
    destruct (Hn tokens Hr) as (_ & _ & _ & _ & Hidle). intros v k X act c s' x Hw Hact.
    apply (Hidle 1%nat v k X act c s' x Hw Hact). left. by rewrite H.
Defined.
