(* ===== verification/Cells.v ===== *)
(** * The multi-version store as a table of cells

    A specification of [GMVData] for the concurrent kernel: at most one entry
    per key and transaction, its _cell_.  A recorded read is [current] when a
    read of the key would return its version now; the point of ESTIMATE marks
    is [current_overwrite]: a change to a marked cell never invalidates a read. *)

From Stdlib Require Import ZArith Lia.
From S2P Require Import Prelude Utils BTree BTreeIterator Types MemDB MVData MVDataFacts MVValidate MVProps.
Local Open Scope Z_scope.

Section cells.
Context {BT : BTreeLib} {BL : BTreeLaws} {V : Type} `{!GoZero V}.
Implicit Types (d : GMVData V) (e : secondaryDataItem V).

Definition cell d (key : Bytes) (txn : Z) : option (secondaryDataItem V) :=
  findb (λ e, bool_decide (s_Index e = txn)) (entries d key).

Lemma cell_Some d key txn e : mv_wf d → cell d key txn = Some e ↔ e ∈ entries d key ∧ s_Index e = txn.
Proof.
  intros Hwf. unfold cell. split.
  - by intros [He Ht%bool_decide_eq_true]%findb_Some.
  - intros [He Ht]. pose proof (entries_sorted d key Hwf) as Hs.
    rewrite (findb_ext _ (same secondaryLesser e)); [by apply (findb_sorted secondaryLesser)|].
    intros x. rewrite same_txn, Ht. apply bool_decide_ext; split; congruence.
Qed.

Lemma cell_None d key txn : cell d key txn = None ↔ ∀ e, e ∈ entries d key → s_Index e ≠ txn.
Proof.
  unfold cell. rewrite findb_None. by setoid_rewrite bool_decide_eq_false.
Qed.

(** [d'] is [d] with one cell changed. *)
Definition cell_update d key txn (o : option (secondaryDataItem V)) d' : Prop :=
  mv_wf d' ∧ ∀ k t, cell d' k t = if decide (k = key ∧ t = txn) then o else cell d k t.

Lemma put_cell d d' key e :
  mv_wf d → changes_entries d key (put_entry e) d' → cell_update d key (s_Index e) (Some e) d'.
Proof.
  intros Hwf (Hwf' & He & _). split; [done|]. intros k t. apply option_eq. intros x. rewrite cell_Some by done.
  rewrite He. destruct (decide (k = key)) as [->|Hk].
  - unfold put_entry. rewrite elem_of_ins_iff by (apply _ || by apply entries_sorted). rewrite same_txn.
    case_decide as Hd; rewrite ?cell_Some by done.
    + destruct Hd as [_ ->]. split; [|by intros [= ->]; auto].
      intros [[->|[_ Hx]] Ht]; [done|]. apply bool_decide_eq_false in Hx. congruence.
    + split; [|intros [Hx Ht]].
      * intros [[->|[Hx _]] Ht]; [by destruct Hd|done].
      * split; [|done]. right. split; [done|]. apply bool_decide_eq_false. intros E. apply Hd. split; [done|congruence].
  - rewrite decide_False by naive_solver. by rewrite cell_Some.
Qed.

Lemma drop_cell d d' key txn :
  mv_wf d → changes_entries d key (drop_entry txn) d' → cell_update d key txn None d'.
Proof.
  intros Hwf (Hwf' & He & _). split; [done|]. intros k t. apply option_eq. intros x. rewrite cell_Some by done.
  rewrite He. destruct (decide (k = key)) as [->|Hk].
  - unfold drop_entry. rewrite elem_of_del_iff by (apply _ || by apply entries_sorted). rewrite same_txn. cbn [s_Index txn_item].
    case_decide as Hd; rewrite ?cell_Some by done.
    + destruct Hd as [_ ->]. split; [|done]. intros [[Hx Hn] Ht]. apply bool_decide_eq_false in Hn. by destruct Hn.
    + split; [by intros [[? _] ?]|]. intros [Hx Ht]. split; [split; [done|]|done]. apply bool_decide_eq_false.
      intros E. apply Hd. split; [done|congruence].
  - rewrite decide_False by naive_solver. by rewrite cell_Some.
Qed.

Lemma Write_cell d key v version : mv_wf d →
  ∃ d', Write d key v version = Returns d' ∧ cell_update d key (Index version) (Some (value_entry v version)) d'.
Proof.
  intros Hwf. destruct (Write_changes d key v version Hwf) as (d' & E & Hd). exists d'. split; [done|].
  by apply (put_cell d d' key (value_entry v version)).
Qed.

Lemma WriteEstimate_cell d key txn : mv_wf d →
  ∃ d', WriteEstimate d key txn = Returns d' ∧ cell_update d key txn (Some (estimate_entry txn)) d'.
Proof.
  intros Hwf. destruct (WriteEstimate_changes d key txn Hwf) as (d' & E & Hd). exists d'. split; [done|].
  by apply (put_cell d d' key (estimate_entry txn)).
Qed.

Lemma MVDelete_cell d key txn : mv_wf d →
  ∃ d', MVDelete d key txn = Returns d' ∧ cell_update d key txn None d'.
Proof.
  intros Hwf. destruct (MVDelete_changes d key txn Hwf) as (d' & E & Hd). exists d'. split; [done|].
  by apply drop_cell.
Qed.

(** ** Reads *)

(** A read of [key] by [txn] returns this version, without an estimate. *)
Definition current d (txn : Z) (key : Bytes) (version : TxnVersion) : Prop :=
  (version = InvalidTxnVersion ∧ ∀ t, 0 <= t < txn → cell d key t = None) ∨
  (∃ e, cell d key (Index version) = Some e ∧ s_Estimate e = false ∧ secondary_Version e = version ∧
     0 <= Index version < txn ∧ ∀ t, Index version < t < txn → cell d key t = None).

(** No entry belongs to a transaction before the first. *)
Definition indexed d : Prop := ∀ key e, e ∈ entries d key → 0 <= s_Index e.

Lemma closest_cell d key txn e : mv_wf d →
  closest (entries d key) txn = Some e ↔
    cell d key (s_Index e) = Some e ∧ s_Index e < txn ∧ ∀ t, s_Index e < t < txn → cell d key t = None.
Proof.
  intros Hwf. rewrite closest_spec by (by apply entries_sorted). rewrite cell_Some by done. split.
  - intros (He & Hlt & Hmax). split; [done|]. split; [done|]. intros t Ht. apply cell_None. intros e' He' Et.
    destruct (Hmax e' He') as [->|?]; lia.
  - intros ([He _] & Hlt & Hmax). split; [done|]. split; [done|]. intros e' He' Hlt'.
    destruct (Z.lt_trichotomy (s_Index e') (s_Index e)) as [?|[E|Hgt]]; [by right| |].
    + left. assert (cell d key (s_Index e) = Some e') as E1 by (by apply cell_Some).
      assert (cell d key (s_Index e) = Some e) as E2 by (by apply cell_Some). congruence.
    + exfalso. pose proof (Hmax (s_Index e') ltac:(lia)) as Hn. rewrite cell_None in Hn. by apply (Hn e' He').
Qed.

Lemma closest_None_cell d key txn : mv_wf d → indexed d →
  closest (entries d key) txn = None ↔ ∀ t, 0 <= t < txn → cell d key t = None.
Proof.
  intros Hwf Hi. rewrite closest_None. split.
  - intros H t Ht. apply cell_None. intros e He Et. specialize (H e He). lia.
  - intros H e He. destruct (Z.lt_ge_cases (s_Index e) txn) as [Hlt|]; [|done].
    pose proof (Hi key e He). pose proof (H (s_Index e) ltac:(lia)) as Hn. rewrite cell_None in Hn. by destruct (Hn e He).
Qed.

(** A read has the answer of the entry it sees; transaction 0 sees none. *)
Lemma Read_closest d key txn : mv_wf d → indexed d → Read d key txn = Returns (answer (closest (entries d key) txn)).
Proof.
  intros Hwf Hi. rewrite Read_answer by done. destruct (txn =? 0) eqn:E; [|done]. apply Z.eqb_eq in E as ->.
  rewrite (proj2 (closest_None_cell d key 0 Hwf Hi)); [done|]. lia.
Qed.

Lemma Read_current d key txn v version : mv_wf d → indexed d →
  Read d key txn = Returns (v, version, false) →
  current d txn key version ∧ (version_Valid version = true → ∃ e, cell d key (Index version) = Some e ∧
    s_Estimate e = false ∧ secondary_Version e = version ∧ s_Value e = v).
Proof.
  intros Hwf Hi E. rewrite Read_closest in E by done. destruct (closest (entries d key) txn) as [e|] eqn:Ec.
  - apply closest_cell in Ec as (He & Hlt & Hmax); [|done]. injection E as <- <- Ee.
    pose proof (proj1 (cell_Some _ _ _ _ Hwf) He) as [Hin _]. pose proof (Hi key e Hin). split; [|intros _; by exists e]. right. exists e. cbn. do 3 (split; [done|]). split; [lia|done].
  - injection E as <- <-. split; [|done]. left. split; [done|]. by apply closest_None_cell.
Qed.

Lemma current_Read d key txn version : mv_wf d → indexed d →
  current d txn key version → ∃ v, Read d key txn = Returns (v, version, false).
Proof.
  intros Hwf Hi H. rewrite Read_closest by done. destruct H as [[-> H]|(e & He & Ee & <- & Ht & H)].
  - rewrite (proj2 (closest_None_cell d key txn Hwf Hi) H). by eexists.
  - assert (closest (entries d key) txn = Some e) as -> by (apply closest_cell; [done|]; cbn in *; split; [done|]; split; [lia|done]).
    exists (s_Value e). cbn. by rewrite Ee.
Qed.

(** Changes by a transaction do not concern the reads of those before it. *)
Lemma current_later d d' key k t o txn version :
  txn <= t → cell_update d k t o d' → current d txn key version ↔ current d' txn key version.
Proof.
  intros Ht [_ Hc].
  assert (∀ t', t' < txn → cell d' key t' = cell d key t') as E by (intros t' ?; rewrite Hc, decide_False; [done|lia]).
  unfold current. split; (intros [[-> H]|(e & He & Hr)]; [left; split; [done|]|right; exists e]).
  - intros t' Ht'. rewrite E; [auto|lia].
  - destruct Hr as (? & ? & Hr & H). rewrite E by lia. do 4 (split; [done|]). intros t' ?. rewrite E; [auto|lia].
  - intros t' Ht'. rewrite <- E; [auto|lia].
  - destruct Hr as (? & ? & Hr & H). rewrite <- E by lia. do 4 (split; [done|]). intros t' ?. rewrite <- E; [auto|lia].
Qed.

Lemma current_before d d' key k t o txn version :
  txn <= t → cell_update d k t o d' → current d txn key version → current d' txn key version.
Proof. intros Ht Hu. by apply (current_later d d' key k t o). Qed.

(** A read that sees past a marked cell sees past whatever replaces it. *)
Lemma current_overwrite d d' key k t o txn version e :
  0 <= t → cell d k t = Some e → s_Estimate e = true → cell_update d k t o d' →
  current d txn key version → current d' txn key version.
Proof.
  intros Ht He Hm [_ Hc] Hcur.
  destruct (decide (k = key ∧ t < txn)) as [[-> Hlt]|Hn].
  2:{ assert (∀ t', t' < txn → cell d' key t' = cell d key t') as E.
      { intros t' ?. rewrite Hc, decide_False; [done|]. intros [-> ->]. by apply Hn. }
      destruct Hcur as [[-> H]|(e' & He' & H1 & H2 & H3 & H4)]; [left; split; [done|]|right; exists e'].
      - intros t' ?. rewrite E; [auto|lia].
      - rewrite E by lia. do 4 (split; [done|]). intros t' ?. rewrite E; [auto|lia]. }
  destruct Hcur as [[_ H]|(e' & He' & Hm' & H2 & H3 & H4)]; [rewrite H in He by lia; done|].
  right. exists e'. assert (t < Index version) as Hlt'.
  { destruct (Z.lt_trichotomy t (Index version)) as [?|[->|?]]; [done|congruence|]. rewrite H4 in He by lia. done. }
  rewrite Hc, decide_False by lia. do 4 (split; [done|]). intros t' ?. rewrite Hc, decide_False by lia. by apply H4.
Qed.
End cells.
