(* ===== verification/Kernel.v ===== *)
(** * executor.go over mvmemory.go: the whole kernel, step by step

    The executors of [ExecuteBlockWithEstimates], with the transactions they
    run and the memory they share.  What other files treat as one step is
    taken apart here: every read, write, estimate and deletion of a key, every
    load and store of an atomic pointer and every step of the scheduler is an
    action of its own, so that executors interleave as goroutines do.  (Reading
    or changing one key is one action: the inner tree of a key never moves, and
    what others can notice happens when its root is loaded or swapped.)  The
    memory has one store, as the engine's kernel call has, and transactions
    access it by key. *)

From Stdlib Require Import ZArith Lia.
From S2P Require Import Prelude Utils BTree BTreeIterator Types MemDB MVData MVDataFacts MVView Prog Status Scheduler.
Local Open Scope Z_scope.

(** A transaction: what [TxExecutor] does with the view it is given, and its
    result.  It panics when it sets a zero value. *)
Inductive callback (V A : Type) :=
| CReturn (a : A)
| CGet (key : Bytes) (k : V → callback V A)
| CSet (key : Bytes) (value : V) (k : callback V A)
| CDelete (key : Bytes) (k : callback V A).
Arguments CReturn {_ _} _.
Arguments CGet {_ _} _ _.
Arguments CSet {_ _} _ _ _.
Arguments CDelete {_ _} _ _.

Section kernel.
Context {BT : BTreeLib} {V A : Type} `{!GoZero V} (isZero : V → bool).
Context {Store : Type} `{!KVStore Store V} (storage : Store).

(** A finished run of a transaction: its view, its result and, as history, what
    each read of the memory answered. *)
Record attempt := MkAttempt {
  at_view : GMVMemoryView V Store;
  at_log : list (Bytes * TxnVersion * V);
  at_result : A;
}.

(** The scheduler and [MVMemory].  The last two fields are history variables,
    which no action reads: the last recorded attempt of each transaction, and
    what each incarnation has written. *)
Record kernel := MkKernel {
  k_sched : Scheduler;
  k_data : GMVData V;
  k_lastWrittenLocations : list (option (list Bytes));
  k_lastReadSet : list (option ReadSet);
  k_attempts : list (option attempt);
  k_written : gmap (Z * Z * Bytes) V;
}.

Definition put_sched (s : Scheduler) (k : kernel) : kernel :=
  MkKernel s (k_data k) (k_lastWrittenLocations k) (k_lastReadSet k) (k_attempts k) (k_written k).
Definition put_data (d : GMVData V) (k : kernel) : kernel :=
  MkKernel (k_sched k) d (k_lastWrittenLocations k) (k_lastReadSet k) (k_attempts k) (k_written k).
Definition put_locations (l : list (option (list Bytes))) (k : kernel) : kernel :=
  MkKernel (k_sched k) (k_data k) l (k_lastReadSet k) (k_attempts k) (k_written k).
Definition put_written (w : gmap (Z * Z * Bytes) V) (k : kernel) : kernel :=
  MkKernel (k_sched k) (k_data k) (k_lastWrittenLocations k) (k_lastReadSet k) (k_attempts k) w.
Definition put_attempt (rs : list (option ReadSet)) (l : list (option attempt)) (k : kernel) : kernel :=
  MkKernel (k_sched k) (k_data k) (k_lastWrittenLocations k) rs l (k_written k).

Definition on_sched {X} (p : prog Scheduler X) : prog kernel X := lift k_sched put_sched p.

Local Open Scope prog_scope.

(** ** Running a transaction *)

Definition k_Read (key : Bytes) (txn : Z) : prog kernel (V * TxnVersion * bool) :=
  atomic (λ k, r ← Read (k_data k) key txn; Returns (k, r))%stdpp.

(** The loop of [GMVMemoryView.Get]; [fuel] bounds the waits. *)
Fixpoint k_read (fuel : nat) (txn : Z) (key : Bytes) : prog kernel (V * TxnVersion) :=
  match fuel with
  | O => atomic (λ _, Waits)
  | S fuel =>
      '(value, version, estimate) ⇐ k_Read key txn;
      if (estimate : bool) then on_sched (waitFor txn (Index version)) ;; k_read fuel txn key
      else Ret (value, version)
  end.

(** The pending write of a view. *)
Definition own_write (s : GMVMemoryView V Store) (key : Bytes) : option V :=
  match v_writeSet s with
  | None => None
  | Some ws => let '(v, found) := OverlayGet ws key in if (found : bool) then Some v else None
  end.

Fixpoint run_callback (fuel : nat) (s : GMVMemoryView V Store) (log : list (Bytes * TxnVersion * V))
    (c : callback V A) : prog kernel attempt :=
  match c with
  | CReturn a => Ret (MkAttempt s log a)
  | CGet key c =>
      match own_write s key with
      | Some v => run_callback fuel s log (c v)
      | None =>
          '(value, version) ⇐ k_read fuel (v_txn s) key;
          let v := if negb (version_Valid version) then kv_Get (v_storage s) key else value in
          run_callback fuel (add_read s (MkRead key version)) (log ++ [(key, version, v)]) (c v)
      end
  | CSet key v c =>
      match view_Set isZero s key v with
      | Returns s' => run_callback fuel s' log c
      | _ => panic
      end
  | CDelete key c => run_callback fuel (view_Delete s key) log c
  end.

(** ** The memory *)

(** What [ApplyWriteSet] goes through. *)
Definition view_writes (s : GMVMemoryView V Store) : list (Bytes * V) :=
  match v_writeSet s with
  | None => []
  | Some ws => mem_Scan ws
  end.

Fixpoint k_ApplyWriteSet (version : TxnVersion) (writes : list (Bytes * V)) : prog kernel unit :=
  match writes with
  | [] => Ret tt
  | (key, value) :: writes =>
      atomic (λ k, d ← Write (k_data k) key value version;
                   Returns (put_written (<[(Index version, Incarnation version, key) := value]> (k_written k))
                              (put_data d k), tt))%stdpp ;;
      k_ApplyWriteSet version writes
  end.

(** [readLastWrittenLocations]; a nil list of locations is empty. *)
Definition k_locations (txn : Z) : prog kernel (list Bytes) :=
  atomic (λ k, p ← deref (at_index (k_lastWrittenLocations k) txn); Returns (k, default [] p))%stdpp.

Fixpoint k_delete_all (txn : Z) (keys : list Bytes) : prog kernel unit :=
  match keys with
  | [] => Ret tt
  | key :: keys =>
      atomic (λ k, d ← MVDelete (k_data k) key txn; Returns (put_data d k, tt))%stdpp ;;
      k_delete_all txn keys
  end.

(** [rcuUpdateWrittenLocations]: the callback of [DiffOrderedList] deletes the
    keys that are no longer written and notices the new ones. *)
Definition k_rcu (txn : Z) (newLocations : list Bytes) : prog kernel bool :=
  prevLocations ⇐ k_locations txn;
  let diff := diff_list prevLocations newLocations in
  k_delete_all txn (fst <$> filter (λ x, x.2 = false) diff) ;;
  atomic (λ k, l ← deref (set_index (k_lastWrittenLocations k) txn (Some newLocations));
               Returns (put_locations l k, tt))%stdpp ;;
  Ret (existsb snd diff).

Definition k_Record (version : TxnVersion) (a : attempt) : prog kernel bool :=
  let writes := view_writes (at_view a) in
  k_ApplyWriteSet version writes ;;
  wroteNewLocation ⇐ k_rcu (Index version) writes.*1;
  atomic (λ k, rs ← deref (set_index (k_lastReadSet k) (Index version) (Some (v_readSet (at_view a))));
               l ← deref (set_index (k_attempts k) (Index version) (Some a));
               Returns (put_attempt rs l k, tt))%stdpp ;;
  Ret wroteNewLocation.

Fixpoint k_validate_reads (txn : Z) (reads : list ReadDescriptor) : prog kernel bool :=
  match reads with
  | [] => Ret true
  | r :: reads =>
      '(_, version, estimate) ⇐ k_Read (rd_Key r) txn;
      if (estimate : bool) then Ret false
      else if decide (version = rd_Version r) then k_validate_reads txn reads else Ret false
  end.

(** Panics when nothing was recorded.  The read sets have no iterators. *)
Definition k_ValidateReadSet (txn : Z) : prog kernel bool :=
  rs ⇐ atomic (λ k, p ← deref (at_index (k_lastReadSet k) txn); rs ← deref p; Returns (k, rs))%stdpp;
  k_validate_reads txn (rs_Reads rs).

Fixpoint k_estimate_all (txn : Z) (keys : list Bytes) : prog kernel unit :=
  match keys with
  | [] => Ret tt
  | key :: keys =>
      atomic (λ k, d ← WriteEstimate (k_data k) key txn; Returns (put_data d k, tt))%stdpp ;;
      k_estimate_all txn keys
  end.

Definition k_ConvertWritesToEstimates (txn : Z) : prog kernel unit :=
  locations ⇐ k_locations txn;
  k_estimate_all txn locations.

(** ** The executor *)

Context (txExecutor : Z → callback V A).

Definition k_execute (fuel : nat) (txn : Z) : prog kernel attempt :=
  run_callback fuel (NewGMVMemoryView 0 storage txn) [] (txExecutor txn).

Definition k_TryExecute (fuel : nat) (version : TxnVersion) : prog kernel (TxnVersion * TaskKind) :=
  on_sched (modify (λ s, set_stats (i64 (executedTxns s + 1)) (validatedTxns s) s)) ;;
  view ⇐ k_execute fuel (Index version);
  wroteNewLocation ⇐ k_Record version view;
  on_sched (FinishExecution version wroteNewLocation).

Definition k_NeedsReexecution (version : TxnVersion) : prog kernel (TxnVersion * TaskKind) :=
  on_sched (modify (λ s, set_stats (executedTxns s) (i64 (validatedTxns s + 1)) s)) ;;
  valid ⇐ k_ValidateReadSet (Index version);
  aborted ⇐ (if (valid : bool) then Ret false else on_sched (try_validation_abort version));
  (if (aborted : bool) then k_ConvertWritesToEstimates (Index version) else Ret tt) ;;
  on_sched (FinishValidation (Index version) aborted).

(** One round of [Executor.Run]; [None] leaves the loop. *)
Definition k_Run_round (fuel : nat) (cancelled : bool) (version : TxnVersion) (kind : TaskKind) :
    prog kernel (option (TxnVersion * TaskKind)) :=
  d ⇐ on_sched Done;
  if (d : bool) then Ret None
  else if negb (version_Valid version) then
    if cancelled then Ret None
    else t ⇐ on_sched NextTask; Ret (Some t)
  else
    t ⇐ match kind with
        | TaskKindExecution => k_TryExecute fuel version
        | TaskKindValidation => k_NeedsReexecution version
        end;
    Ret (Some t).

(** ** All the executors *)

(** One action of an executor, or the start of its next round: whether the
    context is cancelled by then is open, and so is the bound on the waits of
    the round. *)
Inductive kernel_step : kernel * list (prog kernel (option (TxnVersion * TaskKind))) →
    kernel * list (prog kernel (option (TxnVersion * TaskKind))) → Prop :=
| kernel_act k k' ps i X (act : kernel → outcome (kernel * X)) c x :
    ps !! i = Some (Act act c) → act k = Returns (k', x) →
    kernel_step (k, ps) (k', <[i := c x]> ps)
| kernel_round k ps i version kind fuel cancelled :
    ps !! i = Some (Ret (Some (version, kind))) →
    kernel_step (k, ps) (k, <[i := k_Run_round fuel cancelled version kind]> ps).

(** [NewMVMemoryWithEstimates] and [NewScheduler]: the locations of the
    estimates are recorded, and then turned into estimates. *)
Fixpoint k_init (txn : nat) (estimates : list (list Bytes)) : prog kernel unit :=
  match estimates with
  | [] => Ret tt
  | est :: estimates =>
      k_rcu (Z.of_nat txn) est ;; k_ConvertWritesToEstimates (Z.of_nat txn) ;; k_init (S txn) estimates
  end.

Definition NewKernel (block_size : nat) : kernel :=
  MkKernel (NewScheduler block_size) (NewGMVData V) (replicate block_size None) (replicate block_size None)
    (replicate block_size None) ∅.

(** Executors enter [Run] without a task. *)
Definition entering (executors : nat) : list (prog kernel (option (TxnVersion * TaskKind))) :=
  replicate executors (Ret (Some (InvalidTxnVersion, TaskKindExecution))).

(** ** The specification: one transaction after the other *)

Fixpoint run_plain (f : Bytes → V) (c : callback V A) : outcome ((Bytes → V) * A) :=
  match c with
  | CReturn a => Returns (f, a)
  | CGet key c => run_plain f (c (f key))
  | CSet key v c => if isZero v then Panics else run_plain (λ k, if decide (k = key) then v else f k) c
  | CDelete key c => run_plain (λ k, if decide (k = key) then zero else f k) c
  end.

Fixpoint run_in_order (f : Bytes → V) (cs : list (callback V A)) : outcome ((Bytes → V) * list A) :=
  match cs with
  | [] => Returns (f, [])
  | c :: cs =>
      '(f, a) ← run_plain f c;
      '(f, results) ← run_in_order f cs;
      Returns (f, a :: results)
  end%stdpp.
End kernel.
Arguments attempt {_} _ _ _.
Arguments kernel {_} _ _ _.
