(* ===== verification/KernelMoves.v ===== *)
(** * The moves of an executor

    What an executor is doing is summarised by a program point, and each of its
    actions is a move from one to the next: this is the Block-STM protocol as a
    transition system.  [follows] relates the programs of [Kernel] to it: every
    action of a round of [Executor.Run] is a move. *)

From Stdlib Require Import ZArith Lia.
From S2P Require Import Prelude Utils BTree BTreeIterator Types MemDB MVData MVDataFacts MVView Prog Status Scheduler Kernel.
Local Open Scope Z_scope.

Section points.
Context {BT : BTreeLib} {V A : Type} `{!GoZero V} (isZero : V → bool).
Context {Store : Type} `{!KVStore Store V} (storage : Store).
Context (txExecutor : Z → callback V A).
Abbreviation kernel := (kernel V A Store).
Abbreviation attempt := (attempt V A Store).
Implicit Types (k : kernel) (txn inc : Z).

(** What reads answered, as [run_callback] notes it. *)
Abbreviation readlog := (list (Bytes * TxnVersion * V)).

Definition read_descr (x : Bytes * TxnVersion * V) : ReadDescriptor := MkRead x.1.1 x.1.2.

(** The run of a transaction on given answers. *)
Fixpoint replay (s : GMVMemoryView V Store) (c : callback V A) (log : readlog) :
    option (GMVMemoryView V Store * A) :=
  match c with
  | CReturn a => match log with [] => Some (s, a) | _ => None end
  | CGet key c =>
      match own_write s key with
      | Some v => replay s (c v) log
      | None =>
          match log with
          | (key', version, v) :: log =>
              if decide (key' = key) then replay (add_read s (MkRead key version)) (c v) log else None
          | [] => None
          end
      end
  | CSet key v c => match view_Set isZero s key v with Returns s' => replay s' c log | _ => None end
  | CDelete key c => replay (view_Delete s key) c log
  end.

Definition genuine (txn : Z) (a : attempt) : Prop :=
  replay (NewGMVMemoryView 0 storage txn) (txExecutor txn) (at_log a) = Some (at_view a, at_result a).

Inductive point :=
| PIdle
| PCheck1 (cnt : Z) | PCheck2 (cnt : Z) | PCheck3 (cnt : Z) | PCheck4 (cnt : Z) | PCheck5 (cnt : Z)
| PFetch
| PGotExec (txn : Z)
| PGotVal (txn : Z)
| PRun (txn inc : Z) (log : readlog)
| PCond (txn inc : Z) (log : readlog) (c : cond_loc)
| PSusp (txn inc : Z) (log : readlog) (c : cond_loc)
| PWaiting (txn inc : Z) (log : readlog) (c : cond_loc)
| PWriting (txn inc : Z) (a : attempt) (wrote : bool) (rest : list (Bytes * V))
| PDeleting (txn inc : Z) (a : attempt) (wrote : bool) (rest : list Bytes)
| PStored (txn inc : Z) (a : attempt) (wrote : bool)
| PRecorded (txn inc : Z) (a : attempt) (wrote : bool)
| PFin (txn inc : Z) (wrote : bool) (resume : list Z)
| PDec (target : Z) (next : option Z)
| PDecMid (next : option Z)
| PAbInc (txn : Z)
| PVal (txn inc : Z)
| PChecking (txn inc : Z) (rest : list ReadDescriptor)
| PFailed (txn inc : Z)
| PAbort (txn inc : Z) (todo : option (list Bytes))
| PRelease.

(** The point of an executor that holds a task. *)
Definition point_of (version : TxnVersion) (kind : TaskKind) : point :=
  if version_Valid version then
    match kind with
    | TaskKindExecution => PRun (Index version) (Incarnation version) []
    | TaskKindValidation => PVal (Index version) (Incarnation version)
    end
  else PIdle.

Definition status_at (k : kernel) (txn : Z) : option StatusEntry := at_index (txn_status (k_sched k)) txn.
Definition locations_at (k : kernel) (txn : Z) : list Bytes := default [] (mjoin (at_index (k_lastWrittenLocations k) txn)).

(** Nothing but the statistics and the locks differs. *)
Record same_sched (s s' : Scheduler) : Prop := {
  ss_size : block_size s' = block_size s;
  ss_exec : execution_idx s' = execution_idx s;
  ss_val : validation_idx s' = validation_idx s;
  ss_cnt : decrease_cnt s' = decrease_cnt s;
  ss_active : num_active_tasks s' = num_active_tasks s;
  ss_done : done_marker s' = done_marker s;
  ss_deps : dependents <$> txn_dependency s' = dependents <$> txn_dependency s;
  ss_status : txn_status s' = txn_status s;
  ss_conds : conds s' = conds s;
}.

(** The keys [rcuUpdateWrittenLocations] deletes, and whether a path is new. *)
Definition stale_keys (old new : list Bytes) : list Bytes := fst <$> filter (λ x, x.2 = false) (diff_list old new).
Definition new_path (old new : list Bytes) : bool := existsb snd (diff_list old new).

(** What an executor learns by looking, the state as it is. *)
Inductive look (k : kernel) : point → point → Prop :=
| look_check1 : look k PIdle (PCheck1 (decrease_cnt (k_sched k)))
| look_check2 c : block_size (k_sched k) <= execution_idx (k_sched k) → look k (PCheck1 c) (PCheck2 c)
| look_check3 c : block_size (k_sched k) <= validation_idx (k_sched k) → look k (PCheck2 c) (PCheck3 c)
| look_check4 c : num_active_tasks (k_sched k) = 0 → look k (PCheck3 c) (PCheck4 c)
| look_check5 c : decrease_cnt (k_sched k) = c → look k (PCheck4 c) (PCheck5 c)
| look_quit g c : g ∈ [PCheck1 c; PCheck2 c; PCheck3 c; PCheck4 c] → look k g PIdle
| look_noexec txn :
    block_size (k_sched k) <= txn ∨ (∃ e, status_at k txn = Some e ∧ e_status e ≠ StatusReadyToExecute) →
    look k (PGotExec txn) PRelease
| look_val txn e : status_at k txn = Some e → e_status e = StatusExecuted →
    look k (PGotVal txn) (PVal txn (e_incarnation e))
| look_noval txn :
    block_size (k_sched k) <= txn ∨ (∃ e, status_at k txn = Some e ∧ e_status e ≠ StatusExecuted) →
    look k (PGotVal txn) PRelease
| look_read txn inc log key v version :
    Read (k_data k) key txn = Returns (v, version, false) →
    look k (PRun txn inc log)
      (PRun txn inc (log ++ [(key, version, if negb (version_Valid version) then kv_Get storage key else v)]))
| look_resolved txn inc log c : look k (PCond txn inc log c) (PRun txn inc log)
| look_woken txn inc log c : conds (k_sched k) !! c = Some true → look k (PWaiting txn inc log c) (PRun txn inc log)
| look_end txn inc a : genuine txn a →
    look k (PRun txn inc (at_log a))
      (PWriting txn inc a (new_path (locations_at k txn) (view_writes (at_view a)).*1) (view_writes (at_view a)))
| look_written txn inc a wrote :
    look k (PWriting txn inc a wrote [])
      (PDeleting txn inc a (new_path (locations_at k txn) (view_writes (at_view a)).*1)
         (stale_keys (locations_at k txn) (view_writes (at_view a)).*1))
| look_small txn inc wrote : validation_idx (k_sched k) <= txn → look k (PFin txn inc wrote []) PRelease
| look_self txn inc : look k (PFin txn inc false []) (PVal txn inc)
| look_all txn inc : look k (PFin txn inc true []) (PDec txn None)
| look_again txn : look k (PAbInc txn) (PGotExec txn)
| look_later txn : execution_idx (k_sched k) <= txn → look k (PAbInc txn) PRelease
| look_reads txn inc rs : at_index (k_lastReadSet k) txn = Some (Some rs) →
    look k (PVal txn inc) (PChecking txn inc (rs_Reads rs))
| look_same txn inc r rest v : Read (k_data k) (rd_Key r) txn = Returns (v, rd_Version r, false) →
    look k (PChecking txn inc (r :: rest)) (PChecking txn inc rest)
| look_differs txn inc rest : look k (PChecking txn inc rest) (PFailed txn inc)
| look_valid txn inc : look k (PChecking txn inc []) PRelease
| look_outdated txn inc e : status_at k txn = Some e → ¬ (e_incarnation e = inc ∧ e_status e = StatusExecuted) →
    look k (PFailed txn inc) PRelease
| look_locations txn inc : look k (PAbort txn inc None) (PAbort txn inc (Some (locations_at k txn))).

Definition with_status (k : kernel) (txn : Z) (e : StatusEntry) : kernel :=
  put_sched (set_txn_status (<[Z.to_nat txn := e]> (txn_status (k_sched k))) (k_sched k)) k.
Definition with_deps (k : kernel) (txn : Z) (d : TxDependency) : kernel :=
  put_sched (set_txn_dependency (<[Z.to_nat txn := d]> (txn_dependency (k_sched k))) (k_sched k)) k.
Definition upd (f : Scheduler → Scheduler) (k : kernel) : kernel := put_sched (f (k_sched k)) k.

(** What an executor does to the shared state. *)
Inductive effect (k : kernel) : point → kernel → point → Prop :=
| eff_same g s : same_sched (k_sched k) s → effect k g (put_sched s k) g
| eff_incr : effect k PIdle (upd (λ s, set_num_active_tasks (IncrAtomic (num_active_tasks s)) s) k) PFetch
| eff_decr : effect k PRelease (upd (λ s, set_num_active_tasks (DecrAtomic (num_active_tasks s)) s) k) PIdle
| eff_fetch_exec :
    effect k PFetch (upd (set_execution_idx (execution_idx (k_sched k) + 1)) k) (PGotExec (execution_idx (k_sched k)))
| eff_fetch_val :
    effect k PFetch (upd (set_validation_idx (validation_idx (k_sched k) + 1)) k) (PGotVal (validation_idx (k_sched k)))
| eff_exec txn e : status_at k txn = Some e → e_status e = StatusReadyToExecute →
    effect k (PGotExec txn) (with_status k txn (setStatus e StatusExecuting)) (PRun txn (e_incarnation e) [])
| eff_cond txn inc log :
    effect k (PRun txn inc log) (upd (set_conds (conds (k_sched k) ++ [false])) k)
      (PCond txn inc log (length (conds (k_sched k))))
| eff_suspend txn inc log c e : status_at k txn = Some e →
    effect k (PCond txn inc log c) (with_status k txn (Suspend e c)) (PSusp txn inc log c)
| eff_append txn inc log c b d : at_index (txn_dependency (k_sched k)) b = Some d →
    effect k (PSusp txn inc log c) (with_deps k b (MkTxDependency (dep_locked d) (dependents d ++ [txn])))
      (PWaiting txn inc log c)
| eff_write txn inc a wrote key v rest d : Write (k_data k) key v (MkVersion txn inc) = Returns d →
    effect k (PWriting txn inc a wrote ((key, v) :: rest))
      (put_written (<[(txn, inc, key) := v]> (k_written k)) (put_data d k)) (PWriting txn inc a wrote rest)
| eff_delete txn inc a wrote key rest d : MVDelete (k_data k) key txn = Returns d →
    effect k (PDeleting txn inc a wrote (key :: rest)) (put_data d k) (PDeleting txn inc a wrote rest)
| eff_store txn inc a wrote l :
    set_index (k_lastWrittenLocations k) txn (Some (view_writes (at_view a)).*1) = Some l →
    effect k (PDeleting txn inc a wrote []) (put_locations l k) (PStored txn inc a wrote)
| eff_record txn inc a wrote rs l :
    set_index (k_lastReadSet k) txn (Some (v_readSet (at_view a))) = Some rs →
    set_index (k_attempts k) txn (Some a) = Some l →
    effect k (PStored txn inc a wrote) (put_attempt rs l k) (PRecorded txn inc a wrote)
| eff_executed txn inc a wrote e : status_at k txn = Some e →
    effect k (PRecorded txn inc a wrote) (with_status k txn (SetExecuted e)) (PFin txn inc wrote [])
| eff_swap txn inc wrote d b : at_index (txn_dependency (k_sched k)) txn = Some d →
    effect k (PFin txn inc wrote []) (with_deps k txn (MkTxDependency b [])) (PFin txn inc wrote (dependents d))
| eff_resume txn inc wrote t rest e e' c : status_at k t = Some e → Resume e = Returns (e', c) →
    effect k (PFin txn inc wrote (t :: rest)) (upd (λ s, set_conds (Notify (conds s) c) s) (with_status k t e'))
      (PFin txn inc wrote rest)
| eff_min target next :
    effect k (PDec target next) (upd (λ s, set_validation_idx (Z.min (validation_idx s) target) s) k) (PDecMid next)
| eff_add next :
    effect k (PDecMid next) (upd (λ s, set_decrease_cnt (decrease_cnt s + 1) s) k)
      (match next with Some txn => PAbInc txn | None => PRelease end)
| eff_abort txn inc e : status_at k txn = Some e → e_incarnation e = inc → e_status e = StatusExecuted →
    effect k (PFailed txn inc) (with_status k txn (setStatus e StatusAborting)) (PAbort txn inc None)
| eff_estimate txn inc key rest d : WriteEstimate (k_data k) key txn = Returns d →
    effect k (PAbort txn inc (Some (key :: rest))) (put_data d k) (PAbort txn inc (Some rest))
| eff_ready txn inc e : status_at k txn = Some e →
    effect k (PAbort txn inc (Some []))
      (with_status k txn (MkEntry (e_incarnation e + 1) StatusReadyToExecute (e_cond e))) (PDec (txn + 1) (Some txn))
| eff_done c : effect k (PCheck5 c) (upd (set_done_marker true) k) PIdle.

Definition move (k : kernel) (g : point) (k' : kernel) (g' : point) : Prop :=
  ∃ g1, rtc (look k) g g1 ∧ effect k g1 k' g'.

(** A block of [n] transactions, and what keeps the machine integers from
    wrapping around. *)
Context (n : Z).
Record fits (k : kernel) : Prop := {
  fit_block : block_size (k_sched k) = n;
  fit_size : 0 <= n < 2 ^ 62;
  fit_status : Z.of_nat (length (txn_status (k_sched k))) = n;
  fit_exec : 0 <= execution_idx (k_sched k) < 2 ^ 62;
  fit_val : 0 <= validation_idx (k_sched k) < 2 ^ 62;
  fit_cnt : 0 <= decrease_cnt (k_sched k) < 2 ^ 62;
  fit_inc : ∀ txn e, status_at k txn = Some e → 0 <= e_incarnation e < 2 ^ 62;
}.

(** Every action of the program is a move, starting at [g]; a program that has
    returned [x] is at a point that [post] allows. *)
Fixpoint follows {X} (post : point → X → Prop) (g : point) (p : prog kernel X) : Prop :=
  match p with
  | Ret x => post g x
  | Act act c => ∀ k k' y, fits k → act k = Returns (k', y) → ∃ g', move k g k' g' ∧ follows post g' (c y)
  end.

Lemma follows_bind {X Y} (mid : point → X → Prop) (post : point → Y → Prop) g (p : prog kernel X) (f : X → prog kernel Y) :
  follows mid g p → (∀ g' x, mid g' x → follows post g' (f x)) → follows post g (pbind p f).
Proof.
  intros Hp Hf. revert g Hp. induction p as [x|Z act c IH]; intros g Hp; cbn; [by apply Hf|].
  intros k k' y Hk Hact. destruct (Hp k k' y Hk Hact) as (g' & Hm & Hc). exists g'. split; [done|]. by apply IH.
Qed.

Lemma follows_bind_sched {X Y} (mid : point → X → Prop) (post : point → Y → Prop) g (p : prog Scheduler X)
    (f : X → prog Scheduler Y) :
  follows mid g (on_sched p) → (∀ g' x, mid g' x → follows post g' (on_sched (f x))) → follows post g (on_sched (pbind p f)).
Proof.
  intros Hp Hf. revert g Hp. induction p as [x|Z act c IH]; intros g Hp; cbn; [by apply Hf|].
  intros k k' y Hk Hact. destruct (Hp k k' y Hk Hact) as (g' & Hm & Hc). exists g'. split; [done|]. by apply IH.
Qed.

Lemma follows_mono {X} (post post' : point → X → Prop) g (p : prog kernel X) :
  (∀ g x, post g x → post' g x) → follows post g p → follows post' g p.
Proof.
  intros Hpost. revert g. induction p as [x|Z act c IH]; intros g; cbn; [by apply Hpost|].
  intros H k k' y Hk Hact. destruct (H k k' y Hk Hact) as (g' & Hm & Hc). eauto.
Qed.

(** *** Single actions *)

Lemma same_sched_refl s : same_sched s s.
Proof. by split. Qed.

Lemma put_sched_id (k : kernel) : put_sched (k_sched k) k = k.
Proof. by destruct k. Qed.

Lemma move_look k g g' s : rtc (look k) g g' → same_sched (k_sched k) s → move k g (put_sched s k) g'.
Proof. intros Hl Hs. exists g'. split; [done|]. by constructor. Qed.

Lemma move_stay k g g' : rtc (look k) g g' → move k g k g'.
Proof. intros Hl. rewrite <- (put_sched_id k) at 2. by apply move_look. Qed.

Lemma move_effect k g k' g' : effect k g k' g' → move k g k' g'.
Proof. intros H. exists g. split; [apply rtc_refl|done]. Qed.

(** An action of the scheduler. *)
Lemma follows_act {X Y} (post : point → Y → Prop) g (f : Scheduler → outcome (Scheduler * X)) (c : X → prog Scheduler Y) :
  (∀ k s y, fits k → f (k_sched k) = Returns (s, y) → ∃ g', move k g (put_sched s k) g' ∧ follows post g' (on_sched (c y))) →
  follows post g (on_sched (pbind (atomic f) c)).
Proof.
  intros H k k' y Hk. cbn. destruct (f (k_sched k)) as [[s y']| |] eqn:E; cbn; [|done..]. intros [= <- <-]. by apply (H k s).
Qed.

Lemma follows_load {X Y} (post : point → Y → Prop) g (f : Scheduler → X) (c : X → prog Scheduler Y) :
  (∀ k, fits k → ∃ g', rtc (look k) g g' ∧ follows post g' (on_sched (c (f (k_sched k))))) →
  follows post g (on_sched (pbind (load f) c)).
Proof.
  intros H. apply follows_act. intros k s y Hk [= <- <-]. destruct (H k Hk) as (g' & Hl & Hc). exists g'. split; [|done].
  by apply move_look.
Qed.

Lemma follows_modify {Y} (post : point → Y → Prop) g (f : Scheduler → Scheduler) (c : unit → prog Scheduler Y) :
  (∀ k, fits k → ∃ g', move k g (upd f k) g' ∧ follows post g' (on_sched (c tt))) →
  follows post g (on_sched (pbind (modify f) c)).
Proof. intros H. apply follows_act. intros k s y Hk [= <- <-]. by apply H. Qed.

Lemma follows_status {X Y} (post : point → Y → Prop) g txn (f : StatusEntry → outcome (StatusEntry * X))
    (c : X → prog Scheduler Y) :
  (∀ k e e' y, fits k → status_at k txn = Some e → f e = Returns (e', y) → 0 <= txn < n →
     ∃ g', move k g (with_status k txn e') g' ∧ follows post g' (on_sched (c y))) →
  follows post g (on_sched (pbind (on_status txn f) c)).
Proof.
  intros H. apply follows_act. intros k s y Hk E. destruct (at_index (txn_status (k_sched k)) txn) as [e|] eqn:Ee; [|done].
  cbn in E. destruct (f e) as [[e' y']| |] eqn:Ef; [|done..]. cbn in E. pose proof (at_index_Some _ _ _ Ee) as Hb.
  rewrite set_index_in in E by done. injection E as <- <-. apply (H k e e'); [done..|].
  rewrite <- (fit_status k Hk). exact Hb.
Qed.

Lemma follows_deps {X Y} (post : point → Y → Prop) g txn (f : TxDependency → outcome (TxDependency * X))
    (c : X → prog Scheduler Y) :
  (∀ k d d' y, fits k → at_index (txn_dependency (k_sched k)) txn = Some d → f d = Returns (d', y) →
     ∃ g', move k g (with_deps k txn d') g' ∧ follows post g' (on_sched (c y))) →
  follows post g (on_sched (pbind (on_dependency txn f) c)).
Proof.
  intros H. apply follows_act. intros k s y Hk E. destruct (at_index (txn_dependency (k_sched k)) txn) as [d|] eqn:Ed; [|done].
  cbn in E. destruct (f d) as [[d' y']| |] eqn:Ef; [|done..]. cbn in E. pose proof (at_index_Some _ _ _ Ed) as Hb.
  rewrite set_index_in in E by done. injection E as <- <-. by apply (H k d d').
Qed.

(** Taking or giving back a lock. *)
Lemma same_deps k txn d b : at_index (txn_dependency (k_sched k)) txn = Some d →
  same_sched (k_sched k)
    (set_txn_dependency (<[Z.to_nat txn := MkTxDependency b (dependents d)]> (txn_dependency (k_sched k))) (k_sched k)).
Proof.
  intros E. split; try done. cbn. rewrite list_fmap_insert. cbn. apply list_insert_id.
  pose proof (at_index_nonneg _ _ _ E). apply at_index_lookup in E; [|done]. by rewrite list_lookup_fmap, E.
Qed.

Lemma same_status k txn e : status_at k txn = Some e →
  same_sched (k_sched k) (set_txn_status (<[Z.to_nat txn := e]> (txn_status (k_sched k))) (k_sched k)).
Proof. intros E. split; try done. cbn. by apply set_index_same. Qed.
End points.
