(* ===== verification/KernelFollows.v ===== *)
(** * Every round of an executor follows the protocol

    One lemma per method of the scheduler, the memory and the executor: run
    among others, it makes only the moves of [KernelMoves], and ends at the
    point its result says. *)

From Stdlib Require Import ZArith Lia.
From S2P Require Import Prelude Utils BTree BTreeIterator Types MemDB MVData MVDataFacts MVView Prog Status Scheduler Kernel KernelMoves.
Local Open Scope Z_scope.

Section follows.
Context {BT : BTreeLib} {V A : Type} `{!GoZero V} (isZero : V → bool).
Context {Store : Type} `{!KVStore Store V} (storage : Store).
Context (txExecutor : Z → callback V A) (n : Z).
Abbreviation kernel := (kernel V A Store).
Abbreviation attempt := (attempt V A Store).
Abbreviation follows := (follows isZero storage txExecutor n).
Abbreviation look := (look isZero storage txExecutor).
Abbreviation move := (move isZero storage txExecutor).
Abbreviation point := (point (V := V) (A := A) (Store := Store)).
Implicit Types (k : kernel) (g : point) (txn inc : Z).

Lemma u64_size k : fits n k → u64 n = n.
Proof. intros Hk. pose proof (fit_size n k Hk). apply u64_id. unfold u64_range, W64. lia. Qed.

Lemma at_point g : g ∈ [g].
Proof. by left. Qed.

(** What a call returns names the point it ends at. *)
Definition ends_at (g : point) (t : TxnVersion * TaskKind) : Prop := g = point_of t.1 t.2.

Lemma point_of_exec txn inc : 0 <= txn → point_of (A := A) (V := V) (Store := Store) (MkVersion txn inc) TaskKindExecution = PRun txn inc [].
Proof. intros H. unfold point_of, version_Valid. cbn. by rewrite (proj2 (Z.leb_le _ _)). Qed.

Lemma point_of_val txn inc : 0 <= txn → point_of (A := A) (V := V) (Store := Store) (MkVersion txn inc) TaskKindValidation = PVal txn inc.
Proof. intros H. unfold point_of, version_Valid. cbn. by rewrite (proj2 (Z.leb_le _ _)). Qed.

Lemma follows_decr {X} (post : point → X → Prop) g (c : unit → prog Scheduler X) :
  (∀ k, rtc (look k) g PRelease) → follows post PIdle (on_sched (c tt)) →
  follows post g (on_sched (pbind decr_active c)).
Proof.
  intros Hl Hc. apply follows_modify. intros k Hk. exists PIdle. split; [|done].
  exists PRelease. split; [apply Hl|constructor].
Qed.

(** A look that goes on if the test succeeds, and gives up otherwise. *)
Lemma follows_test {X Y} (post : point → Y → Prop) g g' (P : X → Prop) `{!∀ x, Decision (P x)} (f : Scheduler → X)
    (c : X → prog Scheduler Y) :
  (∀ k, fits n k → P (f (k_sched k)) → look k g g') → (∀ k, look k g PIdle) →
  (∀ k x, fits n k → follows post (if decide (P x) then g' else PIdle) (on_sched (c x))) →
  follows post g (on_sched (pbind (load f) c)).
Proof.
  intros Hl Hq Hc. apply follows_load. intros k Hk. exists (if decide (P (f (k_sched k))) then g' else PIdle).
  split; [|by apply (Hc k)]. apply rtc_once. case_decide; [by apply Hl|apply Hq].
Qed.

Lemma CheckDone_follows : follows (λ g _, g = PIdle) PIdle (on_sched CheckDone).
Proof.
  unfold CheckDone. apply follows_load. intros k Hk. eexists. split; [apply rtc_once; constructor|].
  set (cnt := decrease_cnt _). clearbody cnt. clear k Hk.
  apply (follows_test _ _ (PCheck2 cnt) (λ e, n <= e)).
  { intros k Hk He. constructor. by rewrite (fit_block n k Hk). }
  { intros k. apply (look_quit _ _ _ _ _ cnt). set_solver. }
  intros _ e _. apply follows_load. intros k Hk. eexists. split; [apply rtc_refl|]. rewrite (fit_block n k Hk), (u64_size k Hk).
  clear k Hk. destruct (n <=? e) eqn:E; (case_decide; [|try bool_lia]); try bool_lia; [|done].
  apply (follows_test _ _ (PCheck3 cnt) (λ v, n <= v)).
  { intros k Hk Hv. constructor. by rewrite (fit_block n k Hk). }
  { intros k. apply (look_quit _ _ _ _ _ cnt). set_solver. }
  intros _ v _. destruct (n <=? v) eqn:Ev; (case_decide; [|try bool_lia]); try bool_lia; [|done].
  apply (follows_test _ _ (PCheck4 cnt) (λ m, m = 0)).
  { intros k Hk Hv. by constructor. }
  { intros k. apply (look_quit _ _ _ _ _ cnt). set_solver. }
  intros _ m _. destruct (m =? 0) eqn:Em; (case_decide; [|try bool_lia]); try bool_lia; [|done].
  apply (follows_test _ _ (PCheck5 cnt) (λ c, c = cnt)).
  { intros k Hk Hv. by constructor. }
  { intros k. apply (look_quit _ _ _ _ _ cnt). set_solver. }
  intros _ c _. destruct (cnt =? c) eqn:Ec; (case_decide; [|try bool_lia]); try bool_lia; [|done].
  apply follows_modify. intros k Hk. exists PIdle. split; [|done]. apply move_effect, eff_done.
Qed.

Lemma TryIncarnate_follows txn :
  follows (λ g v, ends_at g (v, TaskKindExecution)) (PGotExec txn) (on_sched (TryIncarnate txn)).
Proof.
  unfold TryIncarnate. apply follows_load. intros k Hk. rewrite (fit_block n k Hk).
  destruct (txn <? n) eqn:E.
  - eexists. split; [apply rtc_refl|]. apply follows_status. clear k Hk. intros k e e' y Hk He [= Ey] Hb.
    unfold TrySetExecuting in Ey. case_decide as Hr; injection Ey as <- <-; cbn [fst snd].
    + exists (PRun txn (e_incarnation e) []). split; [by apply move_effect, eff_exec|].
      cbn. unfold ends_at. cbn [fst snd]. by rewrite point_of_exec by lia.
    + exists PRelease. split; [|apply follows_decr; [intros; apply rtc_refl|done]].
      apply move_look; [|by apply same_status]. apply rtc_once. constructor. right. eauto.
  - exists PRelease. split; [|apply follows_decr; [intros; apply rtc_refl|done]].
    apply rtc_once. constructor. left. rewrite (fit_block n k Hk). bool_lia.
Qed.

Lemma fetch_fits v : 0 <= v < 2 ^ 62 → FetchIncr v = (v + 1, v) ∧ i64 v = v ∧ u64 v = v.
Proof.
  intros Hv. rewrite FetchIncr_spec by (unfold u64_range, W64; lia). rewrite u64_id by (unfold u64_range, W64; lia).
  split; [done|]. split; [apply i64_id; unfold i64_range; lia|apply u64_id; unfold u64_range, W64; lia].
Qed.

Lemma NextVersionToExecute_follows :
  follows (λ g v, ends_at g (v, TaskKindExecution)) PIdle (on_sched NextVersionToExecute).
Proof.
  unfold NextVersionToExecute. apply follows_load. intros k Hk. eexists. split; [apply rtc_refl|].
  apply follows_load. intros k1 Hk1. eexists. split; [apply rtc_refl|].
  destruct (_ <=? _).
  { eapply follows_bind_sched; [apply CheckDone_follows|]. by intros g _ ->. }
  apply follows_modify. clear k Hk k1 Hk1. intros k Hk. exists PFetch. split; [apply move_effect, eff_incr|].
  unfold fetch_execution_idx. apply follows_act. clear k Hk. intros k s y Hk E.
  destruct (fetch_fits _ (fit_exec n k Hk)) as (Hf & Hi & _). rewrite Hf in E. injection E as <- <-.
  rewrite Hi. eexists. split; [apply move_effect, eff_fetch_exec|]. apply TryIncarnate_follows.
Qed.

Lemma status_length k txn e : fits n k → status_at k txn = Some e → 0 <= txn < n.
Proof. intros Hk E. apply at_index_Some in E. by rewrite (fit_status n k Hk) in E. Qed.

Lemma NextVersionToValidate_follows :
  follows (λ g v, ends_at g (v, TaskKindValidation)) PIdle (on_sched NextVersionToValidate).
Proof.
  unfold NextVersionToValidate. apply follows_load. intros k Hk. eexists. split; [apply rtc_refl|].
  apply follows_load. intros k1 Hk1. eexists. split; [apply rtc_refl|]. rewrite (fit_block n k1 Hk1), (u64_size k1 Hk1).
  destruct (_ <=? _).
  { eapply follows_bind_sched; [apply CheckDone_follows|]. by intros g _ ->. }
  apply follows_modify. clear k Hk k1 Hk1. intros k Hk. exists PFetch. split; [apply move_effect, eff_incr|].
  unfold fetch_validation_idx. apply follows_act. clear k Hk. intros k s y Hk E.
  destruct (fetch_fits _ (fit_val n k Hk)) as (Hf & Hi & _). rewrite Hf in E. injection E as <- <-.
  set (txn := validation_idx _) in *. eexists. split; [apply move_effect, eff_fetch_val|]. fold txn.
  destruct (txn <? n) eqn:Et.
  - unfold check_executed. apply follows_status. clearbody txn. clear k Hk Hf. intros k e e' [ok i] Hk He [= <- Ey] Hb. rewrite Hi.
    unfold IsExecuted in Ey. case_decide as Hx; injection Ey as <- <-.
    + exists (PVal txn (e_incarnation e)). split; [|cbn; unfold ends_at; cbn [fst snd]; by rewrite point_of_val by lia].
      apply move_look; [|by apply same_status]. apply rtc_once. by constructor.
    + exists PRelease. split; [|apply follows_decr; [intros; apply rtc_refl|done]].
      apply move_look; [|by apply same_status]. apply rtc_once. constructor. right. eauto.
  - clearbody txn. clear Hf. apply follows_modify. clear k Hk. intros k Hk. exists PIdle. split; [|done].
    exists PRelease. split; [|constructor]. apply rtc_once. constructor. left. rewrite (fit_block n k Hk). bool_lia.
Qed.

Lemma NextTask_follows : follows ends_at PIdle (on_sched NextTask).
Proof.
  unfold NextTask. apply follows_load. intros k Hk. eexists. split; [apply rtc_refl|].
  apply follows_load. intros k1 Hk1. eexists. split; [apply rtc_refl|].
  destruct (_ <? _); (eapply follows_bind_sched; [|]).
  - apply NextVersionToValidate_follows.
  - intros g v Hv. exact Hv.
  - apply NextVersionToExecute_follows.
  - intros g v Hv. exact Hv.
Qed.

(** *** Waiting for a transaction *)

Lemma Lock_follows {X} (post : point → X → Prop) g txn (c : unit → prog Scheduler X) :
  follows post g (on_sched (c tt)) → follows post g (on_sched (pbind (Lock txn) c)).
Proof.
  intros Hc. unfold Lock. apply follows_deps. intros k d d' [] Hk Hd E. destruct (dep_locked d); [done|].
  injection E as <-. exists g. split; [|done]. apply move_look; [apply rtc_refl|by apply same_deps].
Qed.

Lemma Unlock_follows {X} (post : point → X → Prop) g txn (c : unit → prog Scheduler X) :
  follows post g (on_sched (c tt)) → follows post g (on_sched (pbind (Unlock txn) c)).
Proof.
  intros Hc. unfold Unlock. apply follows_deps. intros k d d' [] Hk Hd E. injection E as <-.
  exists g. split; [|done]. apply move_look; [apply rtc_refl|by apply same_deps].
Qed.

Lemma waitFor_follows txn inc log b :
  follows (λ g _, g = PRun txn inc log) (PRun txn inc log) (on_sched (waitFor txn b)).
Proof.
  unfold waitFor. apply (follows_bind_sched _ _ _ _ (λ g o, match o with
    | None => g = PRun txn inc log | Some c => g = PWaiting txn inc log c end)).
  - unfold WaitForDependency. apply follows_act. intros k s c Hk [= <- <-].
    eexists. split; [apply move_effect, eff_cond|]. set (c := length _). clearbody c. clear k Hk.
    apply Lock_follows. unfold check_executed. apply follows_status. intros k e e' [ok i] Hk He [= <- Hok] _.
    exists (PCond txn inc log c). split; [apply move_look; [apply rtc_refl|by apply same_status]|].
    destruct ok.
    + unfold Unlock. apply follows_deps. clear k e Hk He Hok. intros k d d' [] Hk Hd [= <-].
      exists (PRun txn inc log). split; [|done]. apply move_look; [apply rtc_once; constructor|by apply same_deps].
    + apply follows_status. clear k e Hk He Hok. intros k e e' [] Hk He [= <-] _.
      exists (PSusp txn inc log c). split; [by apply move_effect, eff_suspend|].
      apply follows_deps. clear k e Hk He. intros k d d' [] Hk Hd [= <-].
      exists (PWaiting txn inc log c). split; [by apply move_effect, eff_append|]. by apply Unlock_follows.
  - intros g [c|] ->; [|done]. unfold wait_cond. intros k k' [] Hk. cbn.
    unfold cond_Wait. destruct (conds (k_sched k) !! c) as [[]|] eqn:Ec; cbn; [|done..]. intros [= <-].
    exists (PRun txn inc log). split; [|done]. apply move_look; [apply rtc_once; by constructor|].
    split; try done.
Qed.

(** *** Ending an execution or a validation *)

Lemma ResumeDependencies_follows txn inc wrote l :
  follows (λ g _, g = PFin txn inc wrote []) (PFin txn inc wrote l) (on_sched (ResumeDependencies l)).
Proof.
  induction l as [|t l IH]; [done|]. cbn [ResumeDependencies]. apply follows_act. intros k s [] Hk E.
  destruct (at_index _ t) as [e|] eqn:Ee; [|done]. cbn in E.
  destruct (Resume e) as [[e' c]| |] eqn:Er; [|done..]. cbn in E. pose proof (at_index_Some _ _ _ Ee) as Hb.
  rewrite set_index_in in E by done. injection E as <-. exists (PFin txn inc wrote l). split; [|exact IH].
  apply move_effect. exact (eff_resume k txn inc wrote t l e e' c Ee Er).
Qed.

Lemma DecreaseValidationIdx_follows {X} (post : point → X → Prop) g target next (c : unit → prog Scheduler X) :
  (∀ k, rtc (look k) g (PDec target next)) → 0 <= target < 2 ^ 63 →
  follows post (match next with Some txn => PAbInc txn | None => PRelease end) (on_sched (c tt)) →
  follows post g (on_sched (pbind (DecreaseValidationIdx target) c)).
Proof.
  intros Hl Ht Hc. unfold DecreaseValidationIdx. intros k k' y Hk. cbn. intros [= <- <-].
  exists (PDecMid next). split.
  { exists (PDec target next). split; [apply Hl|]. rewrite u64_id by (unfold u64_range, W64; lia). constructor. }
  clear k Hk. intros k k' y Hk. cbn. intros [= <- <-]. eexists. split; [|exact Hc]. apply move_effect.
  pose proof (fit_cnt n k Hk). rewrite u64_id by (unfold u64_range, W64; lia). constructor.
Qed.

Lemma FinishExecution_follows txn inc a wrote :
  follows ends_at (PRecorded txn inc a wrote) (on_sched (FinishExecution (MkVersion txn inc) wrote)).
Proof.
  unfold FinishExecution. cbn [Index]. apply follows_status. intros k e e' [] Hk He [= <-] Hb.
  eexists. split; [by apply move_effect, eff_executed|]. pose proof (fit_size n k Hk) as Hn. clear k e Hk He.
  unfold Swap. apply follows_deps. intros k d d' deps Hk Hd E. destruct (dep_locked d); [done|].
  injection E as <- <-. eexists. split; [apply move_effect; by apply (eff_swap k txn inc wrote d)|].
  set (l := dependents d). clearbody l. clear k d Hk Hd.
  eapply follows_bind_sched; [apply ResumeDependencies_follows|]. intros g [] ->.
  apply follows_load. intros k Hk. rewrite u64_id by (unfold u64_range, W64; lia).
  destruct (txn <? validation_idx (k_sched k)) eqn:Ev.
  - destruct wrote; cbn [negb].
    + eexists. split; [apply rtc_once, look_all|]. clear k Hk Ev.
      apply (DecreaseValidationIdx_follows _ _ _ None); [intros; apply rtc_refl|lia|].
      apply follows_decr; [intros; apply rtc_refl|done].
    + eexists. split; [apply rtc_once, look_self|]. cbn. unfold ends_at. cbn [fst snd]. by rewrite point_of_val by lia.
  - exists PRelease. split; [apply rtc_once; constructor; bool_lia|].
    apply follows_decr; [intros; apply rtc_refl|done].
Qed.

Lemma FinishValidation_aborted txn inc : 0 <= txn < n →
  follows ends_at (PAbort txn inc (Some [])) (on_sched (FinishValidation txn true)).
Proof.
  intros Ht. unfold FinishValidation. apply follows_status. intros k e e' [] Hk He [= <-] Hb.
  pose proof (fit_inc n k Hk txn e He) as Hi. pose proof (fit_size n k Hk) as Hn.
  eexists. split.
  { apply move_effect. unfold SetReadyStatus. rewrite u64_id by (unfold u64_range, W64; lia). by apply eff_ready. }
  clear k e Hk He Hi.
  apply (DecreaseValidationIdx_follows _ _ _ (Some txn)); [intros; apply rtc_refl|lia|].
  apply follows_load. intros k Hk. rewrite u64_id by (unfold u64_range, W64; lia).
  destruct (txn <? execution_idx (k_sched k)) eqn:Ee.
  - exists (PGotExec txn). split; [apply rtc_once; constructor|]. clear k Hk Ee.
    eapply follows_bind_sched; [apply TryIncarnate_follows|]. intros g v Hv. exact Hv.
  - exists PRelease. split; [apply rtc_once; constructor; bool_lia|].
    apply follows_decr; [intros; apply rtc_refl|done].
Qed.

Lemma FinishValidation_kept g txn : (∀ k, rtc (look k) g PRelease) →
  follows ends_at g (on_sched (FinishValidation txn false)).
Proof. intros Hg. by apply follows_decr. Qed.

(** *** The memory *)

Lemma follows_atomic {X Y} (post : point → Y → Prop) g (f : kernel → outcome (kernel * X)) (c : X → prog kernel Y) :
  (∀ k k' y, fits n k → f k = Returns (k', y) → ∃ g', move k g k' g' ∧ follows post g' (c y)) →
  follows post g (pbind (atomic f) c).
Proof. intros H k k' y Hk E. by apply (H k). Qed.

Lemma move_trans k g g1 k' g' : rtc (look k) g g1 → move k g1 k' g' → move k g k' g'.
Proof. intros H (g2 & H2 & He). exists g2. split; [by etrans|done]. Qed.

Lemma k_read_follows fuel txn inc log key :
  follows (λ g '(v, version), g = PRun txn inc
             (log ++ [(key, version, if negb (version_Valid version) then kv_Get storage key else v)]))
    (PRun txn inc log) (k_read fuel txn key).
Proof.
  induction fuel as [|fuel IH]; [by intros k k' y|]. cbn [k_read]. unfold k_Read.
  apply follows_atomic. intros k k' [[v version] est] Hk E.
  destruct (Read (k_data k) key txn) as [r| |] eqn:ER; [|done..]. cbn in E. injection E as <- ->.
  destruct est.
  - exists (PRun txn inc log). split; [apply move_stay, rtc_refl|].
    eapply follows_bind; [apply waitFor_follows|]. intros g [] ->. exact IH.
  - eexists. split; [|reflexivity]. by apply move_stay, rtc_once, look_read.
Qed.

(** Where [run_callback] is: the reads so far lead to its view. *)
Lemma run_callback_follows fuel txn inc (s : GMVMemoryView V Store) log c : v_txn s = txn → v_storage s = storage →
  (∀ rest, replay isZero (NewGMVMemoryView 0 storage txn) (txExecutor txn) (log ++ rest) = replay isZero s c rest) →
  follows (λ g (a : attempt), g = PRun txn inc (at_log a) ∧ genuine isZero storage txExecutor txn a)
    (PRun txn inc log) (run_callback isZero fuel s log c).
Proof.
  revert s log. induction c as [a|key c IH|key v c IH|key c IH]; intros s log Ht Hs Hrep; cbn [run_callback].
  - split; [done|]. unfold genuine. cbn [at_log at_view at_result]. rewrite <- (app_nil_r log). by rewrite Hrep.
  - destruct (own_write s key) as [v|] eqn:Eo.
    + apply IH; [done..|]. intros rest. rewrite Hrep. cbn [replay]. by rewrite Eo.
    + rewrite Ht. eapply follows_bind; [apply k_read_follows|]. intros g [v version] ->. rewrite Hs.
      apply IH; [done..|]. intros rest. rewrite <- app_assoc, Hrep. cbn [replay app]. rewrite Eo. by rewrite decide_True.
  - destruct (view_Set isZero s key v) as [s'| |] eqn:E; [|by intros k k' y..].
    apply IH.
    + unfold view_Set in E. destruct (isZero v); [done|]. by injection E as <-.
    + unfold view_Set in E. destruct (isZero v); [done|]. by injection E as <-.
    + intros rest. rewrite Hrep. cbn [replay]. by rewrite E.
  - apply IH; [done..|]. intros rest. rewrite Hrep. done.
Qed.

(** At [g] an attempt is being published, the writes [l] still to come. *)
Definition writing_at (txn inc : Z) (a : attempt) (l : list (Bytes * V)) (g : point) : Prop :=
  ∀ k, ∃ wrote, rtc (look k) g (PWriting txn inc a wrote l).

Lemma ApplyWriteSet_follows txn inc a l g : writing_at txn inc a l g →
  follows (λ g _, writing_at txn inc a [] g) g (k_ApplyWriteSet (MkVersion txn inc) l).
Proof.
  revert g. induction l as [|[key v] l IH]; intros g Hg; cbn [k_ApplyWriteSet]; [exact Hg|].
  apply follows_atomic. intros k k' [] Hk E. destruct (Write _ _ _ _) as [d| |] eqn:Ew; [|done..].
  cbn in E. injection E as <-. destruct (Hg k) as [w Hw]. exists (PWriting txn inc a w l). split.
  - eapply move_trans; [exact Hw|]. by apply move_effect, eff_write.
  - apply IH. intros k1. exists w. apply rtc_refl.
Qed.

Lemma delete_all_follows txn inc a wrote l :
  follows (λ g _, g = PDeleting txn inc a wrote []) (PDeleting txn inc a wrote l) (k_delete_all txn l).
Proof.
  induction l as [|key l IH]; cbn [k_delete_all]; [done|].
  apply follows_atomic. intros k k' [] Hk E. destruct (MVDelete _ _ _) as [d| |] eqn:Ew; [|done..].
  cbn in E. injection E as <-. exists (PDeleting txn inc a wrote l). split; [|exact IH]. by apply move_effect, eff_delete.
Qed.

Lemma locations_follows {X} (post : point → X → Prop) g txn (c : list Bytes → prog kernel X) :
  (∀ k, ∃ g', rtc (look k) g g' ∧ follows post g' (c (locations_at k txn))) →
  follows post g (pbind (k_locations txn) c).
Proof.
  intros H. apply follows_atomic. intros k k' l Hk E. destruct (at_index _ _) as [p|] eqn:Ep; [|done].
  cbn in E. injection E as <- <-. destruct (H k) as (g' & Hl & Hc). exists g'. split; [by apply move_stay|].
  unfold locations_at in Hc. by rewrite Ep in Hc.
Qed.

Lemma rcu_follows txn inc a g : writing_at txn inc a [] g →
  follows (λ g wrote, g = PStored txn inc a wrote) g (k_rcu txn (view_writes (at_view a)).*1).
Proof.
  intros Hg. unfold k_rcu. apply locations_follows. intros k. destruct (Hg k) as [w Hw].
  eexists. split; [eapply rtc_r; [exact Hw|apply look_written]|].
  set (old := locations_at k txn). set (new := (view_writes (at_view a)).*1). clearbody old. clear k Hw.
  eapply follows_bind; [apply delete_all_follows|]. intros g' [] ->.
  apply follows_atomic. intros k k' [] Hk E. destruct (set_index _ _ _) as [l|] eqn:Es; [|done]. cbn in E. injection E as <-.
  exists (PStored txn inc a (new_path old new)). split; [by apply move_effect, eff_store|]. reflexivity.
Qed.

Lemma Record_follows txn inc a g : writing_at txn inc a (view_writes (at_view a)) g →
  follows (λ g wrote, g = PRecorded txn inc a wrote) g (k_Record (MkVersion txn inc) a).
Proof.
  intros Hg. unfold k_Record. cbn [Index]. eapply follows_bind; [by apply ApplyWriteSet_follows|].
  intros g1 [] H1. eapply follows_bind; [by apply rcu_follows|]. intros g2 wrote ->.
  apply follows_atomic. intros k k' [] Hk E.
  destruct (set_index (k_lastReadSet k) _ _) as [rs|] eqn:Er; [|done]. cbn in E.
  destruct (set_index (k_attempts k) _ _) as [l|] eqn:El; [|done]. cbn in E. injection E as <-.
  exists (PRecorded txn inc a wrote). split; [by apply move_effect, eff_record|done].
Qed.

Lemma estimate_all_follows txn inc l :
  follows (λ g _, g = PAbort txn inc (Some [])) (PAbort txn inc (Some l)) (k_estimate_all txn l).
Proof.
  induction l as [|key l IH]; cbn [k_estimate_all]; [done|].
  apply follows_atomic. intros k k' [] Hk E. destruct (WriteEstimate _ _ _) as [d| |] eqn:Ew; [|done..].
  cbn in E. injection E as <-. exists (PAbort txn inc (Some l)). split; [|exact IH]. by apply move_effect, eff_estimate.
Qed.

Lemma Convert_follows txn inc :
  follows (λ g _, g = PAbort txn inc (Some [])) (PAbort txn inc None) (k_ConvertWritesToEstimates txn).
Proof.
  apply locations_follows. intros k. eexists. split; [apply rtc_once, look_locations|]. apply estimate_all_follows.
Qed.

Lemma validate_reads_follows txn inc l :
  follows (λ g ok, if (ok : bool) then g = PChecking txn inc [] else ∃ rest, g = PChecking txn inc rest)
    (PChecking txn inc l) (k_validate_reads txn l).
Proof.
  induction l as [|r l IH]; cbn [k_validate_reads]; [done|]. unfold k_Read.
  apply follows_atomic. intros k k' [[v version] est] Hk E.
  destruct (Read (k_data k) (rd_Key r) txn) as [a| |] eqn:ER; [|done..]. cbn in E. injection E as <- ->.
  destruct est; [exists (PChecking txn inc (r :: l)); split; [apply move_stay, rtc_refl|by eexists]|].
  case_decide as Hv.
  - exists (PChecking txn inc l). split; [|exact IH]. subst version. by eapply move_stay, rtc_once, look_same.
  - exists (PChecking txn inc (r :: l)). split; [apply move_stay, rtc_refl|by eexists].
Qed.

Lemma ValidateReadSet_follows txn inc :
  follows (λ g ok, if (ok : bool) then g = PChecking txn inc [] else ∃ rest, g = PChecking txn inc rest)
    (PVal txn inc) (k_ValidateReadSet txn).
Proof.
  unfold k_ValidateReadSet. apply follows_atomic. intros k k' rs Hk E.
  destruct (at_index (k_lastReadSet k) txn) as [[rs'|]|] eqn:Er; [|done..]. cbn in E. injection E as <- <-.
  exists (PChecking txn inc (rs_Reads rs')). split; [by apply move_stay, rtc_once, look_reads|]. apply validate_reads_follows.
Qed.

(** *** The executor *)

Lemma stats_follows {X} (post : point → X → Prop) g f (c : unit → prog kernel X) :
  (∀ k, same_sched (k_sched k) (f (k_sched k))) → follows post g (c tt) →
  follows post g (pbind (on_sched (modify f)) c).
Proof.
  intros Hf Hc k k' y Hk. cbn. intros [= <- <-]. exists g. split; [|done]. apply move_look; [apply rtc_refl|apply Hf].
Qed.

Lemma TryExecute_follows fuel txn inc : 
  follows ends_at (PRun txn inc []) (k_TryExecute isZero storage txExecutor fuel (MkVersion txn inc)).
Proof.
  unfold k_TryExecute. apply stats_follows; [by split|]. cbn [Index]. unfold k_execute.
  eapply follows_bind; [apply run_callback_follows; [done..|reflexivity]|]. intros g a [-> Ha]. cbv beta.
  eapply follows_bind; [apply Record_follows|].
  - intros k. eexists. by apply rtc_once, look_end.
  - intros g wrote ->. apply FinishExecution_follows.
Qed.

Lemma NeedsReexecution_follows txn inc :
  follows ends_at (PVal txn inc) (k_NeedsReexecution (MkVersion txn inc)).
Proof.
  unfold k_NeedsReexecution. apply stats_follows; [by split|]. cbn [Index].
  eapply follows_bind; [apply ValidateReadSet_follows|]. intros g [] Hg; cbn [pbind].
  - subst g. apply FinishValidation_kept. intros k. apply rtc_once. constructor.
  - destruct Hg as [rest ->]. eapply (follows_bind _ _ _ _ (λ g aborted, if (aborted : bool)
      then g = PAbort txn inc None ∧ 0 <= txn < n else g = PRelease)).
    + unfold try_validation_abort. cbn [Index Incarnation]. intros k k' y Hk. cbn.
      destruct (at_index _ txn) as [e|] eqn:Ee; [|done]. cbn.
      pose proof (at_index_Some _ _ _ Ee) as Hb. unfold TryValidationAbort.
      case_decide as Hd; cbn; rewrite set_index_in by done; cbn; intros [= <- <-].
      * exists (PAbort txn inc None). split; [|rewrite (fit_status n k Hk) in Hb; done].
        exists (PFailed txn inc). split; [apply rtc_once; constructor|]. apply (eff_abort k txn inc e); [done|by destruct Hd..].
      * exists PRelease. split; [|done]. apply move_look; [|by apply same_status].
        eapply rtc_l; [apply look_differs|]. apply rtc_once. by apply (look_outdated _ _ _ _ _ _ e).
    + intros g [] Hg; cbn [pbind].
      * destruct Hg as [-> Hb]. eapply follows_bind; [apply Convert_follows|]. intros g [] ->. by apply FinishValidation_aborted.
      * subst g. apply FinishValidation_kept. intros k. apply rtc_refl.
Qed.

Lemma Run_round_follows fuel cancelled version kind :
  follows (λ g o, match o with Some t => ends_at g t | None => True end) (point_of version kind)
    (k_Run_round isZero storage txExecutor fuel cancelled version kind).
Proof.
  unfold k_Run_round. eapply (follows_bind _ _ _ _ (λ g _, g = point_of version kind)).
  { intros k k' y Hk. cbn. intros [= <- <-]. eexists. split; [|done]. rewrite put_sched_id. apply move_stay, rtc_refl. }
  intros g [] ->; [done|]. destruct (version_Valid version) eqn:Ev; cbn [negb].
  - eapply (follows_bind _ _ _ _ ends_at); [|by intros g t Ht]. destruct version as [txn inc]. unfold point_of. rewrite Ev.
    destruct kind; cbn [Index Incarnation]; [apply TryExecute_follows|apply NeedsReexecution_follows].
  - destruct cancelled; [done|]. unfold point_of. rewrite Ev.
    eapply (follows_bind _ _ _ _ ends_at); [apply NextTask_follows|by intros g t Ht].
Qed.
End follows.
