(* ===== verification/KernelRuns.v ===== *)
(** * Runs of a transaction

    What a finished attempt tells, given only that it is a run of the
    transaction on the logged answers: its writes are in order, its read set is
    the log, and it is the plain run of the transaction on any map that gives
    those answers. *)

From Stdlib Require Import ZArith Lia.
From S2P Require Import Prelude Utils BTree BTreeIterator Types MemDB MVData MVView Prog Status Scheduler Kernel KernelMoves.
Local Open Scope Z_scope.

(** The value written to a key. *)
Definition write_of {V} (l : list (Bytes * V)) (key : Bytes) : option V :=
  snd <$> findb (λ x, bool_decide (x.1 = key)) l.

Section writes.
Context {V : Type}.
Implicit Types (l : list (Bytes * V)) (key : Bytes).

Lemma write_of_None l key : write_of l key = None ↔ key ∉ l.*1.
Proof.
  unfold write_of. rewrite fmap_None, findb_None, list_elem_of_fmap. split.
  - intros H (x & -> & Hx). specialize (H x Hx). by apply bool_decide_eq_false in H.
  - intros H x Hx. apply bool_decide_eq_false. intros <-. apply H. by exists x.
Qed.

Lemma write_of_elem l key v : write_of l key = Some v → (key, v) ∈ l.
Proof.
  unfold write_of. rewrite fmap_Some. intros ([k w] & [Hx Hk%bool_decide_eq_true]%findb_Some & ->). cbn in *. by subst k.
Qed.

Lemma write_of_snoc l key v key' :
  key ∉ l.*1 → write_of (l ++ [(key, v)]) key' = if decide (key' = key) then Some v else write_of l key'.
Proof.
  intros Hk. induction l as [|[k w] l IH]; unfold write_of in *; cbn.
  - case_bool_decide; case_decide; naive_solver.
  - cbn in Hk. apply not_elem_of_cons in Hk as [Hne Hk]. specialize (IH Hk).
    case_bool_decide; [|done]. subst. case_decide; [congruence|done].
Qed.
End writes.

Section runs.
Context {BT : BTreeLib} {BL : BTreeLaws} {V A : Type} `{!GoZero V} (isZero : V → bool).
Context {Store : Type} `{!KVStore Store V} (storage : Store).
Implicit Types (s : GMVMemoryView V Store) (c : callback V A) (key : Bytes).
Abbreviation replay := (replay (A := A) isZero).

Lemma own_write_writes s key : own_write s key = write_of (view_writes s) key.
Proof.
  unfold own_write, view_writes, write_of, OverlayGet, mem_Scan. destruct (v_writeSet s) as [ws|]; [|done].
  rewrite Get_Scan. induction (bt_Scan ws) as [|[k v] l IH]; [done|]. cbn [findb fmap list_fmap mi_key mi_value].
  unfold item_of. rewrite same_item. cbn. repeat case_bool_decide; try congruence; done.
Qed.

Lemma view_writes_sorted s : view_wf s → sorted_keys (view_writes s).*1.
Proof.
  unfold view_wf, view_writes. destruct (v_writeSet s) as [ws|]; cbn; [|constructor]. unfold mem_wf, mem_Scan.
  induction 1 as [|x l Hl IH Hx]; cbn; [constructor|]. constructor; [done|].
  rewrite Forall_forall in Hx. apply Forall_forall. intros k (y & -> & (z & -> & Hz)%list_elem_of_fmap)%list_elem_of_fmap. cbn.
  specialize (Hx z Hz). unfold below, KeyItemLess in Hx. by apply bytes_ltb_lt in Hx.
Qed.

Lemma own_write_put s key v key' : view_wf s →
  own_write (set_writeSet s (OverlaySet (init_writeSet s) key v)) key' =
    if decide (key' = key) then Some v else own_write s key'.
Proof.
  intros Hwf. unfold own_write at 1. cbn. rewrite OverlayGet_Set by (by apply init_writeSet_wf). case_decide; [done|].
  unfold own_write, init_writeSet, view_init. destruct (v_writeSet s) as [ws|] eqn:E; cbn; [by rewrite E|].
  by unfold OverlayGet; rewrite Get_Scan; unfold NewGMemDB; rewrite Scan_new.
Qed.

(** What a run changes. *)
Lemma replay_view c s log s' a : replay s c log = Some (s', a) → view_wf s →
  view_wf s' ∧ v_readSet s' = MkReadSet (rs_Reads (v_readSet s) ++ (read_descr <$> log)) (rs_Iterators (v_readSet s)).
Proof.
  revert s log. induction c as [b|key c IH|key v c IH|key c IH]; intros s log E Hwf; cbn in E.
  - destruct log; [|done]. injection E as <- <-. split; [done|]. cbn. rewrite app_nil_r. by destruct (v_readSet s).
  - destruct (own_write s key) as [v|]; [by apply (IH v)|]. destruct log as [|[[key' version] v] log]; [done|].
    case_decide; [|done]. subst key'. destruct (IH v _ _ E) as [Hw Hr]; [done|]. split; [done|].
    rewrite Hr. cbn. by rewrite <- app_assoc.
  - unfold view_Set in E. destruct (isZero v); [done|]. eapply IH in E as [? ->]; [done|].
    cbn. apply OverlaySet_wf. by apply init_writeSet_wf.
  - eapply IH in E as [? ->]; [done|]. cbn. apply OverlaySet_wf. by apply init_writeSet_wf.
Qed.

(** Given the answers of a map, a run is the plain run on that map. *)
Lemma replay_plain c s log s' a (f g : Bytes → V) :
  replay s c log = Some (s', a) → view_wf s →
  (∀ key version v, (key, version, v) ∈ log → v = f key) →
  (∀ key, g key = default (f key) (own_write s key)) →
  ∃ g', run_plain isZero g c = Returns (g', a) ∧ ∀ key, g' key = default (f key) (own_write s' key).
Proof.
  revert s log g. induction c as [b|key c IH|key v c IH|key c IH]; intros s log g E Hwf Hlog Hg;
    cbn [KernelMoves.replay run_plain] in *.
  - destruct log; [|done]. injection E as <- <-. by exists g.
  - rewrite Hg. destruct (own_write s key) as [v|]; [by eapply IH|].
    destruct log as [|[[key' version] v] log]; [done|]. case_decide; [|done]. subst key'. cbn [default].
    rewrite <- (Hlog key version v) by set_solver. eapply IH; [done|done| |done].
    intros k ver w Hin. eapply Hlog. by right.
  - unfold view_Set in E. destruct (isZero v); [done|]. eapply IH; [done| |done|].
    + cbn. apply OverlaySet_wf. by apply init_writeSet_wf.
    + intros k. rewrite own_write_put by done. by case_decide.
  - unfold view_Delete in E. eapply IH; [done| |done|].
    + cbn. apply OverlaySet_wf. by apply init_writeSet_wf.
    + intros k. rewrite own_write_put by done. by case_decide.
Qed.

(** A run writes no zero value, except to delete. *)
Definition writable (v : V) : Prop := v = zero ∨ isZero v = false.

Lemma replay_writable c s log s' a : replay s c log = Some (s', a) → view_wf s →
  (∀ key v, own_write s key = Some v → writable v) → ∀ key v, own_write s' key = Some v → writable v.
Proof.
  revert s log. induction c as [b|key c IH|key v c IH|key c IH]; intros s log E Hwf Hs; cbn [KernelMoves.replay] in E.
  - destruct log; [|done]. by injection E as <- <-.
  - destruct (own_write s key) as [v|]; [by eapply IH|]. destruct log as [|[[key' version] v] log]; [done|].
    case_decide; [|done]. by eapply IH.
  - unfold view_Set in E. destruct (isZero v) eqn:Ez; [done|]. eapply IH; [done| |].
    + cbn. apply OverlaySet_wf. by apply init_writeSet_wf.
    + intros k w. rewrite own_write_put by done. case_decide; [|apply Hs]. intros [= <-]. by right.
  - unfold view_Delete in E. eapply IH; [done| |].
    + cbn. apply OverlaySet_wf. by apply init_writeSet_wf.
    + intros k w. rewrite own_write_put by done. case_decide; [|apply Hs]. intros [= <-]. by left.
Qed.

Context (txExecutor : Z → callback V A).
Abbreviation genuine := (genuine isZero storage txExecutor).

Lemma genuine_sorted txn a : genuine txn a → sorted_keys (view_writes (at_view a)).*1.
Proof. intros H. apply view_writes_sorted. by apply (replay_view _ _ _ _ _ H). Qed.

Lemma genuine_reads txn a : genuine txn a → v_readSet (at_view a) = MkReadSet (read_descr <$> at_log a) [].
Proof. intros H. by apply (replay_view _ _ _ _ _ H). Qed.

Lemma genuine_writable txn a key v : genuine txn a → write_of (view_writes (at_view a)) key = Some v → writable v.
Proof. intros H. rewrite <- own_write_writes. by apply (replay_writable _ _ _ _ _ H). Qed.

Lemma genuine_plain txn a (f : Bytes → V) : genuine txn a →
  (∀ key version v, (key, version, v) ∈ at_log a → v = f key) →
  ∃ g, run_plain isZero f (txExecutor txn) = Returns (g, at_result a) ∧
    ∀ key, g key = default (f key) (write_of (view_writes (at_view a)) key).
Proof.
  intros H Hlog. destruct (replay_plain _ _ _ _ _ f f H) as (g & E & Hg); [done|done|done|].
  exists g. split; [done|]. intros key. by rewrite Hg, own_write_writes.
Qed.
End runs.
