(* ===== verification/KernelInv.v ===== *)
(** * The invariants of the kernel

    What is true between any two moves, whatever the executors interleave:
    the counters and what they count, who owns which transaction and what the
    memory holds for it, why no obligation is lost, and what a completion
    check in progress may conclude. *)

From Stdlib Require Import ZArith Lia.
From S2P Require Import Prelude Utils BTree BTreeIterator Types MemDB MVData MVDataFacts MVView Prog Status Scheduler Cells Kernel KernelMoves KernelRuns.
Local Open Scope Z_scope.

Section inv.
Context {BT : BTreeLib} {BL : BTreeLaws} {V A : Type} `{!GoZero V} (isZero : V → bool).
Context {Store : Type} `{!KVStore Store V} (storage : Store).
Context (txExecutor : Z → callback V A) (n : Z).
Abbreviation kernel := (kernel V A Store).
Abbreviation attempt := (attempt V A Store).
Abbreviation look := (look isZero storage txExecutor).
Abbreviation genuine := (genuine isZero storage txExecutor).
Abbreviation point := (point (V := V) (A := A) (Store := Store)).
Implicit Types (k : kernel) (g : point) (gs : list point) (txn inc : Z) (a : attempt).

(** ** What a point stands for *)

(** It holds one of the active tasks. *)
Definition active g : Z :=
  match g with PIdle | PCheck1 _ | PCheck2 _ | PCheck3 _ | PCheck4 _ | PCheck5 _ => 0 | _ => 1 end.

(** It executes a transaction, or aborts it. *)
Definition owner g : option (Z * Z * bool) :=
  match g with
  | PRun txn inc _ | PCond txn inc _ _ | PSusp txn inc _ _ | PWaiting txn inc _ _
  | PWriting txn inc _ _ _ | PDeleting txn inc _ _ _ | PStored txn inc _ _ | PRecorded txn inc _ _ => Some (txn, inc, true)
  | PAbort txn inc _ => Some (txn, inc, false)
  | _ => None
  end.

(** It is going to try to execute a transaction. *)
Definition pends g : option Z :=
  match g with
  | PGotExec txn | PAbInc txn | PDec _ (Some txn) | PDecMid (Some txn) => Some txn
  | _ => None
  end.

(** It is going to find out that the read [r] of an executed incarnation is no
    longer valid, or to have that transaction validated again. *)
Definition covers g txn inc (r : ReadDescriptor) : Prop :=
  match g with
  | PGotVal t => t = txn
  | PVal t i | PFailed t i => t = txn ∧ i = inc
  | PChecking t i rest => t = txn ∧ i = inc ∧ r ∈ rest
  | PFin t i wrote _ => t = txn ∧ i = inc ∨ wrote = true ∧ t <= txn
  | PDec target _ => target <= txn
  | PWriting t _ _ wrote _ | PDeleting t _ _ wrote _ | PStored t _ _ wrote | PRecorded t _ _ wrote => wrote = true ∧ t < txn
  | PAbort t _ _ => t < txn
  | _ => False
  end.

Definition resume_of g : list Z := match g with PFin _ _ _ l => l | _ => [] end.

Definition cond_of g : option cond_loc :=
  match g with PCond _ _ _ c | PSusp _ _ _ c | PWaiting _ _ _ c => Some c | _ => None end.

(** ** The memory of one transaction *)

Definition writes a : list (Bytes * V) := view_writes (at_view a).

(** Untouched since the last abort: every remembered location is marked. *)
Definition marked_cell k txn (key : Bytes) : Prop :=
  match cell (k_data k) key txn with
  | None => key ∉ locations_at k txn
  | Some e => key ∈ locations_at k txn ∧ s_Estimate e = true
  end.

Definition holds k txn inc (l : list (Bytes * V)) (other : Bytes → Prop) : Prop :=
  ∀ key, match write_of l key with
         | Some v => cell (k_data k) key txn = Some (value_entry v (MkVersion txn inc))
         | None => other key
         end.

(** The history knows no incarnation from [inc] on. *)
Definition unused k txn inc : Prop := ∀ inc' key, is_Some (k_written k !! (txn, inc', key)) → inc' < inc.

Definition answered k (log : list (Bytes * TxnVersion * V)) : Prop :=
  ∀ key version v, (key, version, v) ∈ log →
    if version_Valid version then k_written k !! (Index version, Incarnation version, key) = Some v
    else v = kv_Get storage key.

Definition attempt_ok k txn a : Prop := genuine txn a ∧ answered k (at_log a).

Definition marked k txn : Prop := sorted_keys (locations_at k txn) ∧ ∀ key, marked_cell k txn key.

(** The writes of the attempt, and nothing else, are in the memory. *)
Definition stored k txn inc a : Prop :=
  holds k txn inc (writes a) (λ key, cell (k_data k) key txn = None) ∧ locations_at k txn = (writes a).*1.

Definition recorded k txn inc : Prop :=
  ∃ a, at_index (k_attempts k) txn = Some (Some a) ∧ at_index (k_lastReadSet k) txn = Some (Some (v_readSet (at_view a))) ∧
    attempt_ok k txn a ∧ stored k txn inc a ∧ unused k txn (inc + 1).

(** What the memory holds for the transaction a point owns. *)
Definition owner_mem k g : Prop :=
  match g with
  | PRun txn inc log | PCond txn inc log _ | PSusp txn inc log _ | PWaiting txn inc log _ =>
      marked k txn ∧ unused k txn inc ∧ answered k log
  | PWriting txn inc a wrote rest =>
      attempt_ok k txn a ∧ sorted_keys (locations_at k txn) ∧ wrote = new_path (locations_at k txn) (writes a).*1 ∧
      ∃ front, writes a = front ++ rest ∧ holds k txn inc front (marked_cell k txn) ∧
        ∀ inc' key, is_Some (k_written k !! (txn, inc', key)) → inc' < inc ∨ inc' = inc ∧ key ∈ front.*1
  | PDeleting txn inc a wrote rest =>
      attempt_ok k txn a ∧ unused k txn (inc + 1) ∧ NoDup rest ∧ (∀ key, key ∈ rest → write_of (writes a) key = None) ∧
      holds k txn inc (writes a) (λ key, if decide (key ∈ rest) then ∃ e, cell (k_data k) key txn = Some e ∧ s_Estimate e = true
                                         else cell (k_data k) key txn = None)
  | PStored txn inc a _ => attempt_ok k txn a ∧ unused k txn (inc + 1) ∧ stored k txn inc a
  | PRecorded txn inc a _ => recorded k txn inc
  | PAbort txn inc todo =>
      sorted_keys (locations_at k txn) ∧ unused k txn (inc + 1) ∧
      (∀ key, key ∈ default (locations_at k txn) todo → key ∈ locations_at k txn) ∧
      ∀ key, match cell (k_data k) key txn with
             | None => key ∉ locations_at k txn
             | Some e => key ∈ locations_at k txn ∧ (s_Estimate e = true ∨ key ∈ default (locations_at k txn) todo)
             end
  | _ => True
  end.

(** What it holds for a transaction nobody owns. *)
Definition free_mem k txn (e : StatusEntry) : Prop :=
  match e_status e with
  | StatusReadyToExecute => marked k txn ∧ unused k txn (e_incarnation e)
  | StatusExecuted => recorded k txn (e_incarnation e)
  | _ => False
  end.

Definition owner_status (b : bool) (e : StatusEntry) : Prop :=
  if b then e_status e = StatusExecuting ∨ e_status e = StatusSuspended else e_status e = StatusAborting.

(** The index a point will lower [validation_idx] to. *)
Definition target_ok g : Prop :=
  match g with PFin txn _ _ _ | PDec txn _ => 0 <= txn | _ => True end.

(** ** The invariants *)

Record counted (t : Z) k gs : Prop := {
  c_block : block_size (k_sched k) = n;
  c_size : 0 <= n < 2 ^ 62;
  c_status : Z.of_nat (length (txn_status (k_sched k))) = n;
  c_points : Z.of_nat (length gs) < 2 ^ 62;
  c_active : num_active_tasks (k_sched k) = sum_tokens (active <$> gs);
  c_exec : 0 <= execution_idx (k_sched k) <= t;
  c_val : 0 <= validation_idx (k_sched k) <= t;
  c_cnt : 0 <= decrease_cnt (k_sched k) <= t;
  c_inc : ∀ txn e, status_at k txn = Some e → 0 <= e_incarnation e <= t;
  c_target : ∀ i g, gs !! i = Some g → target_ok g;
}.

Record owned k gs : Prop := {
  o_wf : mv_wf (k_data k);
  o_cells : ∀ key txn e, cell (k_data k) key txn = Some e → 0 <= txn < n ∧
    (s_Estimate e = false → k_written k !! (txn, s_Incarnation e, key) = Some (s_Value e));
  o_unique : ∀ i1 i2 g1 g2 o1 o2, gs !! i1 = Some g1 → gs !! i2 = Some g2 → owner g1 = Some o1 → owner g2 = Some o2 →
    o1.1.1 = o2.1.1 → i1 = i2;
  o_owner : ∀ i g txn inc b, gs !! i = Some g → owner g = Some (txn, inc, b) →
    (∃ e, status_at k txn = Some e ∧ e_incarnation e = inc ∧ owner_status b e) ∧ owner_mem k g;
  o_free : ∀ txn e, status_at k txn = Some e →
    free_mem k txn e ∨ ∃ i g inc b, gs !! i = Some g ∧ owner g = Some (txn, inc, b);
}.

Definition reads_at k txn : list ReadDescriptor :=
  match at_index (k_lastReadSet k) txn with Some (Some rs) => rs_Reads rs | _ => [] end.

(** No obligation is lost: whoever is ready will be executed, and whoever has
    read something outdated will be validated. *)
Record obliged k gs : Prop := {
  b_ready : ∀ txn e, status_at k txn = Some e → e_status e = StatusReadyToExecute →
    execution_idx (k_sched k) <= txn ∨ ∃ i g, gs !! i = Some g ∧ pends g = Some txn;
  b_executed : ∀ txn e r, status_at k txn = Some e → e_status e = StatusExecuted → r ∈ reads_at k txn →
    current (k_data k) txn (rd_Key r) (rd_Version r) ∨ validation_idx (k_sched k) <= txn ∨
    ∃ i g, gs !! i = Some g ∧ covers g txn (e_incarnation e) r;
}.

(** The transactions that some list says are suspended. *)
Definition listed k gs : list Z :=
  mjoin (dependents <$> txn_dependency (k_sched k)) ++ mjoin (resume_of <$> gs).

(** Exactly the waiting transactions are listed, once each. *)
Record awaiting k gs : Prop := {
  w_once : NoDup (listed k gs);
  w_listed : ∀ txn, txn ∈ listed k gs → ∃ i inc log c e, gs !! i = Some (PWaiting txn inc log c) ∧
    conds (k_sched k) !! c = Some false ∧ status_at k txn = Some e ∧ e_cond e = Some c;
  w_susp : ∀ i txn inc log c, gs !! i = Some (PSusp txn inc log c) →
    conds (k_sched k) !! c = Some false ∧ ∃ e, status_at k txn = Some e ∧ e_cond e = Some c;
  w_fresh : ∀ i txn inc log c, gs !! i = Some (PCond txn inc log c) → conds (k_sched k) !! c = Some false;
  w_range : ∀ i g c, gs !! i = Some g → cond_of g = Some c → (c < length (conds (k_sched k)))%nat;
  w_distinct : ∀ i1 i2 g1 g2 c, gs !! i1 = Some g1 → gs !! i2 = Some g2 → cond_of g1 = Some c → cond_of g2 = Some c → i1 = i2;
}.

(** All work is done: nothing that still happens can make new work. *)
Definition quiet_point g : Prop :=
  match g with
  | PIdle | PCheck1 _ | PCheck2 _ | PCheck3 _ | PCheck4 _ | PCheck5 _ | PFetch | PRelease => True
  | PGotExec txn | PGotVal txn => n <= txn
  | _ => False
  end.

Definition quiet k gs : Prop :=
  n <= execution_idx (k_sched k) ∧ n <= validation_idx (k_sched k) ∧ ∀ i g, gs !! i = Some g → quiet_point g.

(** What a completion check has established. *)
Definition check_ok k gs g : Prop :=
  match g with
  | PCheck1 c => c <= decrease_cnt (k_sched k)
  | PCheck2 c => c <= decrease_cnt (k_sched k) ∧ n <= execution_idx (k_sched k)
  | PCheck3 c => c <= decrease_cnt (k_sched k) ∧ n <= execution_idx (k_sched k) ∧
      (n <= validation_idx (k_sched k) ∨ c < decrease_cnt (k_sched k) ∨ ∃ i next, gs !! i = Some (PDecMid next))
  | PCheck4 c => c <= decrease_cnt (k_sched k) ∧ (quiet k gs ∨ c < decrease_cnt (k_sched k))
  | PCheck5 c => quiet k gs
  | _ => True
  end.

Record checked_ok k gs : Prop := {
  q_check : ∀ i g, gs !! i = Some g → check_ok k gs g;
  q_done : done_marker (k_sched k) = true → quiet k gs;
}.

(** ** Counters *)

Lemma lookup_points (P : point → Prop) gs i g' : (∀ j g, gs !! j = Some g → P g) → P g' →
  ∀ j g, <[i:=g']> gs !! j = Some g → P g.
Proof. intros Hall Hg j g [(_ & -> & _)|[_ E]]%list_lookup_insert_Some; [done|by eapply Hall]. Qed.

Lemma look_active k g g' : look k g g' → active g' = active g.
Proof. intros H. destruct H; try done. set_unfold. naive_solver. Qed.

Lemma look_target k g g' : look k g g' → target_ok g → target_ok g'.
Proof. intros H. by destruct H. Qed.

Lemma counted_fits t k gs : t < 2 ^ 62 → counted t k gs → fits n k.
Proof.
  intros Ht [H1 H2 H3 H4 H5 H6 H7 H8 H9 _]. split; try done; try lia. intros txn e He. specialize (H9 txn e He). lia.
Qed.

Lemma active_bound g : 0 <= active g <= 1.
Proof. destruct g; cbn; lia. Qed.

Lemma sum_active gs : 0 <= sum_tokens (active <$> gs) <= Z.of_nat (length gs).
Proof.
  rewrite <- (length_fmap active). apply sum_tokens_bound. apply Forall_forall. intros x (g & -> & _)%list_elem_of_fmap.
  apply active_bound.
Qed.

Lemma sum_active_insert gs i g g' : gs !! i = Some g →
  sum_tokens (active <$> <[i:=g']> gs) = sum_tokens (active <$> gs) + (active g' - active g).
Proof. intros E. rewrite list_fmap_insert. apply sum_tokens_insert. by rewrite list_lookup_fmap, E. Qed.

Lemma counted_look t k gs i g g' : counted t k gs → gs !! i = Some g → look k g g' → counted t k (<[i:=g']> gs).
Proof.
  intros [H1 H2 H3 H4 H5 H6 H7 H8 H9 H10] Hi Hl. split; try done.
  - by rewrite length_insert.
  - rewrite (sum_active_insert _ _ g) by done. rewrite (look_active _ _ _ Hl). lia.
  - apply lookup_points; [done|]. eapply look_target; eauto.
Qed.

Lemma status_at_with k txn e e0 txn' : status_at k txn = Some e0 →
  status_at (with_status k txn e) txn' = if decide (txn' = txn) then Some e else status_at k txn'.
Proof.
  intros E. apply at_index_Some in E. unfold status_at, with_status. cbn.
  destruct (Z.le_gt_cases 0 txn') as [?|Hn]; [by apply at_index_insert|].
  rewrite decide_False by lia. unfold at_index. by rewrite (proj2 (Z.leb_gt _ _) Hn).
Qed.

Lemma Resume_incarnation e e' c : Resume e = Returns (e', c) → e_cond e = Some c ∧ e' = MkEntry (e_incarnation e) StatusExecuting None.
Proof. unfold Resume. destruct (e_cond e); cbn; [|done]. by intros [= <- <-]. Qed.

(** A step of the state that moves every counter up by at most one. *)
Definition ticks k k' : Prop :=
  block_size (k_sched k') = block_size (k_sched k) ∧
  length (txn_status (k_sched k')) = length (txn_status (k_sched k)) ∧
  execution_idx (k_sched k) <= execution_idx (k_sched k') <= execution_idx (k_sched k) + 1 ∧
  0 <= validation_idx (k_sched k') <= validation_idx (k_sched k) + 1 ∧
  decrease_cnt (k_sched k) <= decrease_cnt (k_sched k') <= decrease_cnt (k_sched k) + 1 ∧
  (∀ txn e', status_at k' txn = Some e' → ∃ e, status_at k txn = Some e ∧ e_incarnation e <= e_incarnation e' <= e_incarnation e + 1).

Lemma counted_ticks t k k' gs i g g' : counted t k gs → gs !! i = Some g → ticks k k' →
  num_active_tasks (k_sched k') = num_active_tasks (k_sched k) + (active g' - active g) → target_ok g' →
  counted (t + 1) k' (<[i:=g']> gs).
Proof.
  intros [H1 H2 H3 H4 H5 H6 H7 H8 H9 H10] Hi (E2 & E3 & E4 & E5 & E6 & E7) E1 Ht.
  split; try lia; [by rewrite length_insert| | |by apply lookup_points].
  - rewrite (sum_active_insert _ _ g) by done. lia.
  - intros txn e' (e & E & ?)%E7. specialize (H9 txn e E). lia.
Qed.

Lemma same_ticks k k' : k_sched k' = k_sched k → 0 <= validation_idx (k_sched k) → ticks k k'.
Proof.
  intros E Hv. unfold ticks, status_at. rewrite E. split_and!; try lia; try done. intros txn e ->. eexists; split; [done|lia].
Qed.

Lemma with_status_ticks k txn e e' : 0 <= validation_idx (k_sched k) → status_at k txn = Some e →
  e_incarnation e <= e_incarnation e' <= e_incarnation e + 1 → ticks k (with_status k txn e').
Proof.
  intros Hv E Hi. unfold ticks. cbn. rewrite length_insert. split_and!; try lia; try done. intros txn' e1.
  rewrite (status_at_with _ _ _ _ _ E). case_decide as Hd.
  - intros [= <-]. subst txn'. eauto.
  - intros ->. eexists; split; [done|lia].
Qed.

Lemma sched_ticks k s : block_size s = block_size (k_sched k) → txn_status s = txn_status (k_sched k) →
  execution_idx (k_sched k) <= execution_idx s <= execution_idx (k_sched k) + 1 →
  0 <= validation_idx s <= validation_idx (k_sched k) + 1 →
  decrease_cnt (k_sched k) <= decrease_cnt s <= decrease_cnt (k_sched k) + 1 → ticks k (put_sched s k).
Proof.
  intros E1 E2 ???. unfold ticks, status_at. cbn. rewrite E2. split_and!; try lia; try done.
  intros txn e ->. eexists; split; [done|lia].
Qed.

Lemma counted_effect t k gs i g k' g' :
  counted t k gs → t + 1 < 2 ^ 62 → gs !! i = Some g → effect k g k' g' → counted (t + 1) k' (<[i:=g']> gs).
Proof.
  intros Hc Ht Hi He. pose proof Hc as [H1 H2 H3 H4 H5 H6 H7 H8 H9 H10].
  pose proof (sum_active gs) as Hs. pose proof (H10 i g Hi) as Htg.
  destruct He as [g s []| | | | | | | | | | | | | | |txn inc wrote t' rest e e' c Hst Hr| |next| | | |];
    (apply (counted_ticks t k _ gs i _ _ Hc Hi);
      [try (apply sched_ticks; cbn; done || lia); try (apply same_ticks; [done|lia]); try (eapply with_status_ticks; [lia|eassumption|cbn; lia])
      |cbn; try lia|try done]).
  - unfold IncrAtomic. rewrite u64_id; [lia|unfold u64_range, W64; lia].
  - pose proof (sum_active (<[i:=PIdle]> gs)) as Hs'. rewrite (sum_active_insert _ _ PRelease) in Hs' by done. cbn in Hs'.
    rewrite DecrAtomic_pos by (unfold W64; lia). lia.
  - by apply at_index_nonneg in H.
  - apply Resume_incarnation in Hr as [_ ->].
    destruct (with_status_ticks k t' e (MkEntry (e_incarnation e) StatusExecuting None)) as (T1 & T2 & T3 & T4 & T5 & T6);
      [lia|done|cbn; lia|]. exact (conj T1 (conj T2 (conj T3 (conj T4 (conj T5 T6))))).
  - cbn in Htg. apply sched_ticks; cbn; try done; lia.
  - destruct next; cbn; lia.
  - by destruct next.
  - apply at_index_nonneg in H. cbn. lia.
Qed.
End inv.
