(* ===== verification/KernelOwned.v ===== *)
(** * Who owns a transaction, and what the memory holds for it

    [owned] is preserved by every move: an executor that executes a transaction
    or aborts it is the only one to touch its cells, and leaves them as the next
    owner, or a validation, expects them. *)

From Stdlib Require Import ZArith Lia.
From S2P Require Import Prelude Utils BTree BTreeIterator Types MemDB MVData MVDataFacts MVView Prog Status Scheduler Cells Kernel KernelMoves KernelRuns KernelInv.
Local Open Scope Z_scope.

Section owned.
Context {BT : BTreeLib} {BL : BTreeLaws} {V A : Type} `{!GoZero V} (isZero : V → bool).
Context {Store : Type} `{!KVStore Store V} (storage : Store).
Context (txExecutor : Z → callback V A) (n : Z).
Abbreviation kernel := (kernel V A Store).
Abbreviation attempt := (attempt V A Store).
Abbreviation look := (look isZero storage txExecutor).
Abbreviation genuine := (genuine isZero storage txExecutor).
Abbreviation point := (point (V := V) (A := A) (Store := Store)).
Abbreviation owner_mem := (owner_mem isZero storage txExecutor).
Abbreviation free_mem := (free_mem isZero storage txExecutor).
Abbreviation recorded := (recorded isZero storage txExecutor).
Abbreviation owned := (owned isZero storage txExecutor n).
Implicit Types (k : kernel) (g : point) (gs : list point) (txn inc : Z) (a : attempt).

(** ** Framing *)

(** The step leaves the memory of [j] alone, and its history. *)
Record same_mem k k' (j : Z) : Prop := {
  sm_cell : ∀ key, cell (k_data k') key j = cell (k_data k) key j;
  sm_locations : locations_at k' j = locations_at k j;
  sm_reads : at_index (k_lastReadSet k') j = at_index (k_lastReadSet k) j;
  sm_attempt : at_index (k_attempts k') j = at_index (k_attempts k) j;
  sm_written : ∀ inc key, k_written k' !! (j, inc, key) = k_written k !! (j, inc, key);
}.

Definition grows k k' : Prop := k_written k ⊆ k_written k'.

Lemma answered_grows k k' log : grows k k' → answered storage k log → answered storage k' log.
Proof.
  intros Hg H key version v Hin. specialize (H key version v Hin). destruct (version_Valid version); [|done].
  by eapply lookup_weaken.
Qed.

Section frame.
Context k k' (j : Z) (Hm : same_mem k k' j) (Hg : grows k k').

Lemma unused_frame inc : unused k j inc → unused k' j inc.
Proof. intros H inc' key. rewrite (sm_written _ _ _ Hm). apply H. Qed.

Lemma marked_cell_frame key : marked_cell k j key → marked_cell k' j key.
Proof. unfold marked_cell. by rewrite (sm_cell _ _ _ Hm), (sm_locations _ _ _ Hm). Qed.

Lemma marked_frame : marked k j → marked k' j.
Proof.
  intros [H1 H2]. split; [by rewrite (sm_locations _ _ _ Hm)|]. intros key. by apply marked_cell_frame.
Qed.

Lemma holds_frame inc l (P P' : Bytes → Prop) : (∀ key, P key → P' key) → holds k j inc l P → holds k' j inc l P'.
Proof. intros HP H key. specialize (H key). rewrite (sm_cell _ _ _ Hm). destruct (write_of l key); auto. Qed.

Lemma attempt_ok_frame a : attempt_ok isZero storage txExecutor k j a → attempt_ok isZero storage txExecutor k' j a.
Proof. intros [H1 H2]. split; [done|]. by eapply answered_grows. Qed.

Lemma stored_frame inc a : stored k j inc a → stored k' j inc a.
Proof.
  intros [H1 H2]. split; [|by rewrite (sm_locations _ _ _ Hm)]. eapply holds_frame; [|done].
  intros key. by rewrite (sm_cell _ _ _ Hm).
Qed.

Lemma recorded_frame inc : recorded k j inc → recorded k' j inc.
Proof.
  intros (a & H1 & H2 & H3 & H4 & H5). exists a. rewrite (sm_attempt _ _ _ Hm), (sm_reads _ _ _ Hm).
  split_and!; [done..|by apply attempt_ok_frame|by apply stored_frame|by apply unused_frame].
Qed.

Lemma free_mem_frame e : free_mem k j e → free_mem k' j e.
Proof.
  unfold KernelInv.free_mem. destruct (e_status e); try done.
  - intros [H1 H2]. split; [by apply marked_frame|by apply unused_frame].
  - apply recorded_frame.
Qed.

Lemma owner_mem_frame g inc b : owner g = Some (j, inc, b) → owner_mem k g → owner_mem k' g.
Proof.
  destruct g; cbn; try done; intros [= -> -> <-].
  1-4: intros (H1 & H2 & H3); split_and!; [by apply marked_frame|by apply unused_frame|by eapply answered_grows].
  - intros (H1 & H2 & H3 & front & H4 & H5 & H6). rewrite (sm_locations _ _ _ Hm).
    split_and!; [by apply attempt_ok_frame|done..|]. exists front. split_and!; [done| |].
    + eapply holds_frame; [|done]. apply marked_cell_frame.
    + intros inc' key. rewrite (sm_written _ _ _ Hm). apply H6.
  - intros (H1 & H2 & H3 & H4 & H5). split_and!; [by apply attempt_ok_frame|by apply unused_frame|done..|].
    eapply holds_frame; [|done]. intros key. by rewrite (sm_cell _ _ _ Hm).
  - intros (H1 & H2 & H3). split_and!; [by apply attempt_ok_frame|by apply unused_frame|by apply stored_frame].
  - apply recorded_frame.
  - intros (H1 & H2 & H2' & H3). rewrite (sm_locations _ _ _ Hm). split_and!; [done|by apply unused_frame|done|].
    intros key. rewrite (sm_cell _ _ _ Hm). apply H3.
Qed.
End frame.

Lemma same_mem_refl k j : same_mem k k j.
Proof. by split. Qed.

Lemma same_mem_sched k s j : same_mem k (put_sched s k) j.
Proof. by split. Qed.

Lemma grows_unwritten k k' : k_written k' = k_written k → grows k k'.
Proof. unfold grows. by intros ->. Qed.

(** ** Steps *)

Definition cells_ok k : Prop :=
  mv_wf (k_data k) ∧ ∀ key txn e, cell (k_data k) key txn = Some e → 0 <= txn < n ∧
    (s_Estimate e = false → k_written k !! (txn, s_Incarnation e, key) = Some (s_Value e)).

(** A step of the executor [i], which alone may own [txn], and concerns no
    other transaction. *)
Lemma owned_step k k' gs i g g' txn :
  owned k gs → gs !! i = Some g →
  cells_ok k' → grows k k' → (∀ j, j ≠ txn → same_mem k k' j ∧ status_at k' j = status_at k j) →
  (∀ i' h o, i' ≠ i → gs !! i' = Some h → owner h = Some o → o.1.1 ≠ txn) →
  (∀ o, owner g = Some o → o.1.1 = txn) →
  match owner g' with
  | Some (txn', inc, b) => txn' = txn ∧ (∃ e, status_at k' txn = Some e ∧ e_incarnation e = inc ∧ owner_status b e) ∧ owner_mem k' g'
  | None => ∀ e, status_at k' txn = Some e → free_mem k' txn e
  end →
  owned k' (<[i:=g']> gs).
Proof.
  intros [H1 H2 H3 H4 H5] Hi [Hwf Hcells] Hgrows Hother Halone Hg Hg'. split; [done..| | |].
  - intros i1 i2 g1 g2 o1 o2 L1 L2 O1 O2 E.
    apply list_lookup_insert_Some in L1 as [(-> & <- & _)|[N1 L1]], L2 as [(-> & <- & _)|[N2 L2]]; [done| | |by eapply H3].
    + rewrite O1 in Hg'. destruct o1 as [[t1 inc1] b1]. destruct Hg' as [-> _]. by destruct (Halone i2 g2 o2).
    + rewrite O2 in Hg'. destruct o2 as [[t2 inc2] b2]. destruct Hg' as [-> _]. by destruct (Halone i1 g1 o1).
  - intros i' h j inc b [(-> & <- & _)|[N L]]%list_lookup_insert_Some O.
    + rewrite O in Hg'. by destruct Hg' as (-> & ? & ?).
    + assert (j ≠ txn) as Hj by (by apply (Halone i' h (j, inc, b))). destruct (Hother j Hj) as [Hm ->].
      destruct (H4 i' h j inc b L O) as [? ?]. split; [done|]. by eapply owner_mem_frame.
  - intros j e He. destruct (decide (j = txn)) as [->|Hj].
    + destruct (owner g') as [[[t inc] b]|] eqn:O; [|left; by apply Hg'].
      destruct Hg' as (-> & _). right. exists i, g', inc, b. split; [|done].
      apply list_lookup_insert_eq. by eapply lookup_lt_Some.
    + destruct (Hother j Hj) as [Hm Es]. rewrite Es in He. destruct (H5 j e He) as [Hf|(i' & h & inc & b & L & O)].
      * left. by eapply free_mem_frame.
      * right. exists i', h, inc, b. split; [|done]. rewrite list_lookup_insert_ne; [done|]. intros <-.
        rewrite Hi in L. injection L as ->. by apply Hj, (Hg (j, inc, b)).
Qed.

(** A step of the scheduler that changes no owner, only the point of one. *)
Lemma owned_sched k s gs i g g' :
  owned k gs → gs !! i = Some g →
  (∀ j e', status_at (put_sched s k) j = Some e' → ∃ e, status_at k j = Some e ∧ e_incarnation e = e_incarnation e' ∧
     (e_status e = e_status e' ∨ owner_status true e ∧ owner_status true e')) →
  (∀ j e, status_at k j = Some e → is_Some (status_at (put_sched s k) j)) →
  owner g' = owner g → (owner_mem k g → owner_mem k g') →
  owned (put_sched s k) (<[i:=g']> gs).
Proof.
  intros [H1 H2 H3 H4 H5] Hi Hs Hs' Ho Hmem.
  assert (∀ i' h, <[i:=g']> gs !! i' = Some h → ∃ h0, gs !! i' = Some h0 ∧ owner h = owner h0 ∧ (owner_mem k h0 → owner_mem k h)) as Hback.
  { intros i' h [(-> & <- & _)|[N L]]%list_lookup_insert_Some; [by exists g|by exists h]. }
  split; [done|done| | |].
  - intros i1 i2 g1 g2 o1 o2 (h1 & L1 & E1 & _)%Hback (h2 & L2 & E2 & _)%Hback. rewrite E1, E2. by eapply H3.
  - intros i' h j inc b (h0 & L & E0 & Hm)%Hback O. destruct (H4 i' h0 j inc b L) as [(e & E & <- & Hst) ?]; [congruence|].
    split; [|eapply owner_mem_frame; [apply same_mem_sched|by apply grows_unwritten|exact O|by apply Hm]].
    destruct (Hs' j e E) as [e' E']. destruct (Hs j e' E') as (e1 & E1 & Ei & Hor). rewrite E in E1. injection E1 as <-.
    exists e'. split_and!; [done|done|]. unfold owner_status in *.
    destruct b; (destruct Hor as [<-|[Ha Hb]]; [done|]); [done|]. by destruct Ha as [Ha|Ha]; rewrite Ha in Hst.
  - intros j e' E'. destruct (Hs j e' E') as (e & E & Ei & Hor). destruct (H5 j e E) as [Hf|(i' & h & inc & b & L & O)].
    + left. apply (free_mem_frame k (put_sched s k)) in Hf; [|apply same_mem_sched|by apply grows_unwritten].
      unfold KernelInv.free_mem in *. rewrite <- Ei. destruct Hor as [<-|[[Ha|Ha] _]]; [done|by rewrite Ha in Hf..].
    + right. destruct (decide (i' = i)) as [->|N].
      * exists i, g', inc, b. rewrite Hi in L. injection L as ->. split; [|by rewrite Ho].
        apply list_lookup_insert_eq. by eapply lookup_lt_Some.
      * exists i', h, inc, b. by rewrite list_lookup_insert_ne.
Qed.

(** One that leaves the statuses alone. *)
Lemma owned_point k s gs i g g' :
  owned k gs → gs !! i = Some g → txn_status s = txn_status (k_sched k) →
  owner g' = owner g → (owner_mem k g → owner_mem k g') →
  owned (put_sched s k) (<[i:=g']> gs).
Proof.
  intros Ho Hi Es. apply owned_sched with (g := g); [done|done| |]; unfold status_at; cbn; rewrite Es; [|done].
  intros j e ->. exists e. auto.
Qed.

(** ** Looking *)

Lemma owned_cells_ok k gs : owned k gs → cells_ok k.
Proof. intros [H1 H2 _ _ _]. done. Qed.

Lemma cells_indexed k : cells_ok k → indexed (k_data k).
Proof.
  intros [Hwf H] key e He. destruct (H key (s_Index e) e) as [? _]; [by apply cell_Some|lia].
Qed.

Lemma read_answered k txn log key v version :
  cells_ok k → Read (k_data k) key txn = Returns (v, version, false) → answered storage k log →
  answered storage k (log ++ [(key, version, if negb (version_Valid version) then kv_Get storage key else v)]).
Proof.
  intros Hc E Hlog key' version' v' [Hin|Hin]%elem_of_app; [by apply Hlog|].
  apply list_elem_of_singleton in Hin. injection Hin as -> -> ->.
  destruct (version_Valid version) eqn:Ev; [|done]. cbn.
  destruct (Read_current _ _ _ _ _ (proj1 Hc) (cells_indexed k Hc) E) as [_ H].
  destruct (H Ev) as (e & [_ He]%Hc & Hm & <- & <-). by apply He.
Qed.

Lemma stale_keys_spec old new key : sorted_keys old → sorted_keys new → key ∈ stale_keys old new ↔ key ∈ old ∧ key ∉ new.
Proof.
  intros Ho Hn. unfold stale_keys. rewrite list_elem_of_fmap. split.
  - intros ([k b] & -> & [Hb Hin]%list_elem_of_filter). apply diff_list_spec in Hin; [|done..]. cbn in *. naive_solver.
  - intros [H1 H2]. exists (key, false). split; [done|]. apply list_elem_of_filter. split; [done|].
    apply diff_list_spec; [done..|]. naive_solver.
Qed.

Lemma stale_keys_NoDup old new : sorted_keys old → sorted_keys new → NoDup (stale_keys old new).
Proof.
  intros Ho Hn. pose proof (diff_list_sorted old new Ho Hn) as H. unfold stale_keys.
  apply StronglySorted_NoDup in H; [|intros ?; apply bytes_lt_irrefl].
  eapply sublist_NoDup; [done|]. apply fmap_sublist, sublist_filter.
Qed.

Lemma look_owner k g g' : look k g g' → owner g' = owner g.
Proof. intros H. destruct H; try done. set_unfold. naive_solver. Qed.

Lemma look_owner_mem k g g' : cells_ok k → look k g g' → owner_mem k g → owner_mem k g'.
Proof.
  intros Hc Hl. destruct Hl; cbn; try done.
  - intros (H1 & H2 & H3). split_and!; [done|done|]. by eapply read_answered.
  - intros ((H1 & H2) & H3 & H4). split_and!; [done|done|done|]. exists []. split_and!; [done| |].
    + intros key. apply H2.
    + intros inc' key Hk. left. by eapply H3.
  - intros (H1 & H2 & H3 & front & H4 & H5 & H6). rewrite app_nil_r in H4. subst front.
    assert (sorted_keys (writes a).*1) as Hs by (eapply genuine_sorted; apply H1).
    split_and!; [done| |by apply stale_keys_NoDup| |].
    + intros inc' key Hk. apply H6 in Hk. lia.
    + intros key Hk. apply stale_keys_spec in Hk as [_ Hk]; [|done..]. by apply write_of_None.
    + intros key. specialize (H5 key). destruct (write_of (writes a) key) eqn:E; [done|].
      apply write_of_None in E. unfold marked_cell in H5. case_decide as Hd; rewrite stale_keys_spec in Hd by done.
      * destruct (cell _ key txn) as [e|]; [|naive_solver]. exists e. naive_solver.
      * destruct (cell _ key txn) as [e|]; [|done]. naive_solver.
Qed.

Lemma owned_look k gs i g g' : owned k gs → gs !! i = Some g → look k g g' → owned k (<[i:=g']> gs).
Proof.
  intros Ho Hi Hl. rewrite <- (put_sched_id k) at 1. eapply owned_point; [done|done|done|by eapply look_owner|].
  eapply look_owner_mem; [|done]. by eapply owned_cells_ok.
Qed.

(** ** Writing to the memory *)

Lemma cells_ok_update k k' key txn o :
  cells_ok k → cell_update (k_data k) key txn o (k_data k') → grows k k' →
  (∀ e, o = Some e → 0 <= txn < n ∧ (s_Estimate e = false → k_written k' !! (txn, s_Incarnation e, key) = Some (s_Value e))) →
  cells_ok k'.
Proof.
  intros [Hwf H] [Hwf' Hc] Hg Ho. split; [done|]. intros key' txn' e. rewrite Hc. case_decide as Hd.
  - destruct Hd as [-> ->]. apply Ho.
  - intros He. destruct (H key' txn' e He) as [? Hw]. split; [done|]. intros Hm. eapply lookup_weaken; [by apply Hw|done].
Qed.

Lemma same_mem_update k d key txn o j : j ≠ txn → cell_update (k_data k) key txn o d → same_mem k (put_data d k) j.
Proof. intros Hj [_ Hc]. split; try done. intros key'. cbn. rewrite Hc, decide_False; [done|]. by intros [_ ->]. Qed.

(** A step of the owner of [txn] on the memory. *)
Lemma owned_memory k k' gs i g g' txn inc b :
  owned k gs → gs !! i = Some g → owner g = Some (txn, inc, b) → owner g' = owner g → k_sched k' = k_sched k →
  cells_ok k' → grows k k' → (∀ j, j ≠ txn → same_mem k k' j) → owner_mem k' g' →
  owned k' (<[i:=g']> gs).
Proof.
  intros Ho Hi O O' Es Hc Hg Hm Hmem. destruct (o_owner _ _ _ _ _ _ Ho i g txn inc b Hi O) as [Hst _].
  assert (∀ j, status_at k' j = status_at k j) as Est by (intros j; unfold status_at; by rewrite Es).
  apply (owned_step k k' gs i g g' txn); try done.
  - intros j Hj. auto.
  - intros i' h o Hne L Oh E. apply Hne. eapply (o_unique _ _ _ _ _ _ Ho i' i h g); [done..|by rewrite E].
  - intros o. rewrite O. by intros [= <-].
  - rewrite O', O. by rewrite Est.
Qed.

Lemma owned_write k gs i txn inc a wrote key v rest d :
  owned k gs → 0 <= txn < n → gs !! i = Some (PWriting txn inc a wrote ((key, v) :: rest)) →
  Write (k_data k) key v (MkVersion txn inc) = Returns d →
  owned (put_written (<[(txn, inc, key) := v]> (k_written k)) (put_data d k)) (<[i:=PWriting txn inc a wrote rest]> gs).
Proof.
  intros Ho Hn Hi E. pose proof (owned_cells_ok _ _ Ho) as Hc.
  destruct (Write_cell (k_data k) key v (MkVersion txn inc)) as (d' & E' & Hu); [apply Hc|].
  rewrite E in E'. injection E' as <-. cbn in Hu.
  destruct (o_owner _ _ _ _ _ _ Ho i _ txn inc true Hi eq_refl) as [_ (H1 & H2 & H3 & front & H4 & H5 & H6)].
  assert (key ∉ front.*1) as Hkey.
  { assert (NoDup (writes a).*1) as Hnd.
    { eapply StronglySorted_NoDup; [|eapply genuine_sorted; apply H1]. intros ?. apply bytes_lt_irrefl. }
    rewrite H4, fmap_app in Hnd. apply NoDup_app in Hnd as (_ & Hnd & _). intros Hin. apply (Hnd key Hin). by left. }
  assert (grows k (put_written (<[(txn, inc, key) := v]> (k_written k)) (put_data d k))) as Hg.
  { apply insert_subseteq. destruct (k_written k !! (txn, inc, key)) eqn:Ew; [|done].
    destruct (H6 inc key) as [?|[_ ?]]; [by eexists|lia|done]. }
  eapply owned_memory with (txn := txn); [done|done|done|done|done| |done| |].
  - eapply cells_ok_update; [done|exact Hu|done|]. intros e [= <-]. split; [done|]. intros _. apply lookup_insert_eq.
  - intros j Hj. destruct (same_mem_update _ _ _ _ _ j Hj Hu). split; try done. intros inc' key'. cbn.
    rewrite lookup_insert_ne; [done|]. congruence.
  - destruct H1 as [H1 H1']. split_and!; [by split; [|eapply answered_grows]|done|done|].
    exists (front ++ [(key, v)]). rewrite <- app_assoc. split_and!; [done| |].
    + destruct Hu as [_ Hu]. intros key'. rewrite write_of_snoc by done. cbn [k_data put_written put_data].
      unfold marked_cell. cbn [k_data put_written put_data]. rewrite Hu. specialize (H5 key').
      repeat case_decide; naive_solver.
    + intros inc' key'. cbn. rewrite fmap_app, elem_of_app.
      destruct (decide ((txn, inc, key) = (txn, inc', key'))) as [[= -> ->]|Hne].
      * intros _. right. split; [done|]. right. by left.
      * rewrite lookup_insert_ne by done. intros Hw. destruct (H6 _ _ Hw) as [?|[? ?]]; auto.
Qed.

Lemma owned_delete k gs i txn inc a wrote key rest d :
  owned k gs → gs !! i = Some (PDeleting txn inc a wrote (key :: rest)) →
  MVDelete (k_data k) key txn = Returns d →
  owned (put_data d k) (<[i:=PDeleting txn inc a wrote rest]> gs).
Proof.
  intros Ho Hi E. pose proof (owned_cells_ok _ _ Ho) as Hc.
  destruct (MVDelete_cell (k_data k) key txn) as (d' & E' & Hu); [apply Hc|].
  rewrite E in E'. injection E' as <-.
  destruct (o_owner _ _ _ _ _ _ Ho i _ txn inc true Hi eq_refl) as [_ (H1 & H2 & H3 & H4 & H5)].
  apply NoDup_cons in H3 as [Hkey H3].
  eapply owned_memory with (txn := txn); [done|done|done|done|done| |by apply grows_unwritten| |].
  - by eapply cells_ok_update; [done|exact Hu|by apply grows_unwritten|].
  - intros j Hj. by eapply same_mem_update.
  - split_and!; [done|done|done|intros key' Hk; apply H4; by right|].
    destruct Hu as [_ Hu]. intros key'. specialize (H5 key'). cbn [k_data put_data]. rewrite Hu.
    destruct (decide (key' = key)) as [->|Hne].
    + rewrite (H4 key) by (by left). by rewrite (decide_False (P := key ∈ rest)), decide_True by done.
    + rewrite (decide_False (P := key' = key ∧ _)) by naive_solver. destruct (write_of (writes a) key'); [done|].
      case_decide as Hd; rewrite elem_of_cons in Hd; case_decide; naive_solver.
Qed.

Lemma owned_estimate k gs i txn inc key rest d :
  owned k gs → 0 <= txn < n → gs !! i = Some (PAbort txn inc (Some (key :: rest))) →
  WriteEstimate (k_data k) key txn = Returns d→
  owned (put_data d k) (<[i:=PAbort txn inc (Some rest)]> gs).
Proof.
  intros Ho Hn Hi E. pose proof (owned_cells_ok _ _ Ho) as Hc.
  destruct (WriteEstimate_cell (k_data k) key txn) as (d' & E' & Hu); [apply Hc|].
  rewrite E in E'. injection E' as <-.
  destruct (o_owner _ _ _ _ _ _ Ho i _ txn inc false Hi eq_refl) as [_ (H1 & H2 & Hsub & H3)].
  assert (key ∈ locations_at k txn) as Hkey by (apply Hsub; by left).
  eapply owned_memory with (txn := txn); [done|done|done|done|done| |by apply grows_unwritten| |].
  - eapply cells_ok_update; [done|exact Hu|by apply grows_unwritten|]. by intros e [= <-].
  - intros j Hj. by eapply same_mem_update.
  - split_and!; [done|done|intros key' Hk; apply Hsub; by right|].
    destruct Hu as [_ Hu]. intros key'. specialize (H3 key'). cbn [k_data put_data]. rewrite Hu.
    destruct (decide (key' = key ∧ txn = txn)) as [[-> _]|Hne]; [by auto|]. destruct (cell (k_data k) key' txn); [|done].
    cbn in H3. rewrite elem_of_cons in H3. naive_solver.
Qed.

Lemma owned_store k gs i txn inc a wrote l :
  owned k gs → gs !! i = Some (PDeleting txn inc a wrote []) →
  set_index (k_lastWrittenLocations k) txn (Some (writes a).*1) = Some l →
  owned (put_locations l k) (<[i:=PStored txn inc a wrote]> gs).
Proof.
  intros Ho Hi [Hb ->]%set_index_Some. pose proof (owned_cells_ok _ _ Ho) as Hc.
  destruct (o_owner _ _ _ _ _ _ Ho i _ txn inc true Hi eq_refl) as [_ (H1 & H2 & H3 & H4 & H5)].
  eapply owned_memory with (txn := txn); [done|done|done|done|done|done|by apply grows_unwritten| |].
  - intros j Hj. split; try done. unfold locations_at. cbn. by rewrite at_index_insert_ne by lia.
  - split_and!; [done|done|]. split; [exact H5|]. unfold locations_at. cbn. by rewrite at_index_insert, decide_True by lia.
Qed.

Lemma owned_record k gs i txn inc a wrote rs l :
  owned k gs → gs !! i = Some (PStored txn inc a wrote) →
  set_index (k_lastReadSet k) txn (Some (v_readSet (at_view a))) = Some rs →
  set_index (k_attempts k) txn (Some a) = Some l →
  owned (put_attempt rs l k) (<[i:=PRecorded txn inc a wrote]> gs).
Proof.
  intros Ho Hi [Hb ->]%set_index_Some [Hb' ->]%set_index_Some. pose proof (owned_cells_ok _ _ Ho) as Hc.
  destruct (o_owner _ _ _ _ _ _ Ho i _ txn inc true Hi eq_refl) as [_ (H1 & H2 & H3)].
  eapply owned_memory with (txn := txn); [done|done|done|done|done|done|by apply grows_unwritten| |].
  - intros j Hj. split; try done; cbn; by rewrite at_index_insert_ne by lia.
  - exists a. cbn. rewrite !at_index_insert, !decide_True by lia. by split_and!.
Qed.

(** ** Changing owner *)

Lemma not_owned k gs i g txn inc b e :
  owned k gs → status_at k txn = Some e → gs !! i = Some g → owner g = Some (txn, inc, b) →
  e_status e = StatusExecuting ∨ e_status e = StatusSuspended ∨ e_status e = StatusAborting.
Proof.
  intros Ho E Hi O. destruct (o_owner _ _ _ _ _ _ Ho i g txn inc b Hi O) as [(e' & E' & _ & Hs) _].
  rewrite E in E'. injection E' as <-. destruct b; cbn in Hs; tauto.
Qed.

(** Nobody but [i] owns a transaction that [i] owns, or that is ready or executed. *)
Lemma owned_alone k gs i g txn e :
  owned k gs → gs !! i = Some g → status_at k txn = Some e →
  (∃ inc b, owner g = Some (txn, inc, b)) ∨ e_status e = StatusReadyToExecute ∨ e_status e = StatusExecuted →
  ∀ i' h o, i' ≠ i → gs !! i' = Some h → owner h = Some o → o.1.1 ≠ txn.
Proof.
  intros Ho Hi E Hor i' h [[t inc] b] Hne L O Et. cbn in Et. subst t. destruct Hor as [(inc' & b' & O')|Hst].
  - apply Hne. by eapply (o_unique _ _ _ _ _ _ Ho i' i h g).
  - pose proof (not_owned _ _ _ _ _ _ _ _ Ho E L O) as H. destruct Hst as [Hst|Hst]; rewrite Hst in H; naive_solver.
Qed.

Lemma owned_free k gs txn e :
  owned k gs → status_at k txn = Some e → e_status e = StatusReadyToExecute ∨ e_status e = StatusExecuted → free_mem k txn e.
Proof.
  intros Ho E Hst. destruct (o_free _ _ _ _ _ _ Ho txn e E) as [?|(i & g & inc & b & L & O)]; [done|].
  pose proof (not_owned _ _ _ _ _ _ _ _ Ho E L O) as H. destruct Hst as [Hst|Hst]; rewrite Hst in H; naive_solver.
Qed.

(** A step that changes the status of [txn], and who owns it. *)
Lemma owned_status k gs i g g' txn e e' :
  owned k gs → gs !! i = Some g → status_at k txn = Some e →
  (∃ inc b, owner g = Some (txn, inc, b)) ∨ owner g = None ∧ (e_status e = StatusReadyToExecute ∨ e_status e = StatusExecuted) →
  match owner g' with
  | Some (txn', inc, b) => txn' = txn ∧ e_incarnation e' = inc ∧ owner_status b e' ∧ owner_mem k g'
  | None => free_mem k txn e'
  end →
  owned (with_status k txn e') (<[i:=g']> gs).
Proof.
  intros Ho Hi E Hor Hg'.
  apply (owned_step k (with_status k txn e') gs i g g' txn); [done|done|exact (owned_cells_ok k gs Ho)|by apply grows_unwritten| | | |].
  - intros j Hj. split; [apply same_mem_sched|]. by rewrite (status_at_with _ _ _ _ _ E), decide_False.
  - eapply owned_alone; [done|done|done|]. naive_solver.
  - intros o O. destruct Hor as [(inc & b & O')|[O' _]]; rewrite O' in O; [by injection O as <-|done].
  - assert (∀ h, owner h = owner g' → is_Some (owner h) → owner_mem k h → owner_mem (with_status k txn e') h) as Hm.
    { intros h _ [[[t inc] b] O]. eapply owner_mem_frame; [apply same_mem_sched|by apply grows_unwritten|done]. }
    rewrite (status_at_with _ _ _ _ _ E), decide_True by done. destruct (owner g') as [[[t inc] b]|] eqn:O.
    + destruct Hg' as (-> & Hinc & Hst & Hmem). split_and!; [done|by exists e'|]. by apply Hm; [|eexists|].
    + intros e1 [= <-]. eapply free_mem_frame; [apply same_mem_sched|by apply grows_unwritten|done].
Qed.

Lemma recorded_abort k txn inc : recorded k txn inc → owner_mem k (PAbort txn inc None).
Proof.
  intros (a & _ & _ & H1 & [H2 H3] & H4). cbn. split_and!; [|done|done|].
  - rewrite H3. eapply genuine_sorted, H1.
  - intros key. specialize (H2 key). rewrite H3. destruct (write_of (writes a) key) as [v|] eqn:E.
    + rewrite H2. apply write_of_elem in E. assert (key ∈ (writes a).*1) by (apply list_elem_of_fmap; by exists (key, v)). auto.
    + rewrite H2. by apply write_of_None.
Qed.

Lemma listed_resume k gs i txn inc wrote t rest : gs !! i = Some (PFin txn inc wrote (t :: rest)) → t ∈ listed k gs.
Proof.
  intros Hi. apply elem_of_app. right. apply list_elem_of_join. exists (t :: rest). split; [by left|].
  apply list_elem_of_fmap. exists (PFin txn inc wrote (t :: rest)). split; [done|]. by eapply list_elem_of_lookup_2.
Qed.

(** The status of a transaction that is to be resumed. *)
Lemma awaiting_status k gs t e : owned k gs → awaiting k gs → t ∈ listed k gs → status_at k t = Some e → owner_status true e.
Proof.
  intros Ho Haw Hin E. destruct (w_listed _ _ Haw t Hin) as (i & inc & log & c & _ & L & _).
  destruct (o_owner _ _ _ _ _ _ Ho i _ t inc true L eq_refl) as [(e' & E' & _ & Hs) _]. congruence.
Qed.

Lemma owned_range t k gs i g txn inc b :
  owned k gs → counted n t k gs → gs !! i = Some g → owner g = Some (txn, inc, b) → 0 <= txn < n.
Proof.
  intros Ho Hc Hi O. destruct (o_owner _ _ _ _ _ _ Ho i g txn inc b Hi O) as [(e & E & _) _].
  apply at_index_Some in E. by rewrite (c_status _ _ _ _ Hc) in E.
Qed.

Lemma owned_effect t k gs i g k' g' :
  owned k gs → counted n t k gs → awaiting k gs → gs !! i = Some g →
  effect k g k' g' → owned k' (<[i:=g']> gs).
Proof.
  intros Ho Hcnt Haw Hi He.
  destruct He as [g s []| | | | |txn e E Hst| |txn inc log c e E| | | | | |txn inc a wrote e E| |txn inc wrote t' rest e e' c E Hr
    | |next|txn inc e E Einc Hst| |txn inc e E|];
    try (by eapply owned_point); try (by eapply owned_store); try (by eapply owned_record); try (by eapply owned_delete).
  - eapply owned_status; [done|done|done|by auto|]. pose proof (owned_free _ _ _ _ Ho E (or_introl Hst)) as Hf.
    unfold KernelInv.free_mem in Hf. rewrite Hst in Hf. destruct Hf as [H1 H2]. split_and!; [done|done|by left|].
    split_and!; [done|done|]. intros ??? Hin. by apply elem_of_nil in Hin.
  - destruct (o_owner _ _ _ _ _ _ Ho i _ txn inc true Hi eq_refl) as [(e0 & E0 & Hinc & Hst) Hmem].
    rewrite E in E0. injection E0 as <-.
    eapply owned_status; [done|done|done|left; by do 2 eexists|]. split_and!; [done|done|by right|exact Hmem].
  - eapply owned_write; [done|by eapply (owned_range _ _ _ i)|done|done].
  - destruct (o_owner _ _ _ _ _ _ Ho i _ txn inc true Hi eq_refl) as [(e0 & E0 & Hinc & Hst) Hmem].
    rewrite E in E0. injection E0 as <-.
    eapply owned_status; [done|done|done|left; by do 2 eexists|]. cbn. by rewrite Hinc.
  - pose proof (awaiting_status _ _ _ _ Ho Haw (listed_resume k gs i _ _ _ _ _ Hi) E) as Hst.
    apply Resume_incarnation in Hr as [_ ->].
    eapply (owned_sched k _ gs i); [done|done| | |done|done]; intros j e1;
      (replace (status_at (put_sched _ k) j) with (status_at (with_status k t' (MkEntry (e_incarnation e) StatusExecuting None)) j) by done);
      rewrite (status_at_with _ _ _ _ _ E); case_decide; subst; [|by eauto| |by eauto].
    + intros [= <-]. exists e. split_and!; [done|done|]. right. split; [done|]. by left.
    + by eauto.
  - by destruct next; eapply owned_point.
  - eapply owned_status; [done|done|done|by auto|]. pose proof (owned_free _ _ _ _ Ho E (or_intror Hst)) as Hf.
    unfold KernelInv.free_mem in Hf. rewrite Hst in Hf. split_and!; [done|done|done|].
    rewrite Einc in Hf. apply (recorded_abort k txn inc Hf).
  - eapply owned_estimate; [done|by eapply (owned_range _ _ _ i)|done|done].
  - destruct (o_owner _ _ _ _ _ _ Ho i _ txn inc false Hi eq_refl) as [(e0 & E0 & Hinc & Hst) (H1 & H2 & H3 & H4)].
    rewrite E in E0. injection E0 as <-.
    eapply owned_status; [done|done|done|left; by do 2 eexists|]. cbn. split; [split; [done|]|by rewrite Hinc].
    intros key. specialize (H4 key). unfold marked_cell. destruct (cell _ key txn) as [e1|]; [|done].
    destruct H4 as [? [?|Hin]]; [done|]. by apply elem_of_nil in Hin.
Qed.
End owned.
