(* ===== verification/KernelObliged.v ===== *)
(** * No obligation is lost

    [obliged] is preserved by every move: a transaction that is ready is yet to
    be fetched, and one that has read something outdated is yet to be validated
    again, by an executor on its way or because [validation_idx] is below it. *)

From Stdlib Require Import ZArith Lia.
From S2P Require Import Prelude Utils BTree BTreeIterator Types MemDB MVData MVDataFacts MVView Prog Status Scheduler Cells Kernel KernelMoves KernelRuns KernelInv KernelOwned.
Local Open Scope Z_scope.

Section obliged.
Context {BT : BTreeLib} {BL : BTreeLaws} {V A : Type} `{!GoZero V} (isZero : V → bool).
Context {Store : Type} `{!KVStore Store V} (storage : Store).
Context (txExecutor : Z → callback V A) (n : Z).
Abbreviation kernel := (kernel V A Store).
Abbreviation attempt := (attempt V A Store).
Abbreviation look := (look isZero storage txExecutor).
Abbreviation point := (point (V := V) (A := A) (Store := Store)).
Abbreviation owned := (owned isZero storage txExecutor n).
Implicit Types (k : kernel) (g : point) (gs : list point) (txn inc : Z) (a : attempt).

(** The two obligations, as one executor may discharge them. *)
Definition will_execute k g txn : Prop := execution_idx (k_sched k) <= txn ∨ pends g = Some txn.
Definition will_validate k g txn inc r : Prop :=
  current (k_data k) txn (rd_Key r) (rd_Version r) ∨ validation_idx (k_sched k) <= txn ∨ covers g txn inc r.

Lemma obliged_step k k' gs i g g' :
  obliged k gs → gs !! i = Some g →
  (∀ txn e', status_at k' txn = Some e' → e_status e' = StatusReadyToExecute →
     will_execute k' g' txn ∨
     ∃ e, status_at k txn = Some e ∧ e_status e = StatusReadyToExecute ∧ (will_execute k g txn → will_execute k' g' txn)) →
  (∀ txn e' r, status_at k' txn = Some e' → e_status e' = StatusExecuted → r ∈ reads_at k' txn →
     will_validate k' g' txn (e_incarnation e') r ∨
     ∃ e, status_at k txn = Some e ∧ e_status e = StatusExecuted ∧ e_incarnation e = e_incarnation e' ∧ r ∈ reads_at k txn ∧
       (will_validate k g txn (e_incarnation e') r → will_validate k' g' txn (e_incarnation e') r)) →
  obliged k' (<[i:=g']> gs).
Proof.
  intros [Hr Hx] Hi Hready Hexec.
  assert (<[i:=g']> gs !! i = Some g') as Hi' by (apply list_lookup_insert_eq; by eapply lookup_lt_Some).
  split.
  - intros txn e' E Hst.
    assert (will_execute k' g' txn ∨ ∃ j h, j ≠ i ∧ gs !! j = Some h ∧ pends h = Some txn) as [[?|?]|(j & h & Hj & L & Hp)].
    { destruct (Hready txn e' E Hst) as [?|(e & E0 & Hst0 & Himp)]; [by left|].
      destruct (Hr txn e E0 Hst0) as [?|(j & h & L & Hp)]; [left; apply Himp; by left|].
      destruct (decide (j = i)) as [->|Hj]; [|by right; exists j, h].
      rewrite Hi in L. injection L as <-. left. apply Himp. by right. }
    + by left.
    + right. by exists i, g'.
    + right. exists j, h. by rewrite list_lookup_insert_ne.
  - intros txn e' r E Hst Hin.
    assert (will_validate k' g' txn (e_incarnation e') r ∨ ∃ j h, j ≠ i ∧ gs !! j = Some h ∧ covers h txn (e_incarnation e') r)
      as [[?|[?|?]]|(j & h & Hj & L & Hp)].
    { destruct (Hexec txn e' r E Hst Hin) as [?|(e & E0 & Hst0 & Hinc & Hin0 & Himp)]; [by left|].
      destruct (Hx txn e r E0 Hst0 Hin0) as [?|[?|(j & h & L & Hp)]]; [left; apply Himp; by left|left; apply Himp; right; by left|].
      rewrite Hinc in Hp. destruct (decide (j = i)) as [->|Hj]; [|by right; exists j, h].
      rewrite Hi in L. injection L as <-. left. apply Himp. by right; right. }
    + by left.
    + right. by left.
    + right. right. by exists i, g'.
    + right. right. exists j, h. by rewrite list_lookup_insert_ne.
Qed.

(** A step that changes neither statuses, memory nor recorded reads. *)
Lemma obliged_point k s gs i g g' :
  obliged k gs → gs !! i = Some g → txn_status s = txn_status (k_sched k) →
  (∀ txn e, status_at k txn = Some e → e_status e = StatusReadyToExecute → will_execute k g txn → will_execute (put_sched s k) g' txn) →
  (∀ txn e r, status_at k txn = Some e → e_status e = StatusExecuted → r ∈ reads_at k txn →
     will_validate k g txn (e_incarnation e) r → will_validate (put_sched s k) g' txn (e_incarnation e) r) →
  obliged (put_sched s k) (<[i:=g']> gs).
Proof.
  intros Hb Hi Es Hr Hx. apply obliged_step with (k := k) (g := g); [done|done| |]; unfold status_at; cbn; rewrite Es.
  - intros txn e E Hst. right. exists e. split_and!; [done|done|]. by apply (Hr txn e).
  - intros txn e r E Hst Hin. right. exists e. split_and!; [done|done|done|done|]. by apply (Hx txn e).
Qed.

Lemma new_path_spec old new key : sorted_keys old → sorted_keys new → key ∈ new → key ∉ old → new_path old new = true.
Proof.
  intros Ho Hn H1 H2. apply existsb_exists. exists (key, true). split; [|done].
  apply list_elem_of_In, diff_list_spec; [done..|]. by right.
Qed.

Lemma obliged_look k gs i g g' :
  obliged k gs → owned k gs → block_size (k_sched k) = n → Z.of_nat (length (txn_status (k_sched k))) = n →
  gs !! i = Some g → look k g g' → obliged k (<[i:=g']> gs).
Proof.
  intros Hb Ho Hn Hlen Hi Hl. pose proof (owned_cells_ok _ _ _ _ _ _ Ho) as Hc.
  assert (∀ txn e, status_at k txn = Some e → txn < n) as Hlt.
  { intros txn e E. apply at_index_Some in E. lia. }
  rewrite <- (put_sched_id k) at 1. apply obliged_point with (g := g); [done|done|done| |].
  - intros txn e E Hst [Hx|Hx]; [by left|]. destruct Hl; try done; cbn in *; try (by right).
    + set_unfold. naive_solver.
    + injection Hx as ->. specialize (Hlt _ _ E). destruct H as [?|(e' & E' & Hst')]; [lia|congruence].
    + injection Hx as ->. by left.
  - intros txn e r E Hst Hin [Hx|[Hx|Hx]]; [by left|right; by left|]. rewrite put_sched_id.
    destruct Hl as [| | | | |g c Hg| |t0 e0 E0 Hst0|t0 Hn0| | | | |t0 inc a wrote|t0 inc wrote Hv| | | | |t0 inc rs Hrs
      |t0 inc r0 rest v Hr| | |t0 inc e0 E0 Hst0|]; try done; cbn in Hx; try (by right; right).
    + set_unfold. naive_solver.
    + subst t0. right; right. split; [done|congruence].
    + subst t0. specialize (Hlt _ _ E). destruct Hn0 as [?|(e' & E' & Hst')]; [lia|congruence].
    + destruct (o_owner _ _ _ _ _ _ Ho i _ t0 inc true Hi eq_refl) as [_ (_ & _ & Hw & _)]. right; right. cbn.
      unfold writes in Hw. by rewrite <- Hw.
    + right; left. lia.
    + destruct Hx as [[-> ->]|[? _]]; [|done]. by right; right.
    + destruct Hx as [[-> ->]|[_ ?]]; right; right; cbn; [lia|done].
    + destruct Hx as [-> ->]. right; right. cbn. split_and!; [done|done|]. unfold reads_at in Hin. by rewrite Hrs in Hin.
    + destruct Hx as (-> & -> & [->|Hx]%elem_of_cons); [|by right; right].
      left. eapply Read_current; [apply Hc|by eapply cells_indexed|done].
    + destruct Hx as (-> & -> & Hx). by right; right.
    + by destruct Hx as (_ & _ & Hx%elem_of_nil).
    + destruct Hx as [-> ->]. destruct Hst0. rewrite E in E0. by injection E0 as <-.
Qed.

(** A step of the owner of [txn] on the memory. *)
Lemma obliged_memory k k' gs i g g' txn inc b :
  obliged k gs → owned k gs → gs !! i = Some g → owner g = Some (txn, inc, b) → k_sched k' = k_sched k →
  (∀ j, j ≠ txn → reads_at k' j = reads_at k j) → pends g = None →
  (∀ j i r, j ≠ txn → covers g j i r → covers g' j i r) →
  (∀ j i r, j ≠ txn → current (k_data k) j (rd_Key r) (rd_Version r) → will_validate k' g' j i r) →
  obliged k' (<[i:=g']> gs).
Proof.
  intros Hb Ho Hi O Es Hreads Hp Hcov Hcur. apply obliged_step with (k := k) (g := g); [done|done| |]; unfold status_at, will_execute; rewrite Es.
  - intros txn' e E Hst. right. exists e. split_and!; [done|done|]. rewrite Hp. intros [?|?]; [by left|done].
  - intros txn' e r E Hst. destruct (decide (txn' = txn)) as [->|Hne].
    { destruct (not_owned isZero storage txExecutor n k gs i g txn inc b e) as [H|[H|H]]; [done..|congruence|congruence|congruence]. }
    rewrite Hreads by done. intros Hin. right. exists e. split_and!; [done|done|done|done|].
    intros [Hx|[Hx|Hx]]; [by apply Hcur|right; left|right; right; by apply Hcov]. by rewrite Es.
Qed.

Lemma obliged_write k gs i txn inc a wrote key v rest d :
  obliged k gs → owned k gs → 0 <= txn → gs !! i = Some (PWriting txn inc a wrote ((key, v) :: rest)) →
  Write (k_data k) key v (MkVersion txn inc) = Returns d →
  obliged (put_written (<[(txn, inc, key) := v]> (k_written k)) (put_data d k)) (<[i:=PWriting txn inc a wrote rest]> gs).
Proof.
  intros Hb Ho Hn Hi E. pose proof (owned_cells_ok _ _ _ _ _ _ Ho) as Hc.
  destruct (Write_cell (k_data k) key v (MkVersion txn inc)) as (d' & E' & Hu); [apply Hc|].
  rewrite E in E'. injection E' as <-. cbn in Hu.
  destruct (o_owner _ _ _ _ _ _ Ho i _ txn inc true Hi eq_refl) as [_ (H1 & H2 & H3 & front & H4 & H5 & H6)].
  eapply obliged_memory with (txn := txn); [done|done|done|done|done|done|done|done|].
  intros j inc' r Hj Hcur. destruct (decide (j <= txn)) as [Hle|Hgt].
  { left. by eapply current_before. }
  assert (NoDup (writes a).*1) as Hnd.
  { eapply StronglySorted_NoDup; [|eapply genuine_sorted; apply H1]. intros ?. apply bytes_lt_irrefl. }
  assert (write_of front key = None) as Hk.
  { apply write_of_None. rewrite H4, fmap_app in Hnd. apply NoDup_app in Hnd as (_ & Hnd & _).
    intros Hin. apply (Hnd key Hin). by left. }
  specialize (H5 key). rewrite Hk in H5. unfold marked_cell in H5.
  destruct (cell (k_data k) key txn) as [e|] eqn:Ec.
  - left. cbn. by eapply current_overwrite; [done|exact Ec|apply H5|exact Hu|].
  - right; right. cbn. split; [|lia]. rewrite H3. eapply (new_path_spec _ _ key); [done|eapply genuine_sorted; apply H1| |done].
    rewrite H4, fmap_app. apply elem_of_app. right. by left.
Qed.

Lemma obliged_delete k gs i txn inc a wrote key rest d :
  obliged k gs → owned k gs → 0 <= txn → gs !! i = Some (PDeleting txn inc a wrote (key :: rest)) →
  MVDelete (k_data k) key txn = Returns d →
  obliged (put_data d k) (<[i:=PDeleting txn inc a wrote rest]> gs).
Proof.
  intros Hb Ho Hn Hi E. pose proof (owned_cells_ok _ _ _ _ _ _ Ho) as Hc.
  destruct (MVDelete_cell (k_data k) key txn) as (d' & E' & Hu); [apply Hc|].
  rewrite E in E'. injection E' as <-.
  destruct (o_owner _ _ _ _ _ _ Ho i _ txn inc true Hi eq_refl) as [_ (_ & _ & _ & H4 & H5)].
  eapply obliged_memory with (txn := txn); [done|done|done|done|done|done|done|done|].
  intros j inc' r Hj Hcur. left. cbn. specialize (H5 key). rewrite (H4 key) in H5 by (by left).
  rewrite decide_True in H5 by (by left). destruct H5 as (e & Ec & Em).
  by eapply current_overwrite; [done|exact Ec|done|exact Hu|].
Qed.

Lemma obliged_estimate k gs i txn inc key rest d :
  obliged k gs → owned k gs → gs !! i = Some (PAbort txn inc (Some (key :: rest))) →
  WriteEstimate (k_data k) key txn = Returns d →
  obliged (put_data d k) (<[i:=PAbort txn inc (Some rest)]> gs).
Proof.
  intros Hb Ho Hi E. pose proof (owned_cells_ok _ _ _ _ _ _ Ho) as Hc.
  destruct (WriteEstimate_cell (k_data k) key txn) as (d' & E' & Hu); [apply Hc|].
  rewrite E in E'. injection E' as <-.
  eapply obliged_memory with (txn := txn); [done|done|done|done|done|done|done|done|].
  intros j inc' r Hj Hcur. destruct (decide (j <= txn)) as [Hle|Hgt].
  - left. by eapply current_before.
  - right; right. cbn. lia.
Qed.

(** A step that changes the status of [txn]. *)
Lemma obliged_status k gs i g g' txn e e' :
  obliged k gs → gs !! i = Some g → status_at k txn = Some e →
  (e_status e' = StatusReadyToExecute → will_execute k g' txn) →
  (∀ r, e_status e' = StatusExecuted → will_validate k g' txn (e_incarnation e') r) →
  (∀ j, j ≠ txn → pends g = Some j → pends g' = Some j) →
  (∀ j i r, j ≠ txn → covers g j i r → covers g' j i r) →
  obliged (with_status k txn e') (<[i:=g']> gs).
Proof.
  intros Hb Hi E Hr Hx Hp Hcov. apply obliged_step with (k := k) (g := g); [done|done| |].
  - intros j e1. rewrite (status_at_with _ _ _ _ _ E). case_decide as Hj.
    + intros [= <-] Hst. subst j. left. by apply Hr.
    + intros E1 Hst. right. exists e1. split_and!; [done|done|]. intros [?|?]; [by left|right; by apply Hp].
  - intros j e1 r. rewrite (status_at_with _ _ _ _ _ E). case_decide as Hj.
    + intros [= <-] Hst Hin. subst j. left. by apply Hx.
    + intros E1 Hst Hin. right. exists e1. split_and!; [done|done|done|done|].
      intros [?|[?|?]]; [by left|by right; left|right; right; by apply Hcov].
Qed.

(** A step of the scheduler that changes no status. *)
Lemma obliged_sched k s gs i g g' :
  obliged k gs → gs !! i = Some g → txn_status s = txn_status (k_sched k) →
  (∀ txn, execution_idx (k_sched k) <= txn ∨ pends g = Some txn → execution_idx s <= txn ∨ pends g' = Some txn) →
  (∀ txn inc r, validation_idx (k_sched k) <= txn ∨ covers g txn inc r → validation_idx s <= txn ∨ covers g' txn inc r) →
  obliged (put_sched s k) (<[i:=g']> gs).
Proof.
  intros Hb Hi Es Hr Hx. eapply obliged_point; [done|done|done| |].
  - intros txn e _ _. apply Hr.
  - intros txn e r _ _ _ [?|H]; [by left|right]. by apply Hx.
Qed.

Lemma obliged_effect t k gs i g k' g' :
  obliged k gs → owned k gs → counted n t k gs → gs !! i = Some g →
  effect k g k' g' → obliged k' (<[i:=g']> gs).
Proof.
  intros Hb Ho Hcnt Hi He.
  assert (∀ txn inc b, owner g = Some (txn, inc, b) → 0 <= txn < n) as Hrange by (intros; by eapply owned_range).
  destruct He as [g s Hs| | | | |txn e E Hst| |txn inc log c e E| | | | |txn inc a wrote rs l Hrs Hl|txn inc a wrote e E| |
    txn inc wrote t' rest e e' c E Hr|target next|next|txn inc e E Einc Hst| |txn inc e E|];
    try (by eapply obliged_delete; [done|done|eapply Hrange|..]);
    try (by eapply obliged_write; [done|done|eapply Hrange|..]);
    try (by eapply obliged_estimate);
    try (eapply obliged_sched; [done|done|done|by cbn; auto|by cbn; auto]).
  - eapply obliged_sched; [done|done|apply Hs| |].
    + intros txn. by rewrite (ss_exec _ _ Hs).
    + intros txn inc r. by rewrite (ss_val _ _ Hs).
  - eapply obliged_sched; [done|done|done| |by cbn; auto]. cbn. intros txn [?|?]; [|done].
    destruct (decide (txn = execution_idx (k_sched k))) as [->|?]; [by right|left; lia].
  - eapply obliged_sched; [done|done|done|by cbn; auto|]. cbn. intros txn inc r [?|[]].
    destruct (decide (txn = validation_idx (k_sched k))) as [->|?]; [by right|left; lia].
  - eapply obliged_status; [done|done|done|done|done| |done]. cbn. intros j Hj. congruence.
  - by eapply obliged_status.
  - by eapply obliged_memory with (txn := txn); [done|done|done|done|done|done|done|done|left].
  - apply set_index_Some in Hrs as [? ->]. eapply obliged_memory with (txn := txn); [done|done|done|done|done| |done|done|by left].
    intros j Hj. unfold reads_at. cbn. by rewrite at_index_insert_ne by lia.
  - destruct (o_owner _ _ _ _ _ _ Ho i _ txn inc true Hi eq_refl) as [(e0 & E0 & Hinc & Hst) _].
    rewrite E in E0. injection E0 as <-.
    eapply obliged_status; [done|done|done|done| |done|]; cbn.
    + intros r _. right; right. by left.
    + intros j i' r Hj [? ?]. right. split; [done|lia].
  - apply Resume_incarnation in Hr as [_ ->].
    assert (obliged (with_status k t' (MkEntry (e_incarnation e) StatusExecuting None)) (<[i:=PFin txn inc wrote rest]> gs)) as [H1 H2].
    { by eapply obliged_status. }
    split; [exact H1|exact H2].
  - eapply obliged_sched; [done|done|done|by cbn; auto|]. cbn. intros txn inc r [?|?]; left; lia.
  - eapply obliged_sched; [done|done|done| |by cbn; intros ??? [?|[]]; left]. cbn. intros txn [?|H]; [by left|]. by destruct next; right.
  - eapply obliged_status; [done|done|done|done|done|done|]. cbn. intros j i' r Hj [? _]. congruence.
  - eapply obliged_status; [done|done|done|by right|done|done|]. cbn. lia.
Qed.
End obliged.
