(* ===== verification/KernelAwaiting.v ===== *)
(** * Who waits for whom

    [awaiting] is preserved by every move: a transaction is in exactly one list
    of dependents, or about to be resumed by one executor, from the moment it
    is appended until its condition is notified. *)

From Stdlib Require Import ZArith Lia.
From S2P Require Import Prelude Utils BTree BTreeIterator Types MemDB MVData MVDataFacts MVView Prog Status Scheduler Cells Kernel KernelMoves KernelRuns KernelInv KernelOwned.
Local Open Scope Z_scope.

(** One element of a list of lists changes. *)
Lemma join_insert {X Y} (f : X → list Y) (l : list X) i x : l !! i = Some x →
  ∃ rest, mjoin (f <$> l) ≡ₚ f x ++ rest ∧ ∀ y, mjoin (f <$> <[i:=y]> l) ≡ₚ f y ++ rest.
Proof.
  intros Hi. exists (mjoin (f <$> take i l) ++ mjoin (f <$> drop (S i) l)).
  assert (∀ a b c : list Y, a ++ b ++ c ≡ₚ b ++ a ++ c) as Hswap by (intros; by rewrite !app_assoc, (Permutation_app_comm a b)).
  split.
  - rewrite <- (take_drop_middle l i x Hi) at 1. rewrite fmap_app, join_app. cbn. apply Hswap.
  - intros y. rewrite insert_take_drop by (by eapply lookup_lt_Some). rewrite fmap_app, join_app. cbn. apply Hswap.
Qed.

Section awaiting.
Context {BT : BTreeLib} {BL : BTreeLaws} {V A : Type} `{!GoZero V} (isZero : V → bool).
Context {Store : Type} `{!KVStore Store V} (storage : Store).
Context (txExecutor : Z → callback V A) (n : Z).
Abbreviation kernel := (kernel V A Store).
Abbreviation attempt := (attempt V A Store).
Abbreviation look := (look isZero storage txExecutor).
Abbreviation point := (point (V := V) (A := A) (Store := Store)).
Abbreviation owned := (owned isZero storage txExecutor n).
Implicit Types (k : kernel) (g : point) (gs : list point) (txn inc : Z) (a : attempt).

Lemma listed_point k gs i g g' : gs !! i = Some g → resume_of g' = resume_of g → listed k (<[i:=g']> gs) = listed k gs.
Proof.
  intros Hi E. unfold listed. f_equal. rewrite list_fmap_insert, E. f_equal. apply list_insert_id.
  by rewrite list_lookup_fmap, Hi.
Qed.

Lemma listed_sched k s gs i g g' :
  gs !! i = Some g → resume_of g' = resume_of g → dependents <$> txn_dependency s = dependents <$> txn_dependency (k_sched k) →
  listed (put_sched s k) (<[i:=g']> gs) = listed k gs.
Proof. intros Hi E Es. rewrite <- (listed_point k gs i g g' Hi E). unfold listed. cbn. by rewrite Es. Qed.

(** A step that lists nobody new, notifies nobody and creates no condition. *)
Lemma awaiting_step k k' gs i g g' :
  awaiting k gs → gs !! i = Some g → listed k' (<[i:=g']> gs) ≡ₚ listed k gs → conds (k_sched k') = conds (k_sched k) →
  (∀ txn e, status_at k txn = Some e → ∃ e', status_at k' txn = Some e' ∧ e_cond e' = e_cond e) →
  g' = g ∨ cond_of g' = None ∧ (∀ txn inc log c, g = PWaiting txn inc log c → txn ∉ listed k gs) →
  awaiting k' (<[i:=g']> gs).
Proof.
  intros [H1 H2 H3 H4 H5 H6] Hi Hp Ec Hs Hg.
  assert (∀ j h, <[i:=g']> gs !! j = Some h → is_Some (cond_of h) → gs !! j = Some h) as Hback.
  { intros j h [(-> & <- & _)|[Hne L]]%list_lookup_insert_Some Hc; [|done].
    destruct Hg as [->|[Hg _]]; [done|]. rewrite Hg in Hc. by destruct Hc. }
  split.
  - by rewrite Hp.
  - intros txn. rewrite Hp, Ec. intros Hin. destruct (H2 txn Hin) as (j & inc & log & c & e & L & Hc & E & Hec).
    destruct (Hs txn e E) as (e' & E' & Hec'). exists j, inc, log, c, e'. rewrite Hec'. split_and!; [|done..].
    destruct (decide (j = i)) as [->|Hne]; [|by rewrite list_lookup_insert_ne].
    rewrite list_lookup_insert_eq by (by eapply lookup_lt_Some). rewrite L in Hi. injection Hi as <-.
    destruct Hg as [->|[_ Hg]]; [done|]. by destruct (Hg txn inc log c).
  - intros j txn inc log c L%Hback; [|done]. rewrite Ec. destruct (H3 j txn inc log c L) as [? (e & E & Hec)]. split; [done|].
    destruct (Hs txn e E) as (e' & E' & Hec'). exists e'. by rewrite Hec'.
  - intros j txn inc log c L%Hback; [|done]. rewrite Ec. by eapply H4.
  - intros j h c L Hc. rewrite Ec. eapply H5; [apply Hback|]; done.
  - intros j1 j2 h1 h2 c L1 L2 C1 C2. eapply (H6 j1 j2); [apply Hback..| |]; done.
Qed.

Lemma look_resume k g g' : look k g g' → resume_of g' = resume_of g.
Proof. intros H. destruct H; try done. set_unfold. naive_solver. Qed.

Lemma look_cond k g g' : look k g g' → cond_of g' = None.
Proof. intros H. by destruct H. Qed.

Lemma awaiting_look k gs i g g' : awaiting k gs → owned k gs → gs !! i = Some g → look k g g' → awaiting k (<[i:=g']> gs).
Proof.
  intros Hw Ho Hi Hl. apply awaiting_step with (k := k) (g := g); [done|done| |done|by eauto|right].
  - by rewrite (listed_point _ _ _ g) by (done || by eapply look_resume).
  - split; [by eapply look_cond|]. intros txn inc log c -> Hin.
    destruct (w_listed _ _ Hw txn Hin) as (j & inc' & log' & c' & e & L & Hc & _).
    assert (j = i) as -> by (by eapply (o_unique _ _ _ _ _ _ Ho j i)).
    rewrite Hi in L. injection L as <- <- <-. inversion Hl; subst; [set_unfold; naive_solver|congruence].
Qed.

(** An executor that owns a transaction and does not wait for it yet: nobody
    lists it. *)
Lemma owner_not_listed k gs i g txn inc b :
  awaiting k gs → owned k gs → gs !! i = Some g → owner g = Some (txn, inc, b) →
  (∀ log c, g ≠ PWaiting txn inc log c) → txn ∉ listed k gs.
Proof.
  intros Hw Ho Hi O Hne Hin. destruct (w_listed _ _ Hw txn Hin) as (j & inc' & log' & c' & e & L & _).
  assert (j = i) as -> by (by eapply (o_unique _ _ _ _ _ _ Ho j i)).
  rewrite Hi in L. injection L as ->. cbn in O. injection O as <- _. by eapply Hne.
Qed.

(** The steps that do list, notify or create. *)
Lemma awaiting_cond k gs i txn inc log :
  awaiting k gs → gs !! i = Some (PRun txn inc log) →
  awaiting (upd (set_conds (conds (k_sched k) ++ [false])) k) (<[i:=PCond txn inc log (length (conds (k_sched k)))]> gs).
Proof.
  intros [H1 H2 H3 H4 H5 H6] Hi.
  assert (∀ j h c, gs !! j = Some h → cond_of h = Some c → (conds (k_sched k) ++ [false]) !! c = conds (k_sched k) !! c) as Hold.
  { intros j h c L C. apply lookup_app_l. by eapply H5. }
  split; try (unfold upd; rewrite (listed_sched k _ gs i _ _ Hi) by done); cbn [k_sched upd put_sched conds set_conds].
  - done.
  - intros t Hin. destruct (H2 t Hin) as (j & inc' & log' & c & e & L & Hc & E & Hec).
    exists j, inc', log', c, e. split_and!; [|by rewrite (Hold j _ c L)|done|done].
    rewrite list_lookup_insert_ne; [done|]. intros ->. by rewrite Hi in L.
  - intros j t inc' log' c [(_ & ? & _)|[_ L]]%list_lookup_insert_Some; [done|]. rewrite (Hold j _ c L) by done. by eapply H3.
  - intros j t inc' log' c [(_ & [= <- <- <- <-] & _)|[_ L]]%list_lookup_insert_Some.
    + by apply list_lookup_middle.
    + rewrite (Hold j _ c L) by done. by eapply H4.
  - intros j h c. rewrite length_app. cbn. intros [(_ & <- & _)|[_ L]]%list_lookup_insert_Some C.
    + injection C as <-. lia.
    + specialize (H5 j h c L C). lia.
  - intros j1 j2 h1 h2 c [(-> & <- & _)|[? L1]]%list_lookup_insert_Some [(-> & <- & _)|[? L2]]%list_lookup_insert_Some C1 C2.
    + done.
    + injection C1 as <-. specialize (H5 _ _ _ L2 C2). lia.
    + injection C2 as <-. specialize (H5 _ _ _ L1 C1). lia.
    + by eapply H6.
Qed.

Lemma awaiting_suspend k gs i txn inc log c e :
  awaiting k gs → owned k gs → gs !! i = Some (PCond txn inc log c) → status_at k txn = Some e →
  awaiting (with_status k txn (Suspend e c)) (<[i:=PSusp txn inc log c]> gs).
Proof.
  intros Hw Ho Hi E. pose proof (owner_not_listed _ _ i _ txn inc true Hw Ho Hi eq_refl ltac:(done)) as Hn.
  destruct Hw as [H1 H2 H3 H4 H5 H6].
  assert (∀ j h, j ≠ i → gs !! j = Some h → ∀ t inc' b, owner h = Some (t, inc', b) → t ≠ txn) as Halone.
  { intros j h Hj L t inc' b O ->. apply Hj. by eapply (o_unique _ _ _ _ _ _ Ho j i). }
  split; try (unfold with_status at 1; rewrite (listed_sched k _ gs i _ _ Hi) by done); cbn [k_sched with_status put_sched conds set_txn_status].
  - done.
  - intros t Hin. destruct (H2 t Hin) as (j & inc' & log' & c' & e' & L & Hc & E' & Hec).
    exists j, inc', log', c', e'. rewrite (status_at_with _ _ _ _ _ E), decide_False by congruence.
    split_and!; [|done..]. rewrite list_lookup_insert_ne; [done|]. intros ->. by rewrite Hi in L.
  - intros j t inc' log' c' [(_ & [= <- <- <- <-] & _)|[? L]]%list_lookup_insert_Some.
    + split; [by eapply H4|]. rewrite (status_at_with _ _ _ _ _ E), decide_True by done. by eexists.
    + rewrite (status_at_with _ _ _ _ _ E), decide_False by (by eapply (Halone j)). by eapply H3.
  - intros j t inc' log' c' [(_ & ? & _)|[? L]]%list_lookup_insert_Some; [done|by eapply H4].
  - intros j h c' [(_ & <- & _)|[_ L]]%list_lookup_insert_Some C; [|by eapply H5]. by eapply (H5 i).
  - intros j1 j2 h1 h2 c' [(-> & <- & _)|[? L1]]%list_lookup_insert_Some [(-> & <- & _)|[? L2]]%list_lookup_insert_Some C1 C2;
      [done|by eapply (H6 j1 j2)|by eapply (H6 j1 j2)|by eapply H6].
Qed.

Lemma awaiting_append k gs i txn inc log c b d :
  awaiting k gs → owned k gs → gs !! i = Some (PSusp txn inc log c) → at_index (txn_dependency (k_sched k)) b = Some d →
  awaiting (with_deps k b (MkTxDependency (dep_locked d) (dependents d ++ [txn]))) (<[i:=PWaiting txn inc log c]> gs).
Proof.
  intros Hw Ho Hi Hd. pose proof (owner_not_listed _ _ i _ txn inc true Hw Ho Hi eq_refl ltac:(done)) as Hn.
  destruct Hw as [H1 H2 H3 H4 H5 H6].
  assert (listed (with_deps k b (MkTxDependency (dep_locked d) (dependents d ++ [txn]))) (<[i:=PWaiting txn inc log c]> gs) ≡ₚ txn :: listed k gs) as Hp.
  { unfold listed. cbn. pose proof (at_index_nonneg _ _ _ Hd). apply at_index_lookup in Hd; [|done].
    destruct (join_insert dependents _ _ _ Hd) as (rest & E1 & E2). rewrite E1, E2. cbn.
    destruct (join_insert resume_of _ _ _ Hi) as (rest' & E3 & E4). rewrite E3, E4. cbn.
    by rewrite (Permutation_app_comm (dependents d) [txn]). }
  split; cbn [k_sched with_deps put_sched conds set_txn_dependency].
  - rewrite Hp. by constructor.
  - intros t. rewrite Hp. intros [->|Hin]%elem_of_cons.
    + destruct (H3 i txn inc log c Hi) as [Hc (e & E & Hec)]. exists i, inc, log, c, e.
      rewrite list_lookup_insert_eq by (by eapply lookup_lt_Some). done.
    + destruct (H2 t Hin) as (j & inc' & log' & c' & e' & L & Hc & E' & Hec). exists j, inc', log', c', e'.
      rewrite list_lookup_insert_ne; [done|]. intros ->. by rewrite Hi in L.
  - intros j t inc' log' c' [(_ & ? & _)|[? L]]%list_lookup_insert_Some; [done|by eapply H3].
  - intros j t inc' log' c' [(_ & ? & _)|[? L]]%list_lookup_insert_Some; [done|by eapply H4].
  - intros j h c' [(_ & <- & _)|[_ L]]%list_lookup_insert_Some C; [|by eapply H5]. by eapply (H5 i).
  - intros j1 j2 h1 h2 c' [(-> & <- & _)|[? L1]]%list_lookup_insert_Some [(-> & <- & _)|[? L2]]%list_lookup_insert_Some C1 C2;
      [done|by eapply (H6 j1 j2)|by eapply (H6 j1 j2)|by eapply H6].
Qed.

Lemma awaiting_resume k gs i txn inc wrote t rest e e' c :
  awaiting k gs → owned k gs → gs !! i = Some (PFin txn inc wrote (t :: rest)) → status_at k t = Some e → Resume e = Returns (e', c) →
  awaiting (upd (λ s, set_conds (Notify (conds s) c) s) (with_status k t e')) (<[i:=PFin txn inc wrote rest]> gs).
Proof.
  intros Hw Ho Hi E [Hec ->]%Resume_incarnation.
  set (k' := upd _ _).
  assert (listed k gs ≡ₚ t :: listed k' (<[i:=PFin txn inc wrote rest]> gs)) as Hp.
  { unfold listed. cbn. destruct (join_insert resume_of _ _ _ Hi) as (rest' & E3 & E4). rewrite E3, E4. cbn.
    symmetry. apply Permutation_middle. }
  destruct Hw as [H1 H2 H3 H4 H5 H6].
  destruct (H2 t) as (i0 & inc0 & log0 & c0 & e0 & L0 & Hc0 & E0 & Hec0); [rewrite Hp; by left|].
  assert (c0 = c) as -> by congruence.
  assert (∀ j h c', gs !! j = Some h → cond_of h = Some c' → j ≠ i0 → Notify (conds (k_sched k)) c !! c' = conds (k_sched k) !! c') as Hother.
  { intros j h c' L C Hne. apply list_lookup_insert_ne. intros <-. apply Hne. by eapply (H6 j i0). }
  assert (∀ j, status_at k' j = if decide (j = t) then Some (MkEntry (e_incarnation e) StatusExecuting None) else status_at k j) as Est.
  { intros j. by rewrite <- (status_at_with _ _ _ _ j E). }
  assert (∀ j h inc' b t', gs !! j = Some h → owner h = Some (t', inc', b) → h ≠ PWaiting t inc0 log0 c → t' ≠ t ∧ j ≠ i0) as Halone.
  { intros j h inc' b t' L O Hh. assert (j ≠ i0) as Hj by congruence. split; [|done]. intros ->. apply Hj.
    by eapply (o_unique _ _ _ _ _ _ Ho j i0). }
  assert (∀ j h, <[i:=PFin txn inc wrote rest]> gs !! j = Some h → is_Some (cond_of h) → gs !! j = Some h) as Hback.
  { by intros j h [(_ & <- & _)|[_ L]]%list_lookup_insert_Some [? ?]. }
  rewrite Hp in H1. apply NoDup_cons in H1 as [Hn H1].
  split.
  - done.
  - intros t' Hin. destruct (H2 t') as (j & inc' & log' & c' & e' & L & Hc & E' & Hec'); [rewrite Hp; by right|].
    exists j, inc', log', c', e'. assert (t' ≠ t) as Ht by congruence.
    destruct (Halone j _ inc' true t' L eq_refl) as [_ Hj]; [congruence|].
    rewrite Est, decide_False by done. split_and!; [|by cbn; rewrite (Hother j _ c' L)|done|done].
    rewrite list_lookup_insert_ne; [done|]. intros ->. by rewrite Hi in L.
  - intros j t' inc' log' c' L%Hback; [|done]. destruct (Halone j _ inc' true t' L eq_refl) as [Ht Hj]; [done|].
    rewrite Est, decide_False by done. cbn. rewrite (Hother j _ c' L) by done. by eapply H3.
  - intros j t' inc' log' c' L%Hback; [|done]. destruct (Halone j _ inc' true t' L eq_refl) as [Ht Hj]; [done|].
    cbn. rewrite (Hother j _ c' L) by done. by eapply H4.
  - intros j h c' L C. cbn. unfold Notify. rewrite length_insert. eapply H5; [apply Hback|]; done.
  - intros j1 j2 h1 h2 c' L1 L2 C1 C2. eapply (H6 j1 j2); [apply Hback..| |]; done.
Qed.

(** A step that leaves the lists and the conditions of the scheduler alone. *)
Lemma awaiting_quiet k s gs i g g' :
  awaiting k gs → gs !! i = Some g → resume_of g' = resume_of g →
  dependents <$> txn_dependency s = dependents <$> txn_dependency (k_sched k) → conds s = conds (k_sched k) →
  txn_status s = txn_status (k_sched k) →
  g' = g ∨ cond_of g' = None ∧ (∀ txn inc log c, g ≠ PWaiting txn inc log c) →
  awaiting (put_sched s k) (<[i:=g']> gs).
Proof.
  intros Hw Hi Hr Hd Hc Hs Hg. apply awaiting_step with (k := k) (g := g); [done|done| |done| |].
  - by rewrite (listed_sched k s gs i g g').
  - unfold status_at. cbn. rewrite Hs. eauto.
  - destruct Hg as [?|[? Hg]]; [by left|right]. split; [done|]. intros txn inc log c E. by apply Hg in E.
Qed.

(** A step on the memory. *)
Lemma awaiting_memory k k' gs i g g' :
  awaiting k gs → gs !! i = Some g → k_sched k' = k_sched k → resume_of g' = resume_of g → cond_of g' = None →
  (∀ txn inc log c, g ≠ PWaiting txn inc log c) → awaiting k' (<[i:=g']> gs).
Proof.
  intros Hw Hi Es Hr Hc Hg. apply awaiting_step with (k := k) (g := g); [done|done| |by rewrite Es| |].
  - unfold listed. rewrite Es. apply (reflexive_eq (R := Permutation)), (listed_point k gs i g g' Hi Hr).
  - unfold status_at. rewrite Es. eauto.
  - right. split; [done|]. intros txn inc log c E. by apply Hg in E.
Qed.

(** A change of status that keeps the condition. *)
Lemma awaiting_status' k gs i g g' txn e e' :
  awaiting k gs → gs !! i = Some g → status_at k txn = Some e → e_cond e' = e_cond e → resume_of g' = resume_of g →
  cond_of g' = None → (∀ txn inc log c, g ≠ PWaiting txn inc log c) → awaiting (with_status k txn e') (<[i:=g']> gs).
Proof.
  intros Hw Hi E Ec Hr Hc Hg. apply awaiting_step with (k := k) (g := g); [done|done| |done| |].
  - apply (reflexive_eq (R := Permutation)). by apply (listed_sched k _ gs i g g').
  - intros j e0 E0. rewrite (status_at_with _ _ _ _ _ E). case_decide as Hj; [|by eauto]. subst j. exists e'.
    rewrite E in E0. by injection E0 as <-.
  - right. split; [done|]. intros t inc log c Eg. by apply Hg in Eg.
Qed.

Lemma awaiting_swap k gs i txn inc wrote d b :
  awaiting k gs → gs !! i = Some (PFin txn inc wrote []) → at_index (txn_dependency (k_sched k)) txn = Some d →
  awaiting (with_deps k txn (MkTxDependency b [])) (<[i:=PFin txn inc wrote (dependents d)]> gs).
Proof.
  intros Hw Hi Hd. eapply awaiting_step; [done|done| |done|by eauto|by right].
  unfold listed. cbn. pose proof (at_index_nonneg _ _ _ Hd). apply at_index_lookup in Hd; [|done].
  destruct (join_insert dependents _ _ _ Hd) as (rest & E1 & E2). rewrite E1, E2. cbn.
  destruct (join_insert resume_of _ _ _ Hi) as (rest' & E3 & E4). rewrite E3, E4. cbn.
  by rewrite !app_assoc, (Permutation_app_comm rest).
Qed.

Lemma awaiting_effect k gs i g k' g' :
  awaiting k gs → owned k gs → gs !! i = Some g → effect k g k' g' → awaiting k' (<[i:=g']> gs).
Proof.
  intros Hw Ho Hi He.
  destruct He as [g s Hs| | | | | | | | | | | | | | | |target next|next| | | |];
    first
      [by eapply awaiting_resume|by eapply awaiting_append|by eapply awaiting_suspend|by apply awaiting_cond|by eapply awaiting_swap
      |by eapply awaiting_memory|by eapply awaiting_status'|by eapply awaiting_quiet; [done|done|done|done|done|done|right]|idtac].
  - eapply awaiting_quiet; [done|done|done|apply Hs..|by left].
  - by destruct next; (eapply awaiting_quiet; [done|done|done|done|done|done|right]).
Qed.
End awaiting.
