(* ===== verification/KernelChecked.v ===== *)
(** * What a completion check establishes

    [checked_ok] is preserved by every move: the checks of [CheckDone], made one
    by one while the other executors go on, add up to a moment at which all
    work was done; and then no new work can appear. *)

From Stdlib Require Import ZArith Lia.
From S2P Require Import Prelude Utils BTree BTreeIterator Types MemDB MVData MVDataFacts MVView Prog Status Scheduler Cells Kernel KernelMoves KernelRuns KernelInv.
Local Open Scope Z_scope.

Section checked.
Context {BT : BTreeLib} {BL : BTreeLaws} {V A : Type} `{!GoZero V} (isZero : V → bool).
Context {Store : Type} `{!KVStore Store V} (storage : Store).
Context (txExecutor : Z → callback V A) (n : Z).
Abbreviation kernel := (kernel V A Store).
Abbreviation attempt := (attempt V A Store).
Abbreviation look := (look isZero storage txExecutor).
Abbreviation point := (point (V := V) (A := A) (Store := Store)).
Abbreviation quiet := (quiet n).
Abbreviation check_ok := (check_ok n).
Abbreviation checked_ok := (checked_ok n).
Implicit Types (k : kernel) (g : point) (gs : list point) (txn inc : Z) (a : attempt).

Lemma counted_lt t k gs txn e : counted n t k gs → status_at k txn = Some e → txn < n.
Proof. intros Hc E. apply at_index_Some in E. rewrite (c_status _ _ _ _ Hc) in E. lia. Qed.

Lemma quiet_move k k' gs i g g' :
  quiet k gs → gs !! i = Some g → execution_idx (k_sched k) <= execution_idx (k_sched k') →
  validation_idx (k_sched k) <= validation_idx (k_sched k') → quiet_point n g' → quiet k' (<[i:=g']> gs).
Proof. intros (H1 & H2 & H3) Hi ?? Hg. split_and!; [lia|lia|]. by apply lookup_points. Qed.

Lemma quiet_look t k gs i g g' : counted n t k gs → quiet k gs → gs !! i = Some g → look k g g' → quiet k (<[i:=g']> gs).
Proof.
  intros Hc Hq Hi Hl. apply quiet_move with (k := k) (g := g); [done|done|done|done|].
  destruct Hq as (_ & _ & Hq). specialize (Hq i g Hi). destruct Hl; try done.
  cbn in Hq. pose proof (counted_lt _ _ _ _ _ Hc H). lia.
Qed.

Lemma quiet_effect t k gs i g k' g' :
  counted n t k gs → quiet k gs → gs !! i = Some g → effect k g k' g' → quiet k' (<[i:=g']> gs).
Proof.
  intros Hc Hq Hi He. pose proof Hq as (Hx & Hv & Hp). specialize (Hp i g Hi).
  destruct He as [g s Hs| | | | |txn e E| | | | | | | | | | | | | | | |]; try done;
    try (eapply quiet_move; [exact Hq|exact Hi|done|done|done]).
  - eapply quiet_move; [exact Hq|exact Hi| | |done]; cbn; [rewrite (ss_exec _ _ Hs)|rewrite (ss_val _ _ Hs)]; lia.
  - eapply quiet_move; [exact Hq|exact Hi| | |]; cbn; lia.
  - eapply quiet_move; [exact Hq|exact Hi| | |]; cbn; lia.
  - cbn in Hp. pose proof (counted_lt _ _ _ _ _ Hc E). lia.
Qed.

(** The check of [validation_idx], or the reason why it may not hold. *)
Definition validated_or_decreased k gs c : Prop :=
  n <= validation_idx (k_sched k) ∨ c < decrease_cnt (k_sched k) ∨ ∃ i next, gs !! i = Some (PDecMid next).

Lemma checked_step k k' gs i g g' :
  checked_ok k gs → gs !! i = Some g →
  (quiet k gs → quiet k' (<[i:=g']> gs)) →
  execution_idx (k_sched k) <= execution_idx (k_sched k') → decrease_cnt (k_sched k) <= decrease_cnt (k_sched k') →
  (∀ c, c <= decrease_cnt (k_sched k) → validated_or_decreased k gs c → validated_or_decreased k' (<[i:=g']> gs) c) →
  (done_marker (k_sched k') = true → done_marker (k_sched k) = true ∨ quiet k' (<[i:=g']> gs)) →
  (check_ok k gs g → check_ok k' (<[i:=g']> gs) g') →
  checked_ok k' (<[i:=g']> gs).
Proof.
  intros [H1 H2] Hi Hq Hx Hd Hv Hdone Hg. split.
  - intros j h [(-> & <- & _)|[Hne L]]%list_lookup_insert_Some; [by apply Hg, (H1 j)|].
    specialize (H1 j h L). destruct h; try done; cbn in *; unfold validated_or_decreased in Hv.
    + lia.
    + lia.
    + destruct H1 as (? & ? & H). split_and!; [lia|lia|]. by apply Hv.
    + destruct H1 as (? & [?|?]); (split; [lia|]); [left; by apply Hq|right; lia].
    + by apply Hq.
  - intros [?|?]%Hdone; [by apply Hq, H2|done].
Qed.

(** Nothing is active when [num_active_tasks] is zero. *)
Lemma inactive t k gs i g : counted n t k gs → num_active_tasks (k_sched k) = 0 → gs !! i = Some g → active g = 0.
Proof.
  intros Hc H0 Hi. rewrite (c_active _ _ _ _ Hc) in H0. pose proof (sum_active_insert _ _ _ PIdle Hi) as Hs.
  pose proof (sum_active (<[i:=PIdle]> gs)). pose proof (active_bound g). cbn in Hs. lia.
Qed.

Lemma checked_look t k gs i g g' :
  checked_ok k gs → counted n t k gs → gs !! i = Some g → look k g g' → checked_ok k (<[i:=g']> gs).
Proof.
  intros Hq Hc Hi Hl. pose proof (c_block _ _ _ _ Hc) as Hn.
  assert (∀ h, quiet k gs → quiet_point n h → quiet k (<[i:=h]> gs)) as Hquiet.
  { intros h Hk Hh. by eapply quiet_move. }
  apply checked_step with (k := k) (g := g); [done|done|intros; by eapply quiet_look|done|done| |by left|].
  - intros c _ [?|[?|(j & next & L)]]; [by left|by right; left|]. right; right. exists j, next.
    rewrite list_lookup_insert_ne; [done|]. intros ->. rewrite Hi in L. injection L as ->. inversion Hl. set_unfold. naive_solver.
  - destruct Hl; cbn; try done; try lia.
    + intros (? & ? & [?|[?|(j & next & L)]]); (split; [done|]); [|by right|].
      * left. split_and!; [done|done|]. apply lookup_points; [|done]. intros j h L.
        pose proof (inactive _ _ _ _ _ Hc H L). by destruct h.
      * by pose proof (inactive _ _ _ _ _ Hc H L).
    + intros (? & [Hk|?]); [|lia]. by apply Hquiet.
Qed.

Lemma checked_effect t k gs i g k' g' :
  checked_ok k gs → counted n t k gs → gs !! i = Some g → effect k g k' g' → checked_ok k' (<[i:=g']> gs).
Proof.
  intros Hq Hc Hi He. apply checked_step with (k := k) (g := g); [done|done|intros; by eapply quiet_effect|..].
  - destruct He as [g s Hs| | | | | | | | | | | | | | | | | | | | |]; cbn; try lia. by rewrite (ss_exec _ _ Hs).
  - destruct He as [g s Hs| | | | | | | | | | | | | | | | | | | | |]; cbn; try lia. by rewrite (ss_cnt _ _ Hs).
  - intros c Hle [Hv|[Hd|(j & next & L)]].
    + unfold validated_or_decreased. destruct He as [g s Hs| | | | | | | | | | | | | | | |target next| | | | |]; cbn; try (left; lia).
      * left. by rewrite (ss_val _ _ Hs).
      * right; right. exists i, next. apply list_lookup_insert_eq. by eapply lookup_lt_Some.
    + right; left. destruct He as [g s Hs| | | | | | | | | | | | | | | | | | | | |]; cbn; try lia. by rewrite (ss_cnt _ _ Hs).
    + destruct (decide (j = i)) as [->|Hne].
      * rewrite Hi in L. injection L as ->. inversion He; subst.
        -- right; right. exists i, next. apply list_lookup_insert_eq. by eapply lookup_lt_Some.
        -- right; left. cbn. lia.
      * right; right. exists j, next. by rewrite list_lookup_insert_ne.
  - destruct He as [g s Hs| | | | | | | | | | | | | | | | | | | | |]; cbn; auto.
    + rewrite (ss_done _ _ Hs). auto.
    + intros _. right. destruct Hq as [H1 _]. specialize (H1 i _ Hi). by eapply quiet_move.
  - assert (∀ h s, quiet k gs → quiet_point n h → same_sched (k_sched k) s → quiet (put_sched s k) (<[i:=h]> gs)) as Hquiet.
    { intros h s Hk Hh Hs. eapply quiet_move; [done|done| | |done]; cbn; [by rewrite (ss_exec _ _ Hs)|by rewrite (ss_val _ _ Hs)]. }
    destruct He as [g s Hs| | | | | | | | | | | | | | | | |next| | | |]; cbn; try done; [|by destruct next].
    unfold KernelInv.check_ok. cbn. rewrite (ss_cnt _ _ Hs), (ss_exec _ _ Hs), (ss_val _ _ Hs).
    rewrite (list_insert_id _ _ _ Hi). destruct g; try done.
    + intros [? [?|?]]; (split; [done|]); [left|by right]. rewrite <- (list_insert_id _ _ _ Hi). by apply Hquiet.
    + intros ?. rewrite <- (list_insert_id _ _ _ Hi). by apply Hquiet.
Qed.
End checked.
