(* ===== verification/KernelReach.v ===== *)
(** * Reachable states

    The invariants hold from [NewMVMemoryWithEstimates] and [NewScheduler] on,
    after any number of steps of any number of executors that is too small for
    a counter to wrap around. *)

From Stdlib Require Import ZArith Lia.
From S2P Require Import Prelude Utils BTree BTreeIterator Types MemDB MVData MVDataFacts MVView Prog Status Scheduler Cells Kernel KernelMoves KernelFollows KernelRuns KernelInv KernelOwned KernelObliged KernelAwaiting KernelChecked.
Local Open Scope Z_scope.

Section initial.
Context {BT : BTreeLib} {BL : BTreeLaws} {V A Store : Type} `{!GoZero V}.
Abbreviation kernel := (kernel V A Store).
Implicit Types (k : kernel) (txn : Z).

(** ** The initial state *)

(** Only estimates, each at a remembered location, and nothing else has
    happened; transactions from [m] on have no locations. *)
Record initial (size : nat) (m : Z) k : Prop := {
  i_sched : k_sched k = NewScheduler size;
  i_wf : mv_wf (k_data k);
  i_cells : ∀ key txn e, cell (k_data k) key txn = Some e → 0 <= txn < Z.of_nat size ∧ s_Estimate e = true;
  i_marked : ∀ txn, marked k txn;
  i_none : ∀ txn, m <= txn → locations_at k txn = [];
  i_written : k_written k = ∅;
  i_length : length (k_lastWrittenLocations k) = size;
}.

Lemma NewKernel_initial size : initial size 0 (NewKernel (A := A) (Store := Store) size).
Proof.
  assert (∀ key txn, cell (NewGMVData V) key txn = None) as Hc.
  { intros key txn. apply cell_None. intros e He. rewrite entries_no_key in He; [by apply elem_of_nil in He|].
    unfold mv_keys, NewGMVData. cbn. rewrite Scan_new. apply not_elem_of_nil. }
  assert (∀ txn, locations_at (NewKernel (V := V) (A := A) (Store := Store) size) txn = []) as Hl.
  { intros txn. unfold locations_at. cbn. unfold at_index. destruct (0 <=? txn); [|done].
    destruct (_ !! _) as [o|] eqn:E; [|done]. by apply lookup_replicate in E as [-> _]. }
  split; try done.
  - apply NewGMVData_wf.
  - intros key txn e. cbn. by rewrite Hc.
  - intros txn. split; [rewrite Hl; constructor|]. intros key. unfold marked_cell. cbn. rewrite Hc, Hl. set_solver.
  - cbn. by rewrite length_replicate.
Qed.

Lemma estimate_all_run txn keys k : mv_wf (k_data k) →
  ∃ d, run (k_estimate_all txn keys) k = Returns (put_data d k, tt) ∧ mv_wf d ∧
    ∀ key t, cell d key t = if decide (t = txn ∧ key ∈ keys) then Some (estimate_entry txn) else cell (k_data k) key t.
Proof.
  revert k. induction keys as [|key keys IH]; intros k Hwf; cbn [k_estimate_all run].
  - exists (k_data k). destruct k. split_and!; [done|done|]. intros key t. rewrite decide_False; [done|]. set_solver.
  - destruct (WriteEstimate_cell (k_data k) key txn Hwf) as (d & E & Hwf' & Hc). cbn. rewrite E. cbn.
    destruct (IH (put_data d k) Hwf') as (d' & E' & Hwf'' & Hc'). exists d'. split_and!; [exact E'|done|].
    intros key' t. rewrite Hc'. cbn. rewrite Hc. repeat case_decide; set_solver.
Qed.

Lemma diff_list_nil (new : list Bytes) : diff_list [] new = (λ key, (key, true)) <$> new.
Proof. by destruct new. Qed.

Lemma init_round size m est k : initial size (Z.of_nat m) k → sorted_keys est →
  match run (k_rcu (Z.of_nat m) est ;; k_ConvertWritesToEstimates (Z.of_nat m))%prog k with
  | Returns (k', _) => initial size (Z.of_nat m + 1) k'
  | _ => (size ≤ m)%nat
  end.
Proof.
  intros [H1 H2 H3 H4 H5 H6 H7] Hest. specialize (H5 (Z.of_nat m) (Z.le_refl _)) as Hnone.
  unfold k_rcu, k_locations, k_ConvertWritesToEstimates. cbn.
  destruct (at_index (k_lastWrittenLocations k) (Z.of_nat m)) as [o|] eqn:Eo.
  2: { cbn. destruct (decide (m < size)%nat) as [Hlt|]; [|lia].
       destruct (at_index_in (k_lastWrittenLocations k) (Z.of_nat m)) as [x Hx]; [lia|congruence]. }
  cbn.
  assert (default [] o = []) as -> by (unfold locations_at in Hnone; by rewrite Eo in Hnone).
  rewrite diff_list_nil.
  assert (filter (λ x : Bytes * bool, x.2 = false) ((λ key, (key, true)) <$> est) = []) as ->.
  { clear. induction est as [|key est IH]; [done|]. by rewrite fmap_cons, filter_cons_False. }
  cbn. pose proof (at_index_Some _ _ _ Eo) as Hb. rewrite set_index_in by done. cbn.
  rewrite at_index_insert, decide_True by lia. cbn.
  destruct (estimate_all_run (Z.of_nat m) est (put_locations (<[Z.to_nat (Z.of_nat m):=Some est]> (k_lastWrittenLocations k)) k) H2)
    as (d & -> & Hwf & Hc).
  assert (∀ txn, locations_at (put_data d (put_locations (<[Z.to_nat (Z.of_nat m):=Some est]> (k_lastWrittenLocations k)) k)) txn =
      if decide (txn = Z.of_nat m) then est else locations_at k txn) as Hloc.
  { intros txn. unfold locations_at. cbn. case_decide as Hd; [subst; by rewrite at_index_insert, decide_True by lia|].
    by rewrite at_index_insert_ne by lia. }
  split; cbn; try done.
  - intros key txn e. rewrite Hc. case_decide as Hd; [intros [= <-]; split; [lia|done]|apply H3].
  - intros txn. destruct (H4 txn) as [Hs Hm]. split; [rewrite Hloc; by case_decide|]. intros key.
    specialize (Hm key). unfold marked_cell in *. cbn. rewrite Hc, Hloc. cbn.
    destruct (decide (txn = Z.of_nat m)) as [->|Hd].
    + rewrite Hnone in Hm. destruct (decide (key ∈ est)) as [Hin|Hin]; [by rewrite decide_True|].
      rewrite decide_False by (by intros [_ ?]). destruct (cell _ key _) as [e|]; [|done]. by destruct Hm as [Hm%elem_of_nil _].
    + by rewrite decide_False by (by intros [? _]).
  - intros txn Ht. rewrite Hloc, decide_False by lia. apply H5. lia.
  - by rewrite length_insert.
Qed.

Lemma init_initial size estimates m k k0 : initial size (Z.of_nat m) k → Forall sorted_keys estimates →
  run (k_init m estimates) k = Returns (k0, tt) → ∃ m', initial size m' k0.
Proof.
  revert m k. induction estimates as [|est estimates IH]; intros m k Hk Hest; cbn [k_init].
  - intros [= <-]. by exists (Z.of_nat m).
  - apply Forall_cons in Hest as [He Hest]. pose proof (init_round size m est k Hk He) as Hr.
    rewrite run_bind in Hr |- *. destruct (run (k_rcu _ _) k) as [[k1 b]| |]; [|done..]. cbn [mbind outcome_bind] in Hr |- *.
    rewrite run_bind. destruct (run _ k1) as [[k2 []]| |]; [|done..]. cbn [mbind outcome_bind].
    apply IH; [|done]. by replace (Z.of_nat (S m)) with (Z.of_nat m + 1) by lia.
Qed.

(** There is room for the estimates. *)
Lemma init_returns size estimates m k : initial size (Z.of_nat m) k → Forall sorted_keys estimates →
  (m + length estimates ≤ size)%nat → ∃ k0, run (k_init m estimates) k = Returns (k0, tt).
Proof.
  revert m k. induction estimates as [|est estimates IH]; intros m k Hk Hest Hlen; cbn [k_init]; [by exists k|].
  apply Forall_cons in Hest as [He Hest]. cbn [length] in Hlen. pose proof (init_round size m est k Hk He) as Hr.
  rewrite run_bind in Hr |- *. destruct (run (k_rcu _ _) k) as [[k1 b]| |]; [|cbn in Hr; lia..].
  cbn [mbind outcome_bind] in Hr |- *.
  rewrite run_bind. destruct (run _ k1) as [[k2 []]| |]; [|cbn in Hr; lia..]. cbn [mbind outcome_bind].
  apply IH; [by replace (Z.of_nat (S m)) with (Z.of_nat m + 1) by lia|done|lia].
Qed.

End initial.

Section reach.
Context {BT : BTreeLib} {BL : BTreeLaws} {V A : Type} `{!GoZero V} (isZero : V → bool).
Context {Store : Type} `{!KVStore Store V} (storage : Store).
Context (txExecutor : Z → callback V A).
Abbreviation kernel := (kernel V A Store).
Abbreviation point := (point (V := V) (A := A) (Store := Store)).
Implicit Types (k : kernel) (g : point) (gs : list point) (txn inc : Z).

(** ** The invariants together *)

Record invariant (n t : Z) k gs : Prop := {
  v_counted : counted n t k gs;
  v_owned : owned isZero storage txExecutor n k gs;
  v_obliged : obliged k gs;
  v_awaiting : awaiting k gs;
  v_checked : checked_ok n k gs;
}.

Lemma new_status size txn e : at_index (txn_status (NewScheduler size)) txn = Some e → 0 <= txn < Z.of_nat size ∧ e = new_entry.
Proof.
  intros E. pose proof (at_index_Some _ _ _ E) as Hb. cbn in *. rewrite length_replicate in Hb. split; [done|].
  apply at_index_lookup in E; [|lia]. by apply lookup_replicate in E as [-> _].
Qed.

Lemma join_replicate {X Y} (f : X → list Y) x m : f x = [] → mjoin (f <$> replicate m x) = [].
Proof. intros E. induction m as [|m IH]; [done|]. cbn. by rewrite E. Qed.

Lemma initial_invariant size m k executors : initial size m k → Z.of_nat size < 2 ^ 62 → Z.of_nat executors < 2 ^ 62 →
  invariant (Z.of_nat size) 0 k (replicate executors PIdle).
Proof.
  intros [H1 H2 H3 H4 _ H6 _] Hsize Hexec.
  assert (∀ i g, replicate executors (PIdle (V := V) (A := A) (Store := Store)) !! i = Some g → g = PIdle) as Hidle
    by (by intros i g [-> _]%lookup_replicate).
  assert (∀ txn e, status_at k txn = Some e → 0 <= txn < Z.of_nat size ∧ e = new_entry) as Hst.
  { intros txn e. unfold status_at. rewrite H1. apply new_status. }
  assert (listed k (replicate executors (PIdle (V := V) (A := A) (Store := Store))) = []) as Hlisted.
  { unfold listed. rewrite H1. cbn. by rewrite !join_replicate. }
  split; split; rewrite ?H1; cbn; try done; try lia.
  - by rewrite length_replicate.
  - by rewrite length_replicate.
  - clear. induction executors as [|m IH]; [done|exact IH].
  - intros txn e [_ ->]%Hst. cbn. lia.
  - by intros i g ->%Hidle.
  - intros key txn e [? He]%H3. split; [done|]. by rewrite He.
  - by intros i1 i2 g1 g2 o1 o2 ->%Hidle.
  - by intros i g txn inc b ->%Hidle.
  - intros txn e [_ ->]%Hst. left. split; [apply H4|]. intros inc key. rewrite H6, lookup_empty. by intros [? ?].
  - intros txn e [? _]%Hst _. left. lia.
  - by intros txn e r [_ ->]%Hst.
  - rewrite Hlisted. constructor.
  - intros txn. rewrite Hlisted. by intros Hin%elem_of_nil.
  - by intros i txn inc log c E%Hidle.
  - by intros i txn inc log c E%Hidle.
  - by intros i g c ->%Hidle.
  - by intros i1 i2 g1 g2 c ->%Hidle.
  - by intros i g ->%Hidle.
Qed.

Lemma invariant_look n t k gs i g g' : invariant n t k gs → gs !! i = Some g →
  rtc (look isZero storage txExecutor k) g g' → invariant n t k (<[i:=g']> gs).
Proof.
  intros Hinv Hi Hl. revert gs Hinv Hi. induction Hl as [g|g g1 g' Hl _ IH]; intros gs Hinv Hi; [by rewrite list_insert_id|].
  rewrite <- (list_insert_insert_eq gs i g' g1). apply IH; [|apply list_lookup_insert_eq; by eapply lookup_lt_Some].
  destruct Hinv as [H1 H2 H3 H4 H5]. split; [by eapply counted_look|by eapply owned_look|eapply obliged_look; eauto; apply H1|
    by eapply awaiting_look|by eapply checked_look].
Qed.

Lemma invariant_effect n t k gs i g k' g' : invariant n t k gs → t + 1 < 2 ^ 62 → gs !! i = Some g →
  effect k g k' g' → invariant n (t + 1) k' (<[i:=g']> gs).
Proof.
  intros [H1 H2 H3 H4 H5] Ht Hi He.
  split; [by eapply counted_effect|by eapply owned_effect|by eapply obliged_effect|by eapply awaiting_effect|by eapply checked_effect].
Qed.

Lemma invariant_move n t k gs i g k' g' : invariant n t k gs → t + 1 < 2 ^ 62 → gs !! i = Some g →
  move isZero storage txExecutor k g k' g' → invariant n (t + 1) k' (<[i:=g']> gs).
Proof.
  intros Hinv Ht Hi (g1 & Hl & He). rewrite <- (list_insert_insert_eq gs i g' g1).
  eapply invariant_effect; [by eapply invariant_look|done| |done]. apply list_lookup_insert_eq. by eapply lookup_lt_Some.
Qed.

(** ** Runs *)

Abbreviation program := (prog kernel (option (TxnVersion * TaskKind))).

Definition between (g : point) (o : option (TxnVersion * TaskKind)) : Prop :=
  match o with Some t => ends_at g t | None => True end.

Definition in_pool (n : Z) gs (ps : list program) : Prop :=
  Forall2 (follows isZero storage txExecutor n between) gs ps.

Lemma in_pool_step n t k gs ps k' ps' :
  invariant n t k gs → t + 1 < 2 ^ 62 → in_pool n gs ps →
  kernel_step isZero storage txExecutor (k, ps) (k', ps') →
  ∃ gs', invariant n (t + 1) k' gs' ∧ in_pool n gs' ps'.
Proof.
  intros Hinv Ht Hpool Hstep. inversion Hstep as [k0 k1 ps0 i X act c x Hi Hact|k0 ps0 i version kind fuel cancelled Hi]; subst.
  - destruct (Forall2_lookup_r _ _ _ _ _ Hpool Hi) as (g & Hg & Hf).
    destruct (Hf k k' x) as (g' & Hm & Hf'); [|done|].
    { eapply counted_fits; [|by apply v_counted]. lia. }
    exists (<[i:=g']> gs). split; [by eapply invariant_move|]. by apply Forall2_insert.
  - destruct (Forall2_lookup_r _ _ _ _ _ Hpool Hi) as (g & Hg & Hf). cbn in Hf. unfold ends_at in Hf. cbn in Hf.
    exists gs. split.
    + rewrite <- (list_insert_id gs i g Hg). rewrite <- (put_sched_id k') at 1.
      eapply invariant_effect; [done|done|done|]. by apply eff_same.
    + rewrite <- (list_insert_id gs i g Hg). apply Forall2_insert; [done|]. rewrite Hf.
      apply (Run_round_follows isZero storage txExecutor n fuel cancelled version kind).
Qed.

Lemma reach_invariant size executors k0 m t k ps :
  initial size m k0 → Z.of_nat size < 2 ^ 62 → Z.of_nat executors < 2 ^ 62 →
  nsteps (kernel_step isZero storage txExecutor) t (k0, entering executors) (k, ps) → Z.of_nat t < 2 ^ 62 →
  ∃ gs, invariant (Z.of_nat size) (Z.of_nat t) k gs ∧ in_pool (Z.of_nat size) gs ps.
Proof.
  intros Hk0 Hsize Hexec Hsteps. remember (k0, entering executors) as start eqn:Es. remember (k, ps) as final eqn:Ef.
  rewrite <- (Z.add_0_l (Z.of_nat t)).
  assert (∃ gs, invariant (Z.of_nat size) 0 start.1 gs ∧ in_pool (Z.of_nat size) gs start.2) as H0.
  { subst start. exists (replicate executors PIdle). split; [by eapply initial_invariant|].
    unfold in_pool, entering. cbn. apply Forall2_replicate. done. }
  clear Es Hk0 Hsize Hexec. revert H0. generalize 0 as b.
  induction Hsteps as [x|t x [k1 ps1] z Hstep _ IH]; intros b (gs & Hinv & Hpool) Ht.
  - subst. cbn in *. exists gs. by replace (b + Z.of_nat 0) with b by lia.
  - destruct x as [kx psx]. destruct (in_pool_step (Z.of_nat size) b kx gs psx k1 ps1) as (gs1 & H1 & H2); [done|lia|done|done|].
    destruct (IH Ef (b + 1)) as (gs2 & ? & ?); [by exists gs1|lia|]. exists gs2.
    by replace (b + Z.of_nat (S t)) with (b + 1 + Z.of_nat t) by lia.
Qed.
End reach.
