(* ===== verification/KernelSafety.v ===== *)
(** * The kernel is serializable

    When [done_marker] is set, after whatever interleaving, every transaction
    has been executed, its last attempt has read what the final memory shows
    it, and its writes are there: the block has run in order. *)

From Stdlib Require Import ZArith Lia.
From S2P Require Import Prelude Utils BTree BTreeIterator Types MemDB MVData MVDataFacts MVProps MVView Prog Status Scheduler Cells Kernel KernelMoves KernelFollows KernelRuns KernelInv KernelOwned KernelObliged KernelAwaiting KernelChecked KernelReach.
Local Open Scope Z_scope.

Section safety.
Context {BT : BTreeLib} {BL : BTreeLaws} {V A : Type} `{!GoZero V} (isZero : V → bool).
Context {Store : Type} `{!KVStore Store V} (storage : Store).
Context (txExecutor : Z → callback V A).
Abbreviation kernel := (kernel V A Store).
Abbreviation attempt := (attempt V A Store).
Abbreviation point := (point (V := V) (A := A) (Store := Store)).
Abbreviation genuine := (genuine isZero storage txExecutor).
Implicit Types (k : kernel) (g : point) (gs : list point) (txn inc : Z) (a : attempt) (d : GMVData V).

(** What a transaction that reads no estimate sees. *)
Definition seen d txn (key : Bytes) : V :=
  match closest (entries d key) txn with Some e => s_Value e | None => kv_Get storage key end.

(** The last attempt of [txn], in a memory to which nothing will happen any more. *)
Record settled_txn k txn a : Prop := {
  st_attempt : at_index (k_attempts k) txn = Some (Some a);
  st_genuine : genuine txn a;
  st_read : ∀ key version v, (key, version, v) ∈ at_log a → v = seen (k_data k) txn key;
  st_cells : ∀ key e, cell (k_data k) key txn = Some e → s_Estimate e = false ∧ writable isZero (s_Value e);
  st_written : ∀ key, seen (k_data k) (txn + 1) key = default (seen (k_data k) txn key) (write_of (writes a) key);
  st_stored : ∃ inc, stored k txn inc a;
}.

Lemma current_seen n k gs txn key version v :
  owned isZero storage txExecutor n k gs → current (k_data k) txn key version →
  (if version_Valid version then k_written k !! (Index version, Incarnation version, key) = Some v else v = kv_Get storage key) →
  v = seen (k_data k) txn key.
Proof.
  intros Ho Hcur Hv. pose proof (owned_cells_ok _ _ _ _ _ _ Ho) as Hc. pose proof (cells_indexed _ _ Hc) as Hi.
  destruct Hc as [Hwf Hc]. unfold seen. destruct Hcur as [[-> H]|(e & He & Hm & <- & Ht & H)].
  - by rewrite (proj2 (closest_None_cell _ _ _ Hwf Hi)).
  - rewrite (proj2 (closest_cell _ _ _ e Hwf)) by (cbn in *; split_and!; [done|lia|done]).
    unfold version_Valid in Hv. rewrite (proj2 (Z.leb_le _ _)) in Hv by lia. cbn in Hv, He.
    destruct (Hc key _ e He) as [_ Hw]. rewrite Hw in Hv by done. by injection Hv.
Qed.

Lemma closest_successor d key txn : mv_wf d →
  closest (entries d key) (txn + 1) = match cell d key txn with Some e => Some e | None => closest (entries d key) txn end.
Proof.
  intros Hwf. destruct (cell d key txn) as [e|] eqn:E.
  - apply closest_cell; [done|]. pose proof (proj1 (cell_Some _ _ _ _ Hwf) E) as [_ <-]. split_and!; [done|lia|lia].
  - apply option_eq. intros e. rewrite !closest_cell by done. split; intros (H1 & H2 & H3).
    + assert (s_Index e ≠ txn) by congruence. split_and!; [done|lia|]. intros t Ht. apply H3. lia.
    + split_and!; [done|lia|]. intros t Ht. destruct (decide (t = txn)) as [->|]; [done|]. apply H3. lia.
Qed.

Lemma stored_seen n k gs txn inc a key :
  owned isZero storage txExecutor n k gs → stored k txn inc a →
  seen (k_data k) (txn + 1) key = default (seen (k_data k) txn key) (write_of (writes a) key).
Proof.
  intros Ho [H _]. specialize (H key). unfold seen. rewrite closest_successor by apply Ho.
  destruct (write_of (writes a) key) as [v|]; by rewrite H.
Qed.

Lemma quiet_status n k gs txn e :
  owned isZero storage txExecutor n k gs → obliged k gs → quiet n k gs → status_at k txn = Some e → txn < n →
  e_status e = StatusExecuted.
Proof.
  intros Ho [Hr _] (Hx & _ & Hp) E Hlt. destruct (o_free _ _ _ _ _ _ Ho txn e E) as [Hf|(i & g & inc & b & L & O)].
  - unfold free_mem in Hf. destruct (e_status e) eqn:Es; try done.
    destruct (Hr txn e E Es) as [?|(i & g & L & Hg)]; [lia|]. specialize (Hp i g L). destruct g; try done; cbn in *.
    injection Hg as ->. lia.
  - specialize (Hp i g L). by destruct g.
Qed.

(** Once it is quiet, every transaction is settled. *)
Lemma quiet_settled n t k gs txn : invariant isZero storage txExecutor n t k gs → quiet n k gs → 0 <= txn < n →
  ∃ a, settled_txn k txn a.
Proof.
  intros [Hc Ho Hb _ _] Hq Ht.
  destruct (at_index_in (txn_status (k_sched k)) txn) as [e E]; [by rewrite (c_status _ _ _ _ Hc)|].
  pose proof (quiet_status n k gs txn e Ho Hb Hq E ltac:(lia)) as Hst.
  pose proof (owned_free _ _ _ _ _ _ txn e Ho E (or_intror Hst)) as Hf. unfold free_mem in Hf. rewrite Hst in Hf.
  destruct Hf as (a & H1 & H2 & [H3 H3'] & H4 & _). exists a. split; [done|done| | |intros key; by eapply stored_seen|by eexists].
  2:{ intros key e' Ec. destruct H4 as [H4 _]. specialize (H4 key). destruct (write_of (writes a) key) as [v|] eqn:Ew;
        rewrite H4 in Ec; [|done]. injection Ec as <-. split; [done|]. cbn. by eapply genuine_writable. }
  intros key version v Hin. eapply current_seen; [done| |by apply H3'].
  destruct Hb as [_ Hb]. destruct Hq as (_ & Hv & Hp).
  destruct (Hb txn e (MkRead key version) E Hst) as [?|[?|(i & g & L & Hg)]]; [|done|cbn in *; lia|].
  - unfold reads_at. rewrite H2, (genuine_reads _ _ _ _ _ H3). apply list_elem_of_fmap. by exists (key, version, v).
  - specialize (Hp i g L). destruct g; try done; cbn in *; lia.
Qed.

(** Settled transactions are the block, in order. *)
Lemma settled_in_order k txns m f :
  (∀ i, m <= i < m + Z.of_nat txns → ∃ a, settled_txn k i a) → (∀ key, f key = seen (k_data k) m key) →
  ∃ f' results, run_in_order isZero f (txExecutor <$> seqZ m (Z.of_nat txns)) = Returns (f', results) ∧
    (∀ key, f' key = seen (k_data k) (m + Z.of_nat txns) key) ∧
    ∀ i r, results !! i = Some r → ∃ a, settled_txn k (m + Z.of_nat i) a ∧ r = at_result a.
Proof.
  revert m f. induction txns as [|txns IH]; intros m f Hs Hf.
  - exists f, []. split_and!; [done| |done]. by rewrite Z.add_0_r.
  - rewrite seqZ_cons by lia. cbn [fmap list_fmap run_in_order]. destruct (Hs m) as [a Ha]; [lia|].
    destruct (genuine_plain isZero storage txExecutor m a f (st_genuine _ _ _ Ha)) as (g & -> & Hg).
    { intros key version v Hin. rewrite Hf. by eapply st_read. }
    destruct (IH (Z.succ m) g) as (f' & results & E & Hf' & Hr).
    { intros i Hi. apply Hs. lia. }
    { intros key. rewrite Hg, Hf. symmetry. apply (st_written _ _ _ Ha). }
    cbn [mbind outcome_bind]. replace (Z.pred (Z.of_nat (S txns))) with (Z.of_nat txns) by lia. rewrite E.
    exists f', (at_result a :: results). split_and!; [done| |].
    + intros key. rewrite Hf'. f_equal. lia.
    + intros [|i] r; cbn; [intros [= <-]; exists a; by rewrite Z.add_0_r|].
      intros Hi. destruct (Hr i r Hi) as (b & Hb & ->). exists b. split; [|done]. by replace (m + Z.of_nat (S i)) with (Z.succ m + Z.of_nat i) by lia.
Qed.

Lemma written_back (kv_ok : Store → Prop) `{!KVStoreLaws Store V isZero zero kv_ok} n k gs :
  owned isZero storage txExecutor n k gs → 0 <= n → (∀ i, 0 <= i < n → ∃ a, settled_txn k i a) → kv_ok storage →
  ∃ final, SnapshotToStore isZero (k_data k) storage = Returns final ∧ kv_ok final ∧ ∀ key, kv_Get final key = seen (k_data k) n key.
Proof.
  intros Ho Hn Hs Hok. destruct (SnapshotToStore_last isZero kv_ok (k_data k) storage (o_wf _ _ _ _ _ _ Ho) Hok) as (final & E & Hok' & Hf).
  exists final. split_and!; [done|done|]. intros key. rewrite Hf. unfold seen.
  assert (∀ e, e ∈ entries (k_data k) key → 0 <= s_Index e < n ∧ s_Estimate e = false ∧ writable isZero (s_Value e)) as He.
  { intros e Hin. assert (cell (k_data k) key (s_Index e) = Some e) as Hc by (by apply cell_Some; [apply Ho|]).
    destruct (o_cells _ _ _ _ _ _ Ho key _ e Hc) as [Hb _]. destruct (Hs _ Hb) as [a Ha]. split; [done|].
    by apply (st_cells _ _ _ Ha key). }
  assert (closest (entries (k_data k) key) n = last (entries (k_data k) key)) as ->.
  { unfold closest. f_equal. apply filter_all. intros e Hin. destruct (He e Hin). lia. }
  destruct (last (entries (k_data k) key)) as [e|] eqn:El; [|done].
  destruct (He e) as (_ & -> & Hw); [by apply last_Some_elem_of|].
  destruct (isZero (s_Value e)) eqn:Ez; [|done]. destruct Hw as [->|?]; [done|congruence].
Qed.

(** What a run that is done has settled. *)
Lemma kernel_settled (size executors : nat) (estimates : list (list Bytes)) k0 steps k ps :
  Z.of_nat size < 2 ^ 62 → Z.of_nat executors < 2 ^ 62 → Z.of_nat steps < 2 ^ 62 →
  Forall sorted_keys estimates → run (k_init 0 estimates) (NewKernel size) = Returns (k0, tt) →
  nsteps (kernel_step isZero storage txExecutor) steps (k0, entering executors) (k, ps) →
  done_marker (k_sched k) = true →
  ∃ gs, owned isZero storage txExecutor (Z.of_nat size) k gs ∧ ∀ i, 0 <= i < Z.of_nat size → ∃ a, settled_txn k i a.
Proof.
  intros Hsize Hexec Hlt Hest Hinit Hsteps Hdone.
  assert (∃ m, initial size m k0) as [m Hm] by (by eapply (init_initial size estimates 0); [apply NewKernel_initial|..]).
  destruct (reach_invariant isZero storage txExecutor size executors k0 m steps k ps) as (gs & Hinv & _); [done..|].
  pose proof (q_done _ _ _ (v_checked _ _ _ _ _ _ _ Hinv) Hdone) as Hq.
  exists gs. split; [apply Hinv|]. intros i Hi. by eapply quiet_settled.
Qed.

(** What a run that is done amounts to. *)
Lemma kernel_in_order (kv_ok : Store → Prop) `{!KVStoreLaws Store V isZero zero kv_ok}
    (size executors : nat) (estimates : list (list Bytes)) k0 steps k ps :
  kv_ok storage → Z.of_nat size < 2 ^ 62 → Z.of_nat executors < 2 ^ 62 → Z.of_nat steps < 2 ^ 62 →
  Forall sorted_keys estimates → run (k_init 0 estimates) (NewKernel size) = Returns (k0, tt) →
  nsteps (kernel_step isZero storage txExecutor) steps (k0, entering executors) (k, ps) →
  done_marker (k_sched k) = true →
  ∃ f results final,
    run_in_order isZero (kv_Get storage) (txExecutor <$> seqZ 0 (Z.of_nat size)) = Returns (f, results) ∧
    (∀ i r, results !! i = Some r → ∃ a, at_index (k_attempts k) (Z.of_nat i) = Some (Some a) ∧ at_result a = r) ∧
    SnapshotToStore isZero (k_data k) storage = Returns final ∧ kv_ok final ∧ ∀ key, kv_Get final key = f key.
Proof.
  intros Hok Hsize Hexec Hlt Hest Hinit Hsteps Hdone.
  destruct (kernel_settled size executors estimates k0 steps k ps) as (gs & Hown & Hs); [done..|].
  destruct (settled_in_order k size 0 (kv_Get storage)) as (f & results & E & Hf & Hr); [done| |].
  { intros key. unfold seen. rewrite (proj2 (closest_None _ 0)); [done|]. intros e Hin.
    apply (cells_indexed (Z.of_nat size) k) in Hin; [done|]. by eapply owned_cells_ok. }
  destruct (written_back kv_ok (Z.of_nat size) k gs) as (final & Ef & Hok' & Hfinal); [done|lia|done|done|].
  exists f, results, final. split_and!; [done| |done|done|].
  - intros i r Hi. destruct (Hr i r Hi) as (a & Ha & ->). exists a. split; [apply (st_attempt _ _ _ Ha)|done].
  - intros key. by rewrite Hfinal, Hf.
Qed.

(** C1: The kernel is serializable.  However the executors interleave their
    actions — reads and writes of single keys, waits for estimates, aborts,
    repeated attempts, validations, completion checks — once [done_marker] is
    set, the transactions have the results, and the memory written back has the
    contents, of running the block in order.  (No more steps than machine
    integers can count; the estimated locations come in order.) *)
Theorem kernel_serializable (kv_ok : Store → Prop) `{!KVStoreLaws Store V isZero zero kv_ok}
    (size executors : nat) (estimates : list (list Bytes)) k0 steps k ps :
  kv_ok storage → Z.of_nat size < 2 ^ 62 → Z.of_nat executors < 2 ^ 62 → Z.of_nat steps < 2 ^ 62 →
  Forall sorted_keys estimates → run (k_init 0 estimates) (NewKernel size) = Returns (k0, tt) →
  nsteps (kernel_step isZero storage txExecutor) steps (k0, entering executors) (k, ps) →
  done_marker (k_sched k) = true →
  ∃ f results final,
    run_in_order isZero (kv_Get storage) (txExecutor <$> seqZ 0 (Z.of_nat size)) = Returns (f, results) ∧
    (∀ i r, results !! i = Some r → ∃ a, at_index (k_attempts k) (Z.of_nat i) = Some (Some a) ∧ at_result a = r) ∧
    SnapshotToStore isZero (k_data k) storage = Returns final ∧ kv_ok final ∧ ∀ key, kv_Get final key = f key.
Proof. intros. by eapply (kernel_in_order kv_ok size executors estimates k0 steps). Qed.
End safety.

(** ** A run *)

Section driver.
Context {BT : BTreeLib} {V A : Type} `{!GoZero V} (isZero : V → bool).
Context {Store : Type} `{!KVStore Store V} (storage : Store).
Context (txExecutor : Z → callback V A).
Abbreviation state := (kernel V A Store * list (prog (kernel V A Store) (option (TxnVersion * TaskKind))))%type.

(** The next step of executor [i], if it can go on. *)
Definition drive_one (i : nat) (s : state) : option state :=
  match s.2 !! i with
  | Some (Act act c) => match act s.1 with Returns (k', x) => Some (k', <[i := c x]> s.2) | _ => None end
  | Some (Ret (Some (version, kind))) =>
      Some (s.1, <[i := k_Run_round isZero storage txExecutor 5 false version kind]> s.2)
  | _ => None
  end.

(** Turns for the executors in the given order; the steps taken. *)
Fixpoint drive (turns : list nat) (s : state) : nat * state :=
  match turns with
  | [] => (0%nat, s)
  | i :: turns =>
      match drive_one i s with
      | Some s' => let r := drive turns s' in (S r.1, r.2)
      | None => drive turns s
      end
  end.

Lemma drive_steps turns s : nsteps (kernel_step isZero storage txExecutor) (drive turns s).1 s (drive turns s).2.
Proof.
  revert s. induction turns as [|i turns IH]; intros s; cbn [drive]; [apply nsteps_O|].
  destruct (drive_one i s) as [s'|] eqn:E; [|apply IH]. cbn [fst snd]. apply nsteps_l with s'; [|apply IH].
  destruct s as [k ps]. unfold drive_one in E. cbn [fst snd] in E.
  destruct (ps !! i) as [[[[version kind]|]|X act c]|] eqn:Ei; [|done| |done].
  - injection E as <-. by apply kernel_round.
  - destruct (act k) as [[k' x]| |] eqn:Ea; [|done..]. injection E as <-. by eapply kernel_act.
Qed.
End driver.

Section witnesses.
#[local] Existing Instance ListTree.
#[local] Existing Instance ListTree_laws.
#[local] Existing Instance memdb_store.

(** Three transactions: two increments of [key1], with a copy to [key2] between
    them, which the last one deletes.  The copy is expected to write [key1] too,
    and the executors take turns: the second transaction reads too early and is
    repeated, the third waits for it. *)
Definition increments (txn : Z) : callback Z Z :=
  CGet key1 (λ v, if decide (txn = 1) then CSet key2 v (CReturn v)
                  else CSet key1 (v + 1) (if decide (txn = 2) then CDelete key2 (CReturn v) else CReturn v)).

Definition expected : list (list Bytes) := [[]; [key1; key2]].
Definition base : GMemDB Z := OverlaySet (NewGMemDB Z) key1 7.
Definition start : kernel Z Z (GMemDB Z) := result (NewKernel 3) (fst <$> run (k_init 0 expected) (NewKernel 3)).

Abbreviation base_store := (memdb_store zero_value).
Abbreviation turns := (mjoin (replicate 200 [0; 1; 2]%nat)).
Abbreviation outcome_of := (@drive _ _ _ _ zero_value _ base_store base increments turns (start, entering 3)).

Lemma kernel_serializable_witness :
  done_marker (k_sched outcome_of.2.1) = true ∧
  e_incarnation <$> txn_status (k_sched outcome_of.2.1) = [0; 1; 0] ∧
  ∃ results final,
    results = [7; 8; 8] ∧
    (∀ i r, results !! i = Some r → ∃ a, at_index (k_attempts outcome_of.2.1) (Z.of_nat i) = Some (Some a) ∧ at_result a = r) ∧
    @SnapshotToStore _ _ _ base_store zero_value (k_data outcome_of.2.1) base = Returns final ∧
    mem_Get final key1 = 9 ∧ mem_Get final key2 = 0.
Proof.
  split; [vm_compute; reflexivity|]. split; [vm_compute; reflexivity|].
  assert (match run_in_order zero_value (@kv_Get _ _ base_store base) (increments <$> seqZ 0 (Z.of_nat 3)) with
          | Returns (g, l) => l = [7; 8; 8] ∧ g key1 = 9 ∧ g key2 = 0 | _ => False end) as Hg
    by (vm_compute; repeat split).
  destruct (@kernel_serializable _ _ Z Z _ zero_value _ base_store base increments mem_wf (memdb_store_laws zero_value)
    3 3 expected start outcome_of.1 outcome_of.2.1 outcome_of.2.2) as (f & results & final & E & Hr & Ef & _ & Hf).
  - apply OverlaySet_wf, NewGMemDB_wf.
  - vm_compute. reflexivity.
  - vm_compute. reflexivity.
  - vm_compute. reflexivity.
  - repeat constructor; vm_compute; reflexivity.
  - vm_compute. reflexivity.
  - generalize (drive_steps zero_value (KVStore0 := base_store) base increments turns (start, entering 3)).
    destruct outcome_of as [steps [k ps]]. done.
  - vm_compute. reflexivity.
  - rewrite E in Hg. destruct Hg as (Hl & H1 & H2). exists results, final.
    split; [exact Hl|]. split; [exact Hr|]. split; [exact Ef|].
    split; [rewrite <- H1; apply (Hf key1)|rewrite <- H2; apply (Hf key2)].
Defined.
End witnesses.
