(* ===== verification/Admission.v ===== *)
(** * speculation.go: the admission window

    At most [limit] transactions beyond the stable validated frontier are
    admitted.  The window is a plain record, changed under the scheduler's
    mutex; the scheduler's methods are programs over the window and the base
    scheduler of scheduler.go. *)

From Stdlib Require Import ZArith Lia.
From S2P Require Import Prelude Utils Types Status Prog Scheduler.
Local Open Scope Z_scope.

Record admissionWindow := MkWindow {
  limit : Z;
  stable : Z;
  passed : list bool;
  epoch : list Z;
  generation : Z;
  peak : Z;
  stallEvents : Z;
  stallNS : Z;
}.

Definition newAdmissionWindow (blockSize : nat) (limit : Z) : admissionWindow :=
  MkWindow limit 0 (replicate blockSize false) (replicate blockSize 0) 0 0 0 0.

Definition allows (w : admissionWindow) (next : Z) : bool := next - stable w <? limit w.

Definition admit_txn (w : admissionWindow) (next : Z) : admissionWindow * bool :=
  if negb (allows w next) then (w, false)
  else
    (MkWindow (limit w) (stable w) (passed w) (epoch w) (generation w)
       (Z.max (peak w) (u64 (next + 1 - stable w))) (stallEvents w) (stallNS w), true).

(** How many steps the frontier loop of [pass] makes from [l[0]]. *)
Fixpoint frontier_steps (l : list bool) : Z :=
  match l with
  | true :: l' => 1 + frontier_steps l'
  | _ => 0
  end.

Definition pass (w : admissionWindow) (transaction token : Z) : outcome (admissionWindow * bool) :=
  e ← deref (at_index (epoch w) transaction);
  if negb (e =? token) then Returns (w, false)
  else
    passed' ← deref (set_index (passed w) transaction true);
    if stable w <? 0 then Panics
    else
      let stable' := stable w + frontier_steps (drop (Z.to_nat (stable w)) passed') in
      Returns (MkWindow (limit w) stable' passed' (epoch w) (generation w) (peak w)
                 (stallEvents w) (stallNS w), negb (stable' =? stable w)).

(** [for transaction := first; transaction < admitted; ...]; [n] iterations left. *)
Fixpoint invalidate_loop (n : nat) (transaction generation : Z) (epoch : list Z) (passed : list bool) :
    outcome (list Z * list bool) :=
  match n with
  | O => Returns (epoch, passed)
  | S n' =>
      epoch' ← deref (set_index epoch transaction generation);
      passed' ← deref (set_index passed transaction false);
      invalidate_loop n' (transaction + 1) generation epoch' passed'
  end.

Definition invalidateFrom (w : admissionWindow) (first admitted : Z) : outcome admissionWindow :=
  let generation' := u64 (generation w + 1) in
  '(epoch', passed') ←
    invalidate_loop (Z.to_nat (admitted - first)) first generation' (epoch w) (passed w);
  Returns (MkWindow (limit w) (stable w) passed' epoch' generation' (peak w)
             (stallEvents w) (stallNS w)).

Definition recordStall (elapsed : Z) (w : admissionWindow) : admissionWindow :=
  MkWindow (limit w) (stable w) (passed w) (epoch w) (generation w) (peak w)
    (u64 (stallEvents w + 1)) (u64 (stallNS w + elapsed)).

Record SpeculationStats := MkSpeculationStats {
  EffectiveLimit : Z;
  LimitApplied : bool;
  TelemetryAvailable : bool;
  PeakInflight : Z;
  AdmissionStallEvents : Z;
  AdmissionStallNS : Z;
}.

Definition window_stats (w : admissionWindow) : SpeculationStats :=
  MkSpeculationStats (u64 (limit w)) true true (peak w) (stallEvents w) (stallNS w).

(** ** The scheduler around the window *)

Record admissionScheduler := MkAdmission {
  as_window : admissionWindow;
  as_base : Scheduler;
  as_mu : bool;
  (** the number of wake channels closed so far; the last one is open *)
  as_wake : nat;
}.

Definition newAdmissionScheduler (blockSize : nat) (limit : Z) : admissionScheduler :=
  MkAdmission (newAdmissionWindow blockSize limit) (NewScheduler blockSize) false 0.

Definition put_base (b : Scheduler) (s : admissionScheduler) : admissionScheduler :=
  MkAdmission (as_window s) b (as_mu s) (as_wake s).
Definition put_window (w : admissionWindow) (s : admissionScheduler) : admissionScheduler :=
  MkAdmission w (as_base s) (as_mu s) (as_wake s).
Definition put_mu (b : bool) (s : admissionScheduler) : admissionScheduler :=
  MkAdmission (as_window s) (as_base s) b (as_wake s).

Definition on_base {A} (p : prog Scheduler A) : prog admissionScheduler A := lift as_base put_base p.

Definition mu_Lock : prog admissionScheduler unit :=
  atomic (λ s, if as_mu s then Waits else Returns (put_mu true s, tt)).
Definition mu_Unlock : prog admissionScheduler unit := modify (put_mu false).

(** [close(s.wake); s.wake = make(chan struct{})] *)
Definition notifyLocked : prog admissionScheduler unit :=
  modify (λ s, MkAdmission (as_window s) (as_base s) (as_mu s) (S (as_wake s))).

Definition on_window {X} (f : admissionWindow → outcome (admissionWindow * X)) :
    prog admissionScheduler X :=
  atomic (λ s, '(w, x) ← f (as_window s); Returns (put_window w s, x)).

Definition window_invalidateFrom (first admitted : Z) : prog admissionScheduler unit :=
  on_window (λ w, w' ← invalidateFrom w first admitted; Returns (w', tt)).

Local Open Scope prog_scope.

(** The third result is the wake channel to wait on, nil when there is none. *)
Definition nextTask : prog admissionScheduler (TxnVersion * TaskKind * option nat) :=
  validationIndex ⇐ load (λ s, validation_idx (as_base s));
  executionIndex ⇐ load (λ s, execution_idx (as_base s));
  if validationIndex <? executionIndex then
    mu_Lock ;;
    version ⇐ on_base NextVersionToValidate;
    mu_Unlock ;;
    Ret (version, TaskKindValidation, None)
  else
    mu_Lock ;;
    next ⇐ load (λ s, i64 (execution_idx (as_base s)));
    size ⇐ load (λ s, block_size (as_base s));
    if size <=? next then
      mu_Unlock ;;
      on_base CheckDone ;;
      Ret (InvalidTxnVersion, TaskKindExecution, None)
    else
      ok ⇐ on_window (λ w, Returns (admit_txn w next));
      if negb ok then
        wake ⇐ load as_wake;
        mu_Unlock ;;
        Ret (InvalidTxnVersion, TaskKindExecution, Some wake)
      else
        on_base incr_active ;;
        index ⇐ on_base fetch_execution_idx;
        mu_Unlock ;;
        version ⇐ on_base (TryIncarnate (i64 index));
        Ret (version, TaskKindExecution, None).

(** [min(int(s.base.execution_idx.Load()), s.base.block_size)] *)
Definition admitted_count (s : admissionScheduler) : Z :=
  Z.min (i64 (execution_idx (as_base s))) (block_size (as_base s)).

Definition finishExecution (version : TxnVersion) (wroteNewPath : bool) :
    prog admissionScheduler (TxnVersion * TaskKind) :=
  mu_Lock ;;
  (if wroteNewPath then
     v ⇐ load (λ s, validation_idx (as_base s));
     if u64 (Index version) <? v then
       admitted ⇐ load admitted_count;
       window_invalidateFrom (Index version) admitted
     else Ret tt
   else Ret tt) ;;
  t ⇐ on_base (FinishExecution version wroteNewPath);
  notifyLocked ;;
  mu_Unlock ;;
  Ret t.

Definition validationToken (transaction : Z) : prog admissionScheduler Z :=
  mu_Lock ;;
  token ⇐ on_window (λ w, (e ← deref (at_index (epoch w) transaction); Returns (w, e))%stdpp);
  mu_Unlock ;;
  Ret token.

Definition finishValidation (version : TxnVersion) (valid aborted : bool) (token : Z) :
    prog admissionScheduler (TxnVersion * TaskKind) :=
  (if aborted then
     mu_Lock ;;
     admitted ⇐ load admitted_count;
     window_invalidateFrom (Index version) admitted ;;
     notifyLocked ;;
     mu_Unlock
   else Ret tt) ;;
  t ⇐ on_base (FinishValidation (Index version) aborted);
  if valid && negb aborted then
    mu_Lock ;;
    '(executed, incarnation) ⇐ on_base (check_executed (Index version));
    (if (executed : bool) && (incarnation =? Incarnation version) then
       moved ⇐ on_window (λ w, pass w (Index version) token);
       if (moved : bool) then notifyLocked else Ret tt
     else Ret tt) ;;
    mu_Unlock ;;
    Ret t
  else Ret t.

Definition tryExecute (a : answers) (version : TxnVersion) :
    prog admissionScheduler (TxnVersion * TaskKind) :=
  on_base (modify (λ s, set_stats (i64 (executedTxns s + 1)) (validatedTxns s) s)) ;;
  on_base (execute (Index version) (ans_blocking a)) ;;
  finishExecution version (ans_wroteNewLocation a).

Definition needsReexecution (a : answers) (version : TxnVersion) :
    prog admissionScheduler (TxnVersion * TaskKind) :=
  on_base (modify (λ s, set_stats (executedTxns s) (i64 (validatedTxns s + 1)) s)) ;;
  token ⇐ validationToken (Index version);
  aborted ⇐ (if ans_valid a then Ret false else on_base (try_validation_abort version));
  finishValidation version (ans_valid a) aborted token.

(** [<-wake]: blocks until the channel has been closed. *)
Definition wait_wake (n : nat) : prog admissionScheduler unit :=
  atomic (λ s, if decide (n < as_wake s)%nat then Returns (s, tt) else Waits).

(** One round of [admissionExecutor.run]; [elapsed] is the time a stall took. *)
Definition admission_round (a : answers) (elapsed : Z) (version : TxnVersion) (kind : TaskKind) :
    prog admissionScheduler (option (TxnVersion * TaskKind)) :=
  d ⇐ on_base Done;
  if (d : bool) then Ret None
  else if negb (version_Valid version) then
    if ans_cancelled a then Ret None
    else
      '(t, wake) ⇐ nextTask;
      match wake with
      | None => Ret (Some t)
      | Some n =>
          wait_wake n ;;
          modify (λ s, put_window (recordStall elapsed (as_window s)) s) ;;
          Ret (Some t)
      end
  else
    t ⇐ match kind with
        | TaskKindExecution => tryExecute a version
        | TaskKindValidation => needsReexecution a version
        end;
    Ret (Some t).
Close Scope prog_scope.

(** ** The window over time *)

(** What the scheduler does with its window, under its mutex; the second
    component is the number of admitted transactions, [execution_idx].  The
    invalidation counter does not wrap in fewer than 2^64 invalidations. *)
Inductive window_step : admissionWindow * Z → admissionWindow * Z → Prop :=
| step_admit w w' n :
    n < Z.of_nat (length (passed w)) → admit_txn w n = (w', true) → window_step (w, n) (w', n + 1)
| step_refuse w w' n : admit_txn w n = (w', false) → window_step (w, n) (w', n)
| step_pass w w' n transaction token moved :
    0 <= transaction < n → pass w transaction token = Returns (w', moved) →
    window_step (w, n) (w', n)
| step_invalidate w w' n first :
    0 <= first → generation w + 1 < W64 → invalidateFrom w first n = Returns w' →
    window_step (w, n) (w', n).

Lemma frontier_steps_spec l :
  let k := frontier_steps l in
  0 <= k ∧ (∀ i, (Z.of_nat i < k) → l !! i = Some true) ∧
  (l !! Z.to_nat k = Some false ∨ k = Z.of_nat (length l)).
Proof.
  induction l as [|[] l IH]; simpl.
  - split; [lia|]. split; [intros; lia|by right].
  - destruct IH as (H0 & H1 & H2). split; [lia|]. split.
    + intros [|i] Hi; [done|]. apply H1. lia.
    + replace (Z.to_nat (1 + frontier_steps l)) with (S (Z.to_nat (frontier_steps l))) by lia.
      destruct H2 as [H2|H2]; [by left|right; lia].
  - split; [lia|]. split; [intros; lia|by left].
Qed.

(** [invalidate_loop] writes the window from [first] on. *)
Lemma invalidate_loop_spec n first g ep pa ep' pa' :
  0 <= first → invalidate_loop n first g ep pa = Returns (ep', pa') →
  length ep' = length ep ∧ length pa' = length pa ∧
  (∀ i, ep' !! i = if decide (first <= Z.of_nat i < first + Z.of_nat n) then
                     (λ _, g) <$> ep !! i else ep !! i) ∧
  (∀ i, pa' !! i = if decide (first <= Z.of_nat i < first + Z.of_nat n) then
                     (λ _, false) <$> pa !! i else pa !! i).
Proof.
  revert first ep pa; induction n as [|n IH]; intros first ep pa Hf H; cbn in H.
  { injection H as -> ->. repeat split; intros; rewrite decide_False by lia; done. }
  destruct (set_index ep first g) as [ep1|] eqn:E1; [|done].
  destruct (set_index pa first false) as [pa1|] eqn:E2; [|done]. cbn in H.
  apply set_index_Some in E1 as [H1 ->]. apply set_index_Some in E2 as [H2 ->].
  destruct (IH (first + 1) _ _ ltac:(lia) H) as (L1 & L2 & He & Hp).
  rewrite length_insert in L1. rewrite length_insert in L2. split; [done|]. split; [done|].
  split; intros i; rewrite ?He, ?Hp; destruct (decide (i = Z.to_nat first)) as [->|Hne];
    rewrite ?list_lookup_insert_eq, ?list_lookup_insert_ne by lia;
    repeat case_decide; try lia; try done;
    first [destruct (lookup_lt_is_Some_2 ep (Z.to_nat first)) as [? ->]; [lia|done]
          |destruct (lookup_lt_is_Some_2 pa (Z.to_nat first)) as [? ->]; [lia|done]].
Qed.

Record window_inv (limit0 size : Z) (st : admissionWindow * Z) : Prop := {
  wi_limit : limit st.1 = limit0;
  wi_passed : Z.of_nat (length (passed st.1)) = size;
  wi_epoch : Z.of_nat (length (epoch st.1)) = size;
  wi_frontier : 0 <= stable st.1 <= st.2;
  wi_admitted : st.2 <= size;
  wi_inflight : st.2 - stable st.1 <= limit0;
  wi_unseen : ∀ i, st.2 <= Z.of_nat i → passed st.1 !! i ≠ Some true;
  wi_peak : st.2 - stable st.1 <= peak st.1 <= limit0;
  wi_fresh : 0 <= generation st.1 < W64 ∧ ∀ i e, epoch st.1 !! i = Some e → e <= generation st.1;
  wi_stops : passed st.1 !! Z.to_nat (stable st.1) ≠ Some true;
}.

Lemma window_inv_new limit0 size :
  0 < limit0 → window_inv limit0 (Z.of_nat size) (newAdmissionWindow size limit0, 0).
Proof.
  intros H. split; cbn; try (done || lia).
  - by rewrite length_replicate.
  - by rewrite length_replicate.
  - intros i _ [Hi _]%lookup_replicate. done.
  - split; [unfold W64; lia|]. intros i e [-> _]%lookup_replicate. lia.
  - by intros [? _]%lookup_replicate.
Qed.

Lemma pass_spec w t token w' moved :
  0 <= stable w → pass w t token = Returns (w', moved) →
  (w' = w ∧ moved = false ∧ at_index (epoch w) t ≠ Some token) ∨
  (at_index (epoch w) t = Some token ∧ 0 <= t < Z.of_nat (length (passed w)) ∧
   limit w' = limit w ∧ passed w' = <[Z.to_nat t := true]> (passed w) ∧ epoch w' = epoch w ∧
   generation w' = generation w ∧ peak w' = peak w ∧
   stable w <= stable w' ∧ (∀ i, stable w <= Z.of_nat i < stable w' → passed w' !! i = Some true) ∧
   (Z.of_nat (length (passed w)) <= stable w' ∨ passed w' !! Z.to_nat (stable w') = Some false) ∧
   moved = bool_decide (stable w' ≠ stable w)).
Proof.
  intros Hs H. unfold pass in H. destruct (at_index (epoch w) t) as [e|]; [|done]. cbn in H.
  destruct (e =? token) eqn:E; cbn in H.
  2:{ injection H as <- <-. left. repeat split; auto. intros [= ->]. bool_lia. }
  destruct (set_index (passed w) t true) as [p|] eqn:Ep; [|done]. cbn in H.
  apply set_index_Some in Ep as [Ht ->].
  destruct (stable w <? 0) eqn:E0; [bool_lia|]. injection H as <- <-. right. cbn.
  apply Z.eqb_eq in E as ->.
  destruct (frontier_steps_spec (drop (Z.to_nat (stable w)) (<[Z.to_nat t := true]> (passed w))))
    as (H0 & H1 & H2). set (k := frontier_steps _) in *.
  repeat split; auto; try lia.
  - intros i Hi. specialize (H1 (i - Z.to_nat (stable w))%nat ltac:(lia)).
    rewrite lookup_drop in H1.
    by replace (Z.to_nat (stable w) + (i - Z.to_nat (stable w)))%nat with i in H1 by lia.
  - rewrite lookup_drop, length_drop, length_insert in H2.
    replace (Z.to_nat (stable w) + Z.to_nat k)%nat with (Z.to_nat (stable w + k)) in H2 by lia.
    destruct H2 as [H2|H2]; [by right|left; lia].
  - case_bool_decide; destruct (stable w + k =? stable w) eqn:E1; try done; bool_lia.
Qed.

Lemma window_inv_step limit0 size st st' :
  limit0 < 2 ^ 63 → window_inv limit0 size st → window_step st st' → window_inv limit0 size st'.
Proof.
  intros Hl Hinv Hstep.
  destruct Hstep as [w w' n Hn Ha|w w' n Ha|w w' n t token moved Ht Hp|w w' n first Hf Hg Hi];
    pose proof Hinv as [H1 H2 H3 H4 H5 H6 H7 H8 H9 H10]; cbn in *.
  - unfold admit_txn, allows in Ha. destruct (n - stable w <? limit w) eqn:E; [|done].
    cbn in Ha. injection Ha as <-.
    assert (u64 (n + 1 - stable w) = n + 1 - stable w) as Eu by (apply u64_small; bool_lia).
    split; cbn; rewrite ?Eu; try done; try (bool_lia).
    intros i Hi. apply H7. lia.
  - unfold admit_txn in Ha. destruct (allows w n); [done|]. by injection Ha as <-.
  - destruct (pass_spec w t token w' moved ltac:(lia) Hp)
      as [(-> & _)|(_ & Htl & L1 & L2 & L3 & L4 & L5 & Hle & Hall & Hend & _)]; [done|].
    assert (∀ i, n <= Z.of_nat i → passed w' !! i ≠ Some true) as Hun.
    { intros i Hi. rewrite L2, list_lookup_insert_ne by lia. by apply H7. }
    assert (stable w' <= n) as Hsn.
    { destruct (Z.le_gt_cases (stable w') n) as [|Hgt]; [done|]. exfalso.
      apply (Hun (Z.to_nat n)); [lia|]. apply Hall. lia. }
    split; cbn; rewrite ?L1, ?L3, ?L4, ?L5; try done; try lia.
    + rewrite L2, length_insert. done.
    + destruct Hend as [Hend|Hend]; [|congruence]. rewrite lookup_ge_None_2; [done|].
      rewrite L2, length_insert. lia.
  - unfold invalidateFrom in Hi.
    destruct (invalidate_loop _ _ _ _ _) as [[ep pa]| |] eqn:E; [|done..]. injection Hi as <-.
    apply invalidate_loop_spec in E as (L1 & L2 & He & Hp); [|done].
    assert (u64 (generation w + 1) = generation w + 1) as Eu
      by (apply u64_id; unfold u64_range; lia).
    split; cbn; rewrite ?Eu; try done; try lia.
    + intros i Hi. rewrite Hp. case_decide; [by destruct (passed w !! i)|by apply H7].
    + split; [lia|]. intros i e. rewrite He. case_decide.
      * destruct (epoch w !! i); [|done]. intros [= <-]. lia.
      * intros Hei. apply H9 in Hei. lia.
    + rewrite Hp. case_decide; [by destruct (passed w !! _)|done].
Qed.

(** The frontier moves only over transactions that have passed, whoever moves it. *)
Lemma window_step_frontier limit0 size st st' :
  window_inv limit0 size st → window_step st st' →
  stable st.1 <= stable st'.1 ∧
  ∀ i, stable st.1 <= Z.of_nat i < stable st'.1 → Z.of_nat i < st.2 ∧ passed st'.1 !! i = Some true.
Proof.
  intros Hinv Hstep.
  destruct Hstep as [w w' n Hn Ha|w w' n Ha|w w' n t token moved Ht Hp|w w' n first Hf Hg Hi];
    pose proof Hinv as [_ _ _ H4 _ _ H7 _ _ _]; cbn in *.
  - unfold admit_txn in Ha. destruct (allows w n); [|done]. injection Ha as <-. cbn. split; [done|]. intros; lia.
  - unfold admit_txn in Ha. destruct (allows w n); [done|]. injection Ha as <-. split; [done|]. intros; lia.
  - destruct (pass_spec w t token w' moved ltac:(lia) Hp)
      as [(-> & _)|(_ & _ & _ & L2 & _ & _ & _ & Hle & Hall & _ & _)]; [split; [done|intros; lia]|].
    split; [done|]. intros i Hi. split; [|by apply Hall].
    destruct (Z.lt_ge_cases (Z.of_nat i) n) as [|Hge]; [done|]. specialize (Hall i Hi).
    rewrite L2, list_lookup_insert_ne in Hall by lia. by apply H7 in Hall.
  - unfold invalidateFrom in Hi. destruct (invalidate_loop _ _ _ _ _) as [[ep pa]| |]; [|done..].
    injection Hi as <-. cbn. split; [done|]. intros; lia.
Qed.

Lemma window_inv_steps limit0 size st st' :
  limit0 < 2 ^ 63 → window_inv limit0 size st → rtc window_step st st' → window_inv limit0 size st'.
Proof. intros Hl Hi Hr. induction Hr; [done|]. eauto using window_inv_step. Qed.

Lemma window_stops limit0 size st : window_inv limit0 size st →
  stable st.1 < size → passed st.1 !! Z.to_nat (stable st.1) = Some false.
Proof.
  intros [_ H2 _ H4 _ _ _ _ _ H10] Hs.
  destruct (lookup_lt_is_Some_2 (passed st.1) (Z.to_nat (stable st.1))) as [[] E]; [lia|done|done].
Qed.


(** [pass] with the current token marks the transaction and moves the
    frontier exactly to the first transaction that has not passed; it answers
    whether the frontier moved, and with a stale token does nothing. *)
Theorem pass_moves_frontier w t token w' moved :
  0 <= stable w → pass w t token = Returns (w', moved) →
  if decide (at_index (epoch w) t = Some token) then
    passed w' = <[Z.to_nat t := true]> (passed w) ∧ stable w <= stable w' ∧
    (∀ i, stable w <= Z.of_nat i < stable w' → passed w' !! i = Some true) ∧
    (Z.of_nat (length (passed w)) <= stable w' ∨ passed w' !! Z.to_nat (stable w') = Some false) ∧
    moved = bool_decide (stable w' ≠ stable w)
  else w' = w ∧ moved = false.
Proof.
  intros Hs Hp. destruct (pass_spec w t token w' moved Hs Hp) as [(-> & -> & Hne)|H].
  - by rewrite decide_False.
  - destruct H as (He & _ & _ & H1 & _ & _ & _ & H2 & H3 & H4 & H5).
    rewrite decide_True by done. auto.
Qed.

(** A token is stale once the transaction has been invalidated. *)
Definition stale (t token : Z) (w : admissionWindow) : Prop :=
  ∃ e, at_index (epoch w) t = Some e ∧ token < e.

Lemma stale_step limit0 size t token st st' :
  0 <= t → limit0 < 2 ^ 63 → window_inv limit0 size st → stale t token st.1 → window_step st st' →
  stale t token st'.1.
Proof.
  intros Ht Hl Hinv (e & He & Hlt) Hstep.
  destruct Hstep as [w w' n Hn Ha|w w' n Ha|w w' n t' token' moved Ht' Hp|w w' n first Hf Hg Hi]; cbn in *.
  - unfold admit_txn in Ha. destruct (allows w n); [|done]. injection Ha as <-. by exists e.
  - unfold admit_txn in Ha. destruct (allows w n); [done|]. injection Ha as <-. by exists e.
  - destruct (pass_spec w t' token' w' moved) as [(-> & _)|H]; [apply Hinv|done|by exists e|].
    destruct H as (_ & _ & _ & _ & E & _). exists e. by rewrite E.
  - unfold invalidateFrom in Hi.
    destruct (invalidate_loop _ _ _ _ _) as [[ep pa]| |] eqn:E; [|done..]. injection Hi as <-.
    apply invalidate_loop_spec in E as (_ & _ & Hep & _); [|done].
    destruct Hinv as [_ _ _ _ _ _ _ _ [Hg0 Hfr]]; cbn in *.
    rewrite at_index_lookup in He by done. specialize (Hep (Z.to_nat t)). rewrite He in Hep.
    unfold stale. cbn. setoid_rewrite at_index_lookup; [|done]. rewrite Hep. case_decide; [|eauto].
    eexists. split; [done|]. apply Hfr in He. rewrite u64_id by (unfold u64_range; lia). lia.
Qed.

(** A validation that started before its transaction was invalidated can
    no longer make it pass: if the token was read in a reachable window and
    the transaction is then invalidated, [pass] with that token is refused,
    whatever happened in between. *)
Theorem stale_token_rejected limit0 size w n t token first w1 w2 n2 :
  0 < limit0 < 2 ^ 63 → rtc window_step (newAdmissionWindow size limit0, 0) (w, n) →
  at_index (epoch w) t = Some token →
  0 <= first <= t → t < n → generation w + 1 < W64 → invalidateFrom w first n = Returns w1 →
  rtc window_step (w1, n) (w2, n2) → pass w2 t token = Returns (w2, false).
Proof.
  intros Hl Hr Htok Hft Htn Hg Hi Hr2.
  assert (window_inv limit0 (Z.of_nat size) (w, n)) as Hinv.
  { eapply window_inv_steps; [lia|apply window_inv_new; lia|done]. }
  assert (window_step (w, n) (w1, n)) as Hstep by (apply (step_invalidate w w1 n first); [lia|done..]).
  assert (window_inv limit0 (Z.of_nat size) (w1, n)) as Hinv1
    by (eapply window_inv_step; [lia|done..]).
  assert (stale t token w1) as Hst.
  { unfold invalidateFrom in Hi.
    destruct (invalidate_loop _ _ _ _ _) as [[ep pa]| |] eqn:E; [|done..]. injection Hi as <-.
    apply invalidate_loop_spec in E as (_ & _ & Hep & _); [|lia].
    destruct Hinv as [_ _ _ _ _ _ _ _ [Hg0 Hfr]]; cbn in *.
    rewrite at_index_lookup in Htok by lia. specialize (Hep (Z.to_nat t)).
    rewrite Htok, decide_True in Hep by lia. unfold stale. cbn.
    exists (u64 (generation w + 1)). rewrite at_index_lookup by lia. split; [done|].
    apply Hfr in Htok. rewrite u64_id by (unfold u64_range; lia). lia. }
  assert (stale t token w2) as (e & He & Hlt).
  { clear -Hl Hft Hr2 Hinv1 Hst. remember (w1, n) as st1 eqn:E1. remember (w2, n2) as st2 eqn:E2.
    assert (stale t token st1.1) as H1 by (by subst). assert (window_inv limit0 (Z.of_nat size) st1) as H2 by (by subst).
    replace w2 with st2.1 by (by subst). clear E1 E2 Hst Hinv1.
    induction Hr2 as [st|sa sb sc Hab _ IH]; [done|].
    apply IH; [apply (stale_step limit0 (Z.of_nat size) t token sa sb)|
      apply (window_inv_step limit0 (Z.of_nat size) sa sb)]; (done || lia). }
  unfold pass. rewrite He. cbn. destruct (e =? token) eqn:E; [bool_lia|done].
Qed.

(** Three transactions, two of which may be in flight. *)
Definition window2 : admissionWindow := (admit_txn (newAdmissionWindow 3 2) 0).1.

Lemma window2_reached : rtc window_step (newAdmissionWindow 3 2, 0) (window2, 1).
Proof. eapply rtc_l; [|apply rtc_refl]. by apply (step_admit _ _ 0). Qed.

(** The same window with both transactions admitted, the second having passed:
    the frontier waits for the first. *)
Definition window22 : admissionWindow := (admit_txn window2 1).1.
Definition window22_passed : admissionWindow :=
  match pass window22 1 0 with Returns (w, _) => w | _ => window22 end.

Lemma window22_reached : rtc window_step (newAdmissionWindow 3 2, 0) (window22_passed, 2).
Proof.
  eapply rtc_r; [eapply rtc_r; [apply window2_reached|by apply (step_admit _ window22 1)]|].
  by apply (step_pass window22 window22_passed 2 1 0 false).
Qed.


Lemma pass_moves_frontier_witness :
  ∃ w', pass window2 0 0 = Returns (w', true) ∧ stable window2 <= stable w'.
Proof.
  destruct (pass window2 0 0) as [[w' moved]| |] eqn:E; [|discriminate E..].
  pose proof (pass_moves_frontier window2 0 0 w' moved ltac:(vm_compute; congruence) E) as H.
  vm_compute in E. injection E as <- <-. destruct H as (_ & Hs & _). by eexists.
Defined.

Lemma stale_token_rejected_witness :
  ∃ w1, invalidateFrom window2 0 1 = Returns w1 ∧ pass w1 0 0 = Returns (w1, false).
Proof.
  destruct (invalidateFrom window2 0 1) as [w1| |] eqn:E; [|discriminate E..].
  exists w1. split; [done|].
  apply (stale_token_rejected 2 3 window2 1 0 0 0 w1 w1 1); try (done || lia).
  apply window2_reached.
Defined.
