(* ===== verification/KernelPolicy.v ===== *)
(** * execpolicy.go: kernel policies, their normalisation and the entry points

    A policy is three strings and the two optional gate inputs.  The entry
    points are modelled up to the choice of the execution path: which checks
    fail, and which scheduler is built with which limit. *)

From Stdlib Require Import ZArith Lia String.
From S2P Require Import Prelude.
Local Open Scope Z_scope.

Definition EstimateReadSuspendInPlace : string := "suspend_in_place".
Definition EstimateReadAbortReschedule : string := "abort_and_reschedule".
Definition EstimateReadSuspendYieldWorker : string := "suspend_yield_worker".
Definition IdleWaitGosched : string := "gosched".
Definition IdleWaitPark : string := "park".
Definition DispatchIndexOrder : string := "index_order".
Definition DispatchReadyQueue : string := "ready_queue".

(** [Predecessors] and [Barriers] are [None] when nil. *)
Record KernelPolicy := MkPolicy {
  EstimateRead : string;
  IdleWait : string;
  Dispatch : string;
  Predecessors : option (list (list Z));
  Barriers : option (list Z);
}.

(** The errors wrapped by [ErrKernelPolicyUnknown] and [ErrKernelPolicyGate]. *)
Inductive policy_error :=
| UnknownEstimateRead (v : string)
| UnknownIdleWait (v : string)
| UnknownDispatch (v : string)
| YieldRequiresPark
| GateForIndexOrder
| GateInputsNotExactlyOne
| PredecessorsLength (n blockSize : Z)
| PredecessorNotLower (predecessor txn : Z)
| BarriersLength (n blockSize : Z)
| BarrierNotLower (barrier txn : Z).

Definition is_nil {A} (o : option A) : bool := match o with None => true | Some _ => false end.

(** The defaults filled in before the checks. *)
Definition policy_defaults (p : KernelPolicy) : KernelPolicy :=
  let estimateRead :=
    if decide (EstimateRead p = ""%string) then EstimateReadSuspendInPlace else EstimateRead p in
  let idleWait :=
    if decide (IdleWait p = ""%string) then
      if decide (estimateRead = EstimateReadSuspendYieldWorker) then IdleWaitPark
      else IdleWaitGosched
    else IdleWait p in
  let dispatch := if decide (Dispatch p = ""%string) then DispatchIndexOrder else Dispatch p in
  MkPolicy estimateRead idleWait dispatch (Predecessors p) (Barriers p).

Definition check_policy (p : KernelPolicy) : option policy_error :=
  if negb (bool_decide (EstimateRead p = EstimateReadSuspendInPlace ∨
                        EstimateRead p = EstimateReadAbortReschedule ∨
                        EstimateRead p = EstimateReadSuspendYieldWorker))
  then Some (UnknownEstimateRead (EstimateRead p))
  else if negb (bool_decide (IdleWait p = IdleWaitGosched ∨ IdleWait p = IdleWaitPark))
  then Some (UnknownIdleWait (IdleWait p))
  else if bool_decide (EstimateRead p = EstimateReadSuspendYieldWorker) &&
          negb (bool_decide (IdleWait p = IdleWaitPark))
  then Some YieldRequiresPark
  else if bool_decide (Dispatch p = DispatchIndexOrder) then
    if negb (is_nil (Predecessors p)) || negb (is_nil (Barriers p))
    then Some GateForIndexOrder else None
  else if bool_decide (Dispatch p = DispatchReadyQueue) then
    if Bool.eqb (is_nil (Predecessors p)) (is_nil (Barriers p))
    then Some GateInputsNotExactlyOne else None
  else Some (UnknownDispatch (Dispatch p)).

(** The policy with its defaults, and the error. *)
Definition Normalize (p : KernelPolicy) : KernelPolicy * option policy_error :=
  let p' := policy_defaults p in (p', check_policy p').

Definition IsFrozenDefault (p : KernelPolicy) : bool :=
  match Normalize p with
  | (normalized, None) =>
      bool_decide (EstimateRead normalized = EstimateReadSuspendInPlace) &&
      bool_decide (IdleWait normalized = IdleWaitGosched) &&
      bool_decide (Dispatch normalized = DispatchIndexOrder)
  | (_, Some _) => false
  end.

(** First element, with its index, that a check rejects. *)
Fixpoint check_each {A} (check : Z → A → option policy_error) (i : Z) (l : list A) :
    option policy_error :=
  match l with
  | [] => None
  | x :: l' => match check i x with Some e => Some e | None => check_each check (i + 1) l' end
  end.

Definition check_predecessor (txn predecessor : Z) : option policy_error :=
  if (predecessor <? 0) || (txn <=? predecessor)
  then Some (PredecessorNotLower predecessor txn) else None.

Definition check_barrier (txn barrier : Z) : option policy_error :=
  if txn <=? barrier then Some (BarrierNotLower barrier txn) else None.

Definition validateGate (p : KernelPolicy) (blockSize : Z) : option policy_error :=
  if negb (bool_decide (Dispatch p = DispatchReadyQueue)) then None
  else
    match Predecessors p with
    | Some preds =>
        if negb (Z.of_nat (length preds) =? blockSize)
        then Some (PredecessorsLength (Z.of_nat (length preds)) blockSize)
        else check_each (λ txn list, check_each (λ _ p, check_predecessor txn p) 0 list) 0 preds
    | None =>
        let barriers := default [] (Barriers p) in
        if negb (Z.of_nat (length barriers) =? blockSize)
        then Some (BarriersLength (Z.of_nat (length barriers)) blockSize)
        else check_each check_barrier 0 barriers
    end.

(** ** Entry points *)

Inductive exec_error :=
| InvalidBlockSize (n : Z)
| InvalidExecutors (n : Z)
| InvalidMaxInflight (n : Z)
| EstimateCountExceeds (count blockSize : Z)
| PolicyError (e : policy_error).

(** The path that executes the block, and with how many executors. *)
Inductive route :=
| RouteBlock (executors : Z)
| RouteAdmission (executors limit : Z)
| RoutePolicy (executors : Z) (policy : KernelPolicy) (admission : option Z).

Section routes.
(** [maxParallelism()] *)
Context (maxParallelism : Z).

(** [ExecuteBlockWithEstimates]: the checks and the number of executors. *)
Definition block_route (executors : Z) : exec_error + route :=
  if executors <? 0 then inl (InvalidExecutors executors)
  else if executors =? 0 then inr (RouteBlock maxParallelism)
  else inr (RouteBlock executors).

Definition check_arguments (blockSize executors maxInflight estimates : Z) : option exec_error :=
  if blockSize <? 0 then Some (InvalidBlockSize blockSize)
  else if executors <? 0 then Some (InvalidExecutors executors)
  else if maxInflight <? 0 then Some (InvalidMaxInflight maxInflight)
  else if blockSize <? estimates then Some (EstimateCountExceeds estimates blockSize)
  else None.

(** [ExecuteBlockWithMaxSpeculativeInflightAndEstimates]: the effective
    limit it reports, and the path. *)
Definition speculation_route (blockSize executors maxInflight estimates : Z) :
    exec_error + (Z * route) :=
  match check_arguments blockSize executors maxInflight estimates with
  | Some e => inl e
  | None =>
      let executors := if executors =? 0 then maxParallelism else executors in
      let effectiveLimit :=
        if (0 <? maxInflight) && (maxInflight <? blockSize) then maxInflight else blockSize in
      if (blockSize =? 0) || (maxInflight =? 0) || (blockSize <=? maxInflight) then
        match block_route executors with
        | inl e => inl e
        | inr r => inr (effectiveLimit, r)
        end
      else inr (effectiveLimit, RouteAdmission executors effectiveLimit)
  end.

(** [ExecuteBlockWithKernelPolicy] *)
Definition kernel_route (blockSize executors maxInflight estimates : Z) (policy : KernelPolicy) :
    exec_error + route :=
  match Normalize policy with
  | (_, Some e) => inl (PolicyError e)
  | (normalized, None) =>
      match check_arguments blockSize executors maxInflight estimates with
      | Some e => inl e
      | None =>
          if IsFrozenDefault normalized then
            match speculation_route blockSize executors maxInflight estimates with
            | inl e => inl e
            | inr (_, r) => inr r
            end
          else
            let executors := if executors =? 0 then maxParallelism else executors in
            match validateGate normalized blockSize with
            | Some e => inl (PolicyError e)
            | None =>
                inr (RoutePolicy executors normalized
                  (if (0 <? maxInflight) && (maxInflight <? blockSize)
                   then Some maxInflight else None))
            end
      end
  end.
End routes.

(** ** Properties *)

Lemma check_each_None {A} (check : Z → A → option policy_error) i l :
  check_each check i l = None ↔ ∀ j x, l !! j = Some x → check (i + Z.of_nat j) x = None.
Proof.
  revert i; induction l as [|y l IH]; intros i; simpl; [done|].
  destruct (check i y) eqn:E.
  - split; [done|]. intros H. specialize (H 0%nat y eq_refl). rewrite Z.add_0_r in H. congruence.
  - rewrite IH. split.
    + intros H [|j] x; simpl; [intros [= <-]; by rewrite Z.add_0_r|].
      intros Hx. rewrite <- (H j x Hx). f_equal. lia.
    + intros H j x Hx. rewrite <- (H (S j) x Hx). f_equal. lia.
Qed.

Lemma policy_defaults_idem p : policy_defaults (policy_defaults p) = policy_defaults p.
Proof.
  destruct p as [er iw di pr ba]. unfold policy_defaults. cbn.
  repeat (case_decide; subst; cbn; try done).
Qed.

(** Normalising is idempotent, and the result is accepted exactly when
    every field holds a known value, a yielding policy parks, and the gate
    inputs are absent for index order and exactly one is present for the
    ready queue; no explicit value is ever rewritten. *)
Theorem Normalize_spec p :
  let '(q, err) := Normalize p in
  Normalize q = (q, err) ∧
  (EstimateRead p ≠ ""%string → EstimateRead q = EstimateRead p) ∧
  (IdleWait p ≠ ""%string → IdleWait q = IdleWait p) ∧
  (Dispatch p ≠ ""%string → Dispatch q = Dispatch p) ∧
  Predecessors q = Predecessors p ∧ Barriers q = Barriers p ∧
  (err = None ↔
    (EstimateRead q = EstimateReadSuspendInPlace ∨ EstimateRead q = EstimateReadAbortReschedule ∨
     EstimateRead q = EstimateReadSuspendYieldWorker) ∧
    (IdleWait q = IdleWaitGosched ∧ EstimateRead q ≠ EstimateReadSuspendYieldWorker ∨
     IdleWait q = IdleWaitPark) ∧
    (Dispatch q = DispatchIndexOrder ∧ Predecessors q = None ∧ Barriers q = None ∨
     Dispatch q = DispatchReadyQueue ∧ (Predecessors q = None ↔ Barriers q ≠ None))).
Proof.
  unfold Normalize. rewrite policy_defaults_idem. split; [done|].
  split; [intros H; cbn; by rewrite decide_False|].
  split; [intros H; cbn; by rewrite decide_False|].
  split; [intros H; cbn; by rewrite decide_False|].
  split; [done|]. split; [done|].
  generalize (policy_defaults p). clear p. intros [er iw di pr ba]. unfold check_policy. cbn.
  assert (DispatchIndexOrder ≠ DispatchReadyQueue) by done.
  assert (IdleWaitGosched ≠ IdleWaitPark) by done.
  destruct (bool_decide (er = _ ∨ _)) eqn:E1; cbn;
    [apply bool_decide_eq_true in E1|apply bool_decide_eq_false in E1; naive_solver].
  destruct (bool_decide (iw = _ ∨ _)) eqn:E2; cbn;
    [apply bool_decide_eq_true in E2|apply bool_decide_eq_false in E2; naive_solver].
  destruct (bool_decide (er = EstimateReadSuspendYieldWorker)) eqn:E3; cbn;
    [apply bool_decide_eq_true in E3|apply bool_decide_eq_false in E3];
  (destruct (bool_decide (iw = IdleWaitPark)) eqn:E4; cbn;
    [apply bool_decide_eq_true in E4|apply bool_decide_eq_false in E4; try naive_solver]);
  (destruct (bool_decide (di = DispatchIndexOrder)) eqn:E5; cbn;
    [apply bool_decide_eq_true in E5; destruct pr, ba; cbn; naive_solver|
     apply bool_decide_eq_false in E5]);
  (destruct (bool_decide (di = DispatchReadyQueue)) eqn:E6; cbn;
    [apply bool_decide_eq_true in E6; destruct pr, ba; cbn; naive_solver|
     apply bool_decide_eq_false in E6; naive_solver]).
Qed.

(** The path chosen for a block is sound: bad arguments are rejected, every
    path gets a positive number of executors, an admission limit lies strictly
    between 0 and the block size, and the policy path is taken only with an
    accepted, normalised policy other than the default and a checked gate. *)
Lemma kernel_route_sound maxPar blockSize executors maxInflight estimates policy r :
  0 < maxPar →
  kernel_route maxPar blockSize executors maxInflight estimates policy = inr r →
  0 <= blockSize ∧ 0 <= executors ∧ 0 <= maxInflight ∧ estimates <= blockSize ∧
  match r with
  | RouteBlock ex => ex = (if executors =? 0 then maxPar else executors) ∧ 0 < ex
  | RouteAdmission ex limit => 0 < ex ∧ limit = maxInflight ∧ 0 < limit < blockSize
  | RoutePolicy ex p admission =>
      0 < ex ∧ Normalize policy = (p, None) ∧ IsFrozenDefault policy = false ∧
      validateGate p blockSize = None ∧
      (admission = None ∧ (maxInflight = 0 ∨ blockSize <= maxInflight) ∨
       admission = Some maxInflight ∧ 0 < maxInflight < blockSize)
  end.
Proof.
  intros Hmp H. unfold kernel_route in H. destruct (Normalize policy) as [p [e|]] eqn:EN; [done|].
  assert (Normalize p = (p, None)) as EN'.
  { pose proof (policy_defaults_idem policy) as Hid. unfold Normalize in *.
    injection EN as EN1 EN2. subst p. rewrite Hid. congruence. }
  assert (IsFrozenDefault policy = IsFrozenDefault p) as EF by (unfold IsFrozenDefault; by rewrite EN, EN').
  destruct (check_arguments _ _ _ _) eqn:EA; [done|]. unfold check_arguments in EA.
  destruct (blockSize <? 0) eqn:A1; [done|]. destruct (executors <? 0) eqn:A2; [done|].
  destruct (maxInflight <? 0) eqn:A3; [done|]. destruct (blockSize <? estimates) eqn:A4; [done|].
  split; [bool_lia|]. split; [bool_lia|]. split; [bool_lia|]. split; [bool_lia|].
  destruct (IsFrozenDefault p) eqn:EFp.
  - unfold speculation_route, check_arguments in H. rewrite A1, A2, A3, A4 in H.
    destruct (executors =? 0) eqn:B0; destruct ((blockSize =? 0) || _ || _) eqn:B1.
    1,3: unfold block_route in H; repeat case_match; simplify_eq; split; try done; bool_lia.
    all: apply orb_false_elim in B1 as [[C1 C2]%orb_false_elim C3]; injection H as <-;
      destruct (0 <? maxInflight) eqn:D1, (maxInflight <? blockSize) eqn:D2; cbn; bool_lia.
  - destruct (validateGate p blockSize) eqn:EG; [done|]. injection H as <-.
    split; [destruct (executors =? 0) eqn:B0; bool_lia|]. split; [done|]. split; [done|].
    split; [done|]. destruct (0 <? maxInflight) eqn:D1, (maxInflight <? blockSize) eqn:D2; cbn;
      [right|left..]; (split; [done|bool_lia]).
Qed.

(** The transactions [txn] waits for under a gate. *)
Definition gate_waits (p : KernelPolicy) (txn : Z) (on : Z) : Prop :=
  match Predecessors p with
  | Some preds => ∃ l, at_index preds txn = Some l ∧ on ∈ l
  | None => ∃ b, at_index (default [] (Barriers p)) txn = Some b ∧ 0 <= on <= b
  end.

Lemma validateGate_lower p blockSize txn on :
  Dispatch p = DispatchReadyQueue → validateGate p blockSize = None → gate_waits p txn on →
  0 <= on < txn ∧ 0 <= txn < blockSize.
Proof.
  unfold validateGate, gate_waits. intros -> H Hw. rewrite bool_decide_eq_true_2 in H by done. cbn in H.
  destruct (Predecessors p) as [preds|].
  - destruct (Z.of_nat (length preds) =? blockSize) eqn:E; [|done]. cbn in H.
    rewrite check_each_None in H. destruct Hw as (l & Hl & Hon).
    unfold at_index in Hl. destruct (0 <=? txn) eqn:Et; [|done].
    pose proof (lookup_lt_Some _ _ _ Hl) as Hlt.
    specialize (H _ _ Hl). rewrite check_each_None in H.
    apply list_elem_of_lookup in Hon as [j Hj]. specialize (H _ _ Hj). unfold check_predecessor in H.
    destruct (on <? 0) eqn:C1; [done|]. cbn in H.
    destruct (0 + Z.of_nat (Z.to_nat txn) <=? on) eqn:C2; [done|]. bool_lia.
  - destruct (_ =? blockSize) eqn:E; [|done]. cbn in H. rewrite check_each_None in H.
    destruct Hw as (b & Hb & Hon). unfold at_index in Hb. destruct (0 <=? txn) eqn:Et; [|done].
    pose proof (lookup_lt_Some _ _ _ Hb) as Hlt. specialize (H _ _ Hb). unfold check_barrier in H.
    destruct (_ <=? b) eqn:C2; [done|]. bool_lia.
Qed.

(** C25: A checked gate cannot deadlock: it only makes transactions wait for
    lower ones, so while some transaction of the block is not completed, some
    not completed transaction has everything it waits for completed. *)
Theorem gate_progress p blockSize (completed : Z → bool) :
  Dispatch p = DispatchReadyQueue → validateGate p blockSize = None →
  (∃ txn, 0 <= txn < blockSize ∧ completed txn = false) →
  ∃ txn, 0 <= txn < blockSize ∧ completed txn = false ∧
    ∀ on, gate_waits p txn on → completed on = true.
Proof.
  intros Hd Hv (txn & Htxn & Hc).
  assert (∀ n : nat, ∀ txn, 0 <= txn < blockSize → completed txn = false → txn < Z.of_nat n →
    ∃ txn, 0 <= txn < blockSize ∧ completed txn = false ∧
      ∀ on, on < txn → 0 <= on → completed on = true) as Hmin.
  { induction n as [|n IH]; intros t Ht Hct Hlt; [lia|].
    destruct (decide (Exists (λ i, completed (Z.of_nat i) = false) (seq 0 (Z.to_nat t)))) as [Hex|Hno].
    - apply Exists_exists in Hex as (i & Hi%elem_of_seq & Hci).
      apply (IH (Z.of_nat i)); [lia|done|lia].
    - exists t. split; [done|]. split; [done|]. intros on Hon H0.
      destruct (completed on) eqn:E; [done|]. exfalso. apply Hno, Exists_exists. exists (Z.to_nat on).
      rewrite elem_of_seq, Z2Nat.id by done. split; [lia|done]. }
  destruct (Hmin (S (Z.to_nat txn)) txn Htxn Hc ltac:(lia)) as (t & Ht & Hct & Hlow).
  exists t. split; [done|]. split; [done|]. intros on Hw.
  destruct (validateGate_lower p blockSize t on Hd Hv Hw) as [Hon _]. apply Hlow; lia.
Qed.

(** Three transactions, the last waiting for the first. *)
Definition gate_policy : KernelPolicy :=
  MkPolicy "abort_and_reschedule" "park" "ready_queue" (Some [[]; []; [0]]) None.

Lemma kernel_route_sound_witness :
  kernel_route 4 3 0 2 0 gate_policy = inr (RoutePolicy 4 gate_policy (Some 2)) ∧
  validateGate gate_policy 3 = None.
Proof.
  assert (kernel_route 4 3 0 2 0 gate_policy = inr (RoutePolicy 4 gate_policy (Some 2))) as E
    by (vm_compute; reflexivity).
  split; [done|]. by apply (kernel_route_sound 4 3 0 2 0 gate_policy _ ltac:(lia) E).
Defined.

Lemma gate_progress_witness :
  ∃ txn, 0 <= txn < 3 ∧ (0 <? txn) = false ∧ ∀ on, gate_waits gate_policy txn on → (0 <? on) = true.
Proof.
  apply (gate_progress gate_policy 3 (λ t, 0 <? t)); [done|vm_compute; reflexivity|].
  exists 0. split; [lia|done].
Defined.

Lemma Normalize_spec_witness : Normalize gate_policy = (gate_policy, None).
Proof. exact (proj1 (Normalize_spec gate_policy)). Defined.
