(* ===== verification/PolicyGate.v ===== *)
(** * execpolicysched.go: the dispatch gate and the ready queue

    The part of the policy scheduler's state that its mutex protects, as one
    record, with the loops over it.  The methods around it are in
    PolicySched.v. *)

From Stdlib Require Import ZArith Lia String.
From S2P Require Import Prelude KernelPolicy.
Local Open Scope Z_scope.

(** [indegree] is [None] when nil; [barrierOf] only exists without it. *)
Record gate := MkGate {
  ready : list Z;
  indegree : option (list Z);
  successors : list (list Z);
  deferred : list bool;
  completed : list bool;
  frontier : Z;
  released : Z;
  barrierOf : gmap Z (list Z);
  abortDeps : list (list Z);
}.

Definition set_ready (r : list Z) (g : gate) : gate :=
  MkGate r (indegree g) (successors g) (deferred g) (completed g) (frontier g) (released g)
    (barrierOf g) (abortDeps g).
Definition set_deferred (d : list bool) (g : gate) : gate :=
  MkGate (ready g) (indegree g) (successors g) d (completed g) (frontier g) (released g)
    (barrierOf g) (abortDeps g).
Definition set_indegree (d : list Z) (g : gate) : gate :=
  MkGate (ready g) (Some d) (successors g) (deferred g) (completed g) (frontier g) (released g)
    (barrierOf g) (abortDeps g).
Definition set_completed (c : list bool) (g : gate) : gate :=
  MkGate (ready g) (indegree g) (successors g) (deferred g) c (frontier g) (released g)
    (barrierOf g) (abortDeps g).
Definition set_barriers (f r : Z) (b : gmap Z (list Z)) (g : gate) : gate :=
  MkGate (ready g) (indegree g) (successors g) (deferred g) (completed g) f r b (abortDeps g).
Definition set_abortDeps (a : list (list Z)) (g : gate) : gate :=
  MkGate (ready g) (indegree g) (successors g) (deferred g) (completed g) (frontier g) (released g)
    (barrierOf g) a.

Definition is_ready_queue (p : KernelPolicy) : bool := bool_decide (Dispatch p = DispatchReadyQueue).

(** [s.successors[predecessor] = append(s.successors[predecessor], txn)] *)
Definition append_at {A} (l : list (list A)) (i : Z) (x : A) : outcome (list (list A)) :=
  old ← deref (at_index l i);
  deref (set_index l i (old ++ [x])).

(** The loop over [policy.Predecessors] of the constructor. *)
Fixpoint link_predecessors (txn : Z) (preds : list (list Z)) (s : list Z * list (list Z)) :
    outcome (list Z * list (list Z)) :=
  match preds with
  | [] => Returns s
  | l :: preds =>
      indegree ← deref (set_index s.1 txn (Z.of_nat (length l)));
      successors ← foldM (λ succ p, append_at succ p txn) s.2 l;
      link_predecessors (txn + 1) preds (indegree, successors)
  end.

(** [newPolicyScheduler]: the gate's part. *)
Definition new_gate (blockSize : nat) (policy : KernelPolicy) : outcome gate :=
  let empty := MkGate [] None [] [] (replicate blockSize false) 0 0 ∅ (replicate blockSize []) in
  if is_ready_queue policy then
    match Predecessors policy with
    | Some preds =>
        '(ind, succ) ← link_predecessors 0 preds (replicate blockSize 0, replicate blockSize []);
        Returns (MkGate [] (Some ind) succ (replicate blockSize false) (replicate blockSize false)
                   0 0 ∅ (replicate blockSize []))
    | None => Returns (set_deferred (replicate blockSize false) empty)
    end
  else Returns empty.

Definition popReady (g : gate) : gate * option Z :=
  match last (ready g) with
  | None => (g, None)
  | Some txn => (set_ready (removelast (ready g)) g, Some txn)
  end.

Definition gateReadyLocked (p : KernelPolicy) (g : gate) (txn : Z) : outcome bool :=
  if negb (is_ready_queue p) then Returns true
  else
    match indegree g with
    | Some ind => d ← deref (at_index ind txn); Returns (d =? 0)
    | None => b ← deref (at_index (default [] (Barriers p)) txn); Returns (b <? frontier g)
    end.

Definition deferLocked (p : KernelPolicy) (g : gate) (txn : Z) : outcome gate :=
  d ← deref (set_index (deferred g) txn true);
  let g := set_deferred d g in
  match indegree g with
  | Some _ => Returns g
  | None =>
      barrier ← deref (at_index (default [] (Barriers p)) txn);
      Returns (set_barriers (frontier g) (released g)
        (<[barrier := default [] (barrierOf g !! barrier) ++ [txn]]> (barrierOf g)) g)
  end.

(** Moves a deferred transaction to the ready queue. *)
Definition release (g : gate) (txn : Z) : outcome gate :=
  d ← deref (at_index (deferred g) txn);
  if (d : bool) then
    d' ← deref (set_index (deferred g) txn false);
    Returns (set_ready (ready g ++ [txn]) (set_deferred d' g))
  else Returns g.

(** One iteration of the loop over [s.successors[txn]]. *)
Definition complete_successor (ind : list Z) (g : gate) (successor : Z) : outcome (list Z * gate) :=
  d ← deref (at_index ind successor);
  ind' ← deref (set_index ind successor (d - 1));
  if d - 1 =? 0 then g' ← release g successor; Returns (ind', g') else Returns (ind', g).

Definition complete_successors (ind : list Z) (g : gate) (l : list Z) : outcome (list Z * gate) :=
  foldM (λ s successor, complete_successor s.1 s.2 successor) (ind, g) l.

(** The number of completed transactions from the frontier on. *)
Fixpoint completed_run (l : list bool) : Z :=
  match l with true :: l' => 1 + completed_run l' | _ => 0 end.

(** [for s.released < s.frontier]; [n] iterations left. *)
Fixpoint release_barriers (n : nat) (g : gate) : outcome gate :=
  match n with
  | O => Returns g
  | S n' =>
      g' ← foldM release g (default [] (barrierOf g !! released g));
      release_barriers n'
        (set_barriers (frontier g') (released g' + 1) (delete (released g') (barrierOf g')) g')
  end.

Definition complete_gate (g : gate) (txn : Z) : outcome gate :=
  c ← deref (set_index (completed g) txn true);
  let g := set_completed c g in
  match indegree g with
  | Some ind =>
      l ← deref (at_index (successors g) txn);
      '(ind', g') ← complete_successors ind g l;
      Returns (set_indegree ind' g')
  | None =>
      let f := frontier g + completed_run (drop (Z.to_nat (frontier g)) (completed g)) in
      release_barriers (Z.to_nat (f - released g)) (set_barriers f (released g) (barrierOf g) g)
  end.

(** [completeExecution], under the mutex. *)
Definition completeExecution_locked (p : KernelPolicy) (g : gate) (txn : Z) : outcome gate :=
  dependents ← deref (at_index (abortDeps g) txn);
  g1 ← (if decide (dependents = []) then Returns g
        else
          a ← deref (set_index (abortDeps g) txn []);
          Returns (set_ready (ready g ++ dependents) (set_abortDeps a g)));
  if is_ready_queue p then
    done ← deref (at_index (completed g1) txn);
    if (done : bool) then Returns g1 else complete_gate g1 txn
  else Returns g1.

(** [registerAbort], after the status change: [resolved] says whether the
    blocking transaction has executed. *)
Definition registerAbort_locked (resolved : bool) (g : gate) (txn blocking : Z) : outcome gate :=
  if resolved then Returns (set_ready (ready g ++ [txn]) g)
  else a ← append_at (abortDeps g) blocking txn; Returns (set_abortDeps a g).

(** ** The gate over declared predecessors *)

Definition count (x : Z) (l : list Z) : Z := Z.of_nat (length (filter (λ y, y = x) l)).

Lemma count_cons x y l : count x (y :: l) = (if decide (y = x) then 1 else 0) + count x l.
Proof. unfold count. rewrite filter_cons. case_decide; simpl; lia. Qed.

Lemma count_app x l1 l2 : count x (l1 ++ l2) = count x l1 + count x l2.
Proof. unfold count. rewrite filter_app, length_app. lia. Qed.

Lemma count_nonneg x l : 0 <= count x l.
Proof. unfold count. lia. Qed.

Lemma count_pos x l : 0 < count x l ↔ x ∈ l.
Proof.
  induction l as [|y l IH]; [split; [done|intros H; by apply elem_of_nil in H]|].
  rewrite count_cons, elem_of_cons. pose proof (count_nonneg x l).
  case_decide; subst; split; intros; auto; try lia; [right; apply IH; lia|].
  destruct H1 as [->|H1%IH]; [done|lia].
Qed.

(** Flags and counters by index, false and 0 outside the block. *)
Definition flag (l : list bool) (t : Z) : bool := default false (at_index l t).
Definition counter (l : list Z) (t : Z) : Z := default 0 (at_index l t).
Definition list_at (l : list (list Z)) (t : Z) : list Z := default [] (at_index l t).

Lemma counter_insert l i j x :
  0 <= i < Z.of_nat (length l) → 0 <= j →
  counter (<[Z.to_nat i := x]> l) j = if decide (j = i) then x else counter l j.
Proof. intros Hi Hj. unfold counter. rewrite at_index_insert by done. by case_decide. Qed.

Lemma flag_insert l i j x :
  0 <= i < Z.of_nat (length l) → 0 <= j →
  flag (<[Z.to_nat i := x]> l) j = if decide (j = i) then x else flag l j.
Proof. intros Hi Hj. unfold flag. rewrite at_index_insert by done. by case_decide. Qed.

Lemma at_counter l t : 0 <= t < Z.of_nat (length l) → at_index l t = Some (counter l t).
Proof. intros H. destruct (at_index_in l t H) as [x E]. unfold counter. by rewrite E. Qed.

Lemma at_flag l t : 0 <= t < Z.of_nat (length l) → at_index l t = Some (flag l t).
Proof. intros H. destruct (at_index_in l t H) as [x E]. unfold flag. by rewrite E. Qed.

(** [g'] is [g] with the transactions of [new] moved to the ready queue. *)
Record releases (g g' : gate) (new : list Z) : Prop := {
  rel_ready : ready g' = ready g ++ new;
  rel_deferred : ∀ t, 0 <= t → flag (deferred g') t = flag (deferred g) t && negb (bool_decide (t ∈ new));
  rel_length : length (deferred g') = length (deferred g);
  rel_rest : (indegree g', successors g', completed g', frontier g', released g', barrierOf g', abortDeps g')
           = (indegree g, successors g, completed g, frontier g, released g, barrierOf g, abortDeps g);
}.

Lemma releases_id g : releases g g [].
Proof. split; try done; [by rewrite app_nil_r|]. intros t Ht. by rewrite andb_true_r. Qed.

Lemma releases_trans g1 g2 g3 n1 n2 :
  releases g1 g2 n1 → releases g2 g3 n2 → releases g1 g3 (n1 ++ n2).
Proof.
  intros [R1 D1 L1 E1] [R2 D2 L2 E2]. split; [|..|congruence|congruence].
  - by rewrite R2, R1, app_assoc.
  - intros t Ht. rewrite D2, D1 by done.
    rewrite <- andb_assoc, <- negb_orb. f_equal. f_equal.
    repeat case_bool_decide; set_solver.
Qed.

Lemma release_spec g t :
  0 <= t < Z.of_nat (length (deferred g)) →
  ∃ g', release g t = Returns g' ∧ releases g g' (if flag (deferred g) t then [t] else []).
Proof.
  intros Ht. unfold release. rewrite at_flag by done. cbn.
  destruct (flag (deferred g) t) eqn:E; [|eexists; split; [done|apply releases_id]].
  rewrite set_index_in by done. cbn. eexists. split; [done|]. split; try done; cbn.
  - intros t' Ht'. rewrite flag_insert by done. case_decide as Hd.
    + subst. rewrite bool_decide_eq_true_2 by set_solver. by rewrite andb_false_r.
    + rewrite bool_decide_eq_false_2 by set_solver. by rewrite andb_true_r.
  - apply length_insert.
Qed.

(** The loop over the successors of a completed transaction. *)
Lemma complete_successors_spec ind g l :
  length ind = length (deferred g) →
  (∀ t, t ∈ l → 0 <= t < Z.of_nat (length ind) ∧ count t l <= counter ind t) →
  ∃ ind' g' new, complete_successors ind g l = Returns (ind', g') ∧ releases g g' new ∧
    length ind' = length ind ∧ (∀ t, 0 <= t → counter ind' t = counter ind t - count t l) ∧
    NoDup new ∧
    ∀ t, t ∈ new ↔ t ∈ l ∧ flag (deferred g) t = true ∧ counter ind t = count t l.
Proof.
  revert ind g; induction l as [|x l IH]; intros ind g Hlen Hl.
  { exists ind, g, []. split; [done|]. split; [apply releases_id|]. split; [done|].
    split; [intros; unfold count; simpl; lia|]. split; [constructor|]. set_solver. }
  destruct (Hl x ltac:(by left)) as [Hx Hcx]. rewrite count_cons, decide_True in Hcx by done.
  set (ind1 := <[Z.to_nat x := counter ind x - 1]> ind).
  assert (∀ t, 0 <= t → counter ind1 t = if decide (t = x) then counter ind x - 1 else counter ind t)
    as Hind1 by (intros; by apply counter_insert).
  assert (∃ g1, complete_successor ind g x = Returns (ind1, g1) ∧
    releases g g1 (if flag (deferred g) x && (counter ind x =? 1) then [x] else []))
    as (g1 & E1 & Hrel1).
  { unfold complete_successor. rewrite at_counter by done. cbn. rewrite set_index_in by done. cbn.
    destruct (counter ind x - 1 =? 0) eqn:E.
    - replace (counter ind x =? 1) with true by (symmetry; apply Z.eqb_eq; bool_lia).
      destruct (release_spec g x) as (g1 & E1 & H1); [by rewrite <- Hlen|].
      rewrite andb_true_r. exists g1. by rewrite E1.
    - replace (counter ind x =? 1) with false by (symmetry; apply Z.eqb_neq; bool_lia).
      rewrite andb_false_r. exists g. split; [done|apply releases_id]. }
  destruct (IH ind1 g1) as (ind2 & g2 & new & E2 & Hrel2 & Hlen2 & Hcnt & Hnd & Hnew).
  { unfold ind1. rewrite length_insert, (rel_length _ _ _ Hrel1). done. }
  { intros t Ht. unfold ind1 at 1. rewrite length_insert.
    destruct (Hl t ltac:(by right)) as [Ht1 Ht2]. split; [done|].
    rewrite Hind1 by lia. rewrite count_cons in Ht2. repeat case_decide; subst; try done; lia. }
  exists ind2, g2, ((if flag (deferred g) x && (counter ind x =? 1) then [x] else []) ++ new).
  split; [unfold complete_successors in *; cbn [foldM fst snd]; rewrite E1; cbn; exact E2|].
  split; [by eapply releases_trans|].
  split; [rewrite Hlen2; apply length_insert|].
  split. { intros t Ht. rewrite Hcnt, Hind1, count_cons by done. repeat case_decide; subst; try done; lia. }
  assert (flag (deferred g) x && (counter ind x =? 1) = true → x ∉ l) as Hxl.
  { intros [_ E%Z.eqb_eq]%andb_prop Hin%count_pos. lia. }
  assert (∀ t, t ∈ new ↔ t ∈ l ∧ flag (deferred g1) t = true ∧ counter ind1 t = count t l) as Hnew' by done.
  split.
  - apply NoDup_app. split; [destruct (_ && _); repeat constructor; set_solver|].
    split; [|done]. intros t Ht Htn. apply Hnew in Htn as (Htl & _).
    destruct (_ && _); [|by apply elem_of_nil in Ht]. apply list_elem_of_singleton in Ht as ->. by apply Hxl.
  - intros t. rewrite elem_of_app, Hnew, elem_of_cons, count_cons. split.
    + intros [Ht|(Htl & Hf & Hc)].
      * destruct (flag (deferred g) x && (counter ind x =? 1)) eqn:E; [|by apply elem_of_nil in Ht].
        apply list_elem_of_singleton in Ht as ->. apply andb_prop in E as [E1' E2'%Z.eqb_eq].
        split; [by left|]. split; [done|]. rewrite decide_True by done.
        specialize (Hxl eq_refl). pose proof (count_nonneg x l). lia.
      * assert (0 <= t) as H0 by (destruct (Hl t ltac:(by right)); lia).
        rewrite (rel_deferred _ _ _ Hrel1) in Hf by done. apply andb_prop in Hf as [Hf _].
        rewrite Hind1 in Hc by done. split; [by right|]. split; [done|].
        repeat case_decide; subst; try done; lia.
    + intros (Htl & Hf & Hc).
      destruct (decide (t ∈ l)) as [Hin|Hnin].
      * right. assert (0 <= t) as H0 by (destruct (Hl t ltac:(by right)); lia). split; [done|].
        rewrite Hind1, (rel_deferred _ _ _ Hrel1), Hf by done. cbn.
        pose proof (proj2 (count_pos t l) Hin). split.
        -- apply negb_true_iff, bool_decide_eq_false. destruct (flag (deferred g) x && _) eqn:E; [|set_solver].
           intros ->%list_elem_of_singleton. by apply Hxl.
        -- repeat case_decide; subst; try done; lia.
      * left. destruct Htl as [->|Hin]; [|done]. rewrite decide_True in Hc by done.
        pose proof (count_pos x l). pose proof (count_nonneg x l). rewrite Hf.
        replace (counter ind x =? 1) with true; [set_solver|].
        symmetry. apply Z.eqb_eq. assert (¬ 0 < count x l) by tauto. lia.
Qed.

(** The gate agrees with the declared predecessors [preds]. *)
Record gate_inv (preds : list (list Z)) (g : gate) (ind : list Z) : Prop := {
  gi_ind : indegree g = Some ind;
  gi_len : length ind = length preds ∧ length (deferred g) = length preds ∧
           length (completed g) = length preds ∧ length (successors g) = length preds;
  gi_succ : ∀ p, 0 <= p < Z.of_nat (length preds) → ∀ t, t ∈ list_at (successors g) p →
              0 <= t < Z.of_nat (length preds);
  gi_count : ∀ p t, 0 <= p < Z.of_nat (length preds) → 0 <= t < Z.of_nat (length preds) →
              count t (list_at (successors g) p) = count p (list_at preds t);
  gi_indeg : ∀ t, 0 <= t < Z.of_nat (length preds) →
    counter ind t = Z.of_nat (length (filter (λ p, flag (completed g) p = false) (list_at preds t)));
  gi_waiting : ∀ t, 0 <= t → flag (deferred g) t = true → counter ind t ≠ 0;
}.

Lemma filter_completed (c c' : Z → bool) txn l :
  c txn = false → (∀ p, p ∈ l → c' p = if decide (p = txn) then true else c p) →
  Z.of_nat (length (filter (λ p, c' p = false) l)) =
    Z.of_nat (length (filter (λ p, c p = false) l)) - count txn l.
Proof.
  intros Hc Hc'. induction l as [|p l IH]; [done|].
  rewrite !filter_cons, count_cons.
  assert (∀ q, q ∈ l → c' q = if decide (q = txn) then true else c q) as Hl by (intros; apply Hc'; by right).
  specialize (IH Hl). pose proof (Hc' p ltac:(by left)) as Hp.
  repeat case_decide; subst; simpl; try congruence; lia.
Qed.

(** All predecessors of [t] have completed. *)
Definition preds_completed (preds : list (list Z)) (c : list bool) (t : Z) : Prop :=
  ∀ p, p ∈ list_at preds t → flag c p = true.

Lemma no_filter_completed (c : list bool) l :
  length (filter (λ p, flag c p = false) l) = 0%nat ↔ ∀ p, p ∈ l → flag c p = true.
Proof.
  rewrite length_zero_iff_nil. split.
  - intros H p Hp. destruct (flag c p) eqn:E; [done|].
    assert (p ∈ filter (λ p, flag c p = false) l) as Hin by (by apply list_elem_of_filter).
    rewrite H in Hin. by apply elem_of_nil in Hin.
  - intros H. induction l as [|q l IH]; [done|].
    rewrite filter_cons_False by (rewrite H; [done|by left]). apply IH. intros; apply H; by right.
Qed.

Lemma complete_gate_spec preds g ind txn :
  gate_inv preds g ind → 0 <= txn < Z.of_nat (length preds) → flag (completed g) txn = false →
  ∃ g' ind' new, complete_gate g txn = Returns g' ∧ gate_inv preds g' ind' ∧
    completed g' = <[Z.to_nat txn := true]> (completed g) ∧
    ready g' = ready g ++ new ∧ NoDup new ∧
    (∀ t, t ∈ new ↔ flag (deferred g) t = true ∧ preds_completed preds (completed g') t ∧
                    txn ∈ list_at preds t ∧ 0 <= t) ∧
    (∀ t, 0 <= t → flag (deferred g') t = flag (deferred g) t && negb (bool_decide (t ∈ new))).
Proof.
  intros [Hind (L1 & L2 & L3 & L4) Hsucc Hcount Hdeg Hwait] Htxn Hc.
  unfold complete_gate. rewrite set_index_in by lia. cbn. rewrite Hind.
  set (c' := <[Z.to_nat txn := true]> (completed g)).
  destruct (at_index_in (successors g) txn ltac:(lia)) as [l Hl]. rewrite Hl. cbn.
  assert (list_at (successors g) txn = l) as El by (unfold list_at; by rewrite Hl).
  assert (∀ p, 0 <= p → flag c' p = if decide (p = txn) then true else flag (completed g) p) as Hc'
    by (intros; apply flag_insert; lia).
  assert (∀ t p, p ∈ list_at preds t → 0 <= t < Z.of_nat (length preds)) as Ht0.
  { intros t p Hp. unfold list_at in Hp. destruct (at_index preds t) as [lt|] eqn:E;
      [|by apply elem_of_nil in Hp].
    pose proof (at_index_nonneg _ _ _ E). apply at_index_lookup in E; [|done].
    apply lookup_lt_Some in E. lia. }
  assert (∀ t, 0 <= t < Z.of_nat (length preds) →
    Z.of_nat (length (filter (λ p, flag c' p = false) (list_at preds t))) =
    counter ind t - count t l) as Hnew_deg.
  { intros t Ht. rewrite Hdeg by done. rewrite <- El, Hcount by done.
    apply filter_completed; [done|]. intros p Hp. destruct (Z.lt_ge_cases p 0) as [Hneg|Hpos].
    - unfold flag, at_index. rewrite (proj2 (Z.leb_gt _ _)) by lia. by rewrite decide_False by lia.
    - by apply Hc'. }
  destruct (complete_successors_spec ind (set_completed c' g) l)
    as (ind' & g' & new & -> & [R1 R2 R3 R4] & HL & Hcnt & Hnd & Hnew); cbn.
  { congruence. }
  { intros t Ht. assert (0 <= t < Z.of_nat (length preds)) as Hr by (apply (Hsucc txn Htxn); by rewrite El).
    split; [lia|]. specialize (Hnew_deg t Hr). lia. }
  cbn in *. injection R4 as R4 R5 R6 R7 R8 R9 R10.
  eexists _, ind', new. split; [done|]. cbn. rewrite R6.
  assert (∀ t, t ∈ new ↔ flag (deferred g) t = true ∧ preds_completed preds c' t ∧
                    txn ∈ list_at preds t ∧ 0 <= t) as Hnew'.
  { intros t. rewrite Hnew. split.
    - intros (Htl & Hf & Hct).
      assert (0 <= t < Z.of_nat (length preds)) as Hr by (apply (Hsucc txn Htxn); by rewrite El).
      split; [done|]. split; [|split; [|lia]].
      + intros p Hp. apply (proj1 (no_filter_completed c' (list_at preds t))); [|done].
        specialize (Hnew_deg t Hr). lia.
      + apply count_pos. rewrite <- Hcount, El by done. by apply count_pos.
    - intros (Hf & Hp & Hin & H0). assert (0 <= t < Z.of_nat (length preds)) as Hr by eauto.
      split; [apply count_pos; rewrite <- El, Hcount by done; by apply count_pos|].
      split; [done|]. specialize (Hnew_deg t Hr).
      rewrite (proj2 (no_filter_completed c' (list_at preds t)) Hp) in Hnew_deg. lia. }
  split; [split; cbn|].
  - done.
  - rewrite R3, R5, R6. unfold c'. rewrite length_insert. repeat split; congruence.
  - by rewrite R5.
  - by rewrite R5.
  - intros t Ht. rewrite R6, Hcnt by lia. by rewrite Hnew_deg.
  - intros t Ht. rewrite R2 by done. intros [Hf Hn]%andb_prop.
    apply negb_true_iff, bool_decide_eq_false in Hn. rewrite Hcnt by done. intros Hz. apply Hn, Hnew.
    destruct (decide (0 < count t l)) as [Hpos%count_pos|Hz'].
    + split; [done|]. split; [done|lia].
    + pose proof (count_nonneg t l). specialize (Hwait t Ht Hf). lia.
  - split; [done|]. split; [done|]. split; [done|]. split; [done|]. done.
Qed.

(** C23: The ready-queue gate over declared predecessors is exact: completing a
    transaction marks it completed, and no other, and moves to the ready queue, once each, precisely the deferred
    transactions that have it as a predecessor and whose predecessors have now
    all completed; the others stay deferred; and the counters keep agreeing
    with the declared predecessors, so that a transaction passes the gate
    exactly when all its predecessors have completed. *)
Theorem complete_gate_exact preds g ind txn (p : KernelPolicy) :
  gate_inv preds g ind → Dispatch p = DispatchReadyQueue →
  0 <= txn < Z.of_nat (length preds) → flag (completed g) txn = false →
  ∃ g' ind' new, complete_gate g txn = Returns g' ∧ gate_inv preds g' ind' ∧
    completed g' = <[Z.to_nat txn := true]> (completed g) ∧ flag (completed g') txn = true ∧
    ready g' = ready g ++ new ∧ NoDup new ∧
    (∀ t, t ∈ new ↔ flag (deferred g) t = true ∧ preds_completed preds (completed g') t ∧
                    txn ∈ list_at preds t ∧ 0 <= t) ∧
    (∀ t, 0 <= t → flag (deferred g') t = flag (deferred g) t && negb (bool_decide (t ∈ new))) ∧
    (∀ t, 0 <= t < Z.of_nat (length preds) →
       ∃ b, gateReadyLocked p g' t = Returns b ∧
         (b = true ↔ preds_completed preds (completed g') t)).
Proof.
  intros Hinv Hp Htxn Hc.
  destruct (complete_gate_spec preds g ind txn Hinv Htxn Hc)
    as (g' & ind' & new & E & Hinv' & Hcomp & Hr & Hnd & Hnew & Hdef).
  exists g', ind', new. do 3 (split; [done|]).
  split. { destruct Hinv as [_ (L1 & L2 & L3 & L4) _ _ _ _]. rewrite Hcomp, flag_insert by lia. by rewrite decide_True. }
  do 4 (split; [done|]).
  intros t Ht. destruct Hinv' as [Hi (L & _) _ _ Hdeg _].
  unfold gateReadyLocked, is_ready_queue. rewrite bool_decide_eq_true_2 by done. cbn. rewrite Hi.
  rewrite at_counter by lia. cbn. eexists. split; [done|]. rewrite Hdeg by done.
  rewrite Z.eqb_eq. rewrite <- (no_filter_completed (completed g') (list_at preds t)).
  change 0 with (Z.of_nat 0). rewrite Nat2Z.inj_iff. done.
Qed.

(** ** The gate of the constructor *)

Lemma link_one txn l succ n :
  length succ = n → (∀ p, p ∈ l → 0 <= p < Z.of_nat n) →
  ∃ succ', foldM (λ succ p, append_at succ p txn) succ l = Returns succ' ∧ length succ' = n ∧
    ∀ p, 0 <= p → list_at succ' p = list_at succ p ++ replicate (Z.to_nat (count p l)) txn.
Proof.
  revert succ; induction l as [|q l IH]; intros succ Hn Hl; simpl.
  { exists succ. split; [done|]. split; [done|]. intros p Hp. by rewrite app_nil_r. }
  pose proof (Hl q ltac:(by left)) as Hq.
  destruct (at_index_in succ q ltac:(lia)) as [old Hold].
  assert (append_at succ q txn = Returns (<[Z.to_nat q := old ++ [txn]]> succ)) as ->
    by (unfold append_at; rewrite Hold; cbn; by rewrite set_index_in by lia).
  cbn.
  destruct (IH (<[Z.to_nat q := old ++ [txn]]> succ)) as (succ' & E & Hn' & Hs).
  { by rewrite length_insert. } { intros p Hp. apply Hl. by right. }
  exists succ'. split; [exact E|]. split; [done|]. intros p Hp. rewrite Hs by done.
  unfold list_at at 1. rewrite at_index_insert by lia. rewrite count_cons.
  pose proof (count_nonneg p l). destruct (decide (p = q)) as [->|Hne].
  - rewrite decide_True by done. unfold list_at. rewrite Hold. cbn.
    replace (Z.to_nat (1 + count q l)) with (S (Z.to_nat (count q l))) by lia.
    by rewrite <- app_assoc.
  - by rewrite decide_False.
Qed.

Lemma link_predecessors_spec preds txn ind succ n :
  length ind = n → length succ = n → 0 <= txn → txn + Z.of_nat (length preds) <= Z.of_nat n →
  (∀ l p, l ∈ preds → p ∈ l → 0 <= p < Z.of_nat n) →
  ∃ ind' succ', link_predecessors txn preds (ind, succ) = Returns (ind', succ') ∧
    length ind' = n ∧ length succ' = n ∧
    (∀ t, 0 <= t → counter ind' t =
       if decide (txn <= t < txn + Z.of_nat (length preds))
       then Z.of_nat (length (list_at preds (t - txn))) else counter ind t) ∧
    (∀ p t, 0 <= p → count t (list_at succ' p) =
       count t (list_at succ p) +
       if decide (txn <= t < txn + Z.of_nat (length preds)) then count p (list_at preds (t - txn)) else 0) ∧
    (∀ p t, 0 <= p → t ∈ list_at succ' p → t ∈ list_at succ p ∨ txn <= t < txn + Z.of_nat (length preds)).
Proof.
  revert txn ind succ; induction preds as [|l preds IH]; intros txn ind succ Hi Hs Htxn Hle Hl; simpl.
  { exists ind, succ. do 3 (split; [done|]). split; [|split].
    - intros t Ht. by rewrite decide_False by lia.
    - intros p t Hp. rewrite decide_False by lia. lia.
    - auto. }
  simpl in Hle. rewrite set_index_in by lia. cbn.
  destruct (link_one txn l succ n Hs) as (succ1 & E1 & Hs1 & Hsucc1).
  { intros p Hp. apply (Hl l); [by left|done]. }
  rewrite E1. cbn.
  destruct (IH (txn + 1) (<[Z.to_nat txn := Z.of_nat (length l)]> ind) succ1)
    as (ind' & succ' & E & L1 & L2 & Hind & Hcnt & Hin); [by rewrite length_insert|done|lia|lia| |].
  { intros l' p Hl' Hp. apply (Hl l'); [by right|done]. }
  assert (∀ t, txn < t → list_at (l :: preds) (t - txn) = list_at preds (t - (txn + 1))) as Hshift.
  { intros t Ht. unfold list_at, at_index.
    rewrite (proj2 (Z.leb_le _ _)), (proj2 (Z.leb_le 0 (t - (txn + 1)))) by lia.
    by replace (Z.to_nat (t - txn)) with (S (Z.to_nat (t - (txn + 1)))) by lia. }
  assert (list_at (l :: preds) (txn - txn) = l) as Hhead by (by rewrite Z.sub_diag).
  exists ind', succ'. split; [exact E|]. do 2 (split; [done|]). split; [|split].
  - intros t Ht. rewrite Hind by done. rewrite counter_insert by lia.
    destruct (decide (t = txn)) as [->|Hne].
    + rewrite Hhead. rewrite decide_False, decide_True by lia. done.
    + repeat case_decide; try lia; try done. by rewrite Hshift by lia.
  - intros p t Hp. rewrite Hcnt, Hsucc1, count_app by done.
    destruct (decide (t = txn)) as [->|Hne].
    + rewrite Hhead. rewrite decide_False, decide_True by lia.
      assert (∀ k, count txn (replicate k txn) = Z.of_nat k) as ->; [|pose proof (count_nonneg p l); lia].
      induction k as [|k IHk]; [done|]. simpl replicate. rewrite count_cons, decide_True by done. lia.
    + assert (count t (replicate (Z.to_nat (count p l)) txn) = 0) as ->.
      { pose proof (count_nonneg t (replicate (Z.to_nat (count p l)) txn)).
        destruct (decide (0 < count t (replicate (Z.to_nat (count p l)) txn))) as [Hpos%count_pos|]; [|lia].
        apply elem_of_replicate in Hpos as [-> _]. done. }
      repeat case_decide; try lia. rewrite Hshift by lia. lia.
  - intros p t Hp [Ht|Ht]%Hin; [|right; lia| done].
    rewrite Hsucc1 in Ht by done. apply elem_of_app in Ht as [Ht|[-> _]%elem_of_replicate]; [by left|right; lia].
Qed.

(** The constructor builds a gate that agrees with the declared
    predecessors: every edge of the policy, with its multiplicity, and no
    other; nothing is deferred, completed or ready. *)
Theorem new_gate_agrees preds blockSize (p : KernelPolicy) :
  Dispatch p = DispatchReadyQueue → Predecessors p = Some preds →
  validateGate p (Z.of_nat blockSize) = None →
  ∃ g ind, new_gate blockSize p = Returns g ∧ gate_inv preds g ind ∧ ready g = [] ∧
    ∀ t, flag (deferred g) t = false ∧ flag (completed g) t = false.
Proof.
  intros Hd Hp Hv.
  assert (length preds = blockSize) as Hn.
  { unfold validateGate in Hv. rewrite bool_decide_eq_true_2, Hp in Hv by done. cbn in Hv.
    destruct (_ =? _) eqn:E; [bool_lia|done]. }
  assert (∀ l q, l ∈ preds → q ∈ l → 0 <= q < Z.of_nat blockSize) as Hrange.
  { intros l q Hl Hq. apply list_elem_of_lookup in Hl as [i Hi].
    destruct (validateGate_lower p (Z.of_nat blockSize) (Z.of_nat i) q Hd Hv); [|lia].
    unfold gate_waits. rewrite Hp. exists l. split; [|done].
    rewrite at_index_lookup by lia. by rewrite Nat2Z.id. }
  destruct (link_predecessors_spec preds 0 (replicate blockSize 0) (replicate blockSize []) blockSize)
    as (ind & succ & E & L1 & L2 & Hind & Hcnt & Hin); rewrite ?length_replicate; try done; try lia.
  assert (∀ t, flag (replicate blockSize false) t = false) as Hflag.
  { intros t. unfold flag, at_index. destruct (0 <=? t); [|done].
    destruct (replicate blockSize false !! Z.to_nat t) eqn:F; [|done].
    by apply lookup_replicate in F as [-> _]. }
  assert (∀ q, list_at (replicate blockSize []) q = []) as Hnil.
  { intros q. unfold list_at, at_index. destruct (0 <=? q); [|done].
    destruct (replicate blockSize [] !! Z.to_nat q) eqn:F; [|done].
    by apply lookup_replicate in F as [-> _]. }
  unfold new_gate, is_ready_queue. rewrite bool_decide_eq_true_2, Hp by done. rewrite E. cbn.
  eexists _, ind. split; [done|]. split; [split; cbn|].
  - done.
  - rewrite !length_replicate. repeat split; congruence.
  - intros q Hq t Ht. apply Hin in Ht as [Ht|Ht]; [|lia|lia].
    rewrite Hnil in Ht. by apply elem_of_nil in Ht.
  - intros q t Hq Ht. rewrite Hcnt, Hnil, decide_True by lia. by rewrite Z.sub_0_r.
  - intros t Ht. rewrite Hind, decide_True by lia. rewrite Z.sub_0_r. f_equal. f_equal.
    symmetry. induction (list_at preds t) as [|q l IH]; [done|].
    by rewrite filter_cons_True, IH.
  - intros t _. by rewrite Hflag.
  - split; [done|]. intros t. cbn. by rewrite !Hflag.
Qed.

(** The gate of [gate_policy], its last transaction deferred. *)
Definition gate3 : gate :=
  match new_gate 3 gate_policy with
  | Returns g => match deferLocked gate_policy g 2 with Returns g' => g' | _ => g end
  | _ => MkGate [] None [] [] [] 0 0 ∅ []
  end.

Lemma new_gate_agrees_witness :
  ∃ g ind, new_gate 3 gate_policy = Returns g ∧ gate_inv [[]; []; [0]] g ind ∧ ready g = [].
Proof.
  destruct (new_gate_agrees [[]; []; [0]] 3 gate_policy) as (g & ind & E & H & Hr & _);
    [done|done|vm_compute; reflexivity|eauto].
Defined.

Lemma gate3_inv : gate_inv [[]; []; [0]] gate3 [0; 0; 1].
Proof.
  assert (∀ t : Z, 0 <= t < 3 → t = 0 ∨ t = 1 ∨ t = 2) as H3 by lia.
  split; cbn; try done.
  - intros p [->|[->| ->]]%H3 t Ht; vm_compute in Ht; [|by apply elem_of_nil in Ht..].
    apply list_elem_of_singleton in Ht as ->. lia.
  - intros p t [->|[->| ->]]%H3 [->|[->| ->]]%H3; vm_compute; reflexivity.
  - intros t [->|[->| ->]]%H3; vm_compute; reflexivity.
  - intros t Ht. unfold flag, at_index. rewrite (proj2 (Z.leb_le _ _) Ht).
    destruct (Z.to_nat t) as [|[|[|n]]] eqn:E; cbn; try done. intros _.
    assert (t = 2) as -> by lia. done.
Qed.

Lemma complete_gate_exact_witness :
  ∃ g', complete_gate gate3 0 = Returns g' ∧ flag (completed gate3) 0 = false ∧ flag (completed g') 0 = true ∧ ready g' = [2].
Proof.
  destruct (complete_gate_exact [[]; []; [0]] gate3 [0; 0; 1] 0 gate_policy gate3_inv)
    as (g' & ind' & new & E & _ & _ & Hc & Hr & _); [done|cbn; lia|done|].
  exists g'. split; [done|]. split; [done|]. split; [done|]. vm_compute in E. injection E as <-. reflexivity.
Defined.
