(* ===== verification/WorkerPool.v ===== *)
(** * execpolicyexec.go: the worker pool

    Every method is one critical section of the pool's mutex; a nil pool is
    [None].  [onPark] answers whether the caller has to spawn a worker. *)

From Stdlib Require Import ZArith Lia.
From S2P Require Import Prelude.
Local Open Scope Z_scope.

Record workerPool := MkPool {
  target : Z;
  wp_limit : Z;
  spawned : Z;
  parked : Z;
  wp_peak : Z;
  (** [spawn != nil] *)
  has_spawn : bool;
}.

Definition newWorkerPool (executors blockSize : Z) : workerPool :=
  MkPool executors (executors + blockSize) executors 0 executors false.

Definition set_spawn (p : workerPool) : workerPool :=
  MkPool (target p) (wp_limit p) (spawned p) (parked p) (wp_peak p) true.

Definition runnable (p : workerPool) : Z := spawned p - parked p.

Definition observeLocked (p : workerPool) : workerPool :=
  if wp_peak p <? runnable p
  then MkPool (target p) (wp_limit p) (spawned p) (parked p) (runnable p) (has_spawn p)
  else p.

Definition onPark (pool : option workerPool) : option workerPool * bool :=
  match pool with
  | None => (None, false)
  | Some p =>
      let p := MkPool (target p) (wp_limit p) (spawned p) (parked p + 1) (wp_peak p) (has_spawn p) in
      let needed := (spawned p - parked p <? target p) && (spawned p <? wp_limit p) in
      let p :=
        if needed then MkPool (target p) (wp_limit p) (spawned p + 1) (parked p) (wp_peak p) (has_spawn p)
        else p in
      (Some (observeLocked p), needed && has_spawn p)
  end.

Definition onUnpark (pool : option workerPool) : option workerPool :=
  match pool with
  | None => None
  | Some p =>
      Some (observeLocked
        (MkPool (target p) (wp_limit p) (spawned p) (parked p - 1) (wp_peak p) (has_spawn p)))
  end.

Definition retire (pool : option workerPool) : option workerPool * bool :=
  match pool with
  | None => (None, false)
  | Some p =>
      if spawned p - parked p <=? target p then (Some p, false)
      else (Some (MkPool (target p) (wp_limit p) (spawned p - 1) (parked p) (wp_peak p) (has_spawn p)), true)
  end.

Definition peakRunnable (pool : option workerPool) : Z :=
  match pool with None => 0 | Some p => u64 (wp_peak p) end.

(** The workers that exist: the pool's bookkeeping of what [spawn] started
    and what exited.  Parked workers wait for distinct transactions, so at
    most [blockSize] of them exist. *)
Inductive pool_event (blockSize : Z) : workerPool → workerPool → Prop :=
| ev_park p p' b :
    parked p < spawned p → parked p < blockSize → onPark (Some p) = (Some p', b) →
    pool_event blockSize p p'
| ev_unpark p p' : 0 < parked p → onUnpark (Some p) = Some p' → pool_event blockSize p p'
| ev_retire p p' b : retire (Some p) = (Some p', b) → pool_event blockSize p p'.

Record pool_inv (executors blockSize : Z) (p : workerPool) : Prop := {
  pi_target : target p = executors;
  pi_limit : wp_limit p = executors + blockSize;
  pi_parked : 0 <= parked p <= blockSize;
  pi_spawned : spawned p <= wp_limit p;
  pi_runnable : target p <= runnable p <= wp_peak p;
}.

Lemma observe_inv executors blockSize p :
  target p = executors → wp_limit p = executors + blockSize → 0 <= parked p <= blockSize →
  spawned p <= wp_limit p → target p <= runnable p →
  pool_inv executors blockSize (observeLocked p).
Proof.
  intros. unfold observeLocked. destruct (wp_peak p <? runnable p) eqn:E; split; cbn; try done;
    unfold runnable in *; cbn in *; bool_lia.
Qed.

Lemma pool_inv_event executors blockSize p p' :
  pool_inv executors blockSize p → pool_event blockSize p p' → pool_inv executors blockSize p'.
Proof.
  intros [H1 H2 H3 H4 H5] Hev. unfold runnable in *.
  destruct Hev as [p p' b Hs Hb He|p p' Hp He|p p' b He]; unfold onPark, onUnpark, retire in He; cbn in He.
  - injection He as <- <-.
    destruct (spawned p - (parked p + 1) <? target p) eqn:E1, (spawned p <? wp_limit p) eqn:E2; cbn;
      apply observe_inv; unfold runnable; cbn; try done; bool_lia.
  - injection He as <-. apply observe_inv; unfold runnable; cbn; try done; lia.
  - destruct (spawned p - parked p <=? target p) eqn:E; injection He as <- <-;
      split; unfold runnable; cbn; try done; bool_lia.
Qed.

(** Whatever the order in which workers park, resume and retire, the pool
    never has fewer than the configured number of workers that can make
    progress, never creates more than [executors + blockSize], reports a peak
    that is never below the current number, and retires a worker only when
    more than the configured number can run. *)
Lemma workerPool_keeps_target executors blockSize p :
  0 <= blockSize → rtc (pool_event blockSize) (newWorkerPool executors blockSize) p →
  executors <= runnable p ∧ spawned p <= executors + blockSize ∧ runnable p <= wp_peak p ∧
  ∀ p', retire (Some p) = (Some p', true) → executors <= runnable p'.
Proof.
  intros Hb Hr.
  assert (pool_inv executors blockSize (newWorkerPool executors blockSize)) as H0
    by (split; unfold runnable; cbn; lia).
  assert (pool_inv executors blockSize p) as Hinv.
  { clear Hb. induction Hr as [|x y z Hxy _ IH]; [done|]. eauto using pool_inv_event. }
  assert (∀ p', retire (Some p) = (Some p', true) → pool_inv executors blockSize p') as Hret.
  { intros p' Hp'. eapply pool_inv_event; [done|]. by eapply ev_retire. }
  destruct Hinv as [H1 H2 H3 H4 H5]. repeat split; try lia.
  intros p' Hp'. destruct (Hret p' Hp') as [K1 _ _ _ K5]. lia.
Qed.

Lemma workerPool_keeps_target_witness :
  ∃ p, onPark (Some (newWorkerPool 2 3)) = (Some p, false) ∧ spawned p = 3 ∧ 2 <= runnable p.
Proof.
  eexists. split; [vm_compute; reflexivity|]. split; [done|].
  refine (proj1 (workerPool_keeps_target 2 3 _ _ _)); [lia|]. eapply rtc_l; [|apply rtc_refl].
  eapply ev_park; [cbn; lia..|vm_compute; reflexivity].
Defined.
