(* ===== verification/PolicySched.v ===== *)
(** * execpolicysched.go, execpolicyview.go, execpolicyexec.go: the policy scheduler

    Programs over the base scheduler, the gate, the optional admission window
    and the mutex that protects the last two. *)

From Stdlib Require Import ZArith Lia String.
From S2P Require Import Prelude Utils Types Status Prog Scheduler Admission KernelPolicy PolicyGate WorkerPool.
Local Open Scope Z_scope.

Record policy_counters := MkCounters {
  estimateSuspends : Z;
  estimateSuspendNS : Z;
  estimateAborts : Z;
  deferrals : Z;
  workerYields : Z;
  idleParks : Z;
  readyDispatches : Z;
}.

Record policyScheduler := MkPolicySched {
  ps_base : Scheduler;
  ps_policy : KernelPolicy;
  ps_mu : bool;
  ps_wake : nat;
  ps_admission : option admissionWindow;
  ps_gate : gate;
  ps_counters : policy_counters;
  (** the pool of execpolicyexec.go, shared by the executors *)
  ps_pool : option workerPool;
}.

Definition newPolicyScheduler (blockSize : nat) (policy : KernelPolicy) : outcome policyScheduler :=
  g ← new_gate blockSize policy;
  Returns (MkPolicySched (NewScheduler blockSize) policy false 0 None g
             (MkCounters 0 0 0 0 0 0 0) None).

Definition ps_put_base (b : Scheduler) (s : policyScheduler) : policyScheduler :=
  MkPolicySched b (ps_policy s) (ps_mu s) (ps_wake s) (ps_admission s) (ps_gate s) (ps_counters s) (ps_pool s).
Definition ps_put_mu (b : bool) (s : policyScheduler) : policyScheduler :=
  MkPolicySched (ps_base s) (ps_policy s) b (ps_wake s) (ps_admission s) (ps_gate s) (ps_counters s) (ps_pool s).
Definition ps_put_gate (g : gate) (s : policyScheduler) : policyScheduler :=
  MkPolicySched (ps_base s) (ps_policy s) (ps_mu s) (ps_wake s) (ps_admission s) g (ps_counters s) (ps_pool s).
Definition ps_put_admission (w : option admissionWindow) (s : policyScheduler) : policyScheduler :=
  MkPolicySched (ps_base s) (ps_policy s) (ps_mu s) (ps_wake s) w (ps_gate s) (ps_counters s) (ps_pool s).
Definition ps_put_counters (c : policy_counters) (s : policyScheduler) : policyScheduler :=
  MkPolicySched (ps_base s) (ps_policy s) (ps_mu s) (ps_wake s) (ps_admission s) (ps_gate s) c (ps_pool s).
Definition ps_put_pool (p : option workerPool) (s : policyScheduler) : policyScheduler :=
  MkPolicySched (ps_base s) (ps_policy s) (ps_mu s) (ps_wake s) (ps_admission s) (ps_gate s) (ps_counters s) p.

Definition psp := prog policyScheduler.

Definition ps_on_base {A} (p : prog Scheduler A) : psp A := lift ps_base ps_put_base p.

Definition ps_Lock : psp unit :=
  atomic (λ s, if ps_mu s then Waits else Returns (ps_put_mu true s, tt)).
Definition ps_Unlock : psp unit := modify (ps_put_mu false).

Definition ps_notifyLocked : psp unit :=
  modify (λ s, MkPolicySched (ps_base s) (ps_policy s) (ps_mu s) (S (ps_wake s)) (ps_admission s)
                 (ps_gate s) (ps_counters s) (ps_pool s)).

Definition on_gate {X} (f : KernelPolicy → gate → outcome (gate * X)) : psp X :=
  atomic (λ s, '(g, x) ← f (ps_policy s) (ps_gate s); Returns (ps_put_gate g s, x)).

Definition on_gate_unit (f : KernelPolicy → gate → outcome gate) : psp unit :=
  on_gate (λ p g, g' ← f p g; Returns (g', tt)).

(** [s.admission]: a nil window panics when used. *)
Definition on_admission {X} (f : admissionWindow → outcome (admissionWindow * X)) : psp X :=
  atomic (λ s, w ← deref (ps_admission s); '(w', x) ← f w; Returns (ps_put_admission (Some w') s, x)).

Definition count_event (f : policy_counters → policy_counters) : psp unit :=
  modify (λ s, ps_put_counters (f (ps_counters s)) s).

Definition add_suspend (ns : Z) (c : policy_counters) : policy_counters :=
  MkCounters (u64 (estimateSuspends c + 1)) (u64 (estimateSuspendNS c + ns)) (estimateAborts c)
    (deferrals c) (workerYields c) (idleParks c) (readyDispatches c).
Definition add_abort (c : policy_counters) : policy_counters :=
  MkCounters (estimateSuspends c) (estimateSuspendNS c) (u64 (estimateAborts c + 1))
    (deferrals c) (workerYields c) (idleParks c) (readyDispatches c).
Definition add_deferral (c : policy_counters) : policy_counters :=
  MkCounters (estimateSuspends c) (estimateSuspendNS c) (estimateAborts c)
    (u64 (deferrals c + 1)) (workerYields c) (idleParks c) (readyDispatches c).
Definition add_yield (c : policy_counters) : policy_counters :=
  MkCounters (estimateSuspends c) (estimateSuspendNS c) (estimateAborts c)
    (deferrals c) (u64 (workerYields c + 1)) (idleParks c) (readyDispatches c).
Definition add_park (c : policy_counters) : policy_counters :=
  MkCounters (estimateSuspends c) (estimateSuspendNS c) (estimateAborts c)
    (deferrals c) (workerYields c) (u64 (idleParks c + 1)) (readyDispatches c).
Definition add_dispatch (c : policy_counters) : policy_counters :=
  MkCounters (estimateSuspends c) (estimateSuspendNS c) (estimateAborts c)
    (deferrals c) (workerYields c) (idleParks c) (u64 (readyDispatches c + 1)).

Local Open Scope prog_scope.

Definition ps_notify : psp unit := ps_Lock ;; ps_notifyLocked ;; ps_Unlock.

Definition checkDone : psp unit :=
  ps_on_base CheckDone ;;
  d ⇐ ps_on_base Done;
  if (d : bool) then ps_notify else Ret tt.

Definition ps_popReady : psp (option Z) :=
  ps_Lock ;;
  r ⇐ on_gate (λ _ g, Returns (popReady g));
  ps_Unlock ;;
  Ret r.

Definition completeExecution (txn : Z) : psp unit :=
  ps_Lock ;;
  on_gate_unit (λ p g, completeExecution_locked p g txn) ;;
  ps_notifyLocked ;;
  ps_Unlock.

Definition blockingResolved (blocking : Z) : psp bool :=
  '(ok, _) ⇐ ps_on_base (check_executed blocking); Ret ok.

Definition registerAbort (txn blocking : Z) : psp unit :=
  ps_Lock ;;
  count_event add_abort ;;
  ps_on_base (on_status txn (λ e, Returns (setStatus e StatusAborting, tt))) ;;
  ps_on_base (on_status txn (λ e, Returns (SetReadyStatus e, tt))) ;;
  '(ok, _) ⇐ ps_on_base (check_executed blocking);
  on_gate_unit (λ _ g, registerAbort_locked ok g txn blocking) ;;
  (if (ok : bool) then ps_notifyLocked else Ret tt) ;;
  ps_Unlock.

Definition scanWork : psp (bool * bool) :=
  size ⇐ load (λ s, u64 (block_size (ps_base s)));
  validationIdx ⇐ load (λ s, validation_idx (ps_base s));
  executionIdx ⇐ load (λ s, execution_idx (ps_base s));
  Ret ((validationIdx <? executionIdx) && (validationIdx <? size), executionIdx <? size).

Definition nextVersionToValidate : psp TxnVersion :=
  admission ⇐ load ps_admission;
  match admission with
  | Some _ =>
      ps_Lock ;;
      version ⇐ ps_on_base NextVersionToValidate;
      ps_Unlock ;;
      d ⇐ ps_on_base Done;
      (if (d : bool) then ps_notify else Ret tt) ;;
      Ret version
  | None =>
      v ⇐ load (λ s, validation_idx (ps_base s));
      size ⇐ load (λ s, u64 (block_size (ps_base s)));
      if size <=? v then checkDone ;; Ret InvalidTxnVersion
      else
        ps_on_base incr_active ;;
        idx ⇐ ps_on_base fetch_validation_idx;
        if idx <? size then
          '(ok, incarnation) ⇐ ps_on_base (check_executed idx);
          if (ok : bool) then Ret (MkVersion (i64 idx) incarnation)
          else ps_on_base decr_active ;; Ret InvalidTxnVersion
        else ps_on_base decr_active ;; Ret InvalidTxnVersion
  end.

(** The dispatch of an index that was just fetched. *)
Definition dispatch_index (idx : Z) : psp TxnVersion :=
  size ⇐ load (λ s, block_size (ps_base s));
  if size <=? idx then ps_on_base decr_active ;; Ret InvalidTxnVersion
  else
    policy ⇐ load ps_policy;
    gated ⇐ (if is_ready_queue policy then
               ps_Lock ;;
               ok ⇐ on_gate (λ p g, (b ← gateReadyLocked p g idx; Returns (g, b))%stdpp);
               if (ok : bool) then ps_Unlock ;; Ret false
               else
                 on_gate_unit (λ p g, deferLocked p g idx) ;;
                 count_event add_deferral ;;
                 ps_Unlock ;;
                 Ret true
             else Ret false);
    (* the reservation of a deferred transaction is retained *)
    if (gated : bool) then Ret InvalidTxnVersion
    else
      '(incarnation, started) ⇐ ps_on_base (on_status idx (λ e, Returns (TrySetExecuting e)));
      if (started : bool) then Ret (MkVersion idx incarnation)
      else ps_on_base decr_active ;; Ret InvalidTxnVersion.

Definition nextVersionToExecute : psp TxnVersion :=
  e ⇐ load (λ s, execution_idx (ps_base s));
  size ⇐ load (λ s, u64 (block_size (ps_base s)));
  if size <=? e then checkDone ;; Ret InvalidTxnVersion
  else
    admission ⇐ load ps_admission;
    match admission with
    | Some _ =>
        ps_Lock ;;
        next ⇐ load (λ s, i64 (execution_idx (ps_base s)));
        size ⇐ load (λ s, block_size (ps_base s));
        ok ⇐ (if size <=? next then Ret false
              else on_admission (λ w, Returns (admit_txn w next)));
        if (ok : bool) then
          ps_on_base incr_active ;;
          idx ⇐ ps_on_base fetch_execution_idx;
          ps_Unlock ;;
          dispatch_index (i64 idx)
        else ps_Unlock ;; Ret InvalidTxnVersion
    | None =>
        ps_on_base incr_active ;;
        idx ⇐ ps_on_base fetch_execution_idx;
        dispatch_index (i64 idx)
    end.

Definition ps_nextTask : psp (TxnVersion * TaskKind) :=
  popped ⇐ ps_popReady;
  match popped with
  | Some txn =>
      '(incarnation, started) ⇐ ps_on_base (on_status txn (λ e, Returns (TrySetExecuting e)));
      if (started : bool) then
        count_event add_dispatch ;;
        Ret (MkVersion txn incarnation, TaskKindExecution)
      else ps_on_base decr_active ;; Ret (InvalidTxnVersion, TaskKindExecution)
  | None =>
      '(validate, _) ⇐ scanWork;
      if (validate : bool) then version ⇐ nextVersionToValidate; Ret (version, TaskKindValidation)
      else version ⇐ nextVersionToExecute; Ret (version, TaskKindExecution)
  end.

Definition ps_invalidateFrom (first : Z) : psp unit :=
  admitted ⇐ load (λ s, i64 (execution_idx (ps_base s)));
  on_admission (λ w, (w' ← invalidateFrom w first admitted; Returns (w', tt))%stdpp).

Definition ps_finishExecution (version : TxnVersion) (wroteNewPath : bool) :
    psp (TxnVersion * TaskKind) :=
  admission ⇐ load ps_admission;
  (if is_nil admission then Ret tt
   else
     ps_Lock ;;
     if wroteNewPath then
       v ⇐ load (λ s, validation_idx (ps_base s));
       if u64 (Index version) <? v then ps_invalidateFrom (Index version) else Ret tt
     else Ret tt) ;;
  t ⇐ ps_on_base (FinishExecution version wroteNewPath);
  (if is_nil admission then Ret tt else ps_Unlock) ;;
  completeExecution (Index version) ;;
  Ret t.

Definition ps_validationToken (txn : Z) : psp Z :=
  admission ⇐ load ps_admission;
  if is_nil admission then Ret 0
  else
    ps_Lock ;;
    token ⇐ on_admission (λ w, (e ← deref (at_index (epoch w) txn); Returns (w, e))%stdpp);
    ps_Unlock ;;
    Ret token.

Definition ps_finishValidation (version : TxnVersion) (valid aborted : bool) (token : Z) :
    psp (TxnVersion * TaskKind) :=
  admission ⇐ load ps_admission;
  if is_nil admission then
    t ⇐ ps_on_base (FinishValidation (Index version) aborted);
    ps_notify ;;
    Ret t
  else
    ps_Lock ;;
    (if aborted then ps_invalidateFrom (Index version) else Ret tt) ;;
    t ⇐ ps_on_base (FinishValidation (Index version) aborted);
    (if valid && negb aborted then
       '(executed, incarnation) ⇐ ps_on_base (check_executed (Index version));
       if (executed : bool) && (incarnation =? Incarnation version) then
         on_admission (λ w, (r ← pass w (Index version) token; Returns (r.1, tt))%stdpp)
       else Ret tt
     else Ret tt) ;;
    ps_notifyLocked ;;
    ps_Unlock ;;
    Ret t.

(** The park ends with the context, the wake channel or the timer, so it is
    never stuck; [stall] is the time it took. *)
Definition idleWait (stall : Z) : psp unit :=
  policy ⇐ load ps_policy;
  admission ⇐ load ps_admission;
  if bool_decide (IdleWait policy = IdleWaitGosched) && is_nil admission then Ret tt
  else
    ps_Lock ;;
    d ⇐ ps_on_base Done;
    if (d : bool) then ps_Unlock
    else
      '(validate, execute) ⇐ scanWork;
      windowBlocked ⇐ (if (execute : bool) && negb (is_nil admission) then
                         next ⇐ load (λ s, i64 (execution_idx (ps_base s)));
                         on_admission (λ w, Returns (w, negb (allows w next)))
                       else Ret false);
      queue ⇐ load (λ s, ready (ps_gate s));
      if (validate : bool) || ((execute : bool) && negb windowBlocked) || bool_decide (queue ≠ [])
      then ps_Unlock
      else
        ps_Unlock ;;
        (if bool_decide (IdleWait policy = IdleWaitGosched) then Ret tt else count_event add_park) ;;
        if (windowBlocked : bool)
        then on_admission (λ w, Returns (recordStall stall w, tt))
        else Ret tt.

Definition ps_speculationStats : psp SpeculationStats :=
  admission ⇐ load ps_admission;
  if is_nil admission then
    size ⇐ load (λ s, u64 (block_size (ps_base s)));
    Ret (MkSpeculationStats size false false 0 0 0)
  else
    ps_Lock ;;
    st ⇐ on_admission (λ w, Returns (w, window_stats w));
    ps_Unlock ;;
    Ret st.

(** ** Reads that run into an estimate *)

(** [onEstimateRead] either returns, so that the read is tried again, or
    panics with an [estimateAbort], which [runTransaction] recovers. *)
Inductive estimate_response :=
| Reread
| EstimateAbort (blocking : Z).

Definition on_pool {X} (f : option workerPool → option workerPool * X) : psp X :=
  atomic (λ s, let '(p, x) := f (ps_pool s) in Returns (ps_put_pool p s, x)).

(** [wait] is the time the wait took. *)
Definition onEstimateRead (txn blocking wait : Z) : psp estimate_response :=
  policy ⇐ load ps_policy;
  if decide (EstimateRead policy = EstimateReadAbortReschedule) then
    resolved ⇐ blockingResolved blocking;
    if (resolved : bool) then Ret Reread else Ret (EstimateAbort blocking)
  else
    cond ⇐ ps_on_base (WaitForDependency txn blocking);
    match cond with
    | None => Ret Reread
    | Some c =>
        let yield := bool_decide (EstimateRead policy = EstimateReadSuspendYieldWorker) in
        (if yield then on_pool onPark ;; count_event add_yield else Ret tt) ;;
        ps_on_base (wait_cond c) ;;
        count_event (add_suspend wait) ;;
        (if yield then on_pool (λ p, (onUnpark p, tt)) else Ret tt) ;;
        Ret Reread
    end.

(** The reads of a transaction that find an estimate, in order. *)
Fixpoint runTransaction (txn : Z) (reads : list (Z * Z)) : psp (option Z) :=
  match reads with
  | [] => Ret None
  | (blocking, wait) :: reads =>
      r ⇐ onEstimateRead txn blocking wait;
      match r with
      | Reread => runTransaction txn reads
      | EstimateAbort b => Ret (Some b)
      end
  end.

Definition iterationSupported (p : KernelPolicy) : bool :=
  bool_decide (EstimateRead p = EstimateReadSuspendInPlace).

(** ** The executor *)

Definition ps_tryExecute (reads : list (Z * Z)) (wroteNewLocation : bool) (version : TxnVersion) :
    psp (TxnVersion * TaskKind) :=
  ps_on_base (modify (λ s, set_stats (i64 (executedTxns s + 1)) (validatedTxns s) s)) ;;
  aborted ⇐ runTransaction (Index version) reads;
  match aborted with
  | Some blocking =>
      registerAbort (Index version) blocking ;;
      Ret (InvalidTxnVersion, TaskKindExecution)
  | None => ps_finishExecution version wroteNewLocation
  end.

Definition ps_needsReexecution (valid : bool) (version : TxnVersion) : psp (TxnVersion * TaskKind) :=
  ps_on_base (modify (λ s, set_stats (executedTxns s) (i64 (validatedTxns s + 1)) s)) ;;
  token ⇐ ps_validationToken (Index version);
  aborted ⇐ (if valid then Ret false else ps_on_base (try_validation_abort version));
  ps_finishValidation version valid aborted token.

(** One round of [policyExecutor.run]; [None] leaves the loop. *)
Definition policy_round (a : answers) (reads : list (Z * Z)) (stall : Z) (version : TxnVersion)
    (kind : TaskKind) : psp (option (TxnVersion * TaskKind)) :=
  d ⇐ ps_on_base Done;
  if (d : bool) then Ret None
  else if negb (version_Valid version) then
    if ans_cancelled a then Ret None
    else
      leave ⇐ on_pool retire;
      if (leave : bool) then Ret None
      else
        '(v, k) ⇐ ps_nextTask;
        (if negb (version_Valid v) then idleWait stall else Ret tt) ;;
        Ret (Some (v, k))
  else
    t ⇐ match kind with
        | TaskKindExecution => ps_tryExecute reads (ans_wroteNewLocation a) version
        | TaskKindValidation => ps_needsReexecution (ans_valid a) version
        end;
    Ret (Some t).
Close Scope prog_scope.

(** ** Rescheduling after an estimate abort *)

Lemma run_ps_base {A B} (p : prog Scheduler A) (k : A → psp B) s :
  run (pbind (ps_on_base p) k) s = '(b, a) ← run p (ps_base s); run (k a) (ps_put_base b s).
Proof.
  rewrite run_bind. unfold ps_on_base. rewrite run_lift; [|done|done|by intros []].
  by destruct (run p (ps_base s)) as [[b a]| |].
Qed.

Lemma run_status {X} txn (f : StatusEntry → outcome (StatusEntry * X)) s e' x :
  0 <= txn < Z.of_nat (length (txn_status s)) → f (entry_at s txn) = Returns (e', x) →
  run (on_status txn f) s = Returns (with_entry txn e' s, x).
Proof.
  intros Ht Hf. pose proof (run_on_status txn f Ret s e' x Ht Hf) as H.
  rewrite run_bind in H. cbn [run] in H.
  destruct (run (on_status txn f) s) as [[s' y]| |]; cbn in H; [congruence|done..].
Qed.

Lemma foldM_release_keeps l g g' :
  foldM release g l = Returns g' → (∃ new, ready g' = ready g ++ new) ∧ abortDeps g' = abortDeps g ∧
    barrierOf g' = barrierOf g ∧ released g' = released g ∧ frontier g' = frontier g.
Proof.
  revert g; induction l as [|x l IH]; intros g; simpl.
  - intros [= <-]. split; [exists []; by rewrite app_nil_r|done].
  - destruct (release g x) as [g1| |] eqn:E; cbn; [|done..]. intros H.
    assert ((∃ new, ready g1 = ready g ++ new) ∧ abortDeps g1 = abortDeps g ∧
      barrierOf g1 = barrierOf g ∧ released g1 = released g ∧ frontier g1 = frontier g) as ([n1 E1] & E2 & E3 & E4 & E5).
    { unfold release in E. destruct (at_index _ _) as [[]|]; cbn in E; [|by injection E as <-; split; [exists []; by rewrite app_nil_r|]|done].
      destruct (set_index _ _ _); [|done]. cbn in E. injection E as <-. split; [by eexists|done]. }
    destruct (IH g1 H) as ([n2 F1] & F2 & F3 & F4 & F5).
    split; [|repeat split; congruence]. exists (n1 ++ n2). by rewrite F1, E1, app_assoc.
Qed.

Lemma release_barriers_ready n g g' :
  release_barriers n g = Returns g' → ∃ new, ready g' = ready g ++ new.
Proof.
  revert g; induction n as [|n IH]; intros g; cbn; [intros [= <-]; exists []; by rewrite app_nil_r|].
  destruct (foldM release g _) as [g1| |] eqn:E; cbn; [|done..]. intros H%IH.
  apply foldM_release_keeps in E as ([n1 E1] & _). destruct H as [n2 H]. cbn in H.
  exists (n1 ++ n2). by rewrite H, E1, app_assoc.
Qed.

Lemma complete_successors_ready ind g l ind' g' :
  complete_successors ind g l = Returns (ind', g') → ∃ new, ready g' = ready g ++ new.
Proof.
  revert ind g; induction l as [|x l IH]; intros ind g; cbn.
  { intros [= <- <-]. exists []. by rewrite app_nil_r. }
  destruct (complete_successor ind g x) as [[i1 g1]| |] eqn:E; cbn; [|done..].
  intros H%IH. unfold complete_successor in E.
  destruct (at_index ind x) as [d|]; cbn in E; [|done].
  destruct (set_index ind x (d - 1)) as [i2|]; cbn in E; [|done].
  destruct (d - 1 =? 0); cbn in E; [|by injection E as <- <-].
  destruct (release g x) as [g2| |] eqn:E2; cbn in E; [|done..]. injection E as <- <-.
  assert (foldM release g [x] = Returns g2) as E' by (cbn; by rewrite E2).
  apply foldM_release_keeps in E' as ([n1 E1] & _). destruct H as [n2 H].
  exists (n1 ++ n2). by rewrite H, E1, app_assoc.
Qed.

(** Completing a transaction only appends to the ready queue. *)
Lemma complete_gate_ready g txn g' :
  complete_gate g txn = Returns g' → ∃ new, ready g' = ready g ++ new.
Proof.
  unfold complete_gate. destruct (set_index (completed g) txn true); cbn; [|done].
  destruct (indegree g) as [ind|]; cbn.
  - destruct (at_index (successors g) txn); cbn; [|done].
    destruct (complete_successors ind _ _) as [[i1 g1]| |] eqn:E; cbn; [|done..].
    intros [= <-]. by apply complete_successors_ready in E.
  - intros H. by apply release_barriers_ready in H.
Qed.

(** What holds of the scheduler between two critical sections. *)
Record policy_wf (s : policyScheduler) : Prop := {
  pw_mu : ps_mu s = false;
  pw_status : Z.of_nat (length (txn_status (ps_base s))) = block_size (ps_base s);
  pw_abort : Z.of_nat (length (abortDeps (ps_gate s))) = block_size (ps_base s);
}.

(** A transaction whose incarnation was discarded because of an ESTIMATE of
    [blocking] is dispatched again: [registerAbort] makes it ready in its next
    incarnation and, if [blocking] has executed meanwhile, puts it on the ready
    queue at once; otherwise it is on the queue as soon as the completion of
    [blocking] has run, so no dependency is lost. *)
Lemma abort_rescheduled s txn blocking :
  policy_wf s → 0 <= blocking < txn → txn < block_size (ps_base s) →
  (is_ready_queue (ps_policy s) = false ∨
   ∃ preds ind, gate_inv preds (ps_gate s) ind ∧ Z.of_nat (length preds) = block_size (ps_base s)) →
  ∃ s1, run (registerAbort txn blocking) s = Returns (s1, tt) ∧ policy_wf s1 ∧
    e_status (entry_at (ps_base s1) txn) = StatusReadyToExecute ∧
    e_incarnation (entry_at (ps_base s1) txn) = u64 (e_incarnation (entry_at (ps_base s) txn) + 1) ∧
    if decide (e_status (entry_at (ps_base s) blocking) = StatusExecuted)
    then ready (ps_gate s1) = ready (ps_gate s) ++ [txn]
    else ready (ps_gate s1) = ready (ps_gate s) ∧
         ∃ s2, run (completeExecution blocking) s1 = Returns (s2, tt) ∧ txn ∈ ready (ps_gate s2).
Proof.
  intros [Hmu Hst Hab] Hb Ht Hgate. unfold registerAbort.
  cbn [ps_Lock count_event pbind atomic modify run]. rewrite Hmu. cbn [mbind outcome_bind run].
  set (s0 := ps_put_counters _ _). change (ps_base s0) with (ps_base s) in *.
  rewrite run_ps_base. change (ps_base s0) with (ps_base s).
  erewrite run_status; [|lia|done]. cbn [mbind outcome_bind].
  rewrite run_ps_base. cbn [ps_base ps_put_base].
  erewrite run_status; [|cbn; rewrite length_insert; lia|done]. cbn [mbind outcome_bind].
  set (b1 := with_entry txn _ _).
  rewrite run_ps_base. cbn [ps_base ps_put_base]. unfold check_executed.
  erewrite run_status; [|unfold b1; cbn; rewrite !length_insert; lia|by rewrite (surjective_pairing (IsExecuted _))].
  cbn [mbind outcome_bind].
  rewrite with_entry_same by (unfold b1; cbn; rewrite !length_insert; lia).
  assert (entry_at b1 txn = SetReadyStatus (setStatus (entry_at (ps_base s) txn) StatusAborting)) as Et.
  { unfold b1. rewrite entry_at_with by (cbn; rewrite ?length_insert; lia). rewrite decide_True by done.
    rewrite entry_at_with by lia. by rewrite decide_True. }
  assert (entry_at b1 blocking = entry_at (ps_base s) blocking) as Eb.
  { unfold b1. rewrite entry_at_with by (cbn; rewrite ?length_insert; lia). rewrite decide_False by lia.
    rewrite entry_at_with by lia. by rewrite decide_False by lia. }
  rewrite Eb. unfold IsExecuted. 
  assert (block_size b1 = block_size (ps_base s)) as Ebs by done.
  assert (Z.of_nat (length (txn_status b1)) = block_size b1) as Eln
    by (unfold b1; cbn; rewrite !length_insert; done).
  case_decide as Hex.
  - cbn. eexists. split; [done|]. split; [by split|]. cbn. rewrite Et. done.
  - destruct (at_index_in (abortDeps (ps_gate s)) blocking ltac:(lia)) as [old Hold].
    assert (append_at (abortDeps (ps_gate s)) blocking txn =
      Returns (<[Z.to_nat blocking := old ++ [txn]]> (abortDeps (ps_gate s)))) as Ea
      by (unfold append_at; rewrite Hold; cbn; by rewrite set_index_in by lia).
    cbn -[append_at b1]. rewrite Ea. cbn -[b1]. eexists. split; [done|].
    split; [split; cbn -[b1]; [done|done|rewrite length_insert; done]|]. cbn -[b1]. rewrite Et.
    split; [done|]. split; [done|]. split; [done|].
    unfold completeExecution, completeExecution_locked. cbn -[b1].
    rewrite at_index_insert by lia. rewrite decide_True by done. cbn -[b1].
    rewrite decide_False by (by destruct old).
    rewrite set_index_in by (rewrite length_insert; lia). cbn -[b1].
    destruct Hgate as [Hq|(preds & ind & Hinv & Hpl)].
    { rewrite Hq. cbn. eexists. split; [done|]. cbn. set_solver. }
    destruct (is_ready_queue (ps_policy s)); cbn -[b1]; [|eexists; split; [done|cbn; set_solver]].
    rewrite at_flag by (destruct Hinv as [_ (_ & _ & -> & _)]; lia). cbn -[b1 complete_gate].
    destruct (flag (completed (ps_gate s)) blocking) eqn:Ef; cbn -[b1 complete_gate].
    { eexists. split; [done|]. cbn. set_solver. }
    set (g := set_ready _ _).
    destruct (complete_gate_spec preds g ind blocking) as (g' & ind' & new & E & _ & _ & Hr & _);
      [by destruct Hinv; split|lia|done|].
    rewrite E. cbn. eexists. split; [done|]. cbn. rewrite Hr. unfold g. cbn. set_solver.
Qed.

(** The scheduler of [gate_policy], the first two transactions executing. *)
Definition policy3 : policyScheduler :=
  MkPolicySched
    (MkScheduler 3 3 0 0 3 false (replicate 3 (MkTxDependency false []))
      [MkEntry 0 StatusExecuting None; MkEntry 0 StatusExecuting None; new_entry] [] 2 0)
    gate_policy false 0 None gate3 (MkCounters 0 0 0 1 0 0 0) None.

Lemma abort_rescheduled_witness :
  ∃ s1 s2, run (registerAbort 1 0) policy3 = Returns (s1, tt) ∧
    run (completeExecution 0) s1 = Returns (s2, tt) ∧ 1 ∈ ready (ps_gate s2).
Proof.
  destruct (abort_rescheduled policy3 1 0) as (s1 & E1 & _ & _ & _ & H).
  - by split.
  - lia.
  - cbn. lia.
  - right. exists [[]; []; [0]], [0; 0; 1]. split; [apply gate3_inv|done].
  - cbn in H. destruct H as (_ & s2 & E2 & Hin). eauto.
Defined.
