(* ===== verification/Encoding.v ===== *)
(** * encoding/binary as the code uses it: big-endian 64-bit words *)

From Stdlib Require Import ZArith Lia.
From Stdlib Require Import Strings.Byte.
From S2P Require Import Prelude.
Local Open Scope Z_scope.

Definition byte_val (b : Byte.byte) : Z := Z.of_N (Byte.to_N b).

(** The conversion [byte(z)]. *)
Definition byte_of (z : Z) : Byte.byte :=
  default Byte.x00 (Byte.of_N (Z.to_N (z mod 256))).

(** [binary.BigEndian.PutUint64] into a fresh array. *)
Definition PutUint64 (v : Z) : Bytes :=
  (λ i, byte_of (Z.shiftr v (8 * i))) <$> [7; 6; 5; 4; 3; 2; 1; 0].

(** [binary.BigEndian.Uint64] of eight bytes. *)
Definition Uint64 (b : Bytes) : Z := foldl (λ acc x, acc * 256 + byte_val x) 0 b.

(** ** Facts *)

Lemma byte_val_bound b : 0 <= byte_val b < 256.
Proof.
  unfold byte_val. assert ((Byte.to_N b <= 255)%N); [|lia]. apply Byte.to_N_bounded.
Qed.

Lemma byte_val_of z : byte_val (byte_of z) = z mod 256.
Proof.
  unfold byte_val, byte_of. pose proof (Z.mod_pos_bound z 256 ltac:(lia)) as H.
  destruct (Byte.of_N (Z.to_N (z mod 256))) as [b|] eqn:E; cbn.
  - apply Byte.to_of_N in E. rewrite E. lia.
  - apply Byte.of_N_None_iff in E. lia.
Qed.

Lemma byte_of_val b : byte_of (byte_val b) = b.
Proof.
  apply byte_to_N_inj. pose proof (byte_val_of (byte_val b)) as H.
  rewrite Z.mod_small in H by apply byte_val_bound. unfold byte_val in H at 1 3. lia.
Qed.

Lemma PutUint64_length v : length (PutUint64 v) = 8%nat.
Proof. done. Qed.

Lemma Uint64_PutUint64 v : u64_range v → Uint64 (PutUint64 v) = v.
Proof.
  unfold u64_range, W64. intros H. unfold Uint64, PutUint64. cbn [fmap list_fmap foldl].
  rewrite !byte_val_of, !Z.shiftr_div_pow2 by lia.
  replace (2 ^ (8 * 0)) with 1 by done. replace (2 ^ (8 * 1)) with 256 by done.
  replace (2 ^ (8 * 2)) with 65536 by done. replace (2 ^ (8 * 3)) with 16777216 by done.
  replace (2 ^ (8 * 4)) with 4294967296 by done. replace (2 ^ (8 * 5)) with 1099511627776 by done.
  replace (2 ^ (8 * 6)) with 281474976710656 by done.
  replace (2 ^ (8 * 7)) with 72057594037927936 by done.
  replace (2 ^ 64) with 18446744073709551616 in H by done.
  Z.to_euclidean_division_equations. lia.
Qed.

Lemma Uint64_snoc l b : Uint64 (l ++ [b]) = Uint64 l * 256 + byte_val b.
Proof. unfold Uint64. by rewrite foldl_app. Qed.

Lemma Uint64_inj l l' : length l = length l' → Uint64 l = Uint64 l' → l = l'.
Proof.
  revert l'. induction l as [|b l IH] using rev_ind; intros l' Hlen Heq.
  { by destruct l'. }
  destruct l' as [|b' l' _] using rev_ind; [rewrite length_app in Hlen; cbn in Hlen; lia|].
  rewrite !length_app in Hlen. cbn in Hlen. rewrite !Uint64_snoc in Heq.
  pose proof (byte_val_bound b). pose proof (byte_val_bound b').
  assert (byte_val b = byte_val b') as Eb by lia.
  f_equal; [apply IH; lia|]. rewrite <- (byte_of_val b), <- (byte_of_val b'). congruence.
Qed.

Lemma Uint64_bound_gen l : 0 <= Uint64 l < 256 ^ Z.of_nat (length l).
Proof.
  induction l as [|b l IH] using rev_ind; [done|].
  rewrite Uint64_snoc, length_app, Nat2Z.inj_add, Z.pow_add_r by lia. cbn [length].
  pose proof (byte_val_bound b). change (256 ^ Z.of_nat 1) with 256. nia.
Qed.

Lemma Uint64_bound b : length b = 8%nat → u64_range (Uint64 b).
Proof. intros H. pose proof (Uint64_bound_gen b) as Hb. rewrite H in Hb. exact Hb. Qed.

Lemma PutUint64_Uint64 b : length b = 8%nat → PutUint64 (Uint64 b) = b.
Proof.
  intros H. apply Uint64_inj; [by rewrite H|]. by apply Uint64_PutUint64, Uint64_bound.
Qed.

Lemma PutUint64_inj v w : u64_range v → u64_range w → PutUint64 v = PutUint64 w → v = w.
Proof. intros Hv Hw E. rewrite <- (Uint64_PutUint64 v), <- (Uint64_PutUint64 w) by done. by rewrite E. Qed.
