(* ===== verification/Model.v ===== *)
(** * internal/model/model.go: programs, transactions and results

    Identifiers, opcodes and kinds are strings, as in the source, where any
    string can occur; keys and values are bytes, a nil slice being the empty
    one. *)

From Stdlib Require Import ZArith Lia String.
From S2P Require Import Prelude.
Local Open Scope Z_scope.

Definition OpRead : string := "read".
Definition OpWrite : string := "write".
Definition OpDelete : string := "delete".
Definition OpCompute : string := "compute".
Definition OpFailIf : string := "fail_if".
Definition OpJumpIf : string := "jump_if".
Definition OpReturn : string := "return".

Definition OperandLiteral : string := "literal".
Definition OperandRegister : string := "register".

Record Operand := MkOperand { op_Kind : string; op_Literal : Z; op_Register : string }.

Definition Literal (value : Z) : Operand := MkOperand OperandLiteral value "".
Definition Register (name : string) : Operand := MkOperand OperandRegister 0 name.

Record Expression := MkExpression { ex_Base : Operand; ex_Delta : Z }.

Definition ConditionAlways : string := "always".
Definition ConditionExists : string := "exists".
Definition ConditionNotExists : string := "not_exists".
Definition ConditionEqual : string := "equal".
Definition ConditionNotEqual : string := "not_equal".
Definition ConditionLess : string := "less".
Definition ConditionLessEqual : string := "less_equal".
Definition ConditionGreater : string := "greater".
Definition ConditionGreaterEq : string := "greater_equal".

Record Condition := MkCondition {
  co_Kind : string;
  co_Register : string;
  co_Left : Operand;
  co_Right : Operand;
}.

Record Instruction := MkInstruction {
  in_ID : string;
  in_Op : string;
  in_Key : Bytes;
  in_Register : string;
  in_Expression : Expression;
  in_Condition : Condition;
  in_Target : Z;
  in_ComputeUnits : Z;
  in_ErrorCode : string;
}.

Record Program := MkProgram { Instructions : list Instruction }.

Record Transaction := MkTransaction { tx_ID : string; MaxUnits : Z; tx_Program : Program }.

Record Block := MkBlock { b_ID : string; b_Height : Z; Transactions : list Transaction }.

Definition TxStatusSuccess : string := "success".
Definition TxStatusFailed : string := "failed".
Definition TxStatusOutOfGas : string := "out_of_gas".
Definition TxStatusInvalidProgram : string := "invalid_program".
Definition TxStatusInvalidState : string := "invalid_state".
Definition TxStatusArithmeticError : string := "arithmetic_error".
Definition TxStatusCancelled : string := "cancelled".

Record ReadRecord := MkReadRecord { rr_Key : Bytes; rr_Exists : bool; rr_Value : Bytes }.
Record StateChange := MkStateChange { sc_Key : Bytes; sc_Delete : bool; sc_Value : Bytes }.
Record Event := MkEvent { ev_Type : string; ev_Data : Bytes }.

Record TxResult := MkTxResult {
  tr_Index : Z;
  tr_TransactionID : string;
  tr_Status : string;
  tr_ReturnValue : Bytes;
  tr_ErrorCode : string;
  UnitsUsed : Z;
  ComputeDigest : Z;
  Reads : list ReadRecord;
  Writes : list StateChange;
  Events : list Event;
}.

Record StateEntry := MkStateEntry { se_Key : Bytes; se_Value : Bytes }.

Record BlockResult := MkBlockResult {
  br_BlockID : string;
  br_Height : Z;
  br_Transactions : list TxResult;
  FinalState : list StateEntry;
  Digest : string;
}.

#[export] Instance StateChange_eq_dec : EqDecision StateChange.
Proof. solve_decision. Defined.
#[export] Instance StateEntry_eq_dec : EqDecision StateEntry.
Proof. solve_decision. Defined.

(** ** Contexts

    [ctx.Err()] and [<-ctx.Done()] are polls of a context: it is cancelled
    from some poll on, or never. *)

Definition context := option nat.

Definition poll (ctx : context) : context * bool :=
  match ctx with
  | None => (None, false)
  | Some O => (Some O, true)
  | Some (S n) => (Some n, false)
  end.

(** A context that is never cancelled. *)
Definition background : context := None.
