(* ===== verification/Canonical.v ===== *)
(** * internal/model/canonical.go: the canonical digest of a block result

    The bytes written to the hash are a list, in the order of the writes; the
    hash (SHA-256 of the standard library, printed in hexadecimal) is a
    parameter of [CanonicalDigest].  Both [sort.Slice] calls compare every
    field, so they are the sort by a total order. *)

From Stdlib Require Import ZArith Lia String.
From Stdlib Require Import Strings.Byte.
From stdpp Require Import sorting.
From S2P Require Import Prelude Encoding Model.
Local Open Scope Z_scope.

Definition canonicalResultSchema : string := "block-result-v1".

Definition writeUint64 (value : Z) : Bytes := PutUint64 value.
Definition writeBytes (value : Bytes) : Bytes := writeUint64 (u64 (Z.of_nat (length value))) ++ value.
Definition writeString (value : string) : Bytes := writeBytes (String.list_byte_of_string value).
Definition writeBool (value : bool) : Bytes := if value then [Byte.x01] else [Byte.x00].

(** A counted sequence. *)
Definition write_list {A} (write : A → Bytes) (l : list A) : Bytes :=
  writeUint64 (u64 (Z.of_nat (length l))) ++ concat (write <$> l).

(** The comparison functions, as the orders they sort by. *)
Definition change_le (x y : StateChange) : Prop :=
  match bytes_compare (sc_Key x) (sc_Key y) with
  | Lt => True
  | Gt => False
  | Eq =>
      if decide (sc_Delete x ≠ sc_Delete y) then sc_Delete x = false
      else bytes_compare (sc_Value x) (sc_Value y) ≠ Gt
  end.

Definition entry_le (x y : StateEntry) : Prop :=
  match bytes_compare (se_Key x) (se_Key y) with
  | Lt => True
  | Gt => False
  | Eq => bytes_compare (se_Value x) (se_Value y) ≠ Gt
  end.

#[export] Instance change_le_dec : RelDecision change_le.
Proof. intros x y. unfold change_le. destruct (bytes_compare _ _); [|apply _..]. case_decide; apply _. Defined.
#[export] Instance entry_le_dec : RelDecision entry_le.
Proof. intros x y. unfold entry_le. destruct (bytes_compare _ _); apply _. Defined.

Definition sort_changes (l : list StateChange) : list StateChange := merge_sort change_le l.
Definition sort_entries (l : list StateEntry) : list StateEntry := merge_sort entry_le l.

Definition write_read (read : ReadRecord) : Bytes :=
  writeBytes (rr_Key read) ++ writeBool (rr_Exists read) ++ writeBytes (rr_Value read).
Definition write_change (write : StateChange) : Bytes :=
  writeBytes (sc_Key write) ++ writeBool (sc_Delete write) ++ writeBytes (sc_Value write).
Definition write_event (event : Event) : Bytes :=
  writeString (ev_Type event) ++ writeBytes (ev_Data event).
Definition write_entry (entry : StateEntry) : Bytes :=
  writeBytes (se_Key entry) ++ writeBytes (se_Value entry).

Definition write_tx (tx : TxResult) : Bytes :=
  writeUint64 (tr_Index tx) ++ writeString (tr_TransactionID tx) ++ writeString (tr_Status tx) ++
  writeBytes (tr_ReturnValue tx) ++ writeString (tr_ErrorCode tx) ++ writeUint64 (UnitsUsed tx) ++
  writeUint64 (ComputeDigest tx) ++ write_list write_read (Reads tx) ++
  write_list write_change (sort_changes (Writes tx)) ++ write_list write_event (Events tx).

(** Everything written to the hash. *)
Definition canonical_bytes (result : BlockResult) : Bytes :=
  writeString canonicalResultSchema ++ writeString (br_BlockID result) ++ writeUint64 (br_Height result) ++
  write_list write_tx (br_Transactions result) ++ write_list write_entry (sort_entries (FinalState result)).

Definition CanonicalDigest (sha256_hex : Bytes → string) (result : BlockResult) : string :=
  sha256_hex (canonical_bytes result).

(** ** The orders *)

#[export] Instance entry_le_total : Total entry_le.
Proof.
  intros x y. unfold entry_le. rewrite (bytes_compare_antisym (se_Key x) (se_Key y)).
  destruct (bytes_compare (se_Key x) (se_Key y)); cbn; [|by left|by right].
  rewrite (bytes_compare_antisym (se_Value x) (se_Value y)).
  destruct (bytes_compare (se_Value x) (se_Value y)); cbn; auto.
Qed.

#[export] Instance change_le_total : Total change_le.
Proof.
  intros x y. unfold change_le. rewrite (bytes_compare_antisym (sc_Key x) (sc_Key y)).
  destruct (bytes_compare (sc_Key x) (sc_Key y)); cbn; [|by left|by right].
  rewrite (bytes_compare_antisym (sc_Value x) (sc_Value y)).
  destruct (sc_Delete x), (sc_Delete y); repeat case_decide; try done; auto;
    destruct (bytes_compare (sc_Value x) (sc_Value y)); cbn; auto.
Qed.

(** [bytes_compare _ _ ≠ Gt] is the reflexive order. *)
Lemma not_gt a b : bytes_compare a b ≠ Gt ↔ a = b ∨ bytes_lt a b.
Proof.
  rewrite <- (bytes_compare_eq a b). unfold bytes_lt. destruct (bytes_compare a b); naive_solver.
Qed.

Lemma entry_le_spec x y :
  entry_le x y ↔ bytes_lt (se_Key x) (se_Key y) ∨
    se_Key x = se_Key y ∧ (se_Value x = se_Value y ∨ bytes_lt (se_Value x) (se_Value y)).
Proof.
  unfold entry_le. rewrite <- (bytes_compare_eq (se_Key x)). unfold bytes_lt at 1.
  destruct (bytes_compare (se_Key x) (se_Key y)); rewrite ?not_gt; naive_solver.
Qed.

Lemma change_le_spec x y :
  change_le x y ↔ bytes_lt (sc_Key x) (sc_Key y) ∨
    sc_Key x = sc_Key y ∧ (sc_Delete x = false ∧ sc_Delete y = true ∨
      sc_Delete x = sc_Delete y ∧ (sc_Value x = sc_Value y ∨ bytes_lt (sc_Value x) (sc_Value y))).
Proof.
  unfold change_le. rewrite <- (bytes_compare_eq (sc_Key x)). unfold bytes_lt at 1.
  destruct (bytes_compare (sc_Key x) (sc_Key y)); [|naive_solver..].
  destruct (sc_Delete x), (sc_Delete y); case_decide; rewrite ?not_gt; naive_solver.
Qed.

Ltac order_trans :=
  repeat match goal with
  | H : _ ∨ _ |- _ => destruct H
  | H : _ ∧ _ |- _ => destruct H
  end; simplify_eq; try congruence.

#[export] Instance entry_le_trans : Transitive entry_le.
Proof.
  intros [k1 v1] [k2 v2] [k3 v3]. rewrite !entry_le_spec. cbn. intros H1 H2. order_trans; eauto using bytes_lt_trans.
Qed.

#[export] Instance change_le_trans : Transitive change_le.
Proof.
  intros [k1 d1 v1] [k2 d2 v2] [k3 d3 v3]. rewrite !change_le_spec. cbn. intros H1 H2.
  order_trans; eauto 7 using bytes_lt_trans.
Qed.

#[export] Instance entry_le_anti : AntiSymm eq entry_le.
Proof.
  intros [k1 v1] [k2 v2]. rewrite !entry_le_spec. cbn. intros H1 H2.
  order_trans; exfalso; eauto using bytes_lt_asym, bytes_lt_irrefl.
Qed.

#[export] Instance change_le_anti : AntiSymm eq change_le.
Proof.
  intros [k1 d1 v1] [k2 d2 v2]. rewrite !change_le_spec. cbn. intros H1 H2.
  order_trans; exfalso; eauto using bytes_lt_asym, bytes_lt_irrefl.
Qed.

(** ** Length-prefixed encodings can be read back

    [readable write view ok]: on values that satisfy [ok], the written bytes
    determine the value up to [view], wherever the next bytes start. *)

Definition readable {A B} (write : A → Bytes) (view : A → B) (ok : A → Prop) : Prop :=
  ∀ a b r s, ok a → ok b → write a ++ r = write b ++ s → view a = view b ∧ r = s.

(** Lengths fit in a [uint64]. *)
Definition short {A} (l : list A) : Prop := Z.of_nat (length l) < W64.

Lemma short_range {A} (l : list A) : short l → u64_range (Z.of_nat (length l)).
Proof. unfold short, u64_range. lia. Qed.

Lemma readable_uint64 : readable writeUint64 id u64_range.
Proof.
  intros a b r s Ha Hb H. apply app_inj_1 in H as [H ->]; [|done]. split; [by apply PutUint64_inj|done].
Qed.

Lemma readable_count {A} (l l' : list A) r s :
  short l → short l' →
  writeUint64 (u64 (Z.of_nat (length l))) ++ r = writeUint64 (u64 (Z.of_nat (length l'))) ++ s →
  length l = length l' ∧ r = s.
Proof.
  intros Hl%short_range Hl'%short_range H.
  rewrite (u64_id (Z.of_nat (length l))), (u64_id (Z.of_nat (length l'))) in H by assumption.
  apply readable_uint64 in H as [E ->]; [|assumption..]. unfold id in E. split; [lia|reflexivity].
Qed.

Lemma readable_bytes : readable writeBytes id short.
Proof.
  intros a b r s Ha Hb. unfold writeBytes. rewrite <- !app_assoc. intros H.
  apply readable_count in H as [E H]; [|done..]. apply app_inj_1 in H; done.
Qed.

Definition short_string (s : string) : Prop := short (String.list_byte_of_string s).

Lemma readable_string : readable writeString id short_string.
Proof.
  intros a b r s Ha Hb H. unfold writeString in H.
  apply readable_bytes in H as [E ->]; [|assumption..]. unfold id in *. split; [|done].
  rewrite <- (String.string_of_list_byte_of_string a), <- (String.string_of_list_byte_of_string b). by rewrite E.
Qed.

Lemma readable_bool : readable writeBool id (λ _, True).
Proof. intros [] [] r s _ _ H; cbn in H; by simplify_eq. Qed.

Lemma readable_list {A B} (write : A → Bytes) (view : A → B) ok :
  readable write view ok → readable (write_list write) (fmap view) (λ l, short l ∧ Forall ok l).
Proof.
  intros Hw l l' r s [Hs Hl] [Hs' Hl']. unfold write_list. rewrite <- !app_assoc. intros H.
  apply readable_count in H as [E H]; [|done..]. clear Hs Hs'. revert l' Hl' E H.
  induction l as [|a l IH]; intros [|b l'] Hl' E; try done. cbn. rewrite <- !app_assoc. intros H.
  apply Forall_cons in Hl as [Ha Hl]. apply Forall_cons in Hl' as [Hb Hl'].
  apply Hw in H as [Ev H]; [|done..]. cbn in E. destruct (IH Hl l' Hl' ltac:(lia) H) as [El Er].
  split; [by f_equal|done].
Qed.

(** ** Typed results and their canonical form *)

Definition read_ok (r : ReadRecord) : Prop := short (rr_Key r) ∧ short (rr_Value r).
Definition change_ok (c : StateChange) : Prop := short (sc_Key c) ∧ short (sc_Value c).
Definition event_ok (e : Event) : Prop := short_string (ev_Type e) ∧ short (ev_Data e).
Definition entry_ok (e : StateEntry) : Prop := short (se_Key e) ∧ short (se_Value e).

Record tx_ok (t : TxResult) : Prop := {
  tk_Index : u64_range (tr_Index t);
  tk_TransactionID : short_string (tr_TransactionID t);
  tk_Status : short_string (tr_Status t);
  tk_ReturnValue : short (tr_ReturnValue t);
  tk_ErrorCode : short_string (tr_ErrorCode t);
  tk_Units : u64_range (UnitsUsed t);
  tk_Digest : u64_range (ComputeDigest t);
  tk_Reads : short (Reads t) ∧ Forall read_ok (Reads t);
  tk_Writes : short (Writes t) ∧ Forall change_ok (Writes t);
  tk_Events : short (Events t) ∧ Forall event_ok (Events t);
}.

Record result_ok (r : BlockResult) : Prop := {
  rk_BlockID : short_string (br_BlockID r);
  rk_Height : u64_range (br_Height r);
  rk_Transactions : short (br_Transactions r) ∧ Forall tx_ok (br_Transactions r);
  rk_State : short (FinalState r) ∧ Forall entry_ok (FinalState r);
}.

(** Two results that differ only in the order in which a transaction reports its
    writes, in the order of the final state, or in the digest field. *)
Record tx_equiv (t t' : TxResult) : Prop := {
  te_Index : tr_Index t = tr_Index t';
  te_TransactionID : tr_TransactionID t = tr_TransactionID t';
  te_Status : tr_Status t = tr_Status t';
  te_ReturnValue : tr_ReturnValue t = tr_ReturnValue t';
  te_ErrorCode : tr_ErrorCode t = tr_ErrorCode t';
  te_Units : UnitsUsed t = UnitsUsed t';
  te_Digest : ComputeDigest t = ComputeDigest t';
  te_Reads : Reads t = Reads t';
  te_Writes : Writes t ≡ₚ Writes t';
  te_Events : Events t = Events t';
}.

Record result_equiv (r r' : BlockResult) : Prop := {
  re_BlockID : br_BlockID r = br_BlockID r';
  re_Height : br_Height r = br_Height r';
  re_Transactions : Forall2 tx_equiv (br_Transactions r) (br_Transactions r');
  re_State : FinalState r ≡ₚ FinalState r';
}.

#[export] Instance tx_equiv_equivalence : Equivalence tx_equiv.
Proof.
  split.
  - by split.
  - intros t t' []. by split.
  - intros t1 t2 t3 [] []. by split; etransitivity.
Qed.

#[export] Instance result_equiv_equivalence : Equivalence result_equiv.
Proof.
  split.
  - by split.
  - intros r r' []. by split.
  - intros r1 r2 r3 [] []. by split; etransitivity.
Qed.

(** The transaction's result with its writes in the order they are written. *)
Definition canonical_tx (t : TxResult) : TxResult :=
  MkTxResult (tr_Index t) (tr_TransactionID t) (tr_Status t) (tr_ReturnValue t) (tr_ErrorCode t) (UnitsUsed t)
    (ComputeDigest t) (Reads t) (sort_changes (Writes t)) (Events t).

(** Reads the next field of both sides of an equation of byte strings. *)
Ltac read_field L H E :=
  rewrite <- ?app_assoc in H; apply L in H as [E H]; [unfold id in E|assumption || exact I..].

Lemma readable_read : readable write_read id read_ok.
Proof.
  intros [k e v] [k' e' v'] r s [Hk Hv] [Hk' Hv'] H. unfold write_read in H. cbn in *.
  read_field readable_bytes H E1. read_field readable_bool H E2. read_field readable_bytes H E3. by subst.
Qed.

Lemma readable_change : readable write_change id change_ok.
Proof.
  intros [k e v] [k' e' v'] r s [Hk Hv] [Hk' Hv'] H. unfold write_change in H. cbn in *.
  read_field readable_bytes H E1. read_field readable_bool H E2. read_field readable_bytes H E3. by subst.
Qed.

Lemma readable_event : readable write_event id event_ok.
Proof.
  intros [t d] [t' d'] r s [Ht Hd] [Ht' Hd'] H. unfold write_event in H. cbn in *.
  read_field readable_string H E1. read_field readable_bytes H E2. by subst.
Qed.

Lemma readable_entry : readable write_entry id entry_ok.
Proof.
  intros [t d] [t' d'] r s [Ht Hd] [Ht' Hd'] H. unfold write_entry in H. cbn in *.
  read_field readable_bytes H E1. read_field readable_bytes H E2. by subst.
Qed.

Lemma short_sort {A} (R : relation A) `{!RelDecision R} (P : A → Prop) l :
  short l ∧ Forall P l → short (merge_sort R l) ∧ Forall P (merge_sort R l).
Proof.
  intros [Hs Hf]. unfold short in *. by rewrite (merge_sort_Permutation R l).
Qed.

Lemma readable_tx : readable write_tx canonical_tx tx_ok.
Proof.
  intros a b r s Ha Hb H. destruct Ha as [A1 A2 A3 A4 A5 A6 A7 A8 A9 A10], Hb as [B1 B2 B3 B4 B5 B6 B7 B8 B9 B10].
  apply (short_sort change_le) in A9, B9.
  unfold write_tx in H. read_field readable_uint64 H E1. read_field readable_string H E2.
  read_field readable_string H E3. read_field readable_bytes H E4. read_field readable_string H E5.
  read_field readable_uint64 H E6. read_field readable_uint64 H E7.
  read_field (readable_list _ _ _ readable_read) H E8. read_field (readable_list _ _ _ readable_change) H E9.
  read_field (readable_list _ _ _ readable_event) H E10. rewrite !list_fmap_id in E8. rewrite !list_fmap_id in E9. rewrite !list_fmap_id in E10.
  split; [|done]. unfold canonical_tx. by rewrite E1, E2, E3, E4, E5, E6, E7, E8, E9, E10.
Qed.

(** ** Properties *)

Lemma merge_sort_perm {A} (R : relation A) `{!RelDecision R, !Transitive R, !Total R, !AntiSymm eq R} l l' :
  l ≡ₚ l' → merge_sort R l = merge_sort R l'.
Proof.
  intros Hp. apply (StronglySorted_unique R); [by apply StronglySorted_merge_sort..|].
  by rewrite !(merge_sort_Permutation R).
Qed.

(** Sorting identifies exactly the permutations. *)
Lemma sort_changes_equiv w w' : sort_changes w = sort_changes w' ↔ w ≡ₚ w'.
Proof.
  split; [|apply (merge_sort_perm change_le)]. intros E. unfold sort_changes in E.
  by rewrite <- (merge_sort_Permutation change_le w), E, (merge_sort_Permutation change_le w').
Qed.

Lemma sort_entries_equiv e e' : sort_entries e = sort_entries e' ↔ e ≡ₚ e'.
Proof.
  split; [|apply (merge_sort_perm entry_le)]. intros E. unfold sort_entries in E.
  by rewrite <- (merge_sort_Permutation entry_le e), E, (merge_sort_Permutation entry_le e').
Qed.

Lemma canonical_tx_equiv t t' : canonical_tx t = canonical_tx t' ↔ tx_equiv t t'.
Proof.
  split.
  - intros E. injection E as F1 F2 F3 F4 F5 F6 F7 F8 F9 F10. split; try done. by apply sort_changes_equiv.
  - intros [F1 F2 F3 F4 F5 F6 F7 F8 F9 F10]. apply sort_changes_equiv in F9. unfold canonical_tx.
    by rewrite F1, F2, F3, F4, F5, F6, F7, F8, F9, F10.
Qed.

Lemma canonical_txs_equiv l l' : canonical_tx <$> l = canonical_tx <$> l' ↔ Forall2 tx_equiv l l'.
Proof.
  revert l'. induction l as [|t l IH]; intros [|t' l'].
  - done.
  - split; [done|intros H; by inversion H].
  - split; [done|intros H; by inversion H].
  - rewrite !fmap_cons, Forall2_cons_iff, <- IH, <- canonical_tx_equiv. split; [apply (inj2 cons)|by intros [-> ->]].
Qed.

#[export] Instance write_tx_proper : Proper (tx_equiv ==> eq) write_tx.
Proof.
  intros t t' [F1 F2 F3 F4 F5 F6 F7 F8 F9 F10]. apply sort_changes_equiv in F9.
  unfold write_tx. by rewrite F1, F2, F3, F4, F5, F6, F7, F8, F9, F10.
Qed.

#[export] Instance write_txs_proper : Proper (Forall2 tx_equiv ==> eq) (write_list write_tx).
Proof.
  intros l l' H. unfold write_list. f_equal; [by rewrite (Forall2_length _ _ _ H)|].
  f_equal. induction H as [|t t' l l' Ht _ IH]; [done|]. rewrite !fmap_cons, IH. by rewrite Ht.
Qed.

#[export] Instance canonical_bytes_proper : Proper (result_equiv ==> eq) canonical_bytes.
Proof.
  intros r r' [E1 E2 E3 E4]. apply sort_entries_equiv in E4. unfold canonical_bytes. by rewrite E1, E2, E3, E4.
Qed.

Lemma canonical_bytes_inj r r' :
  result_ok r → result_ok r' → canonical_bytes r = canonical_bytes r' → result_equiv r r'.
Proof.
  intros [A1 A2 A3 A4] [B1 B2 B3 B4]. apply (short_sort entry_le) in A4, B4.
  unfold canonical_bytes. intros H%app_inv_head. rewrite <- (app_nil_r (write_list write_entry _)) in H.
  rewrite <- (app_nil_r (write_list write_entry (sort_entries (FinalState r')))) in H.
  read_field readable_string H E1. read_field readable_uint64 H E2.
  read_field (readable_list _ _ _ readable_tx) H E3. read_field (readable_list _ _ _ readable_entry) H E4.
  rewrite !list_fmap_id in E4. split; [done|done|by apply canonical_txs_equiv|by apply sort_entries_equiv].
Qed.

(** C37: The canonical digest is a faithful fingerprint.  For results whose
    lengths and integers fit their 64-bit fields, two results write the same
    bytes to the hash exactly when they agree in every field up to a permutation
    of each transaction's writes and of the final state (and up to the digest
    field itself), so no two different results can collide before hashing,
    and neither the order in which writes are reported nor the stored digest
    influences the digest. *)
Theorem CanonicalDigest_faithful (sha256_hex : Bytes → string) r r' :
  result_ok r → result_ok r' →
  (canonical_bytes r = canonical_bytes r' ↔ result_equiv r r') ∧
  (result_equiv r r' → CanonicalDigest sha256_hex r = CanonicalDigest sha256_hex r') ∧
  ((∀ b b', sha256_hex b = sha256_hex b' → b = b') →
    CanonicalDigest sha256_hex r = CanonicalDigest sha256_hex r' → result_equiv r r').
Proof.
  intros Hr Hr'. split_and!.
  - split; [by apply canonical_bytes_inj|]. by intros ->.
  - intros E. unfold CanonicalDigest. by rewrite E.
  - intros Hi E%Hi. by apply canonical_bytes_inj.
Qed.

(** A result with one transaction that wrote two keys, reported in one order
    and in the other. *)
Definition sample_change (k : Byte.byte) : StateChange := MkStateChange [k] false [Byte.x07].
Definition sample_result (writes : list StateChange) (digest : string) : BlockResult :=
  MkBlockResult "b" 1 [MkTxResult 0 "t" "success" [] "" 3 5 [] writes []] [] digest.

Lemma sample_result_ok digest a b : result_ok (sample_result [sample_change a; sample_change b] digest).
Proof.
  assert (∀ z, u64_range z ↔ (0 <=? z) && (z <? W64) = true) as Hu.
  { intros z. unfold u64_range. rewrite andb_true_iff, Z.leb_le, Z.ltb_lt. done. }
  assert (∀ c, change_ok (sample_change c)) as Hc by (intros c; split; reflexivity).
  split; [reflexivity|by apply Hu| |split; [reflexivity|constructor]].
  split; [reflexivity|]. constructor; [|constructor].
  split; [by apply Hu|reflexivity|reflexivity|reflexivity|reflexivity|by apply Hu|by apply Hu|
          split; [reflexivity|constructor]| |split; [reflexivity|constructor]].
  split; [reflexivity|]. by repeat constructor.
Qed.

Lemma CanonicalDigest_faithful_witness :
  let r := sample_result [sample_change Byte.x01; sample_change Byte.x02] "x" in
  CanonicalDigest String.string_of_list_byte r =
  CanonicalDigest String.string_of_list_byte (sample_result [sample_change Byte.x02; sample_change Byte.x01] "") ∧
  canonical_bytes r ≠ canonical_bytes (sample_result [sample_change Byte.x01; sample_change Byte.x03] "x").
Proof.
  split.
  - apply (CanonicalDigest_faithful String.string_of_list_byte); [apply sample_result_ok..|].
    split; [done|done| |done]. constructor; [|done]. split; try done. apply Permutation_swap.
  - rewrite (proj1 (CanonicalDigest_faithful String.string_of_list_byte _ _
      (sample_result_ok "x" Byte.x01 Byte.x02) (sample_result_ok "x" Byte.x01 Byte.x03))).
    intros [_ _ Ht _]. cbn in Ht. inversion_clear Ht as [|? ? ? ? [_ _ _ _ _ _ _ _ Hw _] _]. cbn in Hw.
    assert (sample_change Byte.x02 ∈ [sample_change Byte.x01; sample_change Byte.x03]) as Hin by (rewrite <- Hw; set_solver).
    rewrite !elem_of_cons, elem_of_nil in Hin. by destruct Hin as [?|[?|[]]].
Defined.
