(* ===== verification/State.v ===== *)
(** * internal/state: the overlay of a transaction and the in-memory store

    A [map[string]...] is a [gmap]; the sorted slices made from it are the
    sorted enumerations of its entries, whatever the order of [range]. *)

From Stdlib Require Import ZArith Lia String.
From stdpp Require Import sorting.
From S2P Require Import Prelude Model.
Local Open Scope Z_scope.

(** [state.Reader].  A read may change what is behind the interface (the
    kernel's view of a store records it, and waits for other transactions
    meanwhile), and may fail to come back: it unwinds or waits for ever. *)
Class Base (B : Type) := base_Get : B → Bytes → outcome (B * option Bytes).

(** A reader without a state. *)
Definition Reader := Bytes → outcome (option Bytes).
#[export] Instance reader_base : Base Reader := λ r key, v ← r key; Returns (r, v).

(** What the code uses of a [state.Mutable]. *)
Class Mutable (M : Type) := {
  mu_Get : M → Bytes → option Bytes;
  mu_Set : M → Bytes → Bytes → M;
  mu_Delete : M → Bytes → M;
}.

Definition key_le {A} (key : A → Bytes) (x y : A) : Prop := key x = key y ∨ bytes_lt (key x) (key y).

#[export] Instance key_le_dec {A} (key : A → Bytes) : RelDecision (key_le key).
Proof. intros x y. unfold key_le. apply _. Defined.

(** [sort.Slice] by key. *)
Definition sort_by_key {A} (key : A → Bytes) (l : list A) : list A := merge_sort (key_le key) l.

Record overlayValue := MkOverlayValue { ov_key : Bytes; ov_value : Bytes; ov_deleted : bool }.

Record Overlay (B : Type) := MkOverlay { ov_base : B; ov_writes : gmap Bytes overlayValue }.
Arguments MkOverlay {_} _ _.
Arguments ov_base {_} _.
Arguments ov_writes {_} _.

Definition NewOverlay {B} (base : B) : Overlay B := MkOverlay base ∅.

Definition ov_Get {B} `{!Base B} (o : Overlay B) (key : Bytes) : outcome (Overlay B * option Bytes) :=
  match ov_writes o !! key with
  | Some pending => Returns (o, if ov_deleted pending then None else Some (ov_value pending))
  | None => '(base, value) ← base_Get (ov_base o) key; Returns (MkOverlay base (ov_writes o), value)
  end.

Definition ov_Set {B} (o : Overlay B) (key value : Bytes) : Overlay B :=
  MkOverlay (ov_base o) (<[key := MkOverlayValue key value false]> (ov_writes o)).

Definition ov_Delete {B} (o : Overlay B) (key : Bytes) : Overlay B :=
  MkOverlay (ov_base o) (<[key := MkOverlayValue key [] true]> (ov_writes o)).

Definition Changes {B} (o : Overlay B) : list StateChange :=
  sort_by_key sc_Key
    ((λ '(_, pending), MkStateChange (ov_key pending) (ov_deleted pending) (ov_value pending))
       <$> map_to_list (ov_writes o)).

Definition apply_change {M} `{!Mutable M} (target : M) (change : StateChange) : M :=
  if sc_Delete change then mu_Delete target (sc_Key change)
  else mu_Set target (sc_Key change) (sc_Value change).

Definition CommitTo {M B} `{!Mutable M} (o : Overlay B) (target : M) : M :=
  foldl apply_change target (Changes o).

(** ** memkv.Store *)

Record Store := MkStore { data : gmap Bytes Bytes }.

Definition New : Store := MkStore ∅.

(** [None] is [ErrDuplicateKey]. *)
Fixpoint add_entries (m : gmap Bytes Bytes) (entries : list StateEntry) : option (gmap Bytes Bytes) :=
  match entries with
  | [] => Some m
  | entry :: entries =>
      match m !! se_Key entry with
      | Some _ => None
      | None => add_entries (<[se_Key entry := se_Value entry]> m) entries
      end
  end.

Definition FromEntries (entries : list StateEntry) : option Store :=
  match add_entries (data New) entries with Some m => Some (MkStore m) | None => None end.

Definition st_Get (s : Store) (key : Bytes) : option Bytes := data s !! key.
(** The store as a reader. *)
Definition st_Reader (s : Store) : Reader := λ key, Returns (st_Get s key).

Definition st_Set (s : Store) (key value : Bytes) : Store := MkStore (<[key := value]> (data s)).
Definition st_Delete (s : Store) (key : Bytes) : Store := MkStore (delete key (data s)).

Definition Snapshot (s : Store) : list StateEntry :=
  sort_by_key se_Key ((λ '(key, value), MkStateEntry key value) <$> map_to_list (data s)).

(** A duplicate key in a snapshot panics. *)
Definition Clone (s : Store) : outcome Store := deref (FromEntries (Snapshot s)).

Definition Replace (s : Store) (entries : list StateEntry) : option Store :=
  match FromEntries entries with Some r => Some (MkStore (data r)) | None => None end.

Definition ReplaceFrom (s source : Store) : outcome Store := deref (Replace s (Snapshot source)).

#[export] Instance store_mutable : Mutable Store :=
  {| mu_Get := st_Get; mu_Set := st_Set; mu_Delete := st_Delete |}.

(** ** Facts *)

#[export] Instance key_le_total {A} (key : A → Bytes) : Total (key_le key).
Proof.
  intros x y. unfold key_le. destruct (trichotomyT bytes_lt (key x) (key y)) as [[H|H]|H]; auto.
Qed.

#[export] Instance key_le_trans {A} (key : A → Bytes) : Transitive (key_le key).
Proof.
  intros x y z [E1|H1] [E2|H2]; unfold key_le.
  - left. congruence.
  - right. by rewrite E1.
  - right. by rewrite <- E2.
  - right. by etrans.
Qed.

Section sorted_enumeration.
Context {A : Type} (key : A → Bytes).

Lemma sort_by_key_perm l : sort_by_key key l ≡ₚ l.
Proof. apply merge_sort_Permutation. Qed.

Lemma sort_by_key_sorted l : StronglySorted (key_le key) (sort_by_key key l).
Proof. apply (StronglySorted_merge_sort (key_le key)). Qed.

Lemma sort_by_key_strict l :
  NoDup (key <$> l) → sorted_keys (key <$> sort_by_key key l).
Proof.
  intros Hnd. assert (NoDup (key <$> sort_by_key key l)) as Hnd'
    by (by rewrite sort_by_key_perm). revert Hnd'.
  induction (sort_by_key_sorted l) as [|x l' _ IH Hx]; simpl; [constructor|].
  intros [Hn Hnd']%NoDup_cons. constructor; [by apply IH|].
  rewrite Forall_fmap. rewrite Forall_forall in *. intros y Hy. simpl.
  destruct (Hx y Hy) as [E|]; [|done]. exfalso. apply Hn. rewrite E.
  apply list_elem_of_fmap. eauto.
Qed.

(** A sorted list is the only sorted arrangement of its elements. *)
Lemma sort_by_key_unique l l' :
  NoDup (key <$> l) → l' ≡ₚ l → sorted_keys (key <$> l') → sort_by_key key l = l'.
Proof.
  intros Hnd Hp Hs.
  assert (∀ l1 l2, sorted_keys (key <$> l1) → sorted_keys (key <$> l2) → l1 ≡ₚ l2 → l1 = l2) as H.
  { clear. induction l1 as [|x l1 IH]; intros [|y l2] H1 H2 Hp; [done|..].
    - by apply Permutation_nil_cons in Hp.
    - symmetry in Hp. by apply Permutation_nil_cons in Hp.
    - apply StronglySorted_cons_inv in H1 as [H1 Hx]. apply StronglySorted_cons_inv in H2 as [H2 Hy].
      assert (x = y) as ->.
      { assert (x ∈ y :: l2) as [->|Hx2]%elem_of_cons by (rewrite <- Hp; by left); [done|].
        assert (y ∈ x :: l1) as [->|Hy1]%elem_of_cons by (rewrite Hp; by left); [done|].
        exfalso. apply (bytes_lt_asym (key x) (key y)).
        - apply Hx, list_elem_of_fmap. eauto.
        - apply Hy, list_elem_of_fmap. eauto. }
      f_equal. apply IH; [done..|]. by eapply Permutation_cons_inv. }
  apply H; [by apply sort_by_key_strict|done|]. by rewrite sort_by_key_perm.
Qed.
End sorted_enumeration.

Lemma add_entries_spec m entries m' :
  add_entries m entries = Some m' ↔
    NoDup (se_Key <$> entries) ∧ (∀ e, e ∈ entries → m !! se_Key e = None) ∧
    m' = foldl (λ m e, <[se_Key e := se_Value e]> m) m entries.
Proof.
  revert m; induction entries as [|e entries IH]; intros m; simpl.
  - split; [intros [= <-]|intros (_ & _ & ->)]; [|done]. split; [constructor|].
    split; [intros e He; by apply elem_of_nil in He|done].
  - destruct (m !! se_Key e) as [v|] eqn:E.
    + split; [done|]. intros (_ & H & _). specialize (H e ltac:(by left)). congruence.
    + rewrite IH, NoDup_cons. split.
      * intros (Hnd & Hno & ->). split; [split; [|done]|split; [|done]].
        -- intros (e' & Ek & He')%list_elem_of_fmap. specialize (Hno e' He').
           rewrite Ek in Hno. by rewrite lookup_insert_eq in Hno.
        -- intros e' [->|He']%elem_of_cons; [done|]. specialize (Hno e' He').
           apply lookup_insert_None in Hno. by destruct Hno.
      * intros ((Hn & Hnd) & Hno & ->). split; [done|]. split; [|done].
        intros e' He'. rewrite lookup_insert_ne; [apply Hno; by right|].
        intros Ek. apply Hn. rewrite Ek. apply list_elem_of_fmap. eauto.
Qed.

Lemma foldl_insert_lookup (entries : list StateEntry) (m : gmap Bytes Bytes) k :
  NoDup (se_Key <$> entries) →
  foldl (λ m e, <[se_Key e := se_Value e]> m) m entries !! k =
    match findb (λ e, bool_decide (se_Key e = k)) entries with
    | Some e => Some (se_Value e)
    | None => m !! k
    end.
Proof.
  revert m; induction entries as [|e entries IH]; intros m; simpl; [done|].
  intros [Hn Hnd]%NoDup_cons. rewrite IH by done.
  destruct (findb _ entries) as [e'|] eqn:E.
  - apply findb_Some in E as [He' Ek%bool_decide_eq_true].
    rewrite bool_decide_eq_false_2; [done|]. intros <-. apply Hn.
    rewrite <- Ek. apply list_elem_of_fmap. eauto.
  - case_bool_decide as Ek; [subst; by rewrite lookup_insert_eq|by rewrite lookup_insert_ne].
Qed.

Lemma Snapshot_keys s :
  NoDup (se_Key <$> ((λ '(key, value), MkStateEntry key value) <$> map_to_list (data s))).
Proof.
  rewrite <- list_fmap_compose. rewrite (list_fmap_ext _ fst (map_to_list (data s))).
  - apply NoDup_fst_map_to_list.
  - by intros i [k v] _.
Qed.

Lemma Snapshot_elem s e : e ∈ Snapshot s ↔ data s !! se_Key e = Some (se_Value e).
Proof.
  unfold Snapshot. rewrite (sort_by_key_perm se_Key). rewrite list_elem_of_fmap. split.
  - intros ([k v] & -> & H%elem_of_map_to_list). done.
  - intros H. exists (se_Key e, se_Value e). split; [by destruct e|].
    by apply elem_of_map_to_list.
Qed.

Lemma FromEntries_Snapshot s : FromEntries (Snapshot s) = Some s.
Proof.
  unfold FromEntries.
  assert (NoDup (se_Key <$> Snapshot s)) as Hnd.
  { unfold Snapshot. rewrite (sort_by_key_perm se_Key). apply Snapshot_keys. }
  erewrite (proj2 (add_entries_spec (data New) (Snapshot s) _)).
  2:{ split; [done|]. split; [|reflexivity]. intros. apply lookup_empty. }
  destruct s as [m]. f_equal. f_equal. apply map_eq. intros k.
  rewrite foldl_insert_lookup by done. cbn.
  destruct (findb _ _) as [e|] eqn:E.
  - apply findb_Some in E as [He <-%bool_decide_eq_true]. by apply Snapshot_elem in He.
  - destruct (m !! k) as [v|] eqn:Ek; [|done]. exfalso.
    apply (proj1 (findb_None _ _)) with (x := MkStateEntry k v) in E.
    + by rewrite bool_decide_eq_true_2 in E.
    + by apply Snapshot_elem.
Qed.

(** ** Properties *)

(** A snapshot of the in-memory store is sorted by key without duplicates,
    lists exactly the entries of the store, and rebuilding a store from it
    gives the store back; [Clone], [Replace] and [ReplaceFrom] therefore
    publish exactly the given state, and a list with a duplicate key is
    refused. *)
Theorem Snapshot_roundtrip s s' :
  sorted_keys (se_Key <$> Snapshot s) ∧
  (∀ e, e ∈ Snapshot s ↔ st_Get s (se_Key e) = Some (se_Value e)) ∧
  FromEntries (Snapshot s) = Some s ∧ Clone s = Returns s ∧ ReplaceFrom s' s = Returns s ∧
  (∀ entries, Replace s' entries = None ↔ ¬ NoDup (se_Key <$> entries)).
Proof.
  split; [apply sort_by_key_strict, Snapshot_keys|]. split; [apply Snapshot_elem|].
  split; [apply FromEntries_Snapshot|]. unfold Clone, ReplaceFrom, Replace.
  rewrite FromEntries_Snapshot. split; [done|]. split; [by destruct s|].
  intros entries. unfold FromEntries.
  destruct (add_entries (data New) entries) as [m|] eqn:E.
  - apply add_entries_spec in E as (Hnd & _). split; [done|]. by intros [].
  - split; [|done]. intros _ Hnd.
    erewrite (proj2 (add_entries_spec (data New) entries _)) in E; [done|].
    split; [done|]. split; [|reflexivity]. intros. apply lookup_empty.
Qed.

Lemma ov_Get_writes {B} `{!Base B} (o o' : Overlay B) key v :
  ov_Get o key = Returns (o', v) → ov_writes o' = ov_writes o.
Proof.
  unfold ov_Get. destruct (ov_writes o !! key); [by intros [= <- _]|].
  destruct (base_Get (ov_base o) key) as [[b w]| |]; [|done..]. by intros [= <- _].
Qed.

(** *** The changes of an overlay *)

Section changes.
Context {B : Type} (o : Overlay B).

(** Each pending write is stored under its own key. *)
Definition overlay_wf : Prop := ∀ k pending, ov_writes o !! k = Some pending → ov_key pending = k.

Lemma Changes_elem c :
  overlay_wf → c ∈ Changes o ↔
    ∃ p, ov_writes o !! sc_Key c = Some p ∧ c = MkStateChange (sc_Key c) (ov_deleted p) (ov_value p).
Proof.
  intros Hkeys. unfold Changes. rewrite (sort_by_key_perm sc_Key), list_elem_of_fmap. split.
  - intros ([k p] & -> & H%elem_of_map_to_list). cbn. rewrite (Hkeys k p H). eauto.
  - intros (p & H & ->). exists (sc_Key c, p). cbn in H. rewrite (Hkeys _ p H).
    split; [done|]. by apply elem_of_map_to_list.
Qed.

Lemma Changes_keys : overlay_wf → NoDup (sc_Key <$> Changes o) ∧ sorted_keys (sc_Key <$> Changes o).
Proof.
  intros Hkeys. set (cs := (λ '(_, pending), MkStateChange (ov_key pending) (ov_deleted pending) (ov_value pending))
       <$> map_to_list (ov_writes o)).
  assert (sc_Key <$> cs = fst <$> map_to_list (ov_writes o)) as Hfst.
  { unfold cs. rewrite <- list_fmap_compose. apply list_fmap_ext. intros i [k p] Hi. cbn.
    apply Hkeys. apply list_elem_of_lookup_2, elem_of_map_to_list in Hi. done. }
  assert (NoDup (sc_Key <$> cs)) as Hnd by (rewrite Hfst; apply NoDup_fst_map_to_list).
  split; [unfold Changes; by rewrite (sort_by_key_perm sc_Key)|by apply sort_by_key_strict].
Qed.

Lemma Changes_find k :
  overlay_wf →
  findb (λ c, bool_decide (sc_Key c = k)) (Changes o) =
    (λ p, MkStateChange k (ov_deleted p) (ov_value p)) <$> ov_writes o !! k.
Proof.
  intros Hkeys. destruct (findb _ (Changes o)) as [c|] eqn:E.
  - apply findb_Some in E as [Hc <-%bool_decide_eq_true]. apply Changes_elem in Hc as (p & -> & Ec); [|done].
    cbn. by rewrite <- Ec.
  - destruct (ov_writes o !! k) as [p|] eqn:Ep; [|done]. exfalso.
    apply (proj1 (findb_None _ _)) with (x := MkStateChange k (ov_deleted p) (ov_value p)) in E.
    + by rewrite bool_decide_eq_true_2 in E.
    + apply Changes_elem; [done|]. cbn. eauto.
Qed.
End changes.

Lemma apply_changes_Get l (s : Store) k :
  NoDup (sc_Key <$> l) →
  st_Get (foldl apply_change s l) k =
    match findb (λ c, bool_decide (sc_Key c = k)) l with
    | Some c => if sc_Delete c then None else Some (sc_Value c)
    | None => st_Get s k
    end.
Proof.
  revert s. induction l as [|c l IH]; intros s; simpl; [done|].
  intros [Hn Hl]%NoDup_cons. rewrite IH by done. destruct (findb _ l) as [c'|] eqn:E.
  - apply findb_Some in E as [Hc' Ek%bool_decide_eq_true].
    rewrite bool_decide_eq_false_2; [done|]. intros <-. apply Hn. rewrite <- Ek.
    apply list_elem_of_fmap. eauto.
  - unfold apply_change, st_Get. cbn.
    case_bool_decide as Ek; destruct (sc_Delete c); cbn; subst;
      rewrite ?lookup_delete_eq, ?lookup_insert_eq, ?lookup_delete_ne, ?lookup_insert_ne by done; done.
Qed.

(** A key reads as the pending write if there is one, and as before otherwise. *)
Lemma CommitTo_Get {B} (o : Overlay B) (s : Store) k :
  overlay_wf o →
  st_Get (CommitTo o s) k =
    match ov_writes o !! k with
    | Some p => if ov_deleted p then None else Some (ov_value p)
    | None => st_Get s k
    end.
Proof.
  intros Hkeys. unfold CommitTo. rewrite apply_changes_Get by by apply Changes_keys.
  rewrite Changes_find by done. by destruct (ov_writes o !! k).
Qed.

(** The overlay isolates a transaction: what it reads is its last write or
    deletion of the key and otherwise the base; its changes are sorted by key,
    one per key written; and committing them to a store makes the store read
    as the overlay did, when the overlay was over that store. *)
Lemma Overlay_commit (s : Store) (o : Overlay Reader) :
  (∀ k pending, ov_writes o !! k = Some pending → ov_key pending = k) →
  ov_base o = st_Reader s →
  sorted_keys (sc_Key <$> Changes o) ∧
  (∀ k, ov_Get o k = Returns (o, st_Get (CommitTo o s) k)) ∧
  (∀ k v k', snd <$> ov_Get (ov_Set o k v) k' =
     if decide (k' = k) then Returns (Some v) else snd <$> ov_Get o k') ∧
  (∀ k k', snd <$> ov_Get (ov_Delete o k) k' =
     if decide (k' = k) then Returns None else snd <$> ov_Get o k').
Proof.
  intros Hkeys Hbase. split; [by apply Changes_keys|]. split; [|split].
  - intros k. rewrite CommitTo_Get by done. unfold ov_Get, base_Get, reader_base. rewrite Hbase.
    destruct (ov_writes o !! k); cbn; [done|]. rewrite <- Hbase. by destruct o.
  - intros k v k'. unfold ov_Get, ov_Set, base_Get, reader_base. cbn. case_decide; subst.
    + by rewrite lookup_insert_eq.
    + rewrite lookup_insert_ne by done. destruct (ov_writes o !! k'); [done|]. by destruct (ov_base o k').
  - intros k k'. unfold ov_Get, ov_Delete, base_Get, reader_base. cbn. case_decide; subst.
    + by rewrite lookup_insert_eq.
    + rewrite lookup_insert_ne by done. destruct (ov_writes o !! k'); [done|]. by destruct (ov_base o k').
Qed.

(** A store with one key, and an overlay that overwrites it and deletes another. *)
Definition small_store : Store := st_Set (st_Set New [Byte.x01] [Byte.x07]) [Byte.x02] [].
Definition small_overlay : Overlay Reader :=
  ov_Delete (ov_Set (NewOverlay (st_Reader small_store)) [Byte.x01] [Byte.x09]) [Byte.x02].

Lemma Overlay_commit_witness :
  ov_Get small_overlay [Byte.x01] = Returns (small_overlay, Some [Byte.x09]) ∧
  st_Get (CommitTo small_overlay small_store) [Byte.x01] = Some [Byte.x09].
Proof.
  assert (st_Get (CommitTo small_overlay small_store) [Byte.x01] = Some [Byte.x09]) as E
    by (vm_compute; reflexivity).
  split; [|exact E]. rewrite <- E.
  destruct (Overlay_commit small_store small_overlay) as (_ & H & _); [|reflexivity|apply H].
  intros k p. unfold small_overlay, ov_Delete, ov_Set, NewOverlay. cbn.
  intros [[<- <-]|[_ [[<- <-]|[_ H]]%lookup_insert_Some]]%lookup_insert_Some; [done|done|].
  by rewrite lookup_empty in H.
Defined.

Lemma Snapshot_roundtrip_witness : Clone small_store = Returns small_store.
Proof. apply (Snapshot_roundtrip small_store small_store). Defined.
