(* ===== verification/Runtime.v ===== *)
(** * internal/runtime/flat/runtime.go: the transaction interpreter

    One instruction of [ExecuteWithHooks] is [step] on a [machine], which
    carries what the loop mutates: the context's polls, the hooks, the overlay,
    the result being built, the registers, the program counter and the
    ordinal.  The runtime ignores the decisions the hooks return, so a hook is
    a function of its own state that comes back, unwinds or waits. *)

From Stdlib Require Import ZArith Lia String.
From stdpp Require Import pretty.
From S2P Require Import Prelude Encoding Model State.
Local Open Scope Z_scope.

Definition ErrorInvalidMaxUnits : string := "invalid_max_units".
Definition ErrorUnknownOpcode : string := "unknown_opcode".
Definition ErrorMissingRegisterName : string := "missing_register_name".
Definition ErrorUndefinedRegister : string := "undefined_register".
Definition ErrorInvalidOperand : string := "invalid_operand".
Definition ErrorInvalidCondition : string := "invalid_condition".
Definition ErrorInvalidJumpTarget : string := "invalid_jump_target".
Definition ErrorMissingFailureCode : string := "missing_failure_code".
Definition ErrorInvalidStateValue : string := "invalid_state_value".
Definition ErrorArithmeticOverflow : string := "arithmetic_overflow".
Definition ErrorOutOfGas : string := "out_of_gas".
Definition ErrorCancelled : string := "cancelled".

Definition initialComputeDigest : Z := 0xcbf29ce484222325.

Record registerValue := MkRegisterValue { rv_value : Z; rv_exists : bool }.
Abbreviation registers := (gmap string registerValue).

(** ** control: what a hook is told *)

Record TxContext := MkTxContext {
  tc_BlockID : string;
  tc_TransactionID : string;
  tc_TxIndex : Z;
  tc_Incarnation : Z;
  tc_Ordinal : Z;
}.

Record AccessContext := MkAccessContext {
  ac_Tx : TxContext;
  ac_OperationID : string;
  ac_ProgramCounter : Z;
  ac_Key : Bytes;
}.

Record BranchContext := MkBranchContext {
  bc_Tx : TxContext;
  bc_BranchID : string;
  bc_ProgramCounter : Z;
  bc_Taken : bool;
  bc_Target : Z;
}.

Record RuntimeHooks (H : Type) := MkRuntimeHooks {
  BeforeRead : H → AccessContext → outcome H;
  BeforeWrite : H → AccessContext → outcome H;
  OnBranch : H → BranchContext → outcome H;
}.
Arguments BeforeRead {_} _. Arguments BeforeWrite {_} _. Arguments OnBranch {_} _.

(** [policy.RuntimeDefaults] *)
Definition RuntimeDefaults : RuntimeHooks unit :=
  MkRuntimeHooks unit (λ h _, Returns h) (λ h _, Returns h) (λ h _, Returns h).

(** ** Validation *)

Definition validateOperand (operand : Operand) : string :=
  if (op_Kind operand =? OperandLiteral)%string then ""
  else if (op_Kind operand =? OperandRegister)%string then
    if (op_Register operand =? "")%string then ErrorMissingRegisterName else ""
  else ErrorInvalidOperand.

Definition is_comparison (kind : string) : bool :=
  (kind =? ConditionEqual)%string || (kind =? ConditionNotEqual)%string ||
  (kind =? ConditionLess)%string || (kind =? ConditionLessEqual)%string ||
  (kind =? ConditionGreater)%string || (kind =? ConditionGreaterEq)%string.

Definition validateCondition (condition : Condition) : string :=
  if (co_Kind condition =? ConditionAlways)%string then ""
  else if (co_Kind condition =? ConditionExists)%string || (co_Kind condition =? ConditionNotExists)%string then
    if (co_Register condition =? "")%string then ErrorMissingRegisterName else ""
  else if is_comparison (co_Kind condition) then
    let code := validateOperand (co_Left condition) in
    if negb (code =? "")%string then code else validateOperand (co_Right condition)
  else ErrorInvalidCondition.

(** The [switch] of [Validate] on one instruction. *)
Definition validate_instruction (programLength : Z) (instruction : Instruction) : string :=
  let op := in_Op instruction in
  if (op =? OpRead)%string then
    if (in_Register instruction =? "")%string then ErrorMissingRegisterName else ""
  else if (op =? OpWrite)%string || (op =? OpReturn)%string then
    validateOperand (ex_Base (in_Expression instruction))
  else if (op =? OpDelete)%string || (op =? OpCompute)%string then ""
  else if (op =? OpFailIf)%string then
    if (in_ErrorCode instruction =? "")%string then ErrorMissingFailureCode
    else validateCondition (in_Condition instruction)
  else if (op =? OpJumpIf)%string then
    if (in_Target instruction <? 0) || (programLength <? in_Target instruction) then ErrorInvalidJumpTarget
    else validateCondition (in_Condition instruction)
  else ErrorUnknownOpcode.

Fixpoint validate_all (programLength : Z) (instructions : list Instruction) : string :=
  match instructions with
  | [] => ""
  | instruction :: rest =>
      let code := validate_instruction programLength instruction in
      if negb (code =? "")%string then code else validate_all programLength rest
  end.

Definition Validate (tx : Transaction) : string :=
  if MaxUnits tx =? 0 then ErrorInvalidMaxUnits
  else validate_all (Z.of_nat (length (Instructions (tx_Program tx)))) (Instructions (tx_Program tx)).

(** ** Evaluation *)

Definition operationID (transactionID instructionID : string) (programCounter : Z) : string :=
  if negb (instructionID =? "")%string then instructionID
  else (transactionID +:+ "/op-" +:+ pretty programCounter)%string.

Definition instructionCost (instruction : Instruction) : Z * bool :=
  if negb (in_Op instruction =? OpCompute)%string then (1, false)
  else if in_ComputeUnits instruction =? maxUint64 then (0, true)
  else (u64 (in_ComputeUnits instruction + 1), false).

Definition evaluateOperand (operand : Operand) (regs : registers) : Z * string :=
  if (op_Kind operand =? OperandLiteral)%string then (op_Literal operand, "")
  else if (op_Kind operand =? OperandRegister)%string then
    match regs !! op_Register operand with
    | None => (0, ErrorUndefinedRegister)
    | Some value => (rv_value value, "")
    end
  else (0, ErrorInvalidOperand).

Definition evaluateExpression (expression : Expression) (regs : registers) : Z * string :=
  let (base, code) := evaluateOperand (ex_Base expression) regs in
  if negb (code =? "")%string then (0, code)
  else if (0 <? ex_Delta expression) && (i64 (maxInt64 - ex_Delta expression) <? base) then
    (0, ErrorArithmeticOverflow)
  else if (ex_Delta expression <? 0) && (base <? i64 (minInt64 - ex_Delta expression)) then
    (0, ErrorArithmeticOverflow)
  else (i64 (base + ex_Delta expression), "").

Definition compare_values (kind : string) (left right : Z) : bool * string :=
  if (kind =? ConditionEqual)%string then (left =? right, "")
  else if (kind =? ConditionNotEqual)%string then (negb (left =? right), "")
  else if (kind =? ConditionLess)%string then (left <? right, "")
  else if (kind =? ConditionLessEqual)%string then (left <=? right, "")
  else if (kind =? ConditionGreater)%string then (right <? left, "")
  else if (kind =? ConditionGreaterEq)%string then (right <=? left, "")
  else (false, ErrorInvalidCondition).

Definition evaluateCondition (condition : Condition) (regs : registers) : bool * string :=
  if (co_Kind condition =? ConditionAlways)%string then (true, "")
  else if (co_Kind condition =? ConditionExists)%string || (co_Kind condition =? ConditionNotExists)%string then
    match regs !! co_Register condition with
    | None => (false, ErrorUndefinedRegister)
    | Some value =>
        if (co_Kind condition =? ConditionExists)%string then (rv_exists value, "")
        else (negb (rv_exists value), "")
    end
  else
    let (left, code) := evaluateOperand (co_Left condition) regs in
    if negb (code =? "")%string then (false, code) else
    let (right, code) := evaluateOperand (co_Right condition) regs in
    if negb (code =? "")%string then (false, code) else
    compare_values (co_Kind condition) left right.

Definition EncodeInt64 (value : Z) : Bytes := PutUint64 (u64 value).

Definition DecodeInt64 (encoded : Bytes) : Z * bool :=
  if negb (Z.of_nat (length encoded) =? 8) then (0, false)
  else (i64 (Uint64 encoded), true).

(** ** Results under construction *)

Definition set_status (r : TxResult) (status code : string) : TxResult :=
  MkTxResult (tr_Index r) (tr_TransactionID r) status (tr_ReturnValue r) code (UnitsUsed r)
    (ComputeDigest r) (Reads r) (Writes r) (Events r).
Definition set_units (r : TxResult) (units : Z) : TxResult :=
  MkTxResult (tr_Index r) (tr_TransactionID r) (tr_Status r) (tr_ReturnValue r) (tr_ErrorCode r) units
    (ComputeDigest r) (Reads r) (Writes r) (Events r).
Definition set_digest (r : TxResult) (digest : Z) : TxResult :=
  MkTxResult (tr_Index r) (tr_TransactionID r) (tr_Status r) (tr_ReturnValue r) (tr_ErrorCode r) (UnitsUsed r)
    digest (Reads r) (Writes r) (Events r).
Definition add_record (r : TxResult) (read : ReadRecord) : TxResult :=
  MkTxResult (tr_Index r) (tr_TransactionID r) (tr_Status r) (tr_ReturnValue r) (tr_ErrorCode r) (UnitsUsed r)
    (ComputeDigest r) (Reads r ++ [read]) (Writes r) (Events r).
Definition set_success (r : TxResult) (value : Bytes) (writes : list StateChange) : TxResult :=
  MkTxResult (tr_Index r) (tr_TransactionID r) TxStatusSuccess value (tr_ErrorCode r) (UnitsUsed r)
    (ComputeDigest r) (Reads r) writes (Events r).

Definition setEvaluationError (result : TxResult) (code : string) : TxResult :=
  set_status result
    (if (code =? ErrorArithmeticOverflow)%string then TxStatusArithmeticError else TxStatusInvalidProgram)
    code.

(** ** The compute loop *)

Definition rotateLeft13 (x : Z) : Z := Z.lor (u64 (Z.shiftl x 13)) (Z.shiftr x 51).

Definition mix (digest i pc : Z) : Z :=
  rotateLeft13 (u64 (Z.lxor digest (u64 (i + pc + 0x9e3779b97f4a7c15)) * 0x100000001b3)).

(** [n] iterations remain, the next one has index [i]. *)
Fixpoint compute_loop (n : nat) (i pc : Z) (ctx : context) (digest : Z) : context * Z * bool :=
  match n with
  | O => (ctx, digest, false)
  | S n =>
      let '(ctx, stop) := if Z.land i 1023 =? 0 then poll ctx else (ctx, false) in
      if (stop : bool) then (ctx, digest, true)
      else compute_loop n (i + 1) pc ctx (mix digest i pc)
  end.

(** ** The interpreter *)

(** How a call ends: with a result, by unwinding through a panic (the caller
    then finds the partial result in [abandoned]), or not at all. *)
Inductive completion := Finished | Unwound | Blocked.

Section interpreter.
Context {B : Type} `{!Base B} {H : Type} (hooks : RuntimeHooks H).

Record machine := MkMachine {
  m_ctx : context;
  m_hooks : H;
  m_view : Overlay B;
  m_result : TxResult;
  m_registers : registers;
  m_pc : Z;
  m_ordinal : Z;
}.

Definition put_ctx (m : machine) c :=
  MkMachine c (m_hooks m) (m_view m) (m_result m) (m_registers m) (m_pc m) (m_ordinal m).
Definition put_hooks (m : machine) h :=
  MkMachine (m_ctx m) h (m_view m) (m_result m) (m_registers m) (m_pc m) (m_ordinal m).
Definition put_view (m : machine) v :=
  MkMachine (m_ctx m) (m_hooks m) v (m_result m) (m_registers m) (m_pc m) (m_ordinal m).
Definition put_result (m : machine) r :=
  MkMachine (m_ctx m) (m_hooks m) (m_view m) r (m_registers m) (m_pc m) (m_ordinal m).
Definition put_register (m : machine) name v :=
  MkMachine (m_ctx m) (m_hooks m) (m_view m) (m_result m) (<[name := v]> (m_registers m)) (m_pc m) (m_ordinal m).
Definition put_pc (m : machine) pc :=
  MkMachine (m_ctx m) (m_hooks m) (m_view m) (m_result m) (m_registers m) pc (m_ordinal m).
Definition next_ordinal (m : machine) :=
  MkMachine (m_ctx m) (m_hooks m) (m_view m) (m_result m) (m_registers m) (m_pc m) (u64 (m_ordinal m + 1)).

(** What one iteration of the loop leads to. *)
Definition step_end : Type := machine * option completion.
Definition continue_at (m : machine) (pc : Z) : step_end := (put_pc m pc, None).
Definition return_ (m : machine) (r : TxResult) : step_end := (put_result m r, Some Finished).

(** Calls a hook, then goes on. *)
Definition after_hook (m : machine) (call : outcome H) (k : machine → step_end) : step_end :=
  match call with
  | Returns h => k (put_hooks m h)
  | Panics => (m, Some Unwound)
  | Waits => (m, Some Blocked)
  end.

Section instruction.
Context (execution : TxContext) (tx : Transaction).

Definition hook_context (m : machine) : TxContext :=
  MkTxContext (tc_BlockID execution) (tc_TransactionID execution) (tc_TxIndex execution)
    (tc_Incarnation execution) (m_ordinal m).

Definition access (m : machine) (instruction : Instruction) : AccessContext :=
  MkAccessContext (hook_context m) (operationID (tx_ID tx) (in_ID instruction) (m_pc m))
    (m_pc m) (in_Key instruction).

Definition do_read (m : machine) (instruction : Instruction) : step_end :=
  let m := next_ordinal m in
  after_hook m (BeforeRead hooks (m_hooks m) (access m instruction)) (λ m,
    match ov_Get (m_view m) (in_Key instruction) with
    | Panics => (m, Some Unwound)
    | Waits => (m, Some Blocked)
    | Returns (view, raw) =>
        let m := put_view m view in
        let '(value, ok) := match raw with Some raw => DecodeInt64 raw | None => (0, true) end in
        if negb ok then return_ m (set_status (m_result m) TxStatusInvalidState ErrorInvalidStateValue)
        else
          let exists_ := bool_decide (is_Some raw) in
          let m := put_register m (in_Register instruction) (MkRegisterValue value exists_) in
          let m := put_result m (add_record (m_result m)
                     (MkReadRecord (in_Key instruction) exists_ (default [] raw))) in
          continue_at m (m_pc m + 1)
    end).

Definition do_write (m : machine) (instruction : Instruction) : step_end :=
  let m := next_ordinal m in
  after_hook m (BeforeWrite hooks (m_hooks m) (access m instruction)) (λ m,
    let '(value, code) := evaluateExpression (in_Expression instruction) (m_registers m) in
    if negb (code =? "")%string then return_ m (setEvaluationError (m_result m) code)
    else
      let m := put_view m (ov_Set (m_view m) (in_Key instruction) (EncodeInt64 value)) in
      continue_at m (m_pc m + 1)).

Definition do_delete (m : machine) (instruction : Instruction) : step_end :=
  let m := next_ordinal m in
  after_hook m (BeforeWrite hooks (m_hooks m) (access m instruction)) (λ m,
    let m := put_view m (ov_Delete (m_view m) (in_Key instruction)) in
    continue_at m (m_pc m + 1)).

Definition do_compute (m : machine) (instruction : Instruction) : step_end :=
  let '(ctx, digest, stop) :=
    compute_loop (Z.to_nat (in_ComputeUnits instruction)) 0 (m_pc m) (m_ctx m)
      (ComputeDigest (m_result m)) in
  let m := put_result (put_ctx m ctx) (set_digest (m_result m) digest) in
  if (stop : bool) then return_ m (set_status (m_result m) TxStatusCancelled ErrorCancelled)
  else continue_at m (m_pc m + 1).

Definition do_fail_if (m : machine) (instruction : Instruction) : step_end :=
  let '(matched, code) := evaluateCondition (in_Condition instruction) (m_registers m) in
  if negb (code =? "")%string then return_ m (setEvaluationError (m_result m) code)
  else if (matched : bool) then return_ m (set_status (m_result m) TxStatusFailed (in_ErrorCode instruction))
  else continue_at m (m_pc m + 1).

Definition do_jump_if (m : machine) (instruction : Instruction) : step_end :=
  let '(matched, code) := evaluateCondition (in_Condition instruction) (m_registers m) in
  if negb (code =? "")%string then return_ m (setEvaluationError (m_result m) code)
  else
    let m := next_ordinal m in
    let branch := MkBranchContext (hook_context m) (operationID (tx_ID tx) (in_ID instruction) (m_pc m))
                    (m_pc m) matched (in_Target instruction) in
    after_hook m (OnBranch hooks (m_hooks m) branch) (λ m,
      if (matched : bool) then continue_at m (in_Target instruction) else continue_at m (m_pc m + 1)).

Definition do_return (m : machine) (instruction : Instruction) : step_end :=
  let '(value, code) := evaluateExpression (in_Expression instruction) (m_registers m) in
  if negb (code =? "")%string then return_ m (setEvaluationError (m_result m) code)
  else return_ m (set_success (m_result m) (EncodeInt64 value) (Changes (m_view m))).

(** The [switch] on the opcode; any other opcode falls through it with the
    program counter unchanged. *)
Definition dispatch (m : machine) (instruction : Instruction) : step_end :=
  let op := in_Op instruction in
  if (op =? OpRead)%string then do_read m instruction
  else if (op =? OpWrite)%string then do_write m instruction
  else if (op =? OpDelete)%string then do_delete m instruction
  else if (op =? OpCompute)%string then do_compute m instruction
  else if (op =? OpFailIf)%string then do_fail_if m instruction
  else if (op =? OpJumpIf)%string then do_jump_if m instruction
  else if (op =? OpReturn)%string then do_return m instruction
  else (m, None).

(** One iteration of the loop, [pc < len(tx.Program.Instructions)] included.
    A negative index would panic. *)
Definition step (m : machine) : step_end :=
  if Z.of_nat (length (Instructions (tx_Program tx))) <=? m_pc m then
    return_ m (set_success (m_result m) (tr_ReturnValue (m_result m)) (Changes (m_view m)))
  else
    let '(ctx, stop) := poll (m_ctx m) in
    let m := put_ctx m ctx in
    if (stop : bool) then return_ m (set_status (m_result m) TxStatusCancelled ErrorCancelled)
    else match at_index (Instructions (tx_Program tx)) (m_pc m) with
    | None => (m, Some Unwound)
    | Some instruction =>
        let '(cost, overflow) := instructionCost instruction in
        if overflow || (u64 (MaxUnits tx - UnitsUsed (m_result m)) <? cost) then
          return_ m (set_status (set_units (m_result m) (MaxUnits tx)) TxStatusOutOfGas ErrorOutOfGas)
        else
          let m := put_result m (set_units (m_result m) (u64 (UnitsUsed (m_result m) + cost))) in
          dispatch m instruction
    end.

Fixpoint loop (fuel : nat) (m : machine) : machine * completion :=
  match fuel with
  | O => (m, Blocked)
  | S fuel =>
      match step m with
      | (m', Some c) => (m', c)
      | (m', None) => loop fuel m'
      end
  end.
End instruction.

(** Every instruction costs a unit, so [MaxUnits + 1] iterations are enough. *)
Definition ExecuteWithHooks (ctx : context) (execution : TxContext) (tx : Transaction)
    (view : Overlay B) (h : H) : machine * completion :=
  let execution := if (tc_TransactionID execution =? "")%string
    then MkTxContext (tc_BlockID execution) (tx_ID tx) (tc_TxIndex execution)
           (tc_Incarnation execution) (tc_Ordinal execution)
    else execution in
  let result := MkTxResult (tc_TxIndex execution) (tx_ID tx) "" [] "" 0 initialComputeDigest [] [] [] in
  let '(ctx, stop) := poll ctx in
  let m := MkMachine ctx h view result ∅ 0 (tc_Ordinal execution) in
  if (stop : bool) then (put_result m (set_status result TxStatusCancelled ErrorCancelled), Finished)
  else
    let code := Validate tx in
    if negb (code =? "")%string then (put_result m (set_status result TxStatusInvalidProgram code), Finished)
    else loop execution tx (S (Z.to_nat (MaxUnits tx))) m.
End interpreter.

(** The caller of [Execute] gives no hooks. *)
Definition Execute {B} `{!Base B} (ctx : context) (index : Z) (tx : Transaction) (view : Overlay B)
    : machine (B:=B) (H:=unit) * completion :=
  ExecuteWithHooks RuntimeDefaults ctx (MkTxContext "" (tx_ID tx) index 0 0) tx view tt.

(** ** Codec and arithmetic *)

Lemma i64_u64 v : i64 (u64 v) = i64 v.
Proof. unfold i64, u64. f_equal. rewrite <- Zplus_mod_idemp_l, Z.mod_mod, Zplus_mod_idemp_l by done. done. Qed.

Lemma u64_i64 v : u64 (i64 v) = u64 v.
Proof. unfold i64, u64. rewrite <- Zminus_mod_idemp_l, Z.mod_mod, Zminus_mod_idemp_l by done. f_equal. lia. Qed.

Lemma EncodeInt64_length v : length (EncodeInt64 v) = 8%nat.
Proof. apply PutUint64_length. Qed.

Lemma DecodeInt64_range b v ok : DecodeInt64 b = (v, ok) → i64_range v.
Proof.
  unfold DecodeInt64. case_match; intros [= <- <-]; [unfold i64_range; lia|]. apply i64_bound.
Qed.

(** Go's types: literals, deltas and register values are [int64]s. *)
Definition operand_typed (o : Operand) : Prop := i64_range (op_Literal o).
Definition registers_typed (regs : registers) : Prop := ∀ k v, regs !! k = Some v → i64_range (rv_value v).

Record instruction_typed (i : Instruction) : Prop := {
  it_base : operand_typed (ex_Base (in_Expression i));
  it_delta : i64_range (ex_Delta (in_Expression i));
  it_units : u64_range (in_ComputeUnits i);
}.

Record tx_typed (tx : Transaction) : Prop := {
  tt_units : u64_range (MaxUnits tx);
  tt_instructions : ∀ i, i ∈ Instructions (tx_Program tx) → instruction_typed i;
}.

Lemma evaluateOperand_range o regs v code :
  operand_typed o → registers_typed regs → evaluateOperand o regs = (v, code) → i64_range v.
Proof.
  unfold evaluateOperand, operand_typed. intros Ho Hr E.
  repeat case_match; simplify_eq; eauto; unfold i64_range; lia.
Qed.

Lemma evaluateExpression_spec e regs base :
  i64_range base → i64_range (ex_Delta e) → evaluateOperand (ex_Base e) regs = (base, "") →
  evaluateExpression e regs =
    if bool_decide (i64_range (base + ex_Delta e)) then (base + ex_Delta e, "")
    else (0, ErrorArithmeticOverflow).
Proof.
  intros Hb Hd E. unfold evaluateExpression. rewrite E. cbn [String.eqb negb].
  unfold i64_range in *. unfold maxInt64, minInt64.
  destruct (0 <? ex_Delta e) eqn:E1; cbn [andb].
  - apply Z.ltb_lt in E1. rewrite (i64_id (2 ^ 63 - 1 - _)) by (unfold i64_range; lia).
    destruct (_ <? base) eqn:E2.
    + rewrite bool_decide_eq_false_2; [done|]. bool_lia.
    + replace (ex_Delta e <? 0) with false by (symmetry; apply Z.ltb_ge; lia). cbn [andb].
      rewrite bool_decide_eq_true_2 by bool_lia. f_equal. apply i64_id. unfold i64_range. bool_lia.
  - destruct (ex_Delta e <? 0) eqn:E2; cbn [andb].
    + apply Z.ltb_lt in E2. rewrite (i64_id (- 2 ^ 63 - _)) by (unfold i64_range; lia).
      destruct (base <? _) eqn:E3.
      * rewrite bool_decide_eq_false_2; [done|]. bool_lia.
      * rewrite bool_decide_eq_true_2 by bool_lia. f_equal. apply i64_id. unfold i64_range. bool_lia.
    + rewrite bool_decide_eq_true_2 by bool_lia. f_equal. apply i64_id. unfold i64_range. bool_lia.
Qed.

Lemma at_index_elem {A} (l : list A) i x : at_index l i = Some x → x ∈ l.
Proof. unfold at_index. case_match; [|done]. apply list_elem_of_lookup_2. Qed.

(** ** What validation rules out *)

Ltac string_cases :=
  repeat match goal with
  | |- context [(?a =? ?b)%string] => destruct (String.eqb_spec a b); cbn [negb orb andb]
  | H : context [(?a =? ?b)%string] |- _ => destruct (String.eqb_spec a b); cbn [negb orb andb] in H
  end.

(** Goes through a membership in a list of closed codes. *)
Ltac in_cases H :=
  rewrite ?elem_of_cons, ?elem_of_nil in H; destruct_or? H; (done || discriminate H || (simplify_eq; try done)).

Lemma validateOperand_evaluates o regs :
  validateOperand o = "" → snd (evaluateOperand o regs) ∈ [""; ErrorUndefinedRegister].
Proof.
  unfold validateOperand, evaluateOperand. intros E. string_cases; try done; cbn; [set_solver|].
  destruct (regs !! _); cbn; set_solver.
Qed.

Lemma validateCondition_evaluates c regs :
  validateCondition c = "" → snd (evaluateCondition c regs) ∈ [""; ErrorUndefinedRegister].
Proof.
  unfold validateCondition, evaluateCondition.
  destruct (String.eqb_spec (co_Kind c) ConditionAlways); [cbn; set_solver|].
  destruct (_ || _) eqn:E1.
  { intros _. destruct (regs !! _); [case_match|]; cbn; set_solver. }
  destruct (is_comparison (co_Kind c)) eqn:E2; [|done]. intros E.
  destruct (String.eqb_spec (validateOperand (co_Left c)) "") as [El|]; [|done]. cbn [negb] in E.
  pose proof (validateOperand_evaluates _ regs El) as Hl.
  pose proof (validateOperand_evaluates _ regs E) as Hr.
  destruct (evaluateOperand (co_Left c) regs) as [l code]. destruct (String.eqb_spec code ""); [|done].
  destruct (evaluateOperand (co_Right c) regs) as [r code']. destruct (String.eqb_spec code' ""); [|done].
  cbn [negb]. unfold is_comparison in E2. unfold compare_values.
  repeat (destruct (_ =? _)%string; [cbn; set_solver|]). done.
Qed.

(** An operand names a register that no read has set. *)
Definition undefined_operand (regs : registers) (o : Operand) : Prop :=
  op_Kind o = OperandRegister ∧ regs !! op_Register o = None.

Definition undefined_condition (regs : registers) (c : Condition) : Prop :=
  if decide (co_Kind c = ConditionExists ∨ co_Kind c = ConditionNotExists) then regs !! co_Register c = None
  else undefined_operand regs (co_Left c) ∨ undefined_operand regs (co_Right c).

Lemma evaluateOperand_code o regs v code :
  validateOperand o = "" → evaluateOperand o regs = (v, code) →
  code = "" ∨ code = ErrorUndefinedRegister ∧ undefined_operand regs o.
Proof.
  unfold validateOperand, evaluateOperand. intros Ev. string_cases; try done; [intros [= <- <-]; by left|].
  destruct (regs !! _) eqn:E; intros [= <- <-]; [by left|]. by right.
Qed.

Lemma evaluateCondition_code c regs b code :
  validateCondition c = "" → evaluateCondition c regs = (b, code) →
  code = "" ∨ code = ErrorUndefinedRegister ∧ undefined_condition regs c.
Proof.
  intros Hv E. pose proof (validateCondition_evaluates c regs Hv) as Hc. rewrite E in Hc. cbn in Hc.
  apply elem_of_cons in Hc as [->|Hc]; [by left|]. apply list_elem_of_singleton in Hc as ->. right. split; [done|].
  unfold validateCondition, evaluateCondition, undefined_condition in *.
  destruct (String.eqb_spec (co_Kind c) ConditionAlways); [done|].
  destruct (String.eqb_spec (co_Kind c) ConditionExists) as [He|He]; cbn [orb] in *.
  { rewrite decide_True by by left. by destruct (regs !! _). }
  destruct (String.eqb_spec (co_Kind c) ConditionNotExists) as [Hn|Hn].
  { rewrite decide_True by by right. by destruct (regs !! _). }
  rewrite decide_False by by intros [|]. destruct (is_comparison (co_Kind c)) eqn:E2; [|done].
  destruct (String.eqb_spec (validateOperand (co_Left c)) "") as [El|]; [|done]. cbn [negb] in Hv.
  destruct (evaluateOperand (co_Left c) regs) as [l cl] eqn:Ol, (evaluateOperand (co_Right c) regs) as [r cr] eqn:Or.
  destruct (evaluateOperand_code _ _ _ _ El Ol) as [->|[-> ?]]; [|by left].
  destruct (evaluateOperand_code _ _ _ _ Hv Or) as [->|[-> ?]]; [|by right].
  cbn in E. unfold compare_values in E. by repeat destruct (_ =? _)%string in E.
Qed.

(** The outcome of an expression, its arithmetic taken in the integers. *)
Inductive evaluated (e : Expression) (regs : registers) : Z * string → Prop :=
| evaluated_value base :
    evaluateOperand (ex_Base e) regs = (base, "") → i64_range (base + ex_Delta e) →
    evaluated e regs (base + ex_Delta e, "")
| evaluated_overflow base :
    evaluateOperand (ex_Base e) regs = (base, "") → ¬ i64_range (base + ex_Delta e) →
    evaluated e regs (0, ErrorArithmeticOverflow)
| evaluated_undefined :
    undefined_operand regs (ex_Base e) → evaluated e regs (0, ErrorUndefinedRegister).

Lemma evaluateExpression_cases e regs :
  registers_typed regs → operand_typed (ex_Base e) → i64_range (ex_Delta e) → validateOperand (ex_Base e) = "" →
  evaluated e regs (evaluateExpression e regs).
Proof.
  intros Hr Ho Hd Hv. destruct (evaluateOperand (ex_Base e) regs) as [base code] eqn:E.
  destruct (evaluateOperand_code _ _ _ _ Hv E) as [->|[-> Hu]].
  - rewrite (evaluateExpression_spec e regs base) by (first [done|by eapply evaluateOperand_range]).
    case_bool_decide; [by apply evaluated_value|by eapply evaluated_overflow].
  - unfold evaluateExpression. rewrite E. by apply evaluated_undefined.
Qed.

Lemma validate_all_spec n l :
  validate_all n l = "" ↔ ∀ i, i ∈ l → validate_instruction n i = "".
Proof.
  induction l as [|i l IH]; cbn [validate_all]; [by split; [intros _ i ?%elem_of_nil|]|].
  destruct (String.eqb_spec (validate_instruction n i) "") as [E|E]; cbn [negb].
  - rewrite IH. split; [intros H j [->|Hj]%elem_of_cons; auto|intros H j Hj; apply H; by right].
  - split; [done|]. intros H. destruct E. apply H. by left.
Qed.

Lemma Validate_instructions tx :
  Validate tx = "" → ∀ i, i ∈ Instructions (tx_Program tx) →
    validate_instruction (Z.of_nat (length (Instructions (tx_Program tx)))) i = "".
Proof. unfold Validate. destruct (MaxUnits tx =? 0); [done|]. by rewrite validate_all_spec. Qed.

Lemma instructionCost_spec i cost :
  u64_range (in_ComputeUnits i) → instructionCost i = (cost, false) → 1 <= cost.
Proof.
  unfold instructionCost, u64_range, maxUint64, W64. intros Hu. string_cases; [|by intros [= <-]].
  destruct (Z.eqb_spec (in_ComputeUnits i) (2 ^ 64 - 1)); [done|]. intros [= <-].
  rewrite u64_id; [lia|]. unfold u64_range, W64. lia.
Qed.

(** ** The invariant of the loop *)

Section interpreter_facts.
Context {B : Type} `{!Base B} {H : Type} (hooks : RuntimeHooks H) (execution : TxContext) (tx : Transaction).
Abbreviation len := (Z.of_nat (length (Instructions (tx_Program tx)))).

(** While the loop runs, no outcome is set yet. *)
Record running (m : machine (B:=B) (H:=H)) : Prop := {
  ru_pc : 0 <= m_pc m;
  ru_units : 0 <= UnitsUsed (m_result m) <= MaxUnits tx;
  ru_status : tr_Status (m_result m) = "";
  ru_code : tr_ErrorCode (m_result m) = "";
  ru_value : tr_ReturnValue (m_result m) = [];
  ru_writes : Writes (m_result m) = [];
  ru_regs : registers_typed (m_registers m);
}.

Definition at_instruction (m : machine (B:=B) (H:=H)) (i : Instruction) : Prop :=
  at_index (Instructions (tx_Program tx)) (m_pc m) = Some i.

Record result_is (m : machine (B:=B) (H:=H)) (status code : string) (value : Bytes) (writes : list StateChange) : Prop := {
  ri_status : tr_Status (m_result m) = status;
  ri_code : tr_ErrorCode (m_result m) = code;
  ri_value : tr_ReturnValue (m_result m) = value;
  ri_writes : Writes (m_result m) = writes;
}.

(** How an execution of a validated program ends, and at what: the machine
    still stands at the instruction that ended it. *)
Inductive ended (m : machine (B:=B) (H:=H)) : Prop :=
| ended_at_end :
    len <= m_pc m → result_is m TxStatusSuccess "" [] (Changes (m_view m)) → ended m
| ended_return i base :
    at_instruction m i → in_Op i = OpReturn →
    evaluateOperand (ex_Base (in_Expression i)) (m_registers m) = (base, "") →
    i64_range (base + ex_Delta (in_Expression i)) →
    result_is m TxStatusSuccess "" (EncodeInt64 (base + ex_Delta (in_Expression i))) (Changes (m_view m)) → ended m
| ended_failed i :
    at_instruction m i → in_Op i = OpFailIf → evaluateCondition (in_Condition i) (m_registers m) = (true, "") →
    in_ErrorCode i ≠ "" → result_is m TxStatusFailed (in_ErrorCode i) [] [] → ended m
| ended_state i view raw :
    at_instruction m i → in_Op i = OpRead → ov_Get view (in_Key i) = Returns (m_view m, Some raw) →
    length raw ≠ 8%nat → result_is m TxStatusInvalidState ErrorInvalidStateValue [] [] → ended m
| ended_overflow i base :
    at_instruction m i → in_Op i = OpWrite ∨ in_Op i = OpReturn →
    evaluateOperand (ex_Base (in_Expression i)) (m_registers m) = (base, "") →
    ¬ i64_range (base + ex_Delta (in_Expression i)) →
    result_is m TxStatusArithmeticError ErrorArithmeticOverflow [] [] → ended m
| ended_undefined i :
    at_instruction m i →
    (in_Op i = OpWrite ∨ in_Op i = OpReturn) ∧ undefined_operand (m_registers m) (ex_Base (in_Expression i)) ∨
    (in_Op i = OpFailIf ∨ in_Op i = OpJumpIf) ∧ undefined_condition (m_registers m) (in_Condition i) →
    result_is m TxStatusInvalidProgram ErrorUndefinedRegister [] [] → ended m
| ended_gas i used :
    at_instruction m i → 0 <= used <= MaxUnits tx →
    MaxUnits tx < used + 1 + (if decide (in_Op i = OpCompute) then in_ComputeUnits i else 0) →
    UnitsUsed (m_result m) = MaxUnits tx →
    result_is m TxStatusOutOfGas ErrorOutOfGas [] [] → ended m
| ended_cancelled :
    m_ctx m = Some 0%nat → result_is m TxStatusCancelled ErrorCancelled [] [] → ended m.

Record final (m : machine (B:=B) (H:=H)) : Prop := {
  fi_units : 0 <= UnitsUsed (m_result m) <= MaxUnits tx;
  fi_ended : ended m;
}.

Lemma running_result m status code :
  running m → result_is (put_result m (set_status (m_result m) status code)) status code [] [].
Proof. intros []. by split. Qed.

(** An expression or a condition that fails ends the run. *)
Lemma final_undefined m i :
  running m → at_instruction m i →
  (in_Op i = OpWrite ∨ in_Op i = OpReturn) ∧ undefined_operand (m_registers m) (ex_Base (in_Expression i)) ∨
  (in_Op i = OpFailIf ∨ in_Op i = OpJumpIf) ∧ undefined_condition (m_registers m) (in_Condition i) →
  final (put_result m (setEvaluationError (m_result m) ErrorUndefinedRegister)).
Proof. intros Hm Hi Hu. split; [apply Hm|]. by apply (ended_undefined _ i); [| |apply running_result]. Qed.

Lemma final_overflow m i base :
  running m → at_instruction m i → in_Op i = OpWrite ∨ in_Op i = OpReturn →
  evaluateOperand (ex_Base (in_Expression i)) (m_registers m) = (base, "") →
  ¬ i64_range (base + ex_Delta (in_Expression i)) →
  final (put_result m (setEvaluationError (m_result m) ErrorArithmeticOverflow)).
Proof. intros Hm Hi Ho He Hr. split; [apply Hm|]. by apply (ended_overflow _ i base); [..|apply running_result]. Qed.

(** What a step may lead to from a running machine. *)
Definition step_good (m : machine (B:=B) (H:=H)) (e : step_end (B:=B) (H:=H)) : Prop :=
  let (m', c) := e in
  match c with
  | None => running m' ∧ UnitsUsed (m_result m') = UnitsUsed (m_result m)
  | Some Finished => final m'
  | Some _ => 0 <= UnitsUsed (m_result m') <= MaxUnits tx
  end.

Lemma running_pc m pc : running m → 0 <= pc → running (put_pc m pc).
Proof. intros [] ?. by split. Qed.

Lemma good_continue m m' pc :
  running m' → UnitsUsed (m_result m') = UnitsUsed (m_result m) → 0 <= pc → step_good m (continue_at m' pc).
Proof. intros. split; [by apply running_pc|done]. Qed.

Lemma good_hook m m' call k :
  running m' → (∀ h, running (put_hooks m' h) → step_good m (k (put_hooks m' h))) →
  step_good m (after_hook m' call k).
Proof.
  intros Hr Hk. destruct call as [h| |]; cbn; [|apply Hr..]. apply Hk. by destruct Hr.
Qed.

Context (Htyped : tx_typed tx).

Lemma do_read_good m i :
  running m → at_instruction m i → in_Op i = OpRead → step_good m (do_read hooks execution tx m i).
Proof.
  intros Hm Hi Hop. apply good_hook; [by destruct Hm|]. intros h Hr. cbn.
  destruct (ov_Get (m_view m) (in_Key i)) as [[view raw]| |] eqn:Eg; [|by apply Hm..].
  destruct (match raw with Some raw => DecodeInt64 raw | None => (0, true) end) as [value ok] eqn:E.
  destruct ok; cbn.
  - split; [|done]. split; cbn; try apply Hr; [pose proof (ru_pc _ Hm); lia|].
    intros k v [[<- <-]|[_ Hv]]%lookup_insert_Some; [|by eapply (ru_regs _ Hm)]. cbn.
    destruct raw; [by eapply DecodeInt64_range|]. simplify_eq. unfold i64_range; lia.
  - split; [apply Hm|]. destruct raw as [raw|]; [|done].
    apply (ended_state _ i (m_view m) raw); [done|done|done| |by destruct Hm; split].
    intros El. unfold DecodeInt64 in E. by rewrite El in E.
Qed.

Lemma running_evaluates m i :
  running m → at_instruction m i → validateOperand (ex_Base (in_Expression i)) = "" →
  evaluated (in_Expression i) (m_registers m) (evaluateExpression (in_Expression i) (m_registers m)).
Proof.
  intros Hm Hi Hv. destruct (tt_instructions _ Htyped i (at_index_elem _ _ _ Hi)).
  apply evaluateExpression_cases; [apply Hm|done..].
Qed.

Lemma do_write_good m i :
  running m → at_instruction m i → in_Op i = OpWrite → validateOperand (ex_Base (in_Expression i)) = "" →
  step_good m (do_write hooks execution tx m i).
Proof.
  intros Hm Hi Hop Hv. apply good_hook; [by destruct Hm|]. intros h Hr. cbn.
  destruct (running_evaluates m i Hm Hi Hv) as [base E Hb|base E Hb|Hu]; cbn.
  - split; [|done]. split; cbn; try apply Hr. pose proof (ru_pc _ Hm). lia.
  - apply (final_overflow (put_hooks (next_ordinal m) h) i base); auto.
  - apply (final_undefined (put_hooks (next_ordinal m) h) i); auto.
Qed.

Lemma do_delete_good m i : running m → step_good m (do_delete hooks execution tx m i).
Proof.
  intros Hm. apply good_hook; [by destruct Hm|]. intros h Hr. cbn.
  split; [|done]. split; cbn; try apply Hr. pose proof (ru_pc _ Hm). lia.
Qed.

Lemma poll_stops ctx ctx' : poll ctx = (ctx', true) → ctx' = Some 0%nat.
Proof. destruct ctx as [[]|]; cbn; congruence. Qed.

Lemma compute_loop_stops n i pc ctx digest ctx' digest' :
  compute_loop n i pc ctx digest = (ctx', digest', true) → ctx' = Some 0%nat.
Proof.
  revert i ctx digest. induction n as [|n IH]; intros i ctx digest; cbn [compute_loop]; [done|].
  destruct (_ =? 0).
  - destruct (poll ctx) as [ctx1 []] eqn:E; [intros [= <- _]; by eapply poll_stops|apply IH].
  - apply IH.
Qed.

Lemma do_compute_good m i : running m → step_good m (do_compute m i).
Proof.
  intros Hm. unfold do_compute.
  destruct (compute_loop _ _ _ _ _) as [[ctx digest] stop] eqn:E. destruct stop; cbn.
  - split; [apply Hm|]. apply ended_cancelled; [by eapply compute_loop_stops|by destruct Hm; split].
  - split; [|done]. split; cbn; try apply Hm. pose proof (ru_pc _ Hm). lia.
Qed.

Lemma do_fail_if_good m i :
  running m → at_instruction m i → in_Op i = OpFailIf →
  in_ErrorCode i ≠ "" → validateCondition (in_Condition i) = "" → step_good m (do_fail_if m i).
Proof.
  intros Hm Hi Hop He Hv. unfold do_fail_if. destruct (evaluateCondition _ _) as [matched code] eqn:E.
  destruct (evaluateCondition_code _ _ _ _ Hv E) as [->|[-> Hu]]; cbn.
  - destruct matched; cbn.
    + split; [apply Hm|]. by apply (ended_failed _ i); [..|apply running_result].
    + split; [|done]. apply running_pc; [done|]. pose proof (ru_pc _ Hm). lia.
  - apply (final_undefined m i); auto.
Qed.

Lemma do_jump_if_good m i :
  running m → at_instruction m i → in_Op i = OpJumpIf →
  0 <= in_Target i → validateCondition (in_Condition i) = "" →
  step_good m (do_jump_if hooks execution tx m i).
Proof.
  intros Hm Hi Hop He Hv. unfold do_jump_if. destruct (evaluateCondition _ _) as [matched code] eqn:E.
  destruct (evaluateCondition_code _ _ _ _ Hv E) as [->|[-> Hu]]; cbn [String.eqb negb].
  - apply good_hook; [by destruct Hm|]. intros h Hr. pose proof (ru_pc _ Hm).
    destruct matched; apply good_continue; try done. cbn. lia.
  - apply (final_undefined m i); auto.
Qed.

Lemma do_return_good m i :
  running m → at_instruction m i → in_Op i = OpReturn →
  validateOperand (ex_Base (in_Expression i)) = "" → step_good m (do_return m i).
Proof.
  intros Hm Hi Hop Hv. unfold do_return.
  destruct (running_evaluates m i Hm Hi Hv) as [base E Hb|base E Hb|Hu]; cbn.
  - split; [apply Hm|]. apply (ended_return _ i base); [done..|]. destruct Hm. by split.
  - apply (final_overflow m i base); auto.
  - apply (final_undefined m i); auto.
Qed.

Lemma dispatch_good m i :
  running m → at_instruction m i → validate_instruction len i = "" → step_good m (dispatch hooks execution tx m i).
Proof.
  intros Hm Hi Hv. unfold validate_instruction in Hv. cbv zeta in Hv. unfold dispatch.
  destruct (String.eqb_spec (in_Op i) OpRead) as [E|]; [rewrite ?E in Hv; by apply do_read_good|].
  destruct (String.eqb_spec (in_Op i) OpWrite) as [E|]; [rewrite ?E in Hv; by apply do_write_good|].
  destruct (String.eqb_spec (in_Op i) OpDelete) as [E|]; [rewrite ?E in Hv; by apply do_delete_good|].
  destruct (String.eqb_spec (in_Op i) OpCompute) as [E|]; [rewrite ?E in Hv; by apply do_compute_good|].
  destruct (String.eqb_spec (in_Op i) OpFailIf) as [E|].
  { rewrite ?E in Hv. cbn in Hv. destruct (String.eqb_spec (in_ErrorCode i) ""); [done|]. by apply do_fail_if_good. }
  destruct (String.eqb_spec (in_Op i) OpJumpIf) as [E|].
  { rewrite ?E in Hv. cbn in Hv. destruct (in_Target i <? 0) eqn:E'; [done|]. apply Z.ltb_ge in E'.
    destruct (_ <? in_Target i); [done|]. by apply do_jump_if_good. }
  destruct (String.eqb_spec (in_Op i) OpReturn) as [E|]; [rewrite ?E in Hv; by apply do_return_good|].
  done.
Qed.

Context (Hvalid : ∀ i, i ∈ Instructions (tx_Program tx) → validate_instruction len i = "").

(** Each step either ends the run or uses up at least one unit. *)
Definition step_progress (m : machine (B:=B) (H:=H)) (e : step_end (B:=B) (H:=H)) : Prop :=
  let (m', c) := e in
  match c with
  | None => running m' ∧ UnitsUsed (m_result m) < UnitsUsed (m_result m')
  | Some Finished => final m'
  | Some _ => 0 <= UnitsUsed (m_result m') <= MaxUnits tx
  end.

Lemma instructionCost_over i cost overflow used :
  u64_range (in_ComputeUnits i) → 0 <= used <= MaxUnits tx → MaxUnits tx < W64 → instructionCost i = (cost, overflow) →
  overflow || (u64 (MaxUnits tx - used) <? cost) = true →
  MaxUnits tx < used + 1 + (if decide (in_Op i = OpCompute) then in_ComputeUnits i else 0).
Proof.
  unfold instructionCost, u64_range. intros Hu Hused Hmax. rewrite (u64_id (_ - _)) by (unfold u64_range; lia).
  destruct (String.eqb_spec (in_Op i) OpCompute) as [E|E]; cbn [negb].
  2:{ intros [= <- <-]. rewrite decide_False by done. cbn. bool_lia. }
  rewrite decide_True by done. unfold maxUint64. destruct (Z.eqb_spec (in_ComputeUnits i) (2 ^ 64 - 1)) as [Em|Em].
  - intros _ _. unfold W64 in Hmax. lia.
  - intros [= <- <-]. rewrite u64_id by (unfold u64_range, W64 in *; lia). cbn. bool_lia.
Qed.

Lemma step_ok m : running m → step_progress m (step hooks execution tx m).
Proof.
  intros Hm. unfold step. pose proof (tt_units _ Htyped) as Hmax. pose proof (ru_units _ Hm) as Hu.
  unfold u64_range in Hmax.
  destruct (len <=? m_pc m) eqn:Epc.
  { apply Z.leb_le in Epc. split; [done|]. apply ended_at_end; [done|]. by destruct Hm; split. }
  destruct (poll (m_ctx m)) as [ctx []] eqn:Ep; cbv zeta.
  { split; [done|]. apply ended_cancelled; [by eapply poll_stops|]. by destruct Hm; split. }
  cbn [m_pc put_ctx m_result]. destruct (at_index _ (m_pc m)) as [i|] eqn:Ei; [|done].
  destruct (instructionCost i) as [cost overflow] eqn:Ec. pose proof (at_index_elem _ _ _ Ei) as Hin.
  pose proof (it_units _ (tt_instructions _ Htyped i Hin)) as Hiu.
  destruct (overflow || _) eqn:El.
  { split; cbn; [lia|]. apply (ended_gas _ i (UnitsUsed (m_result m))); [done|done| |done|by destruct Hm; split].
    eapply instructionCost_over; [exact Hiu|exact Hu|apply Hmax|exact Ec|exact El]. }
  apply orb_false_iff in El as [-> El]. rewrite (u64_id (_ - _)) in El by (unfold u64_range; lia).
  apply instructionCost_spec in Ec; [|done].
  apply Z.ltb_ge in El. rewrite (u64_id (_ + _)) by (unfold u64_range; lia).
  set (m1 := put_result (put_ctx m ctx) _).
  assert (running m1) as Hm1 by (destruct Hm; split; cbn; [done|lia|done..]).
  pose proof (dispatch_good m1 i Hm1 Ei (Hvalid i Hin)) as Hg.
  destruct (dispatch hooks execution tx m1 i) as [m' [[]|]]; [done..|]. destruct Hg as [Hr' Eu]. split; [done|]. rewrite Eu. cbn. lia.
Qed.

Lemma loop_ok fuel m m' c :
  running m → loop hooks execution tx fuel m = (m', c) →
  0 <= UnitsUsed (m_result m') <= MaxUnits tx ∧
  (c = Finished → final m').
Proof.
  revert m. induction fuel as [|fuel IH]; intros m Hm; cbn [loop].
  { intros [= <- <-]. split; [apply Hm|done]. }
  pose proof (step_ok m Hm) as Hs. destruct (step hooks execution tx m) as [m1 c1].
  destruct c1 as [c1|].
  - intros [= <- <-]. destruct c1; (split; [by apply Hs|done]).
  - destruct Hs as [Hr _]. by apply IH.
Qed.

(** The machine [ExecuteWithHooks] starts its loop in is running. *)
Lemma initial_running ctx h view result ordinal :
  UnitsUsed result = 0 → tr_Status result = "" → tr_ErrorCode result = "" → tr_ReturnValue result = [] →
  Writes result = [] →
  running (MkMachine ctx h view result ∅ 0 ordinal).
Proof.
  intros Hu Hs Hc Hv Hw. pose proof (tt_units _ Htyped) as Hmax. unfold u64_range in Hmax.
  split; cbn; [lia|lia|done..|]. intros k v Hk. by rewrite lookup_empty in Hk.
Qed.

(** *** Coming back *)

(** The hooks come back, and keep [P], when they are called in [P]. *)
Definition hooks_return (P : H → Prop) : Prop :=
  (∀ h a, P h → ∃ h', BeforeRead hooks h a = Returns h' ∧ P h') ∧
  (∀ h a, P h → ∃ h', BeforeWrite hooks h a = Returns h' ∧ P h') ∧
  (∀ h b, P h → ∃ h', OnBranch hooks h b = Returns h' ∧ P h').

(** So does the base, which keeps [Q]. *)
Definition base_returns (Q : B → Prop) : Prop :=
  ∀ b key, Q b → ∃ b' value, base_Get b key = Returns (b', value) ∧ Q b'.

Context (P : H → Prop) (Q : B → Prop).

(** The hooks and the base of a machine are in [P] and [Q]. *)
Definition in_step (m : machine (B:=B) (H:=H)) : Prop := P (m_hooks m) ∧ Q (ov_base (m_view m)).

(** A step that came back. *)
Definition returned (e : step_end (B:=B) (H:=H)) : Prop := (e.2 = None ∨ e.2 = Some Finished) ∧ in_step e.1.

Lemma after_hook_returns m call k :
  (∃ h, call = Returns h ∧ P h) → Q (ov_base (m_view m)) →
  (∀ h, in_step (put_hooks m h) → returned (k (put_hooks m h))) → returned (after_hook m call k).
Proof. intros (h & -> & Hh) Hq Hk. by apply Hk. Qed.

Lemma dispatch_returns m i :
  hooks_return P → base_returns Q → in_step m → returned (dispatch hooks execution tx m i).
Proof.
  intros (Hr & Hw & Hb) Hbase Hm. pose proof Hm as [Hp Hq].
  assert (∀ r, returned (put_result m r, Some Finished)) as Hend by (split; [by right|done]).
  assert (∀ pc, returned (continue_at m pc)) as Hgo by (split; [by left|done]).
  unfold dispatch. destruct (_ =? OpRead)%string.
  { unfold do_read. cbv zeta. apply after_hook_returns; [by apply Hr|done|]. intros h [Hh _].
    assert (∃ view v, ov_Get (m_view m) (in_Key i) = Returns (view, v) ∧ Q (ov_base view)) as (view & v & E & Hv).
    { unfold ov_Get. destruct (ov_writes (m_view m) !! _) as [p|]; [by do 2 eexists|].
      destruct (Hbase (ov_base (m_view m)) (in_Key i) Hq) as (b & v & -> & Hb'). by do 2 eexists. }
    cbn [m_view put_hooks next_ordinal]. rewrite E.
    destruct (match v with Some raw => DecodeInt64 raw | None => _ end) as [value []]; (split; [cbn; auto|done]). }
  destruct (_ =? OpWrite)%string.
  { unfold do_write. cbv zeta. apply after_hook_returns; [by apply Hw|done|]. intros h [Hh _].
    destruct (evaluateExpression _ _). destruct (_ =? "")%string; (split; [cbn; auto|done]). }
  destruct (_ =? OpDelete)%string.
  { unfold do_delete. cbv zeta. apply after_hook_returns; [by apply Hw|done|]. intros h [Hh _].
    split; [cbn; auto|done]. }
  destruct (_ =? OpCompute)%string.
  { unfold do_compute. destruct (compute_loop _ _ _ _ _) as [[? ?] []]; (split; [cbn; auto|done]). }
  destruct (_ =? OpFailIf)%string.
  { unfold do_fail_if. destruct (evaluateCondition _ _) as [matched code].
    destruct (_ =? "")%string; cbn [negb]; [destruct matched; [apply Hend|apply Hgo]|apply Hend]. }
  destruct (_ =? OpJumpIf)%string.
  { unfold do_jump_if. destruct (evaluateCondition _ _) as [matched code].
    destruct (_ =? "")%string; cbn [negb]; [|by apply Hend]. cbv zeta.
    apply after_hook_returns; [by apply Hb|done|]. intros h [Hh _]. destruct matched; (split; [cbn; auto|done]). }
  destruct (_ =? OpReturn)%string; [|split; [by left|done]].
  unfold do_return. destruct (evaluateExpression _ _). destruct (_ =? "")%string; by apply Hend.
Qed.

Lemma step_returns m :
  hooks_return P → base_returns Q → in_step m → running m → returned (step hooks execution tx m).
Proof.
  intros Hh Hb Hp Hm. unfold step. destruct (len <=? m_pc m) eqn:Epc; [split; [by right|done]|].
  destruct (poll (m_ctx m)) as [ctx []]; [split; [by right|done]|]. cbv zeta. cbn [m_pc put_ctx].
  apply Z.leb_gt in Epc. pose proof (ru_pc _ Hm).
  destruct (at_index_in (Instructions (tx_Program tx)) (m_pc m)) as [i ->]; [lia|].
  destruct (instructionCost i) as [cost overflow]. destruct (overflow || _); [split; [by right|done]|].
  by apply dispatch_returns.
Qed.

Lemma loop_returns fuel m :
  hooks_return P → base_returns Q → in_step m → running m →
  MaxUnits tx - UnitsUsed (m_result m) < Z.of_nat fuel →
  snd (loop hooks execution tx fuel m) = Finished ∧ in_step (fst (loop hooks execution tx fuel m)).
Proof.
  intros Hh Hb. revert m. induction fuel as [|fuel IH]; intros m Hp Hm Hf; cbn [loop].
  { pose proof (ru_units _ Hm). lia. }
  pose proof (step_ok m Hm) as Hs. pose proof (step_returns m Hh Hb Hp Hm) as [Hr Hp1].
  destruct (step hooks execution tx m) as [m1 c1]. cbn in Hr, Hp1.
  destruct Hr as [-> | ->]; [|done]. destruct Hs as [Hm1 Hu].
  apply IH; [done|done|lia].
Qed.
End interpreter_facts.

(** ** A context that is never cancelled *)

Section calm.
Context {B : Type} `{!Base B} {H : Type} (hooks : RuntimeHooks H) (execution : TxContext) (tx : Transaction).

Lemma compute_loop_calm n i pc digest :
  ∃ digest', compute_loop n i pc background digest = (background, digest', false).
Proof.
  revert i digest. induction n as [|n IH]; intros i digest; cbn [compute_loop]; [by eexists|].
  destruct (Z.land i 1023 =? 0); cbn; apply IH.
Qed.

(** Nothing is cancelled under such a context. *)
Definition calm (m : machine (B:=B) (H:=H)) : Prop :=
  m_ctx m = background ∧ tr_Status (m_result m) ≠ TxStatusCancelled.

Lemma setEvaluationError_calm r code : tr_Status (setEvaluationError r code) ≠ TxStatusCancelled.
Proof. unfold setEvaluationError. cbn. by destruct (code =? _)%string. Qed.

Lemma dispatch_calm m i : calm m → calm (dispatch hooks execution tx m i).1.
Proof.
  intros Hm. pose proof Hm as [Hc Hs]. pose proof setEvaluationError_calm as He. unfold dispatch.
  destruct (_ =? OpRead)%string.
  { unfold do_read, after_hook. cbv zeta. destruct (BeforeRead hooks _ _) as [h| |]; [|done..]. cbn.
    destruct (ov_Get _ _) as [[view raw]| |]; [|done..].
    by destruct (match raw with Some _ => _ | None => _ end) as [? []]. }
  destruct (_ =? OpWrite)%string.
  { unfold do_write, after_hook. destruct (BeforeWrite hooks _ _); [|done..].
    cbn. destruct (evaluateExpression _ _). destruct (_ =? "")%string; [done|split; [done|apply He]]. }
  destruct (_ =? OpDelete)%string.
  { unfold do_delete, after_hook. by destruct (BeforeWrite hooks _ _). }
  destruct (_ =? OpCompute)%string.
  { unfold do_compute. rewrite Hc.
    destruct (compute_loop_calm (Z.to_nat (in_ComputeUnits i)) 0 (m_pc m) (ComputeDigest (m_result m)))
      as [digest ->]. done. }
  destruct (_ =? OpFailIf)%string.
  { unfold do_fail_if. destruct (evaluateCondition _ _) as [[] ?]; destruct (_ =? "")%string; try done; (split; [done|apply He]). }
  destruct (_ =? OpJumpIf)%string.
  { unfold do_jump_if, after_hook. destruct (evaluateCondition _ _) as [matched ?].
    destruct (_ =? "")%string; [|split; [done|apply He]]. cbn. destruct (OnBranch hooks _ _); [|done..]. by destruct matched. }
  destruct (_ =? OpReturn)%string; [|done].
  unfold do_return. destruct (evaluateExpression _ _). destruct (_ =? "")%string; try done; (split; [done|apply He]).
Qed.

Lemma step_calm m : calm m → calm (step hooks execution tx m).1.
Proof.
  intros Hm. pose proof Hm as [Hc Hs]. unfold step. destruct (_ <=? m_pc m); [done|]. rewrite Hc. cbn [poll background].
  cbv zeta. destruct (at_index _ _) as [i|]; [|done]. destruct (instructionCost i) as [cost overflow].
  destruct (overflow || _); [done|]. by apply dispatch_calm.
Qed.

Lemma loop_calm fuel m : calm m → calm (loop hooks execution tx fuel m).1.
Proof.
  revert m. induction fuel as [|fuel IH]; intros m Hm; cbn [loop]; [done|].
  pose proof (step_calm m Hm) as H1. destruct (step hooks execution tx m) as [m1 [c|]]; [done|]. by apply IH.
Qed.
End calm.

Lemma ExecuteWithHooks_calm {B} `{!Base B} {H} (hooks : RuntimeHooks H) execution tx (view : Overlay B) h :
  calm (ExecuteWithHooks hooks background execution tx view h).1.
Proof.
  unfold ExecuteWithHooks. cbv zeta. cbn [poll background]. destruct (negb _); [done|]. by apply loop_calm.
Qed.

(** ** The overlay of an execution stays well formed *)

Section keyed.
Context {B : Type} `{!Base B} {H : Type} (hooks : RuntimeHooks H) (execution : TxContext) (tx : Transaction).

Definition keyed (m : machine (B:=B) (H:=H)) : Prop := overlay_wf (m_view m).

Lemma pending_keyed (o : Overlay B) key p :
  overlay_wf o → ov_key p = key → overlay_wf (MkOverlay (ov_base o) (<[key := p]> (ov_writes o))).
Proof.
  intros Ho Hp k p'. cbn. destruct (decide (k = key)) as [->|Hk].
  - rewrite lookup_insert_eq. by intros [= <-].
  - rewrite lookup_insert_ne by done. apply Ho.
Qed.

Lemma dispatch_keyed m i : keyed m → keyed (dispatch hooks execution tx m i).1.
Proof.
  unfold keyed. intros Hm. unfold dispatch. destruct (_ =? OpRead)%string.
  { unfold do_read, after_hook. cbv zeta. destruct (BeforeRead hooks _ _) as [h| |]; [|done..]. cbn.
    destruct (ov_Get _ _) as [[view raw]| |] eqn:E; [|done..]. apply ov_Get_writes in E.
    destruct (match raw with Some _ => _ | None => _ end) as [? []]; unfold overlay_wf; cbn; by rewrite E. }
  destruct (_ =? OpWrite)%string.
  { unfold do_write, after_hook. destruct (BeforeWrite hooks _ _); [|done..].
    cbn. destruct (evaluateExpression _ _). destruct (_ =? "")%string; [by apply pending_keyed|done]. }
  destruct (_ =? OpDelete)%string.
  { unfold do_delete, after_hook. destruct (BeforeWrite hooks _ _); [by apply pending_keyed|done..]. }
  destruct (_ =? OpCompute)%string.
  { unfold do_compute. by destruct (compute_loop _ _ _ _ _) as [[? ?] []]. }
  destruct (_ =? OpFailIf)%string.
  { unfold do_fail_if. by destruct (evaluateCondition _ _) as [[] ?]; destruct (_ =? "")%string. }
  destruct (_ =? OpJumpIf)%string.
  { unfold do_jump_if, after_hook. destruct (evaluateCondition _ _) as [matched ?].
    destruct (_ =? "")%string; [|done]. cbn. destruct (OnBranch hooks _ _); [by destruct matched|done..]. }
  destruct (_ =? OpReturn)%string; [|done].
  unfold do_return. destruct (evaluateExpression _ _). by destruct (_ =? "")%string.
Qed.

Lemma step_keyed m : keyed m → keyed (step hooks execution tx m).1.
Proof.
  intros Hm. unfold step. destruct (_ <=? m_pc m); [done|]. destruct (poll (m_ctx m)) as [ctx []]; [done|].
  cbv zeta. destruct (at_index _ _) as [i|]; [|done]. destruct (instructionCost i) as [cost overflow].
  destruct (overflow || _); [done|]. by apply dispatch_keyed.
Qed.

Lemma loop_keyed fuel m : keyed m → keyed (loop hooks execution tx fuel m).1.
Proof.
  revert m. induction fuel as [|fuel IH]; intros m Hm; cbn [loop]; [done|].
  pose proof (step_keyed m Hm) as H1. destruct (step hooks execution tx m) as [m1 [c|]]; [done|]. by apply IH.
Qed.

End keyed.

Lemma ExecuteWithHooks_keyed {B} `{!Base B} {H} (hooks : RuntimeHooks H) ctx execution tx (base : B) h :
  keyed (ExecuteWithHooks hooks ctx execution tx (NewOverlay base) h).1.
Proof.
  assert (overlay_wf (NewOverlay base)) as Hn.
  { intros k p E. cbn in E. by rewrite lookup_empty in E. }
  unfold ExecuteWithHooks. cbv zeta. destruct (poll ctx) as [ctx' []]; [exact Hn|].
  destruct (negb _); [exact Hn|]. apply loop_keyed. exact Hn.
Qed.
Section status.
Context {B : Type} `{!Base B} {H : Type} (hooks : RuntimeHooks H) (execution : TxContext) (tx : Transaction).

(** A step that goes on has no status yet. *)
Lemma dispatch_status (m : machine (B:=B) (H:=H)) i :
  tr_Status (m_result m) = "" →
  (dispatch hooks execution tx m i).2 = None → tr_Status (m_result (dispatch hooks execution tx m i).1) = "".
Proof.
  intros Hs. unfold dispatch. destruct (_ =? OpRead)%string.
  { unfold do_read, after_hook. cbv zeta. destruct (BeforeRead hooks _ _) as [h| |]; [|done..]. cbn.
    destruct (ov_Get _ _) as [[view raw]| |]; [|done..].
    by destruct (match raw with Some _ => _ | None => _ end) as [? []]. }
  destruct (_ =? OpWrite)%string.
  { unfold do_write, after_hook. destruct (BeforeWrite hooks _ _); [|done..].
    cbn. destruct (evaluateExpression _ _). by destruct (_ =? "")%string. }
  destruct (_ =? OpDelete)%string.
  { unfold do_delete, after_hook. by destruct (BeforeWrite hooks _ _). }
  destruct (_ =? OpCompute)%string.
  { unfold do_compute. by destruct (compute_loop _ _ _ _ _) as [[? ?] []]. }
  destruct (_ =? OpFailIf)%string.
  { unfold do_fail_if. destruct (evaluateCondition _ _) as [[] ?]; by destruct (_ =? "")%string. }
  destruct (_ =? OpJumpIf)%string.
  { unfold do_jump_if, after_hook. destruct (evaluateCondition _ _) as [matched ?].
    destruct (_ =? "")%string; [|done]. cbn. destruct (OnBranch hooks _ _); [|done..]. by destruct matched. }
  destruct (_ =? OpReturn)%string; [|done].
  unfold do_return. destruct (evaluateExpression _ _). by destruct (_ =? "")%string.
Qed.

Lemma step_status (m : machine (B:=B) (H:=H)) :
  tr_Status (m_result m) = "" →
  (step hooks execution tx m).2 = None → tr_Status (m_result (step hooks execution tx m).1) = "".
Proof.
  intros Hs. unfold step. destruct (_ <=? m_pc m); [done|].
  destruct (poll (m_ctx m)) as [ctx []]; [done|]. cbv zeta.
  destruct (at_index _ _) as [i|]; [|done]. destruct (instructionCost i) as [cost overflow].
  destruct (overflow || _); [done|]. by apply dispatch_status.
Qed.

End status.

(** ** What the hooks and the context leave unchanged *)

Section strip.
Context {B : Type} `{!Base B} {H : Type} (hooks : RuntimeHooks H).
Context (execution execution' : TxContext) (tx : Transaction).

(** The machine without its hooks, under a context that is never cancelled,
    with another ordinal. *)
Definition strip (ordinal : Z) (m : machine (B:=B) (H:=H)) : machine (B:=B) (H:=unit) :=
  MkMachine background tt (m_view m) (m_result m) (m_registers m) (m_pc m) ordinal.

(** [e] ended well; the bare interpreter ends alike. *)
Definition stripped (e : step_end (B:=B) (H:=H)) (e' : step_end (B:=B) (H:=unit)) : Prop :=
  e.2 = None ∨ e.2 = Some Finished → tr_Status (m_result e.1) ≠ TxStatusCancelled →
  ∃ ordinal, e' = (strip ordinal e.1, e.2).

Lemma compute_loop_background n i pc ctx digest ctx' digest' :
  compute_loop n i pc ctx digest = (ctx', digest', false) →
  compute_loop n i pc background digest = (background, digest', false).
Proof.
  revert i ctx digest. induction n as [|n IH]; intros i ctx digest; cbn [compute_loop].
  { by intros [= _ ->]. }
  destruct (Z.land i 1023 =? 0); [|apply IH]. destruct (poll ctx) as [ctx1 []]; [done|]. apply IH.
Qed.

Lemma dispatch_strip o m i :
  stripped (dispatch hooks execution tx m i) (dispatch RuntimeDefaults execution' tx (strip o m) i).
Proof.
  unfold stripped, dispatch. destruct (_ =? OpRead)%string.
  { unfold do_read, after_hook. cbv zeta. destruct (BeforeRead hooks _ _) as [h| |]; [|by intros [|]..]. cbn.
    destruct (ov_Get (m_view m) (in_Key i)) as [[view raw]| |]; [|by intros [|]..].
    destruct (match raw with Some _ => _ | None => _ end) as [? []]; by eexists. }
  destruct (_ =? OpWrite)%string.
  { unfold do_write, after_hook. cbv zeta. destruct (BeforeWrite hooks _ _) as [h| |]; [|by intros [|]..]. cbn.
    destruct (evaluateExpression _ _). destruct (_ =? "")%string; by eexists. }
  destruct (_ =? OpDelete)%string.
  { unfold do_delete, after_hook. cbv zeta. destruct (BeforeWrite hooks _ _) as [h| |]; [|by intros [|]..].
    by eexists. }
  destruct (_ =? OpCompute)%string.
  { unfold do_compute. cbn.
    destruct (compute_loop _ _ _ (m_ctx m) _) as [[ctx digest] []] eqn:E; [by intros _ []|].
    rewrite (compute_loop_background _ _ _ _ _ _ _ E). by eexists. }
  destruct (_ =? OpFailIf)%string.
  { unfold do_fail_if. cbn. destruct (evaluateCondition _ _) as [[] ?]; destruct (_ =? "")%string; by eexists. }
  destruct (_ =? OpJumpIf)%string.
  { unfold do_jump_if, after_hook. cbn. destruct (evaluateCondition _ _) as [matched ?].
    destruct (_ =? "")%string; [|by eexists]. cbn. destruct (OnBranch hooks _ _) as [h| |]; [|by intros [|]..].
    destruct matched; by eexists. }
  destruct (_ =? OpReturn)%string; [|by eexists].
  unfold do_return. cbn. destruct (evaluateExpression _ _). destruct (_ =? "")%string; by eexists.
Qed.

Lemma step_strip o m :
  stripped (step hooks execution tx m) (step RuntimeDefaults execution' tx (strip o m)).
Proof.
  unfold step. cbn [m_pc m_ctx m_result strip]. destruct (_ <=? m_pc m); [by eexists|].
  destruct (poll (m_ctx m)) as [ctx []]; [by intros _ []|]. cbv zeta. cbn [poll background m_pc m_result put_ctx].
  destruct (at_index _ _) as [i|]; [|by intros [|]]. destruct (instructionCost i) as [cost overflow].
  destruct (overflow || _); [by eexists|].
  apply (dispatch_strip o (put_result (put_ctx m ctx)
    (set_units (m_result m) (u64 (UnitsUsed (m_result m) + cost))))).
Qed.

Lemma loop_strip fuel o m m' :
  tr_Status (m_result m) = "" →
  loop hooks execution tx fuel m = (m', Finished) → tr_Status (m_result m') ≠ TxStatusCancelled →
  ∃ o', loop RuntimeDefaults execution' tx fuel (strip o m) = (strip o' m', Finished).
Proof.
  revert o m. induction fuel as [|fuel IH]; intros o m Hs; cbn [loop]; [done|]. intros E Hc.
  pose proof (step_strip o m) as Hm. pose proof (step_status hooks execution tx m Hs) as Hs1.
  destruct (step hooks execution tx m) as [m1 [c|]].
  - injection E as -> ->. destruct Hm as [o' ->]; [by right|done|]. by exists o'.
  - destruct Hm as [o' ->]; [by left|by rewrite (Hs1 eq_refl)|]. apply IH; [by apply Hs1|done|done].
Qed.
End strip.

(** An execution that finishes uncancelled gives, but for its ordinals, what it
    gives without hooks, in any context for the same index. *)
Lemma ExecuteWithHooks_strip {B} `{!Base B} {H} (hooks : RuntimeHooks H) ctx execution execution' tx (view : Overlay B) h m :
  ExecuteWithHooks hooks ctx execution tx view h = (m, Finished) → tr_Status (m_result m) ≠ TxStatusCancelled →
  tc_TxIndex execution' = tc_TxIndex execution →
  ∃ o, ExecuteWithHooks RuntimeDefaults background execution' tx view tt = (strip o m, Finished).
Proof.
  unfold ExecuteWithHooks. cbv zeta. intros E Hc Hi. cbn [poll background].
  assert (∀ e : TxContext, tc_TxIndex (if (tc_TransactionID e =? "")%string
    then MkTxContext (tc_BlockID e) (tx_ID tx) (tc_TxIndex e) (tc_Incarnation e) (tc_Ordinal e) else e) =
    tc_TxIndex e) as He by (intros e; by destruct (tc_TransactionID e =? "")%string).
  rewrite He in E. rewrite He, Hi. clear He.
  destruct (poll ctx) as [ctx' []]; [by injection E as <-|].
  destruct (negb _); [injection E as <-; by eexists|].
  eapply (loop_strip hooks _ _ tx _ _ _ m) in E; [exact E|done|done].
Qed.

(** Over hooks and a base that come back an execution finishes. *)
Lemma ExecuteWithHooks_returns {B} `{!Base B} {H} (hooks : RuntimeHooks H) P Q ctx execution tx (view : Overlay B) h :
  tx_typed tx → hooks_return hooks P → P h → base_returns Q → Q (ov_base view) →
  ∃ m, ExecuteWithHooks hooks ctx execution tx view h = (m, Finished) ∧ P (m_hooks m) ∧ Q (ov_base (m_view m)).
Proof.
  intros Ht Hh Hp Hb Hq. unfold ExecuteWithHooks. cbv zeta. destruct (poll ctx) as [ctx' []]; [by eexists|].
  destruct (String.eqb_spec (Validate tx) "") as [Ev|Ev]; cbn [negb]; [|by eexists].
  pose proof (Validate_instructions tx Ev) as Hval.
  set (execution' := if (_ =? "")%string then _ else execution).
  set (m0 := MkMachine ctx' h _ _ _ _ _).
  assert (running tx m0) as Hrun by by apply initial_running.
  destruct (loop_returns hooks execution' tx Ht Hval P Q (S (Z.to_nat (MaxUnits tx))) m0 Hh Hb) as [Hc Hph];
    [done|done| |].
  { pose proof (tt_units _ Ht) as Hmax. unfold u64_range in Hmax. cbn. lia. }
  destruct (loop hooks execution' tx _ m0) as [m c]. cbn in Hc, Hph. subst c. exists m.
  split; [done|]. apply Hph.
Qed.

(** ** An execution depends only on what it reads *)

(** A base that keeps the answers it gave. *)
Record logged (B : Type) := MkLogged { lg_base : B; lg_log : list (Bytes * option Bytes) }.
Arguments MkLogged {_} _ _.
Arguments lg_base {_} _.
Arguments lg_log {_} _.

#[export] Instance logged_base {B} `{!Base B} : Base (logged B) := λ l key,
  '(base, value) ← base_Get (lg_base l) key;
  Returns (MkLogged base (lg_log l ++ [(key, value)]), value).

Section rebase.
Context {B : Type} `{!Base B} {H : Type} (hooks : RuntimeHooks H) (execution : TxContext) (tx : Transaction).

(** The same machine over another base. *)
Definition rebase {B B'} (b : B') (m : machine (B:=B) (H:=H)) : machine (B:=B') (H:=H) :=
  MkMachine (m_ctx m) (m_hooks m) (MkOverlay b (ov_writes (m_view m))) (m_result m) (m_registers m)
    (m_pc m) (m_ordinal m).
Definition rebase_end {B B'} (b : B') (e : step_end (B:=B) (H:=H)) : step_end (B:=B') (H:=H) := (rebase b e.1, e.2).

(** What a machine over a logged base has been told. *)
Definition log_of (m : machine (B:=logged B) (H:=H)) : list (Bytes * option Bytes) := lg_log (ov_base (m_view m)).
(** A reader that gives the answers of a log. *)
Definition answers (f : Reader) (log : list (Bytes * option Bytes)) : Prop :=
  ∀ key value, (key, value) ∈ log → f key = Returns value.

(** A step that came back. *)
Definition clean {B} (e : step_end (B:=B) (H:=H)) : Prop := e.2 = None ∨ e.2 = Some Finished.

Lemma do_read_rebase f m i :
  clean (do_read hooks execution tx m i) → answers f (log_of (do_read hooks execution tx m i).1) →
  do_read hooks execution tx (rebase f m) i = rebase_end f (do_read hooks execution tx m i).
Proof.
  unfold do_read, after_hook. cbv zeta. cbn [m_hooks rebase next_ordinal].
  change (access execution tx (next_ordinal (rebase f m)) i) with (access execution tx (next_ordinal m) i).
  destruct (BeforeRead hooks _ _) as [h| |]; [|by intros [|]..]. cbn. unfold ov_Get. cbn [ov_writes ov_base].
  destruct (ov_writes (m_view m) !! in_Key i) as [p|].
  { intros _ _. by destruct (match _ with Some raw => DecodeInt64 raw | None => _ end) as [value []]. }
  unfold base_Get, logged_base, reader_base.
  destruct (Base0 (lg_base (ov_base (m_view m))) (in_Key i)) as [[b raw]| |] eqn:E; unfold base_Get;
    rewrite E; cbn; [|by intros [|]..].
  destruct (match raw with Some _ => _ | None => _ end) as [value ok] eqn:Ed. intros _ Ha.
  assert (f (in_Key i) = Returns raw) as ->.
  { apply Ha. destruct ok; unfold log_of; cbn; apply elem_of_app; right; by left. }
  cbn. rewrite Ed. by destruct ok.
Qed.

Lemma dispatch_rebase f m i :
  clean (dispatch hooks execution tx m i) → answers f (log_of (dispatch hooks execution tx m i).1) →
  dispatch hooks execution tx (rebase f m) i = rebase_end f (dispatch hooks execution tx m i).
Proof.
  unfold dispatch. destruct (_ =? OpRead)%string; [apply do_read_rebase|]. intros _ _.
  destruct (_ =? OpWrite)%string.
  { unfold do_write, after_hook. cbn.
    change (access execution tx (next_ordinal (rebase f m)) i) with (access execution tx (next_ordinal m) i).
    destruct (BeforeWrite hooks _ _); [|done..].
    cbn. destruct (evaluateExpression _ _). by destruct (_ =? "")%string. }
  destruct (_ =? OpDelete)%string.
  { unfold do_delete, after_hook. cbn.
    change (access execution tx (next_ordinal (rebase f m)) i) with (access execution tx (next_ordinal m) i).
    by destruct (BeforeWrite hooks _ _). }
  destruct (_ =? OpCompute)%string.
  { unfold do_compute. cbn. by destruct (compute_loop _ _ _ _ _) as [[? ?] []]. }
  destruct (_ =? OpFailIf)%string.
  { unfold do_fail_if. cbn. destruct (evaluateCondition _ _) as [[] ?]; by destruct (_ =? "")%string. }
  destruct (_ =? OpJumpIf)%string.
  { unfold do_jump_if, after_hook. cbn. destruct (evaluateCondition _ _) as [matched ?].
    destruct (_ =? "")%string; [|done]. cbn.
    change (hook_context execution (next_ordinal (rebase f m))) with (hook_context execution (next_ordinal m)).
    destruct (OnBranch hooks _ _); [|done..]. by destruct matched. }
  destruct (_ =? OpReturn)%string; [|done].
  unfold do_return. cbn. destruct (evaluateExpression _ _). by destruct (_ =? "")%string.
Qed.

Lemma step_rebase f m :
  clean (step hooks execution tx m) → answers f (log_of (step hooks execution tx m).1) →
  step hooks execution tx (rebase f m) = rebase_end f (step hooks execution tx m).
Proof.
  unfold step. cbn [m_pc m_ctx m_result rebase]. destruct (_ <=? m_pc m); [done|].
  destruct (poll (m_ctx m)) as [ctx []]; [done|]. cbv zeta. cbn [m_pc m_result put_ctx].
  destruct (at_index _ _) as [i|]; [|done]. destruct (instructionCost i) as [cost overflow].
  destruct (overflow || _); [done|]. intros Hc Ha.
  apply (dispatch_rebase f (put_result (put_ctx m ctx)
    (set_units (m_result m) (u64 (UnitsUsed (m_result m) + cost)))) i Hc Ha).
Qed.

(** What a finished read leaves: the answer is in the log exactly when the base
    was asked, and then it is recorded, unless it does not decode. *)
Definition log_recorded (m : machine (B:=logged B) (H:=H)) : Prop :=
  tr_Status (m_result m) = TxStatusInvalidState ∨
  ∀ key value, (key, value) ∈ log_of m →
    MkReadRecord key (bool_decide (is_Some value)) (default [] value) ∈ Reads (m_result m).

(** The log and the recorded reads only grow. *)
Definition grows (m m' : machine (B:=logged B) (H:=H)) : Prop :=
  log_of m `prefix_of` log_of m' ∧ (log_recorded m → tr_Status (m_result m) = "" → log_recorded m').

Lemma grows_same m m' :
  log_of m' = log_of m → Reads (m_result m') = Reads (m_result m) → grows m m'.
Proof.
  intros E1 E2. split; [by rewrite E1|]. unfold log_recorded. rewrite E1, E2.
  intros [H1|H1] H2; [by rewrite H1 in H2|by right].
Qed.

Lemma dispatch_grows m i : grows m (dispatch hooks execution tx m i).1.
Proof.
  unfold dispatch. destruct (_ =? OpRead)%string.
  { unfold do_read, after_hook. cbv zeta. destruct (BeforeRead hooks _ _) as [h| |]; [|by apply grows_same..]. cbn.
    unfold ov_Get. cbn [ov_writes ov_base].
    assert (∀ x (l : list (Bytes * option Bytes)) (rs : list ReadRecord), (∀ key value, (key, value) ∈ l → MkReadRecord key (bool_decide (is_Some value)) (default [] value) ∈ rs) →
      ∀ key value, (key, value) ∈ l → MkReadRecord key (bool_decide (is_Some value)) (default [] value) ∈ rs ++ [x]) as Hw.
    { intros x l rs Hl key value Hin. apply elem_of_app. left. by apply Hl. }
    destruct (ov_writes (m_view m) !! in_Key i) as [p|].
    { destruct (match _ with Some raw => DecodeInt64 raw | None => _ end) as [value []]; [|by apply grows_same].
      split; [done|]. intros [H1|H1] H2; [by rewrite H1 in H2|]. right. by apply Hw. }
    unfold base_Get at 1. unfold logged_base.
    destruct (base_Get (lg_base (ov_base (m_view m))) (in_Key i)) as [[b raw]| |]; cbn; [|by apply grows_same..].
    destruct (match raw with Some _ => _ | None => _ end) as [value ok].
    destruct ok; cbn; (split; [by apply prefix_app_r|]); [|by left].
    intros [H1|H1] H2; [by rewrite H1 in H2|]. right. unfold log_of. cbn.
    intros key v [Hin|Hin]%elem_of_app; [by eapply Hw|]. apply list_elem_of_singleton in Hin as [= -> ->].
    apply elem_of_app. right. by left. }
  destruct (_ =? OpWrite)%string.
  { unfold do_write, after_hook. destruct (BeforeWrite hooks _ _); [|by apply grows_same..].
    cbn. destruct (evaluateExpression _ _). destruct (_ =? "")%string; by apply grows_same. }
  destruct (_ =? OpDelete)%string.
  { unfold do_delete, after_hook. destruct (BeforeWrite hooks _ _); by apply grows_same. }
  destruct (_ =? OpCompute)%string.
  { unfold do_compute. destruct (compute_loop _ _ _ _ _) as [[? ?] []]; by apply grows_same. }
  destruct (_ =? OpFailIf)%string.
  { unfold do_fail_if. destruct (evaluateCondition _ _) as [[] ?]; destruct (_ =? "")%string; by apply grows_same. }
  destruct (_ =? OpJumpIf)%string.
  { unfold do_jump_if, after_hook. destruct (evaluateCondition _ _) as [matched ?].
    destruct (_ =? "")%string; [|by apply grows_same]. cbn.
    destruct (OnBranch hooks _ _); [destruct matched|..]; by apply grows_same. }
  destruct (_ =? OpReturn)%string; [|by apply grows_same].
  unfold do_return. destruct (evaluateExpression _ _). destruct (_ =? "")%string; by apply grows_same.
Qed.

Lemma step_grows m : grows m (step hooks execution tx m).1.
Proof.
  unfold step. destruct (_ <=? m_pc m); [by apply grows_same|].
  destruct (poll (m_ctx m)) as [ctx []]; [by apply grows_same|]. cbv zeta.
  destruct (at_index _ _) as [i|]; [|by apply grows_same]. destruct (instructionCost i) as [cost overflow].
  destruct (overflow || _); [by apply grows_same|].
  apply (dispatch_grows (put_result (put_ctx m ctx)
    (set_units (m_result m) (u64 (UnitsUsed (m_result m) + cost)))) i).
Qed.

Lemma loop_grows fuel m :
  tr_Status (m_result m) = "" → log_recorded m →
  log_of m `prefix_of` log_of (loop hooks execution tx fuel m).1 ∧
  log_recorded (loop hooks execution tx fuel m).1.
Proof.
  revert m. induction fuel as [|fuel IH]; intros m Hs Hr; cbn [loop]; [done|].
  pose proof (step_grows m) as [Hl Hr1]. pose proof (step_status hooks execution tx m Hs) as Hs1.
  destruct (step hooks execution tx m) as [m1 [c|]]; cbn in *; [auto|].
  destruct (IH m1) as [Hl' Hr']; [auto..|]. split; [by etrans|done].
Qed.

Lemma loop_rebase f fuel m m' :
  tr_Status (m_result m) = "" → log_recorded m →
  loop hooks execution tx fuel m = (m', Finished) → answers f (log_of m') →
  loop hooks execution tx fuel (rebase f m) = (rebase f m', Finished).
Proof.
  revert m. induction fuel as [|fuel IH]; intros m Hs Hr; cbn [loop]; [done|]. intros E Ha.
  pose proof (step_rebase f m) as Hstep. pose proof (step_grows m) as [_ Hr1].
  pose proof (step_status hooks execution tx m Hs) as Hs1.
  destruct (step hooks execution tx m) as [m1 [c|]] eqn:Es; cbn in *.
  - injection E as -> ->. rewrite Hstep; [done|by right|done].
  - destruct (loop_grows fuel m1) as [Hp _]; [auto..|]. rewrite E in Hp. cbn in Hp.
    rewrite Hstep; cbn.
    + apply IH; auto.
    + by left.
    + intros k v Hin. apply Ha. destruct Hp as [l ->]. apply elem_of_app. by left.
Qed.
End rebase.

(** *** Two bases that cannot be told apart *)

Section simulation.
Context {B B' : Type} `{!Base B, !Base B'} {H : Type} (hooks : RuntimeHooks H).
Context (execution : TxContext) (tx : Transaction) (R : B → B' → Prop).

(** The same outcome with the same answer, and [R] kept. *)
Definition alike {A} (x : outcome (B * A)) (y : outcome (B' * A)) : Prop :=
  match x, y with
  | Returns (b, v), Returns (b', v') => v = v' ∧ R b b'
  | Panics, Panics | Waits, Waits => True
  | _, _ => False
  end.

Context (Hget : ∀ b b' key, R b b' → alike (base_Get b key) (base_Get b' key)).

Definition same_machine (m : machine (B:=B) (H:=H)) (m' : machine (B:=B') (H:=H)) : Prop :=
  m = rebase (ov_base (m_view m)) m' ∧ R (ov_base (m_view m)) (ov_base (m_view m')).
Definition same_end (e : step_end (B:=B) (H:=H)) (e' : step_end (B:=B') (H:=H)) : Prop :=
  same_machine e.1 e'.1 ∧ e.2 = e'.2.

Lemma dispatch_same m m' i :
  same_machine m m' → same_end (dispatch hooks execution tx m i) (dispatch hooks execution tx m' i).
Proof.
  intros [-> HR]. generalize dependent (ov_base (m_view m)). clear m. intros b HR.
  unfold dispatch. destruct (_ =? OpRead)%string.
  { unfold do_read, after_hook. cbv zeta. cbn [m_hooks rebase next_ordinal].
    change (access execution tx (next_ordinal (rebase b m')) i) with (access execution tx (next_ordinal m') i).
    destruct (BeforeRead hooks _ _) as [h| |]; [|done..]. cbn. unfold ov_Get. cbn [ov_writes ov_base].
    destruct (ov_writes (m_view m') !! in_Key i) as [p|].
    { by destruct (match _ with Some raw => DecodeInt64 raw | None => _ end) as [value []]. }
    pose proof (Hget b (ov_base (m_view m')) (in_Key i) HR) as Ha. unfold alike in Ha.
    destruct (base_Get b (in_Key i)) as [[b1 raw]| |], (base_Get (ov_base (m_view m')) (in_Key i)) as [[b2 raw']| |];
      try done. destruct Ha as [<- HR']. cbn.
    by destruct (match raw with Some raw => DecodeInt64 raw | None => _ end) as [value []]. }
  destruct (_ =? OpWrite)%string.
  { unfold do_write, after_hook. cbn.
    change (access execution tx (next_ordinal (rebase b m')) i) with (access execution tx (next_ordinal m') i).
    destruct (BeforeWrite hooks _ _); [|done..].
    cbn. destruct (evaluateExpression _ _). by destruct (_ =? "")%string. }
  destruct (_ =? OpDelete)%string.
  { unfold do_delete, after_hook. cbn.
    change (access execution tx (next_ordinal (rebase b m')) i) with (access execution tx (next_ordinal m') i).
    by destruct (BeforeWrite hooks _ _). }
  destruct (_ =? OpCompute)%string.
  { unfold do_compute. cbn. by destruct (compute_loop _ _ _ _ _) as [[? ?] []]. }
  destruct (_ =? OpFailIf)%string.
  { unfold do_fail_if. cbn. destruct (evaluateCondition _ _) as [[] ?]; by destruct (_ =? "")%string. }
  destruct (_ =? OpJumpIf)%string.
  { unfold do_jump_if, after_hook. cbn. destruct (evaluateCondition _ _) as [matched ?].
    destruct (_ =? "")%string; [|done]. cbn.
    change (hook_context execution (next_ordinal (rebase b m'))) with (hook_context execution (next_ordinal m')).
    destruct (OnBranch hooks _ _); [|done..]. by destruct matched. }
  destruct (_ =? OpReturn)%string; [|done].
  unfold do_return. cbn. destruct (evaluateExpression _ _). by destruct (_ =? "")%string.
Qed.

Lemma step_same m m' :
  same_machine m m' → same_end (step hooks execution tx m) (step hooks execution tx m').
Proof.
  intros [E HR]. rewrite E. set (b := ov_base (m_view m)) in *. clearbody b. clear E m.
  unfold step. cbn [m_pc m_ctx m_result rebase]. destruct (_ <=? m_pc m'); [done|].
  destruct (poll (m_ctx m')) as [ctx []]; [done|]. cbv zeta. cbn [m_pc m_result put_ctx].
  destruct (at_index _ _) as [i|]; [|done]. destruct (instructionCost i) as [cost overflow].
  destruct (overflow || _); [done|].
  apply (dispatch_same _ (put_result (put_ctx m' ctx)
    (set_units (m_result m') (u64 (UnitsUsed (m_result m') + cost))))). by split.
Qed.

Lemma loop_same fuel m m' :
  same_machine m m' →
  same_machine (loop hooks execution tx fuel m).1 (loop hooks execution tx fuel m').1 ∧
  (loop hooks execution tx fuel m).2 = (loop hooks execution tx fuel m').2.
Proof.
  revert m m'. induction fuel as [|fuel IH]; intros m m' Hm; cbn [loop]; [done|].
  destruct (step_same m m' Hm) as [Hs Hc].
  destruct (step hooks execution tx m) as [m1 c1], (step hooks execution tx m') as [m2 c2]. cbn in Hs, Hc. subst c2.
  destruct c1; [done|]. by apply IH.
Qed.
End simulation.

Lemma ExecuteWithHooks_same {B B' H} `{!Base B, !Base B'} (hooks : RuntimeHooks H) (R : B → B' → Prop)
    ctx execution tx b b' h :
  (∀ b b' key, R b b' → alike R (base_Get b key) (base_Get b' key)) → R b b' →
  same_machine R (ExecuteWithHooks hooks ctx execution tx (NewOverlay b) h).1
    (ExecuteWithHooks hooks ctx execution tx (NewOverlay b') h).1 ∧
  (ExecuteWithHooks hooks ctx execution tx (NewOverlay b) h).2 =
    (ExecuteWithHooks hooks ctx execution tx (NewOverlay b') h).2.
Proof.
  intros Hget HR. unfold ExecuteWithHooks. cbv zeta. destruct (poll ctx) as [ctx' []]; [done|].
  destruct (negb _); [done|]. by apply loop_same.
Qed.

(** An execution over a reader that gives the logged answers. *)
Lemma ExecuteWithHooks_replay {B} `{!Base B} {H} (hooks : RuntimeHooks H) ctx execution tx (base : B) h m (f : Reader) :
  ExecuteWithHooks hooks ctx execution tx (NewOverlay (MkLogged base [])) h = (m, Finished) →
  answers f (log_of m) →
  ExecuteWithHooks hooks ctx execution tx (NewOverlay f) h = (rebase f m, Finished).
Proof.
  unfold ExecuteWithHooks. cbv zeta. destruct (poll ctx) as [ctx' []]; [by intros [= <-]|].
  destruct (negb _); [by intros [= <-]|]. intros E Ha.
  match type of E with loop _ _ _ _ ?m0 = _ => apply (loop_rebase hooks _ tx f _ m0 m) in E end; [done|done| |done].
  right. by intros key value ?%elem_of_nil.
Qed.

Lemma ExecuteWithHooks_recorded {B} `{!Base B} {H} (hooks : RuntimeHooks H) ctx execution tx (base : B) h m :
  ExecuteWithHooks hooks ctx execution tx (NewOverlay (MkLogged base [])) h = (m, Finished) → log_recorded m.
Proof.
  assert (∀ m0 : machine (B:=logged B) (H:=H), log_of m0 = [] → log_recorded m0) as Hnil.
  { intros m0 E. right. rewrite E. by intros key value ?%elem_of_nil. }
  unfold ExecuteWithHooks. cbv zeta. destruct (poll ctx) as [ctx' []]; [intros [= <-]; by apply Hnil|].
  destruct (negb _); [intros [= <-]; by apply Hnil|]. intros E.
  match type of E with loop _ ?ex _ ?n ?m0 = _ =>
    destruct (loop_grows hooks ex tx n m0) as [_ Hr]; [done|by apply Hnil|] end.
  by rewrite E in Hr.
Qed.

(** ** Properties *)

(** The state codec is exact: every [int64] round-trips through its eight
    bytes, every eight-byte value is the encoding of what it decodes to, and a
    value of any other length is rejected. *)
Theorem Int64_roundtrip v b :
  i64_range v →
  DecodeInt64 (EncodeInt64 v) = (v, true) ∧
  (length b = 8%nat → DecodeInt64 b = (fst (DecodeInt64 b), true) ∧ EncodeInt64 (fst (DecodeInt64 b)) = b) ∧
  (length b ≠ 8%nat → DecodeInt64 b = (0, false)).
Proof.
  intros Hv. split; [|split].
  - unfold DecodeInt64. rewrite EncodeInt64_length. change (negb (Z.of_nat 8 =? 8)) with false. cbv iota. f_equal. unfold EncodeInt64.
    rewrite Uint64_PutUint64 by apply u64_bound. rewrite i64_u64. by apply i64_id.
  - intros Hb. unfold DecodeInt64. rewrite Hb. change (negb (Z.of_nat 8 =? 8)) with false. cbv iota. cbn [fst]. split; [done|]. unfold EncodeInt64.
    rewrite u64_i64, u64_id by (by apply Uint64_bound). by apply PutUint64_Uint64.
  - intros Hb. unfold DecodeInt64. destruct (Z.eqb_spec (Z.of_nat (length b)) 8); [lia|done].
Qed.

Lemma Int64_roundtrip_witness :
  i64_range (-2) ∧ DecodeInt64 (EncodeInt64 (-2)) = (-2, true) ∧ DecodeInt64 [] = (0, false).
Proof.
  split; [by vm_compute|]. destruct (Int64_roundtrip (-2) []) as (H & _ & H0); [by vm_compute|].
  split; [done|]. by apply H0.
Defined.

(** The overflow tests of [evaluateExpression] are exact: for an operand
    with an [int64] value the result is the mathematical sum when it fits in an
    [int64], and the arithmetic-overflow error otherwise, including at both
    ends of the range; the tests themselves do not overflow. *)
Lemma evaluateExpression_exact e regs base :
  registers_typed regs → operand_typed (ex_Base e) → i64_range (ex_Delta e) →
  evaluateOperand (ex_Base e) regs = (base, "") →
  evaluateExpression e regs =
    if bool_decide (i64_range (base + ex_Delta e)) then (base + ex_Delta e, "")
    else (0, ErrorArithmeticOverflow).
Proof. intros. apply evaluateExpression_spec; [by eapply evaluateOperand_range|done..]. Qed.

Lemma evaluateExpression_exact_witness :
  evaluateExpression (MkExpression (Literal maxInt64) 1) ∅ = (0, ErrorArithmeticOverflow).
Proof.
  rewrite (evaluateExpression_exact (MkExpression (Literal maxInt64) 1) ∅ maxInt64);
    [by vm_compute| |by vm_compute|by vm_compute|done].
  intros k v Hk. by rewrite lookup_empty in Hk.
Defined.

Lemma ended_outcome {B} `{!Base B} {H : Type} tx (m : machine (B:=B) (H:=H)) : ended tx m →
  (tr_Status (m_result m) = TxStatusOutOfGas → UnitsUsed (m_result m) = MaxUnits tx) ∧
  (tr_Status (m_result m) = TxStatusSuccess ↔ tr_ErrorCode (m_result m) = "") ∧
  Writes (m_result m) = (if decide (tr_Status (m_result m) = TxStatusSuccess) then Changes (m_view m) else []).
Proof. intros Hm. by destruct Hm; match goal with Hr : result_is _ _ _ _ _ |- _ => destruct Hr as [-> -> _ ->] end. Qed.


(** A countdown that loops: reads a counter, writes it back incremented, and
    jumps back to the start until the read value is not below 3. *)
Definition countdown : Transaction :=
  MkTransaction "t" 20 (MkProgram
    [MkInstruction "" OpRead [Byte.x61] "r" (MkExpression (Literal 0) 0)
       (MkCondition "" "" (Literal 0) (Literal 0)) 0 0 "";
     MkInstruction "" OpWrite [Byte.x61] "" (MkExpression (Register "r") 1)
       (MkCondition "" "" (Literal 0) (Literal 0)) 0 0 "";
     MkInstruction "" OpJumpIf [] "" (MkExpression (Literal 0) 0)
       (MkCondition ConditionLess "" (Register "r") (Literal 3)) 0 0 ""]).

Lemma countdown_typed : tx_typed countdown.
Proof.
  split; [by vm_compute|]. intros i Hi. cbn in Hi.
  repeat (apply elem_of_cons in Hi as [->|Hi]; [by split; vm_compute|]). by apply elem_of_nil in Hi.
Qed.

Lemma RuntimeDefaults_return : hooks_return RuntimeDefaults (λ _, True).
Proof. by split; [|split]; intros [] ? _; eexists. Qed.

Definition first_run := Execute background 0 countdown (NewOverlay (st_Reader New)).

Lemma countdown_run :
  first_run.2 = Finished ∧ tr_Status (m_result first_run.1) = TxStatusSuccess ∧
  UnitsUsed (m_result first_run.1) = 12 ∧
  (rr_Key <$> Reads (m_result first_run.1)) = replicate 4 [Byte.x61].
Proof. split; [|split; [|split]]; vm_compute; reflexivity. Qed.

(** The same program over a state whose counter is a single byte. *)
Definition short_state : Reader := λ _, Returns (Some [Byte.x01]).
Definition stopped_run := ExecuteWithHooks RuntimeDefaults background (MkTxContext "" (tx_ID countdown) 0 0 0) countdown
  (NewOverlay short_state) tt.


(** C17: An execution depends on the state only through the answers it was
    given, which is what makes validating a read set enough.  Take any base,
    which may change between two reads, and keep the answers it gives: that
    changes nothing; every answer is among the recorded reads (unless the
    execution ended at a value that does not decode); and any reader that
    gives the same answers leads to the same result, pending writes,
    registers and hook calls, so validation may compare against a state that
    no read actually saw as a whole. *)
Theorem execution_determined_by_reads {B} `{!Base B} {H : Type} (hooks : RuntimeHooks H) ctx execution tx
    (base : B) h m :
  ExecuteWithHooks hooks ctx execution tx (NewOverlay (MkLogged base [])) h = (m, Finished) →
  (∃ m0, ExecuteWithHooks hooks ctx execution tx (NewOverlay base) h = (m0, Finished) ∧
     m0 = rebase (lg_base (ov_base (m_view m))) m) ∧
  (tr_Status (m_result m) ≠ TxStatusInvalidState → ∀ key value, (key, value) ∈ log_of m →
     MkReadRecord key (bool_decide (is_Some value)) (default [] value) ∈ Reads (m_result m)) ∧
  (∀ f : Reader, answers f (log_of m) →
     ∃ m', ExecuteWithHooks hooks ctx execution tx (NewOverlay f) h = (m', Finished) ∧
       m_result m' = m_result m ∧ ov_writes (m_view m') = ov_writes (m_view m) ∧
       m_hooks m' = m_hooks m ∧ m_registers m' = m_registers m ∧ m_ctx m' = m_ctx m).
Proof.
  intros E. split; [|split].
  - destruct (ExecuteWithHooks_same hooks (λ b l, b = lg_base l) ctx execution tx base (MkLogged base []) h)
      as [[E1 E2] Ec]; [|done|].
    + intros b l key ->. unfold base_Get at 2, logged_base. by destruct (base_Get (lg_base l) key) as [[? ?]| |].
    + rewrite E in E1, E2, Ec. cbn in E1, E2, Ec.
      destruct (ExecuteWithHooks hooks ctx execution tx (NewOverlay base) h) as [m0 c]. cbn in E1, E2, Ec. subst c.
      exists m0. split; [done|]. by rewrite <- E2.
  - intros Hs. by destruct (ExecuteWithHooks_recorded hooks ctx execution tx base h m E).
  - intros f Ha. exists (rebase f m). split; [by apply (ExecuteWithHooks_replay hooks ctx execution tx base)|done].
Qed.

Lemma execution_determined_by_reads_witness :
  (Execute background 0 countdown (NewOverlay (st_Reader (st_Set New [Byte.x62] [Byte.x07])))).2 = Finished.
Proof.
  set (logged_run := ExecuteWithHooks RuntimeDefaults background (MkTxContext "" (tx_ID countdown) 0 0 0)
    countdown (NewOverlay (MkLogged (st_Reader New) [])) tt).
  assert (logged_run.2 = Finished) as Ec by (vm_compute; reflexivity).
  assert (log_of logged_run.1 = [([Byte.x61], None)]) as El by (vm_compute; reflexivity).
  destruct (execution_determined_by_reads RuntimeDefaults background
    (MkTxContext "" (tx_ID countdown) 0 0 0) countdown (st_Reader New) tt logged_run.1) as (_ & _ & H).
  - rewrite <- Ec. apply surjective_pairing.
  - destruct (H (st_Reader (st_Set New [Byte.x62] [Byte.x07]))) as (m' & E & _).
    + rewrite El. intros key value Hin. apply list_elem_of_singleton in Hin as [= -> ->].
      vm_compute. reflexivity.
    + unfold Execute. rewrite E. reflexivity.
Defined.
