(* ===== verification/Plan.v ===== *)
(** * internal/engine/engine.go, internal/control/dependency.go and kernel.go:
    how a run configuration resolves to a dependency plan and a kernel plan

    Every knob is a string, the empty one standing for an omitted field.  The
    policy object, the epoch and the executor count of [RunConfig] play no
    part in the resolution and are left out of the record. *)

From Stdlib Require Import ZArith Lia String.
From S2P Require Import Prelude Model KernelPolicy.
Local Open Scope Z_scope.

(** ** internal/control *)

Definition DependencyMVCCRuntime : string := "mvcc_runtime".
Definition DependencyDeclaredDAG : string := "declared_dag".
Definition DependencySummary : string := "summary".
Definition DependencyFullGraph : string := "full_graph".

(** Membership in the cases of a [switch]. *)
Definition one_of (v : string) (cases : list string) : bool := existsb (String.eqb v) cases.

Definition ValidDependencyMode (mode : string) : bool :=
  one_of mode [DependencyMVCCRuntime; DependencyDeclaredDAG; DependencySummary; DependencyFullGraph].

Definition DependencySourceRuntimeObserved : string := "runtime_observed".
Definition DependencySourceStaticProgram : string := "static_program".

Definition ValidDependencySource (source : string) : bool :=
  one_of source [DependencySourceRuntimeObserved; DependencySourceStaticProgram].

Definition VersionOnly : string := "version_only".
Definition RAWLastWriter : string := "raw_last_writer".
Definition MaxRAWPredecessor : string := "max_raw_predecessor".
Definition FullConflictGraph : string := "full_conflict_graph".

Definition ValidDependencyRepresentation (representation : string) : bool :=
  one_of representation [VersionOnly; RAWLastWriter; MaxRAWPredecessor; FullConflictGraph].

Definition BuilderNone : string := "none".
Definition BuilderIndexedByKey : string := "indexed_by_key".
Definition BuilderQuadraticReference : string := "quadratic_reference".

Definition ValidDependencyRepresentationBuilder (builder : string) : bool :=
  one_of builder [BuilderNone; BuilderIndexedByKey; BuilderQuadraticReference].

Definition WaitNone : string := "none".
Definition WaitDirectPredecessors : string := "direct_predecessor_wait".
Definition WaitContiguousFrontier : string := "contiguous_frontier_wait".
Definition WaitAllPredecessors : string := "all_predecessors_wait".

Definition ValidDependencyWaitPolicy (policy : string) : bool :=
  one_of policy [WaitNone; WaitDirectPredecessors; WaitContiguousFrontier; WaitAllPredecessors].

Definition EstimatesDisabled : string := "disabled".
Definition EstimatesWrite : string := "write_estimates".

Definition ValidDependencyEstimateInjection (injection : string) : bool :=
  one_of injection [EstimatesDisabled; EstimatesWrite].

Definition ValidEstimateReadPolicy (policy : string) : bool :=
  one_of policy [EstimateReadSuspendInPlace; EstimateReadAbortReschedule; EstimateReadSuspendYieldWorker].
Definition ValidIdleWaitPolicy (policy : string) : bool := one_of policy [IdleWaitGosched; IdleWaitPark].
Definition ValidDependencyDispatchPolicy (policy : string) : bool :=
  one_of policy [DispatchIndexOrder; DispatchReadyQueue].

(** ** internal/engine *)

Record RunConfig := MkRunConfig {
  cfg_Mode : string;
  cfg_Source : string;
  cfg_Representation : string;
  cfg_Builder : string;
  cfg_WaitPolicy : string;
  cfg_EstimateInjection : string;
  cfg_Dispatch : string;
  cfg_EstimateRead : string;
  cfg_IdleWait : string;
}.

Inductive plan_error :=
| UnknownMode | SourceRequired | UnknownSource | StaticSourceRequired
| UnknownRepresentation | UnknownBuilder | BuilderMismatch | RepresentationNeedsStatic
| LegacyRepresentation | UnknownWaitPolicy | UnknownEstimateInjection
| ConsumersNeedStatic | WaitNeedsRepresentation | LegacyConsumers
| KernelUnknownEstimateRead | KernelUnknownDispatch | ReadyQueueNeedsWait
| KernelUnknownIdleWait | YieldNeedsPark.

Record DependencyPlan := MkDependencyPlan {
  dp_Mode : string;
  dp_Source : string;
  dp_Representation : string;
  dp_Builder : string;
  dp_WaitPolicy : string;
  dp_EstimateInjection : string;
}.

Record KernelPlan := MkKernelPlan { kp_EstimateRead : string; kp_IdleWait : string; kp_Dispatch : string }.

Definition KernelPlan_IsFrozenDefault (p : KernelPlan) : bool :=
  (kp_EstimateRead p =? EstimateReadSuspendInPlace)%string && (kp_IdleWait p =? IdleWaitGosched)%string &&
  (kp_Dispatch p =? DispatchIndexOrder)%string.

Definition or_default (v d : string) : string := if (v =? "")%string then d else v.

Definition EffectiveKernelControl (config : RunConfig) (dependency : DependencyPlan) : plan_error + KernelPlan :=
  let waitConsumer := negb (dp_WaitPolicy dependency =? WaitNone)%string in
  let estimateRead := or_default (cfg_EstimateRead config) EstimateReadAbortReschedule in
  if negb (ValidEstimateReadPolicy estimateRead) then inl KernelUnknownEstimateRead else
  let dispatch := or_default (cfg_Dispatch config)
    (if waitConsumer then DispatchReadyQueue else DispatchIndexOrder) in
  if negb (ValidDependencyDispatchPolicy dispatch) then inl KernelUnknownDispatch else
  if (dispatch =? DispatchReadyQueue)%string && negb waitConsumer then inl ReadyQueueNeedsWait else
  let idleWait := or_default (cfg_IdleWait config) IdleWaitPark in
  if negb (ValidIdleWaitPolicy idleWait) then inl KernelUnknownIdleWait else
  if (estimateRead =? EstimateReadSuspendYieldWorker)%string && negb (idleWait =? IdleWaitPark)%string
  then inl YieldNeedsPark
  else inr (MkKernelPlan estimateRead idleWait dispatch).

Definition legacyWaitPolicy (mode : string) : string :=
  if (mode =? DependencyDeclaredDAG)%string then WaitDirectPredecessors
  else if (mode =? DependencySummary)%string then WaitContiguousFrontier
  else if (mode =? DependencyFullGraph)%string then WaitAllPredecessors
  else WaitNone.

Definition legacyEstimateInjection (mode : string) : string :=
  if (mode =? DependencyMVCCRuntime)%string then EstimatesDisabled else EstimatesWrite.

Definition legacyRepresentation (mode : string) : string :=
  if (mode =? DependencyDeclaredDAG)%string then RAWLastWriter
  else if (mode =? DependencySummary)%string then MaxRAWPredecessor
  else if (mode =? DependencyFullGraph)%string then FullConflictGraph
  else VersionOnly.

Definition defaultRepresentationBuilder (representation : string) : string :=
  if (representation =? VersionOnly)%string then BuilderNone
  else if (representation =? FullConflictGraph)%string then BuilderQuadraticReference
  else BuilderIndexedByKey.

Definition validateRepresentationBuilder (representation builder : string) : option plan_error :=
  let valid :=
    if (representation =? VersionOnly)%string then (builder =? BuilderNone)%string
    else if (representation =? RAWLastWriter)%string || (representation =? MaxRAWPredecessor)%string
      then (builder =? BuilderIndexedByKey)%string
    else if (representation =? FullConflictGraph)%string
      then (builder =? BuilderIndexedByKey)%string || (builder =? BuilderQuadraticReference)%string
    else false in
  if negb valid then Some BuilderMismatch else None.

Definition wantRepresentation (waitPolicy : string) : string :=
  if (waitPolicy =? WaitDirectPredecessors)%string then RAWLastWriter
  else if (waitPolicy =? WaitContiguousFrontier)%string then MaxRAWPredecessor
  else if (waitPolicy =? WaitAllPredecessors)%string then FullConflictGraph
  else VersionOnly.

Definition validateDependencyConsumers (source representation waitPolicy estimateInjection : string)
    : option plan_error :=
  if (source =? DependencySourceRuntimeObserved)%string &&
     (negb (waitPolicy =? WaitNone)%string || negb (estimateInjection =? EstimatesDisabled)%string)
  then Some ConsumersNeedStatic
  else if negb (waitPolicy =? WaitNone)%string && negb (representation =? wantRepresentation waitPolicy)%string
  then Some WaitNeedsRepresentation
  else None.

Definition EffectiveDependencyControl (config : RunConfig) : plan_error + DependencyPlan :=
  let mode := or_default (cfg_Mode config) DependencyMVCCRuntime in
  let legacy := negb (mode =? DependencyMVCCRuntime)%string in
  if negb (ValidDependencyMode mode) then inl UnknownMode else
  if (cfg_Source config =? "")%string && legacy then inl SourceRequired else
  let source := or_default (cfg_Source config) DependencySourceRuntimeObserved in
  if negb (ValidDependencySource source) then inl UnknownSource else
  if legacy && negb (source =? DependencySourceStaticProgram)%string then inl StaticSourceRequired else
  let representation := or_default (cfg_Representation config) (legacyRepresentation mode) in
  if negb (ValidDependencyRepresentation representation) then inl UnknownRepresentation else
  let builder := or_default (cfg_Builder config) (defaultRepresentationBuilder representation) in
  if negb (ValidDependencyRepresentationBuilder builder) then inl UnknownBuilder else
  match validateRepresentationBuilder representation builder with
  | Some err => inl err
  | None =>
  if (source =? DependencySourceRuntimeObserved)%string && negb (representation =? VersionOnly)%string
  then inl RepresentationNeedsStatic else
  if legacy && negb (representation =? legacyRepresentation mode)%string then inl LegacyRepresentation else
  let waitPolicy := or_default (cfg_WaitPolicy config) (legacyWaitPolicy mode) in
  if negb (ValidDependencyWaitPolicy waitPolicy) then inl UnknownWaitPolicy else
  let estimateInjection := or_default (cfg_EstimateInjection config) (legacyEstimateInjection mode) in
  if negb (ValidDependencyEstimateInjection estimateInjection) then inl UnknownEstimateInjection else
  match validateDependencyConsumers source representation waitPolicy estimateInjection with
  | Some err => inl err
  | None =>
  if legacy && (negb (waitPolicy =? legacyWaitPolicy mode)%string ||
                negb (estimateInjection =? legacyEstimateInjection mode)%string)
  then inl LegacyConsumers
  else inr (MkDependencyPlan mode source representation builder waitPolicy estimateInjection)
  end end.

(** [ValidateBlock] on a non-nil store; the index or the identifier of the
    rejected transaction is in the error. *)
Inductive block_error := ErrMissingBlockID | MissingTransactionID (index : Z) | DuplicateTransactionID (id : string).

Fixpoint validate_transactions (index : Z) (seen : gset string) (l : list Transaction) : option block_error :=
  match l with
  | [] => None
  | transaction :: rest =>
      if (tx_ID transaction =? "")%string then Some (MissingTransactionID index)
      else if bool_decide (tx_ID transaction ∈ seen) then Some (DuplicateTransactionID (tx_ID transaction))
      else validate_transactions (index + 1) ({[tx_ID transaction]} ∪ seen) rest
  end.

Definition ValidateBlock (block : Block) : option block_error :=
  if (b_ID block =? "")%string then Some ErrMissingBlockID
  else validate_transactions 0 ∅ (Transactions block).

(** ** Facts *)

Lemma one_of_spec v l : one_of v l = true ↔ v ∈ l.
Proof.
  unfold one_of. rewrite existsb_exists. split.
  - intros (x & Hx & E%String.eqb_eq). subst. by apply list_elem_of_In.
  - intros H. exists v. split; [by apply list_elem_of_In|]. apply String.eqb_refl.
Qed.

Lemma or_default_id v d : v ≠ "" → or_default v d = v.
Proof. unfold or_default. by destruct (String.eqb_spec v ""). Qed.

Lemma one_of_nonempty v l : one_of v l = true → "" ∉ l → v ≠ "".
Proof. intros H%one_of_spec Hn ->. done. Qed.

(** Takes the test at the head of a chain of guards that returned a plan. *)
Ltac next_guard H E :=
  match type of H with
  | (if ?b then _ else _) = _ => destruct b eqn:E; [discriminate H|]
  end.

(** What every check of [EffectiveDependencyControl] established. *)
Record plan_checked (p : DependencyPlan) : Prop := {
  pc_mode : ValidDependencyMode (dp_Mode p) = true;
  pc_source : ValidDependencySource (dp_Source p) = true;
  pc_static : negb (dp_Mode p =? DependencyMVCCRuntime)%string && negb (dp_Source p =? DependencySourceStaticProgram)%string = false;
  pc_representation : ValidDependencyRepresentation (dp_Representation p) = true;
  pc_builder : ValidDependencyRepresentationBuilder (dp_Builder p) = true;
  pc_fits : validateRepresentationBuilder (dp_Representation p) (dp_Builder p) = None;
  pc_runtime : (dp_Source p =? DependencySourceRuntimeObserved)%string && negb (dp_Representation p =? VersionOnly)%string = false;
  pc_legacy : negb (dp_Mode p =? DependencyMVCCRuntime)%string && negb (dp_Representation p =? legacyRepresentation (dp_Mode p))%string = false;
  pc_wait : ValidDependencyWaitPolicy (dp_WaitPolicy p) = true;
  pc_estimates : ValidDependencyEstimateInjection (dp_EstimateInjection p) = true;
  pc_consumers : validateDependencyConsumers (dp_Source p) (dp_Representation p) (dp_WaitPolicy p) (dp_EstimateInjection p) = None;
  pc_bundle : negb (dp_Mode p =? DependencyMVCCRuntime)%string &&
    (negb (dp_WaitPolicy p =? legacyWaitPolicy (dp_Mode p))%string ||
     negb (dp_EstimateInjection p =? legacyEstimateInjection (dp_Mode p))%string) = false;
}.

Lemma EffectiveDependencyControl_checked config p :
  EffectiveDependencyControl config = inr p → plan_checked p.
Proof.
  unfold EffectiveDependencyControl. cbv zeta. intros H.
  next_guard H E1. next_guard H E2. next_guard H E3. next_guard H E4. next_guard H E5. next_guard H E6.
  destruct (validateRepresentationBuilder _ _) eqn:E7; [discriminate H|].
  next_guard H E8. next_guard H E9. next_guard H E10. next_guard H E11.
  destruct (validateDependencyConsumers _ _ _ _) eqn:E12; [discriminate H|].
  next_guard H E13. injection H as <-.
  split; cbn [dp_Mode dp_Source dp_Representation dp_Builder dp_WaitPolicy dp_EstimateInjection];
    first [done | by apply negb_false_iff].
Qed.

(** The configuration that spells a plan out. *)
Definition config_of (p : DependencyPlan) : RunConfig :=
  MkRunConfig (dp_Mode p) (dp_Source p) (dp_Representation p) (dp_Builder p) (dp_WaitPolicy p)
    (dp_EstimateInjection p) "" "" "".

Lemma EffectiveDependencyControl_complete p :
  plan_checked p → EffectiveDependencyControl (config_of p) = inr p.
Proof.
  intros [H1 H2 H3 H4 H5 H6 H7 H8 H9 H10 H11 H12]. unfold EffectiveDependencyControl, config_of.
  cbn [cfg_Mode cfg_Source cfg_Representation cfg_Builder cfg_WaitPolicy cfg_EstimateInjection]. cbv zeta.
  rewrite !or_default_id by (eapply one_of_nonempty; [eassumption|]; unfold not; intros Hin; set_unfold in Hin;
    destruct_or? Hin; discriminate || done).
  rewrite H1, H2, H3, H4, H5, H6, H7, H8, H9, H10, H11, H12. cbn [negb].
  destruct (String.eqb_spec (dp_Source p) "") as [E|]; [|by destruct p].
  rewrite E in H2. discriminate H2.
Qed.

(** ** Properties *)

(** C40: The dependency plan of a run is coherent.  In every plan that
    [EffectiveDependencyControl] accepts, a wait policy comes with static
    information and with exactly the representation it consumes, run-time
    information comes with no static structure and no consumer, and no builder
    is chosen exactly when nothing is built; resolving never overrides a field
    that was given; and a plan is a fixed point: writing all of it out resolves
    to the same plan. *)
Theorem dependency_plan_coherent config p :
  EffectiveDependencyControl config = inr p →
  (dp_WaitPolicy p ≠ WaitNone →
     dp_Representation p = wantRepresentation (dp_WaitPolicy p) ∧ dp_Source p = DependencySourceStaticProgram) ∧
  (dp_Source p = DependencySourceRuntimeObserved →
     dp_Representation p = VersionOnly ∧ dp_WaitPolicy p = WaitNone ∧ dp_EstimateInjection p = EstimatesDisabled) ∧
  (dp_Builder p = BuilderNone ↔ dp_Representation p = VersionOnly) ∧
  (∀ given resolved, (given, resolved) ∈
     [(cfg_Mode config, dp_Mode p); (cfg_Source config, dp_Source p);
      (cfg_Representation config, dp_Representation p); (cfg_Builder config, dp_Builder p);
      (cfg_WaitPolicy config, dp_WaitPolicy p); (cfg_EstimateInjection config, dp_EstimateInjection p)] →
     given ≠ "" → resolved = given) ∧
  EffectiveDependencyControl (config_of p) = inr p.
Proof.
  intros E. pose proof (EffectiveDependencyControl_checked _ _ E) as Hp.
  pose proof (EffectiveDependencyControl_complete _ Hp) as Hfix.
  pose proof (pc_consumers _ Hp) as Hc. unfold validateDependencyConsumers in Hc.
  pose proof (pc_source _ Hp) as Hs. apply one_of_spec in Hs.
  pose proof (pc_runtime _ Hp) as Hr. pose proof (pc_fits _ Hp) as Hb.
  split; [|split; [|split; [|split; [|done]]]].
  - intros Hw. apply String.eqb_neq in Hw. rewrite Hw in Hc. cbn [negb orb andb] in Hc.
    rewrite andb_true_r in Hc. destruct (String.eqb_spec (dp_Source p) DependencySourceRuntimeObserved); [done|].
    destruct (String.eqb_spec (dp_Representation p) (wantRepresentation (dp_WaitPolicy p))); [|done].
    split; [done|]. set_solver.
  - intros Es. rewrite Es in Hc. rewrite Es in Hr. rewrite String.eqb_refl in Hc. rewrite String.eqb_refl in Hr.
    destruct (String.eqb_spec (dp_Representation p) VersionOnly); [|done].
    destruct (String.eqb_spec (dp_WaitPolicy p) WaitNone); [|done].
    by destruct (String.eqb_spec (dp_EstimateInjection p) EstimatesDisabled).
  - unfold validateRepresentationBuilder in Hb.
    destruct (String.eqb_spec (dp_Representation p) VersionOnly) as [Er|Er].
    + destruct (String.eqb_spec (dp_Builder p) BuilderNone); done.
    + split; [|done]. intros Eb. rewrite Eb in Hb. change (BuilderNone =? BuilderIndexedByKey)%string with false in Hb.
      change (BuilderNone =? BuilderQuadraticReference)%string with false in Hb.
      by repeat destruct (_ =? _)%string in Hb.
  - clear -E. unfold EffectiveDependencyControl in E. cbv zeta in E.
    repeat match type of E with
    | (if ?b then _ else _) = _ => destruct b; [discriminate E|]
    | match ?b with Some _ => _ | None => _ end = _ => destruct b; [discriminate E|]
    end. injection E as <-.
    cbn [dp_Mode dp_Source dp_Representation dp_Builder dp_WaitPolicy dp_EstimateInjection].
    intros given resolved Hin Hg. set_unfold in Hin. destruct_or? Hin; simplify_eq; by apply or_default_id.
Qed.

(** A configuration that only asks for the ready-queue consumer of the full graph. *)
Definition full_graph_config : RunConfig :=
  MkRunConfig "" DependencySourceStaticProgram FullConflictGraph "" WaitAllPredecessors "" "" "" "".

Lemma dependency_plan_coherent_witness :
  ∃ p, EffectiveDependencyControl full_graph_config = inr p ∧ dp_Representation p = FullConflictGraph ∧
    EffectiveDependencyControl (config_of p) = inr p.
Proof.
  eexists. split; [vm_compute; reflexivity|].
  destruct (dependency_plan_coherent full_graph_config
    (MkDependencyPlan DependencyMVCCRuntime DependencySourceStaticProgram FullConflictGraph
       BuilderQuadraticReference WaitAllPredecessors EstimatesDisabled)) as (H & _ & _ & _ & Hfix);
    [vm_compute; reflexivity|].
  split; [apply H; discriminate|exact Hfix].
Defined.

(** The kernel plan: a given field is never overridden, yielding workers is
    only accepted together with parking, ready-queue dispatch only with a wait
    consumer; and leaving every kernel knob out gives aborting estimate reads,
    parked idle workers and, exactly for a wait consumer, the ready queue,
    which is never the frozen kernel. *)
Lemma kernel_plan_defaults config dependency :
  (∀ k, EffectiveKernelControl config dependency = inr k →
     (cfg_EstimateRead config ≠ "" → kp_EstimateRead k = cfg_EstimateRead config) ∧
     (cfg_IdleWait config ≠ "" → kp_IdleWait k = cfg_IdleWait config) ∧
     (cfg_Dispatch config ≠ "" → kp_Dispatch k = cfg_Dispatch config) ∧
     (kp_EstimateRead k = EstimateReadSuspendYieldWorker → kp_IdleWait k = IdleWaitPark) ∧
     (kp_Dispatch k = DispatchReadyQueue → dp_WaitPolicy dependency ≠ WaitNone)) ∧
  (cfg_EstimateRead config = "" ∧ cfg_IdleWait config = "" ∧ cfg_Dispatch config = "" →
     let dispatch := if decide (dp_WaitPolicy dependency = WaitNone) then DispatchIndexOrder else DispatchReadyQueue in
     EffectiveKernelControl config dependency =
       inr (MkKernelPlan EstimateReadAbortReschedule IdleWaitPark dispatch) ∧
     KernelPlan_IsFrozenDefault (MkKernelPlan EstimateReadAbortReschedule IdleWaitPark dispatch) = false).
Proof.
  split.
  - intros k. unfold EffectiveKernelControl. cbv zeta. intros H.
    next_guard H E1. next_guard H E2. next_guard H E3. next_guard H E4. next_guard H E5. injection H as <-.
    cbn [kp_EstimateRead kp_IdleWait kp_Dispatch]. split; [by apply or_default_id|].
    split; [by apply or_default_id|]. split; [by apply or_default_id|]. split.
    + intros Ey. rewrite Ey, String.eqb_refl in E5. cbn in E5. by apply negb_false_iff, String.eqb_eq in E5.
    + intros Ed Ew. by rewrite Ed, Ew, !String.eqb_refl in E3.
  - intros (E1 & E2 & E3). unfold EffectiveKernelControl. rewrite E1, E2, E3.
    case_decide as Ew; [by rewrite Ew|]. apply String.eqb_neq in Ew. by rewrite Ew.
Qed.

Lemma kernel_plan_defaults_witness :
  EffectiveKernelControl full_graph_config
    (MkDependencyPlan DependencyMVCCRuntime DependencySourceStaticProgram FullConflictGraph
       BuilderQuadraticReference WaitAllPredecessors EstimatesDisabled) =
  inr (MkKernelPlan EstimateReadAbortReschedule IdleWaitPark DispatchReadyQueue).
Proof.
  apply (kernel_plan_defaults full_graph_config
    (MkDependencyPlan DependencyMVCCRuntime DependencySourceStaticProgram FullConflictGraph
       BuilderQuadraticReference WaitAllPredecessors EstimatesDisabled)).
  split; [reflexivity|]. split; reflexivity.
Defined.
