(* ===== verification/Workload.v ===== *)
(** * internal/workload/artifact.go: workload artifacts

    What a generated workload is, when it is accepted, and the views of it that
    an engine is given.  The JSON codec is a class: what the code relies on is
    that it decodes what it encoded. *)

From Stdlib Require Import ZArith Lia String.
From stdpp Require Import sorting.
From S2P Require Import Prelude Float64 Model State Plan.
Local Open Scope Z_scope.

(** ** Results with an error *)

#[export] Instance sum_ret {E} : MRet (sum E) := λ A a, inr a.
#[export] Instance sum_bind {E} : MBind (sum E) := λ A B k c,
  match c with inl e => inl e | inr a => k a end.

(** A loop that may return early with an error. *)
Fixpoint foldE {E A S} (f : S → A → E + S) (s : S) (l : list A) : E + S :=
  match l with
  | [] => inr s
  | x :: l => f s x ≫= λ s, foldE f s l
  end.

(** ** Data *)

Definition ArtifactSchemaVersion : string := "workload-artifact-v3".

Record GeneratorDescriptor := MkGeneratorDescriptor { g_Name : string; g_Version : string; g_Seed : Z; g_Config : Bytes }.

Record LogicalArrival := MkLogicalArrival {
  la_Sequence : Z;
  la_LogicalTime : Z;
  la_BlockID : string;
  la_TransactionID : string;
}.

Definition MetadataDeclared : string := "declared".
Definition MetadataObservedHistory : string := "observed_history".
Definition MetadataPredicted : string := "predicted".
Definition MetadataOracleTestOnly : string := "oracle_test_only".

Record MetadataRecord := MkMetadataRecord {
  md_ID : string;
  md_TargetID : string;
  md_Kind : string;
  md_Source : string;
  md_AvailableAt : string;
  md_Completeness : float64;
  md_Confidence : float64;
  md_AcquisitionCost : Z;
  md_MissSemantics : string;
  md_Payload : Bytes;
}.

Record Artifact := MkArtifact {
  a_SchemaVersion : string;
  a_Generator : GeneratorDescriptor;
  a_InitialState : list StateEntry;
  a_OrderedBlocks : list Block;
  a_LogicalArrivalSchedule : list LogicalArrival;
  a_EngineVisibleMetadata : list MetadataRecord;
}.

Record ExecutionInput := MkExecutionInput {
  i_InitialState : list StateEntry;
  i_OrderedBlocks : list Block;
  i_LogicalArrivalSchedule : list LogicalArrival;
  i_Metadata : list MetadataRecord;
}.

(** The errors of the package, one for each message. *)
Inductive artifact_error :=
| BadSchemaVersion | GeneratorRequired | GeneratorConfigInvalid | InitialStateUnsorted
| BlockIDRequired | ArtifactTransactionIDRequired | OperationWithoutID (transaction : string) | DuplicateLogicalID (id : string)
| ArrivalCount | ArrivalSequence | ArrivalTime | ArrivalUnknown | DuplicateArrival (id : string)
| MetadataRequired | DuplicateMetadataID (id : string) | MetadataUnknownTarget (id : string)
| MetadataInvalidSource (id : string) | MetadataProbability (id : string) | MissSemanticsRequired (id : string)
| UnknownAllowedSource (source : string)
| DecodeDescriptor | MultipleJSONValues | DecodeTrailer | JSONFailed.

(** What reading one more value of a stream finds. *)
Inductive json_next := JSONEnd | JSONValue | JSONError.

(** encoding/json, at the types the package encodes. *)
Class Json := {
  json_Valid : Bytes → bool;
  Marshal_artifact : Artifact → option Bytes;
  (** A strict decoder over a stream: the value and what is left. *)
  Decode_artifact : Bytes → option (Artifact * Bytes);
  Decode_any : Bytes → json_next;
  Marshal_input : ExecutionInput → option Bytes;
  Unmarshal_input : Bytes → option ExecutionInput;
}.

(** Values that JSON can hold: text in UTF-8 and finite numbers. *)
Class JsonLaws (J : Json) (artifact_fits : Artifact → Prop) (input_fits : ExecutionInput → Prop) := {
  Decode_Marshal a : artifact_fits a → ∃ b, Marshal_artifact a = Some b ∧ Decode_artifact b = Some (a, []);
  Decode_any_end : Decode_any [] = JSONEnd;
  Unmarshal_Marshal i : input_fits i → ∃ b, Marshal_input i = Some b ∧ Unmarshal_input b = Some i;
}.

Section artifact.
Context `{J : Json}.

(** ** [Validate] *)

Definition validMetadataSource (source : string) : bool :=
  (source =? MetadataDeclared)%string || (source =? MetadataObservedHistory)%string ||
  (source =? MetadataPredicted)%string || (source =? MetadataOracleTestOnly)%string.

Definition probability (value : float64) : bool :=
  negb (IsNaN value) && negb (IsInf value) && fle f0 value && fle value f1.

(** The keys of the initial state increase. *)
Fixpoint check_sorted (previous : option Bytes) (l : list StateEntry) : option artifact_error :=
  match l with
  | [] => None
  | e :: l =>
      match previous with
      | Some p => if bytes_ltb p (se_Key e) then check_sorted (Some (se_Key e)) l else Some InitialStateUnsorted
      | None => check_sorted (Some (se_Key e)) l
      end
  end.

(** [logicalIDs] and [txIDs] *)
Abbreviation scan := (gset string * gmap string string)%type.

Definition add_id (missing : artifact_error) (id : string) (s : scan) : artifact_error + scan :=
  if (id =? "")%string then inl missing
  else if bool_decide (id ∈ s.1) then inl (DuplicateLogicalID id)
  else inr ({[id]} ∪ s.1, s.2).

Definition scan_instruction (transaction : string) (s : scan) (i : Instruction) : artifact_error + scan :=
  add_id (OperationWithoutID transaction) (in_ID i) s.

Definition scan_transaction (block : string) (s : scan) (t : Transaction) : artifact_error + scan :=
  s ← (if (tx_ID t =? "")%string then inl ArtifactTransactionIDRequired
       else add_id ArtifactTransactionIDRequired (tx_ID t) (s.1, <[tx_ID t := block]> s.2));
  foldE (scan_instruction (tx_ID t)) s (Instructions (tx_Program t)).

Definition scan_block (s : scan) (b : Block) : artifact_error + scan :=
  s ← add_id BlockIDRequired (b_ID b) s;
  foldE (scan_transaction (b_ID b)) s (Transactions b).

Fixpoint check_arrivals (txIDs : gmap string string) (index : Z) (previous : option Z) (arrivals : gset string)
    (l : list LogicalArrival) : option artifact_error :=
  match l with
  | [] => None
  | a :: l =>
      if negb (la_Sequence a =? index) then Some ArrivalSequence
      else if match previous with Some p => la_LogicalTime a <? p | None => false end then Some ArrivalTime
      else if negb (bool_decide (txIDs !! la_TransactionID a = Some (la_BlockID a))) then Some ArrivalUnknown
      else if bool_decide (la_TransactionID a ∈ arrivals) then Some (DuplicateArrival (la_TransactionID a))
      else check_arrivals txIDs (index + 1) (Some (la_LogicalTime a)) ({[la_TransactionID a]} ∪ arrivals) l
  end.

Fixpoint check_metadata (logicalIDs : gset string) (metadataIDs : gset string) (l : list MetadataRecord) :
    option artifact_error :=
  match l with
  | [] => None
  | r :: l =>
      if (md_ID r =? "")%string || (md_TargetID r =? "")%string || (md_Kind r =? "")%string || (md_AvailableAt r =? "")%string
      then Some MetadataRequired
      else if bool_decide (md_ID r ∈ metadataIDs) then Some (DuplicateMetadataID (md_ID r))
      else if negb (bool_decide (md_TargetID r ∈ logicalIDs)) then Some (MetadataUnknownTarget (md_ID r))
      else if negb (validMetadataSource (md_Source r)) then Some (MetadataInvalidSource (md_ID r))
      else if negb (probability (md_Completeness r)) || negb (probability (md_Confidence r))
      then Some (MetadataProbability (md_ID r))
      else if (md_MissSemantics r =? "")%string then Some (MissSemanticsRequired (md_ID r))
      else check_metadata logicalIDs ({[md_ID r]} ∪ metadataIDs) l
  end.

(** [None]: the artifact is accepted. *)
Definition artifact_Validate (a : Artifact) : option artifact_error :=
  let g := a_Generator a in
  if negb (a_SchemaVersion a =? ArtifactSchemaVersion)%string then Some BadSchemaVersion
  else if (g_Name g =? "")%string || (g_Version g =? "")%string then Some GeneratorRequired
  else if (length (g_Config g) =? 0)%nat || negb (json_Valid (g_Config g)) then Some GeneratorConfigInvalid
  else match check_sorted None (a_InitialState a) with
  | Some e => Some e
  | None =>
      match foldE scan_block (∅, ∅) (a_OrderedBlocks a) with
      | inl e => Some e
      | inr (logicalIDs, txIDs) =>
          if negb (length (a_LogicalArrivalSchedule a) =? size txIDs)%nat then Some ArrivalCount
          else match check_arrivals txIDs 0 None ∅ (a_LogicalArrivalSchedule a) with
          | Some e => Some e
          | None => check_metadata logicalIDs ∅ (a_EngineVisibleMetadata a)
          end
      end
  end.

(** ** The views of an artifact *)

(** An accepted artifact has a state; a duplicate key, the second [None], is
    an error of the store. *)
Definition NewState (a : Artifact) : artifact_error + option Store :=
  match artifact_Validate a with Some e => inl e | None => inr (FromEntries (a_InitialState a)) end.

Definition Descriptor (a : Artifact) : artifact_error + Bytes :=
  match artifact_Validate a with
  | Some e => inl e
  | None => match Marshal_artifact a with Some b => inr b | None => inl JSONFailed end
  end.

Definition ParseDescriptor (encoded : Bytes) : artifact_error + Artifact :=
  match Decode_artifact encoded with
  | None => inl DecodeDescriptor
  | Some (a, rest) =>
      match Decode_any rest with
      | JSONValue => inl MultipleJSONValues
      | JSONError => inl DecodeTrailer
      | JSONEnd => match artifact_Validate a with Some e => inl e | None => inr a end
      end
  end.

Definition visible (allowedSources : list string) (r : MetadataRecord) : bool :=
  existsb (String.eqb (md_Source r)) allowedSources.

(** A deep copy, through JSON. *)
Definition execution_input (a : Artifact) (allowedSources : list string) : artifact_error + ExecutionInput :=
  match findb (λ source, negb (validMetadataSource source)) allowedSources with
  | Some source => inl (UnknownAllowedSource source)
  | None =>
      let input := MkExecutionInput (a_InitialState a) (a_OrderedBlocks a) (a_LogicalArrivalSchedule a)
                     (filter (visible allowedSources) (a_EngineVisibleMetadata a)) in
      match Marshal_input input with
      | None => inl JSONFailed
      | Some encoded => match Unmarshal_input encoded with Some clone => inr clone | None => inl JSONFailed end
      end
  end.

Definition input_NewState (i : ExecutionInput) : option Store := FromEntries (i_InitialState i).
End artifact.

(** ** What a scan establishes *)

Definition transaction_ids (t : Transaction) : list string := tx_ID t :: (in_ID <$> Instructions (tx_Program t)).
Definition block_ids (b : Block) : list string := b_ID b :: (Transactions b ≫= transaction_ids).
(** Every logical identifier, in the order of the scan. *)
Definition logical_ids (blocks : list Block) : list string := blocks ≫= block_ids.
(** Every transaction, with its block. *)
Definition block_transactions (b : Block) : list (string * string) := (λ t, (tx_ID t, b_ID b)) <$> Transactions b.
Definition tx_blocks (blocks : list Block) : list (string * string) := blocks ≫= block_transactions.

(** New identifiers, none of them empty or repeated. *)
Definition fresh_ids (l : list string) (ids : gset string) : Prop := NoDup l ∧ ∀ id, id ∈ l → id ≠ "" ∧ id ∉ ids.

Definition insert_all (l : list (string * string)) (m : gmap string string) : gmap string string :=
  foldl (λ m p, <[p.1 := p.2]> m) m l.

(** A part of the scan that adds the identifiers [l] and the transactions [ps]. *)
Definition adds (f : gset string * gmap string string → artifact_error + (gset string * gmap string string))
    (l : list string) (ps : list (string * string)) : Prop :=
  ∀ s, (fresh_ids l s.1 → f s = inr (list_to_set l ∪ s.1, insert_all ps s.2)) ∧ (∀ r, f s = inr r → fresh_ids l s.1).

Lemma adds_ret : adds inr [] [].
Proof.
  intros [ids txs]. split; [|by intros _ _; split; [constructor|set_solver]].
  intros _. cbn. by rewrite (left_id_L ∅ (∪)).
Qed.

Lemma fresh_ids_app l l' ids : fresh_ids (l ++ l') ids ↔ fresh_ids l ids ∧ fresh_ids l' (list_to_set l ∪ ids).
Proof.
  unfold fresh_ids. rewrite NoDup_app. split.
  - intros ((H1 & H2 & H3) & H). split; (split; [done|]).
    + intros id Hid. apply H, elem_of_app. by left.
    + intros id Hid. destruct (H id) as [Hne Hn]; [apply elem_of_app; by right|]. split; [done|].
      intros [Hl%elem_of_list_to_set|?]%elem_of_union; [by apply (H2 id)|done].
  - intros [[H1 H] [H3 H']]. split; [split_and!; [done| |done]|].
    + intros id Hid Hid'. destruct (H' id Hid') as [_ []]. apply elem_of_union. left. by apply elem_of_list_to_set.
    + intros id [Hid|Hid]%elem_of_app; [by apply H|]. destruct (H' id Hid) as [Hne Hn]. split; [done|].
      intros Hin. apply Hn, elem_of_union. by right.
Qed.

Lemma adds_bind f g l l' ps ps' : adds f l ps → adds g l' ps' → adds (λ s, f s ≫= g) (l ++ l') (ps ++ ps').
Proof.
  intros Hf Hg s. destruct (Hf s) as [Hf1 Hf2]. split.
  - intros [H1 H2]%fresh_ids_app. rewrite (Hf1 H1). cbn. rewrite (proj1 (Hg (list_to_set l ∪ s.1, insert_all ps s.2)) H2). cbn. f_equal. f_equal.
    + by rewrite list_to_set_app_L, (assoc_L (∪)), (comm_L (∪) (list_to_set l')).
    + unfold insert_all. by rewrite foldl_app.
  - intros r Hr. destruct (f s) as [e|s1] eqn:E; [done|]. cbn in Hr. specialize (Hf2 _ eq_refl).
    apply fresh_ids_app. split; [done|]. pose proof (Hf1 Hf2) as E1. injection E1 as ->. by apply (proj2 (Hg _)) in Hr.
Qed.

Lemma adds_fold {A} (f : _ → A → _) (l : A → list string) (ps : A → list (string * string)) xs :
  (∀ x, adds (λ s, f s x) (l x) (ps x)) → adds (λ s, foldE f s xs) (xs ≫= l) (xs ≫= ps).
Proof. intros Hx. induction xs as [|x xs IH]; [apply adds_ret|]. by apply (adds_bind (λ s, f s x)). Qed.

Lemma adds_id missing id : adds (add_id missing id) [id] [].
Proof.
  intros [ids txs]. unfold add_id. cbn [fst snd]. destruct (String.eqb_spec id "") as [->|Hne].
  - split; [|done]. intros [_ H]. by destruct (proj1 (H ""%string ltac:(by left))).
  - case_bool_decide as Hin.
    + split; [|done]. intros [_ H]. by destruct (proj2 (H id ltac:(by left))).
    + split; [cbn; by rewrite (right_id_L ∅ (∪))|]. intros _ _. split; [apply NoDup_singleton|]. set_solver.
Qed.

Lemma fmap_as_bind {A B} (f : A → B) l : f <$> l = l ≫= λ x, [f x].
Proof. induction l as [|x l IH]; [done|]. cbn. by rewrite <- IH. Qed.

Lemma bind_nothing {A B} (l : list A) : l ≫= (λ _, @nil B) = [].
Proof. by induction l. Qed.

Lemma scan_instruction_adds t i : adds (λ s, scan_instruction t s i) [in_ID i] [].
Proof. apply adds_id. Qed.

Lemma scan_transaction_adds block t : adds (λ s, scan_transaction block s t) (transaction_ids t) [(tx_ID t, block)].
Proof.
  assert (adds (λ s, if (tx_ID t =? "")%string then inl ArtifactTransactionIDRequired
                     else add_id ArtifactTransactionIDRequired (tx_ID t) (s.1, <[tx_ID t := block]> s.2))
            [tx_ID t] [(tx_ID t, block)]) as Ht.
  { intros [ids txs]. destruct (adds_id ArtifactTransactionIDRequired (tx_ID t) (ids, <[tx_ID t := block]> txs)) as [H1 H2].
    cbn [fst snd] in *. destruct (String.eqb_spec (tx_ID t) "") as [E|_]; [|by split].
    split; [|done]. intros [_ H]. by destruct (proj1 (H (tx_ID t) ltac:(by left))). }
  assert (transaction_ids t = [tx_ID t] ++ (Instructions (tx_Program t) ≫= λ i, [in_ID i])) as ->.
  { unfold transaction_ids. by rewrite fmap_as_bind. }
  assert ([(tx_ID t, block)] = [(tx_ID t, block)] ++ (Instructions (tx_Program t) ≫= λ _, [])) as ->.
  { by rewrite bind_nothing. }
  apply (adds_bind _ (λ s, foldE (scan_instruction (tx_ID t)) s _)); [done|]. apply adds_fold, scan_instruction_adds.
Qed.

Lemma scan_block_adds b : adds (λ s, scan_block s b) (block_ids b) (block_transactions b).
Proof.
  assert (block_transactions b = [] ++ (Transactions b ≫= λ t, [(tx_ID t, b_ID b)])) as ->.
  { unfold block_transactions. by rewrite fmap_as_bind. }
  apply (adds_bind (add_id BlockIDRequired (b_ID b)) (λ s, foldE (scan_transaction (b_ID b)) s _) [b_ID b]);
    [apply adds_id|]. apply adds_fold, scan_transaction_adds.
Qed.

Lemma scan_blocks_adds blocks : adds (λ s, foldE scan_block s blocks) (logical_ids blocks) (tx_blocks blocks).
Proof. apply adds_fold, scan_block_adds. Qed.

(** [txIDs] at the end of the scan. *)
Lemma insert_all_map ps : insert_all ps ∅ = list_to_map (reverse ps).
Proof.
  induction ps as [|[id b] ps IH] using rev_ind; [done|]. unfold insert_all in *.
  rewrite foldl_app, reverse_app. cbn. by rewrite IH.
Qed.

Lemma NoDup_reverse_fst (ps : list (string * string)) : NoDup ps.*1 → NoDup (reverse ps).*1.
Proof. intros H. by rewrite <- (reverse_Permutation ps) in H. Qed.

Lemma insert_all_elem ps id block : NoDup ps.*1 → insert_all ps ∅ !! id = Some block ↔ (id, block) ∈ ps.
Proof.
  intros Hnd. rewrite insert_all_map, <- elem_of_list_to_map by by apply NoDup_reverse_fst.
  by rewrite elem_of_reverse.
Qed.

Lemma insert_all_size ps : NoDup ps.*1 → size (insert_all ps ∅) = length ps.
Proof.
  intros Hnd. rewrite insert_all_map, <- length_map_to_list, map_to_list_to_map by by apply NoDup_reverse_fst.
  apply length_reverse.
Qed.

Lemma tx_ids_sublist blocks : (tx_blocks blocks).*1 `sublist_of` logical_ids blocks.
Proof.
  induction blocks as [|b blocks IH]; [done|]. unfold tx_blocks, logical_ids in *. cbn [mbind list_bind]. rewrite fmap_app.
  apply sublist_app; [|done]. unfold block_ids, block_transactions. apply sublist_cons. rewrite <- list_fmap_compose.
  induction (Transactions b) as [|t l IHl]; [done|]. cbn. apply sublist_skip. by apply sublist_inserts_l.
Qed.

Lemma logical_ids_tx_NoDup blocks : NoDup (logical_ids blocks) → NoDup (tx_blocks blocks).*1.
Proof. intros H. eapply sublist_NoDup; [done|apply tx_ids_sublist]. Qed.

(** The schedule: numbered from [index], not before [previous], each of a known
    transaction, none of them twice or in [arrivals]. *)
Record scheduled (txIDs : gmap string string) (index : Z) (previous : option Z) (arrivals : gset string)
    (l : list LogicalArrival) : Prop := {
  sc_sequence : la_Sequence <$> l = seqZ index (Z.of_nat (length l));
  sc_times : Sorted Z.le (option_list previous ++ (la_LogicalTime <$> l));
  sc_known : ∀ a, a ∈ l → txIDs !! la_TransactionID a = Some (la_BlockID a);
  sc_once : NoDup (la_TransactionID <$> l);
  sc_new : ∀ a, a ∈ l → la_TransactionID a ∉ arrivals;
}.

Lemma scheduled_cons txIDs index previous arrivals a l :
  scheduled txIDs index previous arrivals (a :: l) ↔
    la_Sequence a = index ∧ (∀ p, previous = Some p → p <= la_LogicalTime a) ∧
    txIDs !! la_TransactionID a = Some (la_BlockID a) ∧ la_TransactionID a ∉ arrivals ∧
    scheduled txIDs (index + 1) (Some (la_LogicalTime a)) ({[la_TransactionID a]} ∪ arrivals) l.
Proof.
  assert (seqZ index (Z.of_nat (length (a :: l))) = index :: seqZ (index + 1) (Z.of_nat (length l))) as E.
  { rewrite seqZ_cons by (cbn; lia). f_equal. f_equal; cbn; lia. }
  split.
  - intros [H1 H2 H3 H4 H5]. rewrite E in H1. injection H1 as H1a H1. cbn in H4. apply NoDup_cons in H4 as [H4a H4].
    assert (Sorted Z.le (la_LogicalTime a :: (la_LogicalTime <$> l))) as H2'.
    { destruct previous; cbn in H2; [by apply Sorted_inv in H2 as [H2 _]|done]. }
    split_and!; [done| |by apply H3; left|by apply H5; left|].
    { intros p ->. cbn in H2. apply Sorted_inv in H2 as [_ H2]. by apply HdRel_inv in H2. }
    split; [done|done| |done|].
    + intros b Hb. apply H3. by right.
    + intros b Hb [Hab%elem_of_singleton|Hab]%elem_of_union; [|by apply (H5 b); [right|]].
      apply H4a. rewrite <- Hab. by apply list_elem_of_fmap_2.
  - intros (Hs & Ht & Hk & Hn & [H1 H2 H3 H4 H5]). split.
    + rewrite E. cbn. by rewrite Hs, H1.
    + destruct previous as [p|]; cbn; [|done]. constructor; [done|]. constructor. by apply Ht.
    + intros b [->|Hb]%elem_of_cons; [done|by apply H3].
    + cbn. apply NoDup_cons. split; [|done]. intros (b & Eb & Hb)%list_elem_of_fmap. apply (H5 b Hb), elem_of_union.
      left. by apply elem_of_singleton.
    + intros b [->|Hb]%elem_of_cons; [done|]. intros Hin. apply (H5 b Hb), elem_of_union. by right.
Qed.

Lemma check_arrivals_exact txIDs index previous arrivals l :
  check_arrivals txIDs index previous arrivals l = None ↔ scheduled txIDs index previous arrivals l.
Proof.
  revert index previous arrivals. induction l as [|a l IH]; intros index previous arrivals; cbn [check_arrivals].
  { split; [|done]. intros _. split; [done|by destruct previous as [p|]; cbn; repeat constructor|..|constructor|];
      by intros a ?%elem_of_nil. }
  rewrite scheduled_cons, <- IH. destruct (Z.eqb_spec (la_Sequence a) index) as [Es|Es]; cbn [negb]; [|naive_solver].
  destruct (match previous with Some p => la_LogicalTime a <? p | None => false end) eqn:Et.
  { destruct previous as [p|]; [|done]. apply Z.ltb_lt in Et. split; [done|]. intros (_ & H & _).
    specialize (H p eq_refl). lia. }
  assert (∀ p, previous = Some p → p <= la_LogicalTime a) as Ht by (intros p ->; by apply Z.ltb_ge in Et).
  case_bool_decide; cbn [negb]; [|naive_solver]. case_bool_decide; [naive_solver|]. naive_solver.
Qed.

Lemma check_sorted_exact previous l :
  check_sorted previous l = None ↔ Sorted bytes_lt (option_list previous ++ (se_Key <$> l)).
Proof.
  revert previous. induction l as [|e l IH]; intros previous; cbn [check_sorted].
  { split; [|done]. intros _. destruct previous; cbn; repeat constructor. }
  destruct previous as [p|]; cbn [option_list app fmap list_fmap]; [|apply IH].
  destruct (bytes_ltb p (se_Key e)) eqn:E; [apply bytes_ltb_lt in E|].
  - rewrite IH. cbn. split; [intros H; constructor; [done|by constructor]|by intros [H _]%Sorted_inv].
  - split; [done|]. intros [_ H%HdRel_inv%bytes_ltb_lt]%Sorted_inv. congruence.
Qed.

(** What is asked of a metadata record. *)
Record metadata_ok (targets : list string) (r : MetadataRecord) : Prop := {
  mo_named : md_ID r ≠ "" ∧ md_TargetID r ≠ "" ∧ md_Kind r ≠ "" ∧ md_AvailableAt r ≠ "" ∧ md_MissSemantics r ≠ "";
  mo_target : md_TargetID r ∈ targets;
  mo_source : validMetadataSource (md_Source r) = true;
  mo_probabilities : probability (md_Completeness r) = true ∧ probability (md_Confidence r) = true;
}.

Lemma check_metadata_exact targets ids l :
  check_metadata (list_to_set targets) ids l = None ↔
    (∀ r, r ∈ l → metadata_ok targets r) ∧ NoDup (md_ID <$> l) ∧ ∀ r, r ∈ l → md_ID r ∉ ids.
Proof.
  revert ids. induction l as [|r l IH]; intros ids; cbn [check_metadata].
  { split; [|done]. intros _. split_and!; [|constructor|]; by intros r ?%elem_of_nil. }
  assert ((∀ r', r' ∈ r :: l → metadata_ok targets r') ∧ NoDup (md_ID <$> r :: l) ∧ (∀ r', r' ∈ r :: l → md_ID r' ∉ ids) ↔
    metadata_ok targets r ∧ md_ID r ∉ ids ∧ (∀ r', r' ∈ l → metadata_ok targets r') ∧ NoDup (md_ID <$> l) ∧
    ∀ r', r' ∈ l → md_ID r' ∉ {[md_ID r]} ∪ ids) as ->.
  { cbn. rewrite NoDup_cons, list_elem_of_fmap. split.
    - intros (H1 & [H2 H3] & H4). split_and!; [apply H1; by left|apply H4; by left| |done|].
      + intros r' Hr. apply H1. by right.
      + intros r' Hr [E%elem_of_singleton|Hin]%elem_of_union; [apply H2; by exists r'|by apply (H4 r'); [right|]].
    - intros (H1 & H2 & H3 & H4 & H5). split_and!; [| |done|].
      + intros r' [->|Hr]%elem_of_cons; [done|by apply H3].
      + intros (r' & E & Hr). apply (H5 r' Hr), elem_of_union. left. by apply elem_of_singleton.
      + intros r' [->|Hr]%elem_of_cons; [done|]. intros Hin. apply (H5 r' Hr), elem_of_union. by right. }
  rewrite <- IH. clear IH.
  destruct (String.eqb_spec (md_ID r) ""); [split; [done|]; intros ([] & _); tauto|].
  destruct (String.eqb_spec (md_TargetID r) ""); [split; [done|]; intros ([] & _); tauto|].
  destruct (String.eqb_spec (md_Kind r) ""); [split; [done|]; intros ([] & _); tauto|].
  destruct (String.eqb_spec (md_AvailableAt r) ""); [split; [done|]; intros ([] & _); tauto|]. cbn [orb].
  case_bool_decide as Hid; [split; [done|]; intros (_ & [] & _); done|].
  case_bool_decide as Ht; cbn [negb]; [apply elem_of_list_to_set in Ht|split; [done|]; intros ([_ H _ _] & _); by destruct Ht; apply elem_of_list_to_set].
  destruct (validMetadataSource _) eqn:Es; cbn [negb]; [|split; [done|]; intros ([_ _ H _] & _); congruence].
  destruct (probability (md_Completeness r)) eqn:E1; cbn [negb orb]; [|split; [done|]; intros ([_ _ _ [H _]] & _); congruence].
  destruct (probability (md_Confidence r)) eqn:E2; cbn [negb]; [|split; [done|]; intros ([_ _ _ [_ H]] & _); congruence].
  destruct (String.eqb_spec (md_MissSemantics r) ""); [split; [done|]; intros ([] & _); tauto|].
  split; [|by intros (_ & _ & ?)]. intros H. split; [|by split]. by split.
Qed.

(** A well-formed artifact. *)
Record artifact_wf `{J : Json} (a : Artifact) : Prop := {
  aw_version : a_SchemaVersion a = ArtifactSchemaVersion;
  aw_generator : g_Name (a_Generator a) ≠ "" ∧ g_Version (a_Generator a) ≠ "";
  aw_config : g_Config (a_Generator a) ≠ [] ∧ json_Valid (g_Config (a_Generator a)) = true;
  aw_state : sorted_keys (se_Key <$> a_InitialState a);
  aw_ids : NoDup (logical_ids (a_OrderedBlocks a)) ∧ "" ∉ logical_ids (a_OrderedBlocks a);
  aw_sequence : la_Sequence <$> a_LogicalArrivalSchedule a = seqZ 0 (Z.of_nat (length (a_LogicalArrivalSchedule a)));
  aw_times : Sorted Z.le (la_LogicalTime <$> a_LogicalArrivalSchedule a);
  aw_arrivals : (λ r, (la_TransactionID r, la_BlockID r)) <$> a_LogicalArrivalSchedule a ≡ₚ tx_blocks (a_OrderedBlocks a);
  aw_metadata : (∀ r, r ∈ a_EngineVisibleMetadata a → metadata_ok (logical_ids (a_OrderedBlocks a)) r) ∧
    NoDup (md_ID <$> a_EngineVisibleMetadata a);
}.

Lemma fresh_ids_empty l : fresh_ids l ∅ ↔ NoDup l ∧ "" ∉ l.
Proof.
  split; intros [H1 H2]; (split; [done|]).
  - intros H. by destruct (proj1 (H2 _ H)).
  - intros id Hid. split; [by intros ->|apply not_elem_of_empty].
Qed.

(** The schedule covers every transaction: it has as many entries, all
    different and known. *)
Lemma scheduled_covers blocks l :
  NoDup (tx_blocks blocks).*1 → length l = length (tx_blocks blocks) →
  scheduled (insert_all (tx_blocks blocks) ∅) 0 None ∅ l ↔
    la_Sequence <$> l = seqZ 0 (Z.of_nat (length l)) ∧ Sorted Z.le (la_LogicalTime <$> l) ∧
    (λ r, (la_TransactionID r, la_BlockID r)) <$> l ≡ₚ tx_blocks blocks.
Proof.
  intros Hnd Hlen. set (pair := λ r, (la_TransactionID r, la_BlockID r)).
  assert ((pair <$> l).*1 = la_TransactionID <$> l) as Efst by (by rewrite <- list_fmap_compose).
  split.
  - intros [H1 H2 H3 H4 _]. split_and!; [done|done|]. apply submseteq_length_Permutation; [|by rewrite length_fmap, Hlen].
    apply NoDup_submseteq; [apply (NoDup_fmap_1 fst); by rewrite Efst|].
    intros p (a & -> & Ha)%list_elem_of_fmap. apply insert_all_elem; [done|]. by apply H3.
  - intros (H1 & H2 & H3). split; [done|done| | |].
    + intros a Ha. apply insert_all_elem; [done|]. rewrite <- H3. by apply (list_elem_of_fmap_2 pair).
    + rewrite <- Efst. by rewrite H3.
    + intros a _. apply not_elem_of_empty.
Qed.

Lemma validate_transactions_fresh index seen l :
  NoDup (tx_ID <$> l) → (∀ t, t ∈ l → tx_ID t ≠ "" ∧ tx_ID t ∉ seen) → validate_transactions index seen l = None.
Proof.
  revert index seen. induction l as [|t l IH]; intros index seen Hnd Hl; [done|]. cbn [validate_transactions].
  destruct (Hl t) as [Hne Hs]; [by left|]. apply NoDup_cons in Hnd as [Hn Hnd]. apply String.eqb_neq in Hne as ->.
  rewrite bool_decide_eq_false_2 by done. apply IH; [done|]. intros t' Ht. destruct (Hl t') as [Hne Hs']; [by right|].
  split; [done|]. intros [E%elem_of_singleton|?]%elem_of_union; [|done]. apply Hn. rewrite <- E. by apply list_elem_of_fmap_2.
Qed.

Lemma NoDup_key_inj {A K} (key : A → K) l x y : NoDup (key <$> l) → x ∈ l → y ∈ l → key x = key y → x = y.
Proof.
  intros Hnd (i & Hi)%list_elem_of_lookup (j & Hj)%list_elem_of_lookup E. apply (list_lookup_fmap_Some_2 key) in Hi as Hi', Hj as Hj'.
  rewrite <- E in Hj'. pose proof (NoDup_lookup _ _ _ _ Hnd Hi' Hj') as ->. congruence.
Qed.

Lemma FromEntries_sorted l : sorted_keys (se_Key <$> l) → ∃ store, FromEntries l = Some store ∧ Snapshot store = l.
Proof.
  intros Hs. pose proof (StronglySorted_NoDup bytes_lt _ Hs) as Hnd. unfold FromEntries.
  erewrite (proj2 (add_entries_spec (data New) l _)); [|split; [done|split; [intros; apply lookup_empty|reflexivity]]].
  set (m := foldl _ _ l). exists (MkStore m). split; [done|]. unfold Snapshot. apply (sort_by_key_unique se_Key); [apply Snapshot_keys| |done].
  apply NoDup_Permutation; [by apply (NoDup_fmap_1 se_Key)|apply (NoDup_fmap_1 se_Key), Snapshot_keys|].
  intros e. pose proof (Snapshot_elem (MkStore m) e) as He. unfold Snapshot in He. rewrite (sort_by_key_perm se_Key) in He.
  rewrite He. cbn. unfold m. rewrite foldl_insert_lookup by done.
  change (data New !! se_Key e) with (@None Bytes). destruct (findb _ l) as [e'|] eqn:E.
  - apply findb_Some in E as [He' Ek%bool_decide_eq_true]. split; [|intros [= Ev]; by destruct e, e'; cbn in *; subst].
    intros Hin. f_equal. f_equal. by apply (NoDup_key_inj se_Key l).
  - split; [|done]. intros Hin. apply (proj1 (findb_None _ _)) with (x := e) in E; [|done].
    by rewrite bool_decide_eq_true_2 in E.
Qed.

Lemma artifact_Validate_wf `{J : Json} a : artifact_Validate a = None ↔ artifact_wf a.
Proof.
  unfold artifact_Validate.
  destruct (String.eqb_spec (a_SchemaVersion a) ArtifactSchemaVersion) as [Ev|]; cbn [negb]; [|split; [done|by intros []]].
  destruct (String.eqb_spec (g_Name (a_Generator a)) ""); cbn [orb]; [split; [done|by intros [? []]]|].
  destruct (String.eqb_spec (g_Version (a_Generator a)) ""); [split; [done|by intros [? []]]|].
  destruct (g_Config (a_Generator a)) as [|c cs] eqn:Ec; cbn [length Nat.eqb orb]; [split; [done|intros [? ? [H _]]; by rewrite Ec in H]|].
  rewrite <- Ec. destruct (json_Valid _) eqn:Ej; cbn [negb]; [|split; [done|intros [? ? [_ H]]; congruence]].
  destruct (check_sorted None (a_InitialState a)) as [e|] eqn:Es.
  { split; [done|]. intros H. apply aw_state in H. apply StronglySorted_Sorted, (check_sorted_exact None) in H. congruence. }
  apply (check_sorted_exact None), Sorted_StronglySorted in Es; [|apply _].
  pose proof (scan_blocks_adds (a_OrderedBlocks a) (∅, ∅)) as [Hscan Hscan'].
  destruct (foldE scan_block (∅, ∅) (a_OrderedBlocks a)) as [e|[ids txs]] eqn:Ef.
  { split; [done|]. intros H. apply aw_ids, fresh_ids_empty, Hscan in H. congruence. }
  assert (fresh_ids (logical_ids (a_OrderedBlocks a)) ∅) as Hfresh by (by apply (Hscan' (ids, txs))).
  pose proof (Hscan Hfresh) as Er. injection Er as -> ->. clear Hscan Hscan' Ef. cbn [fst snd].
  apply fresh_ids_empty in Hfresh as Hids. pose proof (logical_ids_tx_NoDup _ (proj1 Hids)) as Hnd.
  rewrite insert_all_size, (right_id_L ∅ (∪)) by done.
  destruct (Nat.eqb_spec (length (a_LogicalArrivalSchedule a)) (length (tx_blocks (a_OrderedBlocks a)))) as [El|Hne]; cbn [negb].
  2:{ split; [done|]. intros H. apply aw_arrivals, Permutation_length in H. by rewrite length_fmap in H. }
  pose proof (scheduled_covers _ _ Hnd El) as Hcov.
  destruct (check_arrivals _ 0 None ∅ _) as [e|] eqn:Ea.
  { split; [done|]. intros H.
    assert (scheduled (insert_all (tx_blocks (a_OrderedBlocks a)) ∅) 0 None ∅ (a_LogicalArrivalSchedule a)) as H'
      by (apply Hcov; split_and!; apply H). apply check_arrivals_exact in H'. congruence. }
  apply check_arrivals_exact, Hcov in Ea as (H1 & H2 & H3).
  rewrite check_metadata_exact. split.
  - intros (Hm & Hmd & _). split; try done. split; [by rewrite Ec|done].
  - intros H. destruct (aw_metadata _ H) as [Hm Hmd]. split_and!; [done|done|]. intros r _. apply not_elem_of_empty.
Qed.

(** ** Properties *)

(** C28: [Validate] accepts exactly the well-formed artifacts: all logical
    identifiers — of blocks, transactions and operations — present and
    different, the initial state strictly sorted, and the arrival schedule an
    enumeration of the transactions that is numbered without gaps and never
    goes back in time.  What it accepts the engines can run: the initial state
    becomes a store with exactly those entries, and every block passes the
    engines' own check. *)
Theorem artifact_Validate_exact `{J : Json} a :
  (artifact_Validate a = None ↔ artifact_wf a) ∧
  (artifact_Validate a = None →
    (∃ store, NewState a = inr (Some store) ∧ Snapshot store = a_InitialState a) ∧
    ∀ b, b ∈ a_OrderedBlocks a → ValidateBlock b = None).
Proof.
  split; [apply artifact_Validate_wf|]. intros Hv. apply artifact_Validate_wf in Hv as Hw. split.
  - destruct (FromEntries_sorted _ (aw_state _ Hw)) as (store & E & Es). exists store. unfold NewState. by rewrite Hv, E.
  - intros b Hb. destruct (aw_ids _ Hw) as [Hnd Hne].
    assert (∀ id, id ∈ block_ids b → id ∈ logical_ids (a_OrderedBlocks a)) as Hin.
    { intros id Hid. apply list_elem_of_bind. by exists b. }
    unfold ValidateBlock. rewrite (proj2 (String.eqb_neq _ _)); [|intros E; apply Hne, Hin; unfold block_ids; rewrite E; by left].
    apply validate_transactions_fresh.
    + eapply sublist_NoDup; [exact Hnd|]. apply list_elem_of_split in Hb as (l1 & l2 & E). rewrite E.
      unfold logical_ids. rewrite bind_app. cbn. apply sublist_inserts_l, sublist_cons, sublist_inserts_r.
      induction (Transactions b) as [|t l IHl]; [done|]. cbn. apply sublist_skip. by apply sublist_inserts_l.
    + intros t Ht. split; [|apply not_elem_of_empty]. intros E. apply Hne, Hin. right. apply list_elem_of_bind.
      exists t. split; [|done]. rewrite <- E. by left.
Qed.

(** *** The views *)

Section views.
Context `{J : Json} (artifact_fits : Artifact → Prop) (input_fits : ExecutionInput → Prop).
Context `{!JsonLaws J artifact_fits input_fits}.

(** What [Descriptor] wrote [ParseDescriptor] reads back. *)
Lemma Descriptor_roundtrip a : artifact_Validate a = None → artifact_fits a →
  ∃ b, Descriptor a = inr b ∧ ParseDescriptor b = inr a.
Proof.
  intros Hv (b & Eb & Ed)%Decode_Marshal. exists b. unfold Descriptor, ParseDescriptor.
  by rewrite Hv, Eb, Ed, Decode_any_end, Hv.
Qed.

(** An engine sees the metadata whose source it was allowed, and no other; an
    unknown source is refused. *)
Lemma execution_input_exact a sources : (∀ i, input_fits i) →
  (∀ source, source ∈ sources → validMetadataSource source = true) →
  ∃ i, execution_input a sources = inr i ∧ i_InitialState i = a_InitialState a ∧ i_OrderedBlocks i = a_OrderedBlocks a ∧
    (∀ r, r ∈ i_Metadata i ↔ r ∈ a_EngineVisibleMetadata a ∧ md_Source r ∈ sources).
Proof.
  intros Hfit Hs. unfold execution_input. rewrite (proj2 (findb_None _ _)) by (intros s Hin; by rewrite Hs).
  destruct (Unmarshal_Marshal _ (Hfit (MkExecutionInput (a_InitialState a) (a_OrderedBlocks a) (a_LogicalArrivalSchedule a)
    (filter (visible sources) (a_EngineVisibleMetadata a))))) as (b & -> & ->).
  eexists. split_and!; [done..|]. intros r. cbn. rewrite list_elem_of_filter. unfold visible. rewrite Is_true_true, existsb_exists.
  split.
  - intros [(s & Hin & ->%String.eqb_eq) H2]. split; [done|]. by apply list_elem_of_In.
  - intros [H1 H2]. split; [|done]. exists (md_Source r). split; [by apply list_elem_of_In|apply String.eqb_refl].
Qed.
End views.

(** ** Two transactions *)

Section witnesses.
(** A codec that refuses everything but accepts any configuration. *)
#[local] Instance sample_json : Json := {|
  json_Valid := λ _, true;
  Marshal_artifact := λ _, None; Decode_artifact := λ _, None; Decode_any := λ _, JSONEnd;
  Marshal_input := λ _, None; Unmarshal_input := λ _, None;
|}.

Definition idle_transaction (id : string) : Transaction := MkTransaction id 1 (MkProgram []).
Definition sample_artifact (second : string) : Artifact :=
  MkArtifact ArtifactSchemaVersion (MkGeneratorDescriptor "g" "1" 0 [Byte.x7b; Byte.x7d])
    [MkStateEntry [Byte.x61] []; MkStateEntry [Byte.x62] []]
    [MkBlock "b" 0 [idle_transaction "t"; idle_transaction second]]
    [MkLogicalArrival 0 0 "b" "t"; MkLogicalArrival 1 0 "b" second] [].

Lemma artifact_Validate_exact_witness :
  (∃ store, NewState (sample_artifact "u") = inr (Some store) ∧ Snapshot store = a_InitialState (sample_artifact "u")) ∧
  artifact_Validate (sample_artifact "b") = Some (DuplicateLogicalID "b").
Proof. split; [|reflexivity]. apply (artifact_Validate_exact (sample_artifact "u")). reflexivity. Defined.
End witnesses.
