(* ===== verification/Generator.v ===== *)
(** * internal/workload/synthetic/generator.go: synthetic workloads

    The generator, with its four random streams.  [math/rand] is a class with
    its documented contract: the ranges of the draws, and a panic for an empty
    range.  Sampling distinct keys repeats draws until enough are new; those
    loops take fuel, [patience]. *)

From Stdlib Require Import ZArith Lia String.
From S2P Require Import Prelude Float64 Format Encoding Model State Plan Runtime Workload.
Local Open Scope Z_scope.

(** ** The libraries *)

Class Rand := {
  rng : Type;
  rand_New : Z → rng;
  rand_Intn : rng → Z → rng * Z;
  rand_Int63n : rng → Z → rng * Z;
  rand_Float64 : rng → rng * float64;
}.

Class RandLaws (R : Rand) := {
  Intn_range r n : 0 < n → 0 <= (rand_Intn r n).2 < n;
  Int63n_range r n : 0 < n → 0 <= (rand_Int63n r n).2 < n;
}.

(** [math.Pow] *)
Class MathPow := Pow : float64 → float64 → float64.

Section draws.
Context {R : Rand}.
Definition Intn (r : rng) (n : Z) : outcome (rng * Z) := if n <=? 0 then Panics else Returns (rand_Intn r n).
Definition Int63n (r : rng) (n : Z) : outcome (rng * Z) := if n <=? 0 then Panics else Returns (rand_Int63n r n).
End draws.

(** ** Configurations *)

Definition GeneratorName : string := "synthetic".
Definition GeneratorVersion : string := "synthetic-v4".
Definition TemplateRMW : string := "rmw".
Definition TemplateReadWrite : string := "read_write".
Definition TemplateBranch : string := "state_dependent_branch".
Definition TemplateSelective : string := "selective_read_set".
Definition TemplateStagedFanIn : string := "staged_fan_in".
Definition TemplateFanInFanOut : string := "fan_in_fan_out".

Record AccessConfig := MkAccessConfig { ac_Kind : string; HotKeys : Z; HotProbability : float64; Theta : float64 }.
Record ComputeConfig := MkComputeConfig { cc_MinUnits : Z; cc_MaxUnits : Z; PrefixFraction : float64 }.

Record TransactionConfig := MkTransactionConfig {
  tc_Weight : float64;
  tc_Template : string;
  ReadKeys : Z;
  UpdateKeys : Z;
  CandidateKeys : Z;
  FanIn : Z;
  tc_Access : AccessConfig;
  tc_Compute : ComputeConfig;
}.

Record Config := MkConfig {
  c_Seed : Z;
  InitialKeys : Z;
  KeySpace : Z;
  BlockCount : Z;
  TransactionsPerBlock : Z;
  FailureEvery : Z;
  Mix : list TransactionConfig;
}.

(** [tx.Access == (AccessConfig{})] *)
Definition zero_access (a : AccessConfig) : bool :=
  (ac_Kind a =? "")%string && (HotKeys a =? 0) && feq (HotProbability a) f0 && feq (Theta a) f0.

(** The package's own test of a probability. *)
Definition synthetic_probability (v : float64) : bool := negb (IsNaN v) && fle f0 v && fle v f1.

(** ** [validateConfig] *)

Definition is_linear (template : string) : bool := (template =? TemplateRMW)%string || (template =? TemplateReadWrite)%string.
Definition is_selector (template : string) : bool := (template =? TemplateBranch)%string || (template =? TemplateSelective)%string.
Definition is_fan_in (template : string) : bool := (template =? TemplateStagedFanIn)%string || (template =? TemplateFanInFanOut)%string.

(** The access distribution; the error, or how many keys it can reach. *)
Definition check_access (c : Config) (a : AccessConfig) : string + Z :=
  if (ac_Kind a =? "")%string || (ac_Kind a =? "uniform")%string then
    if negb (HotKeys a =? 0) || negb (feq (HotProbability a) f0) || negb (feq (Theta a) f0)
    then inl "uniform access does not use hotspot or Zipf parameters"%string else inr (KeySpace c)
  else if (ac_Kind a =? "hotspot")%string then
    if (HotKeys a <=? 0) || (KeySpace c <=? HotKeys a) || negb (synthetic_probability (HotProbability a)) || negb (feq (Theta a) f0)
    then inl "invalid hotspot parameters"%string
    else
      let support := if feq (HotProbability a) f1 then HotKeys a else KeySpace c in
      inr (if feq (HotProbability a) f0 then KeySpace c - HotKeys a else support)
  else if (ac_Kind a =? "zipf")%string then
    if negb (synthetic_probability (Theta a)) || negb (HotKeys a =? 0) || negb (feq (HotProbability a) f0)
    then inl "finite Zipf requires theta in [0,1]"%string else inr (KeySpace c)
  else inl "unknown access distribution"%string.

Definition check_template (c : Config) (tx : TransactionConfig) (support : Z) : option string :=
  let template := tc_Template tx in
  if is_linear template then
    if (ReadKeys tx <? 1) || (support <? ReadKeys tx) || (support <? UpdateKeys tx)
    then Some "read/write key counts exceed the sampling support"%string
    else if (template =? TemplateRMW)%string && (ReadKeys tx <? UpdateKeys tx)
    then Some "rmw updates must be a subset of reads"%string
    else if negb (CandidateKeys tx =? 0) || negb (FanIn tx =? 0)
    then Some "linear templates do not use candidate_keys or fan_in"%string else None
  else if is_selector template then
    if InitialKeys c =? KeySpace c then Some "selector templates require initial_keys > key_space"%string
    else if negb (ReadKeys tx =? 0) || negb (UpdateKeys tx =? 0) || negb (FanIn tx =? 0)
    then Some "selector templates have one data read and one write"%string
    else if (template =? TemplateBranch)%string && negb (CandidateKeys tx =? 0)
    then Some "state_dependent_branch has two sampled candidates"%string
    else if (template =? TemplateSelective)%string &&
      ((CandidateKeys tx <? 2) || (KeySpace c <? CandidateKeys tx) || negb (zero_access (tc_Access tx)))
    then Some "selective_read_set requires 2..key_space fixed candidates and no access distribution"%string else None
  else if is_fan_in template then
    if negb (length (Mix c) =? 1)%nat || (FanIn tx <? 2) || (TransactionsPerBlock c <=? FanIn tx) ||
       (KeySpace c / TransactionsPerBlock c <? BlockCount c)
    then Some "fan-in diagnostics require a single template, 2 <= fan_in < block size and one key per transaction"%string
    else if negb (ReadKeys tx =? 0) || negb (UpdateKeys tx =? 0) || negb (CandidateKeys tx =? 0) || negb (zero_access (tc_Access tx))
    then Some "fan-in diagnostics assign their own read/write sets"%string else None
  else Some "unknown transaction template"%string.

Definition check_transaction (c : Config) (tx : TransactionConfig) : option string :=
  let w := tc_Weight tx in
  let compute := tc_Compute tx in
  if fle w f0 || IsNaN w || IsInf w then Some "weights must be positive and finite"%string
  else if (cc_MaxUnits compute <? cc_MinUnits compute) || (2 ^ 53 <? cc_MaxUnits compute) ||
          negb (synthetic_probability (PrefixFraction compute))
  then Some "invalid compute range or prefix_fraction"%string
  else match check_access c (tc_Access tx) with
  | inl e => Some e
  | inr support =>
      if (ReadKeys tx <? 0) || (UpdateKeys tx <? 0) || (CandidateKeys tx <? 0) || (FanIn tx <? 0)
      then Some "negative key count"%string else check_template c tx support
  end.

Fixpoint check_mix (c : Config) (totalWeight : float64) (mix : list TransactionConfig) : string + float64 :=
  match mix with
  | [] => inr totalWeight
  | tx :: mix =>
      match check_transaction c tx with
      | Some e => inl e
      | None => check_mix c (fadd totalWeight (tc_Weight tx)) mix
      end
  end.

(** [None]: the configuration is accepted. *)
Definition validateConfig (c : Config) : option string :=
  if (InitialKeys c <=? 0) || (KeySpace c <=? 0) || (InitialKeys c <? KeySpace c)
  then Some "require initial_keys >= key_space > 0"%string
  else if (BlockCount c <=? 0) || (TransactionsPerBlock c <=? 0) || (FailureEvery c <? 0)
  then Some "positive block/transaction counts and nonnegative failure_every are required"%string
  else if (length (Mix c) =? 0)%nat then Some "mix must contain a transaction template"%string
  else match check_mix c f0 (Mix c) with
  | inl e => Some e
  | inr totalWeight => if IsInf totalWeight then Some "sum of weights overflows"%string else None
  end.

(** ** Sampling keys *)

Record keySampler := MkKeySampler { ks_size : Z; ks_access : AccessConfig; ks_cdf : list float64 }.

Section sampling.
Context {R : Rand} {P : MathPow}.

(** The running sums of [rank^(-theta)]. *)
Fixpoint zipf_sums (theta : float64) (i : Z) (sum : float64) (n : nat) : list float64 :=
  match n with
  | O => []
  | S n =>
      let sum := fadd sum (Pow (float_of (i + 1)) (SFopp theta)) in
      sum :: zipf_sums theta (i + 1) sum n
  end.

Definition newKeySampler (size : Z) (access : AccessConfig) : keySampler :=
  MkKeySampler size access
    (if (ac_Kind access =? "zipf")%string then zipf_sums (Theta access) 0 f0 (Z.to_nat size) else []).

(** [sort.Search]: the loop of the binary search, over at most [fuel] halvings. *)
Fixpoint search_loop (fuel : nat) (p : Z → bool) (i j : Z) : Z :=
  match fuel with
  | O => i
  | S fuel =>
      if i <? j then
        let h := (i + j) / 2 in
        if p h then search_loop fuel p i h else search_loop fuel p (h + 1) j
      else i
  end.
Definition Search (n : Z) (p : Z → bool) : Z := search_loop (Z.to_nat n) p 0 n.

Definition sample_key (s : keySampler) (r : rng) : outcome (rng * Z) :=
  let a := ks_access s in
  if (ac_Kind a =? "hotspot")%string then
    let '(r, u) := rand_Float64 r in
    if flt u (HotProbability a) then Intn r (HotKeys a)
    else '(r, k) ← Intn r (ks_size s - HotKeys a); Returns (r, HotKeys a + k)
  else if (ac_Kind a =? "zipf")%string then
    let '(r, u) := rand_Float64 r in
    last ← deref (last (ks_cdf s));
    let u := fmul u last in
    Returns (r, Search (Z.of_nat (length (ks_cdf s)))
                  (λ i, match at_index (ks_cdf s) i with Some v => fle u v | None => false end))
  else Intn r (ks_size s).

(** The inner loop of the hotspot case: draws from [start, start + size) until
    the key is new. *)
Fixpoint draw_unseen (patience : nat) (r : rng) (start size : Z) (seen : gset Z) : outcome (rng * Z) :=
  match patience with
  | O => Waits
  | S patience =>
      '(r, k) ← Intn r size;
      if bool_decide (start + k ∈ seen) then draw_unseen patience r start size seen else Returns (r, start + k)
  end.

(** The next candidate, and how many hot keys have been taken. *)
Definition draw_key (patience : nat) (s : keySampler) (r : rng) (taken : Z) (seen : gset Z) (hotTaken : Z) :
    outcome (rng * Z * Z) :=
  let a := ks_access s in
  if (ac_Kind a =? "hotspot")%string then
    let hot := HotKeys a in
    let cold := ks_size s - hot in
    let h := fdiv (fmul (HotProbability a) (float_of (hot - hotTaken))) (float_of hot) in
    let c := fdiv (fmul (fsub f1 (HotProbability a)) (float_of (cold - (taken - hotTaken)))) (float_of cold) in
    let '(r, u) := rand_Float64 r in
    if flt (fmul u (fadd h c)) h
    then '(r, k) ← draw_unseen patience r 0 hot seen; Returns (r, k, hotTaken + 1)
    else '(r, k) ← draw_unseen patience r hot cold seen; Returns (r, k, hotTaken)
  else '(r, k) ← sample_key s r; Returns (r, k, hotTaken).

Fixpoint keys_loop (rounds patience : nat) (s : keySampler) (count : Z) (r : rng) (keys : list Z) (seen : gset Z)
    (hotTaken : Z) : outcome (rng * list Z) :=
  match rounds with
  | O => Waits
  | S rounds =>
      if Z.of_nat (length keys) <? count then
        '(r, k, hotTaken) ← draw_key patience s r (Z.of_nat (length keys)) seen hotTaken;
        if bool_decide (k ∈ seen) then keys_loop rounds patience s count r keys seen hotTaken
        else keys_loop rounds patience s count r (keys ++ [k]) ({[k]} ∪ seen) hotTaken
      else Returns (r, keys)
  end.

Definition sample_keys (patience : nat) (s : keySampler) (r : rng) (count : Z) : outcome (rng * list Z) :=
  if count <? 0 then Panics else keys_loop patience patience s count r [] ∅ 0.
End sampling.

(** ** Programs *)

Definition stateKey (i : Z) : Bytes := bytes_of "key-" ++ padded 8 i.
Definition register_name (i : Z) : string := string_of (bytes_of "r" ++ padded 1 i).

Definition zeroOperand : Operand := MkOperand "" 0 "".
Definition zeroExpression : Expression := MkExpression zeroOperand 0.
Definition zeroCondition : Condition := MkCondition "" "" zeroOperand zeroOperand.

Definition compute_instruction (units : Z) : Instruction :=
  MkInstruction "" OpCompute [] "" zeroExpression zeroCondition 0 units "".
Definition read_instruction (key : Bytes) (register : string) : Instruction :=
  MkInstruction "" OpRead key register zeroExpression zeroCondition 0 0 "".
Definition write_instruction (key : Bytes) (e : Expression) : Instruction :=
  MkInstruction "" OpWrite key "" e zeroCondition 0 0 "".
Definition jump_instruction (c : Condition) : Instruction :=
  MkInstruction "" OpJumpIf [] "" zeroExpression c 0 0 "".
Definition always : Condition := MkCondition ConditionAlways "" zeroOperand zeroOperand.
Definition fail_instruction : Instruction :=
  MkInstruction "" OpFailIf [] "" zeroExpression always 0 0 "synthetic_failure".
Definition return_instruction (e : Expression) : Instruction :=
  MkInstruction "" OpReturn [] "" e zeroCondition 0 0 "".

Definition set_Target (i : Instruction) (target : Z) : Instruction :=
  MkInstruction (in_ID i) (in_Op i) (in_Key i) (in_Register i) (in_Expression i) (in_Condition i) target
    (in_ComputeUnits i) (in_ErrorCode i).
Definition set_ID (i : Instruction) (id : string) : Instruction :=
  MkInstruction id (in_Op i) (in_Key i) (in_Register i) (in_Expression i) (in_Condition i) (in_Target i)
    (in_ComputeUnits i) (in_ErrorCode i).

Definition linearProgram (reads writes : list Z) (delta prefix suffix : Z) : outcome (list Instruction) :=
  let p := compute_instruction prefix ::
    imap (λ i key, read_instruction (stateKey key) (register_name (Z.of_nat i))) reads ++ [compute_instruction suffix] in
  (** [i % len(reads)] *)
  if (length reads =? 0)%nat && negb (length writes =? 0)%nat then Panics
  else Returns (p ++ imap (λ i key, write_instruction (stateKey key)
         (MkExpression (Register (register_name (Z.of_nat i mod Z.of_nat (length reads)))) delta)) writes).

Abbreviation len p := (Z.of_nat (length p)).

(** [p[i].Target = target] *)
Definition patch (p : list Instruction) (i target : Z) : outcome (list Instruction) :=
  x ← deref (at_index p i); Returns (<[Z.to_nat i := set_Target x target]> p).

Definition threshold (i n : Z) : Z := i64 (((i + 1) * 10000 + n - 1) / n).

(** The arms: each is entered through its jump, reads its candidate and leaves. *)
Fixpoint branch_arms (fallback : Z) (last : Z) (i : Z) (candidates : list Z) (p : list Instruction) (exits : list Z) :
    outcome (list Instruction * list Z) :=
  match candidates with
  | [] => Returns (p, exits)
  | key :: candidates =>
      p ← patch p (if i <? last then 2 + i else fallback) (len p);
      let p := p ++ [read_instruction (stateKey key) "r0"] in
      branch_arms fallback last (i + 1) candidates (p ++ [jump_instruction always]) (exits ++ [len p])
  end.

Definition branchProgram (selector : Z) (candidates : list Z) (write delta prefix suffix : Z) : outcome (list Instruction) :=
  let n := Z.of_nat (length candidates) in
  let p := [read_instruction (stateKey selector) "selector"; compute_instruction prefix] ++
    ((λ i, jump_instruction (MkCondition ConditionLess "" (Register "selector") (Literal (threshold i n)))) <$> seqZ 0 (n - 1)) in
  let fallback := len p in
  let p := p ++ [jump_instruction always] in
  '(p, exits) ← branch_arms fallback (n - 1) 0 candidates p [];
  p ← foldM (λ p exit, patch p exit (len p)) p exits;
  Returns (p ++ [compute_instruction suffix; write_instruction (stateKey write) (MkExpression (Register "r0") delta)]).

(** ** [Generate] *)

Class ConfigJson := Marshal_config : Config → option Bytes.

Inductive generate_error :=
| InvalidConfig (message : string) | MarshalConfig | InvalidGenerated (e : artifact_error).

Definition zeroArtifact : Artifact := MkArtifact "" (MkGeneratorDescriptor "" "" 0 []) [] [] [] [].

Definition blockID (b : Z) : string := string_of (bytes_of "block-" ++ padded 6 b).
Definition txID (b t : Z) : string := string_of (bytes_of "tx-" ++ padded 6 b ++ bytes_of "-" ++ padded 6 t).
Definition opID (b t i : Z) : string :=
  string_of (bytes_of "op-" ++ padded 6 b ++ bytes_of "-" ++ padded 6 t ++ bytes_of "-" ++ padded 3 i).

Section generate.
Context {R : Rand} {P : MathPow} `{J : Json} {CJ : ConfigJson}.

(** The streams of keys, costs and templates, and the global transaction number. *)
Record streams := MkStreams { keyRNG : rng; costRNG : rng; mixRNG : rng; global : Z }.
Definition set_keyRNG (s : streams) (r : rng) : streams := MkStreams r (costRNG s) (mixRNG s) (global s).

(** The template a weighted choice falls on; the last one if rounding lets the
    choice run past all of them. *)
Fixpoint select (mix : list TransactionConfig) (i : Z) (choice : float64) (selected : Z) : Z :=
  match mix with
  | [] => selected
  | tx :: mix =>
      let choice := fsub choice (tc_Weight tx) in
      if flt choice f0 then i else select mix (i + 1) choice selected
  end.

(** [case TemplateRMW, TemplateReadWrite] *)
Definition linear_case (patience : nat) (tx : TransactionConfig) (s : keySampler) (r : rng) (delta prefix suffix : Z) :
    outcome (rng * list Instruction) :=
  '(r, reads) ← sample_keys patience s r (ReadKeys tx);
  '(r, writes) ← (if (tc_Template tx =? TemplateRMW)%string then
      (** [reads[:tx.UpdateKeys]], within the capacity *)
      if (0 <=? UpdateKeys tx) && (UpdateKeys tx <=? ReadKeys tx) then Returns (r, take (Z.to_nat (UpdateKeys tx)) reads) else Panics
    else sample_keys patience s r (UpdateKeys tx));
  p ← linearProgram reads writes delta prefix suffix;
  Returns (r, p).

(** [case TemplateBranch, TemplateSelective] *)
Definition selector_case (c : Config) (initial : list Z) (tx : TransactionConfig) (s : keySampler) (r : rng)
    (delta prefix suffix : Z) : outcome (rng * list Instruction) :=
  '(r, k) ← Intn r (InitialKeys c - KeySpace c);
  let selector := KeySpace c + k in
  '(r, candidates, write) ← (if (tc_Template tx =? TemplateBranch)%string then
      '(r, k1) ← sample_key s r;
      '(r, k2) ← sample_key s r;
      '(r, write) ← sample_key s r;
      Returns (r, [k1; k2], write)
    else
      let candidates := seqZ 0 (CandidateKeys tx) in
      v ← deref (at_index initial selector);
      write ← deref (at_index candidates (v * Z.of_nat (length candidates) / 10000));
      Returns (r, candidates, write));
  p ← branchProgram selector candidates write delta prefix suffix;
  Returns (r, p).

(** [case TemplateStagedFanIn, TemplateFanInFanOut] *)
Definition fan_in_reads (tx : TransactionConfig) (global t : Z) : outcome (list Z) :=
  if (tc_Template tx =? TemplateFanInFanOut)%string && (FanIn tx <=? t) then Returns (seqZ (global - t) (FanIn tx))
  else if (tc_Template tx =? TemplateStagedFanIn)%string then
    if FanIn tx + 1 =? 0 then Panics
    else
      let role := Z.rem t (FanIn tx + 1) in
      if role =? FanIn tx then Returns (seqZ (global - FanIn tx) (FanIn tx))
      else if FanIn tx <? t then Returns [global - role - 1] else Returns [global]
  else Returns [global].

Definition fan_in_case (tx : TransactionConfig) (r : rng) (global t delta prefix suffix : Z) :
    outcome (rng * list Instruction) :=
  reads ← fan_in_reads tx global t;
  p ← linearProgram reads [global] delta prefix suffix;
  Returns (r, p).

(** The switch on the template; any other leaves the program empty. *)
Definition template_program (patience : nat) (c : Config) (initial : list Z) (tx : TransactionConfig) (s : keySampler)
    (r : rng) (global t delta prefix suffix : Z) : outcome (rng * list Instruction) :=
  if is_linear (tc_Template tx) then linear_case patience tx s r delta prefix suffix
  else if is_selector (tc_Template tx) then selector_case c initial tx s r delta prefix suffix
  else if is_fan_in (tc_Template tx) then fan_in_case tx r global t delta prefix suffix
  else Returns (r, []).

(** What every program ends with, its names and its budget. *)
Definition finish_program (c : Config) (b t global : Z) (p : list Instruction) : Transaction :=
  let p := if (0 <? FailureEvery c) && (Z.rem (global + 1) (FailureEvery c) =? 0) then p ++ [fail_instruction] else p in
  let p := p ++ [return_instruction (MkExpression (Register "r0") 0)] in
  let p := imap (λ i x, set_ID x (opID b t (Z.of_nat i))) p in
  let budget := foldl (λ budget x, u64 (budget + u64 (1 + in_ComputeUnits x))) 0 p in
  MkTransaction (txID b t) budget (MkProgram p).

Definition generate_transaction (patience : nat) (c : Config) (initial : list Z) (samplers : list keySampler)
    (weight : float64) (b t : Z) (s : streams) : outcome (streams * Transaction * LogicalArrival) :=
  let '(mix, u) := rand_Float64 (mixRNG s) in
  let selected := select (Mix c) 0 (fmul u weight) (Z.of_nat (length (Mix c)) - 1) in
  tx ← deref (at_index (Mix c) selected);
  sampler ← deref (at_index samplers selected);
  let compute := tc_Compute tx in
  '(cost, extra) ← Int63n (costRNG s) (i64 (u64 (cc_MaxUnits compute - cc_MinUnits compute + 1)));
  let units := u64 (cc_MinUnits compute + u64 extra) in
  prefix ← deref (to_uint64 (fmul (float_of units) (PrefixFraction compute)));
  let suffix := u64 (units - prefix) in
  '(r, d) ← Intn (keyRNG s) 11;
  let delta := d - 5 in
  '(r, p) ← template_program patience c initial tx sampler r (global s) t delta prefix suffix;
  let transaction := finish_program c b t (global s) p in
  Returns (MkStreams r cost mix (global s + 1), transaction,
           MkLogicalArrival (u64 (global s)) (u64 (global s)) (blockID b) (tx_ID transaction)).

Definition generate_block (patience : nat) (c : Config) (initial : list Z) (samplers : list keySampler)
    (weight : float64) (acc : streams * list Block * list LogicalArrival) (b : Z) :
    outcome (streams * list Block * list LogicalArrival) :=
  let '(s, blocks, arrivals) := acc in
  '(s, txs, arrivals) ← foldM (λ acc t,
      let '(s, txs, arrivals) := acc in
      '(s, tx, arrival) ← generate_transaction patience c initial samplers weight b t s;
      Returns (s, txs ++ [tx], arrivals ++ [arrival]))
    (s, [], arrivals) (seqZ 0 (TransactionsPerBlock c));
  Returns (s, blocks ++ [MkBlock (blockID b) (u64 b) txs], arrivals).

(** The initial values, drawn one after the other. *)
Definition initial_values (c : Config) (r : rng) : outcome (rng * list Z) :=
  foldM (λ acc _, let '(r, initial) := acc in '(r, v) ← Intn r 10000; Returns (r, initial ++ [v]))
    (r, []) (seqZ 0 (InitialKeys c)).

Definition Generate (patience : nat) (c : Config) : outcome (Artifact * option generate_error) :=
  match validateConfig c with
  | Some e => Returns (zeroArtifact, Some (InvalidConfig e))
  | None =>
      match Marshal_config c with
      | None => Returns (zeroArtifact, Some MarshalConfig)
      | Some descriptor =>
          '(_, initial) ← initial_values c (rand_New (c_Seed c));
          let entries := imap (λ i v, MkStateEntry (stateKey (Z.of_nat i)) (EncodeInt64 v)) initial in
          let samplers := (λ tx, newKeySampler (KeySpace c) (tc_Access tx)) <$> Mix c in
          let weight := foldl (λ w tx, fadd w (tc_Weight tx)) f0 (Mix c) in
          let s := MkStreams (rand_New (i64 (c_Seed c + 1))) (rand_New (i64 (c_Seed c + 2))) (rand_New (i64 (c_Seed c + 3))) 0 in
          '(_, blocks, arrivals) ← foldM (generate_block patience c initial samplers weight) (s, [], []) (seqZ 0 (BlockCount c));
          let artifact := MkArtifact ArtifactSchemaVersion
            (MkGeneratorDescriptor GeneratorName GeneratorVersion (c_Seed c) descriptor) entries blocks arrivals [] in
          Returns (artifact, InvalidGenerated <$> artifact_Validate artifact)
      end
  end.
End generate.
