(* ===== verification/GeneratorFacts.v ===== *)
(** * Facts of the workload generator

    A call that may be out of patience is described by [settled]: it does not
    panic, it satisfies a predicate when it returns, and it is out of patience
    only where that is allowed.  Proved with and without the allowance, the
    same lemmas give safety for every configuration and termination for
    uniform access. *)

From Stdlib Require Import ZArith Lia String.
From Stdlib Require Import Strings.Byte.
From S2P Require Import Prelude Float64 Format Encoding Model State Plan Runtime Workload Generator.
Local Open Scope Z_scope.

Definition settled (w : Prop) {A} (o : outcome A) (Q : A → Prop) : Prop :=
  match o with Returns a => Q a | Panics => False | Waits => w end.

Lemma settled_bind w {A B} (o : outcome A) (k : A → outcome B) Q T :
  settled w o Q → (∀ a, Q a → settled w (k a) T) → settled w (o ≫= k) T.
Proof. destruct o; cbn; auto. Qed.

Lemma settled_mono w {A} (o : outcome A) (Q T : A → Prop) : settled w o Q → (∀ a, Q a → T a) → settled w o T.
Proof. destruct o; cbn; auto. Qed.

(** A loop: [I] holds of the state after each prefix of the list. *)
Lemma settled_fold w {A S} (f : S → A → outcome S) (I : list A → S → Prop) l s :
  I [] s → (∀ pre x s, pre ++ [x] `prefix_of` l → I pre s → settled w (f s x) (I (pre ++ [x]))) →
  settled w (foldM f s l) (I l).
Proof.
  intros H0 Hf. enough (∀ rest pre s, pre ++ rest = l → I pre s → settled w (foldM f s rest) (I l)) as H by (by apply (H l [])).
  clear s H0. induction rest as [|x rest IH]; intros pre s E Hi; cbn [foldM].
  { by rewrite app_nil_r in E; subst. }
  eapply settled_bind; [apply Hf; [|done]|].
  - exists rest. by rewrite <- E, <- app_assoc.
  - intros s' Hs'. apply (IH (pre ++ [x])); [by rewrite <- app_assoc|done].
Qed.

(** ** Draws *)

Section draws.
Context {R : Rand} {RL : RandLaws R}.

Lemma Intn_settled w r n : 0 < n → settled w (Intn r n) (λ x, 0 <= x.2 < n).
Proof. intros Hn. unfold Intn. destruct (Z.leb_spec n 0); [lia|]. by apply Intn_range. Qed.

Lemma Int63n_settled w r n : 0 < n → settled w (Int63n r n) (λ x, 0 <= x.2 < n).
Proof. intros Hn. unfold Int63n. destruct (Z.leb_spec n 0); [lia|]. by apply Int63n_range. Qed.

(** The stream after [j] draws below [n]. *)
Definition after (j : nat) (r : rng) (n : Z) : rng := Nat.iter j (λ r, (rand_Intn r n).1) r.

(** Every value below [n], for [n] up to [limit], appears within [bound] draws. *)
Definition draws_within (limit : Z) (bound : nat) : Prop :=
  ∀ r n v, 0 <= v < n → n <= limit → ∃ j, (j < bound)%nat ∧ (rand_Intn (after j r n) n).2 = v.
End draws.

(** ** Sampling *)

Section sampling.
Context {R : Rand} {RL : RandLaws R} {P : MathPow}.

Definition hotspot (a : AccessConfig) : Prop := ac_Kind a = "hotspot"%string.
Definition zipf (a : AccessConfig) : Prop := ac_Kind a = "zipf"%string.

(** A sampler as [newKeySampler] makes them from an accepted configuration. *)
Record sampler_ok (s : keySampler) : Prop := {
  so_size : 0 < ks_size s;
  so_hot : hotspot (ks_access s) → 0 < HotKeys (ks_access s) < ks_size s;
  so_cdf : zipf (ks_access s) → ks_cdf s ≠ [];
}.

Lemma sample_key_settled w s r : sampler_ok s →
  settled w (sample_key s r) (λ x, ¬ zipf (ks_access s) → 0 <= x.2 < ks_size s).
Proof.
  intros Hs. unfold sample_key. destruct (String.eqb_spec (ac_Kind (ks_access s)) "hotspot") as [Eh|Eh].
  { destruct (so_hot s Hs Eh). destruct (rand_Float64 r) as [r' u]. destruct (flt _ _).
    - eapply settled_mono; [apply Intn_settled; lia|]. cbn. lia.
    - eapply settled_bind; [apply Intn_settled; lia|]. intros [r2 k] Hk. cbn in *. lia. }
  destruct (String.eqb_spec (ac_Kind (ks_access s)) "zipf") as [Ez|Ez].
  { destruct (rand_Float64 r) as [r' u]. destruct (ks_cdf s) as [|v vs] eqn:Ec using rev_ind; [by destruct (so_cdf s Hs Ez)|].
    rewrite last_snoc. cbn. by intros []. }
  eapply settled_mono; [apply Intn_settled, Hs|]. cbn. lia.
Qed.

Lemma draw_unseen_settled patience r start size seen : 0 < size →
  settled True (draw_unseen patience r start size seen) (λ x, x.2 ∉ seen ∧ start <= x.2 < start + size).
Proof.
  intros Hs. revert r. induction patience as [|patience IH]; intros r; cbn [draw_unseen]; [exact I|].
  eapply settled_bind; [by apply Intn_settled|]. intros [r' k] Hk. case_bool_decide; [apply IH|]. cbn in *. split; [done|lia].
Qed.

Lemma draw_key_settled patience s r taken seen hotTaken : sampler_ok s →
  settled True (draw_key patience s r taken seen hotTaken) (λ x, ¬ zipf (ks_access s) → 0 <= x.1.2 < ks_size s).
Proof.
  intros Hs. unfold draw_key. destruct (String.eqb_spec (ac_Kind (ks_access s)) "hotspot") as [Eh|Eh].
  - destruct (so_hot s Hs Eh). destruct (rand_Float64 r) as [r' u]. destruct (flt _ _);
      (eapply settled_bind; [apply draw_unseen_settled; lia|]; intros [r2 k] [_ Hk]; cbn in *; lia).
  - eapply settled_bind; [by apply sample_key_settled|]. intros [r2 k] Hk. exact Hk.
Qed.

(** What [keys] returns. *)
Definition sampled (s : keySampler) (count : Z) (l : list Z) : Prop :=
  Z.of_nat (length l) = count ∧ NoDup l ∧ (¬ zipf (ks_access s) → ∀ k, k ∈ l → 0 <= k < ks_size s).

(** The state of the loop. *)
Record sampling_ok (s : keySampler) (count : Z) (keys : list Z) (seen : gset Z) : Prop := {
  sa_length : Z.of_nat (length keys) <= count;
  sa_nodup : NoDup keys;
  sa_seen : seen = list_to_set keys;
  sa_range : ¬ zipf (ks_access s) → ∀ k, k ∈ keys → 0 <= k < ks_size s;
}.

Lemma sampling_snoc s count keys seen k :
  sampling_ok s count keys seen → Z.of_nat (length keys) < count → k ∉ seen →
  (¬ zipf (ks_access s) → 0 <= k < ks_size s) → sampling_ok s count (keys ++ [k]) ({[k]} ∪ seen).
Proof.
  intros [H1 H2 -> H4] Hl Hk Hr. split.
  - rewrite length_app. cbn. lia.
  - apply NoDup_app. split; [done|]. split; [|apply NoDup_singleton]. intros x Hx ->%list_elem_of_singleton.
    by apply Hk, elem_of_list_to_set.
  - rewrite list_to_set_app_L. cbn. by rewrite (right_id_L ∅ (∪)), (comm_L (∪)).
  - intros Hz x [Hx| ->%list_elem_of_singleton]%elem_of_app; [by apply H4|by apply Hr].
Qed.

Lemma keys_loop_settled rounds patience s count r keys seen hotTaken :
  sampler_ok s → sampling_ok s count keys seen →
  settled True (keys_loop rounds patience s count r keys seen hotTaken) (λ x, sampled s count x.2).
Proof.
  intros Hs. revert r keys seen hotTaken. induction rounds as [|rounds IH]; intros r keys seen hotTaken Hk; cbn [keys_loop]; [exact I|].
  destruct (Z.ltb_spec (Z.of_nat (length keys)) count).
  - eapply settled_bind; [by apply draw_key_settled|]. intros [[r' k] hot] Hr. case_bool_decide; [by apply IH|].
    apply IH. by apply sampling_snoc.
  - destruct Hk. cbn. split; [lia|]. by split.
Qed.

Lemma sample_keys_settled patience s r count : sampler_ok s → 0 <= count →
  settled True (sample_keys patience s r count) (λ x, sampled s count x.2).
Proof.
  intros Hs Hc. unfold sample_keys. destruct (Z.ltb_spec count 0); [lia|]. apply keys_loop_settled; [done|].
  split; [done|constructor|done|]. by intros _ k ?%elem_of_nil.
Qed.
End sampling.

(** *** Uniform access terminates *)

Section termination.
Context {R : Rand} {RL : RandLaws R} {P : MathPow}.
Context (limit : Z) (bound : nat) (Hdraws : draws_within limit bound).

Definition uniform (a : AccessConfig) : Prop := ac_Kind a = ""%string ∨ ac_Kind a = "uniform"%string.

Lemma uniform_draw patience s r taken seen hotTaken : uniform (ks_access s) → 0 < ks_size s →
  draw_key patience s r taken seen hotTaken =
    Returns ((rand_Intn r (ks_size s)).1, (rand_Intn r (ks_size s)).2, hotTaken).
Proof.
  intros Hu Hs. unfold draw_key, sample_key, Intn.
  assert (ac_Kind (ks_access s) =? "hotspot" = false)%string as -> by (by destruct Hu as [-> | ->]).
  assert (ac_Kind (ks_access s) =? "zipf" = false)%string as -> by (by destruct Hu as [-> | ->]).
  destruct (Z.leb_spec (ks_size s) 0); [lia|]. cbn. by destruct (rand_Intn _ _).
Qed.

Lemma unseen_exists (keys : list Z) size : Z.of_nat (length keys) < size → ∃ v, 0 <= v < size ∧ v ∉ keys.
Proof.
  intros Hl. destruct (decide (Forall (λ v, v ∈ keys) (seqZ 0 size))) as [H|H].
  - exfalso. assert (seqZ 0 size ⊆+ keys) as Hsub.
    { apply NoDup_submseteq; [apply NoDup_seqZ|]. by apply Forall_forall. }
    apply submseteq_length in Hsub. rewrite length_seqZ in Hsub. lia.
  - apply not_Forall_Exists in H; [|apply _]. apply Exists_exists in H as (v & Hv & Hn). apply elem_of_seqZ in Hv.
    exists v. split; [lia|done].
Qed.

Lemma uniform_loop s count patience : sampler_ok s → uniform (ks_access s) → count <= ks_size s → ks_size s <= limit →
  ∀ missing rounds r keys seen hotTaken, sampling_ok s count keys seen → count - Z.of_nat (length keys) = Z.of_nat missing →
  (missing * bound < rounds)%nat →
  settled False (keys_loop rounds patience s count r keys seen hotTaken) (λ x, sampled s count x.2).
Proof.
  intros Hs Hu Hc Hl. induction missing as [|missing IH]; intros rounds r keys seen hotTaken Hk Hm Hr.
  { destruct rounds as [|rounds]; [lia|]. cbn [keys_loop]. destruct (Z.ltb_spec (Z.of_nat (length keys)) count); [lia|].
    destruct Hk. cbn. split; [lia|by split]. }
  destruct (unseen_exists keys (ks_size s)) as (v & Hv & Hn); [lia|].
  destruct (Hdraws r (ks_size s) v Hv Hl) as (j & Hj & Ej).
  assert (v ∉ seen) as Hvs by (rewrite (sa_seen _ _ _ _ Hk); by intros ?%elem_of_list_to_set).
  assert (j + missing * bound < Nat.pred rounds)%nat as Hrounds by (cbn in Hr; lia). clear Hr Hj.
  revert rounds r Ej Hrounds. induction j as [|j IHj]; intros rounds r Ej Hrounds; (destruct rounds as [|rounds]; [cbn in Hrounds; lia|]);
    cbn [keys_loop Nat.pred] in *; (destruct (Z.ltb_spec (Z.of_nat (length keys)) count) as [Hlt|]; [|lia]);
    rewrite uniform_draw by (try done; apply Hs); cbn [mbind outcome_bind].
  - change (after 0 r (ks_size s)) with r in Ej. rewrite Ej, bool_decide_eq_false_2 by done.
    apply IH; [|rewrite length_app; cbn; lia|cbn in Hrounds; lia]. by apply sampling_snoc.
  - case_bool_decide as Hin.
    + apply IHj; [|cbn; lia]. rewrite <- Ej. unfold after. by rewrite Nat.iter_succ_r.
    + apply IH; [|rewrite length_app; cbn; lia|lia]. apply sampling_snoc; [done..|]. intros _. apply Intn_range, Hs.
Qed.

Lemma sample_keys_uniform s r count patience : sampler_ok s → uniform (ks_access s) → 0 <= count <= ks_size s → ks_size s <= limit →
  (Z.to_nat (ks_size s) * bound < patience)%nat →
  settled False (sample_keys patience s r count) (λ x, sampled s count x.2).
Proof.
  intros Hs Hu Hc Hl Hp. unfold sample_keys. destruct (Z.ltb_spec count 0); [lia|].
  apply (uniform_loop s count patience Hs Hu (proj2 Hc) Hl (Z.to_nat count)); [|cbn; lia|].
  - split; [cbn; lia|constructor|done|]. by intros _ k ?%elem_of_nil.
  - assert (Z.to_nat count * bound <= Z.to_nat (ks_size s) * bound)%nat; [apply Nat.mul_le_mono_r; lia|lia].
Qed.
End termination.

(** ** Programs *)

Definition total_units (p : list Instruction) : Z := foldr (λ x n, in_ComputeUnits x + n) 0 p.

Lemma total_units_app p q : total_units (p ++ q) = total_units p + total_units q.
Proof. unfold total_units. induction p as [|x p IH]; [done|]. cbn in *. rewrite IH. lia. Qed.

(** An instruction that is valid once its target lies within the program. *)
Definition formed (x : Instruction) : Prop :=
  instruction_typed x ∧ ∀ n t, 0 <= t <= n → validate_instruction n (set_Target x t) = ""%string.

Lemma formed_target x target : formed x → formed (set_Target x target).
Proof. intros [[H1 H2 H3] Hv]. split; [by split|]. exact Hv. Qed.

Lemma formed_id x id : formed x → formed (set_ID x id).
Proof. intros [[H1 H2 H3] Hv]. split; [by split|]. exact Hv. Qed.

Lemma formed_valid x n : formed x → 0 <= n → (in_Op x = OpJumpIf → 0 <= in_Target x <= n) → validate_instruction n x = ""%string.
Proof.
  intros [_ Hv] Hn Ht. destruct (String.eqb_spec (in_Op x) OpJumpIf) as [E|E].
  - rewrite <- (Hv n (in_Target x)) by auto. by destruct x.
  - rewrite <- (Hv n 0) by lia. unfold validate_instruction. cbn. by rewrite (proj2 (String.eqb_neq _ _) E).
Qed.

(** A program under construction: every jump goes forward, within the program,
    but for those at the indices [pending]. *)
Record program (p : list Instruction) (pending : list Z) (units : Z) : Prop := {
  pr_formed : ∀ x, x ∈ p → formed x;
  pr_forward : ∀ i x, p !! i = Some x → in_Op x = OpJumpIf →
    Z.of_nat i ∈ pending ∨ Z.of_nat i < in_Target x <= Z.of_nat (length p);
  pr_units : total_units p = units;
}.

Lemma program_nil : program [] [] 0.
Proof. split; [by intros x ?%elem_of_nil|done|done]. Qed.

Lemma program_snoc p pending units x :
  program p pending units → formed x → in_Op x ≠ OpJumpIf → program (p ++ [x]) pending (units + in_ComputeUnits x).
Proof.
  intros [H1 H2 H3] Hf Hop. split.
  - intros y [Hy| ->%list_elem_of_singleton]%elem_of_app; [by apply H1|done].
  - intros i y Hi Hj. rewrite length_app. cbn. apply lookup_app_Some in Hi as [Hi|[Hle Hi]].
    + destruct (H2 i y Hi Hj); [by left|right; lia].
    + apply list_lookup_singleton_Some in Hi as [_ <-]. done.
  - rewrite total_units_app, H3. cbn. lia.
Qed.

(** A jump whose target is set later. *)
Lemma program_jump p pending units x :
  program p pending units → formed x → in_ComputeUnits x = 0 →
  program (p ++ [x]) (pending ++ [Z.of_nat (length p)]) units.
Proof.
  intros [H1 H2 H3] Hf Hu. split.
  - intros y [Hy| ->%list_elem_of_singleton]%elem_of_app; [by apply H1|done].
  - intros i y Hi Hj. rewrite length_app. cbn. apply lookup_app_Some in Hi as [Hi|[Hle Hi]].
    + destruct (H2 i y Hi Hj); [left; apply elem_of_app; by left|right; lia].
    + apply list_lookup_singleton_Some in Hi as [Hz _]. left. apply elem_of_app. right. apply list_elem_of_singleton. lia.
  - rewrite total_units_app, H3. cbn. lia.
Qed.

Lemma total_units_target p i x target : p !! i = Some x → total_units (<[i := set_Target x target]> p) = total_units p.
Proof.
  revert p. induction i as [|i IH]; intros [|y p]; cbn; try done; [by intros [= ->]|].
  intros Hl. f_equal. by apply IH.
Qed.

(** Setting the target of a pending jump to the end of the program. *)
Lemma program_patch p pending units i x :
  program p pending units → at_index p i = Some x →
  ∃ q, patch p i (Z.of_nat (length p)) = Returns q ∧ length q = length p ∧
    ∀ rest, (∀ j, j ∈ pending → j = i ∨ j ∈ rest) → program q rest units.
Proof.
  intros [H1 H2 H3] Hx. unfold patch. rewrite Hx. cbn [deref mbind outcome_bind]. eexists. split; [done|].
  pose proof (at_index_Some _ _ _ Hx) as Hi. apply at_index_lookup in Hx as Hl; [|lia].
  split; [apply length_insert|]. intros rest Hrest. split.
  - intros y (j & Hj)%list_elem_of_lookup. destruct (decide (j = Z.to_nat i)) as [->|Hne].
    + rewrite list_lookup_insert_eq in Hj by lia. injection Hj as <-. apply formed_target, H1. by eapply list_elem_of_lookup_2.
    + rewrite list_lookup_insert_ne in Hj by done. apply H1. by eapply list_elem_of_lookup_2.
  - intros j y Hj Hop. rewrite length_insert. destruct (decide (j = Z.to_nat i)) as [->|Hne].
    + rewrite list_lookup_insert_eq in Hj by lia. injection Hj as <-. right. cbn. lia.
    + rewrite list_lookup_insert_ne in Hj by done. destruct (H2 j y Hj Hop) as [Hin|?]; [|by right].
      destruct (Hrest _ Hin); [lia|by left].
  - rewrite <- H3. by apply total_units_target.
Qed.

(** The instructions the generator uses. *)
Lemma formed_compute units : u64_range units → formed (compute_instruction units).
Proof. intros Hu. split; [by split|done]. Qed.

Lemma formed_read key register : register ≠ ""%string → formed (read_instruction key register).
Proof.
  intros Hr. split; [by split|]. intros n t _. unfold validate_instruction. cbn. by rewrite (proj2 (String.eqb_neq _ _) Hr).
Qed.

Lemma formed_write key register delta : register ≠ ""%string → i64_range delta →
  formed (write_instruction key (MkExpression (Register register) delta)).
Proof.
  intros Hr Hd. split; [by split|]. intros n t _. unfold validate_instruction, validateOperand. cbn.
  by rewrite (proj2 (String.eqb_neq _ _) Hr).
Qed.

Lemma formed_jump c : validateCondition c = ""%string → formed (jump_instruction c).
Proof.
  intros Hc. split; [by split|]. intros n t Ht. unfold validate_instruction. cbn.
  rewrite (proj2 (Z.ltb_ge t 0)), (proj2 (Z.ltb_ge n t)) by lia. done.
Qed.

Lemma formed_fail : formed fail_instruction.
Proof. by split. Qed.

Lemma formed_return register delta : register ≠ ""%string → i64_range delta →
  formed (return_instruction (MkExpression (Register register) delta)).
Proof.
  intros Hr Hd. split; [by split|]. intros n t _. unfold validate_instruction, validateOperand. cbn.
  by rewrite (proj2 (String.eqb_neq _ _) Hr).
Qed.

Lemma register_name_nonempty i : register_name i ≠ ""%string.
Proof. done. Qed.

Lemma program_app p pending units q :
  program p pending units → (∀ x, x ∈ q → formed x ∧ in_Op x ≠ OpJumpIf) → program (p ++ q) pending (units + total_units q).
Proof.
  intros [H1 H2 H3] Hq. split.
  - intros y [Hy|Hy]%elem_of_app; [by apply H1|by apply Hq].
  - intros i y Hi Hj. rewrite length_app. apply lookup_app_Some in Hi as [Hi|[Hle Hi]].
    + destruct (H2 i y Hi Hj); [by left|right; lia].
    + apply list_elem_of_lookup_2, Hq in Hi as [_ Hi]. done.
  - by rewrite total_units_app, H3.
Qed.

Lemma total_units_zero p : (∀ x, x ∈ p → in_ComputeUnits x = 0) → total_units p = 0.
Proof.
  induction p as [|x p IH]; intros H; [done|]. change (in_ComputeUnits x + total_units p = 0).
  rewrite (H x), IH; [done| |by left]. intros y Hy. apply H. by right.
Qed.

Lemma imap_elem {A B} (f : nat → A → B) l x : x ∈ imap f l → ∃ i y, x = f i y.
Proof. intros (i & Hi)%list_elem_of_lookup. rewrite list_lookup_imap in Hi. destruct (l !! i) as [y|]; [|done]. exists i, y. by injection Hi. Qed.

(** The middle of every program: reads, a computation, writes. *)
Lemma linearProgram_settled w reads writes delta prefix suffix :
  (writes ≠ [] → reads ≠ []) → i64_range delta → u64_range prefix → u64_range suffix →
  settled w (linearProgram reads writes delta prefix suffix)
    (λ p, program p [] (prefix + suffix) ∧ length p = (2 + length reads + length writes)%nat).
Proof.
  intros Hne Hd Hp Hs. unfold linearProgram.
  destruct ((length reads =? 0)%nat && negb (length writes =? 0)%nat) eqn:E.
  { apply andb_true_iff in E as [E1%Nat.eqb_eq E2%negb_true_iff%Nat.eqb_neq]. apply length_zero_iff_nil in E1.
    apply Hne in E1; [done|]. by intros ->. }
  split; [|rewrite !length_app; cbn; rewrite length_app, !length_imap; cbn; lia].
  pose proof (program_app _ _ _ [compute_instruction prefix] program_nil) as H1. cbn [app] in H1.
  pose proof (λ Hx, program_app _ _ _ (imap (λ i key, read_instruction (stateKey key) (register_name (Z.of_nat i))) reads) (H1 Hx)) as H2.
  pose proof (λ Hx Hy, program_app _ _ _ [compute_instruction suffix] (H2 Hx Hy)) as H3.
  pose proof (λ Hx Hy Hz, program_app _ _ _ (imap (λ i key, write_instruction (stateKey key)
    (MkExpression (Register (register_name (Z.of_nat i mod Z.of_nat (length reads)))) delta)) writes) (H3 Hx Hy Hz)) as H4.
  rewrite <- !app_assoc in H4. cbn [app] in H4. rewrite !(total_units_zero (imap _ _)) in H4
    by (intros x (i & y & ->)%imap_elem; done).
  cbn [total_units foldr compute_instruction in_ComputeUnits] in H4. rewrite !Z.add_0_r, Z.add_0_l in H4.
  cbn [app]. rewrite <- app_assoc. cbn [app]. apply H4.
  - intros x ->%list_elem_of_singleton. split; [by apply formed_compute|done].
  - intros x (i & y & ->)%imap_elem. split; [apply formed_read, register_name_nonempty|done].
  - intros x ->%list_elem_of_singleton. split; [by apply formed_compute|done].
  - intros x (i & y & ->)%imap_elem. split; [by apply formed_write; [apply register_name_nonempty|]|done].
Qed.

Lemma branch_arms_settled w fallback last candidates i p exits units :
  let entry k := if k <? last then 2 + k else fallback in
  program p ((entry <$> seqZ i (Z.of_nat (length candidates))) ++ exits) units →
  (∀ k, i <= k < i + Z.of_nat (length candidates) → 0 <= entry k < Z.of_nat (length p)) →
  (∀ e, e ∈ exits → 0 <= e < Z.of_nat (length p)) →
  settled w (branch_arms fallback last i candidates p exits) (λ x, program x.1 x.2 units ∧
    length x.1 = (length p + 2 * length candidates)%nat ∧ ∀ e, e ∈ x.2 → 0 <= e < Z.of_nat (length x.1)).
Proof.
  cbv zeta. revert i p exits. induction candidates as [|key candidates IH]; intros i p exits Hp He Hx; cbn [branch_arms].
  { cbn. split; [done|]. split; [lia|done]. }
  destruct (at_index_in p (if i <? last then 2 + i else fallback)) as [x Ex]; [apply (He i); cbn; lia|].
  destruct (program_patch _ _ _ _ _ Hp Ex) as (q & -> & Hl & Hq). cbn [mbind outcome_bind].
  set (q1 := q ++ [read_instruction (stateKey key) "r0"]).
  eapply settled_mono; [apply (IH (i + 1) (q1 ++ [jump_instruction always]) (exits ++ [Z.of_nat (length q1)]))|].
  - rewrite app_assoc. apply program_jump; [|by apply formed_jump|done]. rewrite <- (Z.add_0_r units).
    apply (program_app q _ units [read_instruction (stateKey key) "r0"]).
    + apply Hq. cbn [length]. rewrite Nat2Z.inj_succ. intros j [Hj|Hj]%elem_of_app; [|right; apply elem_of_app; by right].
      rewrite seqZ_cons, Z.pred_succ in Hj by lia. apply elem_of_cons in Hj as [->|Hj]; [by left|right].
      apply elem_of_app. by left.
    + intros y ->%list_elem_of_singleton. split; [by apply formed_read|done].
  - intros k Hk. unfold q1. rewrite !length_app, Hl. specialize (He k). cbn [length] in *. lia.
  - unfold q1. intros e [Hin%Hx| ->%list_elem_of_singleton]%elem_of_app; rewrite !length_app, ?Hl; cbn [length]; lia.
  - unfold q1. rewrite !length_app, Hl. cbn [length]. intros x' (H1 & H2 & H3). split; [done|]. split; [lia|done].
Qed.

Lemma patch_all_settled w exits p units :
  program p exits units → (∀ e, e ∈ exits → 0 <= e < Z.of_nat (length p)) →
  settled w (foldM (λ p exit, patch p exit (Z.of_nat (length p))) p exits) (λ q, program q [] units ∧ length q = length p).
Proof.
  revert p. induction exits as [|e exits IH]; intros p Hp He; cbn [foldM]; [done|].
  destruct (at_index_in p e) as [x Ex]; [apply He; by left|].
  destruct (program_patch _ _ _ _ _ Hp Ex) as (q & -> & Hl & Hq). cbn [mbind outcome_bind].
  eapply settled_mono; [apply (IH q)|].
  - apply Hq. intros j [->|Hj]%elem_of_cons; [by left|by right].
  - intros e' He'. rewrite Hl. apply He. by right.
  - cbn. intros q' [H1 H2]. split; [done|lia].
Qed.

(** The members of an explicit list that are not jumps. *)
Ltac plain_members :=
  let Hx := fresh in
  intros ? Hx; repeat (apply elem_of_cons in Hx as [->|Hx];
    [split; [first [by apply formed_compute|by apply formed_read|by apply formed_write|by apply formed_fail|by apply formed_return]|done]|]);
  by apply elem_of_nil in Hx.

Lemma program_jumps p pending units l :
  program p pending units → (∀ x, x ∈ l → formed x ∧ in_ComputeUnits x = 0) →
  program (p ++ l) (pending ++ seqZ (Z.of_nat (length p)) (Z.of_nat (length l))) units.
Proof.
  revert p pending. induction l as [|x l IH]; intros p pending Hp Hl; [by rewrite !app_nil_r|].
  cbn [length]. rewrite Nat2Z.inj_succ, seqZ_cons, Z.pred_succ by lia.
  rewrite (cons_middle x p l), (cons_middle (Z.of_nat (length p)) pending), !app_assoc.
  destruct (Hl x) as [Hf Hu]; [by left|].
  assert (Z.succ (Z.of_nat (length p)) = Z.of_nat (length (p ++ [x]))) as -> by (rewrite length_app; cbn; lia).
  apply IH; [by apply program_jump|]. intros y Hy. apply Hl. by right.
Qed.

Lemma branchProgram_settled w selector candidates write delta prefix suffix :
  candidates ≠ [] → i64_range delta → u64_range prefix → u64_range suffix →
  settled w (branchProgram selector candidates write delta prefix suffix)
    (λ p, program p [] (prefix + suffix) ∧ length p = (3 * length candidates + 4)%nat).
Proof.
  intros Hne Hd Hp Hs. unfold branchProgram. set (n := Z.of_nat (length candidates)).
  assert (1 <= n) as Hn by (destruct candidates; [done|cbn in n; lia]).
  set (head := [read_instruction (stateKey selector) "selector"; compute_instruction prefix]).
  set (jumps := _ <$> seqZ 0 (n - 1)).
  assert (Z.of_nat (length jumps) = n - 1) as Hj by (unfold jumps; rewrite length_fmap, length_seqZ; lia).
  assert (program head [] prefix) as H0.
  { pose proof (program_app [] [] 0 head program_nil) as H. cbn in H. rewrite Z.add_0_r in H. apply H.
    plain_members. }
  assert (program (head ++ jumps) (seqZ 2 (n - 1)) prefix) as H1.
  { rewrite <- Hj. apply (program_jumps head [] prefix jumps H0). intros x (k & -> & _)%list_elem_of_fmap.
    split; [|done]. by apply formed_jump. }
  assert (Z.of_nat (length (head ++ jumps)) = n + 1) as Hl by (rewrite length_app; cbn; lia).
  eapply settled_bind; [apply (branch_arms_settled w _ _ _ _ _ [] prefix)|].
  - fold n. rewrite Hl, app_nil_r.
    assert (((λ k, if k <? n - 1 then 2 + k else n + 1) <$> seqZ 0 n) = seqZ 2 (n - 1) ++ [n + 1]) as ->.
    { assert (seqZ 0 n = seqZ 0 (n - 1) ++ [n - 1]) as ->.
      { replace n with (n - 1 + 1) at 1 by lia. by rewrite seqZ_app by lia. }
      rewrite fmap_app. f_equal.
      - apply list_eq. intros i. rewrite list_lookup_fmap. destruct (decide (Z.of_nat i < n - 1)).
        + rewrite !lookup_seqZ_lt by lia. cbn. rewrite (proj2 (Z.ltb_lt _ _)) by lia. done.
        + by rewrite !lookup_seqZ_ge by lia.
      - cbn. rewrite (proj2 (Z.ltb_ge _ _)) by lia. done. }
    rewrite <- Hl. apply program_jump; [done|by apply formed_jump|done].
  - intros k Hk. fold n in Hk. rewrite (length_app _ [jump_instruction always]), Nat2Z.inj_add, Hl. cbn. destruct (Z.ltb_spec k (n - 1)); lia.
  - by intros e ?%elem_of_nil.
  - intros [p exits] (Hp1 & Hlp & He). cbn [fst snd] in *.
    eapply settled_bind; [by apply patch_all_settled|]. intros q [Hq Hlq]. cbn. split.
    + pose proof (program_app _ _ _ [compute_instruction suffix; write_instruction (stateKey write) (MkExpression (Register "r0") delta)] Hq) as H.
      cbn in H. rewrite Z.add_0_r in H. apply H.
      plain_members.
    + rewrite length_app, Hlq, Hlp, length_app. cbn [length]. unfold n in *. lia.
Qed.

(** ** Accepted configurations *)

(** What Go's types say of a configuration. *)
Record config_typed (c : Config) : Prop := {
  ct_units : ∀ tx, tx ∈ Mix c → u64_range (cc_MinUnits (tc_Compute tx));
  ct_fraction : ∀ tx, tx ∈ Mix c → is_float64 (PrefixFraction (tc_Compute tx)) = true;
}.

Record accepted (c : Config) : Prop := {
  ac_keys : 0 < KeySpace c <= InitialKeys c;
  ac_counts : 0 < BlockCount c ∧ 0 < TransactionsPerBlock c ∧ 0 <= FailureEvery c;
  ac_mix : Mix c ≠ [];
  ac_transactions : ∀ tx, tx ∈ Mix c → check_transaction c tx = None;
}.

Lemma check_mix_all c w mix w' : check_mix c w mix = inr w' → ∀ tx, tx ∈ mix → check_transaction c tx = None.
Proof.
  revert w. induction mix as [|tx mix IH]; intros w; cbn; [by intros _ tx ?%elem_of_nil|].
  destruct (check_transaction c tx) eqn:E; [done|]. intros H tx' [->|Hin]%elem_of_cons; [done|by eapply IH].
Qed.

Lemma validateConfig_accepted c : validateConfig c = None → accepted c.
Proof.
  unfold validateConfig. destruct ((InitialKeys c <=? 0) || _ || _) eqn:E1; [done|].
  destruct ((BlockCount c <=? 0) || _ || _) eqn:E2; [done|]. destruct (length (Mix c) =? 0)%nat eqn:E3; [done|].
  destruct (check_mix c f0 (Mix c)) as [e|w] eqn:E4; [done|]. intros _.
  apply orb_false_iff in E1 as [[E1a E1b]%orb_false_iff E1c]. apply orb_false_iff in E2 as [[E2a E2b]%orb_false_iff E2c].
  split; [bool_lia|split_and!; bool_lia| |by eapply check_mix_all].
  intros E. by rewrite E in E3.
Qed.

(** The facts of one template. *)
Record template_ok (c : Config) (tx : TransactionConfig) : Prop := {
  to_units : cc_MinUnits (tc_Compute tx) <= cc_MaxUnits (tc_Compute tx) <= 2 ^ 53;
  to_fraction : fle f0 (PrefixFraction (tc_Compute tx)) = true ∧ fle (PrefixFraction (tc_Compute tx)) f1 = true;
  to_hot : hotspot (tc_Access tx) → 0 < HotKeys (tc_Access tx) < KeySpace c;
  to_linear : is_linear (tc_Template tx) = true →
    1 <= ReadKeys tx <= KeySpace c ∧ 0 <= UpdateKeys tx <= KeySpace c ∧ (tc_Template tx = TemplateRMW → UpdateKeys tx <= ReadKeys tx);
  to_selector : is_selector (tc_Template tx) = true →
    InitialKeys c ≠ KeySpace c ∧ (tc_Template tx ≠ TemplateBranch → 2 <= CandidateKeys tx <= KeySpace c);
  to_fan_in : is_fan_in (tc_Template tx) = true → 2 <= FanIn tx < KeySpace c;
  to_known : is_linear (tc_Template tx) || is_selector (tc_Template tx) || is_fan_in (tc_Template tx) = true;
}.

Lemma check_access_support c a support : 0 < KeySpace c → check_access c a = inr support →
  support <= KeySpace c ∧ (hotspot a → 0 < HotKeys a < KeySpace c).
Proof.
  intros Hk. unfold check_access, hotspot.
  destruct ((ac_Kind a =? "")%string || (ac_Kind a =? "uniform")%string) eqn:E1.
  { destruct (_ || _ || _); [done|]. intros [= <-]. split; [done|]. intros E. by rewrite E in E1. }
  destruct (String.eqb_spec (ac_Kind a) "hotspot") as [E|Hne].
  - destruct ((HotKeys a <=? 0) || _ || _ || _) eqn:E2; [done|].
    apply orb_false_iff in E2 as [[[Ha Hb]%orb_false_iff _]%orb_false_iff _]. intros [= <-].
    assert (0 < HotKeys a < KeySpace c) by bool_lia. split; [|done]. destruct (feq _ f0); [|destruct (feq _ f1)]; lia.
  - destruct (_ =? "zipf")%string; [|done]. destruct (_ || _ || _); [done|]. intros [= <-]. by split.
Qed.

Lemma check_transaction_ok c tx : 0 < KeySpace c → 0 < BlockCount c → 0 < TransactionsPerBlock c →
  check_transaction c tx = None → template_ok c tx.
Proof.
  intros Hk Hb Ht. unfold check_transaction. destruct (_ || IsNaN _ || _); [done|].
  destruct ((cc_MaxUnits _ <? _) || _ || _) eqn:Eu; [done|].
  apply orb_false_iff in Eu as [[Eu1 Eu2]%orb_false_iff Eu3%negb_false_iff].
  apply andb_true_iff in Eu3 as [[_ Ef1]%andb_true_iff Ef2].
  destruct (check_access c (tc_Access tx)) as [e|support] eqn:Ea; [done|].
  apply check_access_support in Ea as [Hs Hhot]; [|done].
  destruct ((ReadKeys tx <? 0) || _ || _ || _) eqn:En; [done|].
  apply orb_false_iff in En as [[[En1 En2]%orb_false_iff En3]%orb_false_iff En4].
  unfold check_template. intros Ec. split; [bool_lia|by split|done|..].
  - intros El. rewrite El in Ec. destruct ((ReadKeys tx <? 1) || _ || _) eqn:E1; [done|].
    apply orb_false_iff in E1 as [[E1 E2]%orb_false_iff E3]. destruct ((tc_Template tx =? TemplateRMW)%string && _) eqn:E4; [done|].
    split_and!; try bool_lia. intros E. rewrite E in E4. cbn in E4. bool_lia.
  - intros El. assert (is_linear (tc_Template tx) = false) as El'.
    { unfold is_linear, is_selector in *. by apply orb_true_iff in El as [->%String.eqb_eq| ->%String.eqb_eq]. }
    rewrite El, El' in Ec. destruct (Z.eqb_spec (InitialKeys c) (KeySpace c)); [done|]. destruct (_ || _ || _); [done|].
    destruct (_ && negb (CandidateKeys tx =? 0)); [done|]. split; [done|]. intros Hne.
    apply orb_true_iff in El as [El|El]; [by apply String.eqb_eq in El|]. rewrite El in Ec. cbn [andb] in Ec.
    destruct ((CandidateKeys tx <? 2) || (KeySpace c <? CandidateKeys tx) || _) eqn:E; [done|].
    apply orb_false_iff in E as [[E1 E2]%orb_false_iff _]. bool_lia.
  - intros El. assert (is_linear (tc_Template tx) = false ∧ is_selector (tc_Template tx) = false) as [El1 El2].
    { unfold is_linear, is_selector, is_fan_in in *. by apply orb_true_iff in El as [->%String.eqb_eq| ->%String.eqb_eq]. }
    rewrite El, El1, El2 in Ec. destruct (_ || (FanIn tx <? 2) || _ || _) eqn:E; [done|].
    apply orb_false_iff in E as [[[_ E1]%orb_false_iff E2]%orb_false_iff E3].
    apply Z.ltb_ge in E1. apply Z.leb_gt in E2. apply Z.ltb_ge in E3.
    assert (TransactionsPerBlock c <= KeySpace c); [|lia].
    destruct (Z.le_gt_cases (TransactionsPerBlock c) (KeySpace c)); [done|]. rewrite Z.div_small in E3; lia.
  - destruct (is_linear _); [done|]. destruct (is_selector _); [done|]. by destruct (is_fan_in _).
Qed.

(** ** One transaction *)

Section transaction.
Context {R : Rand} {RL : RandLaws R} {P : MathPow} (w : Prop) (patience : nat) (c : Config) (initial : list Z).
Context (Hkeys : 0 < KeySpace c <= InitialKeys c).
Context (Hinitial : Z.of_nat (length initial) = InitialKeys c) (Hvalues : ∀ v, v ∈ initial → 0 <= v < 10000).

Lemma newKeySampler_ok a : (hotspot a → 0 < HotKeys a < KeySpace c) → sampler_ok (newKeySampler (KeySpace c) a).
Proof.
  intros Hh. split; [apply Hkeys|done|]. unfold zipf. cbn. intros ->. cbn.
  destruct (Z.to_nat (KeySpace c)) eqn:E; [lia|done].
Qed.

Context (tx : TransactionConfig) (Htx : template_ok c tx).
Abbreviation sampler := (newKeySampler (KeySpace c) (tc_Access tx)).
Context (Hserve : ∀ r count, 0 <= count <= KeySpace c → settled w (sample_keys patience sampler r count) (λ x, sampled sampler count x.2)).
Context (delta prefix suffix : Z) (Hdelta : i64_range delta) (Hprefix : u64_range prefix) (Hsuffix : u64_range suffix).

(** What every template makes. *)
Definition made (x : rng * list Instruction) : Prop :=
  program x.2 [] (prefix + suffix) ∧ Z.of_nat (length x.2) <= 3 * KeySpace c + 10.

Lemma linear_case_settled r : is_linear (tc_Template tx) = true →
  settled w (linear_case patience tx sampler r delta prefix suffix) made.
Proof.
  intros Hl. destruct (to_linear _ _ Htx Hl) as (Hr & Hu & Hrmw). unfold linear_case.
  eapply settled_bind; [apply Hserve; lia|]. intros [r1 reads] (Hlen & _). cbn [snd] in Hlen.
  eapply (settled_bind _ _ _ (λ x, Z.of_nat (length x.2) <= UpdateKeys tx)).
  - destruct (String.eqb_spec (tc_Template tx) TemplateRMW) as [E|_].
    + rewrite (proj2 (Z.leb_le 0 _)), (proj2 (Z.leb_le _ _)) by auto with lia. cbn. rewrite length_take. lia.
    + eapply settled_mono; [apply Hserve; lia|]. cbn. intros x (H & _). lia.
  - intros [r2 writes] Hw. cbn in Hw. eapply settled_bind; [apply linearProgram_settled; [|done..]|].
    + intros _ ->. cbn in Hlen. lia.
    + intros p [Hp Hl']. split; [done|]. cbn. lia.
Qed.

Lemma selector_case_settled r : is_selector (tc_Template tx) = true →
  settled w (selector_case c initial tx sampler r delta prefix suffix) made.
Proof.
  intros Hs. destruct (to_selector _ _ Htx Hs) as [Hne Hcand]. unfold selector_case.
  eapply settled_bind; [apply Intn_settled; lia|]. intros [r1 k] Hk. cbn [snd] in Hk.
  eapply (settled_bind _ _ _ (λ x, x.1.2 ≠ [] ∧ Z.of_nat (length x.1.2) <= Z.max 2 (KeySpace c))).
  - assert (sampler_ok sampler) as Hok by (apply newKeySampler_ok, Htx).
    destruct (String.eqb_spec (tc_Template tx) TemplateBranch) as [E|Hb].
    + do 3 (eapply settled_bind; [by apply sample_key_settled|]; intros [? ?] _). cbn. split; [done|lia].
    + specialize (Hcand Hb). destruct (at_index_in initial (KeySpace c + k)) as [v Ev]; [lia|]. rewrite Ev. cbn [deref mbind outcome_bind].
      assert (0 <= v < 10000) as Hv by (apply Hvalues; apply at_index_lookup in Ev; [by eapply list_elem_of_lookup_2|lia]).
      rewrite length_seqZ, Z2Nat.id by lia.
      destruct (at_index_in (seqZ 0 (CandidateKeys tx)) (v * CandidateKeys tx / 10000)) as [x Ex].
      { rewrite length_seqZ, Z2Nat.id by lia. split; [apply Z.div_pos; lia|]. apply Z.div_lt_upper_bound; nia. }
      rewrite Ex. cbn. split; [|rewrite length_seqZ; lia]. rewrite seqZ_cons by lia. done.
  - intros [[r2 candidates] write] [Hc Hlc]. cbn [fst snd] in *.
    eapply settled_bind; [by apply branchProgram_settled|]. intros p [Hp Hl]. split; [done|]. cbn. lia.
Qed.

Lemma fan_in_case_settled r global t : 0 <= t → is_fan_in (tc_Template tx) = true →
  settled w (fan_in_case tx r global t delta prefix suffix) made.
Proof.
  intros Ht Hf. pose proof (to_fan_in _ _ Htx Hf) as Hfan. unfold fan_in_case.
  eapply (settled_bind _ _ _ (λ l, l ≠ [] ∧ Z.of_nat (length l) <= KeySpace c)).
  - unfold fan_in_reads. assert (∀ m, seqZ m (FanIn tx) ≠ [] ∧ Z.of_nat (length (seqZ m (FanIn tx))) <= KeySpace c) as Hseq.
    { intros m. split; [by rewrite seqZ_cons by lia|rewrite length_seqZ; lia]. }
    assert (∀ x : Z, [x] ≠ [] ∧ Z.of_nat (length [x]) <= KeySpace c) as Hone by (intros x; split; [done|cbn; lia]).
    destruct (_ && _); [apply Hseq|]. destruct (_ =? TemplateStagedFanIn)%string; [|apply Hone].
    destruct (Z.eqb_spec (FanIn tx + 1) 0); [lia|]. destruct (_ =? FanIn tx); [apply Hseq|].
    destruct (_ <? t); apply Hone.
  - intros reads [Hne Hl]. eapply settled_bind; [by apply linearProgram_settled|].
    intros p [Hp Hlp]. split; [done|]. cbn [snd length] in *. lia.
Qed.

Lemma template_program_settled r global t : 0 <= t →
  settled w (template_program patience c initial tx sampler r global t delta prefix suffix) made.
Proof.
  intros Ht. unfold template_program. destruct (is_linear _) eqn:E1; [by apply linear_case_settled|].
  destruct (is_selector _) eqn:E2; [by apply selector_case_settled|].
  destruct (is_fan_in _) eqn:E3; [by apply fan_in_case_settled|].
  pose proof (to_known _ _ Htx) as H. by rewrite E1, E2, E3 in H.
Qed.
End transaction.

(** *** Names and budget *)

(** A finished transaction: typed, valid, its jumps all forward, and a budget of
    one unit per instruction and the units of its computations. *)
Record transaction_ok (t : Transaction) : Prop := {
  tk_typed : tx_typed t;
  tk_valid : Validate t = ""%string;
  tk_forward : ∀ i x, Instructions (tx_Program t) !! i = Some x → in_Op x = OpJumpIf → Z.of_nat i < in_Target x;
  tk_budget : MaxUnits t = Z.of_nat (length (Instructions (tx_Program t))) + total_units (Instructions (tx_Program t));
}.

Lemma program_named (f : Z → string) p units : program p [] units → program (imap (λ i x, set_ID x (f (Z.of_nat i))) p) [] units.
Proof.
  intros [H1 H2 H3]. split.
  - intros x (i & Hi)%list_elem_of_lookup. rewrite list_lookup_imap in Hi. destruct (p !! i) as [y|] eqn:E; [|done].
    injection Hi as <-. apply formed_id, H1. by eapply list_elem_of_lookup_2.
  - intros i x Hi Hop. rewrite length_imap. rewrite list_lookup_imap in Hi. destruct (p !! i) as [y|] eqn:E; [|done].
    injection Hi as <-. cbn in *. by apply (H2 i y).
  - rewrite <- H3. clear. revert f. induction p as [|x p IH]; intros f; [done|]. cbn. f_equal.
    change (total_units (imap ((λ i x0, set_ID x0 (f (Z.of_nat i))) ∘ S) p) = total_units p).
    rewrite <- (IH (λ i, f (i + 1))). f_equal. apply imap_ext. intros i y _. cbn [compose]. do 2 f_equal. lia.
Qed.

Lemma budget_exact p acc : (∀ x, x ∈ p → formed x) → 0 <= acc → acc + Z.of_nat (length p) + total_units p < W64 →
  foldl (λ budget x, u64 (budget + u64 (1 + in_ComputeUnits x))) acc p = acc + Z.of_nat (length p) + total_units p.
Proof.
  revert acc. induction p as [|x p IH]; intros acc Hf Ha Hb; cbn [foldl length].
  { unfold total_units. cbn. lia. }
  change (total_units (x :: p)) with (in_ComputeUnits x + total_units p) in *.
  assert (0 <= total_units p) as Hp.
  { assert (∀ y, y ∈ p → formed y) as Hp by (intros y Hy; apply Hf; by right). clear -Hp. induction p as [|y p IH]; [done|].
    change (0 <= in_ComputeUnits y + total_units p). destruct (Hp y) as [[_ _ Hu] _]; [by left|]. unfold u64_range in Hu.
    assert (0 <= total_units p); [|lia]. apply IH. intros z Hz. apply Hp. by right. }
  destruct (Hf x) as [[_ _ Hu] _]; [by left|]. unfold u64_range in Hu. cbn [length] in Hb.
  rewrite (u64_id (1 + _)), u64_id by (unfold u64_range; lia). rewrite IH; [lia| |lia|lia].
  intros y Hy. apply Hf. by right.
Qed.

Lemma finish_program_ok c b t global p units :
  program p [] units → Z.of_nat (length p) <= 2 ^ 60 → units <= 2 ^ 60 →
  let tx := finish_program c b t global p in
  transaction_ok tx ∧ tx_ID tx = txID b t ∧
  in_ID <$> Instructions (tx_Program tx) = imap (λ i _, opID b t (Z.of_nat i)) (Instructions (tx_Program tx)).
Proof.
  intros Hp Hl Hu. unfold finish_program. cbv zeta.
  set (p1 := if _ && _ then p ++ [fail_instruction] else p).
  assert (program p1 [] units ∧ Z.of_nat (length p1) <= 2 ^ 60 + 1) as [Hp1 Hl1].
  { unfold p1. destruct (_ && _); [|split; [done|lia]]. split; [|rewrite length_app; cbn [length]; lia].
    rewrite <- (Z.add_0_r units). apply (program_app p _ _ [fail_instruction] Hp). plain_members. }
  assert (program (p1 ++ [return_instruction (MkExpression (Register "r0") 0)]) [] units) as Hp2.
  { rewrite <- (Z.add_0_r units). apply (program_app p1 _ _ [return_instruction _] Hp1). plain_members. }
  pose proof (program_named (opID b t) _ _ Hp2) as [H1 H2 H3].
  set (q := imap _ _) in *.
  assert (1 <= Z.of_nat (length q) <= 2 ^ 60 + 2) as Hq.
  { unfold q. rewrite length_imap, length_app. cbn [length]. lia. }
  assert (0 + Z.of_nat (length q) + total_units q < W64) as Hw by (rewrite H3; change W64 with (2 ^ 64); lia).
  assert (∀ x, x ∈ q → 0 <= in_ComputeUnits x) as Hnn by (intros x Hx; by destruct (H1 x Hx) as [[_ _ [? _]] _]).
  assert (0 <= total_units q) as Hnn'.
  { clear -Hnn. induction q as [|x q IH]; [done|]. change (0 <= in_ComputeUnits x + total_units q).
    pose proof (Hnn x ltac:(by left)). assert (0 <= total_units q); [|lia]. apply IH. intros y Hy. apply Hnn. by right. }
  rewrite (budget_exact q 0 H1 (Z.le_refl 0) Hw). split_and!; [split|done|].
  - split; cbn; [unfold u64_range; lia|]. intros x Hx. by destruct (H1 x Hx).
  - unfold Validate. cbn. rewrite (proj2 (Z.eqb_neq _ _)) by lia. apply validate_all_spec. intros x (i & Hi)%list_elem_of_lookup.
    apply formed_valid; [apply H1; by eapply list_elem_of_lookup_2|lia|]. intros Hop.
    destruct (H2 i x Hi Hop) as [[]%elem_of_nil|?]. lia.
  - intros i x Hi Hop. destruct (H2 i x Hi Hop) as [[]%elem_of_nil|?]. lia.
  - done.
  - cbn. unfold q. apply list_eq. intros i. rewrite list_lookup_fmap, !list_lookup_imap. by destruct (_ !! i).
Qed.

(** ** Identifiers *)

Lemma bytes_of_dash : bytes_of "-" = ["-"%byte].
Proof. done. Qed.

Lemma blockID_inj b b' : 0 <= b → 0 <= b' → blockID b = blockID b' → b = b'.
Proof. intros Hb Hb' E%string_of_inj%app_inv_head. by apply padded_inj in E. Qed.

Lemma txID_inj b t b' t' : 0 <= b → 0 <= t → 0 <= b' → 0 <= t' → txID b t = txID b' t' → b = b' ∧ t = t'.
Proof.
  intros Hb Ht Hb' Ht' E%string_of_inj%app_inv_head. rewrite bytes_of_dash in E. cbn [app] in E.
  apply padded_split in E as [-> E]; [|done..]. split; [done|]. by apply padded_inj in E.
Qed.

Lemma opID_inj b t i b' t' i' : 0 <= b → 0 <= t → 0 <= i → 0 <= b' → 0 <= t' → 0 <= i' →
  opID b t i = opID b' t' i' → b = b' ∧ t = t' ∧ i = i'.
Proof.
  intros Hb Ht Hi Hb' Ht' Hi' E%string_of_inj%app_inv_head. rewrite bytes_of_dash in E. cbn [app] in E.
  apply padded_split in E as [-> E]; [|done..]. apply padded_split in E as [-> E]; [|done..].
  split; [done|]. split; [done|]. by apply padded_inj in E.
Qed.

Lemma block_not_tx b b' t : blockID b ≠ txID b' t.
Proof. intros E%string_of_inj. discriminate E. Qed.
Lemma block_not_op b b' t i : blockID b ≠ opID b' t i.
Proof. intros E%string_of_inj. discriminate E. Qed.
Lemma tx_not_op b t b' t' i : txID b t ≠ opID b' t' i.
Proof. intros E%string_of_inj. discriminate E. Qed.

(** The identifiers that transaction [t] of block [b] owns. *)
Definition owned_by_tx (b t : Z) (id : string) : Prop := id = txID b t ∨ ∃ i, 0 <= i ∧ id = opID b t i.
Definition owned_by_block (b : Z) (id : string) : Prop := id = blockID b ∨ ∃ t, 0 <= t ∧ owned_by_tx b t id.

Lemma owned_by_tx_inj b t b' t' id : 0 <= b → 0 <= t → 0 <= b' → 0 <= t' →
  owned_by_tx b t id → owned_by_tx b' t' id → b = b' ∧ t = t'.
Proof.
  intros Hb Ht Hb' Ht' [->|(i & Hi & ->)] [E|(i' & Hi' & E)].
  - by apply txID_inj in E.
  - by apply tx_not_op in E.
  - by symmetry in E; apply tx_not_op in E.
  - apply opID_inj in E as (? & ? & _); done.
Qed.

Lemma owned_by_block_inj b b' id : 0 <= b → 0 <= b' → owned_by_block b id → owned_by_block b' id → b = b'.
Proof.
  intros Hb Hb' [->|(t & Ht & H)] [E|(t' & Ht' & H')].
  - by apply blockID_inj.
  - exfalso. destruct H' as [E|(i & _ & E)]; [by apply block_not_tx in E|by apply block_not_op in E].
  - exfalso. subst. destruct H as [E|(i & _ & E)]; [by apply block_not_tx in E|by apply block_not_op in E].
  - by apply (owned_by_tx_inj b t b' t' id).
Qed.

(** A transaction and a block that carry the generator's names. *)
Definition tx_named (b t : Z) (tx : Transaction) : Prop :=
  tx_ID tx = txID b t ∧
  in_ID <$> Instructions (tx_Program tx) = imap (λ i _, opID b t (Z.of_nat i)) (Instructions (tx_Program tx)).

Definition block_named (b : Z) (block : Block) : Prop :=
  b_ID block = blockID b ∧ ∀ t tx, Transactions block !! t = Some tx → tx_named b (Z.of_nat t) tx.

Lemma tx_named_owned b t tx id : tx_named b t tx → id ∈ transaction_ids tx → owned_by_tx b t id.
Proof.
  intros [E1 E2] [->|Hin]%elem_of_cons; [by left|]. rewrite E2 in Hin. right.
  apply list_elem_of_lookup in Hin as (i & Hi). rewrite list_lookup_imap in Hi. destruct (_ !! i); [|done].
  injection Hi as <-. exists (Z.of_nat i). split; [lia|done].
Qed.

Lemma tx_named_NoDup b t tx : 0 <= b → 0 <= t → tx_named b t tx → NoDup (transaction_ids tx).
Proof.
  intros Hb Ht [E1 E2]. unfold transaction_ids. rewrite E1, E2. apply NoDup_cons. split.
  - intros (i & Hi)%list_elem_of_lookup. rewrite list_lookup_imap in Hi. destruct (_ !! i); [|done].
    apply (inj Some) in Hi. by symmetry in Hi; apply tx_not_op in Hi.
  - apply NoDup_alt. intros i j x. rewrite !list_lookup_imap. destruct (_ !! i); [|done]. destruct (_ !! j); [|done].
    intros E%(inj Some) E'%(inj Some). rewrite <- E in E'. apply opID_inj in E' as (_ & _ & E'); lia.
Qed.

(** Lists whose members have an owner each, concatenated. *)
Lemma NoDup_bind_owned {A} (f : A → list string) (owned : Z → string → Prop) l :
  (∀ i j id, 0 <= i → 0 <= j → owned i id → owned j id → i = j) →
  (∀ (i : nat) x, l !! i = Some x → f x ≠ [] ∧ NoDup (f x) ∧ ∀ id, id ∈ f x → owned (Z.of_nat i) id) →
  NoDup (l ≫= f).
Proof.
  intros Hinj Hl.
  assert (∀ i j x y id, l !! i = Some x → l !! j = Some y → id ∈ f x → id ∈ f y → i = j) as Hij.
  { intros i j x y id Hi Hj Hx Hy. apply Nat2Z.inj. apply (Hinj _ _ id); [lia..|by eapply Hl|by eapply Hl]. }
  apply NoDup_bind.
  - intros x y id (i & Hi)%list_elem_of_lookup (j & Hj)%list_elem_of_lookup Hx Hy.
    assert (i = j) as -> by (by eapply Hij). congruence.
  - intros x (i & Hi)%list_elem_of_lookup. by eapply Hl.
  - apply NoDup_alt. intros i j x Hi Hj. destruct (Hl i x Hi) as (Hne & _). destruct (f x) as [|id ids] eqn:E; [done|].
    eapply (Hij i j x x id); [done|done|..]; rewrite E; by left.
Qed.

Lemma block_named_ids b block : 0 <= b → block_named b block →
  NoDup (block_ids block) ∧ ∀ id, id ∈ block_ids block → owned_by_block b id.
Proof.
  intros Hb [E Ht].
  assert (∀ id, id ∈ Transactions block ≫= transaction_ids → ∃ t, 0 <= t ∧ owned_by_tx b t id) as Hown.
  { intros id (tx & Hid & (t & Hl)%list_elem_of_lookup)%list_elem_of_bind. exists (Z.of_nat t). split; [lia|].
    eapply tx_named_owned; [by apply Ht|done]. }
  split.
  - unfold block_ids. apply NoDup_cons. split.
    + rewrite E. intros (t & _ & [Hx|(i & _ & Hx)])%Hown; [by apply block_not_tx in Hx|by apply block_not_op in Hx].
    + apply (NoDup_bind_owned _ (owned_by_tx b)).
      * intros i j id Hi Hj Hx Hy. by destruct (owned_by_tx_inj b i b j id).
      * intros i tx Hl. split; [done|]. specialize (Ht i tx Hl). split; [eapply tx_named_NoDup; [done| |done]; lia|].
        intros id. by apply tx_named_owned.
  - intros id [->|Hin]%elem_of_cons; [by left|right; by apply Hown].
Qed.

Lemma owned_nonempty b : ¬ owned_by_block b "".
Proof.
  intros [E|(t & _ & [E|(i & _ & E)])]; unfold blockID, txID, opID in E;
    (apply (f_equal String.list_byte_of_string) in E; unfold string_of in E;
     rewrite String.list_byte_of_string_of_list_byte in E; discriminate E).
Qed.

Lemma blocks_named_ids blocks : (∀ (i : nat) block, blocks !! i = Some block → block_named (Z.of_nat i) block) →
  NoDup (logical_ids blocks) ∧ "" ∉ logical_ids blocks.
Proof.
  intros Hb. split.
  - apply (NoDup_bind_owned _ owned_by_block).
    + intros i j id. apply owned_by_block_inj.
    + intros i block Hl. split; [done|]. apply block_named_ids; [lia|by apply Hb].
  - intros (block & Hid & (i & Hl)%list_elem_of_lookup)%list_elem_of_bind.
    apply (block_named_ids (Z.of_nat i)) in Hid; [by apply owned_nonempty in Hid|lia|by apply Hb].
Qed.

(** ** The artifact *)

Lemma seqZ_snoc m n : 0 <= n → seqZ m (n + 1) = seqZ m n ++ [m + n].
Proof. intros Hn. rewrite seqZ_app by lia. done. Qed.

Lemma fmap_indexed {A C} (g : A → C) (h : Z → C) l :
  (∀ (i : nat) x, l !! i = Some x → g x = h (Z.of_nat i)) → g <$> l = h <$> seqZ 0 (Z.of_nat (length l)).
Proof.
  induction l as [|x l IH] using rev_ind; intros Hl; [done|]. rewrite length_app, Nat2Z.inj_add. cbn [length].
  change (Z.of_nat 1) with 1. rewrite seqZ_snoc, !fmap_app by lia. f_equal.
  - apply IH. intros i y Hi. apply Hl. by apply lookup_app_l_Some.
  - cbn. f_equal. apply Hl. by rewrite lookup_app_r, Nat.sub_diag by lia.
Qed.

Lemma bind_indexed {A C} (g : A → list C) (h : Z → list C) l :
  (∀ (i : nat) x, l !! i = Some x → g x = h (Z.of_nat i)) → l ≫= g = seqZ 0 (Z.of_nat (length l)) ≫= h.
Proof.
  induction l as [|x l IH] using rev_ind; intros Hl; [done|]. rewrite length_app, Nat2Z.inj_add. cbn [length].
  change (Z.of_nat 1) with 1. rewrite seqZ_snoc, !bind_app by lia. f_equal.
  - apply IH. intros i y Hi. apply Hl. by apply lookup_app_l_Some.
  - cbn. rewrite !app_nil_r. apply Hl. by rewrite lookup_app_r, Nat.sub_diag by lia.
Qed.

Lemma fmap_of_bind {A C D} (f : C → D) (g : A → list C) l : f <$> (l ≫= g) = l ≫= λ x, f <$> g x.
Proof. induction l as [|x l IH]; [done|]. cbn. by rewrite fmap_app, IH. Qed.

(** Numbering the transactions block by block. *)
Lemma numbered B T : 0 <= B → 0 <= T → seqZ 0 B ≫= (λ b, (λ t, b * T + t) <$> seqZ 0 T) = seqZ 0 (B * T).
Proof.
  intros HB HT. revert B HB. apply natlike_ind; [done|]. intros B HB IH. unfold Z.succ.
  rewrite seqZ_snoc, bind_app, IH, Z.mul_add_distr_r, Z.mul_1_l, seqZ_app by nia. f_equal.
  cbn [mbind list_bind]. rewrite app_nil_r, Z.add_0_l. change (λ t, B * T + t) with (Z.add (B * T)).
  by rewrite fmap_add_seqZ, Z.add_0_r.
Qed.

(** When transaction [t] of block [b] arrives. *)
Definition arrival (T b t : Z) : LogicalArrival := MkLogicalArrival (u64 (b * T + t)) (u64 (b * T + t)) (blockID b) (txID b t).

(** What the loops of [Generate] build. *)
Record generated (c : Config) (blocks : list Block) (arrivals : list LogicalArrival) : Prop := {
  ge_blocks : Z.of_nat (length blocks) = BlockCount c;
  ge_transactions : ∀ block, block ∈ blocks → Z.of_nat (length (Transactions block)) = TransactionsPerBlock c ∧
    ∀ tx, tx ∈ Transactions block → transaction_ok tx;
  ge_named : ∀ (b : nat) block, blocks !! b = Some block → block_named (Z.of_nat b) block;
  ge_arrivals : arrivals = seqZ 0 (BlockCount c) ≫= λ b, arrival (TransactionsPerBlock c) b <$> seqZ 0 (TransactionsPerBlock c);
}.

Lemma seqZ_sorted m n : Sorted Z.le (seqZ m n).
Proof.
  destruct (Z.le_gt_cases n 0); [by rewrite seqZ_nil|]. rewrite <- (Z2Nat.id n) by lia. revert m.
  induction (Z.to_nat n) as [|k IH]; intros m; [constructor|]. rewrite Nat2Z.inj_succ, seqZ_cons, Z.pred_succ by lia.
  constructor; [apply IH|]. destruct k as [|k]; [constructor|].
  rewrite Nat2Z.inj_succ, seqZ_cons by lia. constructor. lia.
Qed.

Lemma generated_arrivals c blocks arrivals : accepted c → BlockCount c * TransactionsPerBlock c < 2 ^ 63 →
  generated c blocks arrivals →
  la_Sequence <$> arrivals = seqZ 0 (Z.of_nat (length arrivals)) ∧ Sorted Z.le (la_LogicalTime <$> arrivals) ∧
  (λ r, (la_TransactionID r, la_BlockID r)) <$> arrivals = tx_blocks blocks.
Proof.
  intros Ha Hlt [Hb Ht Hn ->]. destruct (ac_counts _ Ha) as (HB & HT & _).
  set (B := BlockCount c) in *. set (T := TransactionsPerBlock c) in *.
  assert (∀ (D : Type) (f : LogicalArrival → D) (g : Z → Z → D), (∀ b t, f (arrival T b t) = g b t) →
    f <$> (seqZ 0 B ≫= λ b, arrival T b <$> seqZ 0 T) = seqZ 0 B ≫= λ b, g b <$> seqZ 0 T) as Hf.
  { intros D f g Hf. rewrite fmap_of_bind. apply list_bind_ext; [|done]. intros b. rewrite <- list_fmap_compose.
    apply list_fmap_ext. intros _ t _. apply Hf. }
  assert (∀ f : LogicalArrival → Z, (∀ b t, f (arrival T b t) = u64 (b * T + t)) →
    f <$> (seqZ 0 B ≫= λ b, arrival T b <$> seqZ 0 T) = seqZ 0 (B * T)) as Hnum.
  { intros f Hu. rewrite (Hf _ f (λ b t, u64 (b * T + t))) by done.
    transitivity (u64 <$> (seqZ 0 B ≫= λ b, (λ t, b * T + t) <$> seqZ 0 T)).
    - rewrite fmap_of_bind. apply list_bind_ext; [|done]. intros b. by rewrite <- list_fmap_compose.
    - rewrite numbered by lia. apply list_eq. intros i. rewrite list_lookup_fmap.
      destruct (seqZ 0 (B * T) !! i) as [z|] eqn:Ez; [|done]. apply lookup_seqZ in Ez as [-> Hz]. cbn. f_equal.
      apply u64_id. unfold u64_range. change W64 with (2 ^ 64). lia. }
  split_and!.
  - rewrite (Hnum la_Sequence) by done. f_equal.
    rewrite <- (length_fmap la_Sequence (seqZ 0 B ≫= _)), (Hnum la_Sequence) by done. rewrite length_seqZ. nia.
  - rewrite (Hnum la_LogicalTime) by done. apply seqZ_sorted.
  - rewrite (Hf _ _ (λ b t, (txID b t, blockID b))) by done. unfold tx_blocks. rewrite <- Hb. symmetry. apply bind_indexed.
    intros b block Hl. destruct (Hn b block Hl) as [Eb Hnt]. destruct (Ht block) as [Hlen _]; [by eapply list_elem_of_lookup_2|].
    unfold block_transactions. fold T in Hlen. rewrite <- Hlen. apply fmap_indexed. intros t tx Htx. by destruct (Hnt t tx Htx) as [-> _]; rewrite Eb.
Qed.

(** The initial state: one entry per key, in order. *)
Lemma state_sorted (values : list Z) : Z.of_nat (length values) <= 10 ^ 8 →
  sorted_keys (se_Key <$> imap (λ i v, MkStateEntry (stateKey (Z.of_nat i)) (EncodeInt64 v)) values).
Proof.
  intros Hl. assert (se_Key <$> imap (λ i v, MkStateEntry (stateKey (Z.of_nat i)) (EncodeInt64 v)) values =
    stateKey <$> seqZ 0 (Z.of_nat (length values))) as ->.
  { rewrite <- (length_imap (λ i v, MkStateEntry (stateKey (Z.of_nat i)) (EncodeInt64 v)) values). apply fmap_indexed.
    intros i x Hi. rewrite list_lookup_imap in Hi. destruct (values !! i); [|done]. by injection Hi as <-. }
  assert (∀ n m, 0 <= m → m + Z.of_nat n <= 10 ^ 8 → sorted_keys (stateKey <$> seqZ m (Z.of_nat n))) as H.
  { induction n as [|n IH]; intros m Hm Hn; [constructor|]. rewrite Nat2Z.inj_succ, seqZ_cons, Z.pred_succ by lia.
    apply StronglySorted_cons_2; [apply IH; lia|]. intros y (k & -> & Hk%elem_of_seqZ)%list_elem_of_fmap.
    apply bytes_lt_app, padded_lt; cbn; lia. }
  apply H; lia.
Qed.

Lemma generated_wf `{J : Json} c values blocks arrivals descriptor :
  accepted c → Z.of_nat (length values) <= 10 ^ 8 → BlockCount c * TransactionsPerBlock c < 2 ^ 63 →
  descriptor ≠ [] → json_Valid descriptor = true → generated c blocks arrivals →
  artifact_wf (MkArtifact ArtifactSchemaVersion (MkGeneratorDescriptor GeneratorName GeneratorVersion (c_Seed c) descriptor)
    (imap (λ i v, MkStateEntry (stateKey (Z.of_nat i)) (EncodeInt64 v)) values) blocks arrivals []).
Proof.
  intros Ha Hk Hlt Hd Hj Hg. destruct (generated_arrivals _ _ _ Ha Hlt Hg) as (H1 & H2 & H3).
  split; cbn; try done.
  - by apply state_sorted.
  - by apply blocks_named_ids, Hg.
  - by rewrite H3.
  - split; [by intros r ?%elem_of_nil|constructor].
Qed.

(** ** The loops of [Generate] *)

Section generation.
Context {R : Rand} {RL : RandLaws R} {P : MathPow} (w : Prop) (patience : nat) (c : Config) (initial : list Z).
Context (Ha : accepted c) (Htyped : config_typed c) (Hsmall : InitialKeys c <= 10 ^ 8).
Context (Hinitial : Z.of_nat (length initial) = InitialKeys c) (Hvalues : ∀ v, v ∈ initial → 0 <= v < 10000).
Context (Hserve : ∀ tx r count, tx ∈ Mix c → 0 <= count <= KeySpace c →
  settled w (sample_keys patience (newKeySampler (KeySpace c) (tc_Access tx)) r count)
    (λ x, sampled (newKeySampler (KeySpace c) (tc_Access tx)) count x.2)).
Abbreviation samplers := ((λ tx, newKeySampler (KeySpace c) (tc_Access tx)) <$> Mix c).

Lemma select_range mix i choice d : select mix i choice d = d ∨ i <= select mix i choice d < i + Z.of_nat (length mix).
Proof.
  revert i choice. induction mix as [|tx mix IH]; intros i choice; cbn [select length]; [by left|].
  destruct (flt _ f0); [right; lia|]. destruct (IH (i + 1) (fsub choice (tc_Weight tx))); [by left|right; lia].
Qed.

Lemma accepted_template tx : tx ∈ Mix c → template_ok c tx.
Proof. destruct (ac_counts _ Ha) as (? & ? & _). intros Hin. apply check_transaction_ok; [apply Ha|done|done|]. by apply Ha. Qed.

Lemma generate_transaction_settled weight b t s : 0 <= b → 0 <= t →
  settled w (generate_transaction patience c initial samplers weight b t s) (λ x,
    transaction_ok x.1.2 ∧ tx_named b t x.1.2 ∧ global x.1.1 = global s + 1 ∧
    x.2 = MkLogicalArrival (u64 (global s)) (u64 (global s)) (blockID b) (txID b t)).
Proof.
  intros Hb Ht. unfold generate_transaction. destruct (rand_Float64 (mixRNG s)) as [mix u].
  set (selected := select _ _ _ _).
  assert (0 <= selected < Z.of_nat (length (Mix c))) as Hsel.
  { pose proof (ac_mix _ Ha) as Hmix. assert (length (Mix c) ≠ 0)%nat by (by destruct (Mix c)).
    unfold selected. destruct (select_range (Mix c) 0 (fmul u weight) (Z.of_nat (length (Mix c)) - 1)); lia. }
  destruct (at_index_in (Mix c) selected Hsel) as [tx Etx]. rewrite Etx.
  assert (at_index samplers selected = Some (newKeySampler (KeySpace c) (tc_Access tx))) as ->.
  { apply at_index_lookup in Etx; [|lia]. apply at_index_lookup; [lia|]. by rewrite list_lookup_fmap, Etx. }
  assert (tx ∈ Mix c) as Hin by (apply at_index_lookup in Etx; [by eapply list_elem_of_lookup_2|lia]).
  pose proof (accepted_template tx Hin) as Hok. destruct (to_units _ _ Hok) as [Hu1 Hu2]. destruct (to_fraction _ _ Hok) as [Hf0 Hf1].
  pose proof (ct_units _ Htyped tx Hin) as Hmin. pose proof (ct_fraction _ Htyped tx Hin) as Hfr. unfold u64_range in Hmin.
  cbn [deref mbind outcome_bind]. change W64 with (2 ^ 64) in *.
  assert (u64 (cc_MaxUnits (tc_Compute tx) - cc_MinUnits (tc_Compute tx) + 1) = cc_MaxUnits (tc_Compute tx) - cc_MinUnits (tc_Compute tx) + 1) as ->
    by (apply u64_id; unfold u64_range; change W64 with (2 ^ 64); lia).
  rewrite i64_id by (unfold i64_range; lia).
  eapply settled_bind; [apply Int63n_settled; lia|]. intros [cost extra] He. cbn [snd] in He.
  rewrite (u64_id extra), (u64_id (_ + extra)) by (unfold u64_range; change W64 with (2 ^ 64); lia).
  set (units := _ + extra). destruct (fraction_of_units units (PrefixFraction (tc_Compute tx))) as (prefix & -> & Hp); [lia|done..|].
  cbn [deref mbind outcome_bind]. rewrite (u64_id (units - prefix)) by (unfold u64_range; change W64 with (2 ^ 64); lia).
  eapply settled_bind; [apply Intn_settled; lia|]. intros [r d] Hd. cbn [snd] in Hd.
  eapply settled_bind; [apply (template_program_settled w patience c initial (ac_keys _ Ha) Hinitial Hvalues tx Hok); try done|].
  - intros r' count. by apply Hserve.
  - unfold i64_range. lia.
  - unfold u64_range. change W64 with (2 ^ 64). lia.
  - unfold u64_range. change W64 with (2 ^ 64). lia.
  - intros [r2 p] [Hprog Hlen]. cbn [snd] in *. destruct (ac_keys _ Ha).
    destruct (finish_program_ok c b t (global s) p _ Hprog) as (H1 & H2 & H3); [lia|lia|].
    cbn. split; [done|]. split; [by split|]. split; [done|]. f_equal.
Qed.

Lemma generate_block_settled weight s blocks arrivals b : 0 <= b → global s = b * TransactionsPerBlock c →
  settled w (generate_block patience c initial samplers weight (s, blocks, arrivals) b) (λ x,
    global x.1.1 = (b + 1) * TransactionsPerBlock c ∧
    x.2 = arrivals ++ (arrival (TransactionsPerBlock c) b <$> seqZ 0 (TransactionsPerBlock c)) ∧
    ∃ txs, x.1.2 = blocks ++ [MkBlock (blockID b) (u64 b) txs] ∧ Z.of_nat (length txs) = TransactionsPerBlock c ∧
      (∀ tx, tx ∈ txs → transaction_ok tx) ∧ ∀ (t : nat) tx, txs !! t = Some tx → tx_named b (Z.of_nat t) tx).
Proof.
  intros Hb Hg. unfold generate_block. destruct (ac_counts _ Ha) as (_ & HT & _). set (T := TransactionsPerBlock c) in *.
  eapply settled_bind; [apply (settled_fold _ _ (λ pre x, global x.1.1 = b * T + Z.of_nat (length pre) ∧
    x.2 = arrivals ++ (arrival T b <$> seqZ 0 (Z.of_nat (length pre))) ∧ length x.1.2 = length pre ∧
    (∀ tx, tx ∈ x.1.2 → transaction_ok tx) ∧ ∀ (t : nat) tx, x.1.2 !! t = Some tx → tx_named b (Z.of_nat t) tx))|].
  - cbn. split_and!; [lia|by rewrite app_nil_r|done|by intros tx ?%elem_of_nil|done].
  - intros pre t [[s1 txs] arr] Hpre (H1 & H2 & H3 & H4 & H5). cbn [fst snd] in *.
    assert (t = Z.of_nat (length pre)) as ->.
    { destruct Hpre as [rest Hpre]. assert (seqZ 0 T !! length pre = Some t) as Hl.
      { rewrite Hpre. rewrite <- app_assoc, lookup_app_r, Nat.sub_diag by lia. done. }
      apply lookup_seqZ in Hl as [-> _]. lia. }
    eapply settled_bind; [apply generate_transaction_settled; lia|]. intros [[s2 tx] a] (K1 & K2 & K3 & K4). cbn [fst snd] in *.
    cbn. rewrite !length_app. cbn. split_and!.
    + lia.
    + rewrite K4, H2, H1, <- app_assoc. f_equal. rewrite Nat2Z.inj_add. change (Z.of_nat 1) with 1.
      rewrite seqZ_snoc, fmap_app by lia. done.
    + lia.
    + intros tx' [Hin| ->%list_elem_of_singleton]%elem_of_app; [by apply H4|done].
    + intros t' tx' [Hl|[Hle Hl]]%lookup_app_Some; [by apply H5|].
      apply list_lookup_singleton_Some in Hl as [Hz <-]. assert (t' = length pre) as -> by lia. done.
  - rewrite length_seqZ, Z2Nat.id by lia. intros [[s1 txs] arr] (H1 & H2 & H3 & H4 & H5). cbn [fst snd] in *. cbn.
    split; [lia|]. split; [done|]. exists txs. split_and!; [done|rewrite H3; lia|done|done].
Qed.

Lemma blocks_settled weight s : global s = 0 →
  settled w (foldM (generate_block patience c initial samplers weight) (s, [], []) (seqZ 0 (BlockCount c)))
    (λ x, generated c x.1.2 x.2).
Proof.
  intros Hg. destruct (ac_counts _ Ha) as (HB & HT & _). set (T := TransactionsPerBlock c) in *.
  eapply settled_mono; [apply (settled_fold _ _ (λ pre x, global x.1.1 = Z.of_nat (length pre) * T ∧
    x.2 = seqZ 0 (Z.of_nat (length pre)) ≫= (λ b, arrival T b <$> seqZ 0 T) ∧ length x.1.2 = length pre ∧
    (∀ block, block ∈ x.1.2 → Z.of_nat (length (Transactions block)) = T ∧ ∀ tx, tx ∈ Transactions block → transaction_ok tx) ∧
    ∀ (b : nat) block, x.1.2 !! b = Some block → block_named (Z.of_nat b) block))|].
  - cbn. split_and!; [lia|done|done|by intros tx ?%elem_of_nil|done].
  - intros pre b [[s1 blocks] arr] Hpre (H1 & H2 & H3 & H4 & H5). cbn [fst snd] in *.
    assert (b = Z.of_nat (length pre)) as ->.
    { destruct Hpre as [rest Hpre]. assert (seqZ 0 (BlockCount c) !! length pre = Some b) as Hl.
      { rewrite Hpre. rewrite <- app_assoc, lookup_app_r, Nat.sub_diag by lia. done. }
      apply lookup_seqZ in Hl as [-> _]. lia. }
    eapply settled_mono; [apply generate_block_settled; [lia|done]|].
    intros [[s2 blocks2] arr2] (K1 & K2 & txs & K3 & K4 & K5 & K6). cbn [fst snd] in *. rewrite length_app. cbn [length]. split_and!.
    + rewrite K1. fold T. lia.
    + rewrite K2, H2, Nat2Z.inj_add. change (Z.of_nat 1) with 1. rewrite seqZ_snoc, bind_app by lia. cbn. by rewrite app_nil_r.
    + rewrite K3, length_app, H3. done.
    + rewrite K3. intros block [Hin| ->%list_elem_of_singleton]%elem_of_app; [by apply H4|by split].
    + rewrite K3. intros b block [Hl|[Hle Hl]]%lookup_app_Some; [by apply H5|].
      apply list_lookup_singleton_Some in Hl as [Hz <-]. assert (b = length pre) as -> by lia. by split.
  - rewrite length_seqZ, Z2Nat.id by lia. intros [[s1 blocks] arr] (H1 & H2 & H3 & H4 & H5). cbn [fst snd] in *.
    split; [rewrite H3; lia|done|done|done].
Qed.
End generation.

Lemma initial_values_settled `{R : Rand} {RL : RandLaws R} w c r : 0 <= InitialKeys c →
  settled w (initial_values c r) (λ x, Z.of_nat (length x.2) = InitialKeys c ∧ ∀ v, v ∈ x.2 → 0 <= v < 10000).
Proof.
  intros Hk. unfold initial_values.
  eapply settled_mono; [apply (settled_fold _ _ (λ pre x, length x.2 = length pre ∧ ∀ v, v ∈ x.2 → 0 <= v < 10000))|].
  - split; [done|]. by intros v ?%elem_of_nil.
  - intros pre i [r1 values] _ [H1 H2]. cbn [snd] in *. eapply settled_bind; [by apply Intn_settled|].
    intros [r2 v] Hv. cbn [snd] in *. cbn. rewrite !length_app, H1. split; [done|].
    intros v' [Hin| ->%list_elem_of_singleton]%elem_of_app; [by apply H2|done].
  - rewrite length_seqZ. intros x [H1 H2]. split; [rewrite H1; lia|done].
Qed.
