(* ===== verification/GeneratorProps.v ===== *)
(** * What the workload generator promises

    An accepted configuration yields an accepted artifact; every transaction of
    it fits its budget whatever branches it takes. *)

From Stdlib Require Import ZArith Lia String.
From Stdlib Require Import Strings.Byte.
From S2P Require Import Prelude Float64 Format Encoding Model State Plan Runtime Workload Generator GeneratorFacts.
Local Open Scope Z_scope.

(** ** Forward programs stay within their budget *)

Section budget.
Context {B : Type} `{!Base B} {H : Type} (hooks : RuntimeHooks H) (execution : TxContext) (tx : Transaction).
Abbreviation p := (Instructions (tx_Program tx)).
Abbreviation mach := (machine (B:=B) (H:=H)).

(** An instruction that goes on moves to the next one or to its target; one
    that ends the run does not run out of gas. *)
Definition moves (m : mach) (i : Instruction) (e : step_end (B:=B) (H:=H)) : Prop :=
  match e with
  | (m', None) => tr_Status (m_result m') = "" ∧ UnitsUsed (m_result m') = UnitsUsed (m_result m) ∧
      (m_pc m' = m_pc m + 1 ∨ in_Op i = OpJumpIf ∧ m_pc m' = in_Target i)
  | (m', Some _) => tr_Status (m_result m') ≠ TxStatusOutOfGas
  end.

Lemma setEvaluationError_gas r code : tr_Status (setEvaluationError r code) ≠ TxStatusOutOfGas.
Proof. unfold setEvaluationError. cbn. by destruct (code =? _)%string. Qed.

Lemma moves_return (m m' : mach) i r : tr_Status r ≠ TxStatusOutOfGas → moves m i (return_ m' r).
Proof. done. Qed.

Lemma moves_next (m m' : mach) i : tr_Status (m_result m') = "" → UnitsUsed (m_result m') = UnitsUsed (m_result m) →
  m_pc m' = m_pc m → moves m i (continue_at m' (m_pc m' + 1)).
Proof. intros Hs Hu Hpc. split; [done|]. split; [done|]. left. cbn. by rewrite Hpc. Qed.

Lemma moves_hook (m m' : mach) i call k : tr_Status (m_result m') = "" →
  (∀ h, moves m i (k (put_hooks m' h))) → moves m i (after_hook m' call k).
Proof. intros Hs Hk. unfold after_hook. destruct call; [apply Hk|cbn; by rewrite Hs..]. Qed.

Lemma dispatch_moves (m : mach) i n : tr_Status (m_result m) = "" → validate_instruction n i = "" →
  moves m i (dispatch hooks execution tx m i).
Proof.
  intros Hs Hv. pose proof setEvaluationError_gas as He. unfold dispatch.
  destruct (String.eqb_spec (in_Op i) OpRead) as [E1|E1].
  { unfold do_read. apply moves_hook; [done|]. intros h. destruct (ov_Get _ _) as [[view raw]| |]; [|cbn; by rewrite Hs..].
    cbv zeta. destruct (match raw with Some _ => _ | None => _ end) as [? []]; cbn [negb]; [by apply moves_next|by apply moves_return]. }
  destruct (String.eqb_spec (in_Op i) OpWrite) as [E2|E2].
  { unfold do_write. apply moves_hook; [done|]. intros h. destruct (evaluateExpression _ _) as [value code].
    destruct (code =? "")%string; cbn [negb]; [by apply moves_next|apply moves_return, He]. }
  destruct (String.eqb_spec (in_Op i) OpDelete) as [E3|E3].
  { unfold do_delete. apply moves_hook; [done|]. intros h. by apply moves_next. }
  destruct (String.eqb_spec (in_Op i) OpCompute) as [E4|E4].
  { unfold do_compute. destruct (compute_loop _ _ _ _ _) as [[? ?] []]; [by apply moves_return|by apply moves_next]. }
  destruct (String.eqb_spec (in_Op i) OpFailIf) as [E5|E5].
  { unfold do_fail_if. destruct (evaluateCondition _ _) as [matched code]. destruct (code =? "")%string; cbn [negb]; [|apply moves_return, He].
    destruct matched; [by apply moves_return|by apply moves_next]. }
  destruct (String.eqb_spec (in_Op i) OpJumpIf) as [E6|E6].
  { unfold do_jump_if. destruct (evaluateCondition _ _) as [matched code]. destruct (code =? "")%string; cbn [negb]; [|apply moves_return, He].
    apply moves_hook; [done|]. intros h. destruct matched; [|by apply moves_next]. split; [done|]. split; [done|]. by right. }
  destruct (String.eqb_spec (in_Op i) OpReturn) as [E7|E7].
  { unfold do_return. destruct (evaluateExpression _ _) as [value code].
    destruct (code =? "")%string; cbn [negb]; [by apply moves_return|apply moves_return, He]. }
  exfalso. unfold validate_instruction in Hv.
  apply String.eqb_neq in E1, E2, E3, E4, E5, E6, E7. by rewrite E1, E2, E3, E4, E5, E6, E7 in Hv.
Qed.

Context (Hok : transaction_ok tx).

(** The most that can have been spent before index [pc]. *)
Definition spent (pc : Z) : Z := pc + total_units (take (Z.to_nat pc) p).

Lemma total_units_nonneg l : (∀ x, x ∈ l → x ∈ p) → 0 <= total_units l.
Proof.
  induction l as [|x l IH]; intros Hl; [done|]. change (0 <= in_ComputeUnits x + total_units l).
  destruct (tt_instructions _ (tk_typed _ Hok) x) as [_ _ [Hx _]]; [apply Hl; by left|].
  assert (0 <= total_units l); [apply IH; intros y Hy; apply Hl; by right|lia].
Qed.

Lemma spent_mono pc pc' : 0 <= pc → pc <= pc' → spent pc <= spent pc'.
Proof.
  intros H0 Hle. unfold spent. replace (Z.to_nat pc') with (Z.to_nat pc + (Z.to_nat pc' - Z.to_nat pc))%nat by lia.
  rewrite <- take_take_drop, total_units_app.
  assert (0 <= total_units (take (Z.to_nat pc' - Z.to_nat pc) (drop (Z.to_nat pc) p))); [|lia].
  apply total_units_nonneg. intros x Hx. apply (subseteq_drop (Z.to_nat pc)). by eapply subseteq_take.
Qed.

Lemma spent_step pc i : 0 <= pc → at_index p pc = Some i → spent (pc + 1) = spent pc + 1 + in_ComputeUnits i.
Proof.
  intros H0 Hi. apply at_index_lookup in Hi; [|done]. unfold spent.
  replace (Z.to_nat (pc + 1)) with (S (Z.to_nat pc)) by lia. rewrite (take_S_r _ _ _ Hi), total_units_app. cbn. lia.
Qed.

Lemma spent_end : spent (Z.of_nat (length p)) = MaxUnits tx.
Proof. unfold spent. rewrite Nat2Z.id, take_ge by lia. symmetry. apply Hok. Qed.

Record in_budget (m : mach) : Prop := {
  ib_pc : 0 <= m_pc m;
  ib_status : tr_Status (m_result m) = "";
  ib_units : 0 <= UnitsUsed (m_result m) <= spent (m_pc m);
}.

Lemma cost_bound i : i ∈ p → ∃ cost, instructionCost i = (cost, false) ∧ 1 <= cost <= 1 + in_ComputeUnits i.
Proof.
  intros Hi. destruct (tt_instructions _ (tk_typed _ Hok) i Hi) as [_ _ [Hu _]]. unfold instructionCost.
  assert (in_ComputeUnits i < maxUint64) as Hm.
  { pose proof (tt_units _ (tk_typed _ Hok)) as [_ Hmax]. rewrite (tk_budget _ Hok) in Hmax.
    apply list_elem_of_split in Hi as (l1 & l2 & E). rewrite E, length_app, total_units_app in Hmax.
    change (total_units (i :: l2)) with (in_ComputeUnits i + total_units l2) in Hmax. cbn [length] in Hmax.
    pose proof (total_units_nonneg l1). pose proof (total_units_nonneg l2).
    assert (0 <= total_units l1 ∧ 0 <= total_units l2) as [? ?].
    { split; [apply H0|apply H1]; intros x Hx; rewrite E; apply elem_of_app; [by left|right; by right]. }
    unfold maxUint64. change W64 with (2 ^ 64) in Hmax. lia. }
  destruct (negb _); [exists 1; split; [done|lia]|]. rewrite (proj2 (Z.eqb_neq _ _)) by lia.
  eexists. split; [done|]. rewrite u64_id; [lia|]. unfold u64_range, maxUint64 in *. change W64 with (2 ^ 64). lia.
Qed.

Lemma step_in_budget m : in_budget m →
  match step hooks execution tx m with
  | (m', None) => in_budget m'
  | (m', Some _) => tr_Status (m_result m') ≠ TxStatusOutOfGas
  end.
Proof.
  intros [Hpc Hs Hu]. unfold step. assert (tr_Status (m_result m) ≠ TxStatusOutOfGas) as Hg by (by rewrite Hs).
  destruct (Z.leb_spec (Z.of_nat (length p)) (m_pc m)) as [|Hlt]; [done|].
  destruct (poll (m_ctx m)) as [ctx []]; [done|]. cbv zeta. cbn [m_pc m_result put_ctx].
  destruct (at_index p (m_pc m)) as [i|] eqn:Ei; [|done].
  assert (i ∈ p) as Hin by (apply at_index_lookup in Ei; [by eapply list_elem_of_lookup_2|done]).
  destruct (cost_bound i Hin) as (cost & -> & Hc). cbn [orb].
  pose proof (spent_step _ _ Hpc Ei) as Hstep.
  pose proof (spent_mono (m_pc m + 1) (Z.of_nat (length p)) ltac:(lia) ltac:(lia)) as Hend. rewrite spent_end in Hend.
  pose proof (tt_units _ (tk_typed _ Hok)) as Hmax. unfold u64_range in Hmax.
  rewrite (u64_id (_ - _)) by (unfold u64_range; lia).
  destruct (Z.ltb_spec (MaxUnits tx - UnitsUsed (m_result m)) cost); [lia|].
  rewrite (u64_id (_ + cost)) by (unfold u64_range; lia).
  set (m1 := put_result (put_ctx m ctx) _).
  pose proof (dispatch_moves m1 i _ Hs (Validate_instructions tx (tk_valid _ Hok) i Hin)) as Hd.
  destruct (dispatch hooks execution tx m1 i) as [m2 [c|]]; [done|]. destruct Hd as (H1 & H2 & H3). cbn in H2, H3.
  assert (m_pc m + 1 <= m_pc m2) as Hnext.
  { destruct H3 as [->|[Hop ->]]; [lia|]. apply at_index_lookup in Ei; [|done].
    pose proof (tk_forward _ Hok _ _ Ei Hop). lia. }
  pose proof (spent_mono (m_pc m + 1) (m_pc m2) ltac:(lia) Hnext). split; [lia|done|]. rewrite H2. lia.
Qed.

Lemma loop_in_budget fuel m : in_budget m → tr_Status (m_result (loop hooks execution tx fuel m).1) ≠ TxStatusOutOfGas.
Proof.
  revert m. induction fuel as [|fuel IH]; intros m Hm; cbn [loop fst]; [by rewrite (ib_status _ Hm)|].
  pose proof (step_in_budget m Hm) as Hs. destruct (step hooks execution tx m) as [m1 [c|]]; [done|]. by apply IH.
Qed.
End budget.

Lemma ExecuteWithHooks_in_budget {B} `{!Base B} {H} (hooks : RuntimeHooks H) ctx execution tx (view : Overlay B) h :
  transaction_ok tx → tr_Status (m_result (ExecuteWithHooks hooks ctx execution tx view h).1) ≠ TxStatusOutOfGas.
Proof.
  intros Hok. unfold ExecuteWithHooks. cbv zeta. destruct (poll ctx) as [ctx' []]; [done|].
  rewrite (tk_valid _ Hok). cbn [negb String.eqb]. apply loop_in_budget; [done|]. by split.
Qed.

(** ** Properties *)

(** [json.Marshal] of an accepted configuration, which holds no infinity and no
    NaN, is a JSON text. *)
Class ConfigJsonLaws (J : Json) (CJ : ConfigJson) :=
  Marshal_accepted c : validateConfig c = None → ∃ d, Marshal_config c = Some d ∧ d ≠ [] ∧ json_Valid d = true.

Section properties.
Context {R : Rand} {RL : RandLaws R} {P : MathPow} {J : Json} {CJ : ConfigJson} {CL : ConfigJsonLaws J CJ}.

Lemma Generate_settled (w : Prop) patience c :
  validateConfig c = None → config_typed c → InitialKeys c <= 10 ^ 8 → BlockCount c * TransactionsPerBlock c < 2 ^ 63 →
  (∀ tx r count, tx ∈ Mix c → 0 <= count <= KeySpace c →
    settled w (sample_keys patience (newKeySampler (KeySpace c) (tc_Access tx)) r count)
      (λ x, sampled (newKeySampler (KeySpace c) (tc_Access tx)) count x.2)) →
  settled w (Generate patience c) (λ x, x.2 = None ∧ artifact_wf x.1 ∧
    generated c (a_OrderedBlocks x.1) (a_LogicalArrivalSchedule x.1)).
Proof.
  intros Hv Ht Hk Hn Hserve. unfold Generate. rewrite Hv. destruct (Marshal_accepted c Hv) as (d & -> & Hd & Hj).
  apply validateConfig_accepted in Hv as Ha. pose proof (ac_keys _ Ha).
  eapply settled_bind; [apply initial_values_settled; lia|]. intros [r initial] [Hl Hi]. cbn [fst snd] in *. cbv zeta.
  eapply settled_bind; [by apply (blocks_settled w patience c initial Ha Ht Hk Hl Hi Hserve)|].
  intros [[s blocks] arrivals] Hg. cbn [fst snd] in *.
  assert (artifact_wf (MkArtifact ArtifactSchemaVersion (MkGeneratorDescriptor GeneratorName GeneratorVersion (c_Seed c) d)
    (imap (λ i v, MkStateEntry (stateKey (Z.of_nat i)) (EncodeInt64 v)) initial) blocks arrivals [])) as Hwf
    by (by apply generated_wf; [|lia|..]).
  cbn [mbind outcome_bind settled fst snd a_OrderedBlocks a_LogicalArrivalSchedule].
  by rewrite (proj2 (artifact_Validate_wf _) Hwf).
Qed.

Lemma sampler_accepted c tx : validateConfig c = None → tx ∈ Mix c → sampler_ok (newKeySampler (KeySpace c) (tc_Access tx)).
Proof.
  intros Ha%validateConfig_accepted Hin. apply (newKeySampler_ok c [] (ac_keys _ Ha)). by apply accepted_template.
Qed.

(** C29: An accepted configuration of at most 10^8 keys never makes the generator
    fail: no index, slice or range of a draw is out of bounds, the split of a
    transaction's units between prefix and suffix stays within them whatever
    the rounding, and the artifact passes [Validate] — all identifiers
    different, the initial state sorted — with the configured number of blocks
    and transactions.  The only other outcome is to be still sampling distinct
    keys; with uniform access that cannot be once [patience] exceeds the number
    of keys times the number of draws within which every value appears. *)
Theorem Generate_valid patience c :
  validateConfig c = None → config_typed c → InitialKeys c <= 10 ^ 8 → BlockCount c * TransactionsPerBlock c < 2 ^ 63 →
  match Generate patience c with
  | Returns (a, e) => e = None ∧ artifact_wf a ∧ generated c (a_OrderedBlocks a) (a_LogicalArrivalSchedule a)
  | Panics => False
  | Waits => ¬ ((∀ tx, tx ∈ Mix c → uniform (tc_Access tx)) ∧
      ∃ bound, draws_within (KeySpace c) bound ∧ (Z.to_nat (KeySpace c) * bound < patience)%nat)
  end.
Proof.
  intros Hv Ht Hk Hn. pose proof (Generate_settled True patience c Hv Ht Hk Hn) as H1.
  pose proof (Generate_settled False patience c Hv Ht Hk Hn) as H2.
  destruct (Generate patience c) as [[a e]| |]; [apply H1|apply H1|].
  - intros tx r count Hin Hc. apply sample_keys_settled; [by apply sampler_accepted|lia].
  - intros tx r count Hin Hc. apply sample_keys_settled; [by apply sampler_accepted|lia].
  - intros (Hu & bound & Hd & Hp). apply H2. intros tx r count Hin Hc.
    apply (sample_keys_uniform (KeySpace c) bound Hd); [by apply sampler_accepted|by apply Hu|done|done|done].
Qed.

(** C30: A generated transaction fits its budget.  Whatever the generator returned
    for an accepted configuration, each of its programs passes the runtime's
    validation, and executing it — over any state, with any policy hooks and
    whichever arms its branches take — never runs out of gas. *)
Theorem generated_within_budget patience c a block tx {B} `{!Base B} {H} (hooks : RuntimeHooks H) ctx execution
    (view : Overlay B) h :
  validateConfig c = None → config_typed c → InitialKeys c <= 10 ^ 8 → BlockCount c * TransactionsPerBlock c < 2 ^ 63 →
  Generate patience c = Returns (a, None) → block ∈ a_OrderedBlocks a → tx ∈ Transactions block →
  Validate tx = "" ∧
  tr_Status (m_result (ExecuteWithHooks hooks ctx execution tx view h).1) ≠ TxStatusOutOfGas.
Proof.
  intros Hv Ht Hk Hn E Hblock Htx.
  pose proof (Generate_settled True patience c Hv Ht Hk Hn) as Hs. rewrite E in Hs.
  destruct Hs as (_ & _ & Hg).
  { intros tx' r count Hin Hc. apply sample_keys_settled; [by apply sampler_accepted|lia]. }
  destruct (ge_transactions _ _ _ Hg block Hblock) as [_ Hall]. specialize (Hall tx Htx).
  split; [apply Hall|by apply ExecuteWithHooks_in_budget].
Qed.
End properties.

(** ** A small workload *)

Section witnesses.
(** A stream that counts: every range is covered in turn. *)
#[local] Instance counting : Rand := {|
  rng := Z;
  rand_New := λ seed, seed;
  rand_Intn := λ r n, (r + 1, r mod n);
  rand_Int63n := λ r n, (r + 1, r mod n);
  rand_Float64 := λ r, (r + 1, fdiv (float_of (r mod 4)) (float_of 4));
|}.
#[local] Instance counting_laws : RandLaws counting.
Proof. split; intros r n Hn; by apply Z.mod_pos_bound. Qed.
#[local] Instance sample_pow : MathPow := λ _ _, f1.
#[local] Instance sample_json : Json := {|
  json_Valid := λ _, true;
  Marshal_artifact := λ _, None; Decode_artifact := λ _, None; Decode_any := λ _, JSONEnd;
  Marshal_input := λ _, None; Unmarshal_input := λ _, None;
|}.
#[local] Instance sample_config_json : ConfigJson := λ _, Some [Byte.x7b; Byte.x7d].
#[local] Instance sample_config_json_laws : ConfigJsonLaws sample_json sample_config_json.
Proof. intros c _. by exists [Byte.x7b; Byte.x7d]. Qed.

Lemma counting_draws limit : draws_within limit (Z.to_nat limit).
Proof.
  intros r n v Hv Hn. exists (Z.to_nat ((v - r) mod n)).
  pose proof (Z.mod_pos_bound (v - r) n ltac:(lia)). split; [lia|].
  assert (∀ j, after j r n = r + Z.of_nat j) as Hafter.
  { induction j as [|j IH]; [cbn; lia|]. change (after (S j) r n) with (after j r n + 1). rewrite IH. lia. }
  rewrite Hafter, Z2Nat.id by lia. cbn. rewrite Zplus_mod_idemp_r. replace (r + (v - r)) with v by lia. by apply Z.mod_small.
Qed.

(** Two blocks of two transactions: increments of two keys out of three reads,
    and a branch on a read-only key; every third transaction fails on purpose. *)
Definition uniform_access : AccessConfig := MkAccessConfig "uniform" 0 f0 f0.
Definition quarter : ComputeConfig := MkComputeConfig 4 10 (fdiv (float_of 1) (float_of 4)).
Definition small_config : Config := MkConfig 7 6 4 2 2 3
  [MkTransactionConfig f1 TemplateRMW 3 2 0 0 uniform_access quarter;
   MkTransactionConfig f1 TemplateBranch 0 0 0 0 uniform_access quarter].

Lemma small_config_typed : config_typed small_config.
Proof.
  split; intros tx Hin; cbn in Hin; repeat (apply elem_of_cons in Hin as [->|Hin]; [vm_compute; done|]);
    by apply elem_of_nil in Hin.
Qed.

Definition small_artifact : Artifact := match Generate 17 small_config with Returns (a, _) => a | _ => zeroArtifact end.

Lemma small_artifact_returned : Generate 17 small_config = Returns (small_artifact, None).
Proof. vm_compute. reflexivity. Qed.

Lemma Generate_valid_witness :
  artifact_wf small_artifact ∧
  ((λ b, tx_ID <$> Transactions b) <$> a_OrderedBlocks small_artifact =
    [["tx-000000-000000"; "tx-000000-000001"]; ["tx-000001-000000"; "tx-000001-000001"]]%string) ∧
  ¬ (Generate 17 small_config = Waits).
Proof.
  pose proof (Generate_valid 17 small_config) as H. rewrite small_artifact_returned in H.
  split; [|split; [vm_compute; reflexivity|by rewrite small_artifact_returned]].
  apply H; [vm_compute; reflexivity|apply small_config_typed|vm_compute; discriminate|vm_compute; reflexivity].
Defined.

Definition small_block : Block := default (MkBlock "" 0 []) (a_OrderedBlocks small_artifact !! 0%nat).
Definition small_transaction : Transaction := default (MkTransaction "" 0 (MkProgram [])) (Transactions small_block !! 0%nat).

Lemma generated_within_budget_witness :
  MaxUnits small_transaction = 17 ∧
  Validate small_transaction = "" ∧
  tr_Status (m_result (ExecuteWithHooks RuntimeDefaults background (MkTxContext "b" "" 0 0 0) small_transaction
    (NewOverlay (st_Reader New)) tt).1) ≠ TxStatusOutOfGas.
Proof.
  split; [vm_compute; reflexivity|].
  apply (generated_within_budget 17 small_config small_artifact small_block small_transaction).
  - vm_compute. reflexivity.
  - apply small_config_typed.
  - vm_compute. discriminate.
  - vm_compute. reflexivity.
  - apply small_artifact_returned.
  - apply (list_elem_of_lookup_2 _ 0). vm_compute. reflexivity.
  - apply (list_elem_of_lookup_2 _ 0). vm_compute. reflexivity.
Defined.
End witnesses.

(** ** Sampling that does not end *)

Lemma draw_unseen_stuck `{R : Rand} {RL : RandLaws R} patience r start size seen : 0 < size →
  (∀ k, start <= k < start + size → k ∈ seen) → draw_unseen patience r start size seen = Waits.
Proof.
  intros Hs Hk. revert r. induction patience as [|patience IH]; intros r; cbn [draw_unseen]; [done|].
  unfold Intn. destruct (Z.leb_spec size 0); [lia|]. cbn [mbind outcome_bind]. pose proof (Intn_range r size Hs) as Hr.
  destruct (rand_Intn r size) as [r' k]. cbn in Hr. rewrite bool_decide_eq_true_2 by (apply Hk; lia). apply IH.
Qed.

Section stuck.
(** A stream whose fractions are 3/4 and whose integers are 0. *)
#[local] Instance steady : Rand := {|
  rng := unit;
  rand_New := λ _, tt;
  rand_Intn := λ r _, (r, 0);
  rand_Int63n := λ r _, (r, 0);
  rand_Float64 := λ r, (r, fdiv (float_of 3) (float_of 4));
|}.
#[local] Instance steady_laws : RandLaws steady.
Proof. split; intros r n Hn; cbn; lia. Qed.
#[local] Instance steady_pow : MathPow := λ _ _, f1.

(** The least positive probability. *)
Definition tiny : float64 := S754_finite false 1 (-1074).
Definition tiny_access : AccessConfig := MkAccessConfig "hotspot" 1 tiny f0.
Definition tiny_config : Config := MkConfig 0 2 2 1 1 0
  [MkTransactionConfig f1 TemplateRMW 2 0 0 0 tiny_access (MkComputeConfig 0 0 f0)].

(** One hot key, one cold key, two to be read: accepted, but once the cold key is
    taken the product [u * h] rounds to [h], the cold range is chosen again, and
    every draw from it has been seen. *)
Lemma hotspot_stuck patience r :
  validateConfig tiny_config = None ∧ sample_keys patience (newKeySampler 2 tiny_access) r 2 = Waits.
Proof.
  split; [vm_compute; reflexivity|]. destruct r. unfold sample_keys. cbn [Z.ltb Z.compare].
  destruct patience as [|[|patience]]; [done|vm_compute; reflexivity|].
  assert (∀ n seen, draw_key n (newKeySampler 2 tiny_access) tt 1 seen 0 = ('(r, k) ← draw_unseen n tt 1 1 seen; Returns (r, k, 0))) as Hcold.
  { intros n seen. unfold draw_key. cbn [newKeySampler ks_access ks_size tiny_access ac_Kind HotKeys HotProbability rand_Float64 steady].
    change (("hotspot" =? "hotspot")%string) with true. cbv iota.
    match goal with |- context [flt ?a ?b] => assert (flt a b = false) as -> by (vm_compute; reflexivity) end. done. }
  assert (∀ n, draw_key (S n) (newKeySampler 2 tiny_access) tt 0 ∅ 0 = Returns (tt, 1, 0)) as Hfirst by (intros n; vm_compute; reflexivity).
  cbn [keys_loop length app]. change (Z.of_nat 0 <? 2) with true. cbv iota. rewrite Hfirst. cbn [mbind outcome_bind].
  rewrite bool_decide_eq_false_2 by set_solver. cbn [keys_loop length app]. change (Z.of_nat 1 <? 2) with true. cbv iota.
  rewrite Hcold, (draw_unseen_stuck _ _ 1 1); [done|lia|]. intros k Hk. assert (k = 1) as -> by lia. set_solver.
Qed.
End stuck.
