(* ===== verification/Control.v ===== *)
(** * internal/control: events, decisions and the trace recorder

    Events, actions and modes are the source's strings, in which any string
    can occur.  A [Recorder] is what its mutexes and atomics protect; each of
    its methods is one critical section per call. *)

From Stdlib Require Import ZArith Lia String.
From stdpp Require Import sorting.
From S2P Require Import Prelude Model Runtime.
Local Open Scope Z_scope.

(** ** Events (events.go) *)

Definition EventEpochStart : string := "EPOCH_START".
Definition EventBlockReady : string := "BLOCK_READY".
Definition EventTxAdmit : string := "TX_ADMIT".
Definition EventTxReady : string := "TX_READY".
Definition EventTaskReady : string := "TASK_READY".
Definition EventCallEnter : string := "CALL_ENTER".
Definition EventBranch : string := "BRANCH".
Definition EventBeforeRead : string := "BEFORE_READ".
Definition EventBeforeWrite : string := "BEFORE_WRITE".
Definition EventReadEstimate : string := "READ_ESTIMATE".
Definition EventConflict : string := "CONFLICT".
Definition EventValidationPoint : string := "VALIDATION_POINT".
Definition EventTxEnd : string := "TX_END".
Definition EventSubtxEnd : string := "SUBTX_END".
Definition EventValidationFail : string := "VALIDATION_FAIL".
Definition EventReplayStart : string := "REPLAY_START".
Definition EventRetryLimit : string := "RETRY_LIMIT".
Definition EventWorkerIdle : string := "WORKER_IDLE".
Definition EventQueuePressure : string := "QUEUE_PRESSURE".

Definition TrustDeterministic : string := "D".
Definition TrustLocal : string := "L".
Definition TrustHint : string := "H".
Definition TrustSafety : string := "S".

Record EventDescriptor := MkDescriptor {
  ed_Event : string;
  ed_DispatchKey : string;
  ed_Hook : string;
  ed_ActionSchema : string;
  ed_TrustClass : string;
}.

Definition eventRegistry : list EventDescriptor := [
  MkDescriptor EventEpochStart "MacroPolicy.OnEpochStart" "OnEpochStart" "EpochDecision" TrustSafety;
  MkDescriptor EventBlockReady "MacroPolicy.OnBlockReady" "OnBlockReady" "BlockDecision" TrustDeterministic;
  MkDescriptor EventTxAdmit "TxPolicy.OnTxAdmit" "OnTxAdmit" "AdmissionDecision" TrustLocal;
  MkDescriptor EventTxReady "TxPolicy.OnTxReady" "OnTxReady" "AdmissionDecision" TrustLocal;
  MkDescriptor EventTaskReady "TxPolicy.OnTaskReady" "OnTaskReady" "SchedulingDecision" TrustLocal;
  MkDescriptor EventCallEnter "RuntimeHooks.OnCallEnter" "OnCallEnter" "CheckpointDecision" TrustHint;
  MkDescriptor EventBranch "RuntimeHooks.OnBranch" "OnBranch" "BranchDecision" TrustDeterministic;
  MkDescriptor EventBeforeRead "RuntimeHooks.BeforeRead" "BeforeRead" "AccessDecision" TrustHint;
  MkDescriptor EventBeforeWrite "RuntimeHooks.BeforeWrite" "BeforeWrite" "AccessDecision" TrustHint;
  MkDescriptor EventReadEstimate "TxPolicy.OnEstimateRead" "OnEstimateRead" "WaitDecision" TrustLocal;
  MkDescriptor EventConflict "TxPolicy.OnConflict" "OnConflict" "ConflictDecision" TrustLocal;
  MkDescriptor EventValidationPoint "RuntimeHooks.OnValidationPoint:POINT" "OnValidationPoint" "ValidationDecision" TrustSafety;
  MkDescriptor EventTxEnd "RuntimeHooks.OnValidationPoint:TX_END" "OnValidationPoint" "ValidationDecision" TrustSafety;
  MkDescriptor EventSubtxEnd "RuntimeHooks.OnValidationPoint:SUBTX_END" "OnValidationPoint" "ValidationDecision" TrustSafety;
  MkDescriptor EventValidationFail "RecoveryPolicy.OnValidationFail" "OnValidationFail" "RecoveryDecision" TrustSafety;
  MkDescriptor EventReplayStart "RecoveryPolicy.OnReplayStart" "OnReplayStart" "ReplayDecision" TrustSafety;
  MkDescriptor EventRetryLimit "TxPolicy.OnRetryLimit" "OnRetryLimit" "FallbackDecision" TrustSafety;
  MkDescriptor EventWorkerIdle "TxPolicy.OnWorkerIdle" "OnWorkerIdle" "ResourceDecision" TrustLocal;
  MkDescriptor EventQueuePressure "TxPolicy.OnQueuePressure" "OnQueuePressure" "ResourceDecision" TrustLocal
].

Definition EventRegistry : list EventDescriptor := eventRegistry.

Definition EventDescription (event : string) : option EventDescriptor :=
  findb (λ d, (ed_Event d =? event)%string) eventRegistry.

Definition registeredEvent (event : string) : bool :=
  existsb (λ d, (ed_Event d =? event)%string) eventRegistry.

Record EventCapability := MkCapability { ec_Event : string; ec_Supported : bool; ec_Reason : string }.

Record Capabilities := MkCapabilities { cp_Engine : string; cp_Events : list EventCapability }.

Inductive capability_error :=
| EngineNameRequired
| UnavailableWithoutReason (event : string)
| AvailableWithReason (event : string)
| UnknownCapabilityEvent
| UnknownUnavailableEvent.

(** The loop over the registry; a missing key of a map reads as its zero value. *)
Fixpoint capability_loop (supported : gmap string bool) (reasons : gmap string string)
    (l : list EventDescriptor) : capability_error + list EventCapability :=
  match l with
  | [] => inr []
  | d :: l =>
      let available := default false (supported !! ed_Event d) in
      let reason := default ""%string (reasons !! ed_Event d) in
      if negb available && (reason =? "")%string then inl (UnavailableWithoutReason (ed_Event d))
      else if available && negb (reason =? "")%string then inl (AvailableWithReason (ed_Event d))
      else match capability_loop supported reasons l with
      | inl e => inl e
      | inr rest => inr (MkCapability (ed_Event d) available reason :: rest)
      end
  end.

(** The unknown event named in an error is the first that [range] yields. *)
Definition NewCapabilities (engine : string) (supported : gmap string bool) (reasons : gmap string string)
    : capability_error + Capabilities :=
  if (engine =? "")%string then inl EngineNameRequired
  else match capability_loop supported reasons eventRegistry with
  | inl e => inl e
  | inr events =>
      if existsb (λ '(event, _), negb (registeredEvent event)) (map_to_list supported)
      then inl UnknownCapabilityEvent
      else if existsb (λ '(event, _), negb (registeredEvent event)) (map_to_list reasons)
      then inl UnknownUnavailableEvent
      else inr (MkCapabilities engine events)
  end.

Definition Lookup (c : Capabilities) (event : string) : option EventCapability :=
  findb (λ e, (ec_Event e =? event)%string) (cp_Events c).

(** ** Decisions (decisions.go) *)

Definition EpochKeepPolicy : string := "keep_policy".
Definition BlockUseFullWindow : string := "full_block_window".
Definition LaneSerial : string := "serial".
Definition LaneOptimistic : string := "optimistic".
Definition WaitModeNone : string := "none".
Definition WaitLogicalPredecessor : string := "logical_predecessor".
Definition ConflictValidate : string := "validate".
Definition SchedulingFIFO : string := "fifo".
Definition FallbackSerial : string := "serial".
Definition ResourceSharedPool : string := "shared_pool".
Definition AccessExecute : string := "execute".
Definition BranchEvaluateActual : string := "evaluate_actual".
Definition CheckpointDisabled : string := "disabled".
Definition ValidationMandatoryFinal : string := "mandatory_final".
Definition RecoveryWholeTransaction : string := "whole_transaction".
Definition ReplayReexecute : string := "reexecute".

Definition ValidationExplicit : string := "VALIDATION_POINT".
Definition ValidationTxEnd : string := "TX_END".
Definition ValidationSubtxEnd : string := "SUBTX_END".

Record EpochContext := MkEpochContext { ep_EpochID : string }.
Record BlockContext := MkBlockContext { bk_BlockID : string; bk_Height : Z; bk_TransactionCount : Z }.
Record TaskContext := MkTaskContext { tk_Tx : TxContext; tk_Kind : string }.
Record ConflictContext := MkConflictContext { cc_Tx : TxContext; cc_BlockingTxIndex : Z; cc_Key : Bytes }.
Record RetryContext := MkRetryContext { rc_Tx : TxContext; rc_RetryCount : Z }.
Record ResourceContext := MkResourceContext { rs_BlockID : string; rs_Worker : Z; rs_Depth : Z; rs_Ordinal : Z }.
Record CallContext := MkCallContext { cl_Tx : TxContext; cl_CallID : string; cl_Path : string }.
Record ValidationContext := MkValidationContext { vc_Tx : TxContext; vc_Kind : string; vc_TargetID : string }.
Record FailureContext := MkFailureContext { fc_Tx : TxContext; fc_Reason : string }.
Record ReplayContext := MkReplayContext { rp_Tx : TxContext; rp_Reason : string }.

(** ** The recorder (trace.go) *)

Definition TraceDetailed : string := "detailed".
Definition TraceCounters : string := "counters".
Definition TraceOff : string := "off".

Definition ValidTraceMode (mode : string) : bool :=
  (mode =? TraceDetailed)%string || (mode =? TraceCounters)%string || (mode =? TraceOff)%string.

Record EventRecord := MkRecord {
  er_Event : string;
  er_BlockID : string;
  er_TransactionID : string;
  er_TxIndex : Z;
  er_Incarnation : Z;
  er_Ordinal : Z;
  er_TargetID : string;
  er_Action : string;
  er_TrustClass : string;
  er_FeatureSource : string;
  er_ObservationVersion : string;
  er_PolicyTableVersion : string;
  er_DecisionDurationNS : Z;
}.

Record ActionCounter := MkCounter { ct_Event : string; ct_Action : string; ct_Count : Z }.

Definition knownCounters : list (string * string) := [
  (EventEpochStart, EpochKeepPolicy);
  (EventBlockReady, BlockUseFullWindow);
  (EventTxAdmit, LaneSerial);
  (EventTxAdmit, LaneOptimistic);
  (EventTxReady, LaneSerial);
  (EventTxReady, LaneOptimistic);
  (EventTaskReady, SchedulingFIFO);
  (EventCallEnter, CheckpointDisabled);
  (EventBranch, BranchEvaluateActual);
  (EventBeforeRead, AccessExecute);
  (EventBeforeWrite, AccessExecute);
  (EventReadEstimate, WaitModeNone);
  (EventReadEstimate, WaitLogicalPredecessor);
  (EventConflict, ConflictValidate);
  (EventValidationPoint, ValidationMandatoryFinal);
  (EventTxEnd, ValidationMandatoryFinal);
  (EventSubtxEnd, ValidationMandatoryFinal);
  (EventValidationFail, RecoveryWholeTransaction);
  (EventReplayStart, ReplayReexecute);
  (EventRetryLimit, FallbackSerial);
  (EventWorkerIdle, ResourceSharedPool);
  (EventQueuePressure, ResourceSharedPool)
].

Definition knownCounterCount : nat := 22.

Record Recorder := MkRecorder {
  rd_mode : string;
  rd_records : list EventRecord;
  rd_counters : list Z;
  rd_decisionDurationNS : Z;
  rd_unknownCounters : gmap (string * string) ActionCounter;
}.

Definition effective_mode (mode : string) : string := if ValidTraceMode mode then mode else TraceDetailed.

Definition NewRecorder (mode : string) : Recorder :=
  MkRecorder (effective_mode mode) [] (replicate knownCounterCount 0) 0 ∅.

Definition Mode (r : Recorder) : string := effective_mode (rd_mode r).

(** Index of the first element with a property, the way the loops search. *)
Fixpoint index_of {A} (p : A → bool) (l : list A) : option nat :=
  match l with
  | [] => None
  | x :: l => if p x then Some O else match index_of p l with Some i => Some (S i) | None => None end
  end.

Definition knownCounterIndex (event action : string) : option nat :=
  index_of (λ '(e, a), (e =? event)%string && (a =? action)%string) knownCounters.

Definition eventRank (event : string) : Z :=
  match index_of (λ d, (ed_Event d =? event)%string) eventRegistry with
  | Some i => Z.of_nat i
  | None => Z.of_nat (length eventRegistry)
  end.

Definition incrementCounter (counters : gmap (string * string) ActionCounter) (record : EventRecord)
    : gmap (string * string) ActionCounter :=
  let key := (er_Event record, er_Action record) in
  let counter := default (MkCounter "" "" 0) (counters !! key) in
  <[key := MkCounter (er_Event record) (er_Action record) (u64 (ct_Count counter + 1))]> counters.

Definition Record_event (r : Recorder) (record : EventRecord) : Recorder :=
  let mode := effective_mode (rd_mode r) in
  if (mode =? TraceOff)%string then r else
  let '(counters, unknown) :=
    match knownCounterIndex (er_Event record) (er_Action record) with
    | Some index => (alter (λ c, u64 (c + 1)) index (rd_counters r), rd_unknownCounters r)
    | None => (rd_counters r, incrementCounter (rd_unknownCounters r) record)
    end in
  MkRecorder (rd_mode r) (if (mode =? TraceDetailed)%string then rd_records r ++ [record] else rd_records r)
    counters (u64 (rd_decisionDurationNS r + er_DecisionDurationNS record)) unknown.

(** Go compares strings by their bytes. *)
Definition string_ltb (a b : string) : bool :=
  bytes_ltb (String.list_byte_of_string a) (String.list_byte_of_string b).

(** The comparison function of [Snapshot]. *)
Definition record_less (left right : EventRecord) : bool :=
  if negb (er_BlockID left =? er_BlockID right)%string then string_ltb (er_BlockID left) (er_BlockID right)
  else if (er_TransactionID left =? "")%string && negb (er_TransactionID right =? "")%string then true
  else if negb (er_TransactionID left =? "")%string && (er_TransactionID right =? "")%string then false
  else if negb (er_TxIndex left =? er_TxIndex right) then er_TxIndex left <? er_TxIndex right
  else if negb (er_Incarnation left =? er_Incarnation right) then er_Incarnation left <? er_Incarnation right
  else if negb (er_Ordinal left =? er_Ordinal right) then er_Ordinal left <? er_Ordinal right
  else if negb (eventRank (er_Event left) =? eventRank (er_Event right))
       then eventRank (er_Event left) <? eventRank (er_Event right)
  else if negb (er_TargetID left =? er_TargetID right)%string then string_ltb (er_TargetID left) (er_TargetID right)
  else string_ltb (er_Action left) (er_Action right).

(** [sort.SliceStable] *)
Fixpoint insert_stable {A} (less : A → A → bool) (x : A) (l : list A) : list A :=
  match l with
  | [] => [x]
  | y :: l => if less x y then x :: y :: l else y :: insert_stable less x l
  end.
Definition sort_stable {A} (less : A → A → bool) (l : list A) : list A :=
  foldl (λ sorted x, insert_stable less x sorted) [] l.

Definition Recorder_Snapshot (r : Recorder) : list EventRecord := sort_stable record_less (rd_records r).

Definition counter_less (a b : ActionCounter) : bool :=
  if negb (eventRank (ct_Event a) =? eventRank (ct_Event b))
  then eventRank (ct_Event a) <? eventRank (ct_Event b)
  else string_ltb (ct_Action a) (ct_Action b).

(** [sort.Slice] may leave equal elements in any order; this is one of them. *)
Definition sortCounters (values : list ActionCounter) : list ActionCounter := sort_stable counter_less values.

Definition counterSlice (counters : gmap (string * string) ActionCounter) : list ActionCounter :=
  sortCounters (snd <$> map_to_list counters).

Definition known_actions (counters : list Z) : list ActionCounter :=
  omap (λ '((event, action), count), if 0 <? count then Some (MkCounter event action count) else None)
    (zip knownCounters counters).

Definition Summary (r : Recorder) : list ActionCounter * list ActionCounter * Z :=
  let actions := sortCounters (known_actions (rd_counters r) ++ counterSlice (rd_unknownCounters r)) in
  (actions, filter (λ c, (ct_Event c =? EventRetryLimit)%string = true) actions, rd_decisionDurationNS r).

(** ** Traces *)

Record DependencyCounters := MkDependencyCounters {
  dc_Mode : string;
  dc_Source : string;
  dc_Representation : string;
  dc_RepresentationBuilder : string;
  dc_WaitPolicy : string;
  dc_EstimateInjection : string;
  dc_SourceAvailableAt : string;
  dc_SourceVersion : string;
  dc_AcquisitionDisposition : string;
  dc_InformationComplete : bool;
  dc_InformationExact : bool;
  dc_AcquisitionMeasured : bool;
  dc_AcquisitionNS : Z;
  dc_AcquisitionUnits : Z;
  dc_AcquisitionBytes : Z;
  dc_StaticReadKeys : Z;
  dc_StaticWriteKeys : Z;
  dc_RepresentationMeasured : bool;
  dc_RepresentationNS : Z;
  dc_RepresentationBuildUnits : Z;
  dc_RepresentationLogicalBytes : Z;
  dc_RepresentationEntries : Z;
  dc_RepresentationMaxFanIn : Z;
  dc_DependencyEdges : Z;
  dc_SummaryEntries : Z;
  dc_EstimateBuildNS : Z;
  dc_EstimatedWriteLocations : Z;
  dc_EstimatedWriteKeyBytes : Z;
  dc_ResolutionMeasured : bool;
  dc_ResolutionNS : Z;
  dc_PlanLookups : Z;
  dc_TraversalSteps : Z;
  dc_WaitedExecutionAttempts : Z;
  dc_WaitEvents : Z;
  dc_WaitNS : Z;
  dc_PostGuidanceReexecutions : Z;
  dc_PostGuidanceReexecutionUnits : Z;
}.

Record KernelPolicyCounters := MkKernelPolicyCounters {
  kc_Applied : bool;
  kc_EstimateRead : string;
  kc_IdleWait : string;
  kc_Dispatch : string;
  kc_EstimateSuspends : Z;
  kc_EstimateSuspendNS : Z;
  kc_EstimateAborts : Z;
  kc_DispatchDeferrals : Z;
  kc_WorkerYields : Z;
  kc_PeakRunnableWorkers : Z;
  kc_IdleParks : Z;
  kc_ReadyQueueDispatches : Z;
}.

Record WorkCounters := MkWorkCounters {
  wk_ExecutionAttempts : Z;
  wk_ReexecutionAttempts : Z;
  wk_UsefulExecutionUnits : Z;
  wk_ReexecutedExecutionUnits : Z;
  wk_DiscardedExecutionUnits : Z;
  wk_SpeculationLimit : Z;
  wk_SpeculationLimitApplied : bool;
  wk_SpeculationTelemetryAvailable : bool;
  wk_PeakSpeculativeInflight : Z;
  wk_AdmissionStallEvents : Z;
  wk_AdmissionStallNS : Z;
  wk_Dependency : DependencyCounters;
  wk_KernelPolicy : KernelPolicyCounters;
}.

Record Trace := MkTrace {
  trace_Engine : string;
  trace_PolicyName : string;
  trace_PolicyVersion : string;
  trace_Mode : string;
  trace_Events : list EventRecord;
  trace_ActionCounters : list ActionCounter;
  trace_FallbackCounters : list ActionCounter;
  trace_PolicyDecisionDurationNS : Z;
  trace_WorkAvailable : bool;
  trace_Work : WorkCounters;
}.

(** The zero values. *)
Definition zeroDependencyCounters : DependencyCounters :=
  MkDependencyCounters "" "" "" "" "" "" "" "" "" false false false 0 0 0 0 0 false 0 0 0 0 0 0 0
    0 0 0 false 0 0 0 0 0 0 0 0.
Definition zeroKernelPolicyCounters : KernelPolicyCounters :=
  MkKernelPolicyCounters false "" "" "" 0 0 0 0 0 0 0 0.
Definition zeroWorkCounters : WorkCounters :=
  MkWorkCounters 0 0 0 0 0 0 false false 0 0 0 zeroDependencyCounters zeroKernelPolicyCounters.

(** The trace of a call that fails before there is a dispatcher. *)
Definition empty_trace (engine : string) : Trace := MkTrace engine "" "" "" [] [] [] 0 false zeroWorkCounters.

(** ** Orders as comparison functions *)

Class Comparison (A : Type) := cmp : A → A → comparison.

Class LawfulComparison (A : Type) `{!Comparison A} := {
  cmp_eq a b : cmp a b = Eq ↔ a = b;
  cmp_opp a b : cmp b a = CompOpp (cmp a b);
  cmp_lt_trans a b c : cmp a b = Lt → cmp b c = Lt → cmp a c = Lt;
}.

#[export] Instance Z_comparison : Comparison Z := Z.compare.
#[export] Instance Z_lawful : LawfulComparison Z.
Proof.
  split; unfold cmp, Z_comparison.
  - apply Z.compare_eq_iff.
  - intros. apply Z.compare_antisym.
  - intros a b c. rewrite !Z.compare_lt_iff. lia.
Qed.

#[export] Instance bool_comparison : Comparison bool := Bool.compare.
#[export] Instance bool_lawful : LawfulComparison bool.
Proof. split; [intros [] []|intros [] []|intros [] [] []]; done. Qed.

#[export] Instance string_comparison : Comparison string :=
  λ a b, bytes_compare (String.list_byte_of_string a) (String.list_byte_of_string b).
#[export] Instance string_lawful : LawfulComparison string.
Proof.
  split; unfold cmp, string_comparison.
  - intros a b. rewrite bytes_compare_eq. split; [|by intros ->].
    intros E. rewrite <- (String.string_of_list_byte_of_string a), E.
    apply String.string_of_list_byte_of_string.
  - intros. apply bytes_compare_antisym.
  - intros a b c. apply bytes_lt_trans.
Qed.

#[export] Instance prod_comparison {A B} `{Comparison A, Comparison B} : Comparison (A * B) :=
  λ x y, match cmp x.1 y.1 with Eq => cmp x.2 y.2 | c => c end.
#[export] Instance prod_lawful {A B} `{LawfulComparison A, LawfulComparison B} : LawfulComparison (A * B).
Proof.
  split; unfold cmp, prod_comparison.
  - intros [a b] [a' b']. cbn. destruct (cmp a a') eqn:E; rewrite ?cmp_eq in *; [naive_solver| |];
      (split; [done|]); intros [= <- <-]; by rewrite (proj2 (cmp_eq a a) eq_refl) in E.
  - intros [a b] [a' b']. cbn. rewrite (cmp_opp a a'). destruct (cmp a a'); cbn; [apply cmp_opp|done..].
  - intros [a b] [a' b'] [a'' b'']. cbn.
    destruct (cmp a a') eqn:E1; [apply cmp_eq in E1 as ->| |done].
    + destruct (cmp a' a''); [apply cmp_lt_trans|done..].
    + destruct (cmp a' a'') eqn:E2; [apply cmp_eq in E2 as <-; by rewrite E1| |done].
      by rewrite (cmp_lt_trans a a' a'' E1 E2).
Qed.

Definition is_lt (c : comparison) : bool := match c with Lt => true | _ => false end.

(** ** Stable sorting by a key *)

Section stable_sort.
Context {A K : Type} `{Hlaw : LawfulComparison K} (key : A → K) (less : A → A → bool).
Context (Hless : ∀ x y, less x y = is_lt (cmp (key x) (key y))).

Definition key_before (x y : A) : Prop := cmp (key y) (key x) ≠ Lt.

Lemma key_before_refl x y : key x = key y → key_before x y.
Proof. unfold key_before. intros ->. by rewrite (proj2 (cmp_eq _ _) eq_refl). Qed.

Lemma less_true x y : less x y = true ↔ cmp (key x) (key y) = Lt.
Proof. rewrite Hless. by destruct (cmp _ _). Qed.

Lemma insert_stable_perm x l : insert_stable less x l ≡ₚ x :: l.
Proof.
  induction l as [|y l IH]; cbn; [done|]. destruct (less x y); [done|].
  rewrite IH. apply Permutation_swap.
Qed.

Lemma sort_stable_perm l : sort_stable less l ≡ₚ l.
Proof.
  unfold sort_stable. enough (∀ acc, foldl (λ s x, insert_stable less x s) acc l ≡ₚ acc ++ l) as E by apply (E []).
  induction l as [|x l IH]; intros acc; cbn; [by rewrite app_nil_r|].
  rewrite IH, insert_stable_perm. by rewrite <- Permutation_middle.
Qed.

Lemma key_before_trans x y z : key_before x y → key_before y z → key_before x z.
Proof.
  unfold key_before. intros H1 H2 H3.
  destruct (cmp (key y) (key x)) eqn:E1; [apply cmp_eq in E1; by rewrite E1 in H2|done|].
  apply H2. apply (cmp_lt_trans _ (key x)); [done|]. by rewrite cmp_opp, E1.
Qed.

Lemma insert_stable_sorted x l :
  StronglySorted key_before l → StronglySorted key_before (insert_stable less x l).
Proof.
  induction 1 as [|y l Hl IH Hy]; cbn; [by repeat constructor|].
  destruct (less x y) eqn:E.
  - apply less_true in E. constructor; [by constructor|].
    assert (key_before x y) as Hxy by (unfold key_before; by rewrite cmp_opp, E).
    constructor; [done|]. eapply Forall_impl; [exact Hy|]. intros z. by apply key_before_trans.
  - constructor; [done|]. rewrite insert_stable_perm. constructor; [|done].
    unfold key_before. intros E'%less_true. congruence.
Qed.

Lemma sort_stable_sorted l : StronglySorted key_before (sort_stable less l).
Proof.
  unfold sort_stable. enough (∀ acc, StronglySorted key_before acc →
    StronglySorted key_before (foldl (λ s x, insert_stable less x s) acc l)) as E by (apply E; constructor).
  induction l as [|x l IH]; intros acc Ha; cbn; [done|]. apply IH. by apply insert_stable_sorted.
Qed.

(** Two sorted arrangements of the same elements agree on the keys. *)
Lemma sorted_keys_unique l1 l2 :
  StronglySorted key_before l1 → StronglySorted key_before l2 → l1 ≡ₚ l2 → key <$> l1 = key <$> l2.
Proof.
  intros H1 H2 Hp. assert (key <$> l1 ≡ₚ key <$> l2) as Hk by by rewrite Hp.
  assert (∀ l, StronglySorted key_before l → StronglySorted (λ a b, cmp b a ≠ Lt) (key <$> l)) as Hs.
  { induction 1 as [|x l _ IH Hx]; cbn; constructor; [done|]. by rewrite Forall_fmap. }
  apply Hs in H1. apply Hs in H2. revert H1 H2 Hk. generalize (key <$> l1), (key <$> l2). clear - Hlaw.
  induction l as [|x l IH]; intros [|y l'] H1 H2 Hp; [done|..].
  - by apply Permutation_nil_cons in Hp.
  - symmetry in Hp. by apply Permutation_nil_cons in Hp.
  - apply StronglySorted_cons_inv in H1 as [H1 Hx]. apply StronglySorted_cons_inv in H2 as [H2 Hy].
    assert (x = y) as ->; [|f_equal; apply IH; [done..|]; by eapply Permutation_cons_inv].
    assert (x ∈ y :: l') as [->|Hx']%elem_of_cons by (rewrite <- Hp; by left); [done|].
    assert (y ∈ x :: l) as [->|Hy']%elem_of_cons by (rewrite Hp; by left); [done|].
    specialize (Hx y Hy'). specialize (Hy x Hx').
    destruct (cmp x y) eqn:E; [by apply cmp_eq|done|].
    exfalso. apply Hx. by rewrite cmp_opp, E.
Qed.
End stable_sort.

(** ** What a snapshot shows *)

Definition record_key (r : EventRecord) : string * bool * Z * Z * Z * Z * string * string :=
  (er_BlockID r, negb (er_TransactionID r =? "")%string, er_TxIndex r, er_Incarnation r, er_Ordinal r,
   eventRank (er_Event r), er_TargetID r, er_Action r).

Lemma string_eqb_cmp a b : (a =? b)%string = match cmp a b with Eq => true | _ => false end.
Proof.
  destruct (String.eqb_spec a b) as [<-|Hn]; [by rewrite (proj2 (cmp_eq a a) eq_refl)|].
  destruct (cmp a b) eqn:E; [by apply cmp_eq in E|done..].
Qed.

Lemma Z_eqb_cmp a b : (a =? b) = match cmp a b with Eq => true | _ => false end.
Proof.
  unfold cmp, Z_comparison. destruct (Z.compare_spec a b); [by apply Z.eqb_eq|by apply Z.eqb_neq; lia..].
Qed.

Lemma Z_ltb_cmp a b : (a <? b) = is_lt (cmp a b).
Proof. done. Qed.

Lemma string_ltb_cmp a b : string_ltb a b = is_lt (cmp a b).
Proof. done. Qed.

Lemma record_less_key x y : record_less x y = is_lt (cmp (record_key x) (record_key y)).
Proof.
  unfold record_less, record_key. unfold cmp, prod_comparison. cbn [fst snd].
  rewrite !Z_eqb_cmp, !Z_ltb_cmp, !string_ltb_cmp.
  rewrite (string_eqb_cmp (er_BlockID x) (er_BlockID y)), (string_eqb_cmp (er_TargetID x) (er_TargetID y)).
  unfold cmp, prod_comparison. cbn [fst snd]. unfold cmp, bool_comparison.
  destruct (string_comparison (er_BlockID x) (er_BlockID y)); cbn [negb is_lt]; [|done..].
  destruct (er_TransactionID x =? "")%string, (er_TransactionID y =? "")%string; cbn; [| | |];
    try done;
    repeat (match goal with |- context [Z_comparison ?a ?b] => destruct (Z_comparison a b); cbn; try done end);
    destruct (string_comparison (er_TargetID x) (er_TargetID y)); done.
Qed.

(** What a sequence of emissions leaves in a new recorder. *)
Definition recorded (mode : string) (rs : list EventRecord) : Recorder := foldl Record_event (NewRecorder mode) rs.

Lemma recorded_snoc mode rs r : recorded mode (rs ++ [r]) = Record_event (recorded mode rs) r.
Proof. unfold recorded. by rewrite foldl_app. Qed.

Lemma effective_mode_idem mode : effective_mode (effective_mode mode) = effective_mode mode.
Proof. unfold effective_mode. destruct (ValidTraceMode mode) eqn:E; by rewrite ?E. Qed.

Lemma Record_event_mode r record : rd_mode (Record_event r record) = rd_mode r.
Proof. unfold Record_event. destruct (_ =? _)%string; [done|]. by destruct (knownCounterIndex _ _). Qed.

Lemma recorded_mode mode rs : rd_mode (recorded mode rs) = effective_mode mode.
Proof.
  induction rs as [|r rs IH] using rev_ind; [done|]. by rewrite recorded_snoc, Record_event_mode.
Qed.

Lemma recorded_records mode rs :
  rd_records (recorded mode rs) = if (effective_mode mode =? TraceDetailed)%string then rs else [].
Proof.
  induction rs as [|r rs IH] using rev_ind; [by destruct (_ =? _)%string|].
  rewrite recorded_snoc. unfold Record_event. rewrite recorded_mode, effective_mode_idem.
  destruct (effective_mode mode =? TraceOff)%string eqn:E.
  { apply String.eqb_eq in E. rewrite IH, E. done. }
  destruct (knownCounterIndex _ _); cbn; rewrite IH; by destruct (_ =? _)%string.
Qed.

(** A trace is independent of the order in which concurrent emissions reach
    the recorder: its events are exactly the emitted ones (all of them in
    detailed mode, none otherwise), in ascending logical order, and any other
    order of the same emissions gives the same sequence of block, transaction
    presence, index, incarnation, ordinal, event, target and action. *)
Lemma Recorder_Snapshot_order mode rs rs' :
  rs ≡ₚ rs' →
  Recorder_Snapshot (recorded mode rs) ≡ₚ (if (Mode (NewRecorder mode) =? TraceDetailed)%string then rs else []) ∧
  StronglySorted (λ x y, record_less y x = false) (Recorder_Snapshot (recorded mode rs)) ∧
  record_key <$> Recorder_Snapshot (recorded mode rs) = record_key <$> Recorder_Snapshot (recorded mode rs').
Proof.
  intros Hp. unfold Mode. change (rd_mode (NewRecorder mode)) with (effective_mode mode).
  rewrite effective_mode_idem. unfold Recorder_Snapshot. rewrite !recorded_records.
  set (on := (effective_mode mode =? TraceDetailed)%string).
  split; [apply sort_stable_perm|]. split.
  - assert (∀ x y, key_before record_key x y → record_less y x = false) as Hle.
    { unfold key_before. intros x y Hn. rewrite record_less_key. by destruct (cmp _ _). }
    induction (sort_stable_sorted record_key _ record_less_key (if on then rs else [])) as [|x l _ IH Hx];
      constructor; [done|]. eapply Forall_impl; [exact Hx|apply Hle].
  - apply sorted_keys_unique; [apply (sort_stable_sorted record_key _ record_less_key)..|].
    rewrite !sort_stable_perm. by destruct on.
Qed.

(** ** What a summary shows *)

Definition matches (event action : string) (r : EventRecord) : bool :=
  (er_Event r =? event)%string && (er_Action r =? action)%string.

(** How often an action was taken at an event. *)
Definition count (event action : string) (rs : list EventRecord) : Z :=
  Z.of_nat (length (filter (λ r, matches event action r = true) rs)).

Lemma matches_true event action r : matches event action r = true ↔ er_Event r = event ∧ er_Action r = action.
Proof. unfold matches. by rewrite andb_true_iff, !String.eqb_eq. Qed.

Lemma count_snoc event action rs r :
  count event action (rs ++ [r]) = count event action rs + (if matches event action r then 1 else 0).
Proof.
  unfold count. rewrite filter_app, length_app. rewrite filter_cons, filter_nil.
  destruct (matches event action r); cbn; [rewrite decide_True by done|rewrite decide_False by done]; cbn; lia.
Qed.

Lemma count_length event action rs : 0 <= count event action rs <= Z.of_nat (length rs).
Proof. unfold count. pose proof (length_filter (λ r, matches event action r = true) rs). lia. Qed.

Lemma index_of_Some {A} (p : A → bool) l i : index_of p l = Some i → ∃ x, l !! i = Some x ∧ p x = true.
Proof.
  revert i. induction l as [|x l IH]; intros i; cbn; [done|].
  destruct (p x) eqn:E; [intros [= <-]; eauto|].
  destruct (index_of p l) as [j|]; [|done]. intros [= <-]. by apply IH.
Qed.

Lemma index_of_None {A} (p : A → bool) l x : index_of p l = None → x ∈ l → p x = false.
Proof.
  induction l as [|y l IH]; cbn; [by intros _ ?%elem_of_nil|].
  destruct (p y) eqn:E; [done|]. destruct (index_of p l); [done|].
  intros _ [->|Hx]%elem_of_cons; auto.
Qed.

Lemma knownCounters_NoDup : NoDup knownCounters.
Proof. apply (bool_decide_eq_true_1 _). vm_compute. reflexivity. Qed.

Lemma knownCounterIndex_spec event action i :
  knownCounterIndex event action = Some i ↔ knownCounters !! i = Some (event, action).
Proof.
  unfold knownCounterIndex. split.
  - intros ([e a] & Hi & [->%String.eqb_eq ->%String.eqb_eq]%andb_true_iff)%index_of_Some. done.
  - intros Hi. destruct (index_of _ knownCounters) as [j|] eqn:E.
    + apply index_of_Some in E as ([e a] & Hj & [->%String.eqb_eq ->%String.eqb_eq]%andb_true_iff).
      f_equal. eapply NoDup_lookup; [apply knownCounters_NoDup|done..].
    + eapply index_of_None in E; [|by eapply list_elem_of_lookup_2]. cbn in E. by rewrite !String.eqb_refl in E.
Qed.

(** The counters of a recorder that has seen [rs]. *)
Record counts_of (rs : list EventRecord) (r : Recorder) : Prop := {
  cn_length : length (rd_counters r) = knownCounterCount;
  cn_known i event action : knownCounters !! i = Some (event, action) →
    rd_counters r !! i = Some (count event action rs);
  cn_unknown event action : rd_unknownCounters r !! (event, action) =
    match knownCounterIndex event action with
    | Some _ => None
    | None => if 0 <? count event action rs
              then Some (MkCounter event action (count event action rs)) else None
    end;
}.

Lemma Record_event_counts rs r record :
  effective_mode (rd_mode r) ≠ TraceOff → Z.of_nat (length (rs ++ [record])) < W64 →
  counts_of rs r → counts_of (rs ++ [record]) (Record_event r record).
Proof.
  intros Hm Hl [Hlen Hk Hu]. unfold Record_event.
  destruct (String.eqb_spec (effective_mode (rd_mode r)) TraceOff) as [|_]; [done|].
  rewrite length_app in Hl. cbn in Hl.
  assert (∀ e a, u64 (count e a rs + 1) = count e a rs + 1) as Hu64.
  { intros e a. apply u64_id. unfold u64_range. pose proof (count_length e a rs). lia. }
  assert (∀ e a, matches e a record = false → count e a (rs ++ [record]) = count e a rs) as Hno
    by (intros e a E; rewrite count_snoc, E; lia).
  destruct (knownCounterIndex (er_Event record) (er_Action record)) as [i|] eqn:Ei;
    split; cbn [rd_counters rd_unknownCounters].
  - by rewrite length_alter.
  - intros j e a Hj. destruct (decide (i = j)) as [<-|Hn].
    + apply knownCounterIndex_spec in Ei. rewrite Ei in Hj. injection Hj as <- <-.
      rewrite list_lookup_alter_eq, (Hk _ _ _ Ei), count_snoc. unfold matches. rewrite !String.eqb_refl.
      cbn. by rewrite Hu64.
    + rewrite list_lookup_alter_ne by done. rewrite (Hk _ _ _ Hj), Hno; [done|].
      apply not_true_iff_false. intros [<- <-]%matches_true. apply knownCounterIndex_spec in Hj. congruence.
  - intros e a. rewrite Hu. destruct (knownCounterIndex e a) eqn:E; [done|]. rewrite Hno; [done|].
    apply not_true_iff_false. intros [<- <-]%matches_true. congruence.
  - done.
  - intros j e a Hj. rewrite (Hk _ _ _ Hj), Hno; [done|].
    apply not_true_iff_false. intros [<- <-]%matches_true. apply knownCounterIndex_spec in Hj. congruence.
  - intros e a. unfold incrementCounter. rewrite count_snoc. destruct (matches e a record) eqn:E.
    + apply matches_true in E as [<- <-]. rewrite lookup_insert_eq, Hu, Ei.
      pose proof (count_length (er_Event record) (er_Action record) rs).
      destruct (0 <? count _ _ rs + 1) eqn:E1; [|apply Z.ltb_ge in E1; lia].
      destruct (0 <? count _ _ rs) eqn:E2; cbn; [by rewrite Hu64|].
      apply Z.ltb_ge in E2. by replace (count _ _ rs) with 0 by lia.
    + rewrite lookup_insert_ne; [by rewrite Z.add_0_r, Hu|]. intros [= <- <-].
      apply not_true_iff_false in E. by apply E, matches_true.
Qed.

Lemma recorded_counts mode rs :
  effective_mode mode ≠ TraceOff → Z.of_nat (length rs) < W64 → counts_of rs (recorded mode rs).
Proof.
  intros Hm. induction rs as [|r rs IH] using rev_ind; intros Hl.
  - split; cbn [recorded foldl NewRecorder rd_counters rd_unknownCounters].
    + by rewrite length_replicate.
    + intros i e a Hi. apply lookup_lt_Some in Hi. apply lookup_replicate_2. exact Hi.
    + intros e a. rewrite lookup_empty. by destruct (knownCounterIndex e a).
  - rewrite recorded_snoc. apply Record_event_counts; [|done|].
    + by rewrite recorded_mode, effective_mode_idem.
    + apply IH. rewrite length_app in Hl. lia.
Qed.

Lemma recorded_off mode rs : effective_mode mode = TraceOff → recorded mode rs = NewRecorder mode.
Proof.
  intros E. induction rs as [|r rs IH] using rev_ind; [done|].
  rewrite recorded_snoc, IH. unfold Record_event. cbn [NewRecorder rd_mode].
  by rewrite effective_mode_idem, E.
Qed.

Lemma recorded_duration mode rs :
  effective_mode mode ≠ TraceOff →
  rd_decisionDurationNS (recorded mode rs) = u64 (foldr Z.add 0 (er_DecisionDurationNS <$> rs)).
Proof.
  intros Hm. induction rs as [|r rs IH] using rev_ind; [done|].
  rewrite recorded_snoc. unfold Record_event. rewrite recorded_mode, effective_mode_idem.
  destruct (String.eqb_spec (effective_mode mode) TraceOff) as [|_]; [done|].
  assert (∀ l z, foldr Z.add z l = foldr Z.add 0 l + z) as Hf.
  { clear. induction l as [|x l IH]; intros z; cbn; [done|]. rewrite IH. lia. }
  destruct (knownCounterIndex _ _); cbn; rewrite IH, fmap_app, foldr_app, (Hf _ (foldr _ _ _)); cbn;
    unfold u64; rewrite Zplus_mod_idemp_l; f_equal; lia.
Qed.

Lemma known_actions_elem counters c :
  length counters = knownCounterCount →
  c ∈ known_actions counters ↔ 0 < ct_Count c ∧ ∃ i, knownCounters !! i = Some (ct_Event c, ct_Action c) ∧
    counters !! i = Some (ct_Count c).
Proof.
  intros Hl. unfold known_actions. rewrite list_elem_of_omap. split.
  - intros ([[e a] n] & Hin & E). destruct (0 <? n) eqn:En; [|done]. injection E as <-. cbn.
    apply Z.ltb_lt in En. split; [done|]. apply list_elem_of_lookup in Hin as [i Hi].
    exists i. apply lookup_zip_with_Some in Hi as (x & y & [= <- <-] & ? & ?). done.
  - destruct c as [e a n]. cbn [ct_Count ct_Event ct_Action]. intros (Hn & i & Hk & Hc). exists ((e, a), n). split.
    + apply list_elem_of_lookup. exists i. apply lookup_zip_with_Some. eauto.
    + by rewrite (proj2 (Z.ltb_lt 0 n) Hn).
Qed.

Lemma sortCounters_perm l : sortCounters l ≡ₚ l.
Proof. apply sort_stable_perm. Qed.

Lemma counterSlice_elem m c : c ∈ counterSlice m ↔ ∃ key, m !! key = Some c.
Proof.
  unfold counterSlice. rewrite sortCounters_perm, list_elem_of_fmap. split.
  - intros ([k v] & -> & H%elem_of_map_to_list). eauto.
  - intros [k H%elem_of_map_to_list]. by exists (k, c).
Qed.

(** The counters of a trace are exact: unless tracing is off, an action is
    listed at an event with count [n] exactly when it was recorded there [n > 0]
    times, whether or not the pair is one of the preallocated counters, the
    fallbacks are the counters of RETRY_LIMIT, and the decision time is the sum
    of the recorded durations; with tracing off nothing is kept. *)
Theorem Summary_exact mode rs :
  Z.of_nat (length rs) < W64 →
  let '(actions, fallbacks, duration) := Summary (recorded mode rs) in
  if (Mode (NewRecorder mode) =? TraceOff)%string then actions = [] ∧ fallbacks = [] ∧ duration = 0
  else
    (∀ event action n, MkCounter event action n ∈ actions ↔ n = count event action rs ∧ 0 < n) ∧
    (∀ c, c ∈ fallbacks ↔ c ∈ actions ∧ ct_Event c = EventRetryLimit) ∧
    duration = u64 (foldr Z.add 0 (er_DecisionDurationNS <$> rs)).
Proof.
  intros Hl. unfold Mode. change (rd_mode (NewRecorder mode)) with (effective_mode mode).
  rewrite effective_mode_idem. unfold Summary. cbv zeta.
  destruct (String.eqb_spec (effective_mode mode) TraceOff) as [E|Hm].
  - rewrite recorded_off by done. by vm_compute.
  - destruct (recorded_counts mode rs Hm Hl) as [Hlen Hk Hu].
    split; [|split].
    + intros e a n. rewrite sortCounters_perm, elem_of_app, known_actions_elem, counterSlice_elem by done.
      cbn [ct_Count ct_Event ct_Action]. split.
      * intros [(Hn & i & Hi & Hc)|[[e' a'] Hc]].
        -- rewrite (Hk _ _ _ Hi) in Hc. by simplify_eq.
        -- rewrite Hu in Hc. destruct (knownCounterIndex e' a'); [done|].
           destruct (0 <? _) eqn:E; [|done]. simplify_eq. by apply Z.ltb_lt in E.
      * intros [-> Hn]. destruct (knownCounterIndex e a) as [i|] eqn:Ei.
        -- left. split; [done|]. exists i. pose proof Ei as Ei'. apply knownCounterIndex_spec in Ei'. eauto.
        -- right. exists (e, a). rewrite Hu, Ei. by rewrite (proj2 (Z.ltb_lt _ _) Hn).
    + intros c. rewrite list_elem_of_filter, String.eqb_eq. tauto.
    + by apply recorded_duration.
Qed.

(** Two emissions of a transaction's events, and one of an unregistered event. *)
Definition sample_record (event action : string) (ordinal duration : Z) : EventRecord :=
  MkRecord event "b" "t" 0 0 ordinal "t" action "" "" "" "" duration.
Definition sample_records : list EventRecord :=
  [sample_record EventTxReady LaneSerial 1 7; sample_record EventTxAdmit LaneSerial 0 5;
   sample_record "UNKNOWN" "x" 3 1].

Lemma Recorder_Snapshot_order_witness :
  er_Ordinal <$> Recorder_Snapshot (recorded TraceDetailed sample_records) = [0; 1; 3] ∧
  record_key <$> Recorder_Snapshot (recorded TraceDetailed sample_records) =
    record_key <$> Recorder_Snapshot (recorded TraceDetailed (reverse sample_records)).
Proof.
  split; [vm_compute; reflexivity|].
  refine (proj2 (proj2 (Recorder_Snapshot_order TraceDetailed sample_records (reverse sample_records) _))).
  by rewrite reverse_Permutation.
Defined.

Lemma Summary_exact_witness :
  MkCounter "UNKNOWN" "x" 1 ∈ (Summary (recorded TraceCounters sample_records)).1.1.
Proof.
  assert (Z.of_nat (length sample_records) < W64) as Hl by reflexivity.
  pose proof (Summary_exact TraceCounters sample_records Hl) as H.
  destruct (Summary _) as [[actions fallbacks] duration]. destruct H as [H _].
  apply H. split; reflexivity.
Defined.

(** ** Capabilities *)

Section capabilities.
Context (supported : gmap string bool) (reasons : gmap string string).

Definition available (event : string) : bool := default false (supported !! event).
Definition reason_of (event : string) : string := default "" (reasons !! event).
(** An event is either available or has a reason not to be. *)
Definition explained (event : string) : Prop := available event = true ↔ reason_of event = "".
Definition capability_row (d : EventDescriptor) : EventCapability :=
  MkCapability (ed_Event d) (available (ed_Event d)) (reason_of (ed_Event d)).

Lemma capability_loop_complete l :
  (∀ d, d ∈ l → explained (ed_Event d)) → capability_loop supported reasons l = inr (capability_row <$> l).
Proof.
  induction l as [|d l IH]; intros Hl; [done|]. rewrite fmap_cons. cbn [capability_loop].
  assert (explained (ed_Event d)) as Hd by (apply Hl; by left).
  rewrite IH by (intros; apply Hl; by right). unfold explained, available, reason_of in Hd.
  unfold capability_row, available, reason_of.
  destruct (default false (supported !! ed_Event d)); cbn [negb andb].
  - rewrite (proj1 Hd) by done. done.
  - destruct (String.eqb_spec (default "" (reasons !! ed_Event d)) "") as [E|]; [|done].
    apply Hd in E. done.
Qed.

Lemma capability_loop_sound l rows :
  capability_loop supported reasons l = inr rows → ∀ d, d ∈ l → explained (ed_Event d).
Proof.
  revert rows. induction l as [|d l IH]; cbn [capability_loop]; intros rows; [by intros _ d ?%elem_of_nil|].
  unfold explained at 1, available, reason_of.
  destruct (default false (supported !! ed_Event d)) eqn:Ea;
    destruct (String.eqb_spec (default "" (reasons !! ed_Event d)) "") as [Er|Er]; cbn [negb andb]; try done.
  all: destruct (capability_loop supported reasons l) as [|rest]; [done|]; intros _.
  all: intros d' [->|Hd']%elem_of_cons; [rewrite Ea|by eapply IH].
  - by rewrite Er.
  - split; [done|]. by intros ?%Er.
Qed.

Lemma registeredEvent_spec event : registeredEvent event = true ↔ ∃ d, d ∈ eventRegistry ∧ ed_Event d = event.
Proof.
  unfold registeredEvent. rewrite existsb_exists. split; intros (d & Hin & E); exists d.
  - apply String.eqb_eq in E. split; [by apply list_elem_of_In|done].
  - split; [by apply list_elem_of_In|]. by apply String.eqb_eq.
Qed.

Lemma unregistered_none {A} (m : gmap string A) :
  existsb (λ '(event, _), negb (registeredEvent event)) (map_to_list m) = false ↔
    ∀ event, is_Some (m !! event) → registeredEvent event = true.
Proof.
  rewrite <- not_true_iff_false, existsb_exists. split.
  - intros Hn event [v Hv]. destruct (registeredEvent event) eqn:E; [done|]. destruct Hn.
    exists (event, v). split; [by apply list_elem_of_In, elem_of_map_to_list|]. by rewrite E.
  - intros H ([event v] & Hin%list_elem_of_In%elem_of_map_to_list & E). by rewrite H in E by eauto.
Qed.
End capabilities.

Lemma eventRegistry_NoDup : NoDup (ed_Event <$> eventRegistry).
Proof. apply (bool_decide_eq_true_1 _). vm_compute. reflexivity. Qed.

Lemma Lookup_rows supported reasons d :
  d ∈ eventRegistry →
  Lookup (MkCapabilities "" (capability_row supported reasons <$> eventRegistry)) (ed_Event d) =
    Some (capability_row supported reasons d).
Proof.
  unfold Lookup. cbn [cp_Events]. pose proof eventRegistry_NoDup as Hnd. revert Hnd.
  generalize eventRegistry. induction l as [|d' l IH]; [by intros _ ?%elem_of_nil|].
  rewrite !fmap_cons. intros [Hn Hnd]%NoDup_cons Hd. cbn [findb]. cbn [capability_row ec_Event].
  destruct (String.eqb_spec (ed_Event d') (ed_Event d)) as [E|E].
  - apply elem_of_cons in Hd as [->|Hd]; [done|]. destruct Hn. rewrite E. apply list_elem_of_fmap. eauto.
  - apply elem_of_cons in Hd as [->|Hd]; [done|]. by apply IH.
Qed.

(** C27: A capability report is complete and consistent or is refused: it is
    built exactly when the engine has a name, every registered event is either
    available or comes with a reason and never both, and nothing else is
    mentioned; the report then has one row per registered event, in registry
    order, and looking an event up gives what was declared for it. *)
Theorem NewCapabilities_complete engine supported reasons :
  (engine ≠ "" ∧ (∀ event, registeredEvent event = true → explained supported reasons event) ∧
   (∀ event, is_Some (supported !! event) ∨ is_Some (reasons !! event) → registeredEvent event = true) ↔
   ∃ c, NewCapabilities engine supported reasons = inr c) ∧
  (∀ c, NewCapabilities engine supported reasons = inr c →
     (ec_Event <$> cp_Events c) = (ed_Event <$> EventRegistry) ∧
     ∀ event, registeredEvent event = true →
       Lookup c event = Some (MkCapability event (available supported event) (reason_of reasons event))).
Proof.
  assert (∀ c, NewCapabilities engine supported reasons = inr c →
    engine ≠ "" ∧ (∀ d, d ∈ eventRegistry → explained supported reasons (ed_Event d)) ∧
    (∀ event, is_Some (supported !! event) → registeredEvent event = true) ∧
    (∀ event, is_Some (reasons !! event) → registeredEvent event = true) ∧
    c = MkCapabilities engine (capability_row supported reasons <$> eventRegistry)) as Hinv.
  { unfold NewCapabilities. intros c. destruct (String.eqb_spec engine "") as [|Hn]; [done|].
    destruct (capability_loop supported reasons eventRegistry) as [|rows] eqn:El; [done|].
    destruct (existsb _ (map_to_list supported)) eqn:E1; [done|].
    destruct (existsb _ (map_to_list reasons)) eqn:E2; [done|]. intros [= <-].
    pose proof (capability_loop_sound _ _ _ _ El) as Hs.
    rewrite (capability_loop_complete _ _ _ Hs) in El. injection El as <-.
    split; [done|]. split; [done|]. split; [by apply unregistered_none|]. split; [by apply unregistered_none|done]. }
  split; [split|].
  - intros (Hn & Hx & Hr). exists (MkCapabilities engine (capability_row supported reasons <$> eventRegistry)).
    unfold NewCapabilities. destruct (String.eqb_spec engine "") as [|_]; [done|].
    rewrite capability_loop_complete by (intros d Hd; apply Hx, registeredEvent_spec; eauto).
    rewrite (proj2 (unregistered_none supported)) by auto. by rewrite (proj2 (unregistered_none reasons)) by auto.
  - intros [c (Hn & Hx & H1 & H2 & _)%Hinv]. split; [done|]. split.
    + intros event (d & Hd & <-)%registeredEvent_spec. auto.
    + intros event [|]; auto.
  - intros c (_ & _ & _ & _ & ->)%Hinv. split; [done|].
    intros event (d & Hd & <-)%registeredEvent_spec. unfold Lookup. cbn [cp_Events].
    pose proof (Lookup_rows supported reasons d Hd) as HL. unfold Lookup in HL. cbn [cp_Events] in HL. by rewrite HL.
Qed.

(** An engine that supports every event. *)
Definition all_supported : gmap string bool := list_to_map ((λ d, (ed_Event d, true)) <$> EventRegistry).

Lemma NewCapabilities_complete_witness :
  ∃ c, NewCapabilities "e" all_supported ∅ = inr c ∧
    Lookup c EventConflict = Some (MkCapability EventConflict true "").
Proof.
  destruct (NewCapabilities "e" all_supported ∅) as [e|c] eqn:E; [exfalso; vm_compute in E; discriminate|].
  exists c. split; [reflexivity|].
  destruct (NewCapabilities_complete "e" all_supported ∅) as [_ H].
  destruct (H c E) as [_ HL]. rewrite HL; vm_compute; reflexivity.
Defined.
