(* ===== verification/Telemetry.v ===== *)
(** * internal/telemetry/records.go: what a run is reported as

    The records of a run, the metrics collected from its results and traces, and
    the comparison of an instrumented run with a plain one.  An error is kept in
    a record as the value its text is made of. *)

From Stdlib Require Import ZArith Lia String Ascii.
From stdpp Require Import sorting.
From S2P Require Import Prelude Float64 Model Plan Control.
Local Open Scope Z_scope.

Definition BenchmarkRecordSchema : string := "benchmark-run-v8".
Definition ValidationRecordSchema : string := "validation-run-v8".
Definition ActionTraceSchema : string := "action-trace-v7".
Definition AblationRecordSchema : string := "telemetry-ablation-v1".

(** ** Records *)

Record Case := MkCase {
  cs_ID : string;
  cs_Engine : string;
  cs_Policy : string;
  cs_PolicyVersion : string;
  cs_Executors : Z;
  cs_MaxSpeculativeInflight : Z;
  cs_DependencyMode : string;
  cs_DependencySource : string;
  cs_DependencyRepresentation : string;
  cs_DependencyRepresentationBuilder : string;
  cs_DependencyWaitPolicy : string;
  cs_DependencyEstimateInjection : string;
  cs_DependencyDispatch : string;
  cs_EstimateReadPolicy : string;
  cs_IdleWaitPolicy : string;
  cs_TraceMode : string;
}.

Record Environment := MkEnvironment {
  ev_Affinity : string;
  ev_NUMAPolicy : string;
  ev_StateReset : string;
  ev_PageCache : string;
  ev_ProcessReuse : string;
}.

Record RunProtocol := MkRunProtocol {
  rp_RunClass : string;
  rp_WarmupRounds : Z;
  rp_MeasurementRounds : Z;
  rp_OrderSeed : Z;
  rp_Timeout : string;
}.

Record Hardware := MkHardware {
  hw_Hostname : string;
  hw_GOOS : string;
  hw_GOARCH : string;
  hw_CPUModel : string;
  hw_LogicalCPUs : Z;
  hw_MemoryBytes : Z;
  hw_Kernel : string;
  hw_GoVersion : string;
  hw_GOMAXPROCS : Z;
  hw_CPUAllowedList : string;
  hw_MemoryAllowedList : string;
  hw_CPUGovernor : string;
}.

Record Provenance := MkProvenance {
  pv_ConfigPath : string;
  pv_CodeCommit : string;
  pv_CodeModified : bool;
  pv_ProcessID : Z;
  pv_UpstreamCommit : string;
  pv_ConfigSchemaVersion : string;
  pv_StatisticalSchemaVersion : string;
  pv_WorkloadSchemaVersion : string;
  pv_GeneratorVersion : string;
  pv_GeneratorSeed : Z;
  pv_Hardware : Hardware;
  pv_Environment : Environment;
  pv_RunProtocol : RunProtocol;
}.

Record Timing := MkTiming {
  tm_ExecutionNS : Z;
  tm_BlockLatencyNS : list Z;
}.

Record Metrics := MkMetrics {
  mt_Blocks : Z;
  mt_Transactions : Z;
  mt_SuccessfulTransactions : Z;
  mt_FailedTransactions : Z;
  mt_UsefulExecutionUnits : Z;
  mt_ReexecutedExecutionUnits : Z;
  mt_DiscardedExecutionUnits : Z;
  mt_ExecutionAttempts : Z;
  mt_ReexecutionAttempts : Z;
  mt_CompletedTransactionsPerS : float64;
  mt_CommittedGoodputPerS : float64;
  mt_ValidationEvents : Z;
  mt_ValidationFailures : Z;
  mt_ReexecutionEvents : Z;
  mt_WaitEvents : Z;
  mt_WorkerIdleEvents : Z;
  mt_QueuePressureEvents : Z;
  mt_PolicyDecisionNS : Z;
  mt_MaxRSSBytes : Z;
  mt_ActionCounters : list ActionCounter;
  mt_FallbackCounters : list ActionCounter;
  mt_EffectiveSpeculationLimit : Z;
  mt_SpeculationLimitApplied : bool;
  mt_SpeculationTelemetryAvailable : bool;
  mt_PeakSpeculativeInflight : Z;
  mt_AdmissionStallEvents : Z;
  mt_AdmissionStallNS : Z;
  mt_Dependency : DependencyCounters;
  mt_KernelPolicy : KernelPolicyCounters;
  mt_Unavailable : list string;
}.

Record BenchmarkRecord {E : Type} := MkBenchmarkRecord {
  bm_SchemaVersion : string;
  bm_RunID : string;
  bm_Mode : string;
  bm_Status : string;
  bm_Censored : bool;
  bm_Error : option E;
  bm_Phase : string;
  bm_Round : Z;
  bm_Order : Z;
  bm_Case : Case;
  bm_Capabilities : Capabilities;
  bm_Provenance : Provenance;
  bm_Timing : Timing;
  bm_Metrics : Metrics;
  bm_BlockDigests : list string;
  bm_ResultDigest : string;
  bm_CanonicalMatch : bool;
}.

Record ValidationRecord {E : Type} := MkValidationRecord {
  vr_SchemaVersion : string;
  vr_RunID : string;
  vr_Status : string;
  vr_Error : option E;
  vr_Case : Case;
  vr_Capabilities : Capabilities;
  vr_Provenance : Provenance;
  vr_OracleResultDigest : string;
  vr_CandidateResultDigest : string;
  vr_CanonicalMatch : bool;
}.

Record ActionTraceRecord := MkActionTraceRecord {
  at_SchemaVersion : string;
  at_RunID : string;
  at_BlockID : string;
  at_Trace : Trace;
}.

Record AblationRecord := MkAblationRecord {
  ab_SchemaVersion : string;
  ab_OffCase : string;
  ab_InstrumentedCase : string;
  ab_OffMedianNS : Z;
  ab_InstrumentedMedianNS : Z;
  ab_OverheadRatio : float64;
  ab_BudgetRatio : float64;
  ab_Enforced : bool;
  ab_WithinBudget : bool;
}.

(** ** Merging counters *)

(** A field that only grows to the greatest value seen. *)
Definition raise (target source : Z) : Z := if target <? source then source else target.

(** [seen]: a block has been merged before. *)
Definition mergeDependencyCounters (target source : DependencyCounters) (seen : bool) : DependencyCounters :=
  let first (t s : string) := if seen then t else s in
  let both (t s : bool) := if seen then t && s else s in
  MkDependencyCounters (first (dc_Mode target) (dc_Mode source)) (first (dc_Source target) (dc_Source source))
    (first (dc_Representation target) (dc_Representation source))
    (first (dc_RepresentationBuilder target) (dc_RepresentationBuilder source))
    (first (dc_WaitPolicy target) (dc_WaitPolicy source))
    (first (dc_EstimateInjection target) (dc_EstimateInjection source))
    (first (dc_SourceAvailableAt target) (dc_SourceAvailableAt source))
    (first (dc_SourceVersion target) (dc_SourceVersion source))
    (first (dc_AcquisitionDisposition target) (dc_AcquisitionDisposition source))
    (both (dc_InformationComplete target) (dc_InformationComplete source))
    (both (dc_InformationExact target) (dc_InformationExact source))
    (both (dc_AcquisitionMeasured target) (dc_AcquisitionMeasured source))
    (u64 (dc_AcquisitionNS target + dc_AcquisitionNS source))
    (u64 (dc_AcquisitionUnits target + dc_AcquisitionUnits source))
    (u64 (dc_AcquisitionBytes target + dc_AcquisitionBytes source))
    (u64 (dc_StaticReadKeys target + dc_StaticReadKeys source))
    (u64 (dc_StaticWriteKeys target + dc_StaticWriteKeys source))
    (both (dc_RepresentationMeasured target) (dc_RepresentationMeasured source))
    (u64 (dc_RepresentationNS target + dc_RepresentationNS source))
    (u64 (dc_RepresentationBuildUnits target + dc_RepresentationBuildUnits source))
    (u64 (dc_RepresentationLogicalBytes target + dc_RepresentationLogicalBytes source))
    (u64 (dc_RepresentationEntries target + dc_RepresentationEntries source))
    (raise (dc_RepresentationMaxFanIn target) (dc_RepresentationMaxFanIn source))
    (u64 (dc_DependencyEdges target + dc_DependencyEdges source))
    (u64 (dc_SummaryEntries target + dc_SummaryEntries source))
    (u64 (dc_EstimateBuildNS target + dc_EstimateBuildNS source))
    (u64 (dc_EstimatedWriteLocations target + dc_EstimatedWriteLocations source))
    (u64 (dc_EstimatedWriteKeyBytes target + dc_EstimatedWriteKeyBytes source))
    (both (dc_ResolutionMeasured target) (dc_ResolutionMeasured source))
    (u64 (dc_ResolutionNS target + dc_ResolutionNS source)) (u64 (dc_PlanLookups target + dc_PlanLookups source))
    (u64 (dc_TraversalSteps target + dc_TraversalSteps source))
    (u64 (dc_WaitedExecutionAttempts target + dc_WaitedExecutionAttempts source))
    (u64 (dc_WaitEvents target + dc_WaitEvents source)) (u64 (dc_WaitNS target + dc_WaitNS source))
    (u64 (dc_PostGuidanceReexecutions target + dc_PostGuidanceReexecutions source))
    (u64 (dc_PostGuidanceReexecutionUnits target + dc_PostGuidanceReexecutionUnits source)).

Definition mergeKernelPolicyCounters (target block : KernelPolicyCounters) : KernelPolicyCounters :=
  MkKernelPolicyCounters (kc_Applied block) (kc_EstimateRead block) (kc_IdleWait block) (kc_Dispatch block)
    (u64 (kc_EstimateSuspends target + kc_EstimateSuspends block))
    (u64 (kc_EstimateSuspendNS target + kc_EstimateSuspendNS block))
    (u64 (kc_EstimateAborts target + kc_EstimateAborts block))
    (u64 (kc_DispatchDeferrals target + kc_DispatchDeferrals block))
    (u64 (kc_WorkerYields target + kc_WorkerYields block))
    (raise (kc_PeakRunnableWorkers target) (kc_PeakRunnableWorkers block))
    (u64 (kc_IdleParks target + kc_IdleParks block))
    (u64 (kc_ReadyQueueDispatches target + kc_ReadyQueueDispatches block)).

(** [string(counter.Event) + "\x00" + counter.Action] *)
Definition counter_key (c : ActionCounter) : string := (ct_Event c ++ String Ascii.zero (ct_Action c))%string.

Definition addCounter (target : gmap string ActionCounter) (counter : ActionCounter) : gmap string ActionCounter :=
  let key := counter_key counter in
  let current := default (MkCounter "" "" 0) (target !! key) in
  <[key := MkCounter (ct_Event counter) (ct_Action counter) (u64 (ct_Count current + ct_Count counter))]> target.

Definition reported_less (a b : ActionCounter) : bool :=
  if negb (ct_Event a =? ct_Event b)%string then string_ltb (ct_Event a) (ct_Event b)
  else string_ltb (ct_Action a) (ct_Action b).

Definition sortedCounters {MR : MapRange} (values : gmap string ActionCounter) : list ActionCounter :=
  sort_stable reported_less (range values).*2.

(** ** [CollectMetrics] *)

(** A transaction of a result. *)
Definition count_transaction (m : Metrics) (t : TxResult) : Metrics :=
  let success := (tr_Status t =? TxStatusSuccess)%string in
  MkMetrics (mt_Blocks m) (u64 (mt_Transactions m + 1))
    (if success then u64 (mt_SuccessfulTransactions m + 1) else mt_SuccessfulTransactions m)
    (if success then mt_FailedTransactions m else u64 (mt_FailedTransactions m + 1))
    (u64 (mt_UsefulExecutionUnits m + UnitsUsed t)) (mt_ReexecutedExecutionUnits m) (mt_DiscardedExecutionUnits m)
    (mt_ExecutionAttempts m) (mt_ReexecutionAttempts m) (mt_CompletedTransactionsPerS m) (mt_CommittedGoodputPerS m)
    (mt_ValidationEvents m) (mt_ValidationFailures m) (mt_ReexecutionEvents m) (mt_WaitEvents m)
    (mt_WorkerIdleEvents m) (mt_QueuePressureEvents m) (mt_PolicyDecisionNS m) (mt_MaxRSSBytes m)
    (mt_ActionCounters m) (mt_FallbackCounters m) (mt_EffectiveSpeculationLimit m) (mt_SpeculationLimitApplied m)
    (mt_SpeculationTelemetryAvailable m) (mt_PeakSpeculativeInflight m) (mt_AdmissionStallEvents m)
    (mt_AdmissionStallNS m) (mt_Dependency m) (mt_KernelPolicy m) (mt_Unavailable m).

Definition throughput (executionNS : Z) (m : Metrics) : Metrics :=
  if 0 <? executionNS then
    let seconds := fdiv (float_of executionNS) (float_of 1000000000) in
    MkMetrics (mt_Blocks m) (mt_Transactions m) (mt_SuccessfulTransactions m) (mt_FailedTransactions m)
    (mt_UsefulExecutionUnits m) (mt_ReexecutedExecutionUnits m) (mt_DiscardedExecutionUnits m)
    (mt_ExecutionAttempts m) (mt_ReexecutionAttempts m) (fdiv (float_of (mt_Transactions m)) seconds)
    (fdiv (float_of (mt_SuccessfulTransactions m)) seconds) (mt_ValidationEvents m) (mt_ValidationFailures m)
    (mt_ReexecutionEvents m) (mt_WaitEvents m) (mt_WorkerIdleEvents m) (mt_QueuePressureEvents m)
    (mt_PolicyDecisionNS m) (mt_MaxRSSBytes m) (mt_ActionCounters m) (mt_FallbackCounters m)
    (mt_EffectiveSpeculationLimit m) (mt_SpeculationLimitApplied m) (mt_SpeculationTelemetryAvailable m)
    (mt_PeakSpeculativeInflight m) (mt_AdmissionStallEvents m) (mt_AdmissionStallNS m) (mt_Dependency m)
    (mt_KernelPolicy m) (mt_Unavailable m)
  else m.

(** The work counters of a block; [seen] as above. *)
Definition merge_work (seen : bool) (m : Metrics) (w : WorkCounters) : Metrics :=
  MkMetrics (mt_Blocks m) (mt_Transactions m) (mt_SuccessfulTransactions m) (mt_FailedTransactions m)
    (mt_UsefulExecutionUnits m) (u64 (mt_ReexecutedExecutionUnits m + wk_ReexecutedExecutionUnits w))
    (u64 (mt_DiscardedExecutionUnits m + wk_DiscardedExecutionUnits w))
    (u64 (mt_ExecutionAttempts m + wk_ExecutionAttempts w))
    (u64 (mt_ReexecutionAttempts m + wk_ReexecutionAttempts w)) (mt_CompletedTransactionsPerS m)
    (mt_CommittedGoodputPerS m) (mt_ValidationEvents m) (mt_ValidationFailures m) (mt_ReexecutionEvents m)
    (mt_WaitEvents m) (mt_WorkerIdleEvents m) (mt_QueuePressureEvents m) (mt_PolicyDecisionNS m) (mt_MaxRSSBytes m)
    (mt_ActionCounters m) (mt_FallbackCounters m) (raise (mt_EffectiveSpeculationLimit m) (wk_SpeculationLimit w))
    (mt_SpeculationLimitApplied m || wk_SpeculationLimitApplied w)
    (if wk_SpeculationTelemetryAvailable w then true else mt_SpeculationTelemetryAvailable m)
    (raise (mt_PeakSpeculativeInflight m) (wk_PeakSpeculativeInflight w))
    (u64 (mt_AdmissionStallEvents m + wk_AdmissionStallEvents w))
    (u64 (mt_AdmissionStallNS m + wk_AdmissionStallNS w))
    (mergeDependencyCounters (mt_Dependency m) (wk_Dependency w) seen)
    (mergeKernelPolicyCounters (mt_KernelPolicy m) (wk_KernelPolicy w)) (mt_Unavailable m).

(** The events that count as validations. *)
Definition validation_events : list string := [EventValidationPoint; EventTxEnd; EventSubtxEnd].

(** The switch on the event; its cases are disjoint. *)
Definition count_event (m : Metrics) (c : ActionCounter) : Metrics :=
  let bump (events : list string) (n : Z) := if one_of (ct_Event c) events then u64 (n + ct_Count c) else n in
  MkMetrics (mt_Blocks m) (mt_Transactions m) (mt_SuccessfulTransactions m) (mt_FailedTransactions m)
    (mt_UsefulExecutionUnits m) (mt_ReexecutedExecutionUnits m) (mt_DiscardedExecutionUnits m)
    (mt_ExecutionAttempts m) (mt_ReexecutionAttempts m) (mt_CompletedTransactionsPerS m) (mt_CommittedGoodputPerS m)
    (bump validation_events (mt_ValidationEvents m)) (bump [EventValidationFail] (mt_ValidationFailures m))
    (bump [EventReplayStart] (mt_ReexecutionEvents m)) (bump [EventReadEstimate] (mt_WaitEvents m))
    (bump [EventWorkerIdle] (mt_WorkerIdleEvents m)) (bump [EventQueuePressure] (mt_QueuePressureEvents m))
    (mt_PolicyDecisionNS m) (mt_MaxRSSBytes m) (mt_ActionCounters m) (mt_FallbackCounters m)
    (mt_EffectiveSpeculationLimit m) (mt_SpeculationLimitApplied m) (mt_SpeculationTelemetryAvailable m)
    (mt_PeakSpeculativeInflight m) (mt_AdmissionStallEvents m) (mt_AdmissionStallNS m) (mt_Dependency m)
    (mt_KernelPolicy m) (mt_Unavailable m).

Definition add_decision_time (m : Metrics) (ns : Z) : Metrics :=
  MkMetrics (mt_Blocks m) (mt_Transactions m) (mt_SuccessfulTransactions m) (mt_FailedTransactions m)
    (mt_UsefulExecutionUnits m) (mt_ReexecutedExecutionUnits m) (mt_DiscardedExecutionUnits m)
    (mt_ExecutionAttempts m) (mt_ReexecutionAttempts m) (mt_CompletedTransactionsPerS m) (mt_CommittedGoodputPerS m)
    (mt_ValidationEvents m) (mt_ValidationFailures m) (mt_ReexecutionEvents m) (mt_WaitEvents m)
    (mt_WorkerIdleEvents m) (mt_QueuePressureEvents m) (u64 (mt_PolicyDecisionNS m + ns)) (mt_MaxRSSBytes m)
    (mt_ActionCounters m) (mt_FallbackCounters m) (mt_EffectiveSpeculationLimit m) (mt_SpeculationLimitApplied m)
    (mt_SpeculationTelemetryAvailable m) (mt_PeakSpeculativeInflight m) (mt_AdmissionStallEvents m)
    (mt_AdmissionStallNS m) (mt_Dependency m) (mt_KernelPolicy m) (mt_Unavailable m).

Definition report (m : Metrics) (actions fallbacks : list ActionCounter) (unavailable : list string) : Metrics :=
  MkMetrics (mt_Blocks m) (mt_Transactions m) (mt_SuccessfulTransactions m) (mt_FailedTransactions m)
    (mt_UsefulExecutionUnits m) (mt_ReexecutedExecutionUnits m) (mt_DiscardedExecutionUnits m)
    (mt_ExecutionAttempts m) (mt_ReexecutionAttempts m) (mt_CompletedTransactionsPerS m) (mt_CommittedGoodputPerS m)
    (mt_ValidationEvents m) (mt_ValidationFailures m) (mt_ReexecutionEvents m) (mt_WaitEvents m)
    (mt_WorkerIdleEvents m) (mt_QueuePressureEvents m) (mt_PolicyDecisionNS m) (mt_MaxRSSBytes m) actions fallbacks
    (mt_EffectiveSpeculationLimit m) (mt_SpeculationLimitApplied m) (mt_SpeculationTelemetryAvailable m)
    (mt_PeakSpeculativeInflight m) (mt_AdmissionStallEvents m) (mt_AdmissionStallNS m) (mt_Dependency m)
    (mt_KernelPolicy m) (mt_Unavailable m ++ unavailable).

(** The local variables of the loop over the traces. *)
Record collection := MkCollection {
  cl_metrics : Metrics;
  cl_actions : gmap string ActionCounter;
  cl_fallbacks : gmap string ActionCounter;
  detailedTraceSeen : bool;
  workTelemetrySeen : bool;
  speculationTelemetrySeen : bool;
  dependencyTelemetrySeen : bool;
}.

Definition collect_trace (c : collection) (trace : Trace) : collection :=
  let m := add_decision_time (cl_metrics c) (trace_PolicyDecisionDurationNS trace) in
  let m := if trace_WorkAvailable trace then merge_work (dependencyTelemetrySeen c) m (trace_Work trace) else m in
  MkCollection
    (foldl count_event m (trace_ActionCounters trace))
    (foldl addCounter (cl_actions c) (trace_ActionCounters trace))
    (foldl addCounter (cl_fallbacks c) (trace_FallbackCounters trace))
    ((trace_Mode trace =? TraceDetailed)%string || detailedTraceSeen c)
    (trace_WorkAvailable trace || workTelemetrySeen c)
    (trace_WorkAvailable trace && wk_SpeculationTelemetryAvailable (trace_Work trace) || speculationTelemetrySeen c)
    (trace_WorkAvailable trace || dependencyTelemetrySeen c).

Definition always_unavailable : list string :=
  ["transaction_latency: engine does not expose per-transaction timestamps";
   "mvcc_wait_time: frozen Block-STM callback is unavailable";
   "worker_idle_time: frozen scheduler callback is unavailable";
   "checkpoint_replay: nested recovery is not implemented in M1"]%string.

Definition zeroMetrics (blocks maxRSS : Z) : Metrics :=
  MkMetrics blocks 0 0 0 0 0 0 0 0 f0 f0 0 0 0 0 0 0 0 maxRSS [] [] 0 false false 0 0 0
    zeroDependencyCounters zeroKernelPolicyCounters always_unavailable.

(** What is reported as unavailable after the loop. *)
Definition unavailable_of (c : collection) : list string :=
  (if detailedTraceSeen c then [] else ["policy_decision_time: detailed trace mode is disabled"%string]) ++
  (if workTelemetrySeen c then [] else ["reexecution_work: telemetry is disabled"%string]) ++
  (if workTelemetrySeen c && negb (speculationTelemetrySeen c)
   then ["peak_speculative_inflight: original full-window path does not expose exact admission occupancy"%string] else []) ++
  (if dependencyTelemetrySeen c && (dc_Source (mt_Dependency (cl_metrics c)) =? DependencySourceRuntimeObserved)%string &&
      negb (dc_AcquisitionMeasured (mt_Dependency (cl_metrics c)))
   then ["runtime_dependency_acquisition: frozen MVCC callbacks do not expose separate acquisition cost"%string] else []).

Definition CollectMetrics {MR : MapRange} (results : list BlockResult) (traces : list Trace) (executionNS maxRSS : Z) : Metrics :=
  let m := zeroMetrics (u64 (Z.of_nat (length results))) maxRSS in
  let m := foldl (λ m r, foldl count_transaction m (br_Transactions r)) m results in
  let m := throughput executionNS m in
  let c := foldl collect_trace (MkCollection m ∅ ∅ false false false false) traces in
  report (cl_metrics c) (sortedCounters (cl_actions c)) (sortedCounters (cl_fallbacks c)) (unavailable_of c).

(** ** The cost of instrumentation *)

(** An index out of range panics. *)
Definition median (values : list Z) : outcome Z :=
  let ordered := sort_stable Z.ltb values in
  let middle := Z.of_nat (length ordered) / 2 in
  if Z.of_nat (length ordered) mod 2 =? 1 then deref (at_index ordered middle)
  else
    low ← deref (at_index ordered (middle - 1));
    high ← deref (at_index ordered middle);
    Returns (u64 (low / 2 + high / 2 + (low mod 2 + high mod 2) / 2)).

(** The constant [1e-12]. *)
Definition tolerance : float64 := S754_finite false 4951760157141521 (-92).

Definition NewAblationRecord (offCase instrumentedCase : string) (off instrumented : list Z) (budget : float64)
    (enforced : bool) : outcome (option AblationRecord) :=
  if (length off =? 0)%nat || (length instrumented =? 0)%nat then Returns None
  else
    offMedian ← median off;
    instrumentedMedian ← median instrumented;
    let overhead := if 0 <? offMedian then fsub (fdiv (float_of instrumentedMedian) (float_of offMedian)) f1 else f0 in
    Returns (Some (MkAblationRecord AblationRecordSchema offCase instrumentedCase offMedian instrumentedMedian overhead
      budget enforced (fle overhead budget || flt (SFabs (fsub overhead budget)) tolerance))).

(** ** Counters by event and action *)

Definition counter_pair (c : ActionCounter) : string * string := (ct_Event c, ct_Action c).

Lemma reported_less_key x y : reported_less x y = is_lt (cmp (counter_pair x) (counter_pair y)).
Proof.
  unfold reported_less. rewrite string_eqb_cmp, !string_ltb_cmp. 
  change (cmp (counter_pair x) (counter_pair y)) with (match cmp (ct_Event x) (ct_Event y) with Eq => cmp (ct_Action x) (ct_Action y) | c => c end).
  by destruct (cmp (ct_Event x) (ct_Event y)).
Qed.

(** Every entry is stored under its own key. *)
Definition keyed (m : gmap string ActionCounter) : Prop := ∀ k c, m !! k = Some c → k = counter_key c.

Lemma addCounter_keyed m c : keyed m → keyed (addCounter m c).
Proof.
  intros Hm k c'. unfold addCounter. rewrite lookup_insert. case_decide as E; [|apply Hm]. intros [= <-]. by rewrite <- E.
Qed.

Lemma foldl_keyed l m : keyed m → keyed (foldl addCounter m l).
Proof. revert m. induction l as [|c l IH]; intros m Hm; cbn; [done|]. by apply IH, addCounter_keyed. Qed.

Lemma keyed_pairs m : keyed m → NoDup (counter_pair <$> (map_to_list m).*2).
Proof.
  intros Hm. rewrite <- list_fmap_compose. apply NoDup_fmap_2_strong; [|apply NoDup_map_to_list].
  intros [k1 c1] [k2 c2] H1%elem_of_map_to_list H2%elem_of_map_to_list [= E1 E2].
  apply Hm in H1 as Hk1. apply Hm in H2 as Hk2. assert (k1 = k2) as -> by (rewrite Hk1, Hk2; unfold counter_key; by rewrite E1, E2).
  congruence.
Qed.

(** What is reported is the entries in strictly ascending order, whatever the
    order in which the map is visited. *)
Lemma sortedCounters_spec {MR : MapRange} m : keyed m →
  StronglySorted (λ x y, reported_less x y = true) (sortedCounters m) ∧
  ∀ c, c ∈ sortedCounters m ↔ m !! counter_key c = Some c.
Proof.
  intros Hm. unfold sortedCounters.
  assert (sort_stable reported_less (range m).*2 ≡ₚ (map_to_list m).*2) as Hp.
  { rewrite sort_stable_perm. by rewrite range_perm. }
  split.
  - pose proof (sort_stable_sorted counter_pair reported_less reported_less_key (range m).*2) as Hs.
    assert (NoDup (counter_pair <$> sort_stable reported_less (range m).*2)) as Hn by (rewrite Hp; by apply keyed_pairs).
    clear Hp. revert Hs Hn. generalize (sort_stable reported_less (range m).*2). intros l. induction 1 as [|x l Hl IH Hx]; intros Hn; [constructor|].
    cbn in Hn. apply NoDup_cons in Hn as [Hx' Hn]. constructor; [by apply IH|]. rewrite Forall_forall in Hx |- *. intros y Hy.
    specialize (Hx y Hy). rewrite reported_less_key. unfold key_before in Hx. rewrite cmp_opp in Hx.
    destruct (cmp (counter_pair x) (counter_pair y)) eqn:E; [|done|done]. apply cmp_eq in E. destruct Hx'. rewrite E. by apply list_elem_of_fmap_2.
  - intros c. rewrite Hp, list_elem_of_fmap. split.
    + intros ([k c'] & -> & H%elem_of_map_to_list). cbn. by rewrite <- (Hm _ _ H).
    + intros H. exists (counter_key c, c). split; [done|]. by apply elem_of_map_to_list.
Qed.

(** An event whose name has no zero byte. *)
Fixpoint plain (s : string) : bool :=
  match s with EmptyString => true | String a s => negb (Ascii.eqb a Ascii.zero) && plain s end.

Lemma counter_key_inj x y : plain (ct_Event x) = true → plain (ct_Event y) = true →
  counter_key x = counter_key y → counter_pair x = counter_pair y.
Proof.
  destruct x as [e1 a1 n1], y as [e2 a2 n2]. unfold counter_key, counter_pair. cbn [ct_Event ct_Action].
  revert e2. induction e1 as [|b e1 IH]; intros [|b' e2]; cbn [plain String.append].
  - by intros _ _ [= ->].
  - by intros _ [Hb _]%andb_true_iff [= <-].
  - by intros [Hb _]%andb_true_iff _ [= ->].
  - intros [_ H1]%andb_true_iff [_ H2]%andb_true_iff E. injection E as -> E. specialize (IH e2 H1 H2 E). congruence.
Qed.

(** The counts of a list of counters for an event and an action. *)
Definition same_counter (event action : string) (c : ActionCounter) : Prop := counter_pair c = (event, action).
#[export] Instance same_counter_dec event action c : Decision (same_counter event action c) := decide (_ = _).
Definition count_of (event action : string) (l : list ActionCounter) : Z :=
  total (ct_Count <$> filter (same_counter event action) l).

Definition all_plain (l : list ActionCounter) : Prop := ∀ c, c ∈ l → plain (ct_Event c) = true.

Lemma foldl_addCounter l event action :
  all_plain l → plain event = true →
  foldl addCounter ∅ l !! counter_key (MkCounter event action 0) =
  match filter (same_counter event action) l with
  | [] => None
  | _ :: _ => Some (MkCounter event action (u64 (count_of event action l)))
  end.
Proof.
  induction l as [|c l IH] using rev_ind; intros Hl He; [apply lookup_empty|].
  assert (all_plain l) as Hl' by (intros c' Hc; apply Hl, elem_of_app; by left).
  assert (plain (ct_Event c) = true) as Hc by (apply Hl, elem_of_app; right; by left).
  rewrite foldl_snoc. unfold addCounter at 1. rewrite lookup_insert. unfold count_of. rewrite filter_app, filter_cons, filter_nil.
  case_decide as E.
  - apply counter_key_inj in E as E'; [|done..]. rewrite decide_True by exact E'. injection E' as E1 E2.
    rewrite E, IH by done. rewrite E1, E2. unfold count_of.
    rewrite fmap_app, total_app. change (total (ct_Count <$> [c])) with (ct_Count c + 0). rewrite Z.add_0_r.
    destruct (filter (same_counter event action) l) as [|c' l'] eqn:Ef; cbn [app default ct_Count option_map]; [done|].
    unfold id, u64. cbn [ct_Count]. by rewrite Zplus_mod_idemp_l.
  - rewrite decide_False by (intros [= E1 E2]; apply E; unfold counter_key; cbn; by rewrite E1, E2).
    rewrite app_nil_r. by apply IH.
Qed.

(** A report of counters: ascending, one for each event and action that occurs,
    with the sum of its counts. *)
Definition reports (l shown : list ActionCounter) : Prop :=
  StronglySorted (λ x y, reported_less x y = true) shown ∧
  ∀ event action n, MkCounter event action n ∈ shown ↔
    (∃ c, c ∈ l ∧ same_counter event action c) ∧ n = u64 (count_of event action l).

Lemma sortedCounters_reports {MR : MapRange} l : all_plain l → reports l (sortedCounters (foldl addCounter ∅ l)).
Proof.
  intros Hl. destruct (sortedCounters_spec (foldl addCounter ∅ l)) as [Hs Hin]; [apply foldl_keyed; intros k c; by rewrite lookup_empty|].
  split; [done|]. intros event action n. rewrite Hin.
  change (counter_key (MkCounter event action n)) with (counter_key (MkCounter event action 0)).
  assert ((∃ c, c ∈ l ∧ same_counter event action c) ↔ filter (same_counter event action) l ≠ []) as Hex.
  { split.
    - intros (c & Hc & E) Hf. apply (not_elem_of_nil c). rewrite <- Hf. by apply list_elem_of_filter.
    - destruct (filter _ l) as [|c l'] eqn:Ef; [done|]. intros _. exists c. apply and_comm, (list_elem_of_filter _ l c). rewrite Ef. by left. }
  destruct (plain event) eqn:Ep.
  - rewrite foldl_addCounter by done. rewrite Hex. destruct (filter _ l); split; [done|by intros [? _]| |].
    + intros [= <-]. done.
    + by intros [_ ->].
  - split.
    + intros H. exfalso. revert Ep. assert (∃ c, c ∈ l ∧ ct_Event c = event) as (c & Hc & <-); [|by rewrite Hl].
      clear - H. induction l as [|c l IH] using rev_ind; [cbn [foldl] in H; by rewrite lookup_empty in H|].
      rewrite foldl_snoc in H. unfold addCounter at 1 in H. rewrite lookup_insert in H. case_decide.
      * injection H as E _ _. exists c. split; [apply elem_of_app; right; by left|done].
      * destruct (IH H) as (c' & Hc & E). exists c'. split; [apply elem_of_app; by left|done].
    + intros [(c & Hc & E) _]. injection E as E _. rewrite <- E, Hl in Ep; done.
Qed.

(** ** What a report adds up *)

(** The totals of a report and the events they count. *)
Definition event_totals : list ((Metrics → Z) * list string) :=
  [(mt_ValidationEvents, validation_events); (mt_ValidationFailures, [EventValidationFail]);
   (mt_ReexecutionEvents, [EventReplayStart]); (mt_WaitEvents, [EventReadEstimate]);
   (mt_WorkerIdleEvents, [EventWorkerIdle]); (mt_QueuePressureEvents, [EventQueuePressure])].

(** The fields summed over the blocks that report work. *)
Definition work_totals : list ((Metrics → Z) * (WorkCounters → Z)) :=
  let dependency f := ((λ m, f (mt_Dependency m)), (λ w, f (wk_Dependency w))) in
  let kernel f := ((λ m, f (mt_KernelPolicy m)), (λ w, f (wk_KernelPolicy w))) in
  [(mt_ExecutionAttempts, wk_ExecutionAttempts); (mt_ReexecutionAttempts, wk_ReexecutionAttempts);
   (mt_ReexecutedExecutionUnits, wk_ReexecutedExecutionUnits); (mt_DiscardedExecutionUnits, wk_DiscardedExecutionUnits);
   (mt_AdmissionStallEvents, wk_AdmissionStallEvents); (mt_AdmissionStallNS, wk_AdmissionStallNS)] ++
  (dependency <$> [dc_AcquisitionNS; dc_AcquisitionUnits; dc_AcquisitionBytes; dc_StaticReadKeys; dc_StaticWriteKeys;
     dc_RepresentationNS; dc_RepresentationBuildUnits; dc_RepresentationLogicalBytes; dc_RepresentationEntries;
     dc_DependencyEdges; dc_SummaryEntries; dc_EstimateBuildNS; dc_EstimatedWriteLocations; dc_EstimatedWriteKeyBytes;
     dc_ResolutionNS; dc_PlanLookups; dc_TraversalSteps; dc_WaitedExecutionAttempts; dc_WaitEvents; dc_WaitNS;
     dc_PostGuidanceReexecutions; dc_PostGuidanceReexecutionUnits]) ++
  (kernel <$> [kc_EstimateSuspends; kc_EstimateSuspendNS; kc_EstimateAborts; kc_DispatchDeferrals; kc_WorkerYields;
     kc_IdleParks; kc_ReadyQueueDispatches]).

(** The fields that keep the greatest value. *)
Definition work_peaks : list ((Metrics → Z) * (WorkCounters → Z)) :=
  [(mt_EffectiveSpeculationLimit, wk_SpeculationLimit); (mt_PeakSpeculativeInflight, wk_PeakSpeculativeInflight);
   ((λ m, dc_RepresentationMaxFanIn (mt_Dependency m)), (λ w, dc_RepresentationMaxFanIn (wk_Dependency w)));
   ((λ m, kc_PeakRunnableWorkers (mt_KernelPolicy m)), (λ w, kc_PeakRunnableWorkers (wk_KernelPolicy w)))].

Definition event_count (events : list string) (l : list ActionCounter) : Z :=
  total (ct_Count <$> filter (λ c, one_of (ct_Event c) events = true) l).

Lemma event_count_app events l l' : event_count events (l ++ l') = event_count events l + event_count events l'.
Proof. unfold event_count. by rewrite filter_app, fmap_app, total_app. Qed.

Definition works (traces : list Trace) : list WorkCounters := trace_Work <$> filter (λ t, trace_WorkAvailable t = true) traces.

(** Splits a membership in one of the lists of fields. *)
Ltac each_field H := repeat (apply elem_of_cons in H as [H|H]; [injection H as -> ->|]); try by apply elem_of_nil in H.

Lemma count_event_total g events m c : (g, events) ∈ event_totals → u64_range (g m) →
  g (count_event m c) = u64 (g m + if one_of (ct_Event c) events then ct_Count c else 0).
Proof.
  intros H Hm. unfold event_totals in H. each_field H; cbn [count_event] in *; cbv zeta; cbn -[one_of] in *;
    (destruct (one_of _ _); [done|by rewrite Z.add_0_r, u64_id]).
Qed.

Lemma foldl_count_event g events l m : (g, events) ∈ event_totals → u64_range (g m) →
  g (foldl count_event m l) = u64 (g m + event_count events l).
Proof.
  intros H Hm. rewrite (foldl_u64_in _ g (λ c, if one_of (ct_Event c) events then ct_Count c else 0)) by (try done; intros; by apply count_event_total).
  do 2 f_equal. unfold event_count. clear. induction l as [|c l IH]; [done|]. rewrite filter_cons. cbn [fmap list_fmap].
  unfold total in *. cbn [foldr]. rewrite IH. destruct (one_of _ _); case_decide; try done.
Qed.

Lemma event_totals_trace g events c t : (g, events) ∈ event_totals → u64_range (g (cl_metrics c)) →
  g (cl_metrics (collect_trace c t)) = u64 (g (cl_metrics c) + event_count events (trace_ActionCounters t)).
Proof.
  intros H Hm. unfold collect_trace. cbn [cl_metrics].
  assert (g (if trace_WorkAvailable t
    then merge_work (dependencyTelemetrySeen c) (add_decision_time (cl_metrics c) (trace_PolicyDecisionDurationNS t)) (trace_Work t)
    else add_decision_time (cl_metrics c) (trace_PolicyDecisionDurationNS t)) = g (cl_metrics c)) as E.
  { unfold event_totals in H. destruct (trace_WorkAvailable t); each_field H; done. }
  rewrite (foldl_count_event _ _ _ _ H) by by rewrite E. by rewrite E.
Qed.

(** A field that the counting of events leaves alone. *)
Lemma work_field_trace {B} (g : Metrics → B) c t :
  (∀ m x, g (count_event m x) = g m) → (∀ m ns, g (add_decision_time m ns) = g m) →
  g (cl_metrics (collect_trace c t)) =
  if trace_WorkAvailable t
  then g (merge_work (dependencyTelemetrySeen c) (add_decision_time (cl_metrics c) (trace_PolicyDecisionDurationNS t)) (trace_Work t))
  else g (cl_metrics c).
Proof.
  intros H1 H2. unfold collect_trace. cbn [cl_metrics]. rewrite (foldl_keeps _ g) by exact H1. destruct (trace_WorkAvailable t); [done|apply H2].
Qed.

Ltac each_work_field H := unfold work_totals, work_peaks in H; cbn [fmap list_fmap app] in H; each_field H.

Lemma work_totals_trace g h c t : (g, h) ∈ work_totals → u64_range (g (cl_metrics c)) →
  g (cl_metrics (collect_trace c t)) = u64 (g (cl_metrics c) + if trace_WorkAvailable t then h (trace_Work t) else 0).
Proof.
  intros H Hm. rewrite work_field_trace.
  - destruct (trace_WorkAvailable t); [|by rewrite Z.add_0_r, u64_id]. each_work_field H; done.
  - each_work_field H; done.
  - each_work_field H; done.
Qed.

Lemma work_peaks_trace g h c t : (g, h) ∈ work_peaks →
  g (cl_metrics (collect_trace c t)) = if trace_WorkAvailable t then Z.max (g (cl_metrics c)) (h (trace_Work t)) else g (cl_metrics c).
Proof.
  intros H. rewrite work_field_trace.
  - destruct (trace_WorkAvailable t); [|done].
    assert (∀ a b, raise a b = Z.max a b) as Hr by (intros a b; unfold raise; destruct (Z.ltb_spec a b); lia).
    each_work_field H; cbn; apply Hr.
  - each_work_field H; done.
  - each_work_field H; done.
Qed.

Lemma foldl_bind {A B S} (step : S → B → S) (f : A → list B) s (l : list A) :
  foldl (λ s x, foldl step s (f x)) s l = foldl step s (l ≫= f).
Proof. revert s. induction l as [|x l IH]; intros s; cbn; [done|]. by rewrite IH, foldl_app. Qed.

Abbreviation collected m traces := (foldl collect_trace (MkCollection m ∅ ∅ false false false false) traces).

Lemma collected_maps m traces :
  cl_actions (collected m traces) = foldl addCounter ∅ (traces ≫= trace_ActionCounters) ∧
  cl_fallbacks (collected m traces) = foldl addCounter ∅ (traces ≫= trace_FallbackCounters).
Proof.
  rewrite <- !foldl_bind. induction traces as [|t traces IH] using rev_ind; [done|]. rewrite !foldl_snoc. cbn.
  destruct IH as [<- <-]. done.
Qed.

Lemma collected_total (g : Metrics → Z) (h : Trace → Z) m traces :
  (∀ c t, u64_range (g (cl_metrics c)) → g (cl_metrics (collect_trace c t)) = u64 (g (cl_metrics c) + h t)) →
  u64_range (g m) → g (cl_metrics (collected m traces)) = u64 (g m + total (h <$> traces)).
Proof. intros Hg Hm. by apply (foldl_u64_in collect_trace (λ c, g (cl_metrics c)) h). Qed.

Lemma total_if (h : WorkCounters → Z) traces :
  total ((λ t, if trace_WorkAvailable t then h (trace_Work t) else 0) <$> traces) = total (h <$> works traces).
Proof.
  unfold works. induction traces as [|t traces IH]; [done|]. rewrite filter_cons. cbn [fmap list_fmap]. unfold total in *. cbn [foldr].
  rewrite IH. destruct (trace_WorkAvailable t); case_decide; done.
Qed.

Lemma event_count_bind events traces :
  total ((λ t, event_count events (trace_ActionCounters t)) <$> traces) = event_count events (traces ≫= trace_ActionCounters).
Proof. induction traces as [|t traces IH]; [done|].
  cbn [fmap list_fmap mbind list_bind]. by rewrite event_count_app, <- IH. Qed.

(** What counting the transactions leaves. *)
Record transactions_counted (txs : list TxResult) (m m' : Metrics) : Prop := {
  tc_transactions : mt_Transactions m' = u64 (Z.of_nat (length txs));
  tc_success : mt_SuccessfulTransactions m' = u64 (Z.of_nat (length (filter (λ t, tr_Status t = TxStatusSuccess) txs)));
  tc_failed : mt_FailedTransactions m' = u64 (Z.of_nat (length (filter (λ t, tr_Status t ≠ TxStatusSuccess) txs)));
  tc_units : mt_UsefulExecutionUnits m' = u64 (total (UnitsUsed <$> txs));
}.

Lemma total_count {A} (P : A → Prop) `{∀ x, Decision (P x)} l :
  total ((λ x, if decide (P x) then 1 else 0) <$> l) = Z.of_nat (length (filter P l)).
Proof.
  induction l as [|x l IH]; [done|]. rewrite filter_cons. cbn [fmap list_fmap]. unfold total in *. cbn [foldr]. rewrite IH.
  case_decide; cbn [length]; lia.
Qed.

Lemma count_transactions txs blocks maxRSS executionNS :
  transactions_counted txs (zeroMetrics blocks maxRSS) (throughput executionNS (foldl count_transaction (zeroMetrics blocks maxRSS) txs)).
Proof.
  assert (transactions_counted txs (zeroMetrics blocks maxRSS) (foldl count_transaction (zeroMetrics blocks maxRSS) txs)) as [H1 H2 H3 H4].
  { assert (0 <= 0 < W64) as H0 by done. split.
    - rewrite (foldl_u64 count_transaction mt_Transactions (λ _, 1)) by done. f_equal. clear.
      cbn [zeroMetrics mt_Transactions]. induction txs as [|t txs IH]; [done|]. unfold total in *. cbn -[Z.of_nat]. lia.
    - rewrite <- (total_count (λ t, tr_Status t = TxStatusSuccess)). rewrite (foldl_u64_in count_transaction mt_SuccessfulTransactions (λ t, if decide (tr_Status t = TxStatusSuccess) then 1 else 0)); [done| |done].
      intros m t Hm. cbn. destruct (String.eqb_spec (tr_Status t) TxStatusSuccess); case_decide; try done. by rewrite Z.add_0_r, u64_id.
    - rewrite <- (total_count (λ t, tr_Status t ≠ TxStatusSuccess)). rewrite (foldl_u64_in count_transaction mt_FailedTransactions (λ t, if decide (tr_Status t ≠ TxStatusSuccess) then 1 else 0)); [done| |done].
      intros m t Hm. cbn. destruct (String.eqb_spec (tr_Status t) TxStatusSuccess); case_decide; try done. by rewrite Z.add_0_r, u64_id.
    - by rewrite (foldl_u64 count_transaction mt_UsefulExecutionUnits UnitsUsed). }
  unfold throughput. destruct (0 <? executionNS); [|done]. split; assumption.
Qed.

Lemma collected_peak g h m traces : (g, h) ∈ work_peaks →
  g (cl_metrics (collected m traces)) = foldr Z.max (g m) (h <$> works traces).
Proof.
  intros H. induction traces as [|t traces IH] using rev_ind; [done|]. rewrite foldl_snoc, (work_peaks_trace g h) by done. rewrite IH.
  unfold works. rewrite filter_app, filter_cons, filter_nil, fmap_app, fmap_app, foldr_app.
  destruct (trace_WorkAvailable t); case_decide; try done. cbn [fmap list_fmap foldr]. clear.
  generalize (h <$> (trace_Work <$> filter (λ t, trace_WorkAvailable t = true) traces)). intros l.
  induction l as [|x l IH]; cbn [foldr]; lia.
Qed.

(** C36: The metrics of a run are the exact sums over its results and traces, whose
    event names hold no NUL byte, as those of the registry (a
    sum beyond 64 bits wraps around): transactions and how they ended, units,
    the events of each kind, every counter of the work of the blocks that report
    work, and the greatest speculation limit, occupancy, fan-in and number of
    runnable workers.  The reported action and fallback counters are in strictly
    ascending order, one for each event and action that occurs in a trace, with
    the sum of its counts; so they do not depend on the order in which the maps
    are visited. *)
Theorem CollectMetrics_exact {MR : MapRange} results traces executionNS maxRSS :
  all_plain (traces ≫= trace_ActionCounters) → all_plain (traces ≫= trace_FallbackCounters) →
  let m := CollectMetrics results traces executionNS maxRSS in
  transactions_counted (results ≫= br_Transactions) (zeroMetrics (u64 (Z.of_nat (length results))) maxRSS) m ∧
  u64 (mt_SuccessfulTransactions m + mt_FailedTransactions m) = mt_Transactions m ∧
  reports (traces ≫= trace_ActionCounters) (mt_ActionCounters m) ∧
  reports (traces ≫= trace_FallbackCounters) (mt_FallbackCounters m) ∧
  mt_PolicyDecisionNS m = u64 (total (trace_PolicyDecisionDurationNS <$> traces)) ∧
  (∀ g events, (g, events) ∈ event_totals → g m = u64 (event_count events (traces ≫= trace_ActionCounters))) ∧
  (∀ g h, (g, h) ∈ work_totals → g m = u64 (total (h <$> works traces))) ∧
  (∀ g h, (g, h) ∈ work_peaks → g m = foldr Z.max 0 (h <$> works traces)).
Proof.
  intros Ha Hf m. unfold m, CollectMetrics. cbv zeta. rewrite foldl_bind.
  set (txs := results ≫= br_Transactions). set (zero := zeroMetrics _ _).
  set (m1 := throughput executionNS (foldl count_transaction zero txs)). set (c := collected m1 traces).
  assert (∀ {B} (g : Metrics → B), (∀ m t, g (count_transaction m t) = g m) → (∀ n m, g (throughput n m) = g m) → g m1 = g zero) as H1.
  { intros B g Ht Hn. unfold m1. rewrite Hn. by apply foldl_keeps. }
  assert (∀ {B} (g : Metrics → B), (∀ c t, g (cl_metrics (collect_trace c t)) = g (cl_metrics c)) → g (cl_metrics c) = g m1) as H2.
  { intros B g Hg. by apply (foldl_keeps collect_trace (λ c, g (cl_metrics c))). }
  assert (∀ f, f ∈ [mt_Transactions; mt_SuccessfulTransactions; mt_FailedTransactions; mt_UsefulExecutionUnits] → f (cl_metrics c) = f m1) as Hkeep.
  { intros f H. apply H2. intros c' t. rewrite work_field_trace; [destruct (trace_WorkAvailable t)|..]; repeat (apply elem_of_cons in H as [->|H]; [done|]); by apply elem_of_nil in H. }
  destruct (count_transactions txs (u64 (Z.of_nat (length results))) maxRSS executionNS) as [Hc1 Hc2 Hc3 Hc4]. fold zero in Hc1, Hc2, Hc3, Hc4.
  fold m1 in Hc1, Hc2, Hc3, Hc4. destruct (collected_maps m1 traces) as [Ea Ef]. fold c in Ea, Ef. unfold report.
  cbn [mt_Transactions mt_SuccessfulTransactions mt_FailedTransactions mt_UsefulExecutionUnits mt_ActionCounters mt_FallbackCounters mt_PolicyDecisionNS].
  split; [|split; [|split; [|split; [|split; [|split; [|split]]]]]].
  - split; cbn [mt_Transactions mt_SuccessfulTransactions mt_FailedTransactions mt_UsefulExecutionUnits]; rewrite Hkeep by set_solver; assumption.
  - rewrite !Hkeep by set_solver. rewrite Hc1, Hc2, Hc3. unfold u64. rewrite Zplus_mod_idemp_l, Zplus_mod_idemp_r, <- Nat2Z.inj_add. do 2 f_equal.
    clear. induction txs as [|t l IH]; [done|]. rewrite !filter_cons. repeat case_decide; cbn [length]; try done; lia.
  - rewrite Ea. by apply sortedCounters_reports.
  - rewrite Ef. by apply sortedCounters_reports.
  - assert (mt_PolicyDecisionNS m1 = 0) as E0 by (rewrite H1; try done; intros n m'; unfold throughput; by destruct (0 <? n)).
    unfold c. rewrite (collected_total mt_PolicyDecisionNS trace_PolicyDecisionDurationNS); [by rewrite E0| |by rewrite E0].
    intros c' t _. unfold collect_trace. cbn [cl_metrics]. rewrite (foldl_keeps _ mt_PolicyDecisionNS) by done. by destruct (trace_WorkAvailable t).
  - intros g events H. assert (g m1 = 0) as E0 by (rewrite H1; unfold event_totals in H; each_field H; try done; intros n m'; unfold throughput; by destruct (0 <? n)).
    assert (g (cl_metrics c) = u64 (event_count events (traces ≫= trace_ActionCounters))) as <-.
    { unfold c. rewrite (collected_total g (λ t, event_count events (trace_ActionCounters t))); [by rewrite E0, event_count_bind| |by rewrite E0].
      intros; by apply event_totals_trace. }
    unfold event_totals in H. each_field H; done.
  - intros g h H. assert (g m1 = 0) as E0 by (rewrite H1; each_work_field H; try done; intros n m'; unfold throughput; by destruct (0 <? n)).
    assert (g (cl_metrics c) = u64 (total (h <$> works traces))) as <-.
    { unfold c. rewrite (collected_total g (λ t, if trace_WorkAvailable t then h (trace_Work t) else 0)); [by rewrite E0, total_if| |by rewrite E0].
      intros; by apply work_totals_trace. }
    each_work_field H; done.
  - intros g h H. assert (g m1 = 0) as E0 by (rewrite H1; each_work_field H; try done; intros n m'; unfold throughput; by destruct (0 <? n)).
    assert (g (cl_metrics c) = foldr Z.max 0 (h <$> works traces)) as <- by (rewrite <- E0; by apply (collected_peak g h)).
    each_work_field H; done.
Qed.

(** ** Medians *)

(** The rounded-down mean of the two elements in the middle of the sorted
    samples, which are the same one when there is an odd number. *)
Definition is_median (values : list Z) (m : Z) : Prop :=
  ∃ ordered low high, ordered ≡ₚ values ∧ StronglySorted Z.le ordered ∧
    ordered !! ((length values - 1) / 2)%nat = Some low ∧ ordered !! (length values / 2)%nat = Some high ∧
    m = (low + high) / 2.

Lemma halves_no_overflow a b : 0 <= a → 0 <= b → a / 2 + b / 2 + (a mod 2 + b mod 2) / 2 = (a + b) / 2.
Proof.
  intros. rewrite <- Z.div_add_l by lia. pose proof (Z.div_mod a 2 ltac:(lia)). pose proof (Z.div_mod b 2 ltac:(lia)).
  apply (f_equal (λ z, z / 2)). lia.
Qed.

Lemma median_spec values : values ≠ [] → (∀ v, v ∈ values → u64_range v) → ∃ m, median values = Returns m ∧ is_median values m.
Proof.
  intros Hne Hr. unfold median. set (ordered := sort_stable Z.ltb values).
  assert (ordered ≡ₚ values) as Hp by apply sort_stable_perm. assert (length ordered = length values) as Hlen by by rewrite Hp.
  assert (StronglySorted Z.le ordered) as Hs.
  { pose proof (sort_stable_sorted (λ v : Z, v) Z.ltb (λ x y, eq_refl) values) as H. fold ordered in H. clear - H.
    induction H as [|x l _ IH Hx]; constructor; [done|]. eapply Forall_impl; [exact Hx|]. intros y Hy.
    unfold key_before, cmp, Z_comparison in Hy. destruct (Z.compare_spec y x); [lia|done|lia]. }
  set (n := length values) in *. assert (0 < n)%nat as Hn by (destruct values; [done|unfold n; cbn; lia]).
  assert (∀ i, (i < n)%nat → ∃ v, ordered !! i = Some v ∧ u64_range v) as Hat.
  { intros i Hi. destruct (lookup_lt_is_Some_2 ordered i) as [v Hv]; [lia|]. exists v. split; [done|]. apply Hr. rewrite <- Hp. by eapply list_elem_of_lookup_2. }
  rewrite Hlen. cbv zeta. change 2 with (Z.of_nat 2). rewrite <- Nat2Z.inj_div, <- Nat2Z.inj_mod.
  pose proof (Nat.div_mod n 2 ltac:(done)) as Hdm. pose proof (Nat.mod_upper_bound n 2 ltac:(done)) as Hub.
  destruct (Hat (n / 2)%nat) as (high & Hh & Hhr); [apply Nat.div_lt; lia|].
  destruct (Hat ((n - 1) / 2)%nat) as (low & Hl & Hlr); [apply Nat.Div0.div_lt_upper_bound; lia|].
  destruct (Z.eqb_spec (Z.of_nat (n mod 2)) 1) as [Eo|Ee].
  - rewrite (proj2 (at_index_lookup ordered (Z.of_nat (n / 2)) high ltac:(lia))) by (by rewrite Nat2Z.id). exists high. split; [done|].
    exists ordered, low, high. split_and!; [done..|]. assert ((n - 1) / 2 = n / 2)%nat as E.
    { replace (n - 1)%nat with (n / 2 * 2)%nat by lia. apply Nat.div_mul. lia. }
    rewrite E, Hh in Hl. injection Hl as ->. replace (low + low) with (low * 2) by lia. by rewrite Z.div_mul.
  - assert ((n - 1) / 2 = n / 2 - 1)%nat as E.
    { assert (1 <= n / 2)%nat by (destruct (n / 2)%nat; lia). replace (n - 1)%nat with ((n / 2 - 1) * 2 + 1)%nat by lia.
      rewrite Nat.div_add_l by lia. change (1 / 2)%nat with 0%nat. lia. }
    assert (1 <= n / 2)%nat by (destruct (n / 2)%nat; lia).
    rewrite (proj2 (at_index_lookup ordered (Z.of_nat (n / 2) - 1) low ltac:(lia))) by
      (replace (Z.to_nat (Z.of_nat (n / 2) - 1)) with ((n - 1) / 2)%nat by lia; done).
    rewrite (proj2 (at_index_lookup ordered (Z.of_nat (n / 2)) high ltac:(lia))) by (by rewrite Nat2Z.id). cbn [deref mbind outcome_bind].
    unfold u64_range in *. eexists. split; [done|]. exists ordered, low, high. split_and!; [done..|].
    change (Z.of_nat 2) with 2. rewrite halves_no_overflow by lia. apply u64_id. unfold u64_range. change W64 with (2 ^ 64) in *.
    split; [apply Z.div_pos; lia|]. apply Z.div_lt_upper_bound; lia.
Qed.

(** The record made from samples of both cases. *)
Record ablation_made (offCase instrumentedCase : string) (off instrumented : list Z) (budget : float64) (enforced : bool)
    (r : AblationRecord) : Prop := {
  am_off : is_median off (ab_OffMedianNS r);
  am_instrumented : is_median instrumented (ab_InstrumentedMedianNS r);
  am_cases : ab_OffCase r = offCase ∧ ab_InstrumentedCase r = instrumentedCase;
  am_budget : ab_Enforced r = enforced ∧ ab_BudgetRatio r = budget;
  am_within : fle (ab_OverheadRatio r) budget = true → ab_WithinBudget r = true;
}.

Lemma NewAblationRecord_made offCase instrumentedCase off instrumented budget enforced :
  (∀ v, v ∈ off ++ instrumented → u64_range v) → off ≠ [] → instrumented ≠ [] →
  ∃ r, NewAblationRecord offCase instrumentedCase off instrumented budget enforced = Returns (Some r) ∧
    ablation_made offCase instrumentedCase off instrumented budget enforced r.
Proof.
  intros Hr Hoff Hins. unfold NewAblationRecord. destruct off as [|o off]; [done|]. destruct instrumented as [|i ins]; [done|].
  cbn [length Nat.eqb orb]. destruct (median_spec (o :: off)) as (m1 & -> & H1); [done|intros v Hv; apply Hr, elem_of_app; by left|].
  destruct (median_spec (i :: ins)) as (m2 & -> & H2); [done|intros v Hv; apply Hr, elem_of_app; by right|].
  cbn [mbind outcome_bind]. eexists. split; [done|]. split; cbn; try done. by intros ->.
Qed.

(** The ablation record compares exact medians: with samples for both cases
    it is made, without a panic and without overflow although the sum of two
    samples may exceed 64 bits, from the medians of the samples; without samples
    of one of the cases it is refused; and it is within budget when the overhead
    is not above the budget. *)
Lemma NewAblationRecord_exact offCase instrumentedCase off instrumented budget enforced :
  (∀ v, v ∈ off ++ instrumented → u64_range v) →
  (NewAblationRecord offCase instrumentedCase off instrumented budget enforced = Returns None ↔ off = [] ∨ instrumented = []) ∧
  (off ≠ [] → instrumented ≠ [] →
   ∃ r, NewAblationRecord offCase instrumentedCase off instrumented budget enforced = Returns (Some r) ∧
     ablation_made offCase instrumentedCase off instrumented budget enforced r).
Proof.
  intros Hr. split; [|by apply NewAblationRecord_made]. split.
  - intros E. destruct off as [|o off]; [by left|]. destruct instrumented as [|i ins]; [by right|].
    destruct (NewAblationRecord_made offCase instrumentedCase _ _ budget enforced Hr) as (r & E' & _); [done..|]. congruence.
  - unfold NewAblationRecord. intros [->| ->]; [done|]. by rewrite orb_true_r.
Qed.

(** ** A run of two blocks *)

Section witnesses.
#[local] Instance listed_range : MapRange :=
  {| range _ _ _ _ m := map_to_list m; range_perm _ _ _ _ m := reflexivity _ |}.

Definition sample_traces : list Trace :=
  [MkTrace "e" "p" "1" TraceCounters [] [MkCounter EventTxEnd "a" 2; MkCounter EventReadEstimate "w" 1] [] 5 false zeroWorkCounters;
   MkTrace "e" "p" "1" TraceCounters [] [MkCounter EventReadEstimate "w" 3] [] 7 false zeroWorkCounters].

Lemma CollectMetrics_exact_witness :
  mt_WaitEvents (CollectMetrics [] sample_traces 0 0) = 4 ∧
  mt_ActionCounters (CollectMetrics [] sample_traces 0 0) = [MkCounter EventReadEstimate "w" 4; MkCounter EventTxEnd "a" 2] ∧
  mt_PolicyDecisionNS (CollectMetrics [] sample_traces 0 0) = u64 (total (trace_PolicyDecisionDurationNS <$> sample_traces)).
Proof.
  split; [vm_compute; reflexivity|]. split; [vm_compute; reflexivity|].
  destruct (CollectMetrics_exact [] sample_traces 0 0) as (_ & _ & _ & _ & H & _); [| |exact H].
  - intros c Hc. vm_compute in Hc. repeat (apply elem_of_cons in Hc as [->|Hc]; [reflexivity|]). by apply elem_of_nil in Hc.
  - intros c Hc. vm_compute in Hc. by apply elem_of_nil in Hc.
Defined.

(** Two samples near the top of the range. *)
Lemma NewAblationRecord_exact_witness :
  median [2 ^ 64 - 1; 2 ^ 64 - 3] = Returns (2 ^ 64 - 2) ∧
  ∃ r, NewAblationRecord "off" "on" [2 ^ 64 - 1; 2 ^ 64 - 3] [7] f0 true = Returns (Some r) ∧ is_median [7] (ab_InstrumentedMedianNS r).
Proof.
  split; [vm_compute; reflexivity|].
  destruct (NewAblationRecord_exact "off" "on" [2 ^ 64 - 1; 2 ^ 64 - 3] [7] f0 true) as [_ (r & E & [_ H _ _ _])]; [|done..|by exists r].
  intros v Hv. repeat (apply elem_of_cons in Hv as [->|Hv]; [by vm_compute|]). by apply elem_of_nil in Hv.
Defined.
End witnesses.
