(* ===== verification/Dispatcher.v ===== *)
(** * internal/policy: the dispatcher and the fixed presets

    A [Policy] is a value of a Go interface: its methods are functions of a
    state of its own, which may also panic or not come back.  Every decision is
    a struct with one string field, so a decision is a string.  The durations
    measured with the wall clock are an input, the list [d_clock]. *)

From Stdlib Require Import ZArith Lia String.
From stdpp Require Import pretty.
From S2P Require Import Prelude Model State Runtime Control.
Local Open Scope Z_scope.

Record Identity := MkIdentity {
  id_Name : string;
  id_Version : string;
  id_FeatureSource : string;
  id_ObservationVersion : string;
  id_TableVersion : string;
}.

(** A method of a policy with state [S]. *)
Abbreviation decider S ctx := (S → ctx → outcome (S * string)).

Record Policy (S : Type) := MkPolicy {
  po_Identity : Identity;
  po_OnEpochStart : decider S EpochContext;
  po_OnBlockReady : decider S BlockContext;
  po_OnTxAdmit : decider S TxContext;
  po_OnTxReady : decider S TxContext;
  po_OnEstimateRead : decider S ConflictContext;
  po_OnConflict : decider S ConflictContext;
  po_OnTaskReady : decider S TaskContext;
  po_OnRetryLimit : decider S RetryContext;
  po_OnWorkerIdle : decider S ResourceContext;
  po_OnQueuePressure : decider S ResourceContext;
  po_BeforeRead : decider S AccessContext;
  po_BeforeWrite : decider S AccessContext;
  po_OnBranch : decider S BranchContext;
  po_OnCallEnter : decider S CallContext;
  po_OnValidationPoint : decider S ValidationContext;
  po_OnValidationFail : decider S FailureContext;
  po_OnReplayStart : decider S ReplayContext;
}.
Arguments MkPolicy {_} _ _ _ _ _ _ _ _ _ _ _ _ _ _ _ _ _ _.
Arguments po_Identity {_} _.
Arguments po_OnEpochStart {_} _. Arguments po_OnBlockReady {_} _.
Arguments po_OnTxAdmit {_} _. Arguments po_OnTxReady {_} _.
Arguments po_OnEstimateRead {_} _. Arguments po_OnConflict {_} _.
Arguments po_OnTaskReady {_} _. Arguments po_OnRetryLimit {_} _.
Arguments po_OnWorkerIdle {_} _. Arguments po_OnQueuePressure {_} _.
Arguments po_BeforeRead {_} _. Arguments po_BeforeWrite {_} _.
Arguments po_OnBranch {_} _. Arguments po_OnCallEnter {_} _.
Arguments po_OnValidationPoint {_} _. Arguments po_OnValidationFail {_} _.
Arguments po_OnReplayStart {_} _.

(** [ErrInvalidPolicy] with its reasons, and [ErrInvalidDecision] with the
    event and the action of its message. *)
Inductive policy_error :=
| PolicyIsNil
| InvalidTraceMode (mode : string)
| PolicyIdentityRequired
| ErrInvalidDecision (event action : string).

Section dispatcher.
Context {S : Type}.

Record Dispatcher := MkDispatcher {
  d_policy : Policy S;
  d_state : S;
  d_identity : Identity;
  d_recorder : Recorder;
  d_traceMode : string;
  d_err : option policy_error;
  d_clock : list Z;
}.

Definition put_state (d : Dispatcher) (s : S) : Dispatcher :=
  MkDispatcher (d_policy d) s (d_identity d) (d_recorder d) (d_traceMode d) (d_err d) (d_clock d).
Definition put_err (d : Dispatcher) (e : policy_error) : Dispatcher :=
  MkDispatcher (d_policy d) (d_state d) (d_identity d) (d_recorder d) (d_traceMode d) (Some e) (d_clock d).
Definition put_recorder (d : Dispatcher) (r : Recorder) (clock : list Z) : Dispatcher :=
  MkDispatcher (d_policy d) (d_state d) (d_identity d) r (d_traceMode d) (d_err d) clock.

(** A nil policy is [None]. *)
Definition NewDispatcherWithTrace (value : option (Policy S * S)) (traceMode : string) (clock : list Z)
    : policy_error + Dispatcher :=
  match value with
  | None => inl PolicyIsNil
  | Some (p, s) =>
      if negb (ValidTraceMode traceMode) then inl (InvalidTraceMode traceMode)
      else
        let identity := po_Identity p in
        if (id_Name identity =? "")%string || (id_Version identity =? "")%string
        then inl PolicyIdentityRequired
        else
          let or_else (v d : string) := if (v =? "")%string then d else v in
          let identity := MkIdentity (id_Name identity) (id_Version identity)
            (or_else (id_FeatureSource identity) "unspecified")
            (or_else (id_ObservationVersion identity) "unspecified")
            (or_else (id_TableVersion identity) (id_Version identity)) in
          inr (MkDispatcher p s identity (NewRecorder traceMode) traceMode None clock)
  end.

Definition NewDispatcher (value : option (Policy S * S)) (clock : list Z) : policy_error + Dispatcher :=
  NewDispatcherWithTrace value TraceDetailed clock.

Definition Err (d : Dispatcher) : option policy_error := d_err d.

Definition Dispatcher_Trace (d : Dispatcher) (engine : string) : Trace :=
  let '(actions, fallbacks, duration) := Summary (d_recorder d) in
  MkTrace engine (id_Name (d_identity d)) (id_Version (d_identity d)) (d_traceMode d)
    (Recorder_Snapshot (d_recorder d)) actions fallbacks duration false zeroWorkCounters.

(** ** Validation and recording *)

(** Only the first error is kept. *)
Definition validate (d : Dispatcher) (valid : bool) (event action : string) : Dispatcher :=
  if valid then d
  else match d_err d with
  | None => put_err d (ErrInvalidDecision event action)
  | Some _ => d
  end.

(** Whether the clock is read: the zero time otherwise. *)
Definition startDecision (d : Dispatcher) : bool := (d_traceMode d =? TraceDetailed)%string.

Definition record (d : Dispatcher) (r : EventRecord) (started : bool) : Dispatcher :=
  if (d_traceMode d =? TraceOff)%string then d
  else if (d_traceMode d =? TraceCounters)%string then
    put_recorder d
      (Record_event (d_recorder d) (MkRecord (er_Event r) "" "" 0 0 0 "" (er_Action r) "" "" "" "" 0))
      (d_clock d)
  else
    let trust := match EventDescription (er_Event r) with
                 | Some descriptor => ed_TrustClass descriptor
                 | None => er_TrustClass r
                 end in
    let '(duration, clock) :=
      if started then (default 0 (head (d_clock d)), tail (d_clock d)) else (er_DecisionDurationNS r, d_clock d) in
    put_recorder d
      (Record_event (d_recorder d)
         (MkRecord (er_Event r) (er_BlockID r) (er_TransactionID r) (er_TxIndex r) (er_Incarnation r)
            (er_Ordinal r) (er_TargetID r) (er_Action r) trust
            (id_FeatureSource (d_identity d)) (id_ObservationVersion (d_identity d))
            (id_TableVersion (d_identity d)) (u64 duration)))
      clock.

Definition recordMacro (d : Dispatcher) (event blockID targetID action : string) (started : bool) : Dispatcher :=
  record d (MkRecord event blockID "" 0 0 0 targetID action "" "" "" "" 0) started.

Definition recordTx (d : Dispatcher) (event : string) (ctx : TxContext) (targetID action : string)
    (started : bool) : Dispatcher :=
  record d (MkRecord event (tc_BlockID ctx) (tc_TransactionID ctx) (tc_TxIndex ctx) (tc_Incarnation ctx)
              (tc_Ordinal ctx) targetID action "" "" "" "" 0) started.

Definition recordResource (d : Dispatcher) (event : string) (ctx : ResourceContext) (action : string)
    (started : bool) : Dispatcher :=
  record d (MkRecord event (rs_BlockID ctx) "" 0 0 (rs_Ordinal ctx)
              ("worker-" +:+ pretty (rs_Worker ctx))%string action "" "" "" "" 0) started.

Definition validLane (lane : string) : bool := (lane =? LaneSerial)%string || (lane =? LaneOptimistic)%string.
Definition validWaitMode (mode : string) : bool :=
  (mode =? WaitModeNone)%string || (mode =? WaitLogicalPredecessor)%string.

Definition validationEvent (kind : string) : string * bool :=
  if (kind =? ValidationExplicit)%string then (EventValidationPoint, true)
  else if (kind =? ValidationTxEnd)%string then (EventTxEnd, true)
  else if (kind =? ValidationSubtxEnd)%string then (EventSubtxEnd, true)
  else (EventValidationPoint, false).

(** ** The handlers *)

Definition disp_OnEpochStart (d : Dispatcher) (ctx : EpochContext) : outcome (Dispatcher * string) :=
  let started := startDecision d in
  '(s, decision) ← po_OnEpochStart (d_policy d) (d_state d) ctx;
  let d := validate (put_state d s) (decision =? EpochKeepPolicy)%string EventEpochStart decision in
  Returns (recordMacro d EventEpochStart "" (ep_EpochID ctx) decision started, decision).

Definition disp_OnBlockReady (d : Dispatcher) (ctx : BlockContext) : outcome (Dispatcher * string) :=
  let started := startDecision d in
  '(s, decision) ← po_OnBlockReady (d_policy d) (d_state d) ctx;
  let d := validate (put_state d s) (decision =? BlockUseFullWindow)%string EventBlockReady decision in
  Returns (recordMacro d EventBlockReady (bk_BlockID ctx) (bk_BlockID ctx) decision started, decision).

Definition disp_OnTxAdmit (d : Dispatcher) (ctx : TxContext) : outcome (Dispatcher * string) :=
  let started := startDecision d in
  '(s, decision) ← po_OnTxAdmit (d_policy d) (d_state d) ctx;
  let d := validate (put_state d s) (validLane decision) EventTxAdmit decision in
  Returns (recordTx d EventTxAdmit ctx (tc_TransactionID ctx) decision started, decision).

Definition disp_OnTxReady (d : Dispatcher) (ctx : TxContext) : outcome (Dispatcher * string) :=
  let started := startDecision d in
  '(s, decision) ← po_OnTxReady (d_policy d) (d_state d) ctx;
  let d := validate (put_state d s) (validLane decision) EventTxReady decision in
  Returns (recordTx d EventTxReady ctx (tc_TransactionID ctx) decision started, decision).

Definition disp_OnEstimateRead (d : Dispatcher) (ctx : ConflictContext) : outcome (Dispatcher * string) :=
  let started := startDecision d in
  '(s, decision) ← po_OnEstimateRead (d_policy d) (d_state d) ctx;
  let d := validate (put_state d s) (validWaitMode decision) EventReadEstimate decision in
  Returns (recordTx d EventReadEstimate (cc_Tx ctx) (tc_TransactionID (cc_Tx ctx)) decision started, decision).

Definition disp_OnConflict (d : Dispatcher) (ctx : ConflictContext) : outcome (Dispatcher * string) :=
  let started := startDecision d in
  '(s, decision) ← po_OnConflict (d_policy d) (d_state d) ctx;
  let d := validate (put_state d s) (decision =? ConflictValidate)%string EventConflict decision in
  Returns (recordTx d EventConflict (cc_Tx ctx) (tc_TransactionID (cc_Tx ctx)) decision started, decision).

Definition disp_OnTaskReady (d : Dispatcher) (ctx : TaskContext) : outcome (Dispatcher * string) :=
  let started := startDecision d in
  '(s, decision) ← po_OnTaskReady (d_policy d) (d_state d) ctx;
  let d := validate (put_state d s) (decision =? SchedulingFIFO)%string EventTaskReady decision in
  Returns (recordTx d EventTaskReady (tk_Tx ctx) (tc_TransactionID (tk_Tx ctx)) decision started, decision).

Definition disp_OnRetryLimit (d : Dispatcher) (ctx : RetryContext) : outcome (Dispatcher * string) :=
  let started := startDecision d in
  '(s, decision) ← po_OnRetryLimit (d_policy d) (d_state d) ctx;
  let d := validate (put_state d s) (decision =? FallbackSerial)%string EventRetryLimit decision in
  Returns (recordTx d EventRetryLimit (rc_Tx ctx) (tc_TransactionID (rc_Tx ctx)) decision started, decision).

Definition disp_OnWorkerIdle (d : Dispatcher) (ctx : ResourceContext) : outcome (Dispatcher * string) :=
  let started := startDecision d in
  '(s, decision) ← po_OnWorkerIdle (d_policy d) (d_state d) ctx;
  let d := validate (put_state d s) (decision =? ResourceSharedPool)%string EventWorkerIdle decision in
  Returns (recordResource d EventWorkerIdle ctx decision started, decision).

Definition disp_OnQueuePressure (d : Dispatcher) (ctx : ResourceContext) : outcome (Dispatcher * string) :=
  let started := startDecision d in
  '(s, decision) ← po_OnQueuePressure (d_policy d) (d_state d) ctx;
  let d := validate (put_state d s) (decision =? ResourceSharedPool)%string EventQueuePressure decision in
  Returns (recordResource d EventQueuePressure ctx decision started, decision).

Definition disp_BeforeRead (d : Dispatcher) (ctx : AccessContext) : outcome (Dispatcher * string) :=
  let started := startDecision d in
  '(s, decision) ← po_BeforeRead (d_policy d) (d_state d) ctx;
  let d := validate (put_state d s) (decision =? AccessExecute)%string EventBeforeRead decision in
  Returns (recordTx d EventBeforeRead (ac_Tx ctx) (ac_OperationID ctx) decision started, decision).

Definition disp_BeforeWrite (d : Dispatcher) (ctx : AccessContext) : outcome (Dispatcher * string) :=
  let started := startDecision d in
  '(s, decision) ← po_BeforeWrite (d_policy d) (d_state d) ctx;
  let d := validate (put_state d s) (decision =? AccessExecute)%string EventBeforeWrite decision in
  Returns (recordTx d EventBeforeWrite (ac_Tx ctx) (ac_OperationID ctx) decision started, decision).

Definition disp_OnBranch (d : Dispatcher) (ctx : BranchContext) : outcome (Dispatcher * string) :=
  let started := startDecision d in
  '(s, decision) ← po_OnBranch (d_policy d) (d_state d) ctx;
  let d := validate (put_state d s) (decision =? BranchEvaluateActual)%string EventBranch decision in
  Returns (recordTx d EventBranch (bc_Tx ctx) (bc_BranchID ctx) decision started, decision).

Definition disp_OnCallEnter (d : Dispatcher) (ctx : CallContext) : outcome (Dispatcher * string) :=
  let started := startDecision d in
  '(s, decision) ← po_OnCallEnter (d_policy d) (d_state d) ctx;
  let d := validate (put_state d s) (decision =? CheckpointDisabled)%string EventCallEnter decision in
  Returns (recordTx d EventCallEnter (cl_Tx ctx) (cl_CallID ctx) decision started, decision).

Definition disp_OnValidationPoint (d : Dispatcher) (ctx : ValidationContext) : outcome (Dispatcher * string) :=
  let started := startDecision d in
  '(s, decision) ← po_OnValidationPoint (d_policy d) (d_state d) ctx;
  let '(event, valid) := validationEvent (vc_Kind ctx) in
  let d := validate (put_state d s) (valid && (decision =? ValidationMandatoryFinal)%string) event decision in
  Returns (recordTx d event (vc_Tx ctx) (vc_TargetID ctx) decision started, decision).

Definition disp_OnValidationFail (d : Dispatcher) (ctx : FailureContext) : outcome (Dispatcher * string) :=
  let started := startDecision d in
  '(s, decision) ← po_OnValidationFail (d_policy d) (d_state d) ctx;
  let d := validate (put_state d s) (decision =? RecoveryWholeTransaction)%string EventValidationFail decision in
  Returns (recordTx d EventValidationFail (fc_Tx ctx) (tc_TransactionID (fc_Tx ctx)) decision started, decision).

Definition disp_OnReplayStart (d : Dispatcher) (ctx : ReplayContext) : outcome (Dispatcher * string) :=
  let started := startDecision d in
  '(s, decision) ← po_OnReplayStart (d_policy d) (d_state d) ctx;
  let d := validate (put_state d s) (decision =? ReplayReexecute)%string EventReplayStart decision in
  Returns (recordTx d EventReplayStart (rp_Tx ctx) (tc_TransactionID (rp_Tx ctx)) decision started, decision).

(** The dispatcher as the runtime's hooks: the runtime drops the decisions. *)
Definition dispatcher_hooks : RuntimeHooks Dispatcher :=
  let drop (call : outcome (Dispatcher * string)) : outcome Dispatcher := '(d, _) ← call; Returns d in
  MkRuntimeHooks Dispatcher
    (λ d ctx, drop (disp_BeforeRead d ctx)) (λ d ctx, drop (disp_BeforeWrite d ctx))
    (λ d ctx, drop (disp_OnBranch d ctx)).
End dispatcher.
Arguments Dispatcher : clear implicits.

(** ** policy/fixed/preset.go *)

Definition PresetVersion : string := "fixed-preset-v1".

Record Preset := MkPreset { pr_identity : Identity; pr_lane : string; pr_wait : string }.

Definition NewSerialPreset : Preset :=
  MkPreset (MkIdentity "SerialPreset" PresetVersion "fixed_config" "none" PresetVersion) LaneSerial WaitModeNone.

Definition NewBlockSTMPreset : Preset :=
  MkPreset (MkIdentity "BlockSTMPreset" PresetVersion "fixed_config" "none" PresetVersion)
    LaneOptimistic WaitLogicalPredecessor.

(** The methods of a preset, which has no state. *)
Definition preset_policy (p : Preset) : Policy unit := {|
  po_Identity := pr_identity p;
  po_OnEpochStart := λ s _, Returns (s, EpochKeepPolicy);
  po_OnBlockReady := λ s _, Returns (s, BlockUseFullWindow);
  po_OnTxAdmit := λ s _, Returns (s, pr_lane p);
  po_OnTxReady := λ s _, Returns (s, pr_lane p);
  po_OnEstimateRead := λ s _, Returns (s, pr_wait p);
  po_OnConflict := λ s _, Returns (s, ConflictValidate);
  po_OnTaskReady := λ s _, Returns (s, SchedulingFIFO);
  po_OnRetryLimit := λ s _, Returns (s, FallbackSerial);
  po_OnWorkerIdle := λ s _, Returns (s, ResourceSharedPool);
  po_OnQueuePressure := λ s _, Returns (s, ResourceSharedPool);
  po_BeforeRead := λ s _, Returns (s, AccessExecute);
  po_BeforeWrite := λ s _, Returns (s, AccessExecute);
  po_OnBranch := λ s _, Returns (s, BranchEvaluateActual);
  po_OnCallEnter := λ s _, Returns (s, CheckpointDisabled);
  po_OnValidationPoint := λ s _, Returns (s, ValidationMandatoryFinal);
  po_OnValidationFail := λ s _, Returns (s, RecoveryWholeTransaction);
  po_OnReplayStart := λ s _, Returns (s, ReplayReexecute);
|}.

(** ** Sequences of calls *)

Inductive call :=
| CallEpochStart (ctx : EpochContext)
| CallBlockReady (ctx : BlockContext)
| CallTxAdmit (ctx : TxContext)
| CallTxReady (ctx : TxContext)
| CallEstimateRead (ctx : ConflictContext)
| CallConflict (ctx : ConflictContext)
| CallTaskReady (ctx : TaskContext)
| CallRetryLimit (ctx : RetryContext)
| CallWorkerIdle (ctx : ResourceContext)
| CallQueuePressure (ctx : ResourceContext)
| CallBeforeRead (ctx : AccessContext)
| CallBeforeWrite (ctx : AccessContext)
| CallBranch (ctx : BranchContext)
| CallCallEnter (ctx : CallContext)
| CallValidationPoint (ctx : ValidationContext)
| CallValidationFail (ctx : FailureContext)
| CallReplayStart (ctx : ReplayContext).

Definition disp_call {S} (d : Dispatcher S) (c : call) : outcome (Dispatcher S * string) :=
  match c with
  | CallEpochStart ctx => disp_OnEpochStart d ctx
  | CallBlockReady ctx => disp_OnBlockReady d ctx
  | CallTxAdmit ctx => disp_OnTxAdmit d ctx
  | CallTxReady ctx => disp_OnTxReady d ctx
  | CallEstimateRead ctx => disp_OnEstimateRead d ctx
  | CallConflict ctx => disp_OnConflict d ctx
  | CallTaskReady ctx => disp_OnTaskReady d ctx
  | CallRetryLimit ctx => disp_OnRetryLimit d ctx
  | CallWorkerIdle ctx => disp_OnWorkerIdle d ctx
  | CallQueuePressure ctx => disp_OnQueuePressure d ctx
  | CallBeforeRead ctx => disp_BeforeRead d ctx
  | CallBeforeWrite ctx => disp_BeforeWrite d ctx
  | CallBranch ctx => disp_OnBranch d ctx
  | CallCallEnter ctx => disp_OnCallEnter d ctx
  | CallValidationPoint ctx => disp_OnValidationPoint d ctx
  | CallValidationFail ctx => disp_OnValidationFail d ctx
  | CallReplayStart ctx => disp_OnReplayStart d ctx
  end.

(** The same call on the policy itself. *)
Definition policy_call {S} (p : Policy S) (s : S) (c : call) : outcome (S * string) :=
  match c with
  | CallEpochStart ctx => po_OnEpochStart p s ctx
  | CallBlockReady ctx => po_OnBlockReady p s ctx
  | CallTxAdmit ctx => po_OnTxAdmit p s ctx
  | CallTxReady ctx => po_OnTxReady p s ctx
  | CallEstimateRead ctx => po_OnEstimateRead p s ctx
  | CallConflict ctx => po_OnConflict p s ctx
  | CallTaskReady ctx => po_OnTaskReady p s ctx
  | CallRetryLimit ctx => po_OnRetryLimit p s ctx
  | CallWorkerIdle ctx => po_OnWorkerIdle p s ctx
  | CallQueuePressure ctx => po_OnQueuePressure p s ctx
  | CallBeforeRead ctx => po_BeforeRead p s ctx
  | CallBeforeWrite ctx => po_BeforeWrite p s ctx
  | CallBranch ctx => po_OnBranch p s ctx
  | CallCallEnter ctx => po_OnCallEnter p s ctx
  | CallValidationPoint ctx => po_OnValidationPoint p s ctx
  | CallValidationFail ctx => po_OnValidationFail p s ctx
  | CallReplayStart ctx => po_OnReplayStart p s ctx
  end.

(** The decisions allowed for a call. *)
Definition call_valid (c : call) (decision : string) : bool :=
  match c with
  | CallEpochStart _ => (decision =? EpochKeepPolicy)%string
  | CallBlockReady _ => (decision =? BlockUseFullWindow)%string
  | CallTxAdmit _ => validLane decision
  | CallTxReady _ => validLane decision
  | CallEstimateRead _ => validWaitMode decision
  | CallConflict _ => (decision =? ConflictValidate)%string
  | CallTaskReady _ => (decision =? SchedulingFIFO)%string
  | CallRetryLimit _ => (decision =? FallbackSerial)%string
  | CallWorkerIdle _ => (decision =? ResourceSharedPool)%string
  | CallQueuePressure _ => (decision =? ResourceSharedPool)%string
  | CallBeforeRead _ => (decision =? AccessExecute)%string
  | CallBeforeWrite _ => (decision =? AccessExecute)%string
  | CallBranch _ => (decision =? BranchEvaluateActual)%string
  | CallCallEnter _ => (decision =? CheckpointDisabled)%string
  | CallValidationPoint ctx => (validationEvent (vc_Kind ctx)).2 && (decision =? ValidationMandatoryFinal)%string
  | CallValidationFail _ => (decision =? RecoveryWholeTransaction)%string
  | CallReplayStart _ => (decision =? ReplayReexecute)%string
  end.

(** The event of a call. *)
Definition call_event (c : call) : string :=
  match c with
  | CallEpochStart _ => EventEpochStart
  | CallBlockReady _ => EventBlockReady
  | CallTxAdmit _ => EventTxAdmit
  | CallTxReady _ => EventTxReady
  | CallEstimateRead _ => EventReadEstimate
  | CallConflict _ => EventConflict
  | CallTaskReady _ => EventTaskReady
  | CallRetryLimit _ => EventRetryLimit
  | CallWorkerIdle _ => EventWorkerIdle
  | CallQueuePressure _ => EventQueuePressure
  | CallBeforeRead _ => EventBeforeRead
  | CallBeforeWrite _ => EventBeforeWrite
  | CallBranch _ => EventBranch
  | CallCallEnter _ => EventCallEnter
  | CallValidationPoint ctx => (validationEvent (vc_Kind ctx)).1
  | CallValidationFail _ => EventValidationFail
  | CallReplayStart _ => EventReplayStart
  end.

(** What a call emits, before the trust class, the identity and the duration. *)
Definition call_record (c : call) (action : string) : EventRecord :=
  let emit (event blockID txID : string) (index incarnation ordinal : Z) (target : string) :=
    MkRecord event blockID txID index incarnation ordinal target action "" "" "" "" 0 in
  let emit_tx (event : string) (ctx : TxContext) (target : string) :=
    emit event (tc_BlockID ctx) (tc_TransactionID ctx) (tc_TxIndex ctx) (tc_Incarnation ctx) (tc_Ordinal ctx) target in
  let emit_resource (ctx : ResourceContext) :=
    emit (call_event c) (rs_BlockID ctx) "" 0 0 (rs_Ordinal ctx) ("worker-" +:+ pretty (rs_Worker ctx))%string in
  match c with
  | CallEpochStart ctx => emit EventEpochStart "" "" 0 0 0 (ep_EpochID ctx)
  | CallBlockReady ctx => emit EventBlockReady (bk_BlockID ctx) "" 0 0 0 (bk_BlockID ctx)
  | CallTxAdmit ctx => emit_tx (call_event c) ctx (tc_TransactionID ctx)
  | CallTxReady ctx => emit_tx (call_event c) ctx (tc_TransactionID ctx)
  | CallEstimateRead ctx => emit_tx (call_event c) (cc_Tx ctx) (tc_TransactionID (cc_Tx ctx))
  | CallConflict ctx => emit_tx (call_event c) (cc_Tx ctx) (tc_TransactionID (cc_Tx ctx))
  | CallTaskReady ctx => emit_tx (call_event c) (tk_Tx ctx) (tc_TransactionID (tk_Tx ctx))
  | CallRetryLimit ctx => emit_tx (call_event c) (rc_Tx ctx) (tc_TransactionID (rc_Tx ctx))
  | CallWorkerIdle ctx => emit_resource ctx
  | CallQueuePressure ctx => emit_resource ctx
  | CallBeforeRead ctx => emit_tx (call_event c) (ac_Tx ctx) (ac_OperationID ctx)
  | CallBeforeWrite ctx => emit_tx (call_event c) (ac_Tx ctx) (ac_OperationID ctx)
  | CallBranch ctx => emit_tx (call_event c) (bc_Tx ctx) (bc_BranchID ctx)
  | CallCallEnter ctx => emit_tx (call_event c) (cl_Tx ctx) (cl_CallID ctx)
  | CallValidationPoint ctx => emit_tx (call_event c) (vc_Tx ctx) (vc_TargetID ctx)
  | CallValidationFail ctx => emit_tx (call_event c) (fc_Tx ctx) (tc_TransactionID (fc_Tx ctx))
  | CallReplayStart ctx => emit_tx (call_event c) (rp_Tx ctx) (tc_TransactionID (rp_Tx ctx))
  end.

Section calls.
Context {S : Type} (step : S → call → outcome (S * string)).

Fixpoint run_calls (s : S) (calls : list call) : outcome (S * list string) :=
  match calls with
  | [] => Returns (s, [])
  | c :: calls =>
      '(s, decision) ← step s c;
      '(s, decisions) ← run_calls s calls;
      Returns (s, decision :: decisions)
  end.
End calls.

(** The error kept for a log of calls and decisions. *)
Fixpoint first_invalid (log : list (call * string)) : option policy_error :=
  match log with
  | [] => None
  | (c, action) :: log =>
      if call_valid c action then first_invalid log else Some (ErrInvalidDecision (call_event c) action)
  end.

(** ** Facts *)

Lemma disp_call_spec {S} (d : Dispatcher S) c :
  disp_call d c =
    match policy_call (d_policy d) (d_state d) c with
    | Returns (s, action) =>
        Returns (record (validate (put_state d s) (call_valid c action) (call_event c) action)
                   (call_record c action) (startDecision d), action)
    | Panics => Panics
    | Waits => Waits
    end.
Proof.
  destruct c; cbn [disp_call policy_call];
    unfold disp_OnEpochStart, disp_OnBlockReady, disp_OnTxAdmit, disp_OnTxReady, disp_OnEstimateRead, disp_OnConflict,
      disp_OnTaskReady, disp_OnRetryLimit, disp_OnWorkerIdle, disp_OnQueuePressure, disp_BeforeRead, disp_BeforeWrite,
      disp_OnBranch, disp_OnCallEnter, disp_OnValidationPoint, disp_OnValidationFail, disp_OnReplayStart;
    try (lazymatch goal with |- _ = match ?o with _ => _ end => destruct o as [[s a]| |] end; reflexivity).
  unfold call_valid, call_record, call_event.
  destruct (po_OnValidationPoint (d_policy d) (d_state d) ctx) as [[s a]| |]; [|done..]. cbn.
  by destruct (validationEvent (vc_Kind ctx)) as [event valid].
Qed.

(** The identity a policy is presented under. *)
Definition presented (i : Identity) : Identity :=
  let named (name otherwise : string) := if decide (name = "") then otherwise else name in
  MkIdentity (id_Name i) (id_Version i) (named (id_FeatureSource i) "unspecified")
    (named (id_ObservationVersion i) "unspecified") (named (id_TableVersion i) (id_Version i)).

(** The trust class of a call's event; every call has a registered event. *)
Definition call_trust (c : call) : string :=
  match EventDescription (call_event c) with Some e => ed_TrustClass e | None => "" end.

(** What is logged of a call that took [duration]: everything about it, or its
    event and action only when just counters are kept. *)
Definition emission (i : Identity) (mode : string) (c : call) (action : string) (duration : Z) : EventRecord :=
  if decide (mode = TraceCounters) then MkRecord (call_event c) "" "" 0 0 0 "" action "" "" "" "" 0
  else
    let r := call_record c action in
    MkRecord (call_event c) (er_BlockID r) (er_TransactionID r) (er_TxIndex r) (er_Incarnation r) (er_Ordinal r)
      (er_TargetID r) action (call_trust c) (id_FeatureSource i) (id_ObservationVersion i) (id_TableVersion i)
      (u64 duration).

(** The log of some calls, the durations measured being those of [clock]. *)
Definition emissions (i : Identity) (mode : string) (clock : list Z) (log : list (call * string)) : list EventRecord :=
  imap (λ n '(c, action), emission i mode c action (default 0 (clock !! n))) log.

Lemma call_event_registered c : ∃ e, EventDescription (call_event c) = Some e ∧ ed_Event e = call_event c.
Proof.
  destruct c as [| | | | | | | | | | | | | |[? kind ?]| |]; try (eexists; split; reflexivity).
  unfold call_event, validationEvent. cbn [vc_Kind].
  repeat (destruct (kind =? _)%string; [eexists; split; reflexivity|]). eexists; split; reflexivity.
Qed.

Lemma call_record_event c action :
  er_Event (call_record c action) = call_event c ∧ er_Action (call_record c action) = action.
Proof. by destruct c. Qed.

(** [validate] and [record] touch the error and the recorder only. *)
Lemma validate_spec {S} (d : Dispatcher S) valid event action :
  ∃ e, validate d valid event action =
         MkDispatcher (d_policy d) (d_state d) (d_identity d) (d_recorder d) (d_traceMode d) e (d_clock d) ∧
       e = match d_err d with
           | Some e => Some e
           | None => if valid then None else Some (ErrInvalidDecision event action)
           end.
Proof.
  unfold validate. eexists. split; [|done]. destruct d as [? ? ? ? ? [] ?], valid; reflexivity.
Qed.

(** Only a detailed trace reads the clock. *)
Definition clock_after (mode : string) (n : nat) (clock : list Z) : list Z :=
  if decide (mode = TraceDetailed) then drop n clock else clock.

Lemma record_fields {S} (d : Dispatcher S) r started : ∃ recorder clock,
  record d r started = put_recorder d recorder clock ∧ rd_mode recorder = rd_mode (d_recorder d).
Proof.
  unfold record. destruct (_ =? _)%string; [exists (d_recorder d), (d_clock d); by destruct d|].
  destruct (_ =? _)%string; [|destruct started]; do 2 eexists; (split; [reflexivity|apply Record_event_mode]).
Qed.

Lemma recorded_when_off rs : recorded TraceOff rs = NewRecorder TraceOff.
Proof. induction rs as [|r rs IH] using rev_ind; [done|]. by rewrite recorded_snoc, IH. Qed.

Lemma emissions_snoc i mode clock log c action :
  emissions i mode clock (log ++ [(c, action)]) =
    emissions i mode clock log ++ [emission i mode c action (default 0 (clock !! length log))].
Proof. unfold emissions. rewrite imap_app. cbn. by rewrite Nat.add_0_r. Qed.

Lemma record_call_spec {S} (d : Dispatcher S) i clock log c action :
  ValidTraceMode (d_traceMode d) = true → d_identity d = i →
  d_recorder d = recorded (d_traceMode d) (emissions i (d_traceMode d) clock log) →
  d_clock d = clock_after (d_traceMode d) (length log) clock →
  record d (call_record c action) (startDecision d) =
    put_recorder d (recorded (d_traceMode d) (emissions i (d_traceMode d) clock (log ++ [(c, action)])))
      (clock_after (d_traceMode d) (length log + 1) clock).
Proof.
  intros Hv <- Hr Hc. destruct (call_record_event c action) as [Ee Ea]. rewrite emissions_snoc, recorded_snoc, <- Hr.
  unfold record, startDecision, emission, clock_after, call_trust in *.
  destruct (String.eqb_spec (d_traceMode d) TraceOff) as [E|].
  { rewrite E in *. rewrite (decide_False (P := TraceOff = TraceDetailed)) in Hc |- * by done.
    rewrite recorded_when_off in Hr. rewrite Hr, <- Hc.
    match goal with |- _ = put_recorder _ (Record_event _ ?x) _ =>
      change (Record_event (NewRecorder TraceOff) x) with (NewRecorder TraceOff) end.
    rewrite <- Hr. by destruct d. }
  destruct (String.eqb_spec (d_traceMode d) TraceCounters) as [E|].
  { rewrite E in *. rewrite (decide_False (P := TraceCounters = TraceDetailed)) in Hc |- * by done.
    rewrite decide_True by done. by rewrite <- Hc, Ee, Ea. }
  rewrite (decide_False (P := d_traceMode d = TraceCounters)) by done.
  assert (d_traceMode d = TraceDetailed) as E.
  { unfold ValidTraceMode in Hv. by string_cases. }
  rewrite E in *. rewrite (decide_True (P := TraceDetailed = TraceDetailed)) in Hc |- * by done. cbn [String.eqb Ascii.eqb Bool.eqb].
  destruct (call_event_registered c) as (e & He & _). rewrite Ee, Ea, He, Hc.
  assert (head (drop (length log) clock) = clock !! length log) as Eh.
  { rewrite <- (Nat.add_0_r (length log)) at 2. rewrite <- lookup_drop. by destruct (drop _ _). }
  rewrite Eh. assert (tail (drop (length log) clock) = drop (length log + 1) clock) as ->; [|done].
  rewrite <- drop_drop. by destruct (drop _ _).
Qed.

(** The state of a dispatcher after some calls. *)
Record dispatched {S} (d0 : Dispatcher S) (log : list (call * string)) (d : Dispatcher S) : Prop := {
  di_policy : d_policy d = d_policy d0;
  di_identity : d_identity d = d_identity d0;
  di_mode : d_traceMode d = d_traceMode d0;
  di_err : d_err d = first_invalid log;
  di_log : d_recorder d = recorded (d_traceMode d0) (emissions (d_identity d0) (d_traceMode d0) (d_clock d0) log);
  di_clock : d_clock d = clock_after (d_traceMode d0) (length log) (d_clock d0);
}.

Lemma first_invalid_app log log' :
  first_invalid (log ++ log') =
    match first_invalid log with Some e => Some e | None => first_invalid log' end.
Proof. induction log as [|[c a] log IH]; cbn; [done|]. by destruct (call_valid c a). Qed.

Lemma dispatched_call {S} (d0 : Dispatcher S) log d c :
  ValidTraceMode (d_traceMode d0) = true → dispatched d0 log d →
  match policy_call (d_policy d0) (d_state d) c with
  | Returns (s, action) => ∃ d', disp_call d c = Returns (d', action) ∧ d_state d' = s ∧
      dispatched d0 (log ++ [(c, action)]) d'
  | Panics => disp_call d c = Panics
  | Waits => disp_call d c = Waits
  end.
Proof.
  intros Hv [Hp Hi Hm He Hr Hc]. rewrite disp_call_spec, Hp.
  destruct (policy_call (d_policy d0) (d_state d) c) as [[s action]| |]; [|done..].
  destruct (validate_spec (put_state d s) (call_valid c action) (call_event c) action) as (e & -> & Ee).
  cbn [put_state d_policy d_state d_identity d_recorder d_traceMode d_err d_clock] in *.
  pose proof (record_call_spec
    (MkDispatcher (d_policy d) s (d_identity d) (d_recorder d) (d_traceMode d) e (d_clock d))
    (d_identity d0) (d_clock d0) log c action) as E. cbn [d_traceMode d_identity d_recorder d_clock] in E.
  rewrite Hm in E. specialize (E Hv Hi Hr Hc). unfold startDecision in *. cbn [d_traceMode] in E. rewrite Hm, E.
  eexists. split; [done|]. split; [done|].
  split; cbn [put_recorder d_policy d_identity d_traceMode d_err d_recorder d_clock]; [done..| |done|by rewrite length_app].
  rewrite first_invalid_app, <- He, Ee. destruct (d_err d); [done|]. cbn. by destruct (call_valid c action).
Qed.

Lemma dispatched_calls {S} (d0 : Dispatcher S) log d calls :
  ValidTraceMode (d_traceMode d0) = true → dispatched d0 log d →
  match run_calls (policy_call (d_policy d0)) (d_state d) calls with
  | Returns (s, decisions) => ∃ d', run_calls disp_call d calls = Returns (d', decisions) ∧ d_state d' = s ∧
      length decisions = length calls ∧ dispatched d0 (log ++ zip calls decisions) d'
  | Panics => run_calls disp_call d calls = Panics
  | Waits => run_calls disp_call d calls = Waits
  end.
Proof.
  intros Hv. revert log d. induction calls as [|c calls IH]; intros log d Hd; cbn [run_calls].
  { exists d. by rewrite app_nil_r. }
  pose proof (dispatched_call d0 log d c Hv Hd) as Hc.
  destruct (policy_call (d_policy d0) (d_state d) c) as [[s action]| |]; [|by rewrite Hc..].
  destruct Hc as (d1 & -> & <- & Hd1). cbn. specialize (IH _ d1 Hd1).
  destruct (run_calls (policy_call (d_policy d0)) (d_state d1) calls) as [[s' decisions]| |]; cbn in *;
    [|by rewrite IH..].
  destruct IH as (d' & -> & <- & Hl & Hd'). cbn. exists d'. split; [done|]. split; [done|].
  split; [by rewrite Hl|]. by rewrite <- app_assoc in Hd'.
Qed.

Lemma NewDispatcher_inv {S} (p : Policy S) s mode clock d :
  NewDispatcherWithTrace (Some (p, s)) mode clock = inr d →
  ValidTraceMode mode = true ∧ d_policy d = p ∧ d_state d = s ∧ d_traceMode d = mode ∧
  (d_clock d = clock ∧ d_identity d = presented (po_Identity p)) ∧ dispatched d [] d ∧ id_Name (d_identity d) ≠ "" ∧ id_Version (d_identity d) ≠ "" ∧
  id_FeatureSource (d_identity d) ≠ "" ∧ id_ObservationVersion (d_identity d) ≠ "" ∧
  id_TableVersion (d_identity d) ≠ "".
Proof.
  unfold NewDispatcherWithTrace. destruct (ValidTraceMode mode) eqn:Ev; [|done]. cbn [negb].
  destruct (String.eqb_spec (id_Name (po_Identity p)) "") as [|Hn]; [done|].
  destruct (String.eqb_spec (id_Version (po_Identity p)) "") as [|Hver]; [done|]. cbn [orb]. intros [= <-]. cbn.
  split; [done|]. split; [done|]. split; [done|]. split; [done|]. split.
  { split; [done|]. unfold presented. f_equal; case_decide; by string_cases. }
  split. { split; try done. unfold clock_after. by case_decide. }
  split; [done|]. split; [done|].
  assert (∀ v d : string, d ≠ "" → (if (v =? "")%string then d else v) ≠ "") as Hor.
  { intros v d Hd. by destruct (String.eqb_spec v ""). }
  split; [by apply Hor|]. split; [by apply Hor|]. by apply Hor.
Qed.

(** C21: The dispatcher is transparent and keeps an exact log: any sequence of
    calls returns the decisions the policy itself would return (and panics or
    blocks when it does), [Err] is nil as long as every decision is one the
    event allows and then stays at the first that is not, and what the recorder
    holds is one emission per call, in order: the event and the action alone when counters are kept, and in
    detailed mode the whole record of the call's context, the trust class of the
    event, the policy's feature source, observation version and table version
    (or their defaults), and the duration measured for that call. *)
Theorem dispatcher_refines_policy {S} (p : Policy S) (s : S) mode clock d calls :
  NewDispatcherWithTrace (Some (p, s)) mode clock = inr d →
  match run_calls (policy_call p) s calls with
  | Returns (s', decisions) => ∃ d',
      run_calls disp_call d calls = Returns (d', decisions) ∧ d_state d' = s' ∧
      length decisions = length calls ∧
      Err d' = first_invalid (zip calls decisions) ∧
      d_recorder d' = recorded mode (emissions (presented (po_Identity p)) mode clock (zip calls decisions))
  | Panics => run_calls disp_call d calls = Panics
  | Waits => run_calls disp_call d calls = Waits
  end.
Proof.
  intros (Hv & <- & <- & <- & [<- Hi] & Hd & _)%NewDispatcher_inv.
  pose proof (dispatched_calls d [] d calls Hv Hd) as H. rewrite <- Hi.
  destruct (run_calls (policy_call (d_policy d)) (d_state d) calls) as [[s' decisions]| |]; [|done..].
  destruct H as (d' & ? & ? & ? & [_ _ _ He Hr _]). by exists d'.
Qed.

(** The decision of a preset. *)
Definition preset_decision (p : Preset) (c : call) : string :=
  match policy_call (preset_policy p) tt c with Returns (_, action) => action | _ => "" end.

Lemma preset_calls p calls :
  run_calls (policy_call (preset_policy p)) tt calls = Returns (tt, preset_decision p <$> calls).
Proof.
  induction calls as [|c calls IH]; cbn [run_calls]; [done|].
  assert (policy_call (preset_policy p) tt c = Returns (tt, preset_decision p c)) as -> by by destruct c.
  cbn. by rewrite IH.
Qed.

Lemma preset_valid p calls :
  validLane (pr_lane p) = true → validWaitMode (pr_wait p) = true →
  (∀ ctx, CallValidationPoint ctx ∈ calls → (validationEvent (vc_Kind ctx)).2 = true) →
  first_invalid (zip calls (preset_decision p <$> calls)) = None.
Proof.
  intros Hl Hw. induction calls as [|c calls IH]; intros Hk; [done|]. rewrite fmap_cons. cbn [zip zip_with first_invalid].
  assert (call_valid c (preset_decision p c) = true) as ->.
  { destruct c; try reflexivity; try exact Hl; try exact Hw. cbn [call_valid]. by rewrite Hk by by left. }
  apply IH. intros ctx Hin. apply Hk. by right.
Qed.

(** Neither fixed preset is ever at fault: a dispatcher is created for it in
    every trace mode, each call returns, every decision is the preset's (the
    serial lane for the serial preset, the optimistic one for Block-STM), and
    no error is recorded as long as validation points have one of the three
    known kinds. *)
Theorem presets_sound p mode clock calls :
  p = NewSerialPreset ∨ p = NewBlockSTMPreset → ValidTraceMode mode = true →
  (∀ ctx, CallValidationPoint ctx ∈ calls → (validationEvent (vc_Kind ctx)).2 = true) →
  ∃ d d', NewDispatcherWithTrace (Some (preset_policy p, tt)) mode clock = inr d ∧
    run_calls disp_call d calls = Returns (d', preset_decision p <$> calls) ∧ Err d' = None ∧
    (∀ ctx, preset_decision p (CallTxAdmit ctx) = pr_lane p ∧ preset_decision p (CallTxReady ctx) = pr_lane p) ∧
    pr_lane p = (if (id_Name (d_identity d') =? "SerialPreset")%string then LaneSerial else LaneOptimistic).
Proof.
  intros Hp Hv Hk.
  destruct (NewDispatcherWithTrace (Some (preset_policy p, tt)) mode clock) as [e|d] eqn:E.
  { unfold NewDispatcherWithTrace in E. rewrite Hv in E. by destruct Hp as [-> | ->]. }
  assert (id_Name (d_identity d) = id_Name (pr_identity p)) as Hn.
  { unfold NewDispatcherWithTrace in E. rewrite Hv in E. by destruct Hp as [-> | ->]; injection E as <-. }
  pose proof E as (_ & Epol & Es & _ & _ & Hd & _)%NewDispatcher_inv.
  pose proof (dispatched_calls d [] d calls) as H. rewrite Epol, Es, preset_calls in H.
  destruct H as (d' & Hrun & _ & _ & [_ Hi _ He _ _]); [|done|].
  { apply NewDispatcher_inv in E as (? & _ & _ & -> & _). done. }
  exists d, d'. split; [done|]. split; [done|]. split.
  { unfold Err. rewrite He. apply preset_valid; [by destruct Hp as [-> | ->]..|done]. }
  split; [done|]. rewrite Hi, Hn. by destruct Hp as [-> | ->].
Qed.

(** A policy that answers a read with an unknown action the second time. *)
Definition drifting_policy : Policy nat :=
  let preset := preset_policy NewSerialPreset in
  let keep {C} (f : unit → C → outcome (unit * string)) : nat → C → outcome (nat * string) :=
    λ s c, '(_, a) ← f tt c; Returns (s, a) in {|
  po_Identity := pr_identity NewSerialPreset;
  po_OnEpochStart := keep (po_OnEpochStart preset);
  po_OnBlockReady := keep (po_OnBlockReady preset);
  po_OnTxAdmit := keep (po_OnTxAdmit preset);
  po_OnTxReady := keep (po_OnTxReady preset);
  po_OnEstimateRead := keep (po_OnEstimateRead preset);
  po_OnConflict := keep (po_OnConflict preset);
  po_OnTaskReady := keep (po_OnTaskReady preset);
  po_OnRetryLimit := keep (po_OnRetryLimit preset);
  po_OnWorkerIdle := keep (po_OnWorkerIdle preset);
  po_OnQueuePressure := keep (po_OnQueuePressure preset);
  po_BeforeRead := λ s _, Returns (Datatypes.S s, if (s =? 1)%nat then "skip" else AccessExecute);
  po_BeforeWrite := keep (po_BeforeWrite preset);
  po_OnBranch := keep (po_OnBranch preset);
  po_OnCallEnter := keep (po_OnCallEnter preset);
  po_OnValidationPoint := keep (po_OnValidationPoint preset);
  po_OnValidationFail := keep (po_OnValidationFail preset);
  po_OnReplayStart := keep (po_OnReplayStart preset);
|}.

Definition sample_tx_context : TxContext := MkTxContext "b" "t" 0 0 1.
Definition sample_read : call := CallBeforeRead (MkAccessContext sample_tx_context "t/op-0" 0 [Byte.x01]).

Definition drifting_dispatcher : Dispatcher nat :=
  match NewDispatcherWithTrace (Some (drifting_policy, 0%nat)) TraceDetailed [5; 6; 7] with
  | inr d => d
  | inl _ => MkDispatcher drifting_policy 0%nat (MkIdentity "" "" "" "" "") (NewRecorder "") "" None []
  end.

Lemma dispatcher_refines_policy_witness :
  ∃ d', run_calls disp_call drifting_dispatcher [sample_read; sample_read; sample_read] =
          Returns (d', [AccessExecute; "skip"%string; AccessExecute]) ∧
        Err d' = Some (ErrInvalidDecision EventBeforeRead "skip") ∧
        rd_records (d_recorder d') !! 1%nat = Some (MkRecord EventBeforeRead "b" "t" 0 0 1 "t/op-0" "skip"
          (call_trust sample_read) "fixed_config" "none" PresetVersion 6).
Proof.
  assert (NewDispatcherWithTrace (Some (drifting_policy, 0%nat)) TraceDetailed [5; 6; 7] =
          inr drifting_dispatcher) as E by reflexivity.
  pose proof (dispatcher_refines_policy _ _ _ _ _ [sample_read; sample_read; sample_read] E) as H.
  cbv beta iota zeta in H.
  change (run_calls (policy_call drifting_policy) 0%nat [sample_read; sample_read; sample_read])
    with (Returns (3%nat, [AccessExecute; "skip"%string; AccessExecute])) in H.
  cbv beta iota in H. destruct H as (d' & Hrun & _ & _ & He & Hr). exists d'. split; [done|]. split; [done|].
  rewrite Hr. vm_compute. reflexivity.
Defined.

Lemma presets_sound_witness :
  ∃ d d', NewDispatcherWithTrace (Some (preset_policy NewSerialPreset, tt)) TraceCounters [] = inr d ∧
    run_calls disp_call d [CallTxAdmit sample_tx_context; sample_read] =
      Returns (d', [LaneSerial; AccessExecute]) ∧ Err d' = None.
Proof.
  destruct (presets_sound NewSerialPreset TraceCounters [] [CallTxAdmit sample_tx_context; sample_read])
    as (d & d' & H1 & H2 & H3 & _); [by left|reflexivity| |by exists d, d'].
  intros ctx Hin. rewrite !elem_of_cons, elem_of_nil in Hin. by destruct Hin as [?|[?|?]].
Defined.
