(* ===== verification/Serial.v ===== *)
(** * internal/engine/serial/engine.go: the serial engine

    The reference of the repository: a block is executed in order on a clone of
    the state, which is published at the end.  The rest of what an engine is
    given (internal/engine/engine.go) is modelled here too. *)

From Stdlib Require Import ZArith Lia String.
From stdpp Require Import sorting.
From S2P Require Import Prelude Model Canonical State Runtime Plan Control Dispatcher.
Local Open Scope Z_scope.

(** ** What an engine is given *)

(** A policy with its state. *)
Record AnyPolicy := MkAnyPolicy { ap_S : Type; ap_policy : Policy ap_S; ap_state : ap_S }.

(** [RunConfig]; its control fields are [Plan.RunConfig].  A nil interface is
    [None], an interface that holds a nil value [Some None]. *)
Record EngineConfig := MkEngineConfig {
  ec_Executors : Z;
  ec_EpochID : string;
  ec_Policy : option (option AnyPolicy);
  ec_TraceMode : string;
  ec_MaxSpeculativeInflight : Z;
  ec_Control : RunConfig;
  ec_OmitResultDigest : bool;
}.

Inductive engine_error :=
| ErrNilState
| BlockError (e : block_error)
| ErrInvalidWorkers
| ErrInvalidSpeculationLimit
| PlanError (e : plan_error)
| ErrInvalidDependencyMode
| UnknownTraceMode (mode : string)
| PolicyError (e : policy_error)
| ErrUnsupported (event action : string)
| ErrDuplicateKey
| ContextError
| Canceled.

Definition EffectiveTraceMode (config : EngineConfig) : engine_error + string :=
  if (ec_TraceMode config =? "")%string then inr TraceDetailed
  else if negb (ValidTraceMode (ec_TraceMode config)) then inl (UnknownTraceMode (ec_TraceMode config))
  else inr (ec_TraceMode config).

Definition EpochID (config : EngineConfig) (block : Block) : string :=
  if negb (ec_EpochID config =? "")%string then ec_EpochID config else b_ID block.

Definition Unsupported (event action : string) : engine_error := ErrUnsupported event action.

(** [engine.ValidateBlock]; a nil store, or a nil value in the interface, is [None]. *)
Definition ValidateBlockAndState (block : Block) (storage : option Store) : option engine_error :=
  match storage with
  | None => Some ErrNilState
  | Some _ => match ValidateBlock block with Some e => Some (BlockError e) | None => None end
  end.

Definition zeroBlockResult : BlockResult := MkBlockResult "" 0 [] [] "".

(** What a call of [ExecuteBlock] returns, with the store it leaves. *)
Record block_run := MkRun {
  x_storage : option Store;
  x_result : BlockResult;
  x_trace : Trace;
  x_err : option engine_error;
}.

(** ** One transaction *)

Definition engineName : string := "serial".

Section block.
Context {S : Type}.

Definition txContext (block : Block) (index : Z) (tx : Transaction) (ordinal : Z) : TxContext :=
  MkTxContext (b_ID block) (tx_ID tx) index 0 ordinal.

(** What an iteration of the loop ends with: an error, or the working state
    and the transaction's result. *)
Abbreviation iteration := (context * Dispatcher S * (engine_error + Store * TxResult))%type.

(** From the overlay to the next iteration. *)
Definition serial_execute (block : Block) (index : Z) (tx : Transaction) (ctx : context)
    (d : Dispatcher S) (working : Store) : outcome iteration :=
  match ExecuteWithHooks dispatcher_hooks ctx (txContext block index tx 2) tx
          (NewOverlay (st_Reader working)) d with
  | (_, Unwound) => Panics
  | (_, Blocked) => Waits
  | (m, Finished) =>
      '(d, _) ← disp_OnValidationPoint (m_hooks m)
         (MkValidationContext (txContext block index tx (maxUint64 - 1)) ValidationTxEnd (tx_ID tx));
      match Err d with
      | Some e => Returns (m_ctx m, d, inl (PolicyError e))
      | None =>
          if (tr_Status (m_result m) =? TxStatusCancelled)%string then
            let '(ctx, stop) := poll (m_ctx m) in
            Returns (ctx, d, inl (if (stop : bool) then ContextError else Canceled))
          else
            let working := if (tr_Status (m_result m) =? TxStatusSuccess)%string
                           then CommitTo (m_view m) working else working in
            Returns (m_ctx m, d, inr (working, m_result m))
      end
  end.

Definition serial_tx (block : Block) (index : Z) (tx : Transaction) (ctx : context)
    (d : Dispatcher S) (working : Store) : outcome iteration :=
  let '(ctx, stop) := poll ctx in
  if (stop : bool) then Returns (ctx, d, inl ContextError) else
  '(d, lane) ← disp_OnTxAdmit d (txContext block index tx 0);
  if negb (lane =? LaneSerial)%string then Returns (ctx, d, inl (Unsupported EventTxAdmit lane)) else
  '(d, lane) ← disp_OnTxReady d (txContext block index tx 1);
  if negb (lane =? LaneSerial)%string then Returns (ctx, d, inl (Unsupported EventTxReady lane)) else
  '(d, _) ← disp_OnTaskReady d (MkTaskContext (txContext block index tx 2) "execution");
  match Err d with
  | Some e => Returns (ctx, d, inl (PolicyError e))
  | None => serial_execute block index tx ctx d working
  end.

Fixpoint serial_loop (block : Block) (index : Z) (txs : list Transaction) (ctx : context)
    (d : Dispatcher S) (working : Store) (results : list TxResult) :
    outcome (context * Dispatcher S * (engine_error + Store * list TxResult)) :=
  match txs with
  | [] => Returns (ctx, d, inr (working, results))
  | tx :: txs =>
      '(ctx, d, next) ← serial_tx block index tx ctx d working;
      match next with
      | inl e => Returns (ctx, d, inl e)
      | inr (working, result) => serial_loop block (index + 1) txs ctx d working (results ++ [result])
      end
  end.

(** The work counters of a finished run. *)
Definition serial_work (results : list TxResult) : WorkCounters :=
  let count := u64 (Z.of_nat (length results)) in
  let dependency :=
    MkDependencyCounters DependencyMVCCRuntime DependencySourceRuntimeObserved VersionOnly BuilderNone WaitNone
      EstimatesDisabled "during_execution" "blockstm-mvcc" "runtime_kernel" true true false 0 0 0 0 0
      false 0 0 0 0 0 0 0 0 0 0 false 0 0 0 0 0 0 0 0 in
  MkWorkCounters count 0 (foldl (λ units r, u64 (units + UnitsUsed r)) 0 results) 0 0 1 false true
    (if 0 <? Z.of_nat (length results) then 1 else 0) 0 0 dependency zeroKernelPolicyCounters.

Definition with_work (trace : Trace) (work : WorkCounters) : Trace :=
  MkTrace (trace_Engine trace) (trace_PolicyName trace) (trace_PolicyVersion trace) (trace_Mode trace)
    (trace_Events trace) (trace_ActionCounters trace) (trace_FallbackCounters trace)
    (trace_PolicyDecisionDurationNS trace) true work.
End block.

(** ** A block *)

Section engine.
Context (sha256_hex : Bytes → string).

(** The dependency plan of the serial engine has only default values. *)
Definition serial_plan_ok (p : DependencyPlan) : bool :=
  (dp_Mode p =? DependencyMVCCRuntime)%string && (dp_Source p =? DependencySourceRuntimeObserved)%string &&
  (dp_Representation p =? VersionOnly)%string && (dp_Builder p =? BuilderNone)%string &&
  (dp_WaitPolicy p =? WaitNone)%string && (dp_EstimateInjection p =? EstimatesDisabled)%string.

(** From the new dispatcher on; [None] for the stored error is a nil error. *)
Definition serial_run {S} (block : Block) (config : EngineConfig) (traceMode : string) (storage : Store)
    (ctx : context) (d : Dispatcher S) : outcome block_run :=
  let fail (d : Dispatcher S) (e : engine_error) :=
    Returns (MkRun (Some storage) zeroBlockResult (Dispatcher_Trace d engineName) (Some e)) in
  '(d, _) ← disp_OnEpochStart d (MkEpochContext (EpochID config block));
  '(d, _) ← disp_OnBlockReady d
     (MkBlockContext (b_ID block) (b_Height block) (Z.of_nat (length (Transactions block))));
  match Err d with
  | Some e => fail d (PolicyError e)
  | None =>
      match FromEntries (Snapshot storage) with
      | None => fail d ErrDuplicateKey
      | Some working =>
          '(ctx, d, end_) ← serial_loop block 0 (Transactions block) ctx d working [];
          match end_ with
          | inl e => fail d e
          | inr (working, results) =>
              let '(ctx, stop) := poll ctx in
              if (stop : bool) then fail d ContextError else
              let result := MkBlockResult (b_ID block) (b_Height block) results (Snapshot working) "" in
              let result := if ec_OmitResultDigest config then result
                            else MkBlockResult (b_ID block) (b_Height block) results (Snapshot working)
                                   (CanonicalDigest sha256_hex result) in
              match Replace storage (FinalState result) with
              | None => fail d ErrDuplicateKey
              | Some published =>
                  let trace := Dispatcher_Trace d engineName in
                  let trace := if negb (traceMode =? TraceOff)%string
                               then with_work trace (serial_work results) else trace in
                  Returns (MkRun (Some published) result trace None)
              end
          end
      end
  end.

Definition ExecuteBlock (ctx : context) (block : Block) (storage : option Store) (config : EngineConfig)
    (clock : list Z) : outcome block_run :=
  let refuse (e : engine_error) := Returns (MkRun storage zeroBlockResult (empty_trace engineName) (Some e)) in
  match ValidateBlockAndState block storage, storage with
  | Some e, _ => refuse e
  | None, None => refuse ErrNilState
  | None, Some store =>
      if negb (ec_Executors config =? 0) && negb (ec_Executors config =? 1) then refuse ErrInvalidWorkers
      else if (ec_MaxSpeculativeInflight config <? 0) || (1 <? ec_MaxSpeculativeInflight config)
      then refuse ErrInvalidSpeculationLimit
      else match EffectiveDependencyControl (ec_Control config) with
      | inl e => refuse (PlanError e)
      | inr plan =>
          if negb (serial_plan_ok plan) then refuse ErrInvalidDependencyMode else
          let '(ctx, stop) := poll ctx in
          if (stop : bool) then refuse ContextError else
          let selected := match ec_Policy config with
                          | None => Some (MkAnyPolicy unit (preset_policy NewSerialPreset) tt)
                          | Some p => p
                          end in
          match EffectiveTraceMode config with
          | inl e => refuse e
          | inr traceMode =>
              match selected with
              | None => refuse (PolicyError PolicyIsNil)
              | Some (MkAnyPolicy T p s) =>
                  match NewDispatcherWithTrace (Some (p, s)) traceMode clock with
                  | inl e => refuse (PolicyError e)
                  | inr d => serial_run block config traceMode store ctx d
                  end
              end
          end
      end
  end.
End engine.

(** ** Capabilities *)

Definition serial_supported : list string :=
  [EventEpochStart; EventBlockReady; EventTxAdmit; EventTxReady; EventTaskReady; EventBranch;
   EventBeforeRead; EventBeforeWrite; EventTxEnd].

(** The [map]s of supported events and of the reasons for the others. *)
Definition supported_map (events : list string) : gmap string bool := list_to_map ((λ e, (e, true)) <$> events).
Definition reasons_map (supported : gmap string bool) (reason : string → string) : gmap string string :=
  list_to_map (omap (λ d, if default false (supported !! ed_Event d) then None
                          else Some (ed_Event d, reason (ed_Event d))) EventRegistry).

(** An error panics. *)
Definition serialCapabilities : outcome Capabilities :=
  let supported := supported_map serial_supported in
  match NewCapabilities engineName supported
          (reasons_map supported (λ _, "event is outside the flat serial execution path")) with
  | inl _ => Panics
  | inr capabilities => Returns capabilities
  end.

(** ** Facts *)

(** The execution of a block without an engine: each transaction on the state
    its predecessors left, and only successful ones change it. *)
Definition run_tx (block : Block) (index : Z) (tx : Transaction) (working : Store) :
    machine (B:=Reader) (H:=unit) :=
  (ExecuteWithHooks RuntimeDefaults background (txContext block index tx 2) tx
     (NewOverlay (st_Reader working)) tt).1.

Definition apply_tx (m : machine (B:=Reader) (H:=unit)) (working : Store) : Store :=
  if (tr_Status (m_result m) =? TxStatusSuccess)%string then CommitTo (m_view m) working else working.

Fixpoint run_block (block : Block) (index : Z) (txs : list Transaction) (working : Store) :
    Store * list TxResult :=
  match txs with
  | [] => (working, [])
  | tx :: txs =>
      let m := run_tx block index tx working in
      let '(final, results) := run_block block (index + 1) txs (apply_tx m working) in
      (final, m_result m :: results)
  end.

Lemma st_Reader_returns working : base_returns (λ b, b = st_Reader working).
Proof. intros b k ->. by do 2 eexists. Qed.

(** A dispatcher of a preset that has not met an error. *)
Definition preset_ok (p : Preset) (d : Dispatcher unit) : Prop :=
  d_policy d = preset_policy p ∧ ValidTraceMode (d_traceMode d) = true ∧
  rd_mode (d_recorder d) = d_traceMode d ∧ d_err d = None.

Lemma preset_disp_call p d c :
  validLane (pr_lane p) = true → validWaitMode (pr_wait p) = true →
  (∀ ctx, c = CallValidationPoint ctx → (validationEvent (vc_Kind ctx)).2 = true) →
  preset_ok p d → ∃ d', disp_call d c = Returns (d', preset_decision p c) ∧ preset_ok p d'.
Proof.
  intros Hl Hw Hk (Hp & Hv & Hm & He). rewrite disp_call_spec, Hp.
  assert (policy_call (preset_policy p) (d_state d) c = Returns (tt, preset_decision p c)) as ->.
  { destruct (d_state d). by destruct c. }
  assert (call_valid c (preset_decision p c) = true) as ->.
  { destruct c; try reflexivity; try exact Hl; try exact Hw. cbn [call_valid]. by rewrite (Hk ctx eq_refl). }
  cbn [validate]. destruct (record_fields (put_state d tt) (call_record c (preset_decision p c)) (startDecision d))
    as (rec & clock & E & Er).
  rewrite E. eexists. split; [done|]. split; [done|]. split; [done|]. split; [|done].
  cbn. by rewrite Er.
Qed.

Lemma preset_hooks_return p :
  validLane (pr_lane p) = true → validWaitMode (pr_wait p) = true →
  hooks_return dispatcher_hooks (preset_ok p).
Proof.
  intros Hl Hw. split; [|split]; intros d ctx Hd; cbn [dispatcher_hooks BeforeRead BeforeWrite OnBranch].
  - destruct (preset_disp_call p d (CallBeforeRead ctx) Hl Hw) as (d' & E & Hd'); [done|done|].
    cbn [disp_call] in E. rewrite E. by exists d'.
  - destruct (preset_disp_call p d (CallBeforeWrite ctx) Hl Hw) as (d' & E & Hd'); [done|done|].
    cbn [disp_call] in E. rewrite E. by exists d'.
  - destruct (preset_disp_call p d (CallBranch ctx) Hl Hw) as (d' & E & Hd'); [done|done|].
    cbn [disp_call] in E. rewrite E. by exists d'.
Qed.


(** ** One transaction under the serial preset *)

Abbreviation serial_ok := (preset_ok NewSerialPreset).

(** The dispatcher's calls in the loop, for the rewriting below. *)
Lemma serial_call d c :
  (∀ ctx, c = CallValidationPoint ctx → (validationEvent (vc_Kind ctx)).2 = true) →
  serial_ok d → ∃ d', disp_call d c = Returns (d', preset_decision NewSerialPreset c) ∧ serial_ok d'.
Proof. by apply preset_disp_call. Qed.

Lemma serial_ok_Err d : serial_ok d → Err d = None.
Proof. by intros (_ & _ & _ & ?). Qed.

Lemma serial_execute_preset block index tx d working :
  serial_ok d → tx_typed tx →
  ∃ d', serial_execute block index tx background d working =
    Returns (background, d', inr (apply_tx (run_tx block index tx working) working,
                                  m_result (run_tx block index tx working))) ∧ serial_ok d'.
Proof.
  intros Hd Ht. unfold serial_execute, run_tx.
  destruct (ExecuteWithHooks_returns dispatcher_hooks serial_ok (λ b, b = st_Reader working) background
    (txContext block index tx 2) tx (NewOverlay (st_Reader working)) d Ht) as (m & E & Hm & _);
    [by apply preset_hooks_return|done|apply st_Reader_returns|done|].
  pose proof (ExecuteWithHooks_calm dispatcher_hooks (txContext block index tx 2) tx
    (NewOverlay (st_Reader working)) d) as [Hc Hs]. rewrite E in Hc, Hs |- *. cbn [fst] in Hc, Hs.
  destruct (ExecuteWithHooks_strip dispatcher_hooks _ _ (txContext block index tx 2) tx _ _ _ E Hs eq_refl) as [o Es].
  rewrite Es. cbn [fst].
  destruct (serial_call (m_hooks m) (CallValidationPoint
    (MkValidationContext (txContext block index tx (maxUint64 - 1)) ValidationTxEnd (tx_ID tx))))
    as (d' & Ed & Hd'); [by intros ctx [= <-]|done|].
  cbn [disp_call] in Ed. rewrite Ed. cbn [mbind outcome_bind]. rewrite (serial_ok_Err d') by done.
  destruct (String.eqb_spec (tr_Status (m_result m)) TxStatusCancelled) as [|_]; [done|].
  exists d'. split; [|done]. by rewrite Hc.
Qed.

Lemma serial_tx_preset block index tx d working :
  serial_ok d → tx_typed tx →
  ∃ d', serial_tx block index tx background d working =
    Returns (background, d', inr (apply_tx (run_tx block index tx working) working,
                                  m_result (run_tx block index tx working))) ∧ serial_ok d'.
Proof.
  intros Hd Ht. unfold serial_tx. cbn [poll background].
  destruct (serial_call d (CallTxAdmit (txContext block index tx 0))) as (d1 & E1 & Hd1); [done..|].
  cbn [disp_call] in E1. rewrite E1. cbn [mbind outcome_bind].
  change (preset_decision NewSerialPreset (CallTxAdmit (txContext block index tx 0))) with LaneSerial.
  rewrite String.eqb_refl. cbn [negb].
  destruct (serial_call d1 (CallTxReady (txContext block index tx 1))) as (d2 & E2 & Hd2); [done..|].
  cbn [disp_call] in E2. rewrite E2. cbn [mbind outcome_bind].
  change (preset_decision NewSerialPreset (CallTxReady (txContext block index tx 1))) with LaneSerial.
  rewrite String.eqb_refl. cbn [negb].
  destruct (serial_call d2 (CallTaskReady (MkTaskContext (txContext block index tx 2) "execution")))
    as (d3 & E3 & Hd3); [done..|].
  cbn [disp_call] in E3. rewrite E3. cbn [mbind outcome_bind]. rewrite (serial_ok_Err d3) by done.
  by apply serial_execute_preset.
Qed.

Lemma serial_loop_preset block index txs d working results :
  serial_ok d → (∀ tx, tx ∈ txs → tx_typed tx) →
  let '(final, results') := run_block block index txs working in
  ∃ d', serial_loop block index txs background d working results =
    Returns (background, d', inr (final, results ++ results')) ∧ serial_ok d'.
Proof.
  revert index d working results. induction txs as [|tx txs IH]; intros index d working results Hd Ht.
  { cbn. exists d. by rewrite app_nil_r. }
  cbn [run_block serial_loop].
  destruct (serial_tx_preset block index tx d working Hd) as (d1 & -> & Hd1); [apply Ht; by left|].
  cbn [mbind outcome_bind].
  specialize (IH (index + 1) d1 (apply_tx (run_tx block index tx working) working)
    (results ++ [m_result (run_tx block index tx working)]) Hd1).
  destruct (run_block block (index + 1) txs _) as [final results'].
  destruct IH as (d' & -> & Hd'); [intros tx' Hin; apply Ht; by right|].
  exists d'. by rewrite <- app_assoc.
Qed.

Lemma Replace_Snapshot s s' : Replace s (Snapshot s') = Some s'.
Proof. unfold Replace. rewrite FromEntries_Snapshot. by destruct s'. Qed.

(** What a call publishes when nothing goes wrong. *)
Definition serial_result (sha256_hex : Bytes → string) (config : EngineConfig) (block : Block) (storage : Store) :
    Store * BlockResult :=
  let '(final, results) := run_block block 0 (Transactions block) storage in
  let result := MkBlockResult (b_ID block) (b_Height block) results (Snapshot final) "" in
  (final, if ec_OmitResultDigest config then result
          else MkBlockResult (b_ID block) (b_Height block) results (Snapshot final)
                 (CanonicalDigest sha256_hex result)).

Lemma serial_run_preset sha256_hex block config mode storage d :
  serial_ok d → (∀ tx, tx ∈ Transactions block → tx_typed tx) →
  ∃ trace, serial_run sha256_hex block config mode storage background d =
    Returns (MkRun (Some (serial_result sha256_hex config block storage).1)
               (serial_result sha256_hex config block storage).2 trace None).
Proof.
  intros Hd Ht. unfold serial_run. cbv zeta.
  destruct (serial_call d (CallEpochStart (MkEpochContext (EpochID config block)))) as (d1 & E1 & Hd1); [done..|].
  cbn [disp_call] in E1. rewrite E1. cbn [mbind outcome_bind].
  destruct (serial_call d1 (CallBlockReady
    (MkBlockContext (b_ID block) (b_Height block) (Z.of_nat (length (Transactions block)))))) as (d2 & E2 & Hd2); [done..|].
  cbn [disp_call] in E2. rewrite E2. cbn [mbind outcome_bind]. rewrite (serial_ok_Err d2) by done.
  rewrite FromEntries_Snapshot.
  pose proof (serial_loop_preset block 0 (Transactions block) d2 storage [] Hd2 Ht) as H.
  unfold serial_result. destruct (run_block block 0 (Transactions block) storage) as [final results].
  destruct H as (d' & -> & _). cbn [mbind outcome_bind poll background app].
  destruct (ec_OmitResultDigest config); cbn [FinalState]; rewrite Replace_Snapshot; by eexists.
Qed.

(** The whole call, up to the first action on the dispatcher. *)
Lemma ExecuteBlock_default sha256_hex block storage config clock plan :
  ValidateBlock block = None →
  (ec_Executors config = 0 ∨ ec_Executors config = 1) → 0 <= ec_MaxSpeculativeInflight config <= 1 →
  EffectiveDependencyControl (ec_Control config) = inr plan → serial_plan_ok plan = true →
  (ec_Policy config = None ∨ ec_Policy config = Some (Some (MkAnyPolicy unit (preset_policy NewSerialPreset) tt))) →
  (ec_TraceMode config = "" ∨ ValidTraceMode (ec_TraceMode config) = true) →
  ∃ d mode, serial_ok d ∧
    ExecuteBlock sha256_hex background block (Some storage) config clock =
      serial_run sha256_hex block config mode storage background d.
Proof.
  intros Hb He Hs Hplan Hok Hp Hm. unfold ExecuteBlock, ValidateBlockAndState. rewrite Hb. cbv zeta.
  destruct (negb (ec_Executors config =? 0) && _) eqn:E1; [exfalso; destruct He as [He'|He']; by rewrite He' in E1|].
  destruct ((ec_MaxSpeculativeInflight config <? 0) || _) eqn:E2; [exfalso; bool_lia|].
  rewrite Hplan, Hok. cbn [negb poll background]. unfold EffectiveTraceMode.
  assert (match ec_Policy config with None => Some (MkAnyPolicy unit (preset_policy NewSerialPreset) tt) | Some p => p end =
    Some (MkAnyPolicy unit (preset_policy NewSerialPreset) tt)) as -> by (by destruct Hp as [-> | ->]).
  assert (∀ mode, ValidTraceMode mode = true →
    ∃ d, NewDispatcherWithTrace (Some (preset_policy NewSerialPreset, tt)) mode clock = inr d ∧ serial_ok d) as Hnew.
  { intros mode Hv. unfold NewDispatcherWithTrace. rewrite Hv. cbn [negb]. eexists. split; [reflexivity|].
    split; [done|]. split; [done|]. split; [|done]. cbn. unfold effective_mode. by rewrite Hv. }
  destruct (String.eqb_spec (ec_TraceMode config) "") as [_|Hne].
  { destruct (Hnew TraceDetailed eq_refl) as (d & -> & Hd). by exists d, TraceDetailed. }
  destruct Hm as [Hm|Hm]; [done|]. rewrite Hm. cbn [negb].
  destruct (Hnew (ec_TraceMode config) Hm) as (d & -> & Hd). by exists d, (ec_TraceMode config).
Qed.

(** ** Properties *)

(** C19: The serial engine is the reference it is meant to be.  With a valid
    block of well-typed transactions, the default dependency plan and its
    preset, an uncancelled call always returns without an error; transaction
    [i] is executed on the state the successful ones among its predecessors
    left, failed ones change nothing, the results are in block order, the
    final state is the snapshot of what the last one left, it is what the
    given store holds afterwards, and the digest is that of the result. *)
Theorem serial_engine_reference sha256_hex block storage config clock plan :
  ValidateBlock block = None →
  (∀ tx, tx ∈ Transactions block → tx_typed tx) →
  (ec_Executors config = 0 ∨ ec_Executors config = 1) → 0 <= ec_MaxSpeculativeInflight config <= 1 →
  EffectiveDependencyControl (ec_Control config) = inr plan → serial_plan_ok plan = true →
  ec_Policy config = None → (ec_TraceMode config = "" ∨ ValidTraceMode (ec_TraceMode config) = true) →
  let '(final, results) := run_block block 0 (Transactions block) storage in
  ∃ run, ExecuteBlock sha256_hex background block (Some storage) config clock = Returns run ∧
    x_err run = None ∧ x_storage run = Some final ∧
    br_Transactions (x_result run) = results ∧ FinalState (x_result run) = Snapshot final ∧
    Digest (x_result run) =
      (if ec_OmitResultDigest config then ""
       else CanonicalDigest sha256_hex (MkBlockResult (b_ID block) (b_Height block) results (Snapshot final) "")).
Proof.
  intros Hb Ht He Hs Hplan Hok Hp Hm.
  destruct (ExecuteBlock_default sha256_hex block storage config clock plan) as (d & mode & Hd & ->); [first [done|by left]..|].
  destruct (serial_run_preset sha256_hex block config mode storage d Hd Ht) as [trace ->].
  unfold serial_result. destruct (run_block block 0 (Transactions block) storage) as [final results].
  eexists. split; [reflexivity|]. cbn. split; [done|]. split; [done|]. by destruct (ec_OmitResultDigest config).
Qed.

Lemma serial_loop_length {S} block index txs ctx (d : Dispatcher S) working results ctx' d' final results' :
  serial_loop block index txs ctx d working results = Returns (ctx', d', inr (final, results')) →
  length results' = (length results + length txs)%nat.
Proof.
  revert index ctx d working results. induction txs as [|tx txs IH]; intros index ctx d working results; cbn.
  { intros [= <- <- <- <-]. lia. }
  destruct (serial_tx block index tx ctx d working) as [[[ctx1 d1] [e|[w r]]]| |]; [done| |done..].
  intros E%IH. rewrite length_app in E. cbn in E. lia.
Qed.

(** ** Any policy

    Whatever the policy and the context do, a transaction that gets a result
    gets the one of the plain interpreter. *)

Lemma serial_tx_any {S} block index tx ctx (d : Dispatcher S) working ctx' d' working' result :
  serial_tx block index tx ctx d working = Returns (ctx', d', inr (working', result)) →
  working' = apply_tx (run_tx block index tx working) working ∧ result = m_result (run_tx block index tx working).
Proof.
  unfold serial_tx. destruct (poll ctx) as [ctx1 []]; [done|].
  destruct (disp_OnTxAdmit d _) as [[d1 lane]| |]; cbn [mbind outcome_bind]; [|done..]. destruct (negb _); [done|].
  destruct (disp_OnTxReady d1 _) as [[d2 lane2]| |]; cbn [mbind outcome_bind]; [|done..]. destruct (negb _); [done|].
  destruct (disp_OnTaskReady d2 _) as [[d3 ?]| |]; cbn [mbind outcome_bind]; [|done..]. destruct (Err d3); [done|].
  unfold serial_execute, run_tx.
  destruct (ExecuteWithHooks dispatcher_hooks ctx1 _ tx _ d3) as [m []] eqn:E; [|done..].
  destruct (disp_OnValidationPoint (m_hooks m) _) as [[d4 ?]| |]; cbn [mbind outcome_bind]; [|done..]. destruct (Err d4); [done|].
  destruct (String.eqb_spec (tr_Status (m_result m)) TxStatusCancelled) as [|Hs]; [by destruct (poll (m_ctx m))|].
  destruct (ExecuteWithHooks_strip _ _ _ (txContext block index tx 2) tx _ _ _ E Hs eq_refl) as [o ->]. by intros [= <- <- <- <-].
Qed.

Lemma serial_loop_any {S} block index txs ctx (d : Dispatcher S) working results ctx' d' final results' :
  serial_loop block index txs ctx d working results = Returns (ctx', d', inr (final, results')) →
  (final, results') = ((run_block block index txs working).1, results ++ (run_block block index txs working).2).
Proof.
  revert index ctx d working results. induction txs as [|tx txs IH]; intros index ctx d working results; cbn [serial_loop run_block].
  { intros [= <- <- <- <-]. by rewrite app_nil_r. }
  destruct (serial_tx block index tx ctx d working) as [[[ctx1 d1] [e|[w r]]]| |] eqn:E; cbn [mbind outcome_bind]; [done| |done..].
  apply serial_tx_any in E as [-> ->]. intros H%IH. rewrite H.
  destruct (run_block block (index + 1) txs _) as [final' results'']. cbn. by rewrite <- app_assoc.
Qed.

(** A call of the serial engine that returns without an error, under any policy,
    has published the results of the plain interpreter. *)
Lemma ExecuteBlock_any_policy sha256_hex ctx block storage config clock run :
  ExecuteBlock sha256_hex ctx block (Some storage) config clock = Returns run → x_err run = None →
  x_storage run = Some (serial_result sha256_hex config block storage).1 ∧
  x_result run = (serial_result sha256_hex config block storage).2.
Proof.
  unfold ExecuteBlock. cbv zeta. destruct (ValidateBlockAndState block _); [by intros [= <-]|].
  destruct (_ && _); [by intros [= <-]|]. destruct (_ || _); [by intros [= <-]|].
  destruct (EffectiveDependencyControl _) as [|plan]; [by intros [= <-]|]. destruct (negb (serial_plan_ok plan)); [by intros [= <-]|].
  destruct (poll ctx) as [ctx' []]; [by intros [= <-]|]. destruct (EffectiveTraceMode config) as [|mode]; [by intros [= <-]|].
  destruct (match ec_Policy config with Some p => p | None => _ end) as [[T p s]|]; [|by intros [= <-]].
  destruct (NewDispatcherWithTrace _ _ _) as [|d]; [by intros [= <-]|]. unfold serial_run. cbv zeta.
  destruct (disp_OnEpochStart d _) as [[d1 ?]| |]; cbn [mbind outcome_bind]; [|done..].
  destruct (disp_OnBlockReady d1 _) as [[d2 ?]| |]; cbn [mbind outcome_bind]; [|done..].
  destruct (Err d2); [by intros [= <-]|]. rewrite FromEntries_Snapshot.
  destruct (serial_loop _ _ _ _ _ _ _) as [[[ctx1 d'] [e|[final results]]]| |] eqn:El; cbn [mbind outcome_bind]; [by intros [= <-]| |done..].
  apply serial_loop_any in El. unfold serial_result.
  destruct (run_block block 0 (Transactions block) storage) as [final' results']. cbn [app fst snd] in El. injection El as -> ->.
  destruct (poll ctx1) as [ctx2 []]; [by intros [= <-]|].
  destruct (ec_OmitResultDigest config); cbn [FinalState]; rewrite Replace_Snapshot; by intros [= <-].
Qed.

Lemma serial_run_atomic {S} sha256_hex block config mode storage ctx (d : Dispatcher S) run :
  serial_run sha256_hex block config mode storage ctx d = Returns run →
  (x_err run = None ∧ (∃ published, x_storage run = Some published ∧
     FinalState (x_result run) = Snapshot published ∧
     length (br_Transactions (x_result run)) = length (Transactions block))) ∨
  (x_err run ≠ None ∧ x_storage run = Some storage ∧ x_result run = zeroBlockResult).
Proof.
  unfold serial_run. cbv zeta.
  assert (∀ (d : Dispatcher S) e,
    Returns (MkRun (Some storage) zeroBlockResult (Dispatcher_Trace d engineName) (Some e)) = Returns run →
    x_err run ≠ None ∧ x_storage run = Some storage ∧ x_result run = zeroBlockResult) as Hfail.
  { intros d0 e [= <-]. done. }
  destruct (disp_OnEpochStart d _) as [[d1 ?]| |]; cbn [mbind outcome_bind]; [|done..].
  destruct (disp_OnBlockReady d1 _) as [[d2 ?]| |]; cbn [mbind outcome_bind]; [|done..].
  destruct (Err d2); [right; by eapply Hfail|].
  destruct (FromEntries _) as [working|]; [|right; by eapply Hfail].
  destruct (serial_loop _ _ _ _ _ _ _) as [[[ctx' d'] [e|[final results]]]| |] eqn:El;
    cbn [mbind outcome_bind]; [right; by eapply Hfail| |done..].
  apply serial_loop_length in El. destruct (poll ctx') as [ctx'' []]; [right; by eapply Hfail|].
  destruct (ec_OmitResultDigest config); cbn [FinalState]; rewrite Replace_Snapshot; intros [= <-]; left.
  all: split; [done|]; eexists; split; [done|]; split; [done|exact El].
Qed.

(** Publication is atomic: however a call of the serial engine ends,
    either it has no error, every transaction has a result and the store holds
    exactly the final state of the result, or it has an error, the result is
    the zero value and the store is untouched.  This covers invalid blocks
    and configurations, policies that fail or choose another lane, and
    cancellation at any poll; a context that is cancelled from the start is
    always an error. *)
Lemma serial_publication_atomic sha256_hex ctx block storage config clock run :
  ExecuteBlock sha256_hex ctx block storage config clock = Returns run →
  ((x_err run = None ∧ (∃ published, x_storage run = Some published ∧
      FinalState (x_result run) = Snapshot published ∧
      length (br_Transactions (x_result run)) = length (Transactions block))) ∨
   (x_err run ≠ None ∧ x_storage run = storage ∧ x_result run = zeroBlockResult)) ∧
  (ctx = Some O → x_err run ≠ None).
Proof.
  unfold ExecuteBlock. cbv zeta.
  assert (∀ e, Returns (MkRun storage zeroBlockResult (empty_trace engineName) (Some e)) = Returns run →
    ((x_err run = None ∧ (∃ published, x_storage run = Some published ∧
       FinalState (x_result run) = Snapshot published ∧
       length (br_Transactions (x_result run)) = length (Transactions block))) ∨
     (x_err run ≠ None ∧ x_storage run = storage ∧ x_result run = zeroBlockResult)) ∧
    (ctx = Some O → x_err run ≠ None)) as Hfail.
  { intros e [= <-]. split; [by right|done]. }
  destruct (ValidateBlockAndState block storage); [apply Hfail|].
  destruct storage as [store|]; [|apply Hfail].
  destruct (_ && _); [apply Hfail|]. destruct (_ || _); [apply Hfail|].
  destruct (EffectiveDependencyControl _) as [|plan]; [apply Hfail|].
  destruct (negb (serial_plan_ok plan)); [apply Hfail|].
  destruct (poll ctx) as [ctx' []] eqn:Ep; [apply Hfail|].
  destruct (EffectiveTraceMode config) as [|mode]; [apply Hfail|].
  destruct (match ec_Policy config with Some p => p | None => _ end) as [[T p s]|]; [|apply Hfail].
  destruct (NewDispatcherWithTrace _ _ _) as [|d]; [apply Hfail|].
  intros H%serial_run_atomic. split; [done|]. intros ->. cbn in Ep. done.
Qed.

(** Two countdowns over an empty store. *)
Definition named (id : string) (tx : Transaction) : Transaction := MkTransaction id (MaxUnits tx) (tx_Program tx).
Definition sample_block : Block := MkBlock "b" 1 [named "t1" countdown; named "t2" countdown].
Definition default_control : RunConfig := MkRunConfig "" "" "" "" "" "" "" "" "".
Definition default_config : EngineConfig := MkEngineConfig 0 "" None "" 0 default_control true.

Lemma sample_block_typed tx : tx ∈ Transactions sample_block → tx_typed tx.
Proof.
  intros Hin. destruct countdown_typed as [Hu Hi]. cbn in Hin.
  apply elem_of_cons in Hin as [->|Hin]; [by split|]. apply list_elem_of_singleton in Hin as ->. by split.
Qed.

Lemma serial_engine_reference_witness :
  ∃ run, ExecuteBlock (λ _, ""%string) background sample_block (Some New) default_config [] = Returns run ∧
    (tr_Status <$> br_Transactions (x_result run)) = [TxStatusSuccess; TxStatusSuccess] ∧
    (UnitsUsed <$> br_Transactions (x_result run)) = [12; 3].
Proof.
  assert (∃ final results, run_block sample_block 0 (Transactions sample_block) New = (final, results) ∧
    (tr_Status <$> results) = [TxStatusSuccess; TxStatusSuccess] ∧ (UnitsUsed <$> results) = [12; 3])
    as (final & results & E & Hs & Hu).
  { do 2 eexists. split; [apply surjective_pairing|]. split; vm_compute; reflexivity. }
  destruct (EffectiveDependencyControl default_control) as [|plan] eqn:Ep; [discriminate|].
  pose proof (serial_engine_reference (λ _, ""%string) sample_block New default_config [] plan) as H.
  rewrite E in H. destruct H as (run & Hrun & _ & _ & Hr & _).
  - reflexivity.
  - apply sample_block_typed.
  - by left.
  - split; discriminate.
  - exact Ep.
  - injection Ep as <-. reflexivity.
  - reflexivity.
  - by left.
  - exists run. rewrite Hr. split; [exact Hrun|]. split; [exact Hs|exact Hu].
Defined.

(** Cancelled at the second transaction: nothing is published. *)
Lemma serial_publication_atomic_witness :
  ∃ run, ExecuteBlock (λ _, ""%string) (Some 15%nat) sample_block (Some New) default_config [] = Returns run ∧
    x_err run = Some ContextError ∧ x_storage run = Some New.
Proof.
  destruct (ExecuteBlock (λ _, ""%string) (Some 15%nat) sample_block (Some New) default_config [])
    as [run| |] eqn:E; [|exfalso; vm_compute in E; discriminate..].
  exists run. split; [reflexivity|].
  assert (x_err run = Some ContextError) as He.
  { assert (match ExecuteBlock (λ _, ""%string) (Some 15%nat) sample_block (Some New) default_config [] with
            | Returns r => x_err r | _ => None end = Some ContextError) as H by (vm_compute; reflexivity).
    by rewrite E in H. }
  split; [exact He|].
  destruct (serial_publication_atomic _ _ _ _ _ _ _ E) as [[[H _]|(_ & H & _)] _]; [congruence|exact H].
Defined.

(** The capability report of the engine is accepted, so [New] never panics. *)
Lemma serialCapabilities_returns :
  ∃ c, serialCapabilities = Returns c ∧ cp_Engine c = engineName ∧
    ∀ event, event ∈ serial_supported → ec_Supported <$> Lookup c event = Some true.
Proof.
  destruct serialCapabilities as [c| |] eqn:E; [|vm_compute in E; discriminate..].
  exists c. split; [done|]. vm_compute in E. injection E as <-. split; [done|].
  intros event Hin. unfold serial_supported in Hin. rewrite ?elem_of_cons, ?elem_of_nil in Hin.
  destruct_or? Hin; try done; subst; vm_compute; reflexivity.
Qed.
