(* ===== verification/Experiment.v ===== *)
(** * internal/experiment/config.go and protocol.go: experiment configurations

    When a configuration is accepted, what its cases resolve to, and the
    statistical protocol it runs under.  Files and their JSON are inputs: a
    read gives [None] for an error, the decoder and [time.ParseDuration] are
    classes. *)

From Stdlib Require Import ZArith Lia String.
From S2P Require Import Prelude Float64 KernelPolicy Plan Workload Generator Control Dispatcher Serial Telemetry.
Local Open Scope Z_scope.

(** ** Configurations *)

Definition ConfigSchemaVersion : string := "experiment-matrix-v8".

Record WorkloadConfig := MkWorkloadConfig { wc_ArtifactPath : string; wc_Synthetic : option Generator.Config }.

Record CaseConfig := MkCaseConfig {
  cc_ID : string;
  cc_Engine : string;
  cc_Policy : string;
  cc_Executors : Z;
  cc_MaxSpeculativeInflight : Z;
  cc_DependencyMode : string;
  cc_DependencySource : string;
  cc_DependencyRepresentation : string;
  cc_DependencyRepresentationBuilder : string;
  cc_DependencyWaitPolicy : string;
  cc_DependencyEstimateInjection : string;
  cc_DependencyDispatch : string;
  cc_EstimateReadPolicy : string;
  cc_IdleWaitPolicy : string;
  cc_TraceMode : string;
}.
#[export] Instance CaseConfig_eq_dec : EqDecision CaseConfig.
Proof. solve_decision. Defined.

Record OutputConfig := MkOutputConfig { ValidationRecords : string; RunRecords : string; ActionTraces : string }.

Record TelemetryAblationConfig := MkAblationConfig {
  ta_OffCase : string;
  ta_InstrumentedCase : string;
  EnforcePlatforms : list string;
}.

Record ExperimentConfig := MkExperimentConfig {
  xc_SchemaVersion : string;
  xc_RunClass : string;
  xc_Workload : WorkloadConfig;
  xc_StatisticalProtocol : string;
  xc_WarmupRounds : Z;
  xc_MeasurementRounds : Z;
  xc_OrderSeed : Z;
  xc_Timeout : string;
  xc_Environment : Environment;
  xc_Cases : list CaseConfig;
  xc_Output : OutputConfig;
  xc_TelemetryAblation : option TelemetryAblationConfig;
}.

Record LoadedConfig := MkLoadedConfig { lc_Config : ExperimentConfig; lc_Path : string; lc_Timeout : Z }.

Definition TelemetryCase (c : CaseConfig) : Case :=
  MkCase (cc_ID c) (cc_Engine c) (cc_Policy c) PresetVersion (cc_Executors c) (cc_MaxSpeculativeInflight c)
    (cc_DependencyMode c) (cc_DependencySource c) (cc_DependencyRepresentation c) (cc_DependencyRepresentationBuilder c)
    (cc_DependencyWaitPolicy c) (cc_DependencyEstimateInjection c) (cc_DependencyDispatch c) (cc_EstimateReadPolicy c)
    (cc_IdleWaitPolicy c) (cc_TraceMode c).

Inductive config_error :=
| ConfigSchema | RunClassUnknown | WorkloadAmbiguous | ProtocolRequired | RoundsInvalid | TimeoutInvalid
| EnvironmentImplicit | ProcessReuseInvalid | StateResetInvalid | FormalEnvironment | NoCases | CaseIncomplete
| DuplicateCase (id : string) | NegativeExecutors (id : string) | NegativeInflight (id : string)
| IllegalDependencyPlan (id : string) (e : plan_error) | IllegalKernelPolicy (id : string) (e : plan_error)
| SerialKernelPolicy (id : string) | InvalidTraceMode (id : string) | UnknownCaseEngine (id : string)
| UnknownCasePolicy (id : string) | SerialInflight (id : string) | SerialDependency (id : string)
| OutputRequired | OutputRepeated | AblationUnknownCase | AblationTraceModes | AblationDiffers
| AblationPlatform (platform : string) | ConfigUnreadable | ConfigDecode.

(** [strings.Contains] *)
Definition Contains (s substr : string) : bool := match String.index 0 substr s with Some _ => true | None => false end.

(** The fields the resolution of the dependency plan is given, and those of the kernel plan. *)
Definition dependency_fields (c : CaseConfig) : RunConfig :=
  MkRunConfig (cc_DependencyMode c) (cc_DependencySource c) (cc_DependencyRepresentation c)
    (cc_DependencyRepresentationBuilder c) (cc_DependencyWaitPolicy c) (cc_DependencyEstimateInjection c) "" "" "".
Definition kernel_fields (c : CaseConfig) : RunConfig :=
  MkRunConfig "" "" "" "" "" "" (cc_DependencyDispatch c) (cc_EstimateReadPolicy c) (cc_IdleWaitPolicy c).

(** The resolved policies are recorded in the case. *)
Definition resolved_case (c : CaseConfig) (p : DependencyPlan) (k : KernelPlan) : CaseConfig :=
  MkCaseConfig (cc_ID c) (cc_Engine c) (cc_Policy c) (cc_Executors c) (cc_MaxSpeculativeInflight c)
    (dp_Mode p) (dp_Source p) (dp_Representation p) (dp_Builder p) (dp_WaitPolicy p) (dp_EstimateInjection p)
    (kp_Dispatch k) (kp_EstimateRead k) (kp_IdleWait k) (cc_TraceMode c).

(** ** [validate] *)

Definition check_case (caseIDs : gmap string CaseConfig) (c : CaseConfig) : config_error + CaseConfig :=
  let id := cc_ID c in
  if (id =? "")%string || (cc_Engine c =? "")%string || (cc_Policy c =? "")%string then inl CaseIncomplete
  else if bool_decide (is_Some (caseIDs !! id)) then inl (DuplicateCase id)
  else if cc_Executors c <? 0 then inl (NegativeExecutors id)
  else if cc_MaxSpeculativeInflight c <? 0 then inl (NegativeInflight id)
  else match EffectiveDependencyControl (dependency_fields c) with
  | inl e => inl (IllegalDependencyPlan id e)
  | inr p =>
      match EffectiveKernelControl (kernel_fields c) p with
      | inl e => inl (IllegalKernelPolicy id e)
      | inr k =>
          let serial := (cc_Engine c =? "serial")%string in
          if serial && negb (KernelPlan_IsFrozenDefault k) then inl (SerialKernelPolicy id)
          else if negb (ValidTraceMode (cc_TraceMode c)) then inl (InvalidTraceMode id)
          else if negb serial && negb (cc_Engine c =? "blockstm")%string then inl (UnknownCaseEngine id)
          else if negb (cc_Policy c =? "serial_preset")%string && negb (cc_Policy c =? "blockstm_preset")%string
          then inl (UnknownCasePolicy id)
          else if serial && (1 <? cc_MaxSpeculativeInflight c) then inl (SerialInflight id)
          else if serial && negb (serial_plan_ok p) then inl (SerialDependency id)
          else inr (resolved_case c p k)
      end
  end.

(** The loop over the cases: the resolved ones and the map by identifier. *)
Fixpoint check_cases (caseIDs : gmap string CaseConfig) (cases : list CaseConfig) :
    config_error + (gmap string CaseConfig * list CaseConfig) :=
  match cases with
  | [] => inr (caseIDs, [])
  | c :: cases =>
      match check_case caseIDs c with
      | inl e => inl e
      | inr c' =>
          match check_cases (<[cc_ID c := c']> caseIDs) cases with
          | inl e => inl e
          | inr (caseIDs, cases) => inr (caseIDs, c' :: cases)
          end
      end
  end.

(** [off.ID, instrumented.ID = "", ""] and the same of the trace modes *)
Definition strip_case (c : CaseConfig) : CaseConfig :=
  MkCaseConfig "" (cc_Engine c) (cc_Policy c) (cc_Executors c) (cc_MaxSpeculativeInflight c)
    (cc_DependencyMode c) (cc_DependencySource c) (cc_DependencyRepresentation c) (cc_DependencyRepresentationBuilder c)
    (cc_DependencyWaitPolicy c) (cc_DependencyEstimateInjection c) (cc_DependencyDispatch c) (cc_EstimateReadPolicy c)
    (cc_IdleWaitPolicy c) "".

Definition check_ablation (caseIDs : gmap string CaseConfig) (a : TelemetryAblationConfig) : option config_error :=
  match caseIDs !! ta_OffCase a, caseIDs !! ta_InstrumentedCase a with
  | Some off, Some instrumented =>
      if negb (cc_TraceMode off =? TraceOff)%string || (cc_TraceMode instrumented =? TraceOff)%string
      then Some AblationTraceModes
      else if negb (bool_decide (strip_case off = strip_case instrumented)) then Some AblationDiffers
      else match findb (λ platform, negb (platform =? "linux")%string && negb (platform =? "darwin")%string) (EnforcePlatforms a) with
      | Some platform => Some (AblationPlatform platform)
      | None => None
      end
  | _, _ => Some AblationUnknownCase
  end.

(** The controls of the environment. *)
Definition check_environment (runClass : string) (e : Environment) : option config_error :=
  if (ev_Affinity e =? "")%string || (ev_NUMAPolicy e =? "")%string || (ev_StateReset e =? "")%string ||
     (ev_PageCache e =? "")%string || (ev_ProcessReuse e =? "")%string then Some EnvironmentImplicit
  else if negb (ev_ProcessReuse e =? "fresh_process_per_run")%string then Some ProcessReuseInvalid
  else if negb (ev_StateReset e =? "fresh_state_from_frozen_artifact")%string then Some StateResetInvalid
  else if (runClass =? "formal")%string &&
          existsb (λ v, Contains v "REPLACE_WITH_" || Contains v "uncontrolled")
            [ev_Affinity e; ev_NUMAPolicy e; ev_PageCache e]
  then Some FormalEnvironment else None.

(** The three output paths are given and distinct. *)
Definition check_output (o : OutputConfig) : option config_error :=
  let paths := [ValidationRecords o; RunRecords o; ActionTraces o] in
  if existsb (String.eqb "") paths then Some OutputRequired
  else if negb (bool_decide (NoDup paths)) then Some OutputRepeated else None.

Class ParseDuration := parse_duration : string → option Z.

Definition with_cases (c : ExperimentConfig) (cases : list CaseConfig) : ExperimentConfig :=
  MkExperimentConfig (xc_SchemaVersion c) (xc_RunClass c) (xc_Workload c) (xc_StatisticalProtocol c) (xc_WarmupRounds c)
    (xc_MeasurementRounds c) (xc_OrderSeed c) (xc_Timeout c) (xc_Environment c) cases (xc_Output c) (xc_TelemetryAblation c).

Section validate.
Context {PD : ParseDuration}.

(** The configuration with its cases resolved, and the timeout. *)
Definition validate_config (c : ExperimentConfig) : config_error + (ExperimentConfig * Z) :=
  if negb (xc_SchemaVersion c =? ConfigSchemaVersion)%string then inl ConfigSchema
  else if negb (xc_RunClass c =? "smoke")%string && negb (xc_RunClass c =? "formal")%string then inl RunClassUnknown
  else if Bool.eqb (wc_ArtifactPath (xc_Workload c) =? "")%string
            (match wc_Synthetic (xc_Workload c) with None => true | Some _ => false end) then inl WorkloadAmbiguous
  else if (xc_StatisticalProtocol c =? "")%string then inl ProtocolRequired
  else if (xc_WarmupRounds c <? 0) || (xc_MeasurementRounds c <=? 0) then inl RoundsInvalid
  else match parse_duration (xc_Timeout c) with
  | None => inl TimeoutInvalid
  | Some timeout =>
      if timeout <=? 0 then inl TimeoutInvalid
      else match check_environment (xc_RunClass c) (xc_Environment c) with
      | Some e => inl e
      | None =>
          if (length (xc_Cases c) =? 0)%nat then inl NoCases
          else match check_cases ∅ (xc_Cases c) with
          | inl e => inl e
          | inr (caseIDs, cases) =>
              match check_output (xc_Output c), match xc_TelemetryAblation c with Some a => check_ablation caseIDs a | None => None end with
              | Some e, _ | None, Some e => inl e
              | None, None => inr (with_cases c cases, timeout)
              end
          end
      end
  end.

(** [decodeStrict]: one value and nothing after it. *)
Definition decodeStrict `{J : Json} {A} (decode : Bytes → option (A * Bytes)) (encoded : Bytes) : option A :=
  match decode encoded with
  | None => None
  | Some (a, rest) => match Decode_any rest with JSONEnd => Some a | JSONValue | JSONError => None end
  end.

(** [file] is what [os.ReadFile] finds. *)
Definition LoadConfig `{J : Json} (decode : Bytes → option (ExperimentConfig * Bytes)) (path : string) (file : option Bytes) :
    config_error + LoadedConfig :=
  match file with
  | None => inl ConfigUnreadable
  | Some encoded =>
      match decodeStrict decode encoded with
      | None => inl ConfigDecode
      | Some config =>
          match validate_config config with
          | inl e => inl e
          | inr (config, timeout) => inr (MkLoadedConfig config path timeout)
          end
      end
  end.
End validate.

(** ** The statistical protocol *)

Definition StatisticalProtocolSchemaVersion : string := "statistical-protocol-v1".

Record StatisticalProtocol := MkStatisticalProtocol {
  sp_SchemaVersion : string;
  sp_Status : string;
  PairedWorkloadSeeds : bool;
  BalancedRandomizedOrder : bool;
  MinimumWarmupRounds : Z;
  MinimumMeasurementRounds : Z;
  ConfidenceLevel : float64;
  ConfidenceIntervalMethod : string;
  BootstrapResamples : Z;
  MaterialEffectRatio : float64;
  TelemetryOverheadBudgetRatio : float64;
  P99MinimumTransactions : Z;
  MultipleComparisonCorrection : string;
  OutlierPolicy : string;
  TimeoutPolicy : string;
  CrashOOMPolicy : string;
  RankingReversalRequirements : list string;
  PilotSeparation : string;
}.

Inductive protocol_error :=
| ProtocolSchema | ProtocolNotFrozen | RoundMinima | ConfidenceInvalid | EffectInvalid | RulesImplicit
| ProtocolUnreadable | ProtocolDecode | TooFewRounds.

Definition protocol_Validate (p : StatisticalProtocol) : option protocol_error :=
  if negb (sp_SchemaVersion p =? StatisticalProtocolSchemaVersion)%string then Some ProtocolSchema
  else if negb (sp_Status p =? "frozen")%string || negb (PairedWorkloadSeeds p) || negb (BalancedRandomizedOrder p)
  then Some ProtocolNotFrozen
  else if (MinimumWarmupRounds p <? 0) || (MinimumMeasurementRounds p <=? 0) then Some RoundMinima
  else if fle (ConfidenceLevel p) f0 || fle f1 (ConfidenceLevel p) || (BootstrapResamples p <=? 0) then Some ConfidenceInvalid
  else if (ConfidenceIntervalMethod p =? "")%string || fle (MaterialEffectRatio p) f0 || fle f1 (MaterialEffectRatio p) ||
          flt (TelemetryOverheadBudgetRatio p) f0 || fle f1 (TelemetryOverheadBudgetRatio p) then Some EffectInvalid
  else if (P99MinimumTransactions p <=? 0) || (MultipleComparisonCorrection p =? "")%string || (OutlierPolicy p =? "")%string ||
          (TimeoutPolicy p =? "")%string || (CrashOOMPolicy p =? "")%string || (PilotSeparation p =? "")%string
  then Some RulesImplicit else None.

Definition LoadStatisticalProtocol `{J : Json} (decode : Bytes → option (StatisticalProtocol * Bytes)) (file : option Bytes) :
    protocol_error + StatisticalProtocol :=
  match file with
  | None => inl ProtocolUnreadable
  | Some encoded =>
      match decodeStrict decode encoded with
      | None => inl ProtocolDecode
      | Some protocol => match protocol_Validate protocol with Some e => inl e | None => inr protocol end
      end
  end.

Definition ValidateRunClass (p : StatisticalProtocol) (c : ExperimentConfig) : option protocol_error :=
  if negb (xc_RunClass c =? "formal")%string then None
  else if (xc_WarmupRounds c <? MinimumWarmupRounds p) || (xc_MeasurementRounds c <? MinimumMeasurementRounds p)
  then Some TooFewRounds else None.

(** ** What an accepted case is *)

(** The control fields [Execute] passes to the engine. *)
Definition case_control (c : CaseConfig) : RunConfig :=
  MkRunConfig (cc_DependencyMode c) (cc_DependencySource c) (cc_DependencyRepresentation c)
    (cc_DependencyRepresentationBuilder c) (cc_DependencyWaitPolicy c) (cc_DependencyEstimateInjection c)
    (cc_DependencyDispatch c) (cc_EstimateReadPolicy c) (cc_IdleWaitPolicy c).
Definition case_plan (c : CaseConfig) : DependencyPlan :=
  MkDependencyPlan (cc_DependencyMode c) (cc_DependencySource c) (cc_DependencyRepresentation c)
    (cc_DependencyRepresentationBuilder c) (cc_DependencyWaitPolicy c) (cc_DependencyEstimateInjection c).
Definition case_kernel (c : CaseConfig) : KernelPlan :=
  MkKernelPlan (cc_EstimateReadPolicy c) (cc_IdleWaitPolicy c) (cc_DependencyDispatch c).

(** The engine resolves the case to what it records. *)
Record case_resolved (c : CaseConfig) : Prop := {
  cr_named : cc_ID c ≠ "" ∧ cc_Engine c ≠ "" ∧ cc_Policy c ≠ "";
  cr_bounds : 0 <= cc_Executors c ∧ 0 <= cc_MaxSpeculativeInflight c;
  cr_plan : EffectiveDependencyControl (case_control c) = inr (case_plan c);
  cr_kernel : EffectiveKernelControl (case_control c) (case_plan c) = inr (case_kernel c);
  cr_trace : ValidTraceMode (cc_TraceMode c) = true;
  cr_engine : cc_Engine c = "serial" ∨ cc_Engine c = "blockstm";
  cr_policy : cc_Policy c = "serial_preset" ∨ cc_Policy c = "blockstm_preset";
  cr_serial : cc_Engine c = "serial" →
    KernelPlan_IsFrozenDefault (case_kernel c) = true ∧ cc_MaxSpeculativeInflight c <= 1 ∧ serial_plan_ok (case_plan c) = true;
}.

(** The knobs of a case. *)
Definition knobs (c : CaseConfig) : list string :=
  [cc_DependencyMode c; cc_DependencySource c; cc_DependencyRepresentation c; cc_DependencyRepresentationBuilder c;
   cc_DependencyWaitPolicy c; cc_DependencyEstimateInjection c; cc_DependencyDispatch c; cc_EstimateReadPolicy c;
   cc_IdleWaitPolicy c].

(** Resolving fills in omitted knobs and changes nothing else. *)
Definition fills_in (c c' : CaseConfig) : Prop :=
  cc_ID c' = cc_ID c ∧ cc_Engine c' = cc_Engine c ∧ cc_Policy c' = cc_Policy c ∧ cc_Executors c' = cc_Executors c ∧
  cc_MaxSpeculativeInflight c' = cc_MaxSpeculativeInflight c ∧ cc_TraceMode c' = cc_TraceMode c ∧
  Forall2 (λ given resolved, given ≠ "" → resolved = given) (knobs c) (knobs c').

Lemma EffectiveDependencyControl_fields m s r b w e d er i d' er' i' :
  EffectiveDependencyControl (MkRunConfig m s r b w e d er i) = EffectiveDependencyControl (MkRunConfig m s r b w e d' er' i').
Proof. done. Qed.

Lemma EffectiveDependencyControl_keeps config p : EffectiveDependencyControl config = inr p →
  Forall2 (λ given resolved, given ≠ "" → resolved = given)
    [cfg_Mode config; cfg_Source config; cfg_Representation config; cfg_Builder config; cfg_WaitPolicy config; cfg_EstimateInjection config]
    [dp_Mode p; dp_Source p; dp_Representation p; dp_Builder p; dp_WaitPolicy p; dp_EstimateInjection p].
Proof.
  intros E. unfold EffectiveDependencyControl in E. cbv zeta in E.
  repeat match type of E with
  | (if ?b then _ else _) = _ => destruct b; [discriminate E|]
  | match ?b with Some _ => _ | None => _ end = _ => destruct b; [discriminate E|]
  end. injection E as <-. repeat constructor; intros Hne; by apply or_default_id.
Qed.

(** A kernel plan is a fixed point too. *)
Lemma EffectiveKernelControl_fixed config p k m s r b w e : EffectiveKernelControl config p = inr k →
  EffectiveKernelControl (MkRunConfig m s r b w e (kp_Dispatch k) (kp_EstimateRead k) (kp_IdleWait k)) p = inr k ∧
  Forall2 (λ given resolved, given ≠ "" → resolved = given)
    [cfg_Dispatch config; cfg_EstimateRead config; cfg_IdleWait config] [kp_Dispatch k; kp_EstimateRead k; kp_IdleWait k].
Proof.
  intros E. unfold EffectiveKernelControl in *. cbv zeta in E.
  next_guard E E1. next_guard E E2. next_guard E E3. next_guard E E4. next_guard E E5. injection E as <-.
  cbn [cfg_Dispatch cfg_EstimateRead cfg_IdleWait kp_Dispatch kp_EstimateRead kp_IdleWait]. split.
  - apply negb_false_iff in E1, E2, E4. cbv zeta.
    rewrite !(or_default_id (or_default _ _)) by (eapply one_of_nonempty; [eassumption|]; intros Hin; set_unfold in Hin; destruct_or? Hin; discriminate || done).
    by rewrite E1, E2, E3, E4, E5.
  - repeat constructor; intros Hne; by apply or_default_id.
Qed.

Lemma check_case_spec ids c c' : check_case ids c = inr c' →
  ids !! cc_ID c = None ∧ case_resolved c' ∧ fills_in c c' ∧ (∀ ids', ids' !! cc_ID c = None → check_case ids' c' = inr c').
Proof.
  unfold check_case at 1. intros E. next_guard E E1. next_guard E E2. next_guard E E3. next_guard E E4.
  destruct (EffectiveDependencyControl _) as [|p] eqn:Ep; [done|]. destruct (EffectiveKernelControl _ p) as [|k] eqn:Ek; [done|]. cbv zeta in E.
  next_guard E E5. next_guard E E6. next_guard E E7. next_guard E E8. next_guard E E9. next_guard E E10. injection E as <-.
  apply orb_false_iff in E1 as [[E1 E1']%orb_false_iff E1'']. apply bool_decide_eq_false, eq_None_not_Some in E2.
  assert (EffectiveDependencyControl (dependency_fields (resolved_case c p k)) = inr p) as Ep'.
  { rewrite <- (EffectiveDependencyControl_complete p) by (by eapply EffectiveDependencyControl_checked). done. }
  assert (EffectiveKernelControl (kernel_fields (resolved_case c p k)) p = inr k) as Ek' by (by apply (EffectiveKernelControl_fixed (kernel_fields c))).
  assert (case_plan (resolved_case c p k) = p) as Eplan by (by destruct p). assert (case_kernel (resolved_case c p k) = k) as Ekernel by (by destruct k).
  split; [done|]. split; [|split].
  - split; cbn -[EffectiveDependencyControl EffectiveKernelControl case_plan case_kernel case_control].
    + split_and!; by apply String.eqb_neq.
    + split; bool_lia.
    + rewrite Eplan. exact Ep'.
    + rewrite Eplan, Ekernel. exact (proj1 (EffectiveKernelControl_fixed (kernel_fields c) p k _ _ _ _ _ _ Ek)).
    + by apply negb_false_iff.
    + destruct (String.eqb_spec (cc_Engine c) "serial"); [by left|]. destruct (String.eqb_spec (cc_Engine c) "blockstm"); [by right|done].
    + destruct (String.eqb_spec (cc_Policy c) "serial_preset"); [by left|]. destruct (String.eqb_spec (cc_Policy c) "blockstm_preset"); [by right|done].
    + intros Es. rewrite Es in E5, E9, E10. cbn [String.eqb Ascii.eqb Bool.eqb andb] in E5, E9, E10. rewrite Eplan, Ekernel.
      apply negb_false_iff in E5, E10. split_and!; [done|bool_lia|done].
  - unfold fills_in. cbn [resolved_case cc_ID cc_Engine cc_Policy cc_Executors cc_MaxSpeculativeInflight cc_TraceMode].
    split_and!; try done. apply EffectiveDependencyControl_keeps in Ep.
    pose proof (proj2 (EffectiveKernelControl_fixed (kernel_fields c) p k "" "" "" "" "" "" Ek)) as Hk.
    exact (Forall2_app Ep Hk).
  - intros ids' Hids. unfold check_case. cbn [resolved_case cc_ID cc_Engine cc_Policy cc_Executors cc_MaxSpeculativeInflight cc_TraceMode].
    fold (resolved_case c p k). rewrite E1, E1', E1'', bool_decide_eq_false_2 by (by rewrite Hids; intros [? ?]).
    cbn [orb]. rewrite E3, E4, Ep', Ek'. cbv zeta. rewrite E5, E6, E7, E8, E9, E10. done.
Qed.

Definition insert_cases (ids : gmap string CaseConfig) (cases : list CaseConfig) : gmap string CaseConfig :=
  foldl (λ m c, <[cc_ID c := c]> m) ids cases.

Lemma check_cases_spec ids cases ids' cases' : check_cases ids cases = inr (ids', cases') →
  Forall2 fills_in cases cases' ∧ (∀ c, c ∈ cases' → case_resolved c ∧ ids !! cc_ID c = None) ∧
  NoDup (cc_ID <$> cases') ∧ ids' = insert_cases ids cases' ∧ check_cases ids cases' = inr (ids', cases').
Proof.
  revert ids ids' cases'. induction cases as [|c cases IH]; intros ids ids' cases'; cbn [check_cases].
  { intros [= <- <-]. split_and!; [constructor|by intros c ?%elem_of_nil|constructor|done..]. }
  destruct (check_case ids c) as [|c1] eqn:E; [done|]. apply check_case_spec in E as (Hid & Hc & Hf & Hfix).
  assert (cc_ID c1 = cc_ID c) as Eid by apply Hf.
  destruct (check_cases _ cases) as [|[m rest]] eqn:Er; [done|]. intros [= <- <-]. apply IH in Er as (H1 & H2 & H3 & H4 & H5).
  split_and!.
  - by constructor.
  - intros c' [->|Hin]%elem_of_cons; [by rewrite Eid|]. destruct (H2 c' Hin) as [Hr Hn]. split; [done|].
    rewrite lookup_insert in Hn. by case_decide.
  - cbn. apply NoDup_cons. split; [|done]. intros (c' & E' & Hin)%list_elem_of_fmap. destruct (H2 c' Hin) as [_ Hn].
    rewrite <- E', Eid in Hn. by rewrite lookup_insert_eq in Hn.
  - rewrite H4. cbn. by rewrite Eid.
  - cbn [check_cases]. rewrite Hfix by done. rewrite Eid. by rewrite H5.
Qed.

Lemma insert_cases_lookup ids cases id c : NoDup (cc_ID <$> cases) →
  insert_cases ids cases !! id = Some c ↔ c ∈ cases ∧ cc_ID c = id ∨ id ∉ cc_ID <$> cases ∧ ids !! id = Some c.
Proof.
  unfold insert_cases. revert ids. induction cases as [|c1 cases IH]; intros ids Hnd; cbn [foldl fmap list_fmap].
  { split; [|intros [[?%elem_of_nil _]|[_ ?]]; done]. intros H. right. split; [apply not_elem_of_nil|done]. }
  cbn in Hnd. apply NoDup_cons in Hnd as [Hn Hnd]. rewrite IH by done. rewrite lookup_insert. split.
  - intros [[Hin E]|[Hni H]]; [left; split; [by right|done]|]. case_decide as E.
    + injection H as <-. left. split; [by left|done].
    + right. split; [|done]. rewrite not_elem_of_cons. split; [congruence|done].
  - intros [[[->|Hin]%elem_of_cons E]|[Hni H]].
    + right. rewrite <- E. split; [done|]. by rewrite decide_True.
    + by left.
    + apply not_elem_of_cons in Hni as [Hne Hni]. right. split; [done|]. rewrite decide_False by congruence. done.
Qed.

(** ** Properties *)

Section properties.
Context {PD : ParseDuration}.

(** An ablation that can be read off the measurements: two cases of the matrix,
    one without a trace and one with, and no other difference. *)
Definition ablation_sound (cases : list CaseConfig) (a : TelemetryAblationConfig) : Prop :=
  ∃ off on, off ∈ cases ∧ on ∈ cases ∧ cc_ID off = ta_OffCase a ∧ cc_ID on = ta_InstrumentedCase a ∧
    cc_TraceMode off = TraceOff ∧ cc_TraceMode on ≠ TraceOff ∧ TelemetryCase (strip_case off) = TelemetryCase (strip_case on).

Lemma check_ablation_sound cases a : NoDup (cc_ID <$> cases) → check_ablation (insert_cases ∅ cases) a = None → ablation_sound cases a.
Proof.
  intros Hnd E. unfold check_ablation in E.
  destruct (_ !! ta_OffCase a) as [off|] eqn:Eoff; [|done]. destruct (_ !! ta_InstrumentedCase a) as [on|] eqn:Eon; [|done].
  next_guard E F1. next_guard E F2. apply orb_false_iff in F1 as [F1%negb_false_iff%String.eqb_eq F1'%String.eqb_neq].
  apply negb_false_iff, bool_decide_eq_true in F2.
  apply insert_cases_lookup in Eoff as [[? ?]|[_ ?]]; [|done|done]. apply insert_cases_lookup in Eon as [[? ?]|[_ ?]]; [|done|done].
  exists off, on. split_and!; try done. by rewrite F2.
Qed.

(** What an accepted configuration has passed; with its own cases it passes again. *)
Lemma validate_config_inv c c' timeout : validate_config c = inr (c', timeout) →
  ∃ ids cases, c' = with_cases c cases ∧ 0 < timeout ∧ 0 <= xc_WarmupRounds c ∧ 0 < xc_MeasurementRounds c ∧
    check_cases ∅ (xc_Cases c) = inr (ids, cases) ∧ cases ≠ [] ∧
    match xc_TelemetryAblation c with Some a => check_ablation ids a = None | None => True end ∧
    (check_cases ∅ cases = inr (ids, cases) → validate_config (with_cases c cases) = inr (with_cases c cases, timeout)).
Proof.
  unfold validate_config at 1. intros E. next_guard E E1. next_guard E E2. next_guard E E3. next_guard E E4. next_guard E E5.
  destruct (parse_duration (xc_Timeout c)) as [d|] eqn:E6; [|done]. next_guard E E7.
  destruct (check_environment _ _) eqn:E8; [done|]. next_guard E E9.
  destruct (check_cases ∅ (xc_Cases c)) as [|[ids cases]] eqn:E10; [done|].
  destruct (check_output _) eqn:E11; [done|].
  destruct (match xc_TelemetryAblation c with Some a => check_ablation ids a | None => None end) eqn:E12; [done|].
  injection E as <- <-. pose proof (check_cases_spec _ _ _ _ E10) as (F1 & _).
  apply Forall2_length in F1. pose proof E5 as [E5' E5'']%orb_false_iff. exists ids, cases. split_and!; [done|bool_lia..|done| | |].
  - intros ->. rewrite F1 in E9. done.
  - by destruct (xc_TelemetryAblation c).
  - intros H. unfold validate_config. cbn [with_cases xc_SchemaVersion xc_RunClass xc_Workload xc_StatisticalProtocol xc_WarmupRounds xc_MeasurementRounds
      xc_Timeout xc_Environment xc_Cases xc_Output xc_TelemetryAblation].
    rewrite E1, E2, E3, E4, E5, E6, E7, E8, <- F1, E9, H, E11, E12. done.
Qed.

(** The part a run of the matrix relies on. *)
Lemma validate_config_runs c c' timeout : validate_config c = inr (c', timeout) →
  0 <= xc_WarmupRounds c' ∧ 0 < xc_MeasurementRounds c' ∧ NoDup (cc_ID <$> xc_Cases c') ∧
  (∀ a, xc_TelemetryAblation c' = Some a → ablation_sound (xc_Cases c') a).
Proof.
  intros (ids & cases & -> & _ & H2 & H3 & E4 & _ & H5 & _)%validate_config_inv.
  apply check_cases_spec in E4 as (_ & _ & F3 & F4 & _). split_and!; [done..|]. intros a Ea. cbn in Ea. rewrite Ea, F4 in H5.
  by apply check_ablation_sound.
Qed.

(** C35: What an accepted experiment configuration records is what runs.  Its cases
    have different identifiers; each has all knobs resolved, without changing a
    given one or anything else, so that the engine resolves the recorded fields
    to themselves and refuses none of them (for a serial case: the frozen kernel,
    no static dependencies, no speculation); the two cases of a telemetry
    ablation differ in nothing but identifier and trace mode; and validating the
    resolved configuration again accepts it unchanged. *)
Theorem validate_config_resolves c c' timeout :
  validate_config c = inr (c', timeout) →
  0 < timeout ∧ 0 < xc_MeasurementRounds c' ∧ c' = with_cases c (xc_Cases c') ∧
  xc_Cases c' ≠ [] ∧ NoDup (cc_ID <$> xc_Cases c') ∧
  Forall2 fills_in (xc_Cases c) (xc_Cases c') ∧
  (∀ x, x ∈ xc_Cases c' → case_resolved x) ∧
  (∀ a, xc_TelemetryAblation c' = Some a → ablation_sound (xc_Cases c') a) ∧
  validate_config c' = inr (c', timeout).
Proof.
  intros E. apply validate_config_inv in E as (ids & cases & -> & H1 & H2 & H3 & E4 & H4 & H5 & Hagain).
  apply check_cases_spec in E4 as (F1 & F2 & F3 & F4 & F5). cbn [with_cases xc_Cases xc_MeasurementRounds xc_TelemetryAblation].
  split_and!; try done.
  - intros x Hx. by apply F2.
  - intros a Ea. rewrite Ea in H5. rewrite F4 in H5. by apply check_ablation_sound in H5.
  - by apply Hagain.
Qed.

(** A formal run has the rounds the protocol asks for. *)
Lemma ValidateRunClass_exact p c : ValidateRunClass p c = None ↔
  (xc_RunClass c = "formal" → MinimumWarmupRounds p <= xc_WarmupRounds c ∧ MinimumMeasurementRounds p <= xc_MeasurementRounds c).
Proof.
  unfold ValidateRunClass. destruct (String.eqb_spec (xc_RunClass c) "formal") as [E|Hne]; cbn [negb]; [|by split].
  destruct (Z.ltb_spec (xc_WarmupRounds c) (MinimumWarmupRounds p)), (Z.ltb_spec (xc_MeasurementRounds c) (MinimumMeasurementRounds p)); cbn [orb];
    split; try done; intros H1; try (specialize (H1 E); lia).
Qed.
End properties.

(** ** A matrix of two cases *)

Section witnesses.
#[local] Instance second_durations : ParseDuration := λ s, if (s =? "1s")%string then Some 1000000000 else None.

Definition sample_case (id engine mode : string) (executors : Z) : CaseConfig :=
  MkCaseConfig id engine (engine ++ "_preset") executors 0 "" "" "" "" "" "" "" "suspend_in_place" "gosched" mode.
Definition sample_config (cases : list CaseConfig) : ExperimentConfig :=
  MkExperimentConfig ConfigSchemaVersion "smoke" (MkWorkloadConfig "w.json" None) "p.json" 0 1 0 "1s"
    (MkEnvironment "a" "n" "fresh_state_from_frozen_artifact" "p" "fresh_process_per_run") cases (MkOutputConfig "v" "r" "t")
    (Some (MkAblationConfig "s" "t" ["linux"])).

(** The omitted knobs are resolved; the ablation compares the two cases. *)
Lemma validate_config_resolves_witness :
  let c := sample_config [sample_case "s" "serial" TraceOff 1; sample_case "t" "serial" TraceDetailed 1] in
  match validate_config c with
  | inr (c', t) => t = 1000000000 ∧ cc_DependencyMode <$> xc_Cases c' = [DependencyMVCCRuntime; DependencyMVCCRuntime] ∧
      validate_config c' = inr (c', t)
  | inl _ => False
  end.
Proof.
  cbv zeta. destruct (validate_config _) as [e|[c' t]] eqn:E; [by vm_compute in E|].
  pose proof (validate_config_resolves _ _ _ E) as (_ & _ & _ & _ & _ & _ & _ & _ & H).
  split; [|split; [|exact H]]; vm_compute in E; by injection E as <- <-.
Defined.
End witnesses.
