(* ===== verification/Dependency.v ===== *)
(** * internal/engine/blockstm/dependency.go: static dependency information

    What the engine learns from the programs of a block before executing it:
    the static accesses, the dependency structures built from them, the
    ESTIMATE locations and the gates that consume a structure inside the
    transaction callback.  A [map[string]struct{}] or [map[int]struct{}] is a
    [gset], Go strings made from keys are byte strings, and [None] is the error
    of the cancelled context.  Times and the counters made from them are left
    out. *)

From Stdlib Require Import ZArith Lia String.
From stdpp Require Import sorting.
From S2P Require Import Prelude Prog Model State Encoding Runtime KernelPolicy Plan.
Local Open Scope Z_scope.

(** [if index&mask == 0 { if err := ctx.Err(); ... }] *)
Definition poll_every (mask index : Z) (ctx : context) : context * bool :=
  if Z.land index mask =? 0 then poll ctx else (ctx, false).

(** ** Acquisition *)

Record staticAcquisition := MkAcquisition {
  aq_complete : bool;
  aq_units : Z;
  aq_bytes : Z;
  aq_readKeys : Z;
  aq_writeKeys : Z;
}.

Record staticAccessSet := MkAccessSet { reads : list Bytes; writes : list Bytes }.

Definition sortedSet (values : gset Bytes) : list Bytes := sort_by_key (λ k, k) (elements values).

Definition add_units (a : staticAcquisition) (bytes : Z) : staticAcquisition :=
  MkAcquisition (aq_complete a) (u64 (aq_units a + 1)) (u64 (aq_bytes a + bytes)) (aq_readKeys a) (aq_writeKeys a).
Definition incomplete (a : staticAcquisition) : staticAcquisition :=
  MkAcquisition false (aq_units a) (aq_bytes a) (aq_readKeys a) (aq_writeKeys a).

Fixpoint scan_instructions (l : list Instruction) (index : Z) (ctx : context)
    (rs ws : gset Bytes) (a : staticAcquisition)
    : context * option (gset Bytes * gset Bytes * staticAcquisition) :=
  match l with
  | [] => (ctx, Some (rs, ws, a))
  | instruction :: rest =>
      let '(ctx, cancelled) := poll_every 1023 index ctx in
      if (cancelled : bool) then (ctx, None) else
      let op := in_Op instruction in
      let key := in_Key instruction in
      if (op =? OpRead)%string then
        scan_instructions rest (index + 1) ctx ({[key]} ∪ rs) ws (add_units a (Z.of_nat (length key)))
      else if (op =? OpWrite)%string || (op =? OpDelete)%string then
        scan_instructions rest (index + 1) ctx rs ({[key]} ∪ ws) (add_units a (Z.of_nat (length key)))
      else if (op =? OpCompute)%string || (op =? OpFailIf)%string || (op =? OpJumpIf)%string || (op =? OpReturn)%string then
        scan_instructions rest (index + 1) ctx rs ws (add_units a 0)
      else scan_instructions rest (index + 1) ctx rs ws (incomplete (add_units a 0))
  end.

Fixpoint scan_transactions (l : list Transaction) (index : Z) (ctx : context)
    (accesses : list staticAccessSet) (a : staticAcquisition)
    : context * option (list staticAccessSet * staticAcquisition) :=
  match l with
  | [] => (ctx, Some (accesses, a))
  | transaction :: rest =>
      let '(ctx, cancelled) := poll_every 255 index ctx in
      if (cancelled : bool) then (ctx, None) else
      match scan_instructions (Instructions (tx_Program transaction)) 0 ctx ∅ ∅ a with
      | (ctx, None) => (ctx, None)
      | (ctx, Some (rs, ws, a)) =>
          scan_transactions rest (index + 1) ctx (accesses ++ [MkAccessSet (sortedSet rs) (sortedSet ws)])
            (MkAcquisition (aq_complete a) (aq_units a) (aq_bytes a)
               (u64 (aq_readKeys a + Z.of_nat (size rs))) (u64 (aq_writeKeys a + Z.of_nat (size ws))))
      end
  end.

Definition analyzeStaticPrograms (ctx : context) (block : Block)
    : context * option (list staticAccessSet * staticAcquisition) :=
  scan_transactions (Transactions block) 0 ctx [] (MkAcquisition true 0 0 0 0).

(** ** Representation *)

Definition sortedIndices (values : gset Z) : list Z := merge_sort Z.le (elements values).

(** [if len(seen) > 0 { predecessors[transaction] = sortedIndices(seen) }] *)
Definition indices_or_nil (seen : gset Z) : list Z :=
  if decide (size seen = 0%nat) then [] else sortedIndices seen.

(** [for _, key := range keys { lastWriter[key] = transaction }] *)
Definition record_writer (transaction : Z) (keys : list Bytes) (lastWriter : gmap Bytes Z) : gmap Bytes Z :=
  foldl (λ m key, <[key := transaction]> m) lastWriter keys.

Definition last_writers (keys : list Bytes) (lastWriter : gmap Bytes Z) : gset Z :=
  foldl (λ seen key, match lastWriter !! key with Some predecessor => {[predecessor]} ∪ seen | None => seen end)
    ∅ keys.

Fixpoint raw_loop (l : list staticAccessSet) (transaction : Z) (ctx : context)
    (lastWriter : gmap Bytes Z) (predecessors : list (list Z)) (edges : Z)
    : context * option (list (list Z) * Z) :=
  match l with
  | [] => (ctx, Some (predecessors, edges))
  | access :: rest =>
      let '(ctx, cancelled) := poll_every 255 transaction ctx in
      if (cancelled : bool) then (ctx, None) else
      let mine := indices_or_nil (last_writers (reads access) lastWriter) in
      raw_loop rest (transaction + 1) ctx (record_writer transaction (writes access) lastWriter)
        (predecessors ++ [mine]) (u64 (edges + Z.of_nat (length mine)))
  end.

Definition buildDeclaredRAWDAG (ctx : context) (accesses : list staticAccessSet) :=
  raw_loop accesses 0 ctx ∅ [] 0.

(** The inner loop of [buildDependencySummary], from the initial [-1]. *)
Definition greatest_writer (keys : list Bytes) (lastWriter : gmap Bytes Z) : Z :=
  foldl (λ barrier key, match lastWriter !! key with
    | Some predecessor => if barrier <? predecessor then predecessor else barrier
    | None => barrier end) (-1) keys.

Fixpoint summary_loop (l : list staticAccessSet) (transaction : Z) (ctx : context)
    (lastWriter : gmap Bytes Z) (barriers : list Z) (entries : Z)
    : context * option (list Z * Z) :=
  match l with
  | [] => (ctx, Some (barriers, entries))
  | access :: rest =>
      let '(ctx, cancelled) := poll_every 255 transaction ctx in
      if (cancelled : bool) then (ctx, None) else
      let barrier := greatest_writer (reads access) lastWriter in
      summary_loop rest (transaction + 1) ctx (record_writer transaction (writes access) lastWriter)
        (barriers ++ [barrier]) (if 0 <=? barrier then u64 (entries + 1) else entries)
  end.

Definition buildDependencySummary (ctx : context) (accesses : list staticAccessSet) :=
  summary_loop accesses 0 ctx ∅ [] 0.

(** The merge of two sorted slices. *)
Fixpoint intersects (left : list Bytes) : list Bytes → bool :=
  fix advance (right : list Bytes) : bool :=
    match left, right with
    | x :: left', y :: right' =>
        match bytes_compare x y with
        | Lt => intersects left' right
        | Gt => advance right'
        | Eq => true
        end
    | _, _ => false
    end.

Definition conflict (earlier later : staticAccessSet) : bool :=
  intersects (writes earlier) (reads later) || intersects (writes earlier) (writes later) ||
  intersects (reads earlier) (writes later).

(** The inner loop of [buildFullConflictGraph] over [accesses[:later]]. *)
Fixpoint earlier_loop (l : list staticAccessSet) (earlier : Z) (access : staticAccessSet)
    (ctx : context) (mine : list Z) (edges : Z) : context * option (list Z * Z) :=
  match l with
  | [] => (ctx, Some (mine, edges))
  | candidate :: rest =>
      let '(ctx, cancelled) := poll_every 1023 earlier ctx in
      if (cancelled : bool) then (ctx, None) else
      if conflict candidate access
      then earlier_loop rest (earlier + 1) access ctx (mine ++ [earlier]) (u64 (edges + 1))
      else earlier_loop rest (earlier + 1) access ctx mine edges
  end.

Fixpoint later_loop (accesses l : list staticAccessSet) (later : nat) (ctx : context)
    (predecessors : list (list Z)) (edges : Z) : context * option (list (list Z) * Z) :=
  match l with
  | [] => (ctx, Some (predecessors, edges))
  | access :: rest =>
      match earlier_loop (take later accesses) 0 access ctx [] edges with
      | (ctx, None) => (ctx, None)
      | (ctx, Some (mine, edges)) => later_loop accesses rest (S later) ctx (predecessors ++ [mine]) edges
      end
  end.

Definition buildFullConflictGraph (ctx : context) (accesses : list staticAccessSet) :=
  later_loop accesses accesses 0 ctx [] 0.

(** [m[key] = append(m[key], transaction)] for every key. *)
Definition append_each (transaction : Z) (keys : list Bytes) (m : gmap Bytes (list Z)) : gmap Bytes (list Z) :=
  foldl (λ m key, <[key := default [] (m !! key) ++ [transaction]]> m) m keys.

(** The predecessors seen through the keys, and the units charged for it. *)
Definition visit (index : Bytes → list Z) (keys : list Bytes) (st : gset Z * Z) : gset Z * Z :=
  foldl (λ '(seen, units) key, (list_to_set (index key) ∪ seen, u64 (units + (1 + Z.of_nat (length (index key))))))
    st keys.

Fixpoint indexed_loop (l : list staticAccessSet) (transaction : Z) (ctx : context)
    (readers writers : gmap Bytes (list Z)) (predecessors : list (list Z)) (edges units : Z)
    : context * option (list (list Z) * Z * Z) :=
  match l with
  | [] => (ctx, Some (predecessors, edges, units))
  | access :: rest =>
      let '(ctx, cancelled) := poll_every 255 transaction ctx in
      if (cancelled : bool) then (ctx, None) else
      let '(seen, units) := visit (λ key, default [] (writers !! key)) (reads access) (∅, units) in
      let '(seen, units) := visit (λ key, default [] (readers !! key) ++ default [] (writers !! key))
                              (writes access) (seen, units) in
      let mine := indices_or_nil seen in
      indexed_loop rest (transaction + 1) ctx
        (append_each transaction (reads access) readers) (append_each transaction (writes access) writers)
        (predecessors ++ [mine]) (u64 (edges + Z.of_nat (length mine))) units
  end.

Definition buildFullConflictGraphIndexed (ctx : context) (accesses : list staticAccessSet) :=
  indexed_loop accesses 0 ctx ∅ ∅ [] 0 0.

Definition staticAccessUnits (accesses : list staticAccessSet) : Z :=
  foldl (λ units access, u64 (units + Z.of_nat (length (reads access) + length (writes access)))) 0 accesses.

Definition maximumFanIn (predecessors : list (list Z)) : Z :=
  foldl (λ maximum values, if maximum <? Z.of_nat (length values) then Z.of_nat (length values) else maximum)
    0 predecessors.

(** Slices that stay nil are [None]. *)
Record dependencyRepresentationArtifact := MkRepresentation {
  ra_predecessors : option (list (list Z));
  ra_barriers : option (list Z);
  ra_edges : Z;
  ra_summaryEntries : Z;
  ra_entries : Z;
  ra_maxFanIn : Z;
  ra_buildUnits : Z;
  ra_logicalBytes : Z;
}.

Definition graph_artifact (predecessors : list (list Z)) (edges units : Z) : dependencyRepresentationArtifact :=
  MkRepresentation (Some predecessors) None edges 0 edges (maximumFanIn predecessors) units
    (u64 (u64 (Z.of_nat (length predecessors)) * 8 + edges * 8)).

Definition buildDependencyRepresentation (ctx : context) (accesses : list staticAccessSet) (plan : DependencyPlan)
    : context * option dependencyRepresentationArtifact :=
  if (dp_Representation plan =? RAWLastWriter)%string then
    match buildDeclaredRAWDAG ctx accesses with
    | (ctx, None) => (ctx, None)
    | (ctx, Some (predecessors, edges)) =>
        (ctx, Some (graph_artifact predecessors edges (staticAccessUnits accesses)))
    end
  else if (dp_Representation plan =? MaxRAWPredecessor)%string then
    match buildDependencySummary ctx accesses with
    | (ctx, None) => (ctx, None)
    | (ctx, Some (barriers, entries)) =>
        (ctx, Some (MkRepresentation None (Some barriers) 0 entries entries (if 0 <? entries then 1 else 0)
                      (staticAccessUnits accesses) (u64 (Z.of_nat (length barriers) * 8))))
    end
  else if (dp_Representation plan =? FullConflictGraph)%string then
    if (dp_Builder plan =? BuilderIndexedByKey)%string then
      match buildFullConflictGraphIndexed ctx accesses with
      | (ctx, None) => (ctx, None)
      | (ctx, Some (predecessors, edges, units)) => (ctx, Some (graph_artifact predecessors edges units))
      end
    else
      match buildFullConflictGraph ctx accesses with
      | (ctx, None) => (ctx, None)
      | (ctx, Some (predecessors, edges)) =>
          let n := Z.of_nat (length accesses) in
          (ctx, Some (graph_artifact predecessors edges (u64 (i64 (n * i64 (n - 1))) / 2)))
      end
  else (ctx, Some (MkRepresentation None None 0 0 0 0 0 0)).

(** ** ESTIMATE locations *)

(** One [MultiLocations] per transaction, with the numbers of locations and of
    key bytes; a nil map is empty. *)
Fixpoint estimate_loop (l : list staticAccessSet) (transaction : Z) (storeIndex : nat) (ctx : context)
    (estimates : list (gmap nat (list Bytes))) (locations keyBytes : Z)
    : context * option (list (gmap nat (list Bytes)) * Z * Z) :=
  match l with
  | [] => (ctx, Some (estimates, locations, keyBytes))
  | access :: rest =>
      let '(ctx, cancelled) := poll_every 255 transaction ctx in
      if (cancelled : bool) then (ctx, None) else
      match writes access with
      | [] => estimate_loop rest (transaction + 1) storeIndex ctx (estimates ++ [∅]) locations keyBytes
      | keys =>
          estimate_loop rest (transaction + 1) storeIndex ctx (estimates ++ [{[storeIndex := keys]}])
            (u64 (locations + Z.of_nat (length keys)))
            (foldl (λ n key, u64 (n + Z.of_nat (length key))) keyBytes keys)
      end
  end.

Definition buildWriteEstimates (ctx : context) (accesses : list staticAccessSet) (storeIndex : nat) :=
  estimate_loop accesses 0 storeIndex ctx [] 0 0.

(** ** Gates

    A [done] channel is the flag of its being closed.  A [wake] channel is its
    number: the channels before the current one are closed. *)

Record explicitDependencyGate := MkExplicitGate { eg_predecessors : list (list Z); eg_done : list bool }.

Definition newExplicitDependencyGate (predecessors : list (list Z)) : explicitDependencyGate :=
  MkExplicitGate predecessors (replicate (length predecessors) false).

Record summaryDependencyGate := MkSummaryGate {
  sg_barriers : list Z;
  sg_completed : list bool;
  sg_frontier : Z;
  sg_wake : nat;
}.

Definition newSummaryDependencyGate (barriers : list Z) : summaryDependencyGate :=
  MkSummaryGate barriers (replicate (length barriers) false) 0 0.

(** What [Wait] reports: traversal steps, events and whether it failed with the
    context's error. *)
Record wait_result := MkWaitResult { wr_traversal : Z; wr_events : Z; wr_cancelled : bool }.

Section gates.
(** The state of the context, and which ready case a [select] takes. *)
Context (ctx_done : bool) (prefer_ctx : bool).
Local Open Scope prog_scope.

Definition explicit_done (g : explicitDependencyGate) (predecessor : Z) : outcome bool :=
  deref (at_index (eg_done g) predecessor).

(** The [select] with a [default] case, then the blocking one. *)
Fixpoint explicit_loop (predecessors : list Z) (traversal events : Z)
    : prog explicitDependencyGate wait_result :=
  match predecessors with
  | [] => Ret (MkWaitResult traversal events false)
  | predecessor :: rest =>
      closed ⇐ atomic (λ g, d ← explicit_done g predecessor; Returns (g, d));
      if (closed : bool) then explicit_loop rest (u64 (traversal + 1)) events
      else
        cancelled ⇐ atomic (λ g, d ← explicit_done g predecessor;
          if (d : bool) then Returns (g, ctx_done && prefer_ctx)
          else if ctx_done then Returns (g, true) else Waits);
        if (cancelled : bool) then Ret (MkWaitResult (u64 (traversal + 1)) (u64 (events + 1)) true)
        else explicit_loop rest (u64 (traversal + 1)) (u64 (events + 1))
  end.

Definition explicit_Wait (g0 : explicitDependencyGate) (transaction : Z)
    : prog explicitDependencyGate wait_result :=
  match at_index (eg_predecessors g0) transaction with
  | None => panic
  | Some predecessors => explicit_loop predecessors 0 0
  end.

(** Each critical section of [mu] is one action; [fuel] bounds the rounds. *)
Fixpoint summary_loop_wait (fuel : nat) (barrier traversal : Z) : prog summaryDependencyGate wait_result :=
  match fuel with
  | O => atomic (λ _, Waits)
  | S fuel =>
      let traversal := u64 (traversal + 1) in
      wake ⇐ load (λ g, if barrier <? sg_frontier g then None else Some (sg_wake g));
      match wake with
      | None => Ret (MkWaitResult traversal 0 false)
      | Some wake =>
          cancelled ⇐ atomic (λ g,
            if decide (wake < sg_wake g)%nat then Returns (g, ctx_done && prefer_ctx)
            else if ctx_done then Returns (g, true) else Waits);
          if (cancelled : bool) then Ret (MkWaitResult traversal 1 true)
          else
            resolved ⇐ load (λ g, barrier <? sg_frontier g);
            if (resolved : bool) then Ret (MkWaitResult traversal 1 false)
            else summary_loop_wait fuel barrier traversal
      end
  end.

Definition summary_Wait (g0 : summaryDependencyGate) (fuel : nat) (transaction : Z)
    : prog summaryDependencyGate wait_result :=
  match at_index (sg_barriers g0) transaction with
  | None => panic
  | Some barrier =>
      if barrier <? 0 then Ret (MkWaitResult 1 0 false) else summary_loop_wait fuel barrier 0
  end.
End gates.

(** [once] makes a second [Complete] harmless. *)
Definition explicit_Complete (transaction : Z) (g : explicitDependencyGate) : outcome explicitDependencyGate :=
  d ← deref (set_index (eg_done g) transaction true); Returns (MkExplicitGate (eg_predecessors g) d).

(** [for g.frontier < len(g.completed) && g.completed[g.frontier]] *)
Fixpoint completed_prefix (completed : list bool) : Z :=
  match completed with true :: rest => 1 + completed_prefix rest | _ => 0 end.

Definition summary_Complete (transaction : Z) (g : summaryDependencyGate) : outcome summaryDependencyGate :=
  already ← deref (at_index (sg_completed g) transaction);
  if (already : bool) then Returns g else
  completed ← deref (set_index (sg_completed g) transaction true);
  let frontier := sg_frontier g + completed_prefix (drop (Z.to_nat (sg_frontier g)) completed) in
  Returns (MkSummaryGate (sg_barriers g) completed frontier
    (if frontier =? sg_frontier g then sg_wake g else S (sg_wake g))).

(** ** Preparation *)

Record dependencyInformationArtifact := MkInformation {
  ia_source : string;
  ia_availableAt : string;
  ia_version : string;
  ia_complete : bool;
  ia_exact : bool;
  ia_units : Z;
  ia_bytes : Z;
  ia_readKeys : Z;
  ia_writeKeys : Z;
  ia_staticAccesses : list staticAccessSet;
}.

Definition acquireDependencyInformation (ctx : context) (block : Block) (source : string)
    : context * option dependencyInformationArtifact :=
  if (source =? DependencySourceRuntimeObserved)%string then
    (ctx, Some (MkInformation source "during_execution" "blockstm-mvcc" true true 0 0 0 0 []))
  else
    match analyzeStaticPrograms ctx block with
    | (ctx, None) => (ctx, None)
    | (ctx, Some (accesses, a)) =>
        (ctx, Some (MkInformation source "before_execution" "flat-static-scan-v1" (aq_complete a) false
                      (aq_units a) (aq_bytes a) (aq_readKeys a) (aq_writeKeys a) accesses))
    end.

Inductive dependencyGate :=
| ExplicitGate (g : explicitDependencyGate)
| SummaryGate (g : summaryDependencyGate).

(** The counters of the preparation are its information, its representation,
    the disposition and the numbers of estimated locations and key bytes. *)
Record dependencyPreparation := MkPreparation {
  pr_information : dependencyInformationArtifact;
  pr_representation : option dependencyRepresentationArtifact;
  pr_disposition : string;
  pr_controller : option dependencyGate;
  pr_estimates : list (gmap nat (list Bytes));
  pr_estimateCounts : Z * Z;
  pr_consumerActive : bool;
  pr_kernelPolicy : KernelPolicy;
}.

(** The representation step: nothing is built for [version_only]. *)
Definition represent (ctx : context) (accesses : list staticAccessSet) (plan : DependencyPlan)
    : context * option (option dependencyRepresentationArtifact) :=
  if (dp_Representation plan =? VersionOnly)%string then (ctx, Some None)
  else match buildDependencyRepresentation ctx accesses plan with
  | (ctx, None) => (ctx, None)
  | (ctx, Some r) => (ctx, Some (Some r))
  end.

Definition disposition (plan : DependencyPlan) (consumerActive : bool) : string :=
  if negb (dp_WaitPolicy plan =? WaitNone)%string then "representation_consumed"
  else if negb (dp_Representation plan =? VersionOnly)%string then "representation_built_then_discarded"
  else if consumerActive then "acquisition_consumed"
  else "discarded_after_acquisition".

(** Who consumes the representation: the ready queue of the kernel, or a gate
    inside the callback. *)
Definition consumer (plan : DependencyPlan) (kernelPlan : KernelPlan) (r : option dependencyRepresentationArtifact)
    : KernelPolicy * option dependencyGate :=
  let predecessors := match r with Some r => ra_predecessors r | None => None end in
  let barriers := match r with Some r => ra_barriers r | None => None end in
  if (dp_WaitPolicy plan =? WaitNone)%string then
    (MkPolicy (kp_EstimateRead kernelPlan) (kp_IdleWait kernelPlan) "" None None, None)
  else if (kp_Dispatch kernelPlan =? DispatchReadyQueue)%string then
    if (dp_WaitPolicy plan =? WaitContiguousFrontier)%string then
      (MkPolicy (kp_EstimateRead kernelPlan) (kp_IdleWait kernelPlan) DispatchReadyQueue None barriers, None)
    else
      (MkPolicy (kp_EstimateRead kernelPlan) (kp_IdleWait kernelPlan) DispatchReadyQueue predecessors None, None)
  else
    (MkPolicy (kp_EstimateRead kernelPlan) (kp_IdleWait kernelPlan) "" None None,
     Some (if (dp_WaitPolicy plan =? WaitContiguousFrontier)%string
           then SummaryGate (newSummaryDependencyGate (default [] barriers))
           else ExplicitGate (newExplicitDependencyGate (default [] predecessors)))).

Definition prepareDependency (ctx : context) (block : Block) (plan : DependencyPlan) (kernelPlan : KernelPlan)
    (storeIndex : nat) : context * option dependencyPreparation :=
  match acquireDependencyInformation ctx block (dp_Source plan) with
  | (ctx, None) => (ctx, None)
  | (ctx, Some artifact) =>
      if (dp_Source plan =? DependencySourceRuntimeObserved)%string then
        (ctx, Some (MkPreparation artifact None "runtime_kernel" None [] (0, 0) false
                      (MkPolicy (kp_EstimateRead kernelPlan) (kp_IdleWait kernelPlan) "" None None)))
      else
        match represent ctx (ia_staticAccesses artifact) plan with
        | (ctx, None) => (ctx, None)
        | (ctx, Some representation) =>
            let consumerActive := negb (dp_WaitPolicy plan =? WaitNone)%string ||
                                  negb (dp_EstimateInjection plan =? EstimatesDisabled)%string in
            let '(kernelPolicy, controller) := consumer plan kernelPlan representation in
            let finish ctx estimates counts :=
              (ctx, Some (MkPreparation artifact representation (disposition plan consumerActive) controller
                            estimates counts consumerActive kernelPolicy)) in
            if (dp_EstimateInjection plan =? EstimatesWrite)%string then
              match buildWriteEstimates ctx (ia_staticAccesses artifact) storeIndex with
              | (ctx, None) => (ctx, None)
              | (ctx, Some (estimates, locations, keyBytes)) => finish ctx estimates (locations, keyBytes)
              end
            else finish ctx [] (0, 0)
        end
  end.
