(* ===== verification/DependencyFacts.v ===== *)
(** * Facts about the static dependency analysis

    What the loops of [Dependency] compute, independently of when the context
    is polled: the scans collect exactly the keys named by the instructions,
    and each builder produces the predecessor sets of its specification. *)

From Stdlib Require Import ZArith Lia String.
From stdpp Require Import sorting.
From S2P Require Import Prelude Prog Model State Encoding Runtime KernelPolicy Plan Dependency.
Local Open Scope Z_scope.

(** ** The scan of the programs *)

(** The keys a program names for reading and for writing. *)
Definition names_read (tx : Transaction) (k : Bytes) : Prop :=
  ∃ i, i ∈ Instructions (tx_Program tx) ∧ in_Op i = OpRead ∧ in_Key i = k.
Definition names_write (tx : Transaction) (k : Bytes) : Prop :=
  ∃ i, i ∈ Instructions (tx_Program tx) ∧ (in_Op i = OpWrite ∨ in_Op i = OpDelete) ∧ in_Key i = k.

Definition known_op (op : string) : Prop :=
  op ∈ [OpRead; OpWrite; OpDelete; OpCompute; OpFailIf; OpJumpIf; OpReturn].

(** An access set is exact for a transaction: sorted and without anything else. *)
Record access_exact (tx : Transaction) (a : staticAccessSet) : Prop := {
  ax_reads_sorted : sorted_keys (reads a);
  ax_writes_sorted : sorted_keys (writes a);
  ax_reads : ∀ k, k ∈ reads a ↔ names_read tx k;
  ax_writes : ∀ k, k ∈ writes a ↔ names_write tx k;
}.

Lemma sortedSet_elem s k : k ∈ sortedSet s ↔ k ∈ s.
Proof. unfold sortedSet. rewrite (sort_by_key_perm (λ k, k)). apply elem_of_elements. Qed.

Lemma sortedSet_sorted s : sorted_keys (sortedSet s).
Proof.
  unfold sortedSet. rewrite <- (list_fmap_id (sort_by_key _ _)). apply (sort_by_key_strict (λ k, k)).
  rewrite list_fmap_id. apply NoDup_elements.
Qed.

Lemma exists_cons {A} (P : A → Prop) x l : (∃ y, y ∈ x :: l ∧ P y) ↔ P x ∨ ∃ y, y ∈ l ∧ P y.
Proof. set_solver. Qed.

Lemma forall_cons {A} (P : A → Prop) x l : (∀ y, y ∈ x :: l → P y) ↔ P x ∧ ∀ y, y ∈ l → P y.
Proof. set_solver. Qed.

Lemma known_ops : known_op OpRead ∧ known_op OpWrite ∧ known_op OpDelete.
Proof. unfold known_op. rewrite !elem_of_cons. tauto. Qed.

(** The three parts of the scan's specification, for one kind of instruction. *)
Ltac op_cases :=
  pose proof known_ops as (? & ? & ?);
  split; [|split]; [intros ?; rewrite ?elem_of_union, ?elem_of_singleton; intuition congruence..|];
  cbn [aq_complete add_units incomplete]; intuition congruence.

Lemma scan_instructions_spec l index ctx rs ws a ctx' rs' ws' a' :
  scan_instructions l index ctx rs ws a = (ctx', Some (rs', ws', a')) →
  (∀ k, k ∈ rs' ↔ k ∈ rs ∨ ∃ i, i ∈ l ∧ in_Op i = OpRead ∧ in_Key i = k) ∧
  (∀ k, k ∈ ws' ↔ k ∈ ws ∨ ∃ i, i ∈ l ∧ (in_Op i = OpWrite ∨ in_Op i = OpDelete) ∧ in_Key i = k) ∧
  (aq_complete a' = true ↔ aq_complete a = true ∧ ∀ i, i ∈ l → known_op (in_Op i)).
Proof.
  revert index ctx rs ws a. induction l as [|i l IH]; intros index ctx rs ws a; cbn [scan_instructions].
  { intros [= <- <- <- <-]. set_solver. }
  destruct (poll_every 1023 index ctx) as [ctx1 []]; [done|]. cbv zeta.
  setoid_rewrite (exists_cons _ i l). rewrite forall_cons.
  assert (OpRead ≠ OpWrite ∧ OpRead ≠ OpDelete ∧ OpWrite ≠ OpRead ∧ OpDelete ≠ OpRead) as (N1 & N2 & N3 & N4) by done.
  destruct (String.eqb_spec (in_Op i) OpRead) as [E|E].
  { intros (H1 & H2 & H3)%IH. setoid_rewrite H1. setoid_rewrite H2. rewrite H3, E. op_cases. }
  destruct (String.eqb_spec (in_Op i) OpWrite) as [E1|E1]; cbn [orb].
  { intros (H1 & H2 & H3)%IH. setoid_rewrite H1. setoid_rewrite H2. rewrite H3, E1. op_cases. }
  destruct (String.eqb_spec (in_Op i) OpDelete) as [E2|E2]; cbn [orb].
  { intros (H1 & H2 & H3)%IH. setoid_rewrite H1. setoid_rewrite H2. rewrite H3, E2. op_cases. }
  destruct (_ || _) eqn:E3; intros (H1 & H2 & H3)%IH; setoid_rewrite H1; setoid_rewrite H2; rewrite H3.
  - rewrite !orb_true_iff, !String.eqb_eq in E3.
    assert (known_op (in_Op i)) by (unfold known_op; rewrite !elem_of_cons; tauto). op_cases.
  - rewrite !orb_false_iff, !String.eqb_neq in E3.
    assert (¬ known_op (in_Op i)).
    { unfold known_op. rewrite !elem_of_cons, elem_of_nil. tauto. }
    op_cases.
Qed.

Lemma scan_transactions_spec l index ctx accesses a ctx' accesses' a' :
  scan_transactions l index ctx accesses a = (ctx', Some (accesses', a')) →
  (∃ new, accesses' = accesses ++ new ∧ Forall2 access_exact l new) ∧
  (aq_complete a' = true ↔ aq_complete a = true ∧
     ∀ tx i, tx ∈ l → i ∈ Instructions (tx_Program tx) → known_op (in_Op i)).
Proof.
  revert index ctx accesses a. induction l as [|tx l IH]; intros index ctx accesses a; cbn [scan_transactions].
  { intros [= <- <- <-]. split; [exists []; by rewrite app_nil_r|]. set_solver. }
  destruct (poll_every 255 index ctx) as [ctx1 []]; [done|].
  destruct (scan_instructions _ 0 ctx1 ∅ ∅ a) as [ctx2 [[[rs ws] a1]|]] eqn:Es; [|done].
  apply scan_instructions_spec in Es as (Hr & Hw & Hc).
  intros H%IH. destruct H as ((new & -> & Hnew) & Hc'). split.
  - exists (MkAccessSet (sortedSet rs) (sortedSet ws) :: new). rewrite <- app_assoc. split; [done|].
    constructor; [|done]. split; cbn [reads writes]; [apply sortedSet_sorted..| |].
    + intros k. rewrite sortedSet_elem, Hr. unfold names_read. set_solver.
    + intros k. rewrite sortedSet_elem, Hw. unfold names_write. set_solver.
  - rewrite Hc'. cbn [aq_complete]. rewrite Hc. set_solver.
Qed.

(** ** An execution stays within what its program names *)

Section within.
Context {B : Type} `{!Base B} {H : Type} (hooks : RuntimeHooks H) (execution : TxContext) (tx : Transaction).

Record within (m : machine (B:=B) (H:=H)) : Prop := {
  wi_reads : ∀ r, r ∈ Reads (m_result m) → names_read tx (rr_Key r);
  wi_view : ∀ k p, ov_writes (m_view m) !! k = Some p → ov_key p = k ∧ names_write tx k;
  wi_writes : ∀ c, c ∈ Writes (m_result m) → names_write tx (sc_Key c);
}.

Lemma within_result m r :
  within m → Reads r = Reads (m_result m) → Writes r = Writes (m_result m) → within (put_result m r).
Proof. intros [] E1 E2. split; cbn; [by rewrite E1|done|by rewrite E2]. Qed.

Lemma within_success m value :
  within m → within (put_result m (set_success (m_result m) value (Changes (m_view m)))).
Proof.
  intros Hm. destruct Hm as [H1 H2 H3]. split; cbn; [done|done|]. intros c. unfold Changes.
  rewrite (sort_by_key_perm sc_Key), list_elem_of_fmap.
  intros ([k p] & -> & Hp%elem_of_map_to_list). cbn. destruct (H2 k p Hp) as [-> ?]. done.
Qed.

Lemma within_hook m call k :
  within m → (∀ h, within (put_hooks m h) → within (k (put_hooks m h)).1) → within (after_hook m call k).1.
Proof. intros Hm Hk. destruct call; cbn; [|done..]. apply Hk. by destruct Hm. Qed.

Lemma dispatch_within m i :
  within m → i ∈ Instructions (tx_Program tx) → within (dispatch hooks execution tx m i).1.
Proof.
  intros Hm Hi. unfold dispatch.
  destruct (String.eqb_spec (in_Op i) OpRead) as [E|_].
  { apply within_hook; [by destruct Hm|]. intros h [H1 H2 H3]. cbn.
    destruct (ov_Get (m_view m) (in_Key i)) as [[view raw]| |] eqn:E'; [|done..].
    apply ov_Get_writes in E'.
    destruct (match raw with Some _ => _ | None => _ end) as [value []]; [|by split; cbn; rewrite ?E'].
    split; cbn; rewrite ?E'; [|done..]. intros r [Hr| ->%list_elem_of_singleton]%elem_of_app; [by apply H1|].
    exists i. by split. }
  destruct (String.eqb_spec (in_Op i) OpWrite) as [E|_].
  { apply within_hook; [by destruct Hm|]. intros h [H1 H2 H3]. cbn.
    destruct (evaluateExpression _ _) as [value code]. destruct (code =? "")%string; [|done].
    split; [done| |done]. cbn. intros k p [[<- <-]|[_ Hp]]%lookup_insert_Some; [|by apply H2].
    split; [done|]. exists i. auto. }
  destruct (String.eqb_spec (in_Op i) OpDelete) as [E|_].
  { apply within_hook; [by destruct Hm|]. intros h [H1 H2 H3]. cbn.
    split; [done| |done]. cbn. intros k p [[<- <-]|[_ Hp]]%lookup_insert_Some; [|by apply H2].
    split; [done|]. exists i. auto. }
  destruct (_ =? OpCompute)%string.
  { unfold do_compute. destruct (compute_loop _ _ _ _ _) as [[? ?] []]; by destruct Hm. }
  destruct (_ =? OpFailIf)%string.
  { unfold do_fail_if. destruct (evaluateCondition _ _) as [[] ?]; destruct (_ =? "")%string; by destruct Hm. }
  destruct (_ =? OpJumpIf)%string.
  { unfold do_jump_if. destruct (evaluateCondition _ _) as [matched ?].
    destruct (_ =? "")%string; [|by destruct Hm]. apply within_hook; [by destruct Hm|]. intros h Hh.
    destruct matched; by destruct Hh. }
  destruct (_ =? OpReturn)%string; [|done].
  unfold do_return. destruct (evaluateExpression _ _). destruct (_ =? "")%string; [|by destruct Hm].
  by apply within_success.
Qed.

Lemma step_within m : within m → within (step hooks execution tx m).1.
Proof.
  intros Hm. unfold step. destruct (_ <=? m_pc m); [by apply within_success|].
  destruct (poll (m_ctx m)) as [ctx []]; [by destruct Hm|]. cbv zeta.
  destruct (at_index _ _) as [i|] eqn:Ei; [|by destruct Hm]. destruct (instructionCost i) as [cost overflow].
  destruct (overflow || _); [by destruct Hm|]. apply dispatch_within; [by destruct Hm|].
  by eapply at_index_elem.
Qed.

Lemma loop_within fuel m : within m → within (loop hooks execution tx fuel m).1.
Proof.
  revert m. induction fuel as [|fuel IH]; intros m Hm; cbn [loop]; [done|].
  pose proof (step_within m Hm) as Hs. destruct (step hooks execution tx m) as [m1 [c|]]; [done|]. by apply IH.
Qed.
End within.

Lemma ExecuteWithHooks_within {B} `{!Base B} {H} (hooks : RuntimeHooks H) ctx execution tx (base : B) h :
  within tx (ExecuteWithHooks hooks ctx execution tx (NewOverlay base) h).1.
Proof.
  unfold ExecuteWithHooks. cbv zeta. destruct (poll ctx) as [ctx' stop].
  set (m := MkMachine _ _ _ _ _ _ _).
  assert (within tx m) as Hm.
  { split; cbn; [|intros k p Hp; by rewrite lookup_empty in Hp|]; intros ? Hin; by apply elem_of_nil in Hin. }
  destruct stop; [by destruct Hm|]. destruct (negb _); [by destruct Hm|]. by apply loop_within.
Qed.

(** ** Sorted index lists and the merge test *)

Abbreviation ascending := (StronglySorted Z.lt).

Lemma sortedIndices_elem s p : p ∈ sortedIndices s ↔ p ∈ s.
Proof. unfold sortedIndices. rewrite merge_sort_Permutation. apply elem_of_elements. Qed.

Lemma sortedIndices_ascending s : ascending (sortedIndices s).
Proof.
  assert (NoDup (sortedIndices s)) as Hnd
    by (unfold sortedIndices; rewrite merge_sort_Permutation; apply NoDup_elements).
  revert Hnd. unfold sortedIndices.
  induction (StronglySorted_merge_sort Z.le (elements s)) as [|x l _ IH Hx]; [constructor|].
  intros [Hn Hnd]%NoDup_cons. constructor; [by apply IH|]. rewrite Forall_forall in *.
  intros y Hy. specialize (Hx y Hy). assert (x ≠ y) by (intros ->; done). lia.
Qed.

Lemma indices_or_nil_spec s : ascending (indices_or_nil s) ∧ ∀ p, p ∈ indices_or_nil s ↔ p ∈ s.
Proof.
  unfold indices_or_nil. case_decide as E.
  - split; [constructor|]. intros p. apply size_empty_inv in E. set_solver.
  - split; [apply sortedIndices_ascending|]. intros p. apply sortedIndices_elem.
Qed.

Lemma intersects_cons x l y r :
  intersects (x :: l) (y :: r) =
    match bytes_compare x y with Lt => intersects l (y :: r) | Gt => intersects (x :: l) r | Eq => true end.
Proof. done. Qed.

Lemma intersects_spec l r :
  sorted_keys l → sorted_keys r → intersects l r = true ↔ ∃ k, k ∈ l ∧ k ∈ r.
Proof.
  revert r. induction l as [|x l IHl]; intros r Hl Hr.
  { assert (intersects [] r = false) as -> by (by destruct r). set_solver. }
  induction r as [|y r IHr]; [set_solver|]. rewrite intersects_cons.
  pose proof (StronglySorted_cons_inv _ _ _ Hl) as [Hl' Hx].
  pose proof (StronglySorted_cons_inv _ _ _ Hr) as [Hr' Hy].
  destruct (bytes_compare x y) eqn:E.
  - apply bytes_compare_eq in E as ->. split; [|done]. intros _. exists y. split; by left.
  - rewrite (IHl (y :: r)) by done. split; [intros (k & ? & ?); exists k; split; [by right|done]|].
    intros (k & [->|Hk]%elem_of_cons & Hk2); [|eauto]. exfalso.
    apply elem_of_cons in Hk2 as [->|Hk2]; [by eapply bytes_lt_irrefl|].
    eapply bytes_lt_irrefl, bytes_lt_trans; [exact E|by apply Hy].
  - apply bytes_gt_lt in E. rewrite (IHr Hr'). split; [intros (k & ? & ?); exists k; split; [done|by right]|].
    intros (k & Hk2 & [->|Hk]%elem_of_cons); [|eauto]. exfalso.
    apply elem_of_cons in Hk2 as [->|Hk2]; [by eapply bytes_lt_irrefl|].
    eapply bytes_lt_irrefl, bytes_lt_trans; [exact E|by apply Hx].
Qed.

(** Two access sets conflict: one of them writes a key the other accesses. *)
Definition conflicts (earlier later : staticAccessSet) : Prop :=
  ∃ k, (k ∈ writes earlier ∧ (k ∈ reads later ∨ k ∈ writes later)) ∨ (k ∈ reads earlier ∧ k ∈ writes later).

Definition access_sorted (a : staticAccessSet) : Prop := sorted_keys (reads a) ∧ sorted_keys (writes a).

Lemma conflict_spec a b : access_sorted a → access_sorted b → conflict a b = true ↔ conflicts a b.
Proof.
  intros [Ha1 Ha2] [Hb1 Hb2]. unfold conflict, conflicts.
  rewrite !orb_true_iff, !intersects_spec by done. naive_solver.
Qed.

(** ** What the builders compute, transaction by transaction *)

(** [P pre a x]: the entry [x] of [a] after the transactions [pre]. *)
Section along.
Context {X : Type} (P : list staticAccessSet → staticAccessSet → X → Prop).

Inductive along : list staticAccessSet → list staticAccessSet → list X → Prop :=
| along_nil pre : along pre [] []
| along_cons pre a l x new : P pre a x → along (pre ++ [a]) l new → along pre (a :: l) (x :: new).

Lemma along_length pre l new : along pre l new → length new = length l.
Proof. induction 1; cbn; lia. Qed.

Lemma along_lookup pre l new j a :
  along pre l new → l !! j = Some a → ∃ x, new !! j = Some x ∧ P (pre ++ take j l) a x.
Proof.
  intros H. revert j. induction H as [|pre a' l x new HP _ IH]; intros j; [done|].
  destruct j as [|j]; cbn.
  - intros [= ->]. exists x. by rewrite app_nil_r.
  - intros Hj. destruct (IH j Hj) as (y & Hy & HPy). exists y. by rewrite <- app_assoc in HPy.
Qed.

Lemma along_fun pre l new new' :
  (∀ pre a x y, P pre a x → P pre a y → x = y) → along pre l new → along pre l new' → new = new'.
Proof.
  intros Hfun H. revert new'. induction H as [|pre a l x new HP _ IH]; intros new' H'; inversion H'; subst; [done|].
  f_equal; [by eapply Hfun|by apply IH].
Qed.
End along.

Lemma along_impl {X} (P Q : list staticAccessSet → staticAccessSet → X → Prop) pre l new :
  (∀ pre a x, P pre a x → Q pre a x) → along P pre l new → along Q pre l new.
Proof. intros HPQ. induction 1; constructor; auto. Qed.

(** [w] is the last transaction of [pre] that writes [k]. *)
Definition is_last_writer (pre : list staticAccessSet) (k : Bytes) (w : Z) : Prop :=
  0 <= w ∧ (∃ a, pre !! Z.to_nat w = Some a ∧ k ∈ writes a) ∧
  ∀ j a, w < Z.of_nat j → pre !! j = Some a → k ∉ writes a.

(** The direct read-after-write predecessors. *)
Definition raw_predecessor (pre : list staticAccessSet) (a : staticAccessSet) (p : Z) : Prop :=
  ∃ k, k ∈ reads a ∧ is_last_writer pre k p.

(** The conflicting predecessors. *)
Definition conflict_predecessor (pre : list staticAccessSet) (a : staticAccessSet) (p : Z) : Prop :=
  0 <= p ∧ ∃ b, pre !! Z.to_nat p = Some b ∧ conflicts b a.

Definition lists_exactly (Q : list staticAccessSet → staticAccessSet → Z → Prop)
    (pre : list staticAccessSet) (a : staticAccessSet) (mine : list Z) : Prop :=
  ascending mine ∧ ∀ p, p ∈ mine ↔ Q pre a p.

Lemma lists_exactly_fun Q pre a x y : lists_exactly Q pre a x → lists_exactly Q pre a y → x = y.
Proof.
  intros [Hx Ex] [Hy Ey]. apply (StronglySorted_ext Z.lt); [done..|]. intros p. by rewrite Ex, Ey.
Qed.

(** The barrier is the greatest direct predecessor, or -1. *)
Definition is_barrier (pre : list staticAccessSet) (a : staticAccessSet) (b : Z) : Prop :=
  (b = -1 ∧ ∀ p, ¬ raw_predecessor pre a p) ∨
  (raw_predecessor pre a b ∧ ∀ p, raw_predecessor pre a p → p <= b).

Lemma is_last_writer_snoc pre a k w :
  is_last_writer (pre ++ [a]) k w ↔
    if decide (k ∈ writes a) then w = Z.of_nat (length pre) else is_last_writer pre k w.
Proof.
  unfold is_last_writer. case_decide as Ha.
  - split.
    + intros (Hw & (b & Hb & _) & Hlast). destruct (decide (w < Z.of_nat (length pre))) as [Hlt|Hge].
      * destruct (Hlast (length pre) a Hlt); [|done]. apply list_lookup_middle. done.
      * apply lookup_lt_Some in Hb. rewrite length_app in Hb. cbn in Hb. lia.
    + intros ->. split; [lia|]. split.
      * exists a. split; [|done]. rewrite Nat2Z.id. by apply list_lookup_middle.
      * intros j b Hj Hb. apply lookup_lt_Some in Hb. rewrite length_app in Hb. cbn in Hb. lia.
  - split.
    + intros (Hw & (b & Hb & Hk) & Hlast). split; [done|]. split.
      * apply lookup_app_Some in Hb as [Hb|[_ Hb]]; [eauto|].
        apply list_lookup_singleton_Some in Hb as [_ <-]. done.
      * intros j c Hj Hc. apply (Hlast j c Hj). by apply lookup_app_l_Some.
    + intros (Hw & (b & Hb & Hk) & Hlast). split; [done|]. split.
      * exists b. split; [by apply lookup_app_l_Some|done].
      * intros j c Hj [Hc|[_ Hc]]%lookup_app_Some; [by eapply Hlast|].
        apply list_lookup_singleton_Some in Hc as [_ <-]. done.
Qed.

(** ** The indexes of the loops *)

Definition last_writer_index (pre : list staticAccessSet) (m : gmap Bytes Z) : Prop :=
  ∀ k w, m !! k = Some w ↔ is_last_writer pre k w.

Lemma record_writer_lookup t keys m k :
  record_writer t keys m !! k = if decide (k ∈ keys) then Some t else m !! k.
Proof.
  unfold record_writer. revert m. induction keys as [|k' keys IH]; intros m; cbn [foldl].
  { by rewrite decide_False by (by intros ?%elem_of_nil). }
  rewrite IH. destruct (decide (k ∈ keys)) as [Hin|Hin].
  - rewrite decide_True; [done|]. by right.
  - destruct (decide (k = k')) as [->|Hne].
    + rewrite lookup_insert_eq, decide_True; [done|]. by left.
    + rewrite lookup_insert_ne by done. rewrite decide_False; [done|]. by intros [|]%elem_of_cons.
Qed.

Lemma last_writer_index_nil : last_writer_index [] ∅.
Proof.
  intros k w. rewrite lookup_empty. split; [done|]. by intros (_ & (a & Ha & _) & _).
Qed.

Lemma last_writer_index_snoc pre a m :
  last_writer_index pre m →
  last_writer_index (pre ++ [a]) (record_writer (Z.of_nat (length pre)) (writes a) m).
Proof.
  intros Hm k w. rewrite record_writer_lookup, is_last_writer_snoc. case_decide; [|apply Hm].
  split; [by intros [= <-]|by intros ->].
Qed.

Lemma last_writers_elem keys m p : p ∈ last_writers keys m ↔ ∃ k, k ∈ keys ∧ m !! k = Some p.
Proof.
  unfold last_writers.
  assert (∀ s : gset Z, p ∈ foldl (λ seen key, match m !! key with Some q => {[q]} ∪ seen | None => seen end) s keys ↔
    p ∈ s ∨ ∃ k, k ∈ keys ∧ m !! k = Some p) as H; [|rewrite H; set_solver].
  induction keys as [|k keys IH]; intros s; cbn [foldl]; [set_solver|].
  rewrite IH, (exists_cons (λ k, m !! k = Some p)). destruct (m !! k) as [q|] eqn:E.
  - rewrite elem_of_union, elem_of_singleton. intuition congruence.
  - intuition congruence.
Qed.

Lemma raw_seen_spec pre a m :
  last_writer_index pre m →
  lists_exactly raw_predecessor pre a (indices_or_nil (last_writers (reads a) m)).
Proof.
  intros Hm. destruct (indices_or_nil_spec (last_writers (reads a) m)) as [Hs He]. split; [done|].
  intros p. rewrite He, last_writers_elem. unfold raw_predecessor.
  unfold last_writer_index in Hm. by setoid_rewrite Hm.
Qed.

Lemma greatest_writer_spec pre a m :
  last_writer_index pre m → is_barrier pre a (greatest_writer (reads a) m).
Proof.
  intros Hm. unfold greatest_writer, is_barrier, raw_predecessor.
  unfold last_writer_index in Hm. setoid_rewrite <- Hm. assert (∀ k w, m !! k = Some w → 0 <= w) as H0 by (intros k w Hw%Hm; apply Hw). clear Hm.
  generalize (reads a). clear a pre. intros keys.
  induction keys as [|k keys IH] using rev_ind; cbn; [left; split; [done|]; set_solver|].
  rewrite foldl_app. cbn [foldl].
  set (b := foldl _ (-1) keys) in *. clearbody b.
  destruct (m !! k) as [w|] eqn:E.
  - pose proof (H0 k w E). destruct (b <? w) eqn:Eb; right.
    + split; [exists k; split; [set_solver|done]|]. intros p (k' & [Hk|Hk]%elem_of_app & Hp).
      * destruct IH as [[_ Hno]|[_ Hmax]]; [destruct (Hno p); eauto|]. assert (p <= b) by eauto. bool_lia.
      * apply list_elem_of_singleton in Hk as ->. simplify_eq. lia.
    + destruct IH as [[-> Hno]|[(k' & Hk' & Hb) Hmax]]; [bool_lia|].
      split; [exists k'; split; [set_solver|done]|]. intros p (k2 & [Hk|Hk]%elem_of_app & Hp); [eauto|].
      apply list_elem_of_singleton in Hk as ->. simplify_eq. bool_lia.
  - destruct IH as [[-> Hno]|[(k' & Hk' & Hb) Hmax]]; [left|right].
    + split; [done|]. intros p (k2 & [Hk|Hk]%elem_of_app & Hp); [eapply Hno; eauto|].
      apply list_elem_of_singleton in Hk as ->. congruence.
    + split; [exists k'; split; [set_solver|done]|]. intros p (k2 & [Hk|Hk]%elem_of_app & Hp); [eauto|].
      apply list_elem_of_singleton in Hk as ->. congruence.
Qed.

(** The total number of edges. *)
Fixpoint total (l : list (list Z)) : Z :=
  match l with [] => 0 | x :: l => Z.of_nat (length x) + total l end.

Lemma u64_add a b c : u64 (u64 (a + b) + c) = u64 (a + (b + c)).
Proof. unfold u64. rewrite Zplus_mod_idemp_l. f_equal. lia. Qed.

Lemma raw_loop_spec l pre ctx m acc edges ctx' preds edges' :
  last_writer_index pre m → u64 edges = edges →
  raw_loop l (Z.of_nat (length pre)) ctx m acc edges = (ctx', Some (preds, edges')) →
  ∃ new, preds = acc ++ new ∧ along (lists_exactly raw_predecessor) pre l new ∧ edges' = u64 (edges + total new).
Proof.
  revert pre ctx m acc edges. induction l as [|a l IH]; intros pre ctx m acc edges Hm He; cbn [raw_loop].
  { intros [= _ <- <-]. exists []. rewrite app_nil_r, Z.add_0_r. by repeat constructor. }
  destruct (poll_every 255 _ ctx) as [ctx1 []]; [done|]. cbv zeta.
  replace (Z.of_nat (length pre) + 1) with (Z.of_nat (length (pre ++ [a]))) by (rewrite length_app; cbn; lia).
  intros H. apply IH in H as (new & -> & Hnew & ->); [|by apply last_writer_index_snoc|by rewrite (u64_id (u64 _)) by apply u64_bound].
  eexists. rewrite <- app_assoc. split; [done|]. split; [|cbn [total]; by rewrite u64_add].
  constructor; [by apply raw_seen_spec|done].
Qed.

Lemma summary_loop_spec l pre ctx m acc entries ctx' barriers entries' :
  last_writer_index pre m →
  summary_loop l (Z.of_nat (length pre)) ctx m acc entries = (ctx', Some (barriers, entries')) →
  ∃ new, barriers = acc ++ new ∧ along is_barrier pre l new.
Proof.
  revert pre ctx m acc entries. induction l as [|a l IH]; intros pre ctx m acc entries Hm; cbn [summary_loop].
  { intros [= _ <- _]. exists []. rewrite app_nil_r. by repeat constructor. }
  destruct (poll_every 255 _ ctx) as [ctx1 []]; [done|]. cbv zeta.
  replace (Z.of_nat (length pre) + 1) with (Z.of_nat (length (pre ++ [a]))) by (rewrite length_app; cbn; lia).
  intros H. apply IH in H as (new & -> & Hnew); [|by apply last_writer_index_snoc].
  eexists. rewrite <- app_assoc. split; [done|]. constructor; [by apply greatest_writer_spec|done].
Qed.

(** *** The indexed builder *)

Definition accessor_index (f : staticAccessSet → list Bytes) (pre : list staticAccessSet)
    (m : gmap Bytes (list Z)) : Prop :=
  ∀ k w, w ∈ default [] (m !! k) ↔ 0 <= w ∧ ∃ a, pre !! Z.to_nat w = Some a ∧ k ∈ f a.

Lemma append_each_elem t keys m k w :
  w ∈ default [] (append_each t keys m !! k) ↔ w ∈ default [] (m !! k) ∨ (k ∈ keys ∧ w = t).
Proof.
  unfold append_each. revert m. induction keys as [|k' keys IH]; intros m; cbn [foldl]; [set_solver|].
  rewrite IH, elem_of_cons. destruct (decide (k = k')) as [->|Hne].
  - rewrite lookup_insert_eq. cbn. rewrite elem_of_app, list_elem_of_singleton. intuition congruence.
  - rewrite lookup_insert_ne by done. intuition congruence.
Qed.

Lemma accessor_index_snoc f pre a m :
  accessor_index f pre m → accessor_index f (pre ++ [a]) (append_each (Z.of_nat (length pre)) (f a) m).
Proof.
  intros Hm k w. rewrite append_each_elem, (Hm k w). split.
  - intros [(Hw & b & Hb & Hk)|[Hk ->]].
    + split; [done|]. exists b. split; [by apply lookup_app_l_Some|done].
    + split; [lia|]. exists a. split; [|done]. rewrite Nat2Z.id. by apply list_lookup_middle.
  - intros (Hw & b & [Hb|[Hge Hb]]%lookup_app_Some & Hk); [left; eauto|right].
    apply list_lookup_singleton_Some in Hb as [Hi <-]. split; [done|]. lia.
Qed.

Lemma visit_elem index keys st p :
  p ∈ (visit index keys st).1 ↔ p ∈ st.1 ∨ ∃ k, k ∈ keys ∧ p ∈ index k.
Proof.
  unfold visit. revert st. induction keys as [|k keys IH]; intros [seen units]; cbn [foldl]; [set_solver|].
  rewrite IH, (exists_cons (λ k, p ∈ index k)). cbn. rewrite elem_of_union, elem_of_list_to_set. tauto.
Qed.

Lemma indexed_seen_spec pre a readers writers units :
  accessor_index reads pre readers → accessor_index writes pre writers →
  let seen := (visit (λ key, default [] (readers !! key) ++ default [] (writers !! key)) (writes a)
                 (visit (λ key, default [] (writers !! key)) (reads a) (∅, units))).1 in
  lists_exactly conflict_predecessor pre a (indices_or_nil seen).
Proof.
  intros Hr Hw seen. destruct (indices_or_nil_spec seen) as [Hs He]. split; [done|].
  intros p. rewrite He. unfold seen. rewrite !visit_elem. cbn [fst].
  unfold accessor_index in Hr, Hw. setoid_rewrite elem_of_app. setoid_rewrite Hr. setoid_rewrite Hw.
  unfold conflict_predecessor, conflicts. clear. set_solver.
Qed.

Lemma indexed_loop_spec l pre ctx readers writers acc edges units ctx' preds edges' units' :
  accessor_index reads pre readers → accessor_index writes pre writers → u64 edges = edges →
  indexed_loop l (Z.of_nat (length pre)) ctx readers writers acc edges units = (ctx', Some (preds, edges', units')) →
  ∃ new, preds = acc ++ new ∧ along (lists_exactly conflict_predecessor) pre l new ∧
    edges' = u64 (edges + total new).
Proof.
  revert pre ctx readers writers acc edges units.
  induction l as [|a l IH]; intros pre ctx readers writers acc edges units Hr Hw He; cbn [indexed_loop].
  { intros [= _ <- <- _]. exists []. rewrite app_nil_r, Z.add_0_r. by repeat constructor. }
  destruct (poll_every 255 _ ctx) as [ctx1 []]; [done|].
  pose proof (indexed_seen_spec pre a readers writers units Hr Hw) as Hseen. cbv zeta in Hseen.
  destruct (visit _ (reads a) (∅, units)) as [seen1 units1].
  destruct (visit _ (writes a) (seen1, units1)) as [seen units2]. cbn [fst] in Hseen.
  replace (Z.of_nat (length pre) + 1) with (Z.of_nat (length (pre ++ [a]))) by (rewrite length_app; cbn; lia).
  intros H. apply IH in H as (new & -> & Hnew & ->);
    [|by apply accessor_index_snoc..|by rewrite (u64_id (u64 _)) by apply u64_bound].
  eexists. rewrite <- app_assoc. split; [done|]. split; [|cbn [total]; by rewrite u64_add].
  by constructor.
Qed.

Lemma accessor_index_nil f : accessor_index f [] ∅.
Proof. intros k w. rewrite lookup_empty. cbn. set_solver. Qed.

(** *** The quadratic builder *)

Lemma earlier_loop_spec l e a ctx acc edges ctx' mine edges' :
  u64 edges = edges → earlier_loop l e a ctx acc edges = (ctx', Some (mine, edges')) →
  ∃ new, mine = acc ++ new ∧ edges' = u64 (edges + Z.of_nat (length new)) ∧ ascending new ∧
    ∀ p, p ∈ new ↔ e <= p ∧ ∃ b, l !! Z.to_nat (p - e) = Some b ∧ conflict b a = true.
Proof.
  revert e ctx acc edges. induction l as [|c l IH]; intros e ctx acc edges He; cbn [earlier_loop].
  { intros [= _ <- <-]. exists []. rewrite app_nil_r, Z.add_0_r. repeat split; try done; [constructor|set_solver..]. }
  destruct (poll_every 1023 e ctx) as [ctx1 []]; [done|].
  assert (∀ p, (e <= p ∧ ∃ b, (c :: l) !! Z.to_nat (p - e) = Some b ∧ conflict b a = true) ↔
    (p = e ∧ conflict c a = true) ∨ (e + 1 <= p ∧ ∃ b, l !! Z.to_nat (p - (e + 1)) = Some b ∧ conflict b a = true)) as Hstep.
  { intros p. destruct (decide (p = e)) as [->|Hne].
    - rewrite Z.sub_diag. cbn. split; [intros (_ & b & [= <-] & Hb); by left|].
      intros [[_ Hc]|[? _]]; [|lia]. split; [done|]. eauto.
    - split; [intros (Hle & b & Hb & Hc)|intros [[-> _]|(Hle & b & Hb & Hc)]]; [right|done|].
      + split; [lia|]. replace (Z.to_nat (p - e)) with (S (Z.to_nat (p - (e + 1)))) in Hb by lia. eauto.
      + split; [lia|]. replace (Z.to_nat (p - e)) with (S (Z.to_nat (p - (e + 1)))) by lia. eauto. }
  destruct (conflict c a) eqn:Ec; intros H.
  - apply IH in H as (new & -> & -> & Hs & Hin); [|by rewrite (u64_id (u64 _)) by apply u64_bound].
    exists (e :: new). rewrite <- app_assoc. split; [done|]. split; [by rewrite u64_add; f_equal; cbn; lia|].
    split.
    + apply StronglySorted_cons_2; [done|]. intros y [? _]%Hin. lia.
    + intros p. rewrite elem_of_cons, Hin, Hstep. tauto.
  - apply IH in H as (new & -> & -> & Hs & Hin); [|done]. exists new. repeat (split; [done|]).
    intros p. rewrite Hin, Hstep. intuition congruence.
Qed.

Lemma later_loop_spec accesses l pre ctx acc edges ctx' preds edges' :
  accesses = pre ++ l → Forall access_sorted accesses → u64 edges = edges →
  later_loop accesses l (length pre) ctx acc edges = (ctx', Some (preds, edges')) →
  ∃ new, preds = acc ++ new ∧ along (lists_exactly conflict_predecessor) pre l new ∧
    edges' = u64 (edges + total new).
Proof.
  intros E Hsorted. revert pre ctx acc edges E.
  induction l as [|a l IH]; intros pre ctx acc edges E He; cbn [later_loop].
  { intros [= _ <- <-]. exists []. rewrite app_nil_r, Z.add_0_r. by repeat constructor. }
  destruct (earlier_loop _ 0 a ctx [] edges) as [ctx1 [[mine edges1]|]] eqn:El; [|done].
  apply earlier_loop_spec in El as (mine' & -> & -> & Hs & Hin); [|done]. cbn [app].
  rewrite E, take_app_length in Hin.
  replace (S (length pre)) with (length (pre ++ [a])) by (rewrite length_app; cbn; lia).
  intros H. apply IH in H as (new & -> & Hnew & ->);
    [|by rewrite <- app_assoc|by rewrite (u64_id (u64 _)) by apply u64_bound].
  exists (mine' :: new). rewrite <- app_assoc. split; [done|]. split; [|cbn [total]; by rewrite u64_add].
  constructor; [|done]. split; [done|]. intros p. rewrite Hin, Z.sub_0_r. unfold conflict_predecessor.
  rewrite Forall_forall in Hsorted.
  assert (access_sorted a) by (apply Hsorted; rewrite E; set_solver).
  split; intros (Hp & b & Hb & Hc); (split; [done|]; exists b; split; [done|]);
    (apply conflict_spec; [|done|done]; apply Hsorted; rewrite E; apply list_elem_of_lookup_2 in Hb; set_solver).
Qed.
