(* ===== verification/DependencyProps.v ===== *)
(** * Properties of the static dependency analysis and its consumers *)

From Stdlib Require Import ZArith Lia String.
From stdpp Require Import sorting.
From S2P Require Import Prelude Prog Model State Encoding Runtime KernelPolicy Plan Dependency DependencyFacts.
Local Open Scope Z_scope.

(** ** Without cancellation every builder comes back *)

Lemma poll_every_background mask i : poll_every mask i background = (background, false).
Proof. unfold poll_every. by destruct (_ =? _). Qed.

Lemma raw_loop_returns l t m acc edges : ∃ r, raw_loop l t background m acc edges = (background, Some r).
Proof.
  revert t m acc edges. induction l as [|a l IH]; intros; cbn [raw_loop]; [eauto|].
  rewrite poll_every_background. apply IH.
Qed.

Lemma summary_loop_returns l t m acc entries : ∃ r, summary_loop l t background m acc entries = (background, Some r).
Proof.
  revert t m acc entries. induction l as [|a l IH]; intros; cbn [summary_loop]; [eauto|].
  rewrite poll_every_background. apply IH.
Qed.

Lemma indexed_loop_returns l t rs ws acc edges units :
  ∃ r, indexed_loop l t background rs ws acc edges units = (background, Some r).
Proof.
  revert t rs ws acc edges units. induction l as [|a l IH]; intros; cbn [indexed_loop]; [eauto|].
  rewrite poll_every_background. destruct (visit _ (reads a) _). destruct (visit _ (writes a) _). apply IH.
Qed.

Lemma earlier_loop_returns l e a acc edges : ∃ r, earlier_loop l e a background acc edges = (background, Some r).
Proof.
  revert e acc edges. induction l as [|c l IH]; intros; cbn [earlier_loop]; [eauto|].
  rewrite poll_every_background. destruct (conflict c a); apply IH.
Qed.

Lemma later_loop_returns accesses l n acc edges :
  ∃ r, later_loop accesses l n background acc edges = (background, Some r).
Proof.
  revert n acc edges. induction l as [|a l IH]; intros; cbn [later_loop]; [eauto|].
  destruct (earlier_loop_returns (take n accesses) 0 a [] edges) as [[mine edges1] ->]. apply IH.
Qed.

Lemma scan_instructions_returns l i rs ws a :
  ∃ r, scan_instructions l i background rs ws a = (background, Some r).
Proof.
  revert i rs ws a. induction l as [|x l IH]; intros; cbn [scan_instructions]; [eauto|].
  rewrite poll_every_background. cbv zeta. repeat case_match; apply IH.
Qed.

Lemma scan_transactions_returns l i acc a :
  ∃ r, scan_transactions l i background acc a = (background, Some r).
Proof.
  revert i acc a. induction l as [|x l IH]; intros; cbn [scan_transactions]; [eauto|].
  rewrite poll_every_background.
  destruct (scan_instructions_returns (Instructions (tx_Program x)) 0 ∅ ∅ a) as [[[rs ws] a1] ->]. apply IH.
Qed.

(** ** Properties *)

(** C31: Static analysis is conservative and precise: the scan of a block ends,
    gives one access set per transaction, and it lists, sorted, exactly the
    keys the program names; whatever state, hooks and cancellation a
    transaction then meets, every read it records and every write it reports
    is in its sets; and the information is marked complete exactly when every
    opcode is known. *)
Theorem static_analysis_conservative (block : Block) :
  (∃ r, analyzeStaticPrograms background block = (background, Some r)) ∧
  ∀ ctx ctx' accesses a, analyzeStaticPrograms ctx block = (ctx', Some (accesses, a)) →
    length accesses = length (Transactions block) ∧
    (aq_complete a = true ↔
       ∀ tx i, tx ∈ Transactions block → i ∈ Instructions (tx_Program tx) → known_op (in_Op i)) ∧
    ∀ t tx, Transactions block !! t = Some tx →
      ∃ access, accesses !! t = Some access ∧ access_exact tx access ∧
        ∀ (B : Type) (HB : Base B) (H : Type) (hooks : RuntimeHooks H) c execution (base : B) h,
          let m := (ExecuteWithHooks hooks c execution tx (NewOverlay base) h).1 in
          (∀ r, r ∈ Reads (m_result m) → rr_Key r ∈ reads access) ∧
          (∀ w, w ∈ Writes (m_result m) → sc_Key w ∈ writes access).
Proof.
  split; [apply scan_transactions_returns|]. intros ctx ctx' accesses a E.
  apply scan_transactions_spec in E as ((new & -> & Hnew) & Hc). cbn [app].
  split; [symmetry; by eapply Forall2_length|]. split; [rewrite Hc; cbn; naive_solver|].
  intros t tx Ht. destruct (Forall2_lookup_l _ _ _ _ _ Hnew Ht) as (access & Ha & Hx).
  exists access. split; [done|]. split; [done|]. intros B HB H hooks c execution base h.
  destruct (ExecuteWithHooks_within hooks c execution tx base h) as [Hr _ Hw].
  split; [intros r Hin; by apply (ax_reads _ _ Hx), Hr|intros w Hin; by apply (ax_writes _ _ Hx), Hw].
Qed.

(** C18: The two builders of the full conflict graph are equivalent: on sorted
    access sets the key-indexed builder and the quadratic reference return
    the same predecessor lists and the same number of edges, and these are,
    ascending, exactly the earlier transactions with a read-write, write-read
    or write-write conflict. *)
Theorem conflict_graph_builders_agree accesses :
  Forall access_sorted accesses →
  ∃ predecessors edges units,
    buildFullConflictGraph background accesses = (background, Some (predecessors, edges)) ∧
    buildFullConflictGraphIndexed background accesses = (background, Some (predecessors, edges, units)) ∧
    length predecessors = length accesses ∧
    ∀ t a, accesses !! t = Some a → ∃ mine, predecessors !! t = Some mine ∧
      ascending mine ∧ ∀ p, p ∈ mine ↔ 0 <= p ∧ ∃ b, take t accesses !! Z.to_nat p = Some b ∧ conflicts b a.
Proof.
  intros Hs.
  destruct (later_loop_returns accesses accesses 0 [] 0) as [[preds edges] E].
  destruct (indexed_loop_returns accesses 0 ∅ ∅ [] 0 0) as [[[preds' edges'] units] E'].
  pose proof (later_loop_spec accesses accesses [] background [] 0 background preds edges eq_refl Hs eq_refl E)
    as (new & -> & Hnew & ->).
  pose proof (indexed_loop_spec accesses [] background ∅ ∅ [] 0 0 background preds' edges' units
    (accessor_index_nil reads) (accessor_index_nil writes) eq_refl E') as (new' & -> & Hnew' & ->).
  assert (new' = new) as ->.
  { eapply along_fun; [|exact Hnew'|exact Hnew]. intros. by eapply lists_exactly_fun. }
  exists new, (u64 (0 + total new)), units. split; [exact E|]. split; [exact E'|].
  split; [by eapply along_length|]. intros t a Ht.
  destruct (along_lookup _ _ _ _ t a Hnew Ht) as (mine & Hm & Hspec). exists mine. split; [done|exact Hspec].
Qed.

(** The two read-after-write structures are exact: the predecessors of
    [buildDeclaredRAWDAG] are, ascending, the last earlier writers of the keys
    the transaction reads, the barrier of [buildDependencySummary] is the
    greatest of them (or -1), all of them lie before the transaction, and each
    is also an edge of the full conflict graph. *)
Lemma raw_structures_exact accesses :
  ∃ predecessors edges barriers entries,
    buildDeclaredRAWDAG background accesses = (background, Some (predecessors, edges)) ∧
    buildDependencySummary background accesses = (background, Some (barriers, entries)) ∧
    length predecessors = length accesses ∧ length barriers = length accesses ∧
    ∀ t a, accesses !! t = Some a → ∃ mine barrier,
      predecessors !! t = Some mine ∧ barriers !! t = Some barrier ∧
      ascending mine ∧ (∀ p, p ∈ mine ↔ raw_predecessor (take t accesses) a p) ∧
      barrier = default (-1) (last mine) ∧ -1 <= barrier < Z.of_nat t ∧
      ∀ p, p ∈ mine → conflict_predecessor (take t accesses) a p.
Proof.
  destruct (raw_loop_returns accesses 0 ∅ [] 0) as [[preds edges] E].
  destruct (summary_loop_returns accesses 0 ∅ [] 0) as [[barriers entries] E'].
  pose proof (raw_loop_spec accesses [] background ∅ [] 0 background preds edges last_writer_index_nil eq_refl E)
    as (new & -> & Hnew & ->).
  pose proof (summary_loop_spec accesses [] background ∅ [] 0 background barriers entries last_writer_index_nil E')
    as (new' & -> & Hnew').
  exists new, (u64 (0 + total new)), new', entries. split; [exact E|]. split; [exact E'|].
  split; [by eapply along_length|]. split; [by eapply along_length|]. intros t a Ht.
  destruct (along_lookup _ _ _ _ t a Hnew Ht) as (mine & Hm & Hs & Hmine).
  destruct (along_lookup _ _ _ _ t a Hnew' Ht) as (barrier & Hb & Hbar). cbn [app] in *.
  exists mine, barrier. split; [done|]. split; [done|]. split; [done|]. split; [done|].
  assert (∀ p, raw_predecessor (take t accesses) a p → 0 <= p < Z.of_nat t) as Hrange.
  { intros p (k & _ & Hp & (b & Hb' & _) & _). apply lookup_lt_Some in Hb'. rewrite length_take in Hb'. lia. }
  assert (barrier = default (-1) (last mine)) as Elast.
  { destruct (last mine) as [x|] eqn:El; cbn.
    - assert (raw_predecessor (take t accesses) a x) as Hx by (by apply Hmine, last_Some_elem_of).
      destruct Hbar as [[_ Hno]|[Hraw Hmax]]; [by destruct (Hno x)|].
      specialize (Hmax x Hx). apply Hmine in Hraw.
      destruct (decide (barrier = x)) as [|Hne]; [done|].
      apply last_Some in El as [l ->]. apply elem_of_app in Hraw as [Hraw|Hraw]; [|set_solver].
      apply (StronglySorted_app_1_elem_of _ l [x] barrier x) in Hs; [lia|done|set_solver].
    - apply last_None in El as ->. destruct Hbar as [[-> _]|[Hraw _]]; [done|].
      apply Hmine, elem_of_nil in Hraw. done. }
  split; [done|]. split.
  - destruct Hbar as [[-> _]|[Hraw _]]; [lia|]. apply Hrange in Hraw. lia.
  - intros p (k & Hk & Hp & (b & Hb' & Hw) & _)%Hmine. split; [done|]. exists b. split; [done|].
    exists k. left. split; [done|by left].
Qed.

(** ** The consumers *)

Lemma check_predecessor_None t p : check_predecessor t p = None ↔ 0 <= p < t.
Proof. unfold check_predecessor. destruct (p <? 0) eqn:E1, (t <=? p) eqn:E2; cbn; split; intros H; try done; bool_lia || (exfalso; bool_lia). Qed.

Lemma EffectiveKernelControl_checked config dependency k :
  EffectiveKernelControl config dependency = inr k →
  kp_EstimateRead k ∈ [EstimateReadSuspendInPlace; EstimateReadAbortReschedule; EstimateReadSuspendYieldWorker] ∧
  kp_IdleWait k ∈ [IdleWaitGosched; IdleWaitPark] ∧
  (kp_EstimateRead k = EstimateReadSuspendYieldWorker → kp_IdleWait k = IdleWaitPark) ∧
  (kp_Dispatch k = DispatchReadyQueue → dp_WaitPolicy dependency ≠ WaitNone).
Proof.
  unfold EffectiveKernelControl. cbv zeta. intros H.
  next_guard H E1. next_guard H E2. next_guard H E3. next_guard H E4. next_guard H E5. injection H as <-. cbn.
  apply negb_false_iff, one_of_spec in E1. apply negb_false_iff, one_of_spec in E4.
  split; [done|]. split; [done|]. split.
  - intros Ey. rewrite Ey, String.eqb_refl in E5. cbn in E5. apply negb_false_iff, String.eqb_eq in E5. done.
  - intros Ed Ew. rewrite Ed, Ew, !String.eqb_refl in E3. done.
Qed.

(** A policy made from a kernel plan normalises without error. *)
Lemma policy_normal er iw dispatch preds barriers :
  er ∈ [EstimateReadSuspendInPlace; EstimateReadAbortReschedule; EstimateReadSuspendYieldWorker] →
  iw ∈ [IdleWaitGosched; IdleWaitPark] → (er = EstimateReadSuspendYieldWorker → iw = IdleWaitPark) →
  (dispatch = "" ∧ preds = None ∧ barriers = None ∨
   dispatch = DispatchReadyQueue ∧ is_nil preds ≠ is_nil barriers) →
  Normalize (MkPolicy er iw dispatch preds barriers) =
    (MkPolicy er iw (if decide (dispatch = "") then DispatchIndexOrder else dispatch) preds barriers, None).
Proof.
  intros Her Hiw Hy Hd. unfold Normalize.
  assert (er ≠ "" ∧ iw ≠ "") as [He Hi].
  { split; intros ->; [in_cases Her|in_cases Hiw]. }
  unfold policy_defaults. cbn [EstimateRead IdleWait Dispatch Predecessors Barriers].
  rewrite (decide_False (P := er = "")), (decide_False (P := iw = "")) by done. f_equal.
  unfold check_policy. cbn [EstimateRead IdleWait Dispatch Predecessors Barriers].
  rewrite !elem_of_cons, elem_of_nil in Her. rewrite !elem_of_cons, elem_of_nil in Hiw.
  rewrite (bool_decide_eq_true_2 (_ ∨ _ ∨ _)) by tauto. cbn [negb].
  rewrite (bool_decide_eq_true_2 (_ ∨ _)) by tauto. cbn [negb].
  assert (bool_decide (er = EstimateReadSuspendYieldWorker) && negb (bool_decide (iw = IdleWaitPark)) = false) as ->.
  { destruct (decide (er = EstimateReadSuspendYieldWorker)) as [E|E].
    - rewrite (bool_decide_eq_true_2 (iw = _)) by auto. apply andb_false_r.
    - by rewrite bool_decide_eq_false_2. }
  destruct Hd as [(-> & -> & ->)|(-> & Hn)]; cbn; [done|]. by destruct preds, barriers.
Qed.

(** Every listed predecessor is an earlier transaction. *)
Definition lower_lists (n : nat) (preds : list (list Z)) : Prop :=
  length preds = n ∧ ∀ t mine p, preds !! t = Some mine → p ∈ mine → 0 <= p < Z.of_nat t.
Definition lower_barriers (n : nat) (barriers : list Z) : Prop :=
  length barriers = n ∧ ∀ t b, barriers !! t = Some b → b < Z.of_nat t.

Lemma raw_predecessor_lower pre a p : raw_predecessor pre a p → 0 <= p < Z.of_nat (length pre).
Proof. intros (k & _ & Hp & (b & Hb & _) & _). apply lookup_lt_Some in Hb. lia. Qed.

Lemma conflict_predecessor_lower pre a p : conflict_predecessor pre a p → 0 <= p < Z.of_nat (length pre).
Proof. intros (Hp & b & Hb & _). apply lookup_lt_Some in Hb. lia. Qed.

Lemma along_lower Q l new :
  (∀ pre a p, Q pre a p → 0 <= p < Z.of_nat (length pre)) →
  along (lists_exactly Q) [] l new → lower_lists (length l) new.
Proof.
  intros HQ H. split; [by eapply along_length|]. intros t mine p Ht Hp.
  destruct (lookup_lt_is_Some_2 l t) as [a Ha].
  { rewrite <- (along_length _ _ _ _ H). by eapply lookup_lt_Some. }
  destruct (along_lookup _ _ _ _ t a H Ha) as (mine' & Hm' & _ & Hin). simplify_eq.
  apply Hin, HQ in Hp. cbn in Hp. rewrite length_take in Hp. lia.
Qed.

Lemma along_lower_barriers l new : along is_barrier [] l new → lower_barriers (length l) new.
Proof.
  intros H. split; [by eapply along_length|]. intros t b Ht.
  destruct (lookup_lt_is_Some_2 l t) as [a Ha].
  { rewrite <- (along_length _ _ _ _ H). by eapply lookup_lt_Some. }
  destruct (along_lookup _ _ _ _ t a H Ha) as (b' & Hb' & Hb). simplify_eq.
  destruct Hb as [[-> _]|[Hr _]]; [lia|]. apply raw_predecessor_lower in Hr. cbn in Hr. rewrite length_take in Hr. lia.
Qed.

(** What is built for each representation. *)
Definition representation_fits (n : nat) (representation : string) (r : dependencyRepresentationArtifact) : Prop :=
  (representation = RAWLastWriter ∨ representation = FullConflictGraph →
     ∃ preds, ra_predecessors r = Some preds ∧ lower_lists n preds) ∧
  (representation = MaxRAWPredecessor → ∃ barriers, ra_barriers r = Some barriers ∧ lower_barriers n barriers).

Lemma buildDependencyRepresentation_fits ctx accesses plan ctx' r :
  Forall access_sorted accesses →
  buildDependencyRepresentation ctx accesses plan = (ctx', Some r) →
  representation_fits (length accesses) (dp_Representation plan) r.
Proof.
  intros Hs. unfold buildDependencyRepresentation, representation_fits.
  destruct (String.eqb_spec (dp_Representation plan) RAWLastWriter) as [->|N1].
  { destruct (buildDeclaredRAWDAG ctx accesses) as [c [[preds edges]|]] eqn:E; [|done]. intros [= <- <-].
    apply (raw_loop_spec accesses []) in E as (new & -> & Hnew & _); [|apply last_writer_index_nil|done].
    split; [|done]. intros _. eexists. split; [done|]. eapply along_lower; [|done]. apply raw_predecessor_lower. }
  destruct (String.eqb_spec (dp_Representation plan) MaxRAWPredecessor) as [->|N2].
  { destruct (buildDependencySummary ctx accesses) as [c [[barriers entries]|]] eqn:E; [|done]. intros [= <- <-].
    apply (summary_loop_spec accesses []) in E as (new & -> & Hnew); [|apply last_writer_index_nil].
    split; [by intros [?|?]|]. intros _. eexists. split; [done|]. by apply along_lower_barriers. }
  destruct (String.eqb_spec (dp_Representation plan) FullConflictGraph) as [->|N3].
  2:{ intros [= <- <-]. split; [by intros [?|?]|done]. }
  intros H. split; [intros _|done]. revert H. destruct (_ =? BuilderIndexedByKey)%string.
  - destruct (buildFullConflictGraphIndexed ctx accesses) as [c [[[preds edges] units]|]] eqn:E; [|done].
    intros [= <- <-]. apply (indexed_loop_spec accesses []) in E as (new & -> & Hnew & _);
      [|apply accessor_index_nil..|done].
    eexists. split; [done|]. eapply along_lower; [|done]. apply conflict_predecessor_lower.
  - destruct (buildFullConflictGraph ctx accesses) as [c [[preds edges]|]] eqn:E; [|done]. cbv zeta.
    intros [= <- <-]. apply (later_loop_spec accesses accesses []) in E as (new & -> & Hnew & _); [|done..].
    eexists. split; [done|]. eapply along_lower; [|done]. apply conflict_predecessor_lower.
Qed.

Lemma validateGate_lists er iw n preds barriers :
  lower_lists n preds → validateGate (MkPolicy er iw DispatchReadyQueue (Some preds) barriers) (Z.of_nat n) = None.
Proof.
  intros [Hlen Hlow]. unfold validateGate. cbn. rewrite Hlen, Z.eqb_refl. cbn [negb].
  apply check_each_None. intros t mine Ht. apply check_each_None. intros j p Hj.
  apply check_predecessor_None. rewrite Z.add_0_l. eapply Hlow; [done|]. by eapply list_elem_of_lookup_2.
Qed.

Lemma validateGate_barriers er iw n barriers :
  lower_barriers n barriers → validateGate (MkPolicy er iw DispatchReadyQueue None (Some barriers)) (Z.of_nat n) = None.
Proof.
  intros [Hlen Hlow]. unfold validateGate. cbn. rewrite Hlen, Z.eqb_refl. cbn [negb].
  apply check_each_None. intros t b Ht. unfold check_barrier. rewrite Z.add_0_l.
  destruct (Z.of_nat t <=? b) eqn:E; [|done]. apply Hlow in Ht. bool_lia.
Qed.

Lemma analyze_sorted ctx block ctx' accesses a :
  analyzeStaticPrograms ctx block = (ctx', Some (accesses, a)) →
  Forall access_sorted accesses ∧ length accesses = length (Transactions block).
Proof.
  intros E. apply scan_transactions_spec in E as ((new & -> & Hnew) & _). cbn [app].
  split; [|symmetry; by eapply Forall2_length].
  apply Forall_forall. intros x [i Hi]%list_elem_of_lookup_1.
  destruct (Forall2_lookup_r _ _ _ _ _ Hnew Hi) as (tx & _ & []). done.
Qed.

(** The policy and the gate that [consumer] chooses, for a plan whose
    representation fits its wait policy. *)
Lemma consumer_accepted plan k n r policy controller :
  kp_EstimateRead k ∈ [EstimateReadSuspendInPlace; EstimateReadAbortReschedule; EstimateReadSuspendYieldWorker] →
  kp_IdleWait k ∈ [IdleWaitGosched; IdleWaitPark] →
  (kp_EstimateRead k = EstimateReadSuspendYieldWorker → kp_IdleWait k = IdleWaitPark) →
  (dp_WaitPolicy plan ≠ WaitNone → dp_Representation plan = wantRepresentation (dp_WaitPolicy plan) ∧
     ∃ r', r = Some r' ∧ representation_fits n (dp_Representation plan) r') →
  ValidDependencyWaitPolicy (dp_WaitPolicy plan) = true →
  consumer plan k r = (policy, controller) →
  ∃ q, Normalize policy = (q, None) ∧ validateGate q (Z.of_nat n) = None ∧
    (Dispatch q = DispatchReadyQueue ↔
       dp_WaitPolicy plan ≠ WaitNone ∧ kp_Dispatch k = DispatchReadyQueue) ∧
    (is_Some controller ↔ dp_WaitPolicy plan ≠ WaitNone ∧ kp_Dispatch k ≠ DispatchReadyQueue).
Proof.
  intros He Hi Hy Hr Hv. unfold consumer. cbv zeta.
  destruct (String.eqb_spec (dp_WaitPolicy plan) WaitNone) as [Ew|Ew].
  { intros [= <- <-]. rewrite policy_normal by auto. eexists. split; [done|]. cbn. split; [done|].
    split; [split; [done|by intros []]|]. split; [by intros [? ?]|by intros []]. }
  destruct (Hr Ew) as (Erep & r' & -> & Hlists & Hbarriers).
  destruct (String.eqb_spec (kp_Dispatch k) DispatchReadyQueue) as [Ed|Ed].
  2:{ intros [= <- <-]. rewrite policy_normal by auto. eexists. split; [done|]. cbn. split; [done|].
      split; [split; [done|by intros []]|]. split; [done|]. intros _. eauto. }
  destruct (String.eqb_spec (dp_WaitPolicy plan) WaitContiguousFrontier) as [Ec|Ec].
  - rewrite Ec in Erep. destruct (Hbarriers Erep) as (barriers & -> & Hlow).
    intros [= <- <-]. rewrite policy_normal by (auto; right; done). eexists. split; [done|]. cbn [decide].
    split; [by apply validateGate_barriers|]. split; [by split|]. split; [by intros [? ?]|by intros []].
  - assert (dp_Representation plan = RAWLastWriter ∨ dp_Representation plan = FullConflictGraph) as Hrep.
    { rewrite Erep. unfold ValidDependencyWaitPolicy in Hv. apply one_of_spec in Hv.
      rewrite !elem_of_cons, elem_of_nil in Hv.
      destruct Hv as [E|[E|[E|[E|[]]]]]; try done; rewrite E; cbn; auto. }
    destruct (Hlists Hrep) as (preds & -> & Hlow).
    intros [= <- <-]. rewrite policy_normal by (auto; right; done). eexists. split; [done|]. cbn [decide].
    split; [by apply validateGate_lists|]. split; [by split|]. split; [by intros [? ?]|by intros []].
Qed.

(** C32: What the engine prepares, the kernel accepts.  For every plan and
    kernel plan that resolve from a run configuration, the kernel policy that
    [prepareDependency] makes from the block normalises without error and
    passes the gate check for the size of the block, so every transaction
    waits for earlier ones only; and a wait policy has exactly one consumer,
    the kernel's ready queue or the gate inside the callback. *)
Theorem prepared_policy_accepted config plan k ctx block storeIndex ctx' p :
  EffectiveDependencyControl config = inr plan → EffectiveKernelControl config plan = inr k →
  prepareDependency ctx block plan k storeIndex = (ctx', Some p) →
  ∃ q, Normalize (pr_kernelPolicy p) = (q, None) ∧
    validateGate q (Z.of_nat (length (Transactions block))) = None ∧
    (Dispatch q = DispatchReadyQueue ↔ dp_WaitPolicy plan ≠ WaitNone ∧ kp_Dispatch k = DispatchReadyQueue) ∧
    (is_Some (pr_controller p) ↔ dp_WaitPolicy plan ≠ WaitNone ∧ kp_Dispatch k ≠ DispatchReadyQueue).
Proof.
  intros Hplan (He & Hi & Hy & _)%EffectiveKernelControl_checked.
  pose proof (EffectiveDependencyControl_checked _ _ Hplan) as Hc.
  pose proof (pc_consumers _ Hc) as Hcons. unfold validateDependencyConsumers in Hcons.
  next_guard Hcons G1. next_guard Hcons G2. clear Hcons.
  unfold prepareDependency, acquireDependencyInformation.
  destruct (String.eqb_spec (dp_Source plan) DependencySourceRuntimeObserved) as [Es|Es].
  { cbn [andb] in G1. rewrite orb_false_iff, !negb_false_iff, !String.eqb_eq in G1. destruct G1 as [Ew _].
    intros [= <- <-]. cbn [pr_kernelPolicy pr_controller]. rewrite policy_normal by auto.
    eexists. split; [done|]. cbn. split; [done|].
    split; [split; [done|by intros []]|]. split; [by intros [? ?]|by intros []]. }
  destruct (analyzeStaticPrograms ctx block) as [c [[accesses a]|]] eqn:Ea; [|done].
  apply analyze_sorted in Ea as [Hs <-]. cbn [ia_staticAccesses].
  destruct (represent c accesses plan) as [c1 [r|]] eqn:Er; [|done].
  destruct (consumer plan k r) as [policy controller] eqn:Econs. cbv zeta. intros H.
  assert (pr_kernelPolicy p = policy ∧ pr_controller p = controller) as [-> ->].
  { destruct (_ =? EstimatesWrite)%string; [|by injection H as _ <-].
    destruct (buildWriteEstimates _ _ _) as [c2 [[[? ?] ?]|]]; [by injection H as _ <-|done]. }
  eapply consumer_accepted; [done..| |exact (pc_wait _ Hc)|exact Econs].
  intros Ew%String.eqb_neq. rewrite Ew in G2. cbn in G2. apply negb_false_iff, String.eqb_eq in G2.
  split; [done|]. unfold represent in Er.
  destruct (String.eqb_spec (dp_Representation plan) VersionOnly) as [Ev|_].
  { exfalso. pose proof (pc_wait _ Hc) as Hw. apply one_of_spec in Hw. rewrite Ev in G2.
    unfold wantRepresentation in G2. apply String.eqb_neq in Ew.
    rewrite !elem_of_cons, elem_of_nil in Hw. destruct Hw as [E|[E|[E|[E|[]]]]]; [done|rewrite E in G2; discriminate G2..]. }
  destruct (buildDependencyRepresentation c accesses plan) as [c2 [r'|]] eqn:Eb; [|done].
  injection Er as _ <-. exists r'. split; [done|]. by eapply buildDependencyRepresentation_fits.
Qed.

(** ** The contiguous-frontier gate *)

Lemma completed_prefix_bound l : 0 <= completed_prefix l <= Z.of_nat (length l).
Proof. induction l as [|[] l IH]; cbn [completed_prefix length]; lia. Qed.

Lemma completed_prefix_true l j : Z.of_nat j < completed_prefix l → l !! j = Some true.
Proof.
  revert j. induction l as [|[] l IH]; intros j; cbn [completed_prefix]; [lia| |lia].
  destruct j as [|j]; [done|]. intros H. apply IH. lia.
Qed.

Lemma completed_prefix_next l : l !! Z.to_nat (completed_prefix l) ≠ Some true.
Proof.
  induction l as [|[] l IH]; cbn [completed_prefix]; [done| |done].
  pose proof (completed_prefix_bound l). replace (Z.to_nat (1 + _)) with (S (Z.to_nat (completed_prefix l))) by lia. done.
Qed.

Lemma completed_prefix_drop l f :
  (∀ j, (j < f)%nat → l !! j = Some true) → completed_prefix l = Z.of_nat f + completed_prefix (drop f l).
Proof.
  revert l. induction f as [|f IH]; intros l H; [done|].
  pose proof (H 0%nat ltac:(lia)) as H0. destruct l as [|x l]; [done|]. cbn in H0. injection H0 as ->.
  cbn [completed_prefix drop]. rewrite (IH l); [lia|]. intros j Hj. apply (H (S j)). lia.
Qed.

(** The gate after the transactions [l] have completed, in that order. *)
Definition completes (l : list Z) (g : summaryDependencyGate) : outcome summaryDependencyGate :=
  foldM (λ g t, summary_Complete t g) g l.

Record frontier_inv (barriers : list Z) (done : Z → Prop) (g : summaryDependencyGate) : Prop := {
  fr_barriers : sg_barriers g = barriers;
  fr_length : length (sg_completed g) = length barriers;
  fr_frontier : sg_frontier g = completed_prefix (sg_completed g);
  fr_done : ∀ j, 0 <= j → sg_completed g !! Z.to_nat j = Some true ↔ done j;
}.

Lemma summary_Complete_inv barriers done g t :
  frontier_inv barriers done g → 0 <= t < Z.of_nat (length barriers) →
  ∃ g', summary_Complete t g = Returns g' ∧ frontier_inv barriers (λ j, done j ∨ j = t) g' ∧
    sg_frontier g <= sg_frontier g' ∧ (sg_wake g <= sg_wake g')%nat ∧
    (sg_frontier g < sg_frontier g' → (sg_wake g < sg_wake g')%nat).
Proof.
  intros [Hb Hl Hf Hd] Ht. unfold summary_Complete.
  destruct (at_index_in (sg_completed g) t) as [already Ea]; [lia|]. rewrite Ea. cbn.
  apply at_index_lookup in Ea; [|lia]. destruct already.
  { exists g. split; [done|]. split; [|lia]. split; [done..|]. intros j Hj. rewrite Hd by done.
    split; [auto|]. intros [?| ->]; [done|]. by apply Hd. }
  rewrite set_index_in by lia. cbn. set (completed := <[Z.to_nat t := true]> (sg_completed g)).
  pose proof (completed_prefix_bound (sg_completed g)).
  assert (∀ j, (j < Z.to_nat (sg_frontier g))%nat → completed !! j = Some true) as Hpre.
  { intros j Hj. unfold completed. destruct (decide (j = Z.to_nat t)) as [->|Hne].
    - apply list_lookup_insert_eq. lia.
    - rewrite list_lookup_insert_ne by done. apply completed_prefix_true. rewrite <- Hf. lia. }
  pose proof (completed_prefix_drop completed _ Hpre) as Edrop.
  rewrite Z2Nat.id in Edrop by lia.
  pose proof (completed_prefix_bound (drop (Z.to_nat (sg_frontier g)) completed)).
  eexists. split; [done|]. split; [|cbn; destruct (Z.eqb_spec (sg_frontier g + completed_prefix (drop (Z.to_nat (sg_frontier g)) completed)) (sg_frontier g)); lia].
  split; cbn; [done| |by rewrite Edrop|].
  - unfold completed. by rewrite length_insert.
  - intros j Hj. unfold completed. destruct (decide (j = t)) as [->|Hne].
    + split; [auto|]. intros _. apply list_lookup_insert_eq. lia.
    + rewrite list_lookup_insert_ne by lia. rewrite Hd by done. tauto.
Qed.

Lemma completes_inv barriers l : ∀ done g,
  frontier_inv barriers done g → Forall (λ t, 0 <= t < Z.of_nat (length barriers)) l →
  ∃ g', completes l g = Returns g' ∧ frontier_inv barriers (λ j, done j ∨ j ∈ l) g' ∧
    sg_frontier g <= sg_frontier g' ∧ (sg_wake g <= sg_wake g')%nat ∧
    (sg_frontier g < sg_frontier g' → (sg_wake g < sg_wake g')%nat).
Proof.
  induction l as [|t l IH]; intros done g Hg Hl.
  { exists g. split; [done|]. split; [|lia]. destruct Hg. split; [done..|]. set_solver. }
  apply Forall_cons in Hl as [Ht Hl].
  destruct (summary_Complete_inv _ _ _ _ Hg Ht) as (g1 & E1 & Hg1 & F1 & W1 & N1).
  destruct (IH _ g1 Hg1 Hl) as (g2 & E2 & Hg2 & F2 & W2 & N2).
  exists g2. unfold completes. cbn [foldM]. rewrite E1. split; [exact E2|]. split; [|lia].
  destruct Hg2 as [A B C D]. split; [done..|]. intros j Hj. rewrite D by done. set_solver.
Qed.

Lemma new_gate_inv barriers : frontier_inv barriers (λ _, False) (newSummaryDependencyGate barriers).
Proof.
  split; cbn; [done|apply length_replicate| |].
  - destruct barriers; done.
  - intros j _. rewrite lookup_replicate. naive_solver.
Qed.

(** The frontier is past [b] exactly when everything up to [b] has completed. *)
Lemma frontier_spec barriers done g b :
  frontier_inv barriers done g → 0 <= b → b < sg_frontier g ↔ ∀ j, 0 <= j <= b → done j.
Proof.
  intros [_ _ Hf Hd] Hb. rewrite Hf. split.
  - intros Hlt j Hj. apply Hd; [lia|]. apply completed_prefix_true. lia.
  - intros Hall. destruct (decide (b < completed_prefix (sg_completed g))) as [|Hge]; [done|].
    pose proof (completed_prefix_bound (sg_completed g)).
    destruct (completed_prefix_next (sg_completed g)). apply Hd; [lia|]. apply Hall. lia.
Qed.

(** The contiguous-frontier gate is exact and loses no wakeup.  Whatever
    transactions of the block have completed, in whatever order and however
    often, a transaction passes [Wait] at once exactly when everything up to
    its barrier has completed and otherwise blocks; and if later completions
    make its barrier pass, the channel it had picked up before blocking has
    been closed, so the waiter wakes. *)
Lemma summary_gate_exact barriers l l' t b fuel prefer :
  Forall (λ j, 0 <= j < Z.of_nat (length barriers)) (l ++ l') →
  at_index barriers t = Some b → 0 <= b →
  ∃ g g', completes l (newSummaryDependencyGate barriers) = Returns g ∧ completes l' g = Returns g' ∧
    run (summary_Wait false prefer g (S fuel) t) g =
      (if decide (b < sg_frontier g) then Returns (g, MkWaitResult 1 0 false) else Waits) ∧
    (b < sg_frontier g ↔ ∀ j, 0 <= j <= b → j ∈ l) ∧
    (b < sg_frontier g' ↔ ∀ j, 0 <= j <= b → j ∈ l ∨ j ∈ l') ∧
    (sg_frontier g <= b < sg_frontier g' → (sg_wake g < sg_wake g')%nat).
Proof.
  intros [Hl Hl']%Forall_app Hb H0.
  destruct (completes_inv barriers l _ _ (new_gate_inv barriers) Hl) as (g & E & Hg & _).
  destruct (completes_inv barriers l' _ _ Hg Hl') as (g' & E' & Hg' & _ & _ & Hwake).
  exists g, g'. split; [done|]. split; [done|]. split; [|split; [|split]].
  - unfold summary_Wait. rewrite (fr_barriers _ _ _ Hg), Hb.
    rewrite (proj2 (Z.ltb_ge b 0)) by done. cbn.
    destruct (Z.ltb_spec b (sg_frontier g)); [by rewrite decide_True|]. rewrite decide_False by lia. cbn.
    by rewrite decide_False by lia.
  - rewrite (frontier_spec _ _ _ b Hg H0). naive_solver.
  - rewrite (frontier_spec _ _ _ b Hg' H0). naive_solver.
  - intros ?. apply Hwake. lia.
Qed.

(** ** Witnesses *)

(** Two transactions on the same key. *)
Definition two_counters : Block :=
  MkBlock "b" 1 [countdown; MkTransaction "u" 20 (tx_Program countdown)].
Definition counter_access : staticAccessSet := MkAccessSet [[Byte.x61]] [[Byte.x61]].

Lemma counter_access_sorted : access_sorted counter_access.
Proof. split; repeat constructor. Qed.

Lemma static_analysis_conservative_witness :
  ∃ a, analyzeStaticPrograms background two_counters = (background, Some ([counter_access; counter_access], a)) ∧
    aq_complete a = true ∧
    ∀ r, r ∈ Reads (m_result first_run.1) → rr_Key r ∈ [[Byte.x61]].
Proof.
  eexists. split; [vm_compute; reflexivity|]. split; [reflexivity|].
  destruct (static_analysis_conservative two_counters) as [_ H].
  destruct (H background background [counter_access; counter_access] (MkAcquisition true 6 4 2 2)) as (_ & _ & Ht);
    [vm_compute; reflexivity|].
  destruct (Ht 0%nat countdown eq_refl) as (access & Ha & _ & Hrun). injection Ha as <-.
  destruct (Hrun Reader reader_base unit RuntimeDefaults background (MkTxContext "" (tx_ID countdown) 0 0 0)
    (st_Reader New) tt) as [Hr _].
  exact Hr.
Defined.

Lemma conflict_graph_builders_agree_witness :
  ∃ edges units,
    buildFullConflictGraph background [counter_access; counter_access] = (background, Some ([[]; [0]], edges)) ∧
    buildFullConflictGraphIndexed background [counter_access; counter_access] =
      (background, Some ([[]; [0]], edges, units)).
Proof.
  destruct (conflict_graph_builders_agree [counter_access; counter_access]) as (preds & edges & units & E & E' & _).
  { repeat constructor; apply counter_access_sorted. }
  assert (preds = [[]; [0]]) as ->.
  { assert (buildFullConflictGraph background [counter_access; counter_access] =
      (background, Some ([[]; [0]], 1))) as E2 by (vm_compute; reflexivity). rewrite E2 in E. congruence. }
  eauto.
Defined.

Lemma raw_structures_exact_witness :
  ∃ edges entries,
    buildDeclaredRAWDAG background [counter_access; counter_access] = (background, Some ([[]; [0]], edges)) ∧
    buildDependencySummary background [counter_access; counter_access] = (background, Some ([-1; 0], entries)).
Proof.
  destruct (raw_structures_exact [counter_access; counter_access]) as (preds & edges & bs & entries & E & E' & _).
  assert (buildDeclaredRAWDAG background [counter_access; counter_access] =
      (background, Some ([[]; [0]], 1))) as E2 by (vm_compute; reflexivity).
  assert (buildDependencySummary background [counter_access; counter_access] =
      (background, Some ([-1; 0], 1))) as E3 by (vm_compute; reflexivity).
  rewrite E2 in E. rewrite E3 in E'. eauto.
Defined.

Lemma prepared_policy_accepted_witness :
  ∃ q p, prepareDependency background two_counters
      (MkDependencyPlan DependencyMVCCRuntime DependencySourceStaticProgram FullConflictGraph
         BuilderQuadraticReference WaitAllPredecessors EstimatesDisabled)
      (MkKernelPlan EstimateReadAbortReschedule IdleWaitPark DispatchReadyQueue) 0 = (background, Some p) ∧
    Normalize (pr_kernelPolicy p) = (q, None) ∧ validateGate q 2 = None.
Proof.
  destruct (prepared_policy_accepted full_graph_config
    (MkDependencyPlan DependencyMVCCRuntime DependencySourceStaticProgram FullConflictGraph
       BuilderQuadraticReference WaitAllPredecessors EstimatesDisabled)
    (MkKernelPlan EstimateReadAbortReschedule IdleWaitPark DispatchReadyQueue) background two_counters 0 background
    (MkPreparation (MkInformation DependencySourceStaticProgram "before_execution" "flat-static-scan-v1" true false 6 4 2 2
        [counter_access; counter_access])
      (Some (graph_artifact [[]; [0]] 1 1)) "representation_consumed" None [] (0, 0) true
      (MkPolicy EstimateReadAbortReschedule IdleWaitPark DispatchReadyQueue (Some [[]; [0]]) None)))
    as (q & Hq & Hg & _).
  - vm_compute; reflexivity.
  - vm_compute; reflexivity.
  - vm_compute; reflexivity.
  - exists q. eexists. split; [vm_compute; reflexivity|]. split; [exact Hq|exact Hg].
Defined.

Lemma summary_gate_exact_witness :
  ∃ g g', completes [1] (newSummaryDependencyGate [-1; 0; 1]) = Returns g ∧ completes [0] g = Returns g' ∧
    run (summary_Wait false false g 1 2) g = Waits ∧ (sg_wake g < sg_wake g')%nat.
Proof.
  destruct (summary_gate_exact [-1; 0; 1] [1] [0] 2 1 0 false) as (g & g' & E & E' & Hrun & _ & _ & Hw).
  - repeat (apply Forall_cons; split; [cbn; lia|]). constructor.
  - reflexivity.
  - lia.
  - exists g, g'. split; [exact E|]. split; [exact E'|]. injection E as <-. injection E' as <-.
    split; [rewrite Hrun; reflexivity|]. apply Hw. cbn. lia.
Defined.
