(* ===== verification/Adapter.v ===== *)
(** * internal/engine/blockstm/state_adapter.go: the kernel's store behind the runtime

    The kernel's stores keep nil for a deleted key; the runtime's state lets a
    present value be empty.  The adapter frames every value with a marker byte.
    The multi-store of one flat store is the store itself. *)

From Stdlib Require Import ZArith Lia.
From stdpp Require Import sorting.
From S2P Require Import Prelude Utils BTree BTreeIterator Types MemDB MVView Model State.

(** A [[]byte] with its nil. *)
Abbreviation value := (option Bytes).

Definition valueFrameMarker : Byte.byte := Byte.x01.

Definition encodeValue (v : Bytes) : Bytes := valueFrameMarker :: v.

(** [None] is [ErrInvalidValueFrame]. *)
Definition decodeValue (encoded : Bytes) : option Bytes :=
  match encoded with
  | [] => None
  | b :: rest => if bool_decide (b = valueFrameMarker) then Some rest else None
  end.

(** What [framedState.Get] makes of a stored value: an invalid frame reads as
    an existing nil value. *)
Definition unframe (encoded : value) : option Bytes :=
  match encoded with
  | None => None
  | Some encoded => Some (default [] (decodeValue encoded))
  end.

Section framed.
Context {S : Type} `{!KVStore S value}.

Definition fs_Get (store : S) (key : Bytes) : option Bytes := unframe (kv_Get store key).
Definition fs_Set (store : S) (key v : Bytes) : outcome S := kv_Set store key (Some (encodeValue v)).
Definition fs_Delete (store : S) (key : Bytes) : S := kv_Delete store key.
End framed.

Section storage.
Context {BT : BTreeLib}.

#[local] Instance kernel_store : KVStore (GMemDB value) value := memdb_store BytesIsZero.

Definition newKernelStorage (entries : list StateEntry) : outcome (GMemDB value) :=
  foldM (λ db entry, fs_Set db (se_Key entry) (se_Value entry)) (NewGMemDB value) entries.

(** The loop over the iterator, at most [fuel] rounds; an invalid frame ends it
    with an error, [None]. *)
Fixpoint snapshot_loop (fuel : nat) (iterator : BTreeIteratorG (memdbItem value)) (entries : list StateEntry) :
    outcome (option (list StateEntry)) :=
  match fuel with
  | O => Waits
  | S fuel =>
      if Valid iterator then
        match decodeValue (default [] (mem_Value iterator)) with
        | None => Returns None
        | Some v =>
            match Next iterator with
            | None => Panics
            | Some iterator' => snapshot_loop fuel iterator' (entries ++ [MkStateEntry (Key iterator) v])
            end
        end
      else Returns (Some entries)
  end.

(** One round per item and a last one. *)
Definition snapshotKernelStorage (db : GMemDB value) : outcome (option (list StateEntry)) :=
  snapshot_loop (S (length (bt_Scan db))) (mem_iterator db None None true) [].
End storage.

(** ** Facts *)

Lemma decode_encode v : decodeValue (encodeValue v) = Some v.
Proof. unfold decodeValue, encodeValue. by rewrite bool_decide_eq_true_2. Qed.

Lemma decodeValue_Some encoded v : decodeValue encoded = Some v ↔ encoded = encodeValue v.
Proof.
  split; [|intros ->; apply decode_encode]. destruct encoded as [|b rest]; cbn; [done|].
  case_bool_decide; [|done]. by intros [= <-]; subst.
Qed.

Lemma unframe_encode (v : option Bytes) : unframe (encodeValue <$> v) = v.
Proof. destruct v; cbn [fmap option_fmap option_map unframe]; [by rewrite decode_encode|done]. Qed.

Section framed_facts.
Context {S : Type} `{!KVStore S value} (ok : S → Prop) `{!KVStoreLaws S value BytesIsZero zero ok}.

(** The kernel's store holds the framed values of a state. *)
Definition represents (store : S) (s : Store) : Prop :=
  ok store ∧ ∀ key, kv_Get store key = encodeValue <$> st_Get s key.

Lemma fs_Get_represents store s key : represents store s → fs_Get store key = st_Get s key.
Proof. intros [_ H]. unfold fs_Get. by rewrite H, unframe_encode. Qed.

Lemma fs_Set_represents store s key v :
  represents store s → ∃ store', fs_Set store key v = Returns store' ∧ represents store' (st_Set s key v).
Proof.
  intros [Hok H]. destruct (kv_Set_spec store key (Some (encodeValue v)) Hok eq_refl) as (store' & E & Hok' & Hg).
  exists store'. split; [done|]. split; [done|]. intros k. rewrite Hg. unfold st_Get, st_Set. cbn.
  case_decide; subst; [by rewrite lookup_insert_eq|]. rewrite lookup_insert_ne by done. apply H.
Qed.

Lemma fs_Delete_represents store s key : represents store s → represents (fs_Delete store key) (st_Delete s key).
Proof.
  intros [Hok H]. destruct (kv_Delete_spec store key Hok) as [Hok' Hg]. split; [done|].
  intros k. unfold fs_Delete. rewrite Hg. unfold st_Get, st_Delete. cbn.
  case_decide; subst; [by rewrite lookup_delete_eq|]. rewrite lookup_delete_ne by done. apply H.
Qed.
End framed_facts.

Section storage_facts.
Context {BT : BTreeLib} {BL : BTreeLaws}.
#[local] Existing Instance kernel_store.

(** A store written through its interface is sorted and holds no nil. *)
Record db_ok (db : GMemDB value) : Prop := {
  db_wf : mem_wf db;
  db_values : ∀ item, item ∈ bt_Scan db → mi_value item ≠ None;
}.

#[local] Instance kernel_store_laws : KVStoreLaws (GMemDB value) value BytesIsZero zero db_ok.
Proof.
  pose proof (memdb_store_laws BytesIsZero : KVStoreLaws _ _ _ _ _) as [Hset Hdel].
  split.
  - intros db k v [Hwf Hv] Hz. destruct (Hset db k v Hwf Hz) as (db' & E & Hwf' & Hg).
    exists db'. split; [done|]. split; [|done]. split; [done|]. cbn in E. unfold mem_Set in E. rewrite Hz in E.
    injection E as <-. intros item Hin. rewrite Scan_Set in Hin.
    apply (elem_of_ins KeyItemLess) in Hin as [->|Hin]; [by destruct v|by apply Hv].
  - intros db k [Hwf Hv]. destruct (Hdel db k Hwf) as [Hwf' Hg]. split; [|done]. split; [done|].
    intros item Hin. cbn in Hin. unfold mem_Delete in Hin. rewrite Scan_Delete in Hin.
    apply Hv. by apply (elem_of_del KeyItemLess) in Hin.
Qed.

Abbreviation holds := (represents (S := GMemDB value) db_ok).

Lemma New_holds : holds (NewGMemDB value) New.
Proof.
  split; [split; [apply NewGMemDB_wf|]|].
  - unfold NewGMemDB. rewrite Scan_new. by intros item ?%elem_of_nil.
  - intros key. unfold st_Get, New. cbn [data]. rewrite lookup_empty.
    unfold kv_Get, kernel_store, memdb_store, mem_Get, NewGMemDB. by rewrite Get_Scan, Scan_new.
Qed.

Lemma newKernelStorage_fold entries db s :
  holds db s →
  ∃ db', foldM (λ db entry, fs_Set db (se_Key entry) (se_Value entry)) db entries = Returns db' ∧
    holds db' (MkStore (foldl (λ m e, <[se_Key e := se_Value e]> m) (data s) entries)).
Proof.
  revert db s. induction entries as [|e entries IH]; intros db s Hd; cbn [foldM foldl]; [exists db; by destruct s|].
  destruct (fs_Set_represents db_ok db s (se_Key e) (se_Value e) Hd) as (db1 & -> & Hd1).
  apply (IH db1 _ Hd1).
Qed.

(** The items of a store that holds a state are its framed entries, sorted. *)
Definition frame (e : StateEntry) : memdbItem value := MkMemdbItem (se_Key e) (Some (encodeValue (se_Value e))).

Lemma holds_items db s item :
  holds db s → item ∈ bt_Scan db → ∃ e, item = frame e ∧ e ∈ Snapshot s.
Proof.
  intros [[Hwf Hv] Hg] Hin. specialize (Hg (mi_key item)). specialize (Hv item Hin).
  unfold kv_Get, kernel_store, memdb_store, mem_Get in Hg. rewrite Get_Scan in Hg.
  assert (findb (same KeyItemLess (item_of (mi_key item))) (bt_Scan db) = Some item) as E.
  { rewrite <- (findb_sorted KeyItemLess item (bt_Scan db) Hwf Hin). apply findb_ext; intros y.
    destruct item as [k v], y as [k' v']. unfold item_of. by rewrite !same_item. }
  rewrite E in Hg. destruct item as [k [w|]]; [|done]. cbn in Hg.
  destruct (data s !! k) as [v|] eqn:Es; [|done]. cbn in Hg. injection Hg as ->.
  exists (MkStateEntry k v). split; [done|]. by apply Snapshot_elem.
Qed.

Lemma Snapshot_keys_sorted s : sorted_keys (se_Key <$> Snapshot s).
Proof. apply sort_by_key_strict, Snapshot_keys. Qed.

Lemma frame_sorted s : StronglySorted (below KeyItemLess) (frame <$> Snapshot s).
Proof.
  pose proof (Snapshot_keys_sorted s) as Hs. induction (Snapshot s) as [|e l IH]; [constructor|].
  rewrite !fmap_cons in *. apply StronglySorted_cons_inv in Hs as [Hs Hx]. constructor; [by apply IH|].
  rewrite Forall_fmap, Forall_forall. intros e' He'. apply KeyItemLess_lt. cbn. apply Hx.
  apply list_elem_of_fmap. eauto.
Qed.

Lemma holds_scan db s : holds db s → bt_Scan db = frame <$> Snapshot s.
Proof.
  intros Hd. apply (StronglySorted_ext (below KeyItemLess)); [apply Hd|apply frame_sorted|].
  intros item. split.
  - intros (e & -> & He)%(holds_items db s); [|done]. apply list_elem_of_fmap. eauto.
  - intros (e & -> & He%Snapshot_elem)%list_elem_of_fmap. destruct Hd as [[Hwf Hv] Hg].
    specialize (Hg (se_Key e)). unfold st_Get in Hg. rewrite He in Hg.
    unfold kv_Get, kernel_store, memdb_store, mem_Get in Hg. rewrite Get_Scan in Hg.
    destruct (findb _ (bt_Scan db)) as [item|] eqn:E; [|done]. apply findb_Some in E as [Hin Hs].
    destruct item as [k v]. unfold item_of in Hs. rewrite same_item in Hs. apply bool_decide_eq_true in Hs.
    cbn in Hg, Hs. unfold frame. by rewrite Hs, <- Hg.
Qed.

Lemma iterates_frame fuel it (l : list StateEntry) acc :
  iterates it (frame <$> l) → (length l < fuel)%nat → snapshot_loop fuel it acc = Returns (Some (acc ++ l)).
Proof.
  revert it l acc. induction fuel as [|fuel IH]; intros it l acc Hi Hl; [lia|]. cbn [snapshot_loop].
  destruct l as [|e l]; rewrite ?fmap_nil, ?fmap_cons in Hi.
  - by rewrite (iterates_nil_inv _ Hi), app_nil_r.
  - apply iterates_cons_inv in Hi as (-> & E & it' & -> & Hi). unfold mem_Value, Key. rewrite E.
    change (default [] (mi_value (frame e))) with (encodeValue (se_Value e)). rewrite decode_encode. cbn in Hl. rewrite (IH it' l) by (done || lia).
    rewrite <- app_assoc. by destruct e.
Qed.

Lemma snapshotKernelStorage_holds db s : holds db s → snapshotKernelStorage db = Returns (Some (Snapshot s)).
Proof.
  intros Hd. pose proof (holds_scan db s Hd) as E. unfold snapshotKernelStorage.
  rewrite (iterates_frame _ _ (Snapshot s) []); [done| |].
  - rewrite <- E. pose proof (iterates_new item_of (λ k, eq_refl) None None db true) as Hi.
    unfold range_items in Hi. rewrite filter_all in Hi by done. apply Hi, Hd.
  - rewrite E, length_fmap. lia.
Qed.
End storage_facts.

(** ** Properties *)

Section properties.
Context {BT : BTreeLib} {BL : BTreeLaws}.
#[local] Existing Instance kernel_store.
#[local] Existing Instance kernel_store_laws.

Lemma newKernelStorage_holds s :
  ∃ db, newKernelStorage (Snapshot s) = Returns db ∧ represents db_ok db s.
Proof.
  destruct (newKernelStorage_fold (Snapshot s) (NewGMemDB value) New New_holds) as (db & E & Hd).
  exists db. split; [done|]. pose proof (FromEntries_Snapshot s) as Hs. unfold FromEntries in Hs.
  destruct (add_entries (data New) (Snapshot s)) as [m|] eqn:Em; [|done]. injection Hs as <-.
  apply add_entries_spec in Em as (_ & _ & ->). exact Hd.
Qed.

(** C22: Nothing is lost between the runtime's state and the kernel's store.
    Filling a kernel store from the snapshot of a state never panics; while
    the store holds a state, each read, write and deletion of the adapter
    does to it what it does to the state, present empty values included, and
    keeps it so; and the snapshot taken of it at the end is, entry for entry,
    the snapshot of that state, whatever frames would be invalid. *)
Theorem kernel_storage_roundtrip s :
  ∃ db, newKernelStorage (Snapshot s) = Returns db ∧ snapshotKernelStorage db = Returns (Some (Snapshot s)) ∧
    ∀ db' s', represents db_ok db' s' →
      (∀ key, fs_Get db' key = st_Get s' key) ∧
      (∀ key v, ∃ db'', fs_Set db' key v = Returns db'' ∧ represents db_ok db'' (st_Set s' key v)) ∧
      (∀ key, represents db_ok (fs_Delete db' key) (st_Delete s' key)) ∧
      snapshotKernelStorage db' = Returns (Some (Snapshot s')).
Proof.
  destruct (newKernelStorage_holds s) as (db & E & Hd). exists db. split; [done|].
  split; [by apply snapshotKernelStorage_holds|]. intros db' s' Hd'.
  split; [intros key; exact (fs_Get_represents db_ok db' s' key Hd')|]. split; [intros key v; exact (fs_Set_represents db_ok db' s' key v Hd')|].
  split; [intros key; exact (fs_Delete_represents db_ok db' s' key Hd')|]. by apply snapshotKernelStorage_holds.
Qed.
End properties.

#[local] Existing Instance ListTree.
#[local] Existing Instance ListTree_laws.

(** A state with an empty value: the kernel's store keeps it apart from a missing key. *)
Definition state_with_empty : Store := st_Set New [Byte.x05] [].

Lemma kernel_storage_roundtrip_witness :
  ∃ db, newKernelStorage (Snapshot state_with_empty) = Returns db ∧
    snapshotKernelStorage db = Returns (Some [MkStateEntry [Byte.x05] []]).
Proof.
  destruct (kernel_storage_roundtrip state_with_empty) as (db & E & Hs & _). exists db.
  split; [exact E|]. rewrite Hs. vm_compute. reflexivity.
Defined.
