(* ===== verification/Accounting.v ===== *)
(** * internal/engine/blockstm: result slots, work and dependency counters

    From engine.go the slots, the work counters and the first-error cell; from
    dependency.go the counters and the controller that fills them.  A slot, a
    cell and a controller are what their mutexes and atomics protect, and each
    method is one critical section (the controller adds to one counter after
    the other; the sums do not depend on the order).  Measured times are
    arguments. *)

From Stdlib Require Import ZArith Lia String.
From S2P Require Import Prelude Model KernelPolicy Plan Control Dependency.
Local Open Scope Z_scope.

(** ** Result slots (engine.go) *)

Record resultSlot := MkSlot {
  sl_executions : Z;
  sl_result : TxResult;
  sl_ready : bool;
  sl_abandoned : bool;
  sl_attemptUnits : list Z;
}.

Definition zeroTxResult : TxResult := MkTxResult 0 "" "" [] "" 0 0 [] [] [].
Definition newSlot : resultSlot := MkSlot 0 zeroTxResult false false [].

(** The incarnation, and whether the previous attempt was abandoned. *)
Definition beginExecution (s : resultSlot) : resultSlot * (Z * bool) :=
  (MkSlot (u64 (sl_executions s + 1)) (sl_result s) (sl_ready s) false (sl_attemptUnits s),
   (sl_executions s, sl_abandoned s)).

(** Extends the list with zeros up to the incarnation and sets its entry. *)
Definition charge (units : list Z) (incarnation value : Z) : list Z :=
  let grown := units ++ replicate (Z.to_nat (incarnation + 1) - length units) 0 in
  <[Z.to_nat incarnation := value]> grown.

Definition abandon (s : resultSlot) (incarnation units : Z) (captureWork : bool) : resultSlot :=
  MkSlot (sl_executions s) (sl_result s) (sl_ready s) true
    (if captureWork then charge (sl_attemptUnits s) incarnation units else sl_attemptUnits s).

Definition store (s : resultSlot) (incarnation : Z) (result : TxResult) (captureWork : bool) : resultSlot :=
  MkSlot (sl_executions s) result true (sl_abandoned s)
    (if captureWork then charge (sl_attemptUnits s) incarnation (UnitsUsed result) else sl_attemptUnits s).

Definition load (s : resultSlot) : TxResult * bool := (sl_result s, sl_ready s).

Definition set_attempts (w : WorkCounters) (attempts reexecutions useful reexecuted discarded : Z) : WorkCounters :=
  MkWorkCounters attempts reexecutions useful reexecuted discarded (wk_SpeculationLimit w)
    (wk_SpeculationLimitApplied w) (wk_SpeculationTelemetryAvailable w) (wk_PeakSpeculativeInflight w)
    (wk_AdmissionStallEvents w) (wk_AdmissionStallNS w) (wk_Dependency w) (wk_KernelPolicy w).

Definition work (s : resultSlot) : WorkCounters :=
  match last (sl_attemptUnits s) with
  | None => zeroWorkCounters
  | Some useful =>
      let attempts := sl_attemptUnits s in
      let n := Z.of_nat (length attempts) in
      let rest := foldl (λ sum units, u64 (sum + units)) 0 (take (length attempts - 1) attempts) in
      set_attempts zeroWorkCounters (u64 n) (u64 (n - 1)) useful rest rest
  end.

Definition addWorkCounters (target source : WorkCounters) : WorkCounters :=
  set_attempts target
    (u64 (wk_ExecutionAttempts target + wk_ExecutionAttempts source))
    (u64 (wk_ReexecutionAttempts target + wk_ReexecutionAttempts source))
    (u64 (wk_UsefulExecutionUnits target + wk_UsefulExecutionUnits source))
    (u64 (wk_ReexecutedExecutionUnits target + wk_ReexecutedExecutionUnits source))
    (u64 (wk_DiscardedExecutionUnits target + wk_DiscardedExecutionUnits source)).

(** [executionErrors]: the first error set, a nil error being ignored. *)
Definition errors_set {E} (cell : option E) (err : option E) : option E :=
  match err, cell with
  | None, _ => cell
  | Some e, None => Some e
  | Some _, Some _ => cell
  end.

(** ** Dependency counters (dependency.go) *)

(** [measuredElapsed] of a [measuredStart] that took [ns]: the zero time without capture. *)
Definition measuredElapsed (capture : bool) (ns : Z) : Z := if capture then ns else 0.

(** [dependencyInformationArtifact.counters]; a static scan is measured. *)
Definition artifact_counters (a : dependencyInformationArtifact) (measured : bool) (elapsedNS : Z)
    (plan : DependencyPlan) : DependencyCounters :=
  MkDependencyCounters (dp_Mode plan) (ia_source a) (dp_Representation plan) (dp_Builder plan)
    (dp_WaitPolicy plan) (dp_EstimateInjection plan) (ia_availableAt a) (ia_version a) ""
    (ia_complete a) (ia_exact a) measured elapsedNS (ia_units a) (ia_bytes a) (ia_readKeys a) (ia_writeKeys a)
    false 0 0 0 0 0 0 0 0 0 0 false 0 0 0 0 0 0 0 0.

(** What the preparation writes on top of that; the times are those of the
    representation and of the estimates, zero without capture. *)
Definition base_counters (p : dependencyPreparation) (plan : DependencyPlan) (capture : bool)
    (acquisitionNS representationNS estimateNS : Z) : DependencyCounters :=
  let static := negb (dp_Source plan =? DependencySourceRuntimeObserved)%string in
  let c := artifact_counters (pr_information p) (static && capture)
    (measuredElapsed (static && capture) acquisitionNS) plan in
  let r := pr_representation p in
  let of_r (f : dependencyRepresentationArtifact → Z) := match r with Some r => f r | None => 0 end in
  let resolution := match pr_controller p with Some _ => capture | None => false end in
  MkDependencyCounters (dc_Mode c) (dc_Source c) (dc_Representation c) (dc_RepresentationBuilder c)
    (dc_WaitPolicy c) (dc_EstimateInjection c) (dc_SourceAvailableAt c) (dc_SourceVersion c)
    (pr_disposition p) (dc_InformationComplete c) (dc_InformationExact c) (dc_AcquisitionMeasured c)
    (dc_AcquisitionNS c) (dc_AcquisitionUnits c) (dc_AcquisitionBytes c) (dc_StaticReadKeys c)
    (dc_StaticWriteKeys c)
    (match r with Some _ => capture | None => false end)
    (match r with Some _ => measuredElapsed capture representationNS | None => 0 end)
    (of_r ra_buildUnits) (of_r ra_logicalBytes) (of_r ra_entries) (of_r ra_maxFanIn) (of_r ra_edges)
    (of_r ra_summaryEntries)
    (if (dp_EstimateInjection plan =? EstimatesWrite)%string && static then measuredElapsed capture estimateNS else 0)
    (fst (pr_estimateCounts p)) (snd (pr_estimateCounts p)) resolution 0 0 0 0 0 0 0 0.

(** The atomics of a [dependencyController]. *)
Record controllerCounters := MkController {
  ct_lookups : Z;
  ct_resolution : Z;
  ct_traversal : Z;
  ct_waited : Z;
  ct_waitEvents : Z;
  ct_waitNS : Z;
}.

Definition newController : controllerCounters := MkController 0 0 0 0 0 0.

(** [dependencyController.Wait] after the gate's own [Wait], which ended with [r]. *)
Definition controller_Wait (c : controllerCounters) (r : wait_result) (resolutionNS waitNS : Z) : controllerCounters :=
  let waited := 0 <? wr_events r in
  MkController (u64 (ct_lookups c + 1)) (u64 (ct_resolution c + resolutionNS))
    (u64 (ct_traversal c + wr_traversal r))
    (if waited then u64 (ct_waited c + 1) else ct_waited c)
    (if waited then u64 (ct_waitEvents c + wr_events r) else ct_waitEvents c)
    (if waited then u64 (ct_waitNS c + waitNS) else ct_waitNS c).

(** [dependencyPreparation.Counters]; [None] is a nil controller. *)
Definition preparation_Counters (base : DependencyCounters) (controller : option controllerCounters)
    (consumerActive : bool) (reexecutions reexecutionUnits : Z) : DependencyCounters :=
  let of_c (f : controllerCounters → Z) (d : Z) := match controller with Some c => f c | None => d end in
  MkDependencyCounters (dc_Mode base) (dc_Source base) (dc_Representation base) (dc_RepresentationBuilder base)
    (dc_WaitPolicy base) (dc_EstimateInjection base) (dc_SourceAvailableAt base) (dc_SourceVersion base)
    (dc_AcquisitionDisposition base) (dc_InformationComplete base) (dc_InformationExact base)
    (dc_AcquisitionMeasured base) (dc_AcquisitionNS base) (dc_AcquisitionUnits base) (dc_AcquisitionBytes base)
    (dc_StaticReadKeys base) (dc_StaticWriteKeys base) (dc_RepresentationMeasured base) (dc_RepresentationNS base)
    (dc_RepresentationBuildUnits base) (dc_RepresentationLogicalBytes base) (dc_RepresentationEntries base)
    (dc_RepresentationMaxFanIn base) (dc_DependencyEdges base) (dc_SummaryEntries base) (dc_EstimateBuildNS base)
    (dc_EstimatedWriteLocations base) (dc_EstimatedWriteKeyBytes base) (dc_ResolutionMeasured base)
    (of_c ct_resolution (dc_ResolutionNS base)) (of_c ct_lookups (dc_PlanLookups base))
    (of_c ct_traversal (dc_TraversalSteps base)) (of_c ct_waited (dc_WaitedExecutionAttempts base))
    (of_c ct_waitEvents (dc_WaitEvents base)) (of_c ct_waitNS (dc_WaitNS base))
    (if consumerActive then reexecutions else dc_PostGuidanceReexecutions base)
    (if consumerActive then reexecutionUnits else dc_PostGuidanceReexecutionUnits base).

(** The kernel's [KernelPolicyStats]. *)
Record KernelPolicyStats := MkPolicyStats {
  ks_Applied : bool;
  ks_EstimateSuspends : Z;
  ks_EstimateSuspendNS : Z;
  ks_EstimateAborts : Z;
  ks_DispatchDeferrals : Z;
  ks_WorkerYields : Z;
  ks_PeakRunnableWorkers : Z;
  ks_IdleParks : Z;
  ks_ReadyQueueDispatches : Z;
}.

Definition kernelPolicyCounters (plan : KernelPlan) (stats : KernelPolicyStats) : KernelPolicyCounters :=
  MkKernelPolicyCounters (ks_Applied stats) (kp_EstimateRead plan) (kp_IdleWait plan) (kp_Dispatch plan)
    (ks_EstimateSuspends stats) (ks_EstimateSuspendNS stats) (ks_EstimateAborts stats)
    (ks_DispatchDeferrals stats) (ks_WorkerYields stats) (ks_PeakRunnableWorkers stats)
    (ks_IdleParks stats) (ks_ReadyQueueDispatches stats).

(** ** Facts *)

(** How an attempt of a transaction ends, when it does not end the block. *)
Inductive attempt_end :=
| Stored (r : TxResult)
| Abandoned (units : Z).

Definition attempt_units (e : attempt_end) : Z := match e with Stored r => UnitsUsed r | Abandoned u => u end.
Definition is_abandoned (e : attempt_end) : bool := match e with Stored _ => false | Abandoned _ => true end.
Definition stored_result (e : attempt_end) : option TxResult := match e with Stored r => Some r | Abandoned _ => None end.

(** The callback on a slot: a new incarnation, then its end. *)
Definition run_attempt (capture : bool) (s : resultSlot) (e : attempt_end) : resultSlot :=
  let '(s, (incarnation, _)) := beginExecution s in
  match e with
  | Stored r => store s incarnation r capture
  | Abandoned units => abandon s incarnation units capture
  end.

Definition run_attempts (capture : bool) (es : list attempt_end) : resultSlot :=
  foldl (run_attempt capture) newSlot es.

Lemma run_attempts_snoc capture es e :
  run_attempts capture (es ++ [e]) = run_attempt capture (run_attempts capture es) e.
Proof. unfold run_attempts. by rewrite foldl_app. Qed.

Lemma charge_next units n v : n = Z.of_nat (length units) → charge units n v = units ++ [v].
Proof.
  intros ->. unfold charge. replace (Z.to_nat _ - _)%nat with 1%nat by lia.
  rewrite Nat2Z.id. cbn. by rewrite <- (Nat.add_0_r (length units)), insert_app_r.
Qed.

(** The state of a slot after its attempts. *)
Record slot_of (capture : bool) (es : list attempt_end) (s : resultSlot) : Prop := {
  so_executions : sl_executions s = Z.of_nat (length es);
  so_abandoned : sl_abandoned s = default false (is_abandoned <$> last es);
  so_load : load s = match last (omap stored_result es) with Some r => (r, true) | None => (zeroTxResult, false) end;
  so_units : sl_attemptUnits s = if capture then attempt_units <$> es else [];
}.

Lemma run_attempts_slot capture es :
  Z.of_nat (length es) < W64 → slot_of capture es (run_attempts capture es).
Proof.
  induction es as [|e es IH] using rev_ind; intros Hl; [by destruct capture|].
  rewrite length_app in Hl. cbn in Hl. destruct IH as [He _ Hr Hu]; [lia|]. rewrite run_attempts_snoc.
  assert (u64 (sl_executions (run_attempts capture es) + 1) = Z.of_nat (length (es ++ [e]))) as Hn.
  { rewrite He, length_app. cbn. rewrite u64_id; [lia|]. unfold u64_range. lia. }
  assert (charge (attempt_units <$> es) (sl_executions (run_attempts capture es)) (attempt_units e) =
    attempt_units <$> (es ++ [e])) as Hc.
  { rewrite fmap_app. apply charge_next. by rewrite length_fmap. }
  unfold run_attempt, beginExecution.
  destruct e as [r|units]; split; cbn [sl_executions sl_abandoned sl_attemptUnits store abandon].
  - done.
  - by rewrite last_snoc.
  - unfold load. cbn [sl_result sl_ready]. rewrite omap_app. cbn. by rewrite last_snoc.
  - rewrite Hu. destruct capture; [exact Hc|done].
  - done.
  - by rewrite last_snoc.
  - unfold load in *. cbn. rewrite omap_app. cbn. by rewrite app_nil_r.
  - rewrite Hu. destruct capture; [exact Hc|done].
Qed.

Lemma work_spec es s :
  slot_of true es s → Z.of_nat (length es) < W64 →
  wk_ExecutionAttempts (work s) = Z.of_nat (length es) ∧
  wk_ReexecutionAttempts (work s) = Z.of_nat (length es - 1) ∧
  wk_UsefulExecutionUnits (work s) = default 0 (attempt_units <$> last es) ∧
  wk_ReexecutedExecutionUnits (work s) = u64 (total (attempt_units <$> take (length es - 1) es)) ∧
  wk_DiscardedExecutionUnits (work s) = wk_ReexecutedExecutionUnits (work s).
Proof.
  intros [_ _ _ Hu] Hl. unfold work. rewrite Hu, fmap_last, length_fmap. cbn [fmap option_fmap option_map].
  destruct (last es) as [e|] eqn:E; cbn [fmap option_fmap option_map].
  - assert (0 < length es)%nat by (destruct es; [done|cbn; lia]).
    cbn [set_attempts wk_ExecutionAttempts wk_ReexecutionAttempts wk_UsefulExecutionUnits
         wk_ReexecutedExecutionUnits wk_DiscardedExecutionUnits].
    rewrite !u64_id by (unfold u64_range; lia). split; [done|]. split; [lia|]. split; [done|].
    split; [|done]. rewrite (foldl_u64 (λ sum units, u64 (sum + units)) (λ sum, sum) (λ units, units)) by done. by rewrite Z.add_0_l, list_fmap_id, fmap_take.
  - apply last_None in E as ->. done.
Qed.

Lemma foldl_add_spec (slots : list resultSlot) acc :
  let f := foldl addWorkCounters acc (work <$> slots) in
  (∀ g : WorkCounters → Z,
     (∀ t s, g (addWorkCounters t s) = u64 (g t + g s)) → u64_range (g acc) →
     g f = u64 (g acc + total (g ∘ work <$> slots))) ∧
  (∀ A (g : WorkCounters → A), (∀ t s, g (addWorkCounters t s) = g t) → g f = g acc).
Proof.
  cbv zeta. split.
  - intros g Hg Hacc. rewrite (foldl_u64 _ g g) by done. by rewrite <- list_fmap_compose.
  - intros A g Hg. by apply foldl_keeps.
Qed.

Lemma work_conserves es s :
  slot_of true es s → Z.of_nat (length es) < W64 →
  u64 (wk_UsefulExecutionUnits (work s) + wk_DiscardedExecutionUnits (work s)) = u64 (total (attempt_units <$> es)).
Proof.
  intros Hs Hl. destruct (work_spec es s Hs Hl) as (_ & _ & Eu & Er & Ed). rewrite Ed, Er, Eu.
  unfold u64. rewrite Zplus_mod_idemp_r. f_equal.
  destruct es as [|e es] using rev_ind; [done|]. rewrite last_snoc, length_app. cbn [fmap option_fmap option_map length default].
  replace (length es + 1 - 1)%nat with (length es) by lia. rewrite take_app_length, fmap_app, total_app.
  unfold total. cbn. lia.
Qed.

(** The slots of a block with the given attempts. *)
Definition block_work (capture : bool) (attempts : list (list attempt_end)) : WorkCounters :=
  foldl addWorkCounters zeroWorkCounters (work <$> (run_attempts capture <$> attempts)).

Definition bounded (attempts : list (list attempt_end)) : Prop :=
  ∀ es, es ∈ attempts → Z.of_nat (length es) < W64.

Lemma block_counter g (h : list attempt_end → Z) attempts :
  (∀ t s, g (addWorkCounters t s) = u64 (g t + g s)) → g zeroWorkCounters = 0 →
  (∀ es, es ∈ attempts → g (work (run_attempts true es)) = h es) →
  g (block_work true attempts) = u64 (total (h <$> attempts)).
Proof.
  intros Hg H0 Hh. unfold block_work.
  destruct (foldl_add_spec (run_attempts true <$> attempts) zeroWorkCounters) as [Hadd _].
  rewrite (Hadd g Hg) by by rewrite H0. rewrite H0, Z.add_0_l. f_equal. f_equal.
  rewrite <- list_fmap_compose. apply list_fmap_ext. intros i es Hi. apply Hh. by eapply list_elem_of_lookup_2.
Qed.

Lemma total_conserves attempts :
  bounded attempts →
  u64 (u64 (total ((λ es, wk_UsefulExecutionUnits (work (run_attempts true es))) <$> attempts)) +
       u64 (total ((λ es, wk_DiscardedExecutionUnits (work (run_attempts true es))) <$> attempts))) =
  u64 (total ((λ es, total (attempt_units <$> es)) <$> attempts)).
Proof.
  unfold u64. rewrite <- Zplus_mod. induction attempts as [|es l IH]; intros Hb; [done|]. unfold total. cbn.
  fold (total ((λ es, wk_UsefulExecutionUnits (work (run_attempts true es))) <$> l)).
  fold (total ((λ es, wk_DiscardedExecutionUnits (work (run_attempts true es))) <$> l)).
  fold (total ((λ es, total (attempt_units <$> es)) <$> l)).
  assert (Z.of_nat (length es) < W64) as Hes by (apply Hb; by left).
  pose proof (work_conserves es _ (run_attempts_slot true es Hes) Hes) as Hc. unfold u64 in Hc.
  specialize (IH ltac:(intros ? ?; apply Hb; by right)).
  match goal with |- (?a + ?x + (?b + ?y)) mod _ = (?c + ?z) mod _ =>
    replace (a + x + (b + y)) with ((a + b) + (x + y)) by lia;
    rewrite (Zplus_mod (a + b)), Hc, IH, <- Zplus_mod end. done.
Qed.

Lemma block_work_off attempts : bounded attempts → block_work false attempts = zeroWorkCounters.
Proof.
  unfold block_work. induction attempts as [|es l IH]; intros Hb; [done|]. cbn.
  assert (work (run_attempts false es) = zeroWorkCounters) as ->.
  { unfold work. rewrite (so_units _ _ _ (run_attempts_slot false es ltac:(apply Hb; by left))). done. }
  apply IH. intros ? ?. apply Hb. by right.
Qed.

(** What the last of the attempts spent, and what the others did. *)
Definition last_units (es : list attempt_end) : Z := default 0 (attempt_units <$> last es).
Definition other_units (es : list attempt_end) : Z := total (attempt_units <$> take (length es - 1) es).

Lemma u64_total {A} (f : A → Z) l : u64 (total ((λ a, u64 (f a)) <$> l)) = u64 (total (f <$> l)).
Proof.
  unfold total. induction l as [|a l IH]; [done|]. cbn. unfold u64 in *.
  rewrite Zplus_mod, IH, Zmod_mod, <- Zplus_mod. done.
Qed.

(** C26: The work counters account for every attempt.  A slot numbers its
    attempts from zero, tells a new one whether the last was abandoned,
    keeps the last stored result (an abandoned attempt does not replace it),
    and, when work is captured, the units of every attempt, abandoned ones
    included; over all slots the attempts add up to the number made, the useful
    units to those of each transaction's last attempt, and the discarded units,
    which are the reexecuted ones, to those of all the attempts before it, so
    that the two make all the units spent (modulo 2^64, as the counters wrap);
    without capture everything stays zero. *)
Theorem work_accounting capture (attempts : list (list attempt_end)) :
  bounded attempts →
  let w := block_work capture attempts in
  Forall (λ es, let s := run_attempts capture es in
    (beginExecution s).2 = (Z.of_nat (length es), default false (is_abandoned <$> last es)) ∧
    load s = match last (omap stored_result es) with Some r => (r, true) | None => (zeroTxResult, false) end)
    attempts ∧
  (capture = true →
     wk_ExecutionAttempts w = u64 (total ((λ es, Z.of_nat (length es)) <$> attempts)) ∧
     wk_ReexecutionAttempts w = u64 (total ((λ es, Z.of_nat (length es - 1)) <$> attempts)) ∧
     wk_UsefulExecutionUnits w = u64 (total (last_units <$> attempts)) ∧
     wk_DiscardedExecutionUnits w = u64 (total (other_units <$> attempts)) ∧
     wk_ReexecutedExecutionUnits w = wk_DiscardedExecutionUnits w ∧
     u64 (wk_UsefulExecutionUnits w + wk_DiscardedExecutionUnits w) =
       u64 (total ((λ es, total (attempt_units <$> es)) <$> attempts))) ∧
  (capture = false → w = zeroWorkCounters).
Proof.
  intros Hb. cbv zeta. split; [|split].
  - apply Forall_forall. intros es Hin. destruct (run_attempts_slot capture es (Hb es Hin)) as [He Ha Hr _].
    split; [|done]. unfold beginExecution. cbn. by rewrite He, Ha.
  - intros ->.
    assert (∀ es, es ∈ attempts → slot_of true es (run_attempts true es) ∧ Z.of_nat (length es) < W64) as Hes.
    { intros es Hin. split; [apply run_attempts_slot|]; by apply Hb. }
    assert (wk_DiscardedExecutionUnits (block_work true attempts) = u64 (total (other_units <$> attempts))) as Hd.
    { rewrite <- u64_total. apply block_counter; [done..|]. intros es Hin. destruct (Hes es Hin) as [Hs Hl].
      destruct (work_spec es _ Hs Hl) as (_ & _ & _ & Er & ->). exact Er. }
    split_and!.
    + apply block_counter; [done..|]. intros es Hin. destruct (Hes es Hin) as [Hs Hl]. by destruct (work_spec es _ Hs Hl) as (? & ? & _).
    + apply block_counter; [done..|]. intros es Hin. destruct (Hes es Hin) as [Hs Hl]. by destruct (work_spec es _ Hs Hl) as (? & ? & _).
    + apply block_counter; [done..|]. intros es Hin. destruct (Hes es Hin) as [Hs Hl]. by destruct (work_spec es _ Hs Hl) as (_ & _ & ? & _).
    + done.
    + rewrite Hd, <- u64_total. apply block_counter; [done..|]. intros es Hin. destruct (Hes es Hin) as [Hs Hl].
      by destruct (work_spec es _ Hs Hl) as (_ & _ & _ & ? & _).
    + rewrite (block_counter wk_UsefulExecutionUnits _ attempts ltac:(done) eq_refl (λ es _, eq_refl)).
      rewrite (block_counter wk_DiscardedExecutionUnits _ attempts ltac:(done) eq_refl (λ es _, eq_refl)).
      by apply total_conserves.
  - intros ->. by apply block_work_off.
Qed.

(** One transaction is abandoned once, another is stored twice. *)
Definition sample_stored (units : Z) : attempt_end :=
  Stored (MkTxResult 0 "t" TxStatusSuccess [] "" units 0 [] [] []).

Lemma work_accounting_witness :
  let w := block_work true [[Abandoned 3; sample_stored 5]; [sample_stored 2; sample_stored 4]] in
  wk_ExecutionAttempts w = 4 ∧ wk_UsefulExecutionUnits w = 9 ∧ wk_DiscardedExecutionUnits w = 5.
Proof.
  destruct (work_accounting true [[Abandoned 3; sample_stored 5]; [sample_stored 2; sample_stored 4]])
    as (_ & H & _).
  - intros es Hin. rewrite !elem_of_cons, elem_of_nil in Hin. by destruct Hin as [->|[->|[]]].
  - destruct (H eq_refl) as (E1 & _ & E2 & E3 & _). split; [rewrite E1|split; [rewrite E2|rewrite E3]]; vm_compute; reflexivity.
Defined.
