(* ===== verification/Engine.v ===== *)
(** * internal/engine/blockstm/engine.go: the Block-STM engine

    What [ExecuteBlock] does before the kernel runs, the callback the kernel
    calls for every attempt of a transaction, and what it does with the
    kernel's outcome.  The callback gets a store of the kernel, whose reads
    change it and may panic; it is one section per call here, since all it
    shares with other callbacks (slots, dispatcher, first error, context) is
    behind locks and the order in which they are taken does not matter to the
    facts below. *)

From Stdlib Require Import ZArith Lia String.
From S2P Require Import Prelude Utils BTree Types MemDB Prog Model Canonical State Runtime Plan Control Dispatcher Serial Admission KernelPolicy Dependency Adapter Accounting.
Local Open Scope Z_scope.

Definition bs_engineName : string := "blockstm".

(** ** The adapter over a store of the kernel *)

Class KernelStore (W : Type) := {
  ks_Get : W → Bytes → outcome (W * value);
  ks_Set : W → Bytes → value → outcome W;
  ks_Delete : W → Bytes → outcome W;
}.

Section framed.
Context {W : Type} `{!KernelStore W}.

(** [framedState] as the base of an overlay. *)
#[export] Instance framed_base : Base W := λ w key,
  '(w, encoded) ← ks_Get w key; Returns (w, unframe encoded).

Definition framed_Set (w : W) (key v : Bytes) : outcome W := ks_Set w key (Some (encodeValue v)).
Definition framed_Delete (w : W) (key : Bytes) : outcome W := ks_Delete w key.

(** [view.CommitTo(adapter)] *)
Definition framed_change (w : W) (change : StateChange) : outcome W :=
  if sc_Delete change then framed_Delete w (sc_Key change) else framed_Set w (sc_Key change) (sc_Value change).
Definition framed_CommitTo (o : Overlay W) (w : W) : outcome W := foldM framed_change w (Changes o).
End framed.

(** ** The callback *)

Inductive callback_error :=
| InvalidIndex (index : Z)
| WaitError
| CallbackError (e : engine_error).

Section callback.
Context {T W : Type} `{!KernelStore W}.

(** What the callbacks of a block share. *)
Record shared := MkShared {
  sh_slots : list resultSlot;
  sh_dispatcher : Dispatcher T;
  sh_errors : option callback_error;
  sh_ctx : context;
}.

Definition put_slot (st : shared) (index : Z) (s : resultSlot) : shared :=
  MkShared (<[Z.to_nat index := s]> (sh_slots st)) (sh_dispatcher st) (sh_errors st) (sh_ctx st).
Definition put_dispatcher (st : shared) (d : Dispatcher T) : shared :=
  MkShared (sh_slots st) d (sh_errors st) (sh_ctx st).
Definition put_context (st : shared) (ctx : context) : shared :=
  MkShared (sh_slots st) (sh_dispatcher st) (sh_errors st) ctx.

(** How a call ends: the shared state, what became of the kernel's store, and
    whether the dependency controller was told the transaction is complete. *)
Record callback_end := MkCallbackEnd {
  ce_shared : shared;
  ce_store : outcome W;
  ce_completed : bool;
}.

(** [executionErrors.set(err); cancel(); return] *)
Definition stop_block (st : shared) (w : W) (e : callback_error) : callback_end :=
  MkCallbackEnd (MkShared (sh_slots st) (sh_dispatcher st) (errors_set (sh_errors st) (Some e)) (Some O))
    (Returns w) false.

(** A call on the policy, which may panic or not come back. *)
Definition with_policy {A} (st : shared) (call : outcome (Dispatcher T * A))
    (k : shared → A → callback_end) : callback_end :=
  match call with
  | Returns (d, a) => k (put_dispatcher st d) a
  | Panics => MkCallbackEnd st Panics false
  | Waits => MkCallbackEnd st Waits false
  end.

(** The part under the deferred [recover]. *)
Definition run_and_commit (block : Block) (capture : bool) (index incarnation : Z) (slot : resultSlot)
    (tx : Transaction) (w : W) (st : shared) : callback_end :=
  let context_at ordinal := MkTxContext (b_ID block) (tx_ID tx) index incarnation ordinal in
  let abandoned (st : shared) (units : Z) (how : outcome W) :=
    MkCallbackEnd (put_slot st index (abandon slot incarnation units capture)) how false in
  match ExecuteWithHooks dispatcher_hooks (sh_ctx st) (context_at 3) tx (NewOverlay w) (sh_dispatcher st) with
  | (m, Unwound) =>
      abandoned (put_context (put_dispatcher st (m_hooks m)) (m_ctx m)) (UnitsUsed (m_result m)) Panics
  | (m, Blocked) => MkCallbackEnd (put_context (put_dispatcher st (m_hooks m)) (m_ctx m)) Waits false
  | (m, Finished) =>
      let st := put_context (put_dispatcher st (m_hooks m)) (m_ctx m) in
      match disp_OnValidationPoint (sh_dispatcher st)
              (MkValidationContext (context_at (maxUint64 - 1)) ValidationTxEnd (tx_ID tx)) with
      | Panics => abandoned st 0 Panics
      | Waits => MkCallbackEnd st Waits false
      | Returns (d, _) =>
          let st := put_dispatcher st d in
          match Err d with
          | Some e => stop_block st (ov_base (m_view m)) (CallbackError (Serial.PolicyError e))
          | None =>
              let committed := if (tr_Status (m_result m) =? TxStatusSuccess)%string
                               then framed_CommitTo (m_view m) (ov_base (m_view m))
                               else Returns (ov_base (m_view m)) in
              match committed with
              | Panics => abandoned st 0 Panics
              | Waits => MkCallbackEnd st Waits false
              | Returns w => MkCallbackEnd (put_slot st index (store slot incarnation (m_result m) capture)) (Returns w) true
              end
          end
      end
  end.

(** [waited] is the error of the dependency controller's wait, if any. *)
Definition txExecutor (block : Block) (capture : bool) (waited : bool) (index : Z) (w : W) (st : shared) : callback_end :=
  match at_index (Transactions block) index, at_index (sh_slots st) index with
  | Some tx, Some slot =>
      if waited then stop_block st w WaitError else
      let '(slot, (incarnation, afterAbandon)) := beginExecution slot in
      let st := put_slot st index slot in
      let context_at incarnation ordinal := MkTxContext (b_ID block) (tx_ID tx) index incarnation ordinal in
      let announced :=
        if 0 <? incarnation then
          '(d, _) ← (if negb afterAbandon
                     then disp_OnValidationFail (sh_dispatcher st)
                            (MkFailureContext (context_at (incarnation - 1) maxUint64) "read_set_changed")
                     else Returns (sh_dispatcher st, ""%string));
          disp_OnReplayStart d (MkReplayContext (context_at incarnation 1)
            (if afterAbandon then "estimate_dependency_abort" else "blockstm_reexecution"))
        else Returns (sh_dispatcher st, ""%string) in
      with_policy st announced (λ st _,
      with_policy st (disp_OnTxReady (sh_dispatcher st) (context_at incarnation 2)) (λ st lane,
      if negb (lane =? LaneOptimistic)%string
      then stop_block st w (CallbackError (Unsupported EventTxReady lane)) else
      with_policy st (disp_OnTaskReady (sh_dispatcher st) (MkTaskContext (context_at incarnation 3) "execution"))
        (λ st _,
      match Err (sh_dispatcher st) with
      | Some e => stop_block st w (CallbackError (Serial.PolicyError e))
      | None => run_and_commit block capture index incarnation slot tx w st
      end)))
  | _, _ => stop_block st w (InvalidIndex index)
  end.
End callback.
Arguments shared : clear implicits.
Arguments callback_end : clear implicits.

(** ** Before the kernel runs *)

(** The checks of the arguments, in their order, up to the dispatcher. *)
Definition engine_checks (ctx : context) (block : Block) (storage : option Store) (config : EngineConfig) :
    engine_error + (context * DependencyPlan * KernelPlan * string * option AnyPolicy) :=
  match ValidateBlockAndState block storage with
  | Some e => inl e
  | None =>
      if ec_Executors config <? 0 then inl ErrInvalidWorkers
      else if ec_MaxSpeculativeInflight config <? 0 then inl ErrInvalidSpeculationLimit
      else match EffectiveDependencyControl (ec_Control config) with
      | inl e => inl (PlanError e)
      | inr plan =>
          match EffectiveKernelControl (ec_Control config) plan with
          | inl e => inl (PlanError e)
          | inr kernelPlan =>
              let '(ctx, stop) := poll ctx in
              if (stop : bool) then inl ContextError else
              let selected := match ec_Policy config with
                              | None => Some (MkAnyPolicy unit (preset_policy NewBlockSTMPreset) tt)
                              | Some p => p
                              end in
              match EffectiveTraceMode config with
              | inl e => inl e
              | inr traceMode => inr (ctx, plan, kernelPlan, traceMode, selected)
              end
          end
      end
  end.

(** Admission: every transaction must be put in the optimistic lane. *)
Fixpoint admission_loop {T} (block : Block) (index : Z) (txs : list Transaction) (d : Dispatcher T) :
    outcome (Dispatcher T * option engine_error) :=
  match txs with
  | [] => Returns (d, None)
  | tx :: txs =>
      '(d, lane) ← disp_OnTxAdmit d (MkTxContext (b_ID block) (tx_ID tx) index 0 0);
      if negb (lane =? LaneOptimistic)%string then Returns (d, Some (Unsupported EventTxAdmit lane))
      else admission_loop block (index + 1) txs d
  end.

Section engine.
Context {BT : BTreeLib}.

(** What the kernel is started with. *)
Record start (T : Type) := MkStart {
  st_shared : shared T;
  st_storage : GMemDB value;
  st_dependency : dependencyPreparation;
}.
Arguments MkStart {_} _ _ _.

(** From the new dispatcher to the call of the kernel. *)
Definition engine_start {T} (ctx : context) (block : Block) (storage : Store) (config : EngineConfig)
    (plan : DependencyPlan) (kernelPlan : KernelPlan) (d : Dispatcher T) :
    outcome (Dispatcher T * (engine_error + start T)) :=
  '(d, _) ← disp_OnEpochStart d (MkEpochContext (EpochID config block));
  '(d, _) ← disp_OnBlockReady d
     (MkBlockContext (b_ID block) (b_Height block) (Z.of_nat (length (Transactions block))));
  '(d, refused) ← admission_loop block 0 (Transactions block) d;
  match refused, Err d with
  | Some e, _ => Returns (d, inl e)
  | None, Some e => Returns (d, inl (Serial.PolicyError e))
  | None, None =>
      match FromEntries (Snapshot storage) with
      | None => Returns (d, inl ErrDuplicateKey)
      | Some initial =>
          kernelStorage ← newKernelStorage (Snapshot initial);
          match prepareDependency ctx block plan kernelPlan 0 with
          | (_, None) => Returns (d, inl ContextError)
          | (ctx, Some dependency) =>
              let slots := replicate (length (Transactions block)) newSlot in
              Returns (d, inr (MkStart (MkShared slots d None ctx) kernelStorage dependency))
          end
      end
  end.

(** ** After the kernel has returned *)

(** How [ExecuteBlock] ends after the kernel. *)
Inductive finish_error :=
| ExecutionError (e : callback_error)
| KernelError
| EngineError (e : engine_error)
| NoFinalResult (index : Z)
| ErrInvalidValueFrame.

(** The results of the slots; [cancelled] is what [ctx.Err()] says at the first
    cancelled one. *)
Fixpoint collect_results (cancelled : bool) (index : Z) (slots : list resultSlot) : finish_error + list TxResult :=
  match slots with
  | [] => inr []
  | s :: slots =>
      let '(result, ready) := load s in
      if negb ready then inl (NoFinalResult index)
      else if (tr_Status result =? TxStatusCancelled)%string
      then inl (EngineError (if cancelled then ContextError else Canceled))
      else match collect_results cancelled (index + 1) slots with
      | inl e => inl e
      | inr results => inr (result :: results)
      end
  end.

Definition engine_work (traceMode : string) (speculation : SpeculationStats) (stats : KernelPolicyStats)
    (kernelPlan : KernelPlan) (slots : list resultSlot) (dependency : Z → Z → DependencyCounters) : WorkCounters :=
  let w := MkWorkCounters 0 0 0 0 0 (EffectiveLimit speculation) (LimitApplied speculation)
             (TelemetryAvailable speculation) (PeakInflight speculation) (AdmissionStallEvents speculation)
             (AdmissionStallNS speculation) zeroDependencyCounters (kernelPolicyCounters kernelPlan stats) in
  let w := foldl addWorkCounters w (work <$> slots) in
  MkWorkCounters (wk_ExecutionAttempts w) (wk_ReexecutionAttempts w) (wk_UsefulExecutionUnits w)
    (wk_ReexecutedExecutionUnits w) (wk_DiscardedExecutionUnits w) (wk_SpeculationLimit w)
    (wk_SpeculationLimitApplied w) (wk_SpeculationTelemetryAvailable w) (wk_PeakSpeculativeInflight w)
    (wk_AdmissionStallEvents w) (wk_AdmissionStallNS w)
    (dependency (wk_ReexecutionAttempts w) (wk_ReexecutedExecutionUnits w)) (wk_KernelPolicy w).

(** What the call returns, with the store it leaves. *)
Record engine_end := MkEngineEnd {
  en_storage : option Store;
  en_result : BlockResult;
  en_trace : Trace;
  en_err : option finish_error;
}.

(** The kernel returned with the error [kernelErr], if any, having left
    [kernelStorage]; [work] are the work counters. *)
Definition engine_finish {T} (sha256_hex : Bytes → string) (block : Block) (config : EngineConfig)
    (traceMode : string) (storage : Store) (cancelled kernelErr : bool) (st : shared T)
    (kernelStorage : GMemDB value) (work : WorkCounters) : outcome engine_end :=
  let trace := Dispatcher_Trace (sh_dispatcher st) bs_engineName in
  let fail e := Returns (MkEngineEnd (Some storage) zeroBlockResult trace (Some e)) in
  match sh_errors st with
  | Some e => fail (ExecutionError e)
  | None =>
      if (kernelErr : bool) then fail KernelError else
      match Err (sh_dispatcher st) with
      | Some e => fail (EngineError (Serial.PolicyError e))
      | None =>
          match collect_results cancelled 0 (sh_slots st) with
          | inl e => fail e
          | inr results =>
              snapshot ← snapshotKernelStorage kernelStorage;
              match snapshot with
              | None => fail ErrInvalidValueFrame
              | Some final =>
                  let result := MkBlockResult (b_ID block) (b_Height block) results final "" in
                  let result := if ec_OmitResultDigest config then result
                                else MkBlockResult (b_ID block) (b_Height block) results final
                                       (CanonicalDigest sha256_hex result) in
                  match Replace storage final with
                  | None => fail (EngineError ErrDuplicateKey)
                  | Some published =>
                      let trace := if negb (traceMode =? TraceOff)%string then with_work trace work else trace in
                      Returns (MkEngineEnd (Some published) result trace None)
                  end
              end
          end
      end
  end.
(** ** The call *)

(** What the kernel leaves of the start it was given: the shared state, the
    storage, its error, its statistics, what [ctx.Err()] says by then and what
    the dependency controller has counted. *)
Record kernel_end (T : Type) := MkKernelEnd {
  ke_shared : shared T;
  ke_storage : GMemDB value;
  ke_cancelled : bool;
  ke_err : bool;
  ke_speculation : SpeculationStats;
  ke_stats : KernelPolicyStats;
  ke_dependency : Z → Z → DependencyCounters;
}.

(** [kernel] is [kernel.ExecuteBlockWithKernelPolicy] with the callback. *)
Definition bs_run {T} (sha256_hex : Bytes → string) (block : Block) (storage : Store) (config : EngineConfig)
    (ctx : context) (plan : DependencyPlan) (kernelPlan : KernelPlan) (traceMode : string) (d : Dispatcher T)
    (kernel : start T → outcome (kernel_end T)) : outcome engine_end :=
  '(d, started) ← engine_start ctx block storage config plan kernelPlan d;
  match started with
  | inl e => Returns (MkEngineEnd (Some storage) zeroBlockResult (Dispatcher_Trace d bs_engineName) (Some (EngineError e)))
  | inr st =>
      k ← kernel st;
      engine_finish sha256_hex block config traceMode storage (ke_cancelled _ k) (ke_err _ k) (ke_shared _ k)
        (ke_storage _ k)
        (engine_work traceMode (ke_speculation _ k) (ke_stats _ k) kernelPlan (sh_slots (ke_shared _ k))
           (ke_dependency _ k))
  end.

Definition bs_ExecuteBlock (sha256_hex : Bytes → string) (ctx : context) (block : Block) (storage : option Store)
    (config : EngineConfig) (clock : list Z) (kernel : ∀ T, start T → outcome (kernel_end T)) : outcome engine_end :=
  let refuse e := Returns (MkEngineEnd storage zeroBlockResult (empty_trace bs_engineName) (Some (EngineError e))) in
  match engine_checks ctx block storage config, storage with
  | inl e, _ => refuse e
  | inr _, None => refuse ErrNilState
  | inr (ctx, plan, kernelPlan, traceMode, selected), Some store =>
      match selected with
      | None => refuse (Serial.PolicyError PolicyIsNil)
      | Some (MkAnyPolicy T p s) =>
          match NewDispatcherWithTrace (Some (p, s)) traceMode clock with
          | inl e => refuse (Serial.PolicyError e)
          | inr d => bs_run sha256_hex block store config ctx plan kernelPlan traceMode d (kernel T)
          end
      end
  end.
End engine.
Arguments MkStart {_ _} _ _ _.
Arguments MkKernelEnd {_ _} _ _ _ _ _ _ _.
Arguments ke_shared {_ _} _.
Arguments ke_storage {_ _} _.
Arguments ke_cancelled {_ _} _.
Arguments ke_err {_ _} _.
Arguments ke_speculation {_ _} _.
Arguments ke_stats {_ _} _.
Arguments ke_dependency {_ _} _.
Arguments st_shared {_ _} _.
Arguments st_storage {_ _} _.
Arguments st_dependency {_ _} _.

(** ** Capabilities *)

Definition blockstm_supported : list string :=
  [EventEpochStart; EventBlockReady; EventTxAdmit; EventTxReady; EventTaskReady; EventBranch;
   EventBeforeRead; EventBeforeWrite; EventTxEnd; EventValidationFail; EventReplayStart].

Definition blockstm_reason (event : string) : string :=
  if (event =? EventReadEstimate)%string || (event =? EventConflict)%string
  then "frozen TxExecutor API does not expose internal MVMemory read/validation callbacks"
  else if (event =? EventWorkerIdle)%string || (event =? EventQueuePressure)%string
  then "frozen scheduler does not expose worker or queue callbacks"
  else if (event =? EventRetryLimit)%string then "frozen scheduler has no retry-limit callback"
  else "event requires nested runtime or an explicit validation point".

(** An error panics. *)
Definition blockSTMCapabilities : outcome Capabilities :=
  let supported := supported_map blockstm_supported in
  match NewCapabilities bs_engineName supported (reasons_map supported blockstm_reason) with
  | inl _ => Panics
  | inr capabilities => Returns capabilities
  end.
