(* ===== verification/Serializable.v ===== *)
(** * A Block-STM block is equivalent to the serial one

    The transaction callback runs over a view of the multi-version memory that
    changes under it.  If, at the end, the read set of each transaction's last
    attempt is valid and the memory holds exactly what those attempts wrote,
    then results and state are those of the serial execution. *)

From Stdlib Require Import ZArith Lia String.
From stdpp Require Import sorting.
From S2P Require Import Prelude Utils BTree BTreeIterator Types MemDB MVData MVDataFacts MVValidate MVProps MVView Model Canonical State Runtime Plan Control Dispatcher Serial Admission Dependency Adapter Accounting Engine.
Local Open Scope Z_scope.

(** ** A view of a memory that changes *)

Section live.
Context {BT : BTreeLib} {St : Type} `{!KVStore St value}.
Abbreviation data := (GMVData value).

(** The view of one attempt, the memory as it is now, and what the other
    transactions do to it before each of the following reads and, in
    [lv_wait], while the view waits for one of them. *)
Record live_view := MkLive {
  lv_view : GMVMemoryView value St;
  lv_data : data;
  lv_others : list (data → data);
  lv_wait : Z → data → data;
  lv_fuel : nat;
}.

Definition set_view (w : live_view) (s : GMVMemoryView value St) : live_view :=
  MkLive s (lv_data w) (lv_others w) (lv_wait w) (lv_fuel w).

#[export] Instance live_store : KernelStore live_view := {|
  ks_Get w key :=
    let now := default id (head (lv_others w)) (lv_data w) in
    '(s, now, v) ← view_Get (lv_wait w) (lv_fuel w) (lv_view w) now key;
    Returns (MkLive s now (tail (lv_others w)) (lv_wait w) (lv_fuel w), v);
  ks_Set w key v := s ← view_Set BytesIsZero (lv_view w) key v; Returns (set_view w s);
  ks_Delete w key := Returns (set_view w (view_Delete (lv_view w) key));
|}.

(** [NewMVView] at the start of an attempt. *)
Definition fresh (w : live_view) (storage : St) (txn : Z) : Prop :=
  ∃ store, lv_view w = NewGMVMemoryView store storage txn.
End live.
Arguments live_view {_} _.

(** ** What an attempt has read *)

Section attempt.
Context {BT : BTreeLib} {BL : BTreeLaws} {St : Type} `{!KVStore St value}.
Context (storage : St) (txn : Z).
Abbreviation data := (GMVData value).

(** The value each incarnation of each transaction wrote for each key: an
    incarnation records its writes once. *)
Context (written : TxnVersion → Bytes → value).

Definition consistent (m : data) : Prop :=
  mv_wf m ∧ ∀ key e, e ∈ entries m key →
    0 <= s_Index e ∧ (s_Estimate e = false → s_Value e = written (secondary_Version e) key).

(** The other transactions keep the memory consistent. *)
Definition others_consistent (w : live_view St) : Prop :=
  consistent (lv_data w) ∧
  (∀ f m, f ∈ lv_others w → consistent m → consistent (f m)) ∧
  (∀ blocker m, consistent m → consistent (lv_wait w blocker m)).

(** The value of a version, the stored one for the invalid version. *)
Definition value_at (version : TxnVersion) (key : Bytes) : value :=
  if version_Valid version then written version key else kv_Get storage key.

Lemma Read_consistent m key v version :
  consistent m → Read m key txn = Returns (v, version, false) →
  (if version_Valid version then v else kv_Get storage key) = value_at version key ∧
  visible m storage txn key = value_at version key.
Proof.
  intros [Hwf Hm] E. rewrite Read_answer in E by done. unfold visible, value_at.
  destruct (txn =? 0); [injection E as <- <-; done|].
  destruct (closest (entries m key) txn) as [e|] eqn:Ec; [|injection E as <- <-; done].
  apply closest_spec in Ec as (Hin & _); [|by apply entries_sorted].
  destruct (Hm key e Hin) as [_ Hv]. cbn in E. injection E as <- <- Ee. rewrite (Hv Ee).
  by destruct (version_Valid _).
Qed.

Lemma read_loop_consistent wait fuel s m key s' m' v :
  (∀ blocker m, consistent m → consistent (wait blocker m)) → v_txn s = txn → v_storage s = storage →
  consistent m → read_loop wait fuel s m key = Returns (s', m', v) →
  ∃ version, s' = add_read s (MkRead key version) ∧ v = value_at version key ∧ consistent m'.
Proof.
  intros Hw Ht Hs. revert m. induction fuel as [|fuel IH]; intros m Hm; cbn [read_loop]; [done|].
  rewrite Ht. destruct (Read m key txn) as [[[v0 version] []]| |] eqn:E; cbn; [by apply IH, Hw| |done..].
  destruct (Read_consistent m key v0 version Hm E) as [Ev _]. rewrite Hs.
  destruct (version_Valid version) eqn:Evv; cbn; intros [= <- <- <-]; exists version;
    by (split; [done|]).
Qed.

(** The kernel's read set follows the answers given to the interpreter. *)
Record followed (l : Runtime.logged (live_view St)) : Prop := {
  fo_writes : v_writeSet (lv_view (lg_base l)) = None;
  fo_txn : v_txn (lv_view (lg_base l)) = txn;
  fo_storage : v_storage (lv_view (lg_base l)) = storage;
  fo_iterators : rs_Iterators (v_readSet (lv_view (lg_base l))) = [];
  fo_others : others_consistent (lg_base l);
  fo_reads : Forall2 (λ '(key, v) r, rd_Key r = key ∧ v = unframe (value_at (rd_Version r) key))
               (lg_log l) (rs_Reads (v_readSet (lv_view (lg_base l))));
}.

Lemma followed_Get l l' key v :
  followed l → base_Get l key = Returns (l', v) → followed l'.
Proof.
  intros [H1 H2 H3 H4 (Hd & Ho & Hw) H6]. unfold base_Get, logged_base, base_Get, framed_base. cbn.
  set (now := default id (head (lv_others (lg_base l))) (lv_data (lg_base l))).
  assert (consistent now) as Hnow.
  { unfold now. destruct (lv_others (lg_base l)) as [|f fs]; [done|]. cbn. apply Ho; [by left|done]. }
  unfold view_Get. rewrite H1.
  destruct (read_loop _ _ _ _ _) as [[[s m] v0]| |] eqn:E; cbn; [|done..]. intros [= <- <-].
  eapply read_loop_consistent in E as (version & -> & -> & Hm); [|done..].
  split; cbn; try done.
  - split; [done|]. split; [|done]. intros f m' Hf. apply Ho. destruct (lv_others (lg_base l)); [done|]. by right.
  - apply Forall2_app; [done|]. by repeat constructor.
Qed.

Lemma followed_fresh w : fresh w storage txn → others_consistent w → followed (MkLogged w []).
Proof. intros [store E] Ho. split; cbn; by rewrite ?E. Qed.

(** The same run over a base that keeps its answers. *)
Lemma attempt_logged {H} (hooks : RuntimeHooks H) ctx execution tx w h m :
  fresh w storage txn → others_consistent w →
  ExecuteWithHooks hooks ctx execution tx (NewOverlay w) h = (m, Finished) →
  ∃ l, ExecuteWithHooks hooks ctx execution tx (NewOverlay (MkLogged w [])) h = (rebase l m, Finished) ∧
    lg_base l = ov_base (m_view m) ∧ followed l.
Proof.
  intros Hf Ho E.
  destruct (ExecuteWithHooks_same hooks (λ b l, b = lg_base l ∧ followed l) ctx execution tx w (MkLogged w []) h)
    as [[E1 [E2 Hl]] Ec].
  - intros b l key [-> Hl]. unfold alike. destruct (base_Get l key) as [[l' v]| |] eqn:Eg.
    + pose proof (followed_Get l l' key v Hl Eg) as Hl'. unfold base_Get at 1, logged_base in Eg.
      destruct (base_Get (lg_base l) key) as [[b v']| |]; [|done..]. by injection Eg as <- <-.
    + unfold base_Get at 1, logged_base in Eg. by destruct (base_Get (lg_base l) key) as [[b v']| |].
    + unfold base_Get at 1, logged_base in Eg. by destruct (base_Get (lg_base l) key) as [[b v']| |].
  - split; [done|]. by apply followed_fresh.
  - rewrite E in E1, E2, Ec. cbn in E1, E2, Ec.
    destruct (ExecuteWithHooks hooks ctx execution tx (NewOverlay (MkLogged w [])) h) as [m' c]. cbn in *. subst c.
    exists (ov_base (m_view m')). split; [|by split]. f_equal. rewrite E1. by destruct m' as [? ? [? ?] ? ? ? ?].
Qed.

(** The keys a valid read set lists read now as they did. *)
Lemma validated_answers fuel d l :
  consistent d → followed l → (length (Scan (outer d)) < fuel)%nat →
  ValidateReadSet fuel d txn (v_readSet (lv_view (lg_base l))) = Returns true →
  ∀ key v, (key, v) ∈ lg_log l → v = unframe (visible d storage txn key).
Proof.
  intros Hd Hl Hf E key v Hin. unfold ValidateReadSet in E. rewrite validate_reads_spec in E by apply Hd. cbn in E.
  destruct (forallb _ _) eqn:Eb; [|done]. rewrite forallb_forall in Eb.
  apply list_elem_of_lookup in Hin as [i Hi].
  destruct (Forall2_lookup_l _ _ _ _ _ (fo_reads l Hl) Hi) as (r & Hr & <- & ->).
  apply list_elem_of_lookup_2, list_elem_of_In in Hr. specialize (Eb r Hr). cbn in Eb.
  destruct (Read d (rd_Key r) txn) as [[[v version] estimate]| |] eqn:Er; [|done..].
  apply andb_prop in Eb as [->%negb_true_iff ->%bool_decide_eq_true].
  by destruct (Read_consistent d (rd_Key r) v (rd_Version r) Hd Er) as [_ ->].
Qed.

(** *** What an attempt leaves to publish *)

(** The pending write of a view. *)
Definition pending (s : GMVMemoryView value St) (key : Bytes) : option value :=
  match v_writeSet s with
  | None => None
  | Some ws => let '(v, found) := OverlayGet ws key in if (found : bool) then Some v else None
  end.

Lemma pending_write (s : GMVMemoryView value St) key v k :
  view_wf s → pending (set_writeSet s (OverlaySet (init_writeSet s) key v)) k =
    if decide (k = key) then Some v else pending s k.
Proof.
  intros Hwf. destruct (init_writeSet_wf s Hwf) as [Hi Hs]. unfold pending. cbn [v_writeSet set_writeSet].
  rewrite OverlayGet_Set by done. case_decide; [done|]. destruct Hs as [->|[-> ->]]; [done|].
  unfold OverlayGet, NewGMemDB. by rewrite Get_Scan, Scan_new.
Qed.

(** A framed value, as it is published. *)
Definition framed (change : StateChange) : value :=
  if sc_Delete change then None else Some (encodeValue (sc_Value change)).

(** Everything but the write set. *)
Definition same_reads (w w' : live_view St) : Prop :=
  v_readSet (lv_view w') = v_readSet (lv_view w) ∧ lv_data w' = lv_data w.

Lemma framed_change_spec (w : live_view St) change :
  view_wf (lv_view w) →
  ∃ w', framed_change w change = Returns w' ∧ view_wf (lv_view w') ∧ same_reads w w' ∧
    ∀ k, pending (lv_view w') k = if decide (k = sc_Key change) then Some (framed change) else pending (lv_view w) k.
Proof.
  intros Hwf. unfold framed_change, framed.
  assert (∀ v, view_wf (set_writeSet (lv_view w) (OverlaySet (init_writeSet (lv_view w)) (sc_Key change) v))) as Hw.
  { intros v. apply OverlaySet_wf, init_writeSet_wf, Hwf. }
  destruct (sc_Delete change); eexists; (split; [reflexivity|]); (split; [apply Hw|]); (split; [done|]);
    intros k; by apply pending_write.
Qed.

Lemma framed_changes_spec changes (w : live_view St) :
  view_wf (lv_view w) → NoDup (sc_Key <$> changes) →
  ∃ w', foldM framed_change w changes = Returns w' ∧ view_wf (lv_view w') ∧ same_reads w w' ∧
    ∀ k, pending (lv_view w') k =
      match findb (λ c, bool_decide (sc_Key c = k)) changes with
      | Some c => Some (framed c)
      | None => pending (lv_view w) k
      end.
Proof.
  revert w. induction changes as [|c changes IH]; intros w Hwf; cbn [foldM findb fmap list_fmap].
  { intros _. by exists w. }
  intros [Hc Hnd]%NoDup_cons. destruct (framed_change_spec w c Hwf) as (w1 & -> & Hwf1 & [Hr1 Hd1] & Hp1).
  cbn [mbind outcome_bind]. destruct (IH w1 Hwf1 Hnd) as (w2 & -> & Hwf2 & [Hr2 Hd2] & Hp2). exists w2.
  split; [done|]. split; [done|]. split; [split; congruence|]. intros k. rewrite Hp2, Hp1.
  destruct (findb _ changes) as [c'|] eqn:E.
  - apply findb_Some in E as [Hin Ek%bool_decide_eq_true]. rewrite bool_decide_eq_false_2; [done|].
    intros Ek'. apply Hc. rewrite Ek', <- Ek. by apply list_elem_of_fmap_2.
  - case_bool_decide; case_decide; congruence.
Qed.

(** Committing an overlay over an attempt that wrote nothing yet. *)
Lemma framed_CommitTo_spec {B} (o : Overlay B) (w : live_view St) :
  v_writeSet (lv_view w) = None → overlay_wf o →
  ∃ w', foldM framed_change w (Changes o) = Returns w' ∧ same_reads w w' ∧
    ∀ k, pending (lv_view w') k = (λ p, if ov_deleted p then None else Some (encodeValue (ov_value p))) <$> ov_writes o !! k.
Proof.
  intros Hn Ho. destruct (framed_changes_spec (Changes o) w) as (w' & E & _ & Hs & Hp).
  - unfold view_wf. by rewrite Hn.
  - by apply Changes_keys.
  - exists w'. split; [exact E|]. split; [exact Hs|]. intros k. rewrite Hp, Changes_find by done.
    destruct (ov_writes o !! k); [done|]. cbn. unfold pending. by rewrite Hn.
Qed.
End attempt.

(** ** A completed call of the callback *)

Section completed.
Context {T W : Type} `{!KernelStore W}.

(** The execution behind a completed call, from the view [w] to [w']. *)
Definition completed_run (block : Block) (index : Z) (tx : Transaction) (w w' : W) (r : TxResult) : Prop :=
  ∃ (d : Dispatcher T) ctx incarnation m,
    ExecuteWithHooks dispatcher_hooks ctx (MkTxContext (b_ID block) (tx_ID tx) index incarnation 3) tx
      (NewOverlay w) d = (m, Finished) ∧
    r = m_result m ∧
    (if (tr_Status r =? TxStatusSuccess)%string then framed_CommitTo (m_view m) (ov_base (m_view m))
     else Returns (ov_base (m_view m))) = Returns w'.

Lemma run_and_commit_completed block capture index incarnation slot tx (w : W) (st : shared T) :
  0 <= index < Z.of_nat (length (sh_slots st)) →
  ce_completed (run_and_commit block capture index incarnation slot tx w st) = true →
  ∃ w' r slot', ce_store (run_and_commit block capture index incarnation slot tx w st) = Returns w' ∧
    completed_run block index tx w w' r ∧
    at_index (sh_slots (ce_shared (run_and_commit block capture index incarnation slot tx w st))) index = Some slot' ∧
    load slot' = (r, true).
Proof.
  intros Hi. unfold run_and_commit. cbv zeta.
  destruct (ExecuteWithHooks _ _ _ _ _ _) as [m []] eqn:E; [|done..].
  destruct (disp_OnValidationPoint _ _) as [[d ?]| |]; [|done..].
  destruct (Err d); [done|].
  destruct (if (_ =? _)%string then _ else _) as [w'| |] eqn:Ec; [|done..]. intros _.
  exists w', (m_result m), (store slot incarnation (m_result m) capture). split; [done|].
  split; [by repeat eexists|]. split; [|done]. cbn. rewrite at_index_insert by lia. by rewrite decide_True.
Qed.

Lemma with_policy_completed {A} (st : shared T) (call : outcome (Dispatcher T * A)) k :
  ce_completed (with_policy st call k : callback_end T W) = true →
  ∃ d a, call = Returns (d, a) ∧ with_policy st call k = k (put_dispatcher st d) a.
Proof. destruct call as [[d a]| |]; [by repeat eexists|done..]. Qed.

Lemma txExecutor_completed block capture waited index (w : W) (st : shared T) :
  ce_completed (txExecutor block capture waited index w st) = true →
  ∃ tx w' r slot, at_index (Transactions block) index = Some tx ∧
    ce_store (txExecutor block capture waited index w st) = Returns w' ∧
    completed_run block index tx w w' r ∧
    at_index (sh_slots (ce_shared (txExecutor block capture waited index w st))) index = Some slot ∧
    load slot = (r, true).
Proof.
  unfold txExecutor. destruct (at_index (Transactions block) index) as [tx|] eqn:Et; [|done].
  destruct (at_index (sh_slots st) index) as [slot|] eqn:Es; [|done]. destruct waited; [done|].
  destruct (beginExecution slot) as [slot' [incarnation afterAbandon]]. cbv zeta.
  intros Hc. pose proof Hc as Hc'. apply with_policy_completed in Hc' as (d1 & ? & E1 & R1). rewrite R1 in *.
  pose proof Hc as Hc'. apply with_policy_completed in Hc' as (d2 & lane & E2 & R2). rewrite R2 in *.
  destruct (negb _); [done|].
  pose proof Hc as Hc'. apply with_policy_completed in Hc' as (d3 & ? & E3 & R3). rewrite R3 in *.
  destruct (Err _); [done|]. clear R1 R2 R3.
  apply run_and_commit_completed in Hc as (w' & r & slot'' & ? & ? & ? & ?); [by exists tx, w', r, slot''|].
  cbn. rewrite length_insert. by apply at_index_Some in Es.
Qed.
End completed.

(** ** One transaction *)

Lemma index_unique (l : list (secondaryDataItem value)) e e' :
  StronglySorted (below secondaryLesser) l → e ∈ l → e' ∈ l → s_Index e = s_Index e' → e = e'.
Proof.
  intros Hl He He' E. apply (findb_sorted secondaryLesser) in He, He'; [|done..].
  rewrite <- (findb_ext (same secondaryLesser e)) in He'; [congruence|].
  intros x. by rewrite !same_txn, E.
Qed.

(** The entry of a transaction is what the next one sees. *)
Lemma closest_next (l : list (secondaryDataItem value)) i e :
  StronglySorted (below secondaryLesser) l → e ∈ l → s_Index e = i → closest l (i + 1) = Some e.
Proof.
  intros Hl He <-. apply closest_spec; [done|]. split; [done|]. split; [lia|].
  intros e' He' Hlt. destruct (decide (s_Index e' = s_Index e)) as [E|]; [|right; lia].
  left. by apply (index_unique l).
Qed.

Lemma closest_skip (l : list (secondaryDataItem value)) i :
  (∀ e, e ∈ l → s_Index e ≠ i) → closest l (i + 1) = closest l i.
Proof.
  intros H. unfold closest. f_equal. apply filter_ext_in. intros e He. specialize (H e He). lia.
Qed.

Section block.
Context {BT : BTreeLib} {BL : BTreeLaws} {St : Type} `{!KVStore St value}.
Context (block : Block) (storage : St) (d : GMVData value) (written : TxnVersion → Bytes → value).

(** The memory at the end: estimate-free, and written by transactions of the block only. *)
Record settled : Prop := {
  se_consistent : consistent written d;
  se_entries : ∀ key e, e ∈ entries d key →
    s_Estimate e = false ∧ s_Index e < Z.of_nat (length (Transactions block));
}.

(** [d] holds, for a transaction, exactly what a view published. *)
Definition published (index : Z) (s : GMVMemoryView value St) : Prop :=
  ∀ key, match pending s key with
         | Some v => ∃ e, e ∈ entries d key ∧ s_Index e = index ∧ s_Value e = v
         | None => ∀ e, e ∈ entries d key → s_Index e ≠ index
         end.

(** The last attempt of a transaction ran the callback to its end on a view of
    the changing memory, its read set is valid, and its writes are published. *)
Definition last_attempt (index : Z) (r : TxResult) : Prop :=
  ∃ (T : Type) (w w' : live_view St) (capture waited : bool) (st : shared T) slot fuel,
    fresh w storage index ∧ others_consistent written w ∧
    ce_completed (txExecutor block capture waited index w st) = true ∧
    ce_store (txExecutor block capture waited index w st) = Returns w' ∧
    at_index (sh_slots (ce_shared (txExecutor block capture waited index w st))) index = Some slot ∧
    load slot = (r, true) ∧
    (length (Scan (outer d)) < fuel)%nat ∧
    ValidateReadSet fuel d index (v_readSet (lv_view w')) = Returns true ∧
    published index (lv_view w').

(** What transaction [index] sees is the framed state [s]. *)
Definition sees (index : Z) (s : Store) : Prop := ∀ key, visible d storage index key = encodeValue <$> st_Get s key.

Context (Hd : settled).

Lemma visible_next index (s : GMVMemoryView value St) key :
  0 <= index → published index s →
  visible d storage (index + 1) key = default (visible d storage index key) (pending s key).
Proof.
  intros Hi Hp. destruct (se_consistent Hd) as [Hwf Hv]. unfold visible at 1.
  rewrite (proj2 (Z.eqb_neq _ _)) by lia. specialize (Hp key). destruct (pending s key) as [v|].
  - destruct Hp as (e & He & Hei & <-). rewrite (closest_next _ index e) by (done || by apply entries_sorted).
    unfold version_Valid. cbn. by rewrite (proj2 (Z.leb_le _ _)) by lia.
  - rewrite closest_skip by done. unfold visible. cbn. destruct (Z.eqb_spec index 0) as [->|]; [|done].
    rewrite (proj2 (closest_None _ _)); [done|]. intros e He. by apply (Hv key).
Qed.

(** A completed, valid run is the run on the state its transaction sees. *)
Lemma valid_run {T} index tx (w w' : live_view St) r s fuel :
  fresh w storage index → others_consistent written w →
  completed_run (T:=T) block index tx w w' r → tr_Status r ≠ TxStatusCancelled →
  (length (Scan (outer d)) < fuel)%nat →
  ValidateReadSet fuel d index (v_readSet (lv_view w')) = Returns true →
  sees index s →
  m_result (run_tx block index tx s) = r ∧
  ∀ k, pending (lv_view w') k =
    if (tr_Status r =? TxStatusSuccess)%string
    then (λ p, if ov_deleted p then None else Some (encodeValue (ov_value p))) <$> ov_writes (m_view (run_tx block index tx s)) !! k
    else None.
Proof.
  intros Hf Ho (dd & ctx & incarnation & m & E & -> & Ec) Hc Hfuel Hv Hs.
  destruct (attempt_logged storage index written _ _ _ _ _ _ _ Hf Ho E) as (l & El & Eb & Hl).
  pose proof (ExecuteWithHooks_keyed dispatcher_hooks ctx (MkTxContext (b_ID block) (tx_ID tx) index incarnation 3) tx w dd) as Hk.
  rewrite E in Hk. unfold keyed in Hk. cbn in Hk.
  assert (same_reads (lg_base l) w' ∧ ∀ k, pending (lv_view w') k =
    if (tr_Status (m_result m) =? TxStatusSuccess)%string
    then (λ p, if ov_deleted p then None else Some (encodeValue (ov_value p))) <$> ov_writes (m_view m) !! k
    else None) as [[Hr _] Hp].
  { rewrite <- Eb in Ec. destruct (_ =? _)%string.
    - destruct (framed_CommitTo_spec (m_view m) (lg_base l)) as (w1 & E1 & Hs1 & Hp1); [by apply Hl|done|].
      unfold framed_CommitTo in Ec. rewrite E1 in Ec. by injection Ec as <-.
    - injection Ec as <-. split; [done|]. intros k. unfold pending. by rewrite (fo_writes _ _ _ _ Hl). }
  rewrite Hr in Hv.
  eapply (ExecuteWithHooks_replay _ _ _ _ _ _ _ (st_Reader s)) in El.
  2:{ intros key v Hin. unfold st_Reader. f_equal.
      rewrite (validated_answers storage index written fuel d l (se_consistent Hd) Hl Hfuel Hv key v Hin).
      by rewrite Hs, unframe_encode. }
  eapply (ExecuteWithHooks_strip _ _ _ (txContext block index tx 2)) in El as [o Eo]; [|done|done].
  unfold run_tx. rewrite Eo. done.
Qed.

Lemma last_attempt_step index tx r s :
  at_index (Transactions block) index = Some tx → last_attempt index r → tr_Status r ≠ TxStatusCancelled →
  sees index s →
  m_result (run_tx block index tx s) = r ∧ sees (index + 1) (apply_tx (run_tx block index tx s) s).
Proof.
  intros Htx (T & w & w' & capture & waited & st & slot & fuel & Hf & Ho & Hce & Hst & Hslot & Hload & Hfuel & Hv & Hp) Hc Hs.
  apply txExecutor_completed in Hce as (tx' & w'' & r' & slot' & Htx' & Hst' & Hrun & Hslot' & Hload').
  assert (tx' = tx) as -> by congruence. assert (w'' = w') as -> by congruence. assert (r' = r) as -> by congruence.
  destruct (valid_run index tx w w' r s fuel Hf Ho Hrun Hc Hfuel Hv Hs) as [Hr Hpend]. split; [done|].
  intros key. rewrite (visible_next index (lv_view w')) by (done || by apply at_index_nonneg in Htx).
  rewrite Hpend, Hs. unfold apply_tx. rewrite Hr. destruct (_ =? _)%string; [|done].
  rewrite CommitTo_Get.
  - destruct (ov_writes _ !! key) as [p|]; [|done]. cbn. by destruct (ov_deleted p).
  - apply ExecuteWithHooks_keyed.
Qed.

(** ** The block *)

Lemma run_block_attempts index txs s results :
  0 <= index → (∀ i, at_index txs i = at_index (Transactions block) (index + i) ∨ i < 0) → sees index s →
  Forall2 (λ tx r, True) txs results →
  (∀ i r, at_index results i = Some r → tr_Status r ≠ TxStatusCancelled ∧ last_attempt (index + i) r) →
  (run_block block index txs s).2 = results ∧
  sees (index + Z.of_nat (length txs)) (run_block block index txs s).1.
Proof.
  revert index s results. induction txs as [|tx txs IH]; intros index s results Hi Htx Hs Hlen Hr.
  { apply Forall2_nil_inv_l in Hlen as ->. by rewrite Z.add_0_r. }
  apply Forall2_cons_inv_l in Hlen as (r & rs & _ & Hlen & ->). cbn [run_block].
  destruct (Hr 0 r eq_refl) as [Hc Hl]. rewrite Z.add_0_r in Hl.
  assert (at_index (Transactions block) index = Some tx) as Htx0.
  { destruct (Htx 0) as [E|]; [|lia]. rewrite Z.add_0_r in E. by rewrite <- E. }
  destruct (last_attempt_step index tx r s Htx0 Hl Hc Hs) as [Er Hs'].
  specialize (IH (index + 1) (apply_tx (run_tx block index tx s) s) rs).
  assert (∀ A (x : A) l i, 0 <= i → at_index l i = at_index (x :: l) (1 + i)) as Hcons.
  { intros A x l i H0. unfold at_index. rewrite !(proj2 (Z.leb_le _ _)) by lia.
    by replace (Z.to_nat (1 + i)) with (S (Z.to_nat i)) by lia. }
  destruct (run_block block (index + 1) txs _) as [final results']. cbn [fst snd] in *.
  destruct IH as [<- Hs'']; [lia| |done|done| |].
  - intros i. destruct (Z.lt_ge_cases i 0); [by right|]. left. rewrite (Hcons _ tx) by done.
    destruct (Htx (1 + i)) as [->|]; [|lia]. f_equal. lia.
  - intros i r' E. pose proof (at_index_nonneg _ _ _ E). rewrite (Hcons _ r) in E by done.
    replace (index + 1 + i) with (index + (1 + i)) by lia. by apply Hr.
  - split; [by rewrite Er|]. cbn [length]. by replace (index + Z.of_nat (S (length txs))) with (index + 1 + Z.of_nat (length txs)) by lia.
Qed.
End block.

(** ** The end of the block *)

Section ends.
Context {BT : BTreeLib} {BL : BTreeLaws} {T : Type}.
#[local] Existing Instance kernel_store.
#[local] Existing Instance kernel_store_laws.

Lemma sees_start (block : Block) kernelStorage d written (s : Store) :
  settled block d written → represents db_ok kernelStorage s → sees kernelStorage d 0 s.
Proof. intros _ [_ Hg] key. unfold visible. cbn. apply Hg. Qed.

(** The memory written back to the store of a settled block. *)
Lemma SnapshotToStore_settled (block : Block) kernelStorage d written (s s' : Store) :
  settled block d written → represents db_ok kernelStorage s →
  sees kernelStorage d (Z.of_nat (length (Transactions block))) s' →
  ∃ final, SnapshotToStore BytesIsZero d kernelStorage = Returns final ∧ represents db_ok final s'.
Proof.
  intros [[Hwf Hv] He] [Hok Hg] Hs.
  destruct (SnapshotToStore_last BytesIsZero db_ok d kernelStorage Hwf Hok) as (final & E & Hok' & Hf).
  exists final. split; [exact E|]. split; [exact Hok'|]. intros key. rewrite Hf, <- Hs. unfold visible.
  set (n := Z.of_nat (length (Transactions block))).
  assert (closest (entries d key) n = last (entries d key)) as <-.
  { unfold closest. f_equal. apply filter_all. intros e Hin. destruct (He key e Hin). lia. }
  assert ((if n =? 0 then None else closest (entries d key) n) = closest (entries d key) n) as ->.
  { destruct (Z.eqb_spec n 0) as [->|]; [|done]. symmetry. apply closest_None. intros e Hin. by apply (Hv key). }
  destruct (closest (entries d key) n) as [e|] eqn:Ec; [|done].
  apply closest_spec in Ec as (Hin & _); [|by apply entries_sorted].
  destruct (He key e Hin) as [-> _]. destruct (Hv key e Hin) as [Hi _].
  unfold version_Valid. cbn. rewrite (proj2 (Z.leb_le _ _)) by lia. by destruct (s_Value e).
Qed.

Lemma collect_results_ready cancelled index slots :
  (∀ slot, slot ∈ slots → sl_ready slot = true ∧ tr_Status (sl_result slot) ≠ TxStatusCancelled) →
  collect_results cancelled index slots = inr (sl_result <$> slots).
Proof.
  revert index. induction slots as [|slot slots IH]; intros index H; cbn [collect_results]; [done|].
  destruct (H slot) as [Hr Hc]; [by left|]. unfold load. rewrite Hr. cbn [negb].
  destruct (String.eqb_spec (tr_Status (sl_result slot)) TxStatusCancelled); [done|].
  rewrite IH; [done|]. intros. apply H. by right.
Qed.

Lemma collect_results_inr cancelled index slots results :
  collect_results cancelled index slots = inr results →
  results = sl_result <$> slots ∧
  ∀ slot, slot ∈ slots → sl_ready slot = true ∧ tr_Status (sl_result slot) ≠ TxStatusCancelled.
Proof.
  revert index results. induction slots as [|slot slots IH]; intros index results; cbn [collect_results].
  { intros [= <-]. split; [done|]. by intros slot ?%elem_of_nil. }
  unfold load. destruct (sl_ready slot) eqn:Er; cbn [negb]; [|done].
  destruct (String.eqb_spec (tr_Status (sl_result slot)) TxStatusCancelled) as [|Hc]; [done|].
  destruct (collect_results cancelled (index + 1) slots) as [|rs] eqn:E; [done|]. intros [= <-].
  apply IH in E as [-> Hs]. split; [done|]. intros slot' [->|Hin]%elem_of_cons; [done|by apply Hs].
Qed.

(** The kernel returned without an error, and no attempt met one. *)
Record kernel_done (block : Block) (kernelStorage : GMemDB value) (d : GMVData value)
    (written : TxnVersion → Bytes → value) (st : shared T) : Prop := {
  kd_settled : settled block d written;
  kd_errors : sh_errors st = None;
  kd_dispatcher : Err (sh_dispatcher st) = None;
  kd_slots : length (sh_slots st) = length (Transactions block);
  kd_attempts : ∀ i slot, at_index (sh_slots st) i = Some slot →
    sl_ready slot = true ∧ tr_Status (sl_result slot) ≠ TxStatusCancelled ∧
    last_attempt block kernelStorage d written i (sl_result slot);
}.

Lemma kernel_done_serial block kernelStorage d written st (storage : Store) :
  kernel_done block kernelStorage d written st → represents db_ok kernelStorage storage →
  (run_block block 0 (Transactions block) storage).2 = sl_result <$> sh_slots st ∧
  sees kernelStorage d (Z.of_nat (length (Transactions block))) (run_block block 0 (Transactions block) storage).1.
Proof.
  intros Hk Hrep. apply (run_block_attempts block kernelStorage d written (kd_settled _ _ _ _ _ Hk) 0).
  - done.
  - intros i. left. by rewrite Z.add_0_l.
  - by eapply sees_start; [apply Hk|].
  - apply Forall2_same_length_lookup_2; [by rewrite length_fmap, (kd_slots _ _ _ _ _ Hk)|done].
  - intros i r E. rewrite Z.add_0_l. unfold at_index in E. destruct (0 <=? i) eqn:Ei; [|done].
    apply list_lookup_fmap_Some in E as (slot & -> & E).
    destruct (kd_attempts _ _ _ _ _ Hk i slot) as (_ & Hc & Hl); [unfold at_index; by rewrite Ei|done].
Qed.

(** How [engine_finish] ends. *)
Lemma engine_finish_end sha256_hex block config traceMode storage cancelled kernelErr
    (st : shared T) kernelStorage work run :
  engine_finish sha256_hex block config traceMode storage cancelled kernelErr st kernelStorage work = Returns run →
  (en_err run ≠ None ∧ en_storage run = Some storage ∧ en_result run = zeroBlockResult) ∨
  en_err run = None ∧ sh_errors st = None ∧ kernelErr = false ∧ Err (sh_dispatcher st) = None ∧
    br_Transactions (en_result run) = sl_result <$> sh_slots st ∧
    (∀ slot, slot ∈ sh_slots st → sl_ready slot = true ∧ tr_Status (sl_result slot) ≠ TxStatusCancelled) ∧
    snapshotKernelStorage kernelStorage = Returns (Some (FinalState (en_result run))) ∧
    ∃ published, en_storage run = Some published ∧ FromEntries (FinalState (en_result run)) = Some published.
Proof.
  unfold engine_finish. destruct (sh_errors st); [intros [= <-]; by left|].
  destruct kernelErr; [intros [= <-]; by left|]. destruct (Err _); [intros [= <-]; by left|].
  destruct (collect_results cancelled 0 (sh_slots st)) as [e|results] eqn:Er; [intros [= <-]; by left|].
  apply collect_results_inr in Er as [-> Hslots].
  destruct (snapshotKernelStorage kernelStorage) as [[final|]| |]; cbn [mbind outcome_bind]; [|intros [= <-]; by left|done..].
  unfold Replace. destruct (FromEntries final) as [[published]|] eqn:Ef; cbn; [|intros [= <-]; by left].
  intros [= <-]. right. destruct (ec_OmitResultDigest config); cbn; (do 7 (split; [done|])); by eexists.
Qed.

Lemma engine_finish_serial sha256_hex block config traceMode storage kernelStorage cancelled d written
    (st : shared T) work :
  newKernelStorage (Snapshot storage) = Returns kernelStorage →
  kernel_done block kernelStorage d written st →
  ∃ final trace,
    SnapshotToStore BytesIsZero d kernelStorage = Returns final ∧
    engine_finish sha256_hex block config traceMode storage cancelled false st final work =
      Returns (MkEngineEnd (Some (serial_result sha256_hex config block storage).1)
                 (serial_result sha256_hex config block storage).2 trace None).
Proof.
  intros Hnew Hk. destruct (newKernelStorage_holds storage) as (ks & E & Hrep).
  rewrite Hnew in E. injection E as <-.
  destruct (kernel_done_serial _ _ _ _ _ _ Hk Hrep) as [Hres Hsees].
  destruct (SnapshotToStore_settled _ _ _ _ _ _ (kd_settled _ _ _ _ _ Hk) Hrep Hsees) as (final & Ef & Hf).
  exists final. unfold engine_finish, serial_result. rewrite (kd_errors _ _ _ _ _ Hk), (kd_dispatcher _ _ _ _ _ Hk).
  rewrite collect_results_ready.
  2:{ intros slot (i & Hi)%list_elem_of_lookup. destruct (kd_attempts _ _ _ _ _ Hk (Z.of_nat i) slot) as (? & ? & _); [|done].
      unfold at_index. rewrite (proj2 (Z.leb_le _ _)) by lia. by rewrite Nat2Z.id. }
  rewrite <- Hres, (snapshotKernelStorage_holds final _ Hf).
  destruct (run_block block 0 (Transactions block) storage) as [s results]. cbn [fst snd mbind outcome_bind].
  rewrite Replace_Snapshot. destruct (ec_OmitResultDigest config); eexists; (split; [exact Ef|reflexivity]).
Qed.

Lemma engine_start_storage ctx block storage config plan kernelPlan (d d' : Dispatcher T) st :
  engine_start ctx block storage config plan kernelPlan d = Returns (d', inr st) →
  newKernelStorage (Snapshot storage) = Returns (st_storage st).
Proof.
  unfold engine_start. destruct (disp_OnEpochStart _ _) as [[d1 ?]| |]; cbn [mbind outcome_bind]; [|done..].
  destruct (disp_OnBlockReady _ _) as [[d2 ?]| |]; cbn [mbind outcome_bind]; [|done..].
  destruct (admission_loop _ _ _ _) as [[d3 [e|]]| |]; cbn [mbind outcome_bind]; [done| |done..].
  destruct (Err d3); [done|]. rewrite FromEntries_Snapshot.
  destruct (newKernelStorage (Snapshot storage)) as [ks| |]; cbn [mbind outcome_bind]; [|done..].
  destruct (prepareDependency _ _ _ _ _) as [ctx' [dependency|]]; [|done]. by intros [= <- <-].
Qed.

(** What the engine relies on: without an error of its own, of a callback or
    of the policy, and with a result for every transaction, the kernel has
    left [kernel_done] and has written the memory back. *)
Definition kernel_contract (block : Block) (storage : Store) (kernel : start T → outcome (kernel_end T)) : Prop :=
  ∀ st k, newKernelStorage (Snapshot storage) = Returns (st_storage st) → kernel st = Returns k →
    ke_err k = false → sh_errors (ke_shared k) = None → Err (sh_dispatcher (ke_shared k)) = None →
    (∀ slot, slot ∈ sh_slots (ke_shared k) → sl_ready slot = true ∧ tr_Status (sl_result slot) ≠ TxStatusCancelled) →
    ∃ d written, kernel_done block (st_storage st) d written (ke_shared k) ∧
      SnapshotToStore BytesIsZero d (st_storage st) = Returns (ke_storage k).
End ends.

(** ** Properties *)

Section properties.
Context {BT : BTreeLib} {BL : BTreeLaws} {T : Type}.
#[local] Existing Instance kernel_store.
#[local] Existing Instance kernel_store_laws.

(** C5: A Block-STM block is serializable.  When the kernel has returned with
    every transaction's last attempt completed, its read set valid in the
    final memory and its writes published there, the results the engine
    returns, the state it publishes, its snapshot and the digest are exactly
    those of running the transactions one after the other — whatever the
    attempts saw of each other's unfinished work, however the policy and the
    context behaved, and however often they were repeated.  (Other
    transactions may do anything to the memory between two reads as long as an
    incarnation of a transaction writes each key once.) *)
Theorem blockstm_serializable sha256_hex block config traceMode storage kernelStorage cancelled d written
    (st : shared T) work :
  newKernelStorage (Snapshot storage) = Returns kernelStorage →
  kernel_done block kernelStorage d written st →
  ∃ final trace,
    SnapshotToStore BytesIsZero d kernelStorage = Returns final ∧
    engine_finish sha256_hex block config traceMode storage cancelled false st final work =
      Returns (MkEngineEnd (Some (serial_result sha256_hex config block storage).1)
                 (serial_result sha256_hex config block storage).2 trace None).
Proof.
  apply engine_finish_serial.
Qed.

(** A call without an error publishes what the serial execution does. *)
Lemma bs_ExecuteBlock_serial sha256_hex ctx block storage config clock kernel run :
  (∀ T, kernel_contract block storage (kernel T)) →
  bs_ExecuteBlock sha256_hex ctx block (Some storage) config clock kernel = Returns run → en_err run = None →
  en_storage run = Some (serial_result sha256_hex config block storage).1 ∧
  en_result run = (serial_result sha256_hex config block storage).2.
Proof.
  intros Hk. unfold bs_ExecuteBlock.
  destruct (engine_checks _ _ _ _) as [|[[[[ctx' plan] kernelPlan] mode] selected]]; [by intros [= <-]|].
  destruct selected as [[A p s]|]; [|by intros [= <-]].
  destruct (NewDispatcherWithTrace _ _ _) as [|d]; [by intros [= <-]|]. unfold bs_run.
  destruct (engine_start _ _ _ _ _ _ _) as [[d' [e|st]]| |] eqn:Es; cbn [mbind outcome_bind]; [by intros [= <-]| |done..].
  destruct (kernel A st) as [k| |] eqn:Ek; cbn [mbind outcome_bind]; [|done..].
  apply engine_start_storage in Es. intros Hrun Herr.
  destruct (engine_finish_end _ _ _ _ _ _ _ _ _ _ _ Hrun) as [[[] _]|Hok]; [done|].
  destruct Hok as (_ & E1 & E2 & E3 & _ & Hslots & _).
  destruct (Hk A st k Es Ek E2 E1 E3 Hslots) as (m & written & Hdone & Hback).
  destruct (engine_finish_serial sha256_hex block config mode storage (st_storage st) (ke_cancelled k) m written
    (ke_shared k) (engine_work mode (ke_speculation k) (ke_stats k) kernelPlan (sh_slots (ke_shared k)) (ke_dependency k))
    Es Hdone) as (final & trace & Ef & Hf).
  rewrite Hback in Ef. injection Ef as <-. rewrite E2, Hf in Hrun. by injection Hrun as <-.
Qed.

(** C4: The Block-STM engine refines the serial reference.  Whatever policy,
    configuration, trace mode and clock it is given, however the kernel
    scheduled the attempts: a call that returns without an error has published
    exactly the state, results and digest of the serial execution.  (The kernel
    keeps its contract: without an error, the last attempts are valid in the
    memory it has written back.) *)
Theorem blockstm_refines_serial sha256_hex ctx block storage config clock kernel run :
  (∀ T, kernel_contract block storage (kernel T)) →
  bs_ExecuteBlock sha256_hex ctx block (Some storage) config clock kernel = Returns run → en_err run = None →
  en_storage run = Some (serial_result sha256_hex config block storage).1 ∧
  en_result run = (serial_result sha256_hex config block storage).2.
Proof. apply bs_ExecuteBlock_serial. Qed.

(** C20: The Block-STM engine publishes all or nothing.  A call that returns an
    error — refused arguments, a policy, a callback or the kernel failing, a
    missing or cancelled result, an invalid frame — leaves the storage it was
    given untouched and returns an empty result; a call without an error
    has a result of its own for every transaction, none of them cancelled, and
    the storage is exactly the store whose snapshot the result shows. *)
Theorem blockstm_publication_atomic sha256_hex ctx block storage config clock kernel run :
  bs_ExecuteBlock sha256_hex ctx block storage config clock kernel = Returns run →
  (en_err run ≠ None ∧ en_storage run = storage ∧ en_result run = zeroBlockResult) ∨
  (en_err run = None ∧
    (∀ r, r ∈ br_Transactions (en_result run) → tr_Status r ≠ TxStatusCancelled) ∧
    ∃ published, en_storage run = Some published ∧ FromEntries (FinalState (en_result run)) = Some published).
Proof.
  unfold bs_ExecuteBlock. destruct (engine_checks _ _ _ _) as [|[[[[ctx' plan] kernelPlan] mode] selected]]; [intros [= <-]; by left|].
  destruct storage as [storage|]; [|intros [= <-]; by left].
  destruct selected as [[A p s]|]; [|intros [= <-]; by left].
  destruct (NewDispatcherWithTrace _ _ _) as [|d]; [intros [= <-]; by left|]. unfold bs_run.
  destruct (engine_start _ _ _ _ _ _ _) as [[d' [e|st]]| |]; cbn [mbind outcome_bind]; [intros [= <-]; by left| |done..].
  destruct (kernel A st) as [k| |]; cbn [mbind outcome_bind]; [|done..].
  intros [Hfail|(H1 & _ & _ & _ & H5 & H6 & _ & H8)]%engine_finish_end; [by left|]. right.
  split; [done|]. split; [|done]. rewrite H5. intros r (slot & -> & Hin)%list_elem_of_fmap. by apply H6.
Qed.
End properties.

(** ** A block of two countdowns *)

Section witnesses.
#[local] Existing Instance ListTree.
#[local] Existing Instance ListTree_laws.
#[local] Existing Instance kernel_store.

Definition kernel_storage : GMemDB value := result (NewGMemDB value) (newKernelStorage (Snapshot New)).
Definition counter_key : Bytes := [Byte.x61].

(** What the transactions leave, and the memory before, between and after them. *)
Definition counter_value (index : Z) : value := Some (encodeValue (EncodeInt64 (4 + index))).
Definition memory0 : GMVData value := NewGMVData value.
Definition memory1 : GMVData value := result memory0 (Write memory0 counter_key (counter_value 0) (MkVersion 0 0)).
Definition memory2 : GMVData value := result memory1 (Write memory1 counter_key (counter_value 1) (MkVersion 1 0)).
Definition counter_written (version : TxnVersion) (key : Bytes) : value := counter_value (Index version).

Lemma memory1_changes : changes_entries memory0 counter_key
  (put_entry (value_entry (counter_value 0) (MkVersion 0 0))) memory1.
Proof.
  destruct (Write_changes memory0 counter_key (counter_value 0) (MkVersion 0 0) NewGMVData_wf) as (d & E & Hd).
  unfold memory1. by rewrite E.
Qed.

Lemma memory2_changes : changes_entries memory1 counter_key
  (put_entry (value_entry (counter_value 1) (MkVersion 1 0))) memory2.
Proof.
  destruct (Write_changes memory1 counter_key (counter_value 1) (MkVersion 1 0) (proj1 memory1_changes)) as (d & E & Hd).
  unfold memory2. by rewrite E.
Qed.

Lemma counter0_entries key : entries memory0 key = [].
Proof. reflexivity. Qed.

Lemma counter1_entries key :
  entries memory1 key = if decide (key = counter_key) then [value_entry (counter_value 0) (MkVersion 0 0)] else [].
Proof. destruct memory1_changes as (_ & -> & _). by rewrite !counter0_entries. Qed.

Lemma counter2_entries key :
  entries memory2 key = if decide (key = counter_key)
    then [value_entry (counter_value 0) (MkVersion 0 0); value_entry (counter_value 1) (MkVersion 1 0)] else [].
Proof.
  destruct memory2_changes as (_ & -> & _). rewrite !counter1_entries. case_decide; [|done]. by rewrite decide_True.
Qed.

Lemma memory0_consistent : consistent counter_written memory0.
Proof. split; [apply NewGMVData_wf|]. intros key e. rewrite counter0_entries. by intros ?%elem_of_nil. Qed.

Lemma memory1_consistent : consistent counter_written memory1.
Proof.
  split; [apply memory1_changes|]. intros key e. rewrite counter1_entries. case_decide; [|by intros ?%elem_of_nil].
  by intros ->%list_elem_of_singleton.
Qed.

Lemma memory2_settled : settled sample_block memory2 counter_written.
Proof.
  split; [split; [apply memory2_changes|]|]; intros key e; rewrite counter2_entries;
    (case_decide; [|by intros ?%elem_of_nil]);
    by intros [->|[->|[]%elem_of_nil]%elem_of_cons]%elem_of_cons.
Qed.

(** Transaction 1 starts on the empty memory; the first transaction publishes
    before its first read. *)
Definition view0 : live_view (GMemDB value) :=
  MkLive (NewGMVMemoryView 0 kernel_storage 0) memory0 [] (λ _ m, m) 5.
Definition view1 : live_view (GMemDB value) :=
  MkLive (NewGMVMemoryView 0 kernel_storage 1) memory0 [λ _, memory1] (λ _ m, m) 5.

Definition sample_dispatcher : Dispatcher unit :=
  ltac:(let d := eval vm_compute in (NewDispatcherWithTrace (Some (preset_policy NewBlockSTMPreset, tt)) TraceOff []) in
        match d with inr ?d => exact d end).
Definition sample_start : shared unit := MkShared [newSlot; newSlot] sample_dispatcher None background.
Definition attempt_end (index : Z) (w : live_view (GMemDB value)) (start : shared unit) :=
  txExecutor sample_block true false index w start.
Abbreviation first_end := (attempt_end 0 view0 sample_start).
Abbreviation second_end := (attempt_end 1 view1 (ce_shared first_end)).
Definition end_view (e : callback_end unit (live_view (GMemDB value))) := result view0 (ce_store e).

Lemma counter_published index (s : GMVMemoryView value (GMemDB value)) :
  index = 0 ∨ index = 1 →
  v_writeSet s = Some (OverlaySet (NewGMemDB value) counter_key (counter_value index)) →
  published (St:=GMemDB value) memory2 index s.
Proof.
  intros Hi E key. unfold pending. rewrite E, OverlayGet_Set by apply NewGMemDB_wf. rewrite counter2_entries.
  case_decide; [|by intros e ?%elem_of_nil].
  exists (value_entry (counter_value index) (MkVersion index 0)). destruct Hi as [->| ->]; set_solver.
Qed.

Lemma view0_others : others_consistent counter_written view0.
Proof.
  unfold others_consistent, view0. cbn [lv_data lv_others lv_wait]. split; [exact memory0_consistent|].
  split; [intros f m Hin; by apply elem_of_nil in Hin|done].
Qed.

Lemma view1_others : others_consistent counter_written view1.
Proof.
  unfold others_consistent, view1. cbn [lv_data lv_others lv_wait]. split; [exact memory0_consistent|].
  split; [intros f m ->%list_elem_of_singleton _; exact memory1_consistent|done].
Qed.

Definition is_returns {A} (o : outcome A) : bool := match o with Returns _ => true | _ => false end.

Lemma sample_attempt index w start slot :
  index = 0 ∨ index = 1 → fresh w kernel_storage index → others_consistent counter_written w →
  (ce_completed (attempt_end index w start), is_returns (ce_store (attempt_end index w start))) = (true, true) →
  at_index (sh_slots (ce_shared (attempt_end index w start))) index = Some slot → sl_ready slot = true →
  ValidateReadSet 5 memory2 index (v_readSet (lv_view (end_view (attempt_end index w start)))) = Returns true →
  v_writeSet (lv_view (end_view (attempt_end index w start))) =
    Some (OverlaySet (NewGMemDB value) counter_key (counter_value index)) →
  last_attempt sample_block kernel_storage memory2 counter_written index (sl_result slot).
Proof.
  intros Hi Hf Ho [= Hc Hs] Hslot Hr Hv Hw.
  exists unit, w, (end_view (attempt_end index w start)), true, false, start, slot, 5%nat.
  split; [exact Hf|]. split; [exact Ho|]. split; [exact Hc|].
  split; [unfold end_view, attempt_end in *; by destruct (ce_store _)|].
  split; [exact Hslot|]. split; [unfold load; by rewrite Hr|].
  split; [vm_compute; lia|]. split; [exact Hv|]. by apply counter_published.
Qed.

Lemma first_attempt slot :
  at_index (sh_slots (ce_shared first_end)) 0 = Some slot → sl_ready slot = true →
  last_attempt sample_block kernel_storage memory2 counter_written 0 (sl_result slot).
Proof.
  intros Hslot Hr. apply (sample_attempt 0 view0 sample_start slot).
  - by left.
  - exists 0%nat. reflexivity.
  - exact view0_others.
  - vm_compute. reflexivity.
  - exact Hslot.
  - exact Hr.
  - vm_compute. reflexivity.
  - vm_compute. reflexivity.
Qed.

Lemma second_attempt slot :
  at_index (sh_slots (ce_shared second_end)) 1 = Some slot → sl_ready slot = true →
  last_attempt sample_block kernel_storage memory2 counter_written 1 (sl_result slot).
Proof.
  intros Hslot Hr. apply (sample_attempt 1 view1 (ce_shared first_end) slot).
  - by right.
  - exists 0%nat. reflexivity.
  - exact view1_others.
  - vm_compute. reflexivity.
  - exact Hslot.
  - exact Hr.
  - vm_compute. reflexivity.
  - vm_compute. reflexivity.
Qed.

(** The slots at the end: both ready, the first as its attempt left it. *)
Lemma sample_slots : at_index (sh_slots (ce_shared second_end)) 0 = at_index (sh_slots (ce_shared first_end)) 0.
Proof. vm_compute. reflexivity. Qed.

Lemma sample_ready :
  (λ slot, (sl_ready slot, tr_Status (sl_result slot))) <$> sh_slots (ce_shared second_end) =
    [(true, TxStatusSuccess); (true, TxStatusSuccess)].
Proof. vm_compute. reflexivity. Qed.

Lemma both_ready slots slot :
  (λ slot, (sl_ready slot, tr_Status (sl_result slot))) <$> slots =
    [(true, TxStatusSuccess); (true, TxStatusSuccess)] →
  slot ∈ slots → sl_ready slot = true ∧ tr_Status (sl_result slot) = TxStatusSuccess.
Proof.
  intros E Hin. apply (list_elem_of_fmap_2 (λ slot, (sl_ready slot, tr_Status (sl_result slot)))) in Hin.
  rewrite E in Hin. apply elem_of_cons in Hin as [E'|E']; [|apply list_elem_of_singleton in E'];
    injection E' as -> ->; done.
Qed.

Lemma sample_done :
  kernel_done sample_block kernel_storage memory2 counter_written (ce_shared second_end).
Proof.
  split.
  - exact memory2_settled.
  - vm_compute. reflexivity.
  - vm_compute. reflexivity.
  - vm_compute. reflexivity.
  - intros i slot Hslot. pose proof (f_equal length sample_ready) as Hl. rewrite length_fmap in Hl.
    pose proof (at_index_Some _ _ _ Hslot) as Hi. rewrite Hl in Hi. cbn [length] in Hi.
    destruct (both_ready _ slot sample_ready (at_index_elem _ _ _ Hslot)) as [Hr Hst].
    split; [exact Hr|]. split; [rewrite Hst; discriminate|].
    assert (i = 0 ∨ i = 1) as [->| ->] by (clear - Hi; lia); [|exact (second_attempt slot Hslot Hr)].
    apply first_attempt; [|exact Hr]. rewrite <- sample_slots. exact Hslot.
Qed.

Lemma blockstm_serializable_witness :
  ∃ final run, SnapshotToStore BytesIsZero memory2 kernel_storage = Returns final ∧
    engine_finish (λ _, ""%string) sample_block default_config TraceOff New false false (ce_shared second_end) final
      zeroWorkCounters = Returns run ∧
    (UnitsUsed <$> br_Transactions (en_result run)) = [12; 3] ∧
    Snapshot <$> en_storage run = Some [MkStateEntry counter_key (EncodeInt64 5)].
Proof.
  assert (newKernelStorage (Snapshot New) = Returns kernel_storage) as Hnew by (vm_compute; reflexivity).
  destruct (blockstm_serializable (λ _, ""%string) sample_block default_config TraceOff New kernel_storage false
    memory2 counter_written (ce_shared second_end) zeroWorkCounters Hnew sample_done) as (final & trace & Hf & Hrun).
  exists final. eexists. split; [exact Hf|]. split; [exact Hrun|]. split; vm_compute; reflexivity.
Defined.

(** The slots are all that the attempts of a block leave to the engine. *)
Lemma kernel_done_slots {T T'} block ks d written (st : shared T) (d' : Dispatcher T') ctx :
  kernel_done block ks d written st → Err d' = None →
  kernel_done block ks d written (MkShared (sh_slots st) d' None ctx).
Proof. intros [H1 _ _ H4 H5] He. by split. Qed.

(** A kernel that has run the two attempts above, whatever the policy. *)
Definition leaves_slots {T} (slots : list resultSlot) (d : GMVData value) (st : start T) : outcome (kernel_end T) :=
  final ← SnapshotToStore BytesIsZero d (st_storage st);
  Returns (MkKernelEnd (MkShared slots (sh_dispatcher (st_shared st)) None background)
    final false false (MkSpeculationStats 2 false true 2 0 0) (MkPolicyStats false 0 0 0 0 0 0 0 0)
    (λ _ _, zeroDependencyCounters)).

Definition sample_kernel (T : Type) : start T → outcome (kernel_end T) :=
  leaves_slots (sh_slots (ce_shared second_end)) memory2.

Lemma leaves_slots_contract {T T'} block storage ks d written (st : shared T') :
  newKernelStorage (Snapshot storage) = Returns ks → kernel_done block ks d written st →
  kernel_contract block storage (leaves_slots (T:=T) (sh_slots st) d).
Proof.
  intros Hks Hdone start k Hst Hk _ _ He _. rewrite Hks in Hst. injection Hst as ->. exists d, written.
  unfold leaves_slots in Hk.
  destruct (SnapshotToStore BytesIsZero d (st_storage start)) as [final| |]; cbn [mbind outcome_bind] in Hk; [|done..].
  injection Hk as <-. split; [|reflexivity]. exact (kernel_done_slots _ _ _ _ _ _ _ Hdone He).
Qed.

Lemma sample_kernel_contract T : kernel_contract sample_block New (sample_kernel T).
Proof.
  apply (leaves_slots_contract sample_block New kernel_storage memory2 counter_written (ce_shared second_end)).
  - vm_compute. reflexivity.
  - exact sample_done.
Qed.

Lemma blockstm_refines_serial_witness :
  ∃ run, bs_ExecuteBlock (λ _, ""%string) background sample_block (Some New) default_config [] sample_kernel = Returns run ∧
    en_err run = None ∧ en_storage run = Some (serial_result (λ _, ""%string) default_config sample_block New).1.
Proof.
  assert (match bs_ExecuteBlock (λ _, ""%string) background sample_block (Some New) default_config [] sample_kernel with
          | Returns run => en_err run = None | _ => False end) as He by (vm_compute; reflexivity).
  destruct (bs_ExecuteBlock (λ _, ""%string) background sample_block (Some New) default_config [] sample_kernel) as [run| |] eqn:E;
    [|destruct He..].
  exists run. split; [reflexivity|]. split; [exact He|].
  apply (blockstm_refines_serial (λ _, ""%string) background sample_block New default_config [] sample_kernel run); [|exact E|exact He].
  exact sample_kernel_contract.
Defined.

(** A kernel that returns an error: nothing is published. *)
Definition failing_kernel (T : Type) (st : start T) : outcome (kernel_end T) :=
  Returns (MkKernelEnd (st_shared st) (st_storage st) false true (MkSpeculationStats 2 false true 0 0 0)
    (MkPolicyStats false 0 0 0 0 0 0 0 0) (λ _ _, zeroDependencyCounters)).

Lemma blockstm_publication_atomic_witness :
  ∃ run, bs_ExecuteBlock (λ _, ""%string) background sample_block (Some small_store) default_config [] failing_kernel = Returns run ∧
    en_err run = Some KernelError ∧ en_storage run = Some small_store.
Proof.
  assert (match bs_ExecuteBlock (λ _, ""%string) background sample_block (Some small_store) default_config [] failing_kernel with
          | Returns run => en_err run = Some KernelError | _ => False end) as He by (vm_compute; reflexivity).
  destruct (bs_ExecuteBlock (λ _, ""%string) background sample_block (Some small_store) default_config [] failing_kernel) as [run| |] eqn:E;
    [|destruct He..].
  exists run. split; [reflexivity|]. split; [exact He|].
  destruct (blockstm_publication_atomic (λ _, ""%string) background sample_block (Some small_store) default_config [] failing_kernel run E)
    as [(_ & Hs & _)|[Hn _]]; [exact Hs|]. rewrite He in Hn. discriminate.
Defined.
End witnesses.
