(* ===== verification/FrozenBlock.v ===== *)
(** * A block on the frozen kernel

    The interpreter as a transaction of [Kernel]: the callback of
    internal/engine/blockstm/engine.go with a policy that never objects, no
    dependency controller and no cancellation.  Each read that the overlay
    cannot answer is a read of the kernel's view; a successful run commits its
    changes, framed.  The theorem needs no contract of the kernel: it composes
    [kernel_serializable] with the interpreter and the state adapter. *)

From Stdlib Require Import ZArith Lia String.
From stdpp Require Import sorting.
From S2P Require Import Prelude Utils BTree BTreeIterator Types MemDB MVData MVProps MVView Prog Status Scheduler Cells Kernel KernelReach KernelSafety Model State Runtime Plan Control Dispatcher Serial Adapter Accounting.
Local Open Scope Z_scope.

(** A base that has one answer, whatever it is asked. *)
Record answer := Answer { an_value : option Bytes }.
#[export] Instance answer_base : Base answer := λ b _, Returns (b, an_value b).

Section callback.
Context (execution : TxContext) (tx : Transaction).
Abbreviation machine B := (Runtime.machine (B := B) (H := unit)).
Abbreviation step := (Runtime.step RuntimeDefaults execution tx).

(** [view.CommitTo(adapter)] *)
Fixpoint commit_changes (changes : list StateChange) (k : callback value TxResult) : callback value TxResult :=
  match changes with
  | [] => k
  | c :: changes =>
      if sc_Delete c then CDelete (sc_Key c) (commit_changes changes k)
      else CSet (sc_Key c) (Some (encodeValue (sc_Value c))) (commit_changes changes k)
  end.

Definition finish {B} (m : machine B) : callback value TxResult :=
  commit_changes (if (tr_Status (m_result m) =? TxStatusSuccess)%string then Changes (m_view m) else [])
    (CReturn (m_result m)).

(** The iteration, the machine told what the base answers. *)
Definition step_with (v : option Bytes) (m : machine answer) : step_end (B := answer) (H := unit) :=
  step (rebase (Answer v) m).
(** What the iteration asks of the base, if anything. *)
Definition asks (m : machine answer) : option Bytes :=
  fst <$> head (log_of (step (rebase (MkLogged (Answer None) []) m)).1).

(** The loop of the interpreter over a view of the kernel. *)
Fixpoint tx_loop (fuel : nat) (m : machine answer) : callback value TxResult :=
  match fuel with
  | O => finish m
  | S fuel =>
      let next (e : step_end (B := answer) (H := unit)) :=
        match e with (m, None) => tx_loop fuel m | (m, Some _) => finish m end in
      match asks m with
      | None => next (step_with None m)
      | Some key => CGet key (λ encoded, next (step_with (unframe encoded) m))
      end
  end.

(** *** An iteration asks at most once *)

Abbreviation over g m := (rebase (λ key, Returns (g key)) m : machine Reader).

Lemma dispatch_asks (g : Bytes → option Bytes) (m : machine answer) i :
  let asked := fst <$> head (log_of (Runtime.dispatch RuntimeDefaults execution tx (rebase (MkLogged (Answer None) []) m) i).1) in
  Runtime.dispatch RuntimeDefaults execution tx (over g m) i =
    rebase_end (λ key, Returns (g key))
      (Runtime.dispatch RuntimeDefaults execution tx (rebase (Answer (from_option g None asked)) m) i).
Proof.
  unfold dispatch. destruct (_ =? OpRead)%string.
  { unfold do_read, after_hook, ov_Get, log_of. cbn. destruct (ov_writes (m_view m) !! in_Key i) as [p|]; cbn.
    - by destruct (match (if ov_deleted p then None else Some (ov_value p)) with Some raw => DecodeInt64 raw | None => _ end) as [? []].
    - destruct (g (in_Key i)) as [raw|]; cbn; [|done]. by destruct (DecodeInt64 raw) as [? []]. }
  destruct (_ =? OpWrite)%string.
  { unfold do_write, after_hook. cbn. destruct (evaluateExpression _ _). by destruct (_ =? "")%string. }
  destruct (_ =? OpDelete)%string; [done|].
  destruct (_ =? OpCompute)%string.
  { unfold do_compute. cbn. by destruct (compute_loop _ _ _ _ _) as [[? ?] []]. }
  destruct (_ =? OpFailIf)%string.
  { unfold do_fail_if. cbn. destruct (evaluateCondition _ _) as [[] ?]; by destruct (_ =? "")%string. }
  destruct (_ =? OpJumpIf)%string.
  { unfold do_jump_if, after_hook. cbn. destruct (evaluateCondition _ _) as [matched ?].
    destruct (_ =? "")%string; [|done]. cbn. by destruct matched. }
  destruct (_ =? OpReturn)%string; [|done].
  unfold do_return. cbn. destruct (evaluateExpression _ _). by destruct (_ =? "")%string.
Qed.

Lemma step_asks (g : Bytes → option Bytes) (m : machine answer) :
  step (over g m) = rebase_end (λ key, Returns (g key)) (step_with (from_option g None (asks m)) m).
Proof.
  unfold step_with, asks, Runtime.step. cbn [m_pc m_ctx m_result rebase]. destruct (_ <=? m_pc m); [done|].
  destruct (poll (m_ctx m)) as [ctx []]; [done|]. cbv zeta. cbn [m_pc m_result put_ctx].
  destruct (at_index _ _) as [i|]; [|done]. destruct (instructionCost i) as [cost overflow].
  destruct (overflow || _); [done|].
  exact (dispatch_asks g (put_result (put_ctx m ctx) (set_units (m_result m) (u64 (UnitsUsed (m_result m) + cost)))) i).
Qed.

(** *** The plain run is the run over the map *)

(** The map [f] with the pending writes of [o] committed. *)
Definition committed {B} (status : string) (o : Overlay B) (f : Bytes → value) (key : Bytes) : value :=
  if (status =? TxStatusSuccess)%string then
    match ov_writes o !! key with
    | Some p => if ov_deleted p then None else Some (encodeValue (ov_value p))
    | None => f key
    end
  else f key.

Lemma commit_changes_plain changes k (f : Bytes → value) : NoDup (sc_Key <$> changes) →
  ∃ h, run_plain BytesIsZero f (commit_changes changes k) = run_plain BytesIsZero h k ∧
    ∀ key, h key = match findb (λ c, bool_decide (sc_Key c = key)) changes with
                   | Some c => if sc_Delete c then None else Some (encodeValue (sc_Value c))
                   | None => f key
                   end.
Proof.
  revert f. induction changes as [|c changes IH]; intros f; cbn [commit_changes fmap list_fmap findb]; [by exists f|].
  intros [Hc Hnd]%NoDup_cons.
  assert (∀ key c', findb (λ c, bool_decide (sc_Key c = key)) changes = Some c' → key ≠ sc_Key c) as Hne.
  { intros key c' [Hin <-%bool_decide_eq_true]%findb_Some E. apply Hc. rewrite <- E. by apply list_elem_of_fmap_2. }
  destruct (sc_Delete c) eqn:Ed; cbn [run_plain BytesIsZero];
    [destruct (IH (λ k, if decide (k = sc_Key c) then zero else f k) Hnd) as (h & -> & Hh)
    |destruct (IH (λ k, if decide (k = sc_Key c) then Some (encodeValue (sc_Value c)) else f k) Hnd) as (h & -> & Hh)];
    exists h; (split; [done|]); intros key; rewrite Hh; destruct (findb _ changes) as [c'|] eqn:E;
    try (rewrite bool_decide_eq_false_2 by (intros E'; by apply (Hne key c')); done);
    case_decide; case_bool_decide; try congruence; by rewrite Ed.
Qed.

Lemma finish_plain {B} (m : machine B) (f : Bytes → value) : keyed m →
  ∃ h, run_plain BytesIsZero f (finish m) = Returns (h, m_result m) ∧
    ∀ key, h key = committed (tr_Status (m_result m)) (m_view m) f key.
Proof.
  intros Hm. unfold finish, committed. destruct (_ =? TxStatusSuccess)%string.
  - destruct (commit_changes_plain (Changes (m_view m)) (CReturn (m_result m)) f) as (h & -> & Hh); [by apply Changes_keys|].
    exists h. split; [done|]. intros key. rewrite Hh, Changes_find by done. by destruct (ov_writes _ !! key).
  - by exists f.
Qed.

Lemma tx_loop_plain fuel (m : machine answer) (f : Bytes → value) (g : Bytes → option Bytes) :
  (∀ key, unframe (f key) = g key) → keyed m →
  let m' := (loop RuntimeDefaults execution tx fuel (over g m)).1 in
  ∃ h, run_plain BytesIsZero f (tx_loop fuel m) = Returns (h, m_result m') ∧
    ∀ key, h key = committed (tr_Status (m_result m')) (m_view m') f key.
Proof.
  intros Hg. revert m. induction fuel as [|fuel IH]; intros m Hm; cbn [tx_loop loop]; [by apply (finish_plain m)|].
  rewrite step_asks. set (e := step_with (from_option g None (asks m)) m).
  assert (keyed e.1) as He by (by apply (step_keyed RuntimeDefaults execution tx (rebase _ m))).
  assert (run_plain BytesIsZero f (match asks m with
      | None => match step_with None m with (m, None) => tx_loop fuel m | (m, Some _) => finish m end
      | Some key => CGet key (λ encoded, match step_with (unframe encoded) m with
                                         | (m, None) => tx_loop fuel m | (m, Some _) => finish m end)
      end) = run_plain BytesIsZero f (match e with (m1, None) => tx_loop fuel m1 | (m1, Some _) => finish m1 end)) as ->.
  { unfold e. destruct (asks m) as [key|]; [|done]. cbn. by rewrite Hg. }
  clearbody e. destruct e as [m1 [c|]]; cbn in He |- *; [by apply (finish_plain m1)|by apply IH].
Qed.
End callback.

Section block.
Context {BT : BTreeLib} {BL : BTreeLaws}.

(** The callback of transaction [index], from the checks of [ExecuteWithHooks]
    to the commit.  (The ordinals, which only hooks see, start as in the serial
    engine.) *)
Definition tx_callback (block : Block) (index : Z) (tx : Transaction) : callback value TxResult :=
  let execution := txContext block index tx 2 in
  let result := MkTxResult index (tx_ID tx) "" [] "" 0 initialComputeDigest [] [] [] in
  let m := MkMachine background tt (NewOverlay (Answer None)) result ∅ 0 (tc_Ordinal execution) in
  let code := Validate tx in
  if negb (code =? "")%string then finish (put_result m (set_status result TxStatusInvalidProgram code))
  else tx_loop execution tx (S (Z.to_nat (MaxUnits tx))) m.

Definition block_callback (block : Block) (index : Z) : callback value TxResult :=
  match at_index (Transactions block) index with
  | Some tx => tx_callback block index tx
  | None => CReturn zeroTxResult
  end.

Lemma committed_state {B} (m : Runtime.machine (B := B) (H := unit)) (f : Bytes → value) (s : Store) key :
  keyed m → (∀ key, f key = encodeValue <$> st_Get s key) →
  committed (tr_Status (m_result m)) (m_view m) f key =
    encodeValue <$> st_Get (if (tr_Status (m_result m) =? TxStatusSuccess)%string then CommitTo (m_view m) s else s) key.
Proof.
  intros Hm Hf. unfold committed. destruct (_ =? _)%string; [|done]. rewrite CommitTo_Get, Hf by done.
  destruct (ov_writes _ !! key) as [p|]; [|done]. by destruct (ov_deleted p).
Qed.

Lemma tx_callback_plain block index tx (f : Bytes → value) (s : Store) :
  (∀ key, f key = encodeValue <$> st_Get s key) →
  ∃ h, run_plain BytesIsZero f (tx_callback block index tx) = Returns (h, m_result (run_tx block index tx s)) ∧
    ∀ key, h key = encodeValue <$> st_Get (apply_tx (run_tx block index tx s) s) key.
Proof.
  intros Hf.
  assert (∃ h, run_plain BytesIsZero f (tx_callback block index tx) = Returns (h, m_result (run_tx block index tx s)) ∧
    ∀ key, h key = committed (tr_Status (m_result (run_tx block index tx s))) (m_view (run_tx block index tx s)) f key) as (h & E & Hh).
  { unfold tx_callback, run_tx, ExecuteWithHooks. cbv zeta. cbn [poll background].
    assert ((if (tc_TransactionID (txContext block index tx 2) =? "")%string
      then MkTxContext (tc_BlockID (txContext block index tx 2)) (tx_ID tx) (tc_TxIndex (txContext block index tx 2))
             (tc_Incarnation (txContext block index tx 2)) (tc_Ordinal (txContext block index tx 2))
      else txContext block index tx 2) = txContext block index tx 2) as -> by (by destruct (_ =? "")%string).
    assert (∀ B (b : B), overlay_wf (NewOverlay b)) as Hn.
    { intros B b k p Ep. cbn in Ep. by rewrite lookup_empty in Ep. }
    destruct (negb _).
    - destruct (finish_plain (put_result (MkMachine background tt (NewOverlay (Answer None))
        (MkTxResult index (tx_ID tx) "" [] "" 0 initialComputeDigest [] [] []) ∅ 0 2)
        (set_status (MkTxResult index (tx_ID tx) "" [] "" 0 initialComputeDigest [] [] []) TxStatusInvalidProgram (Validate tx))) f)
        as (h & E & Hh); [exact (Hn _ (Answer None))|]. exists h. split; [exact E|exact Hh].
    - destruct (tx_loop_plain (txContext block index tx 2) tx (S (Z.to_nat (MaxUnits tx)))
        (MkMachine background tt (NewOverlay (Answer None))
           (MkTxResult index (tx_ID tx) "" [] "" 0 initialComputeDigest [] [] []) ∅ 0 2) f (st_Get s))
        as (h & E & Hh); [by intros key; rewrite Hf, unframe_encode|exact (Hn _ (Answer None))|].
      exists h. split; [exact E|exact Hh]. }
  exists h. split; [exact E|]. intros key. rewrite Hh. apply committed_state; [|done]. apply ExecuteWithHooks_keyed.
Qed.

Lemma block_plain block txs index (f : Bytes → value) (s : Store) :
  0 <= index → (∀ i, 0 <= i → at_index (Transactions block) (index + i) = at_index txs i) →
  (∀ key, f key = encodeValue <$> st_Get s key) →
  ∃ h, run_in_order BytesIsZero f (block_callback block <$> seqZ index (Z.of_nat (length txs))) =
      Returns (h, (run_block block index txs s).2) ∧
    ∀ key, h key = encodeValue <$> st_Get (run_block block index txs s).1 key.
Proof.
  revert index f s. induction txs as [|tx txs IH]; intros index f s Hi Htx Hf; [by exists f|].
  cbn [length]. rewrite seqZ_cons by lia. cbn [fmap list_fmap run_in_order run_block].
  replace (Z.pred (Z.of_nat (S (length txs)))) with (Z.of_nat (length txs)) by lia.
  assert (block_callback block index = tx_callback block index tx) as ->.
  { unfold block_callback. specialize (Htx 0 ltac:(lia)). rewrite Z.add_0_r in Htx. by rewrite Htx. }
  destruct (tx_callback_plain block index tx f s Hf) as (g & -> & Hg). cbn [mbind outcome_bind].
  destruct (IH (Z.succ index) g (apply_tx (run_tx block index tx s) s)) as (h & -> & Hh); [lia| |done|].
  { intros i H0. replace (Z.succ index + i) with (index + Z.succ i) by lia. rewrite Htx by lia. unfold at_index.
    rewrite !(proj2 (Z.leb_le _ _)) by lia. by rewrite Z2Nat.inj_succ by lia. }
  cbn [mbind outcome_bind]. replace (Z.succ index) with (index + 1) in * by lia.
  destruct (run_block block (index + 1) txs _) as [final results]. by exists h.
Qed.
End block.

(** ** Properties *)

Section properties.
Context {BT : BTreeLib} {BL : BTreeLaws}.
#[local] Existing Instance kernel_store.
#[local] Existing Instance kernel_store_laws.

(** C3: End to end, a block on the frozen kernel is the block run in order.
    Fill the kernel's store from a state, let any number of executors run the
    interpreter's transactions over the kernel in any interleaving of their
    reads, writes, waits, aborts and validations: once the kernel says it is
    done, the recorded results are those of running the transactions one after
    the other, and the snapshot of the store it has written back is the
    snapshot of the state they leave. *)
Theorem frozen_block_serial block storage kernelStorage
    (executors : nat) (estimates : list (list Bytes)) k0 steps (k : kernel value TxResult (GMemDB value)) ps :
  newKernelStorage (Snapshot storage) = Returns kernelStorage →
  Z.of_nat (length (Transactions block)) < 2 ^ 62 → Z.of_nat executors < 2 ^ 62 → Z.of_nat steps < 2 ^ 62 →
  Forall sorted_keys estimates →
  run (k_init 0 estimates) (NewKernel (length (Transactions block))) = Returns (k0, tt) →
  nsteps (kernel_step BytesIsZero kernelStorage (block_callback block)) steps (k0, entering executors) (k, ps) →
  done_marker (k_sched k) = true →
  let serial := run_block block 0 (Transactions block) storage in
  (∀ i r, serial.2 !! i = Some r → ∃ a, at_index (k_attempts k) (Z.of_nat i) = Some (Some a) ∧ at_result a = r) ∧
  ∃ final, SnapshotToStore BytesIsZero (k_data k) kernelStorage = Returns final ∧
    snapshotKernelStorage final = Returns (Some (Snapshot serial.1)).
Proof.
  intros Hnew Hsize Hexec Hlt Hest Hinit Hsteps Hdone.
  destruct (newKernelStorage_holds storage) as (ks & E & Hok & Hgets). rewrite Hnew in E. injection E as <-.
  destruct (kernel_in_order BytesIsZero kernelStorage (block_callback block) db_ok (length (Transactions block))
    executors estimates k0 steps k ps) as (f & results & final & Er & Hr & Ef & Hfok & Hf); [done..|].
  destruct (block_plain block (Transactions block) 0 (kv_Get kernelStorage) storage) as (h & Eh & Hh); [done|done|done|].
  rewrite Er in Eh. injection Eh as <- ->. split; [done|].
  exists final. split; [done|]. apply snapshotKernelStorage_holds. split; [done|]. intros key. by rewrite Hf, Hh.
Qed.
End properties.

(** ** Two countdowns by two executors *)

Section witnesses.
#[local] Existing Instance ListTree.
#[local] Existing Instance ListTree_laws.
#[local] Existing Instance kernel_store.

Abbreviation frozen := (kernel value TxResult (GMemDB value)).
Definition frozen_storage : GMemDB value := result (NewGMemDB value) (newKernelStorage (Snapshot New)).
Definition frozen_start : frozen := result (NewKernel 2) (fst <$> run (k_init 0 []) (NewKernel 2)).
Definition frozen_turns : list nat := mjoin (replicate 400 [0; 1]%nat).
Definition frozen_end : nat * (frozen * list (prog frozen (option (TxnVersion * TaskKind)))) :=
  drive BytesIsZero frozen_storage (block_callback sample_block) frozen_turns (frozen_start, entering 2).

Lemma frozen_block_serial_witness :
  done_marker (k_sched frozen_end.2.1) = true ∧
  e_incarnation <$> txn_status (k_sched frozen_end.2.1) = [0; 1] ∧
  ∃ final, SnapshotToStore BytesIsZero (k_data frozen_end.2.1) frozen_storage = Returns final ∧
    snapshotKernelStorage final = Returns (Some (Snapshot (run_block sample_block 0 (Transactions sample_block) New).1)).
Proof.
  split; [vm_compute; reflexivity|]. split; [vm_compute; reflexivity|].
  refine (proj2 (frozen_block_serial sample_block New frozen_storage 2 [] frozen_start frozen_end.1 frozen_end.2.1
    frozen_end.2.2 _ _ _ _ _ _ _ _)).
  - vm_compute. reflexivity.
  - vm_compute. reflexivity.
  - vm_compute. reflexivity.
  - vm_compute. reflexivity.
  - constructor.
  - vm_compute. reflexivity.
  - generalize (drive_steps BytesIsZero frozen_storage (block_callback sample_block) frozen_turns (frozen_start, entering 2)).
    change (drive BytesIsZero frozen_storage (block_callback sample_block) frozen_turns (frozen_start, entering 2)) with frozen_end.
    destruct frozen_end as [steps [k ps]]. exact (λ H, H).
  - vm_compute. reflexivity.
Defined.
End witnesses.
