(* ===== verification/FrozenContract.v ===== *)
(** * The frozen path keeps the kernel's contract

    [Serializable] and the experiments assume [kernel_contract] of the kernel
    under the Block-STM engine.  Here it is derived for the frozen path: a
    kernel whose ends are runs of [Kernel] with the engine's callback under a
    policy that never objects.  At the end of such a run the memory is settled
    and holds what the recorded attempts wrote; running the callback of a
    transaction once more, on that memory, is the last attempt the contract asks
    for. *)

From Stdlib Require Import ZArith Lia String.
From stdpp Require Import sorting.
From S2P Require Import Prelude Utils BTree BTreeIterator Types MemDB MVData MVDataFacts MVProps MVView Prog Status Scheduler Cells Kernel KernelMoves KernelRuns KernelInv KernelOwned KernelReach KernelSafety Model State Runtime Plan Control Dispatcher Serial Admission Adapter Accounting Engine Serializable FrozenBlock.
Local Open Scope Z_scope.

(** ** An attempt on a settled memory *)

Section settled.
Context {BT : BTreeLib} {BL : BTreeLaws} {St : Type} `{!KVStore St value}.
Context (block : Block) (storage : St) (d : GMVData value) (written : TxnVersion → Bytes → value).
Context (Hd : settled block d written).

(** A view over [d] that nobody changes, whose reads are current. *)
Record steady (index : Z) (w : live_view St) : Prop := {
  sy_data : lv_data w = d ∧ lv_others w = [] ∧ (0 < lv_fuel w)%nat;
  sy_view : v_writeSet (lv_view w) = None ∧ v_txn (lv_view w) = index ∧ rs_Iterators (v_readSet (lv_view w)) = [];
  sy_reads : ∀ r, r ∈ rs_Reads (v_readSet (lv_view w)) → ∃ v, Read d (rd_Key r) index = Returns (v, rd_Version r, false);
}.

Lemma Read_settled key index : ∃ v version, Read d key index = Returns (v, version, false).
Proof.
  destruct (se_consistent _ _ _ Hd) as [Hwf _]. rewrite Read_answer by done. destruct (index =? 0); [by do 2 eexists|].
  destruct (closest (entries d key) index) as [e|] eqn:E; [|by do 2 eexists].
  apply closest_spec in E as (Hin & _); [|by apply entries_sorted]. destruct (se_entries _ _ _ Hd key e Hin) as [He _].
  do 2 eexists. cbn. by rewrite He.
Qed.

Lemma steady_returns index : base_returns (B := live_view St) (steady index).
Proof.
  intros w key [(H1 & H2 & H3) (H4 & H5 & H6) H7]. unfold base_Get, framed_base, ks_Get, live_store. rewrite H2. cbn [head tail default id].
  unfold view_Get. rewrite H4, H1. destruct (lv_fuel w) as [|fuel] eqn:Ef; [lia|]. cbn [read_loop].
  destruct (Read_settled key index) as (v & version & E). rewrite H5, E. cbn [mbind outcome_bind].
  destruct (negb (version_Valid version)); cbn [mbind outcome_bind]; do 2 eexists; (split; [reflexivity|]).
  all: split; [by split_and!; [..|cbn; lia]|by split_and!|]; intros r Hr; cbn in Hr; apply elem_of_app in Hr as [Hr|Hr]; [by apply H7|];
    apply list_elem_of_singleton in Hr as ->; by exists v.
Qed.

Lemma steady_valid index w fuel : steady index w → (length (Scan (outer d)) < fuel)%nat →
  ValidateReadSet fuel d index (v_readSet (lv_view w)) = Returns true.
Proof.
  intros [_ (_ & _ & H6) H7] Hf. unfold ValidateReadSet. rewrite validate_reads_spec by apply Hd. cbn [mbind outcome_bind].
  rewrite H6. assert (forallb (λ r, match Read d (rd_Key r) index with
      | Returns (_, version, estimate) => negb estimate && bool_decide (version = rd_Version r) | _ => false end)
    (rs_Reads (v_readSet (lv_view w))) = true) as ->; [|done].
  apply forallb_forall. intros r Hr%list_elem_of_In. destruct (H7 r Hr) as [v ->]. by rewrite bool_decide_eq_true_2.
Qed.

(** *** The callback, called on it *)

Abbreviation blockstm_ok := (preset_ok NewBlockSTMPreset).

Lemma blockstm_call d0 c : (∀ ctx, c = CallValidationPoint ctx → (validationEvent (vc_Kind ctx)).2 = true) →
  blockstm_ok d0 → ∃ d', disp_call d0 c = Returns (d', preset_decision NewBlockSTMPreset c) ∧ blockstm_ok d'.
Proof. by apply preset_disp_call. Qed.

Lemma sample_dispatcher_ok : blockstm_ok sample_dispatcher.
Proof. by vm_compute. Qed.

Definition calm_start : shared unit := MkShared (replicate (length (Transactions block)) newSlot) sample_dispatcher None background.
Definition steady_start (index : Z) : live_view St := MkLive (NewGMVMemoryView 0 storage index) d [] (λ _ m, m) 1.

Lemma steady_start_ok index : steady index (steady_start index).
Proof. split; [by split_and!; [..|cbn; lia]|done|]. by intros r ?%elem_of_nil. Qed.

(** How a call that runs to its end leaves the slot of its transaction. *)
Definition runs_to_end (index : Z) (tx : Transaction) (e : callback_end unit (live_view St)) : Prop :=
  ∃ w' r slot w, ce_completed e = true ∧ ce_store e = Returns w' ∧ at_index (sh_slots (ce_shared e)) index = Some slot ∧
    load slot = (r, true) ∧ tr_Status r ≠ TxStatusCancelled ∧
    completed_run (T := unit) block index tx (steady_start index) w' r ∧
    steady index w ∧ v_readSet (lv_view w') = v_readSet (lv_view w).

Lemma steady_run index tx slot (st : shared unit) : tx_typed tx → 0 <= index < Z.of_nat (length (sh_slots st)) →
  blockstm_ok (sh_dispatcher st) → sh_ctx st = background →
  runs_to_end index tx (run_and_commit block false index 0 slot tx (steady_start index) st).
Proof.
  intros Ht Hi Hst Hctx. set (execution := MkTxContext (b_ID block) (tx_ID tx) index 0 3).
  destruct (ExecuteWithHooks_returns dispatcher_hooks blockstm_ok (steady index) background execution tx
    (NewOverlay (steady_start index)) (sh_dispatcher st) Ht) as (m & E & Hm & Hq);
    [by apply preset_hooks_return|done|apply steady_returns|apply steady_start_ok|].
  pose proof (ExecuteWithHooks_calm dispatcher_hooks execution tx (NewOverlay (steady_start index)) (sh_dispatcher st)) as [Hc Hs].
  pose proof (ExecuteWithHooks_keyed dispatcher_hooks background execution tx (steady_start index) (sh_dispatcher st)) as Hk.
  rewrite E in Hc, Hs, Hk. cbn [fst] in Hc, Hs, Hk.
  assert (∃ w', (if (tr_Status (m_result m) =? TxStatusSuccess)%string then framed_CommitTo (m_view m) (ov_base (m_view m))
                 else Returns (ov_base (m_view m))) = Returns w' ∧ v_readSet (lv_view w') = v_readSet (lv_view (ov_base (m_view m)))) as (w' & Ew & Hr).
  { destruct (_ =? _)%string; [|by eexists].
    destruct (framed_CommitTo_spec (m_view m) (ov_base (m_view m))) as (w' & Ew & [Hr _] & _); [apply Hq|exact Hk|]. by exists w'. }
  destruct (blockstm_call (m_hooks m) (CallValidationPoint
    (MkValidationContext (MkTxContext (b_ID block) (tx_ID tx) index 0 (maxUint64 - 1)) ValidationTxEnd (tx_ID tx)))) as (d' & Ed & Hd'); [by intros ctx [= <-]|done|].
  cbn [disp_call] in Ed. unfold run_and_commit. rewrite Hctx. fold execution. rewrite E. cbv zeta. cbn [sh_dispatcher put_context put_dispatcher].
  rewrite Ed. assert (Err d' = None) as -> by apply Hd'. rewrite Ew.
  exists w', (m_result m), (store slot 0 (m_result m) false), (ov_base (m_view m)).
  split_and!; try done.
  - cbn. rewrite at_index_insert by lia. by rewrite decide_True.
  - exists (sh_dispatcher st), background, 0, m. done.
Qed.

(** Called on a settled memory, the callback runs to its end. *)
Lemma steady_attempt index tx : at_index (Transactions block) index = Some tx → tx_typed tx →
  runs_to_end index tx (txExecutor block false false index (steady_start index) calm_start).
Proof.
  intros Htx Hty. pose proof (at_index_Some _ _ _ Htx) as Hi.
  assert (at_index (sh_slots calm_start) index = Some newSlot) as Hs.
  { apply at_index_lookup; [lia|]. cbn. apply lookup_replicate_2. lia. }
  unfold txExecutor. rewrite Htx, Hs. cbn [beginExecution newSlot sl_executions sl_abandoned]. cbv zeta.
  set (slot := MkSlot _ _ _ _ _). set (st := put_slot calm_start index slot).
  cbn [Z.ltb Z.compare with_policy].
  destruct (blockstm_call sample_dispatcher (CallTxReady (MkTxContext (b_ID block) (tx_ID tx) index 0 2))) as (d1 & E1 & H1); [done|apply sample_dispatcher_ok|].
  cbn [disp_call] in E1. cbn [put_dispatcher sh_dispatcher st put_slot calm_start]. rewrite E1. cbn [with_policy].
  change (preset_decision _ _) with LaneOptimistic. rewrite String.eqb_refl. cbn [negb].
  destruct (blockstm_call d1 (CallTaskReady (MkTaskContext (MkTxContext (b_ID block) (tx_ID tx) index 0 3) "execution"))) as (d2 & E2 & H2); [done..|].
  cbn [disp_call] in E2. cbn [put_dispatcher sh_dispatcher]. rewrite E2. cbn [with_policy put_dispatcher sh_dispatcher].
  assert (Err d2 = None) as -> by apply H2. apply steady_run; [done| |done|done].
  cbn. rewrite length_insert, length_replicate. lia.
Qed.
End settled.

(** ** What the callback writes *)

Section replayed.
Context {BT : BTreeLib} {BL : BTreeLaws} {St : Type} `{!KVStore St value}.
Abbreviation replay := (replay (A := TxResult) (Store := St) BytesIsZero).
Implicit Types (s : GMVMemoryView value St) (log : list (Bytes * TxnVersion * value)).

(** What an execution commits. *)
Definition commits {B} (status : string) (o : Overlay B) (key : Bytes) : option value :=
  if (status =? TxStatusSuccess)%string
  then (λ p, if ov_deleted p then None else Some (encodeValue (ov_value p))) <$> ov_writes o !! key
  else None.

Lemma commit_changes_replay changes k s log s' a : NoDup (sc_Key <$> changes) → view_wf s →
  replay s (commit_changes changes k) log = Some (s', a) →
  ∃ s1, replay s1 k log = Some (s', a) ∧ ∀ key, own_write s1 key =
    match findb (λ c, bool_decide (sc_Key c = key)) changes with Some c => Some (framed c) | None => own_write s key end.
Proof.
  revert s. induction changes as [|c changes IH]; intros s; cbn [commit_changes fmap list_fmap findb]; [intros _ _ E; by exists s|].
  intros [Hc Hnd]%NoDup_cons Hwf E.
  assert (∃ s1, replay s1 (commit_changes changes k) log = Some (s', a) ∧ view_wf s1 ∧
    ∀ key, own_write s1 key = if decide (key = sc_Key c) then Some (framed c) else own_write s key) as (s1 & E1 & Hwf1 & H1).
  { unfold framed. destruct (sc_Delete c); cbn in E; eexists; (split; [exact E|]); (split; [by apply OverlaySet_wf, init_writeSet_wf|]);
      intros key; by apply own_write_put. }
  destruct (IH s1 Hnd Hwf1 E1) as (s2 & E2 & H2). exists s2. split; [done|]. intros key. rewrite H2, H1.
  destruct (findb _ changes) as [c'|] eqn:Ef.
  - apply findb_Some in Ef as [Hin Ek%bool_decide_eq_true]. rewrite bool_decide_eq_false_2; [done|].
    intros Ek'. apply Hc. rewrite Ek', <- Ek. by apply list_elem_of_fmap_2.
  - case_bool_decide; case_decide; congruence.
Qed.

Lemma finish_replay {B} (m : machine (B := B) (H := unit)) s log s' a : keyed m → view_wf s → (∀ key, own_write s key = None) →
  replay s (finish m) log = Some (s', a) →
  a = m_result m ∧ ∀ key, own_write s' key = commits (tr_Status (m_result m)) (m_view m) key.
Proof.
  intros Hm Hwf Hs E. unfold finish in E. unfold commits.
  apply commit_changes_replay in E as (s1 & E & H1); [|destruct (_ =? _)%string; [by apply Changes_keys|constructor]|done].
  cbn in E. destruct log; [|done]. injection E as <- <-. split; [done|]. intros key. rewrite H1, Hs.
  destruct (_ =? _)%string; [|done]. rewrite Changes_find by done. by destruct (ov_writes (m_view m) !! key).
Qed.

Lemma tx_loop_replay execution tx fuel (m : machine (B := answer) (H := unit)) (g : Bytes → option Bytes) s log s' a :
  (∀ key version v, (key, version, v) ∈ log → unframe v = g key) → keyed m → view_wf s → (∀ key, own_write s key = None) →
  replay s (tx_loop execution tx fuel m) log = Some (s', a) →
  let m' := (loop RuntimeDefaults execution tx fuel (rebase (λ key, Returns (g key)) m)).1 in
  a = m_result m' ∧ ∀ key, own_write s' key = commits (tr_Status (m_result m')) (m_view m') key.
Proof.
  revert m s log. induction fuel as [|fuel IH]; intros m s log Hlog Hm Hwf Hs E; cbn [tx_loop loop] in *; [by apply (finish_replay m) in E|].
  rewrite step_asks. set (e := step_with execution tx (from_option g None (asks execution tx m)) m).
  assert (keyed e.1) as He by (by apply (step_keyed RuntimeDefaults execution tx (rebase _ m))).
  assert (∃ s1 log1, replay s1 (match e with (m1, None) => tx_loop execution tx fuel m1 | (m1, Some _) => finish m1 end) log1 = Some (s', a) ∧
    view_wf s1 ∧ (∀ key, own_write s1 key = None) ∧ ∀ x, x ∈ log1 → x ∈ log) as (s1 & log1 & E1 & Hwf1 & Hs1 & Hin).
  { unfold e. destruct (asks execution tx m) as [key|]; [|by exists s, log].
    cbn [KernelMoves.replay] in E. rewrite Hs in E. destruct log as [|[[key' version] v] log]; [done|].
    case_decide as Hkey; [|done]. subst key'. rewrite (Hlog key version v) in E by by left.
    exists (add_read s (MkRead key version)), log. split; [exact E|]. split; [done|]. split; [done|]. intros x Hx. by right. }
  clearbody e. clear E. destruct e as [m1 [c|]]; cbn in He, E1 |- *.
  - by apply (finish_replay m1) in E1.
  - eapply IH; [|done..|exact E1]. intros key version v Hx. apply (Hlog key version), Hin, Hx.
Qed.

(** A run of the callback on the answers of a state is the run of the
    transaction on it, and leaves what that commits. *)
Lemma tx_callback_replay block index tx (st : Store) s log s' a :
  (∀ key version v, (key, version, v) ∈ log → v = encodeValue <$> st_Get st key) → view_wf s → (∀ key, own_write s key = None) →
  replay s (tx_callback block index tx) log = Some (s', a) →
  let m := run_tx block index tx st in
  a = m_result m ∧ ∀ key, own_write s' key = commits (tr_Status (m_result m)) (m_view m) key.
Proof.
  intros Hlog Hwf Hs E. cbv zeta. unfold tx_callback in E. unfold run_tx, ExecuteWithHooks. cbv zeta in *. cbn [poll background].
  assert ((if (tc_TransactionID (txContext block index tx 2) =? "")%string
    then MkTxContext (tc_BlockID (txContext block index tx 2)) (tx_ID tx) (tc_TxIndex (txContext block index tx 2))
           (tc_Incarnation (txContext block index tx 2)) (tc_Ordinal (txContext block index tx 2))
    else txContext block index tx 2) = txContext block index tx 2) as -> by (destruct (tc_TransactionID (txContext block index tx 2) =? "")%string; reflexivity).
  assert (∀ B (b : B), overlay_wf (NewOverlay b)) as Hn.
  { intros B b k p Ep. cbn in Ep. by rewrite lookup_empty in Ep. }
  destruct (negb _).
  - apply finish_replay in E as [-> H]; [|exact (Hn _ (Answer None))|done..]. split; [reflexivity|exact H].
  - apply (tx_loop_replay _ _ _ _ (st_Get st)) in E as [-> H]; [|..].
    + split; [reflexivity|exact H].
    + intros key version v Hin. by rewrite (Hlog key version v Hin), unframe_encode.
    + exact (Hn _ (Answer None)).
    + done.
    + done.
Qed.
End replayed.

(** ** A finished run of the frozen path *)

Section frozen.
Context {BT : BTreeLib} {BL : BTreeLaws}.
#[local] Existing Instance kernel_store.
#[local] Existing Instance kernel_store_laws.
Abbreviation frozen := (kernel value TxResult (GMemDB value)).
Context (block : Block) (kernelStorage : GMemDB value) (k : frozen).
Abbreviation n := (Z.of_nat (length (Transactions block))).
Abbreviation settled_at := (settled_txn BytesIsZero kernelStorage (block_callback block) k).

(** What the last attempts wrote. *)
Definition history (version : TxnVersion) (key : Bytes) : value :=
  default None (k_written k !! (Index version, Incarnation version, key)).

Context (Hcells : cells_ok n k) (Hsettled : ∀ i, 0 <= i < n → ∃ a, settled_at i a).

Lemma entry_cell key e : e ∈ entries (k_data k) key → cell (k_data k) key (s_Index e) = Some e ∧ 0 <= s_Index e < n.
Proof.
  intros Hin. assert (cell (k_data k) key (s_Index e) = Some e) as Hc by (by apply cell_Some; [apply Hcells|]).
  split; [done|]. by destruct (proj2 Hcells _ _ _ Hc).
Qed.

Lemma frozen_settled : settled block (k_data k) history.
Proof.
  split; [split; [apply Hcells|]|]; intros key e [Hc Hi]%entry_cell.
  - split; [lia|]. intros He. destruct (proj2 Hcells _ _ _ Hc) as [_ Hw]. unfold history. cbn. by rewrite Hw.
  - split; [|lia]. destruct (Hsettled _ Hi) as [a Ha]. by apply (st_cells _ _ _ _ _ _ Ha key).
Qed.

Lemma visible_seen i key : visible (k_data k) kernelStorage i key = seen kernelStorage (k_data k) i key.
Proof.
  unfold visible, seen. destruct (Z.eqb_spec i 0) as [->|].
  - rewrite (proj2 (closest_None _ 0)); [done|]. intros e [_ Hi]%entry_cell. lia.
  - destruct (closest (entries (k_data k) key) i) as [e|] eqn:E; [|done].
    apply closest_spec in E as (Hin & _); [|apply entries_sorted, Hcells]. apply entry_cell in Hin as [_ Hi].
    unfold version_Valid. cbn. by rewrite (proj2 (Z.leb_le _ _)) by lia.
Qed.

Lemma commits_state {B} (m : machine (B := B) (H := unit)) (s : Store) key : keyed m →
  default (encodeValue <$> st_Get s key) (commits (tr_Status (m_result m)) (m_view m) key) =
    encodeValue <$> st_Get (if (tr_Status (m_result m) =? TxStatusSuccess)%string then CommitTo (m_view m) s else s) key.
Proof.
  intros Hm. unfold commits. destruct (_ =? _)%string; [|done]. rewrite CommitTo_Get by done.
  destruct (ov_writes _ !! key) as [p|]; [|done]. cbn; by destruct (ov_deleted p).
Qed.

(** The recorded attempt is the run on the state its transaction sees. *)
Lemma settled_attempt i tx a s : settled_at i a → at_index (Transactions block) i = Some tx → sees kernelStorage (k_data k) i s →
  at_result a = m_result (run_tx block i tx s) ∧
  (∀ key, write_of (writes a) key = commits (tr_Status (m_result (run_tx block i tx s))) (m_view (run_tx block i tx s)) key) ∧
  sees kernelStorage (k_data k) (i + 1) (apply_tx (run_tx block i tx s) s).
Proof.
  intros Ha Htx Hs. pose proof (st_genuine _ _ _ _ _ _ Ha) as Hg. unfold genuine, block_callback in Hg. rewrite Htx in Hg.
  destruct (tx_callback_replay block i tx s (NewGMVMemoryView 0 kernelStorage i) (at_log a) (at_view a) (at_result a)) as [Hr Hw]; [|done..|].
  { intros key version v Hin. rewrite (st_read _ _ _ _ _ _ Ha key version v Hin), <- visible_seen. apply Hs. }
  assert (∀ key, write_of (writes a) key = commits (tr_Status (m_result (run_tx block i tx s))) (m_view (run_tx block i tx s)) key) as Hw'.
  { intros key. rewrite <- Hw. symmetry. apply own_write_writes. }
  split; [done|]. split; [done|]. intros key. rewrite visible_seen, (st_written _ _ _ _ _ _ Ha), <- visible_seen, Hs, Hw'.
  apply commits_state, ExecuteWithHooks_keyed.
Qed.

(** Every transaction sees some state. *)
Lemma frozen_sees storage i : represents db_ok kernelStorage storage → 0 <= i <= n → ∃ s, sees kernelStorage (k_data k) i s.
Proof.
  intros Hrep [H0 Hi]. revert Hi. pattern i. apply natlike_ind; [| |done].
  - intros _. exists storage. apply (sees_start block _ _ history); [apply frozen_settled|done].
  - intros j Hj IH Hle. destruct IH as [s Hs]; [lia|]. destruct (at_index_in (Transactions block) j) as [tx Htx]; [lia|].
    destruct (Hsettled j) as [a Ha]; [lia|]. exists (apply_tx (run_tx block j tx s) s). by apply (settled_attempt j tx a).
Qed.

Lemma frozen_last_attempt storage i a : represents db_ok kernelStorage storage → (∀ tx, tx ∈ Transactions block → tx_typed tx) →
  settled_at i a → 0 <= i < n → last_attempt block kernelStorage (k_data k) history i (at_result a).
Proof.
  intros Hrep Hty Ha Hi. destruct (frozen_sees storage i Hrep ltac:(lia)) as [s Hs].
  destruct (at_index_in (Transactions block) i) as [tx Htx]; [done|].
  destruct (settled_attempt i tx a s Ha Htx Hs) as (Hr & Hw & _).
  destruct (steady_attempt block kernelStorage (k_data k) history frozen_settled i tx Htx ltac:(by eapply Hty, at_index_elem))
    as (w' & r & slot & w & H1 & H2 & H3 & H4 & H5 & H6 & H7 & H8).
  set (start := steady_start kernelStorage (k_data k) i) in *. set (fuel := S (length (Scan (outer (k_data k))))).
  assert (fresh start kernelStorage i) as Hfresh by (by exists 0%nat).
  assert (others_consistent history start) as Hothers by (split; [apply frozen_settled|split; [by intros f m ?%elem_of_nil|done]]).
  assert (ValidateReadSet fuel (k_data k) i (v_readSet (lv_view w')) = Returns true) as Hv.
  { rewrite H8. eapply (steady_valid block _ history frozen_settled); [exact H7|unfold fuel; lia]. }
  destruct (valid_run block kernelStorage (k_data k) history frozen_settled i tx start w' r s fuel Hfresh Hothers H6 H5 ltac:(unfold fuel; lia) Hv Hs)
    as [Er Hp].
  rewrite Hr, Er. exists unit, start, w', false, false, (calm_start block), slot, fuel.
  split_and!; [done..|unfold fuel; lia|done|]. intros key. rewrite Hp. rewrite <- Er. change (match commits (tr_Status (m_result (run_tx block i tx s))) (m_view (run_tx block i tx s)) key with
    | Some v => ∃ e, e ∈ entries (k_data k) key ∧ s_Index e = i ∧ s_Value e = v
    | None => ∀ e, e ∈ entries (k_data k) key → s_Index e ≠ i end).
  rewrite <- Hw. destruct (st_stored _ _ _ _ _ _ Ha) as [inc [Hh _]]. specialize (Hh key). destruct (write_of (writes a) key) as [v|].
  - apply cell_Some in Hh as [Hin Hidx]; [|apply Hcells]. eexists. split; [exact Hin|]. by split.
  - intros e [Hc _]%entry_cell E. rewrite E, Hh in Hc. done.
Qed.
End frozen.

(** ** The contract *)

Section contract.
Context {BT : BTreeLib} {BL : BTreeLaws} {T : Type}.
#[local] Existing Instance kernel_store.
#[local] Existing Instance kernel_store_laws.

(** The kernel has ended, started with [st], the way the frozen path ends: some
    executors have run, in some interleaving, until [done_marker] was set; each
    slot that is ready holds the result of the last recorded attempt; and the
    memory has been written back. *)
Definition follows_frozen (block : Block) (st : start T) (e : kernel_end T) : Prop :=
  ∃ (executors : nat) (estimates : list (list Bytes)) k0 steps (k : kernel value TxResult (GMemDB value)) ps,
    Z.of_nat executors < 2 ^ 62 ∧ Z.of_nat steps < 2 ^ 62 ∧ Forall sorted_keys estimates ∧
    run (k_init 0 estimates) (NewKernel (length (Transactions block))) = Returns (k0, tt) ∧
    nsteps (kernel_step BytesIsZero (st_storage st) (block_callback block)) steps (k0, entering executors) (k, ps) ∧
    done_marker (k_sched k) = true ∧
    SnapshotToStore BytesIsZero (k_data k) (st_storage st) = Returns (ke_storage e) ∧
    length (sh_slots (ke_shared e)) = length (Transactions block) ∧
    ∀ i slot, at_index (sh_slots (ke_shared e)) i = Some slot → sl_ready slot = true →
      ∃ a, at_index (k_attempts k) i = Some (Some a) ∧ sl_result slot = at_result a.

Lemma frozen_contract block storage (kernel : start T → outcome (kernel_end T)) :
  Z.of_nat (length (Transactions block)) < 2 ^ 62 → (∀ tx, tx ∈ Transactions block → tx_typed tx) →
  (∀ st e, kernel st = Returns e → follows_frozen block st e) →
  kernel_contract block storage kernel.
Proof.
  intros Hsize Hty Hf st e Hst He _ Herr Hdis Hslots.
  destruct (Hf st e He) as (executors & estimates & k0 & steps & k & ps & Hx & Hlt & Hest & Hinit & Hsteps & Hdone & Hsnap & Hlen & Hres).
  destruct (kernel_settled BytesIsZero (st_storage st) (block_callback block) (length (Transactions block)) executors estimates k0 steps k ps)
    as (gs & Hown & Hsettled); [done..|]. apply owned_cells_ok in Hown as Hcells.
  destruct (newKernelStorage_holds storage) as (ks & E & Hrep). rewrite Hst in E. injection E as <-.
  exists (k_data k), (history k). split; [|done]. split; [|done..|].
  - by eapply frozen_settled.
  - intros i slot Hi. destruct (Hslots slot (at_index_elem _ _ _ Hi)) as [Hr Hc]. split; [done|]. split; [done|].
    destruct (Hres i slot Hi Hr) as (a & Ha & ->). pose proof (at_index_Some _ _ _ Hi) as Hb. rewrite Hlen in Hb.
    destruct (Hsettled i Hb) as [a' Ha']. rewrite (st_attempt _ _ _ _ _ _ Ha') in Ha. injection Ha as <-.
    by eapply frozen_last_attempt.
Qed.

(** C6: The frozen path keeps the kernel's contract.  Whatever the number of
    executors and however their actions interleave, a kernel that ends only as
    the frozen path ends leaves, when nothing has gone wrong, a settled memory
    that is written back and, for every transaction, a last attempt that is
    valid in it and published there: all that the theorems about the Block-STM
    engine and about experiments ask of a kernel. *)
Theorem frozen_path_contract block storage (kernel : start T → outcome (kernel_end T)) :
  Z.of_nat (length (Transactions block)) < 2 ^ 62 → (∀ tx, tx ∈ Transactions block → tx_typed tx) →
  (∀ st e, kernel st = Returns e → follows_frozen block st e) →
  kernel_contract block storage kernel.
Proof. apply frozen_contract. Qed.
End contract.

(** ** A kernel that drives the frozen path *)

Section driven.
Context {BT : BTreeLib} {BL : BTreeLaws}.
#[local] Existing Instance kernel_store.

Definition attempt_slot {St} (a : option (attempt value TxResult St)) : resultSlot :=
  match a with Some a => store newSlot 0 (at_result a) false | None => newSlot end.

(** The executors take the given turns; the kernel has not come back when they
    have not finished by then. *)
Definition frozen_kernel (block : Block) (executors : nat) (turns : list nat) (T : Type) (st : start T) : outcome (kernel_end T) :=
  '(k0, _) ← run (k_init 0 []) (NewKernel (length (Transactions block)));
  let k := (drive BytesIsZero (st_storage st) (block_callback block) turns (k0, entering executors)).2.1 in
  if done_marker (k_sched k) then
    final ← SnapshotToStore BytesIsZero (k_data k) (st_storage st);
    Returns (MkKernelEnd
      (MkShared ((λ i, attempt_slot (default None (at_index (k_attempts k) i))) <$> seqZ 0 (Z.of_nat (length (Transactions block))))
         (sh_dispatcher (st_shared st)) None background)
      final false false (MkSpeculationStats 0 false false 0 0 0) (MkPolicyStats false 0 0 0 0 0 0 0 0) (λ _ _, zeroDependencyCounters))
  else Waits.

Lemma drive_length {V A St} `{!GoZero V} (isZero : V → bool) `{!KVStore St V} (storage : St) (txExecutor : Z → callback V A) turns s :
  ((drive isZero storage txExecutor turns s).1 <= length turns)%nat.
Proof.
  revert s. induction turns as [|i turns IH]; intros s; cbn [drive length]; [done|]. destruct (drive_one _ _ _ _ _) as [s'|]; cbn [fst].
  - specialize (IH s'). lia.
  - specialize (IH s). lia.
Qed.

Lemma frozen_kernel_follows block executors turns T (st : start T) e :
  Z.of_nat executors < 2 ^ 62 → Z.of_nat (length turns) < 2 ^ 62 →
  frozen_kernel block executors turns T st = Returns e → follows_frozen block st e.
Proof.
  intros Hx Ht. unfold frozen_kernel. destruct (run _ _) as [[k0 []]| |] eqn:E; cbn [mbind outcome_bind]; [|done..].
  pose proof (drive_steps BytesIsZero (st_storage st) (block_callback block) turns (k0, entering executors)) as Hsteps.
  pose proof (drive_length BytesIsZero (st_storage st) (block_callback block) turns (k0, entering executors)) as Hlen.
  destruct (drive _ _ _ _ _) as [steps [k ps]]. cbn [fst snd] in *. destruct (done_marker (k_sched k)) eqn:Ed; [|done].
  destruct (SnapshotToStore _ _ _) as [final| |] eqn:Ef; cbn [mbind outcome_bind]; [|done..]. intros [= <-].
  exists executors, [], k0, steps, k, ps. split_and!; try done; [lia|cbn; rewrite length_fmap, length_seqZ; lia|].
  intros i slot Hi Hr. cbn [ke_shared sh_slots] in Hi. pose proof (at_index_nonneg _ _ _ Hi) as H0. apply at_index_lookup in Hi; [|done].
  apply list_lookup_fmap_Some in Hi as (j & -> & Hj). apply lookup_seqZ in Hj as [-> _]. rewrite Z.add_0_l, Z2Nat.id in * by done.
  destruct (at_index (k_attempts k) i) as [[a|]|]; cbn in Hr |- *; [by exists a|done..].
Qed.
End driven.

(** ** Two countdowns by two executors, again *)

Section witnesses.
#[local] Existing Instance ListTree.
#[local] Existing Instance ListTree_laws.
#[local] Existing Instance kernel_store.

Lemma frozen_path_contract_witness :
  kernel_contract (T := unit) sample_block New (frozen_kernel sample_block 2 frozen_turns unit) ∧
  match bs_ExecuteBlock (λ _, ""%string) background sample_block (Some New) default_config [] (frozen_kernel sample_block 2 frozen_turns) with
  | Returns run => en_err run = None
  | _ => False
  end.
Proof.
  split; [|vm_compute; reflexivity]. apply (frozen_path_contract sample_block New).
  - vm_compute. reflexivity.
  - exact sample_block_typed.
  - intros st e. apply frozen_kernel_follows; vm_compute; reflexivity.
Defined.
End witnesses.
