(* ===== verification/Execution.v ===== *)
(** * internal/experiment/execution.go: running a workload on an engine

    A case selects engine and policy; the blocks of the workload are executed in
    order on one store.  What the code does not determine — the contexts, the
    clocks, the kernel under the Block-STM engine — comes from an environment,
    one for each block. *)

From Stdlib Require Import ZArith Lia String.
From S2P Require Import Prelude BTree Types Model Canonical State Runtime Plan Workload Generator Control Dispatcher Serial Engine Serializable FrozenContract Telemetry Experiment.
Local Open Scope Z_scope.

Definition aggregateResultSchema : string := "workload-result-v1".

(** The two engines a case can name. *)
Inductive engine_kind := SerialEngine | BlockSTMEngine.
#[export] Instance engine_kind_eq_dec : EqDecision engine_kind.
Proof. solve_decision. Defined.

Inductive engine_failure := SerialFailure (e : engine_error) | BlockSTMFailure (e : finish_error).

Inductive run_error :=
| InputError (e : artifact_error)
| StateDuplicateKey
| ErrUnknownEngine (engine : string)
| ErrUnknownPolicy (policy : string)
| EngineFailure (e : engine_failure).

(** [ex_Engine] says which engine made the slices of the results; [ResultsEqual]
    depends on it. *)
Record Execution := MkExecution {
  ex_Engine : engine_kind;
  ex_Results : list BlockResult;
  ex_Traces : list Trace;
  ex_Capabilities : Capabilities;
  ex_BlockLatencyNS : list Z;
  ex_ExecutionNS : Z;
  ex_ResultDigest : string;
  ex_MaxRSSBytes : Z;
}.

Definition resolveCase (c : CaseConfig) : run_error + (engine_kind * AnyPolicy) :=
  let policy (e : engine_kind) :=
    if (cc_Policy c =? "serial_preset")%string then inr (e, MkAnyPolicy unit (preset_policy NewSerialPreset) tt)
    else if (cc_Policy c =? "blockstm_preset")%string then inr (e, MkAnyPolicy unit (preset_policy NewBlockSTMPreset) tt)
    else inl (ErrUnknownPolicy (cc_Policy c)) in
  if (cc_Engine c =? "serial")%string then policy SerialEngine
  else if (cc_Engine c =? "blockstm")%string then policy BlockSTMEngine
  else inl (ErrUnknownEngine (cc_Engine c)).

Definition engine_capabilities (e : engine_kind) : outcome Capabilities :=
  match e with SerialEngine => serialCapabilities | BlockSTMEngine => blockSTMCapabilities end.

Inductive workload_error := WorkloadUnreadable | WorkloadArtifact (e : artifact_error) | WorkloadGenerate (e : generate_error).

(** The workload of a configuration; [file] is what reading the artifact's path finds. *)
Definition LoadWorkload {R : Rand} {P : MathPow} `{J : Json} {CJ : ConfigJson} (patience : nat) (config : WorkloadConfig)
    (file : option Bytes) : outcome (Artifact * option workload_error) :=
  if negb (wc_ArtifactPath config =? "")%string then
    match file with
    | None => Returns (zeroArtifact, Some WorkloadUnreadable)
    | Some encoded =>
        match ParseDescriptor encoded with
        | inl e => Returns (zeroArtifact, Some (WorkloadArtifact e))
        | inr a => Returns (a, None)
        end
    end
  else
    synthetic ← deref (wc_Synthetic config);
    '(a, e) ← Generate patience synthetic;
    Returns (a, option_map WorkloadGenerate e).

Section execute.
Context {BT : BTreeLib} `{J : Json} (sha256_hex : Bytes → string).

Record block_env := MkBlockEnv {
  be_ctx : context;
  be_clock : list Z;
  be_kernel : ∀ T, start T → outcome (kernel_end T);
  be_elapsed : Z;
}.

(** The configuration [Execute] gives the engine. *)
Definition case_engine_config (c : CaseConfig) (policy : AnyPolicy) (omitDigest : bool) : EngineConfig :=
  MkEngineConfig (cc_Executors c) "" (Some (Some policy)) (cc_TraceMode c) (cc_MaxSpeculativeInflight c)
    (case_control c) omitDigest.

(** [selectedEngine.ExecuteBlock]: the store it leaves, the result and the trace, or the error. *)
Definition call_engine (e : engine_kind) (env : block_env) (block : Block) (storage : Store) (config : EngineConfig) :
    outcome (engine_failure + (option Store * BlockResult * Trace)) :=
  match e with
  | SerialEngine =>
      run ← ExecuteBlock sha256_hex (be_ctx env) block (Some storage) config (be_clock env);
      Returns (match x_err run with Some err => inl (SerialFailure err) | None => inr (x_storage run, x_result run, x_trace run) end)
  | BlockSTMEngine =>
      run ← bs_ExecuteBlock sha256_hex (be_ctx env) block (Some storage) config (be_clock env) (be_kernel env);
      Returns (match en_err run with Some err => inl (BlockSTMFailure err) | None => inr (en_storage run, en_result run, en_trace run) end)
  end.

(** The loop over the blocks; [index] numbers the environments. *)
Fixpoint execute_blocks (e : engine_kind) (config : EngineConfig) (env : Z → block_env) (index : Z) (blocks : list Block)
    (storage : Store) (x : Execution) : outcome (run_error + Execution) :=
  match blocks with
  | [] => Returns (inr x)
  | block :: blocks =>
      r ← call_engine e (env index) block storage config;
      let elapsed := be_elapsed (env index) in
      match r with
      | inl err => Returns (inl (EngineFailure err))
      | inr (storage, result, trace) =>
          storage ← deref storage;
          execute_blocks e config env (index + 1) blocks storage
            (MkExecution (ex_Engine x) (ex_Results x ++ [result]) (ex_Traces x ++ [trace]) (ex_Capabilities x)
               (ex_BlockLatencyNS x ++ [elapsed]) (u64 (ex_ExecutionNS x + elapsed)) (ex_ResultDigest x) (ex_MaxRSSBytes x))
      end
  end.

Definition with_digest (r : BlockResult) : BlockResult :=
  MkBlockResult (br_BlockID r) (br_Height r) (br_Transactions r) (FinalState r) (CanonicalDigest sha256_hex r).

(** The digest of a result, computed if it is missing. *)
Definition digest_or_compute (r : BlockResult) : string :=
  if (Digest r =? "")%string then CanonicalDigest sha256_hex r else Digest r.

Definition writeDigestField (value : Bytes) : Bytes := writeUint64 (u64 (Z.of_nat (length value))) ++ value.

Definition AggregateResultDigest (results : list BlockResult) : string :=
  sha256_hex (writeDigestField (String.list_byte_of_string aggregateResultSchema) ++
    writeUint64 (u64 (Z.of_nat (length results))) ++
    concat ((λ r, writeDigestField (String.list_byte_of_string (digest_or_compute r))) <$> results)).

Definition BlockDigests (results : list BlockResult) : list string := digest_or_compute <$> results.

(** [maxRSS] is what the platform reports. *)
Definition Execute (env : Z → block_env) (artifact : Artifact) (c : CaseConfig) (omitDigest : bool) (maxRSS : Z) :
    outcome (run_error + Execution) :=
  match execution_input artifact [] with
  | inl e => Returns (inl (InputError e))
  | inr input =>
      match input_NewState input with
      | None => Returns (inl StateDuplicateKey)
      | Some storage =>
          match resolveCase c with
          | inl e => Returns (inl e)
          | inr (engine, policy) =>
              capabilities ← engine_capabilities engine;
              r ← execute_blocks engine (case_engine_config c policy omitDigest) env 0 (i_OrderedBlocks input) storage
                    (MkExecution engine [] [] capabilities [] 0 "" 0);
              match r with
              | inl e => Returns (inl e)
              | inr x =>
                  let results := if omitDigest then with_digest <$> ex_Results x else ex_Results x in
                  Returns (inr (MkExecution (ex_Engine x) results (ex_Traces x) (ex_Capabilities x) (ex_BlockLatencyNS x)
                                  (ex_ExecutionNS x) (AggregateResultDigest results) maxRSS))
              end
          end
      end
  end.

(** [reflect.DeepEqual] tells a nil slice from an empty one.  The slices of two
    results that are equal otherwise are made alike, except the keys of the final
    state: the serial engine converts a string, which is never nil, and the
    Block-STM adapter appends to a nil slice, which is nil for an empty key. *)
Definition nil_key (e : engine_kind) (entry : StateEntry) : bool :=
  match e, se_Key entry with BlockSTMEngine, [] => true | _, _ => false end.
Definition nil_keys (x : Execution) : list (list bool) := (λ r, nil_key (ex_Engine x) <$> FinalState r) <$> ex_Results x.

#[export] Instance ReadRecord_eq_dec : EqDecision ReadRecord.
Proof. solve_decision. Defined.
#[export] Instance StateChange_eq_dec : EqDecision StateChange.
Proof. solve_decision. Defined.
#[export] Instance Event_eq_dec : EqDecision Event.
Proof. solve_decision. Defined.
#[export] Instance TxResult_eq_dec : EqDecision TxResult.
Proof. solve_decision. Defined.
#[export] Instance StateEntry_eq_dec : EqDecision StateEntry.
Proof. solve_decision. Defined.
#[export] Instance BlockResult_eq_dec : EqDecision BlockResult.
Proof. solve_decision. Defined.

Definition ResultsEqual (left right : Execution) : bool :=
  bool_decide (ex_Results left = ex_Results right) && bool_decide (nil_keys left = nil_keys right).
End execute.
Arguments block_env {_}.
Arguments MkBlockEnv {_} _ _ _ _.

(** ** Every engine computes the reference *)

Section reference.
Context {BT : BTreeLib} {BL : BTreeLaws} `{J : Json} (sha256_hex : Bytes → string).

(** The results of running the blocks in order, transaction by transaction. *)
Fixpoint reference_results (blocks : list Block) (storage : Store) : list BlockResult :=
  match blocks with
  | [] => []
  | b :: blocks =>
      let '(final, results) := run_block b 0 (Transactions b) storage in
      with_digest sha256_hex (MkBlockResult (b_ID b) (b_Height b) results (Snapshot final) "") :: reference_results blocks final
  end.

(** What the engine returns before a missing digest is added. *)
Definition add_digest (omitDigest : bool) (r : BlockResult) : BlockResult := if omitDigest then with_digest sha256_hex r else r.

(** The kernel keeps its contract on the states the blocks are run on. *)
Fixpoint kernels_ok (env : Z → block_env) (index : Z) (blocks : list Block) (storage : Store) : Prop :=
  match blocks with
  | [] => True
  | b :: blocks =>
      (∀ T, kernel_contract b storage (be_kernel (env index) T)) ∧
      kernels_ok env (index + 1) blocks (run_block b 0 (Transactions b) storage).1
  end.

Lemma call_engine_reference e env block storage config s r t :
  (e = BlockSTMEngine → ∀ T, kernel_contract block storage (be_kernel env T)) →
  call_engine sha256_hex e env block storage config = Returns (inr (s, r, t)) →
  s = Some (serial_result sha256_hex config block storage).1 ∧ r = (serial_result sha256_hex config block storage).2.
Proof.
  intros Hk. destruct e; cbn [call_engine].
  - destruct (ExecuteBlock _ _ _ _ _ _) as [run| |] eqn:E; cbn [mbind outcome_bind]; [|done..].
    destruct (x_err run) eqn:Ee; [done|]. intros [= <- <- <-]. by apply (ExecuteBlock_any_policy sha256_hex) in E as [-> ->].
  - destruct (bs_ExecuteBlock _ _ _ _ _ _ _) as [run| |] eqn:E; cbn [mbind outcome_bind]; [|done..].
    destruct (en_err run) eqn:Ee; [done|]. intros [= <- <- <-].
    destruct (bs_ExecuteBlock_serial sha256_hex _ _ _ _ _ _ _ (Hk eq_refl) E Ee) as [-> ->]. done.
Qed.

Lemma serial_result_digest config b storage :
  add_digest (ec_OmitResultDigest config) (serial_result sha256_hex config b storage).2 =
    with_digest sha256_hex (MkBlockResult (b_ID b) (b_Height b) (run_block b 0 (Transactions b) storage).2
      (Snapshot (run_block b 0 (Transactions b) storage).1) "") ∧
  (serial_result sha256_hex config b storage).1 = (run_block b 0 (Transactions b) storage).1.
Proof. unfold serial_result, add_digest. destruct (run_block _ _ _ _). by destruct (ec_OmitResultDigest config). Qed.

(** What the loop has added when it ends without an error. *)
Record blocks_executed (omitDigest : bool) (blocks : list Block) (storage : Store) (x x' : Execution) : Prop := {
  be_results : ∃ new, ex_Results x' = ex_Results x ++ new ∧ add_digest omitDigest <$> new = reference_results blocks storage;
  be_engine : ex_Engine x' = ex_Engine x ∧ ex_Capabilities x' = ex_Capabilities x;
  be_lengths : length (ex_Traces x') = (length (ex_Traces x) + length blocks)%nat ∧
    length (ex_BlockLatencyNS x') = (length (ex_BlockLatencyNS x) + length blocks)%nat;
}.

Lemma execute_blocks_reference e config env index blocks storage x x' :
  (e = BlockSTMEngine → kernels_ok env index blocks storage) →
  execute_blocks sha256_hex e config env index blocks storage x = Returns (inr x') →
  blocks_executed (ec_OmitResultDigest config) blocks storage x x'.
Proof.
  revert index storage x. induction blocks as [|b blocks IH]; intros index storage x Hk; cbn [execute_blocks].
  { intros [= <-]. split; [exists []; by rewrite app_nil_r|done|cbn; split; lia]. }
  destruct (call_engine _ _ _ _ _ _) as [[err|[[s r] t]]| |] eqn:E; cbn [mbind outcome_bind]; [done| |done..].
  apply call_engine_reference in E as [-> ->]; [|intros He; by apply Hk].
  destruct (serial_result_digest config b storage) as [Ed Es].
  assert (e = BlockSTMEngine → kernels_ok env (index + 1) blocks (serial_result sha256_hex config b storage).1) as Hks
    by (intros He; rewrite Es; by apply Hk).
  cbn [deref mbind outcome_bind]. intros H. apply IH in H as [(new & E1 & E2) [E3 E4] [E5 E6]]; [|done]. cbn [ex_Results ex_Engine ex_Capabilities ex_Traces ex_BlockLatencyNS] in *.
  split; [|done|rewrite E5, E6, !length_app; cbn; lia].
  eexists. split; [by rewrite E1, <- app_assoc|]. cbn [app fmap list_fmap reference_results].
  rewrite Ed. rewrite Es in E2. rewrite E2. by destruct (run_block b 0 (Transactions b) storage).
Qed.

(** What a successful execution of a case holds. *)
Record executed (artifact : Artifact) (engine : engine_kind) (input : ExecutionInput) (storage : Store) (x : Execution) : Prop := {
  xd_input : execution_input artifact [] = inr input;
  xd_state : input_NewState input = Some storage;
  xd_engine : ex_Engine x = engine;
  xd_results : ex_Results x = reference_results (i_OrderedBlocks input) storage;
  xd_digest : ex_ResultDigest x = AggregateResultDigest sha256_hex (reference_results (i_OrderedBlocks input) storage);
  xd_lengths : length (ex_Traces x) = length (i_OrderedBlocks input) ∧ length (ex_BlockLatencyNS x) = length (i_OrderedBlocks input);
}.

Definition case_kernels_ok (env : Z → block_env) (artifact : Artifact) : Prop :=
  ∀ input storage, execution_input artifact [] = inr input → input_NewState input = Some storage →
    kernels_ok env 0 (i_OrderedBlocks input) storage.

Lemma add_digest_fmap (omitDigest : bool) (l : list BlockResult) :
  (if omitDigest then with_digest sha256_hex <$> l else l) = add_digest omitDigest <$> l.
Proof. destruct omitDigest; [done|]. by rewrite list_fmap_id. Qed.

Lemma resolveCase_engine c e p : resolveCase c = inr (e, p) →
  match e with SerialEngine => cc_Engine c = "serial" | BlockSTMEngine => cc_Engine c = "blockstm" end.
Proof.
  unfold resolveCase. destruct (String.eqb_spec (cc_Engine c) "serial"); [|destruct (String.eqb_spec (cc_Engine c) "blockstm"); [|done]];
    repeat (destruct (_ =? _)%string; [by intros [= <- _]|]); done.
Qed.

(** The loop keeps the header of the execution. *)
Lemma execute_blocks_header e config env index blocks storage x x' :
  execute_blocks sha256_hex e config env index blocks storage x = Returns (inr x') → ex_Engine x' = ex_Engine x.
Proof.
  revert index storage x. induction blocks as [|b blocks IH]; intros index storage x; cbn [execute_blocks]; [by intros [= <-]|].
  destruct (call_engine _ _ _ _ _ _) as [[err|[[s r] t]]| |]; cbn [mbind outcome_bind]; [done| |done..].
  destruct s as [s|]; cbn [deref mbind outcome_bind]; [|done]. by intros H%IH.
Qed.

(** What an execution says of itself, whatever its kernels did. *)
Lemma Execute_header env artifact c omitDigest maxRSS x : Execute sha256_hex env artifact c omitDigest maxRSS = Returns (inr x) →
  (∃ policy, resolveCase c = inr (ex_Engine x, policy)) ∧ ex_ResultDigest x = AggregateResultDigest sha256_hex (ex_Results x).
Proof.
  unfold Execute. destruct (execution_input artifact []) as [|input] eqn:Ei; [done|].
  destruct (input_NewState input) as [storage|] eqn:Es; [|done]. destruct (resolveCase c) as [|[engine policy]] eqn:Er; [done|].
  destruct (engine_capabilities engine) as [capabilities| |]; cbn [mbind outcome_bind]; [|done..].
  destruct (execute_blocks _ _ _ _ _ _ _ _) as [[err|x']| |] eqn:E; cbn [mbind outcome_bind]; [done| |done..].
  intros [= <-]. apply execute_blocks_header in E. cbn in *. rewrite E. by eauto.
Qed.

(** *** On the frozen path *)

(** The kernel under each block ends only as the frozen path ends. *)
Definition frozen_env (env : Z → block_env) (index : Z) (blocks : list Block) : Prop :=
  ∀ i b, at_index blocks i = Some b →
    Z.of_nat (length (Transactions b)) < 2 ^ 62 ∧ (∀ tx, tx ∈ Transactions b → tx_typed tx) ∧
    ∀ T st e, be_kernel (env (index + i)) T st = Returns e → follows_frozen b st e.

Lemma frozen_kernels_ok env index blocks storage : frozen_env env index blocks → kernels_ok env index blocks storage.
Proof.
  revert index storage. induction blocks as [|b blocks IH]; intros index storage Hf; cbn [kernels_ok]; [done|]. split.
  - intros T. destruct (Hf 0 b eq_refl) as (H1 & H2 & H3). apply frozen_contract; [done|done|]. rewrite Z.add_0_r in H3. apply H3.
  - apply IH. intros i b' Hb. pose proof (at_index_nonneg _ _ _ Hb) as H0. replace (index + 1 + i) with (index + Z.succ i) by lia.
    apply Hf. apply at_index_lookup in Hb; [|done].
    apply at_index_lookup; [lia|]. by rewrite Z2Nat.inj_succ by lia.
Qed.

(** What is assumed of the kernel under a case: nothing under the serial engine,
    which has none; nothing where it runs the frozen path, whose steps are modelled; its contract otherwise,
    that whenever it returns, the memory holds the last attempt of every transaction, valid and
    settled. *)
Inductive kernel_assumed (env : Z → block_env) (artifact : Artifact) (c : CaseConfig) : Prop :=
| assumed_serial : cc_Engine c = "serial" → kernel_assumed env artifact c
| assumed_frozen :
    (∀ input, execution_input artifact [] = inr input → frozen_env env 0 (i_OrderedBlocks input)) → kernel_assumed env artifact c
| assumed_contract : case_kernels_ok env artifact → kernel_assumed env artifact c.

Lemma assumed_ok env artifact c engine policy :
  kernel_assumed env artifact c → resolveCase c = inr (engine, policy) → engine = BlockSTMEngine → case_kernels_ok env artifact.
Proof.
  intros [Hs|Hf|Hk] Hr%resolveCase_engine He; [|intros input storage Ei _; by apply frozen_kernels_ok, Hf|done].
  subst engine. by rewrite Hs in Hr.
Qed.

Lemma Execute_executed env artifact c omitDigest maxRSS x :
  kernel_assumed env artifact c → Execute sha256_hex env artifact c omitDigest maxRSS = Returns (inr x) →
  ∃ engine policy input storage, resolveCase c = inr (engine, policy) ∧ executed artifact engine input storage x.
Proof.
  intros Hk. unfold Execute. destruct (execution_input artifact []) as [|input] eqn:Ei; [done|].
  destruct (input_NewState input) as [storage|] eqn:Es; [|done]. destruct (resolveCase c) as [|[engine policy]] eqn:Er; [done|].
  destruct (engine_capabilities engine) as [capabilities| |]; cbn [mbind outcome_bind]; [|done..].
  destruct (execute_blocks _ _ _ _ _ _ _ _) as [[err|x']| |] eqn:E; cbn [mbind outcome_bind]; [done| |done..].
  intros [= <-]. apply execute_blocks_reference in E as [(new & E1 & E2) [E3 _] [E5 E6]];
    [|intros He; by eapply assumed_ok].
  exists engine, policy, input, storage. split; [done|]. cbn [case_engine_config ec_OmitResultDigest ex_Results app] in *.
  rewrite add_digest_fmap, E1, E2. by split.
Qed.

(** C7: Every engine computes the reference.  Executing a workload with any case —
    either engine, any configuration, policy and schedule — and with or without
    omitting the digests gives, when it succeeds, exactly the results of running
    the blocks in order transaction by transaction on the initial state, each
    with its digest, and the aggregate digest of them; so any two successful
    executions of the same workload have the same results and digest.  Nothing is
    assumed of a serial case, nor of a Block-STM case on the frozen path; of any other
    Block-STM case the kernel contract is assumed ([kernel_assumed]): when the kernel
    returns, every transaction's last attempt is valid and settled in the memory. *)
Theorem Execute_reference env env' artifact c c' omitDigest omitDigest' maxRSS maxRSS' x x' :
  kernel_assumed env artifact c → kernel_assumed env' artifact c' →
  Execute sha256_hex env artifact c omitDigest maxRSS = Returns (inr x) →
  Execute sha256_hex env' artifact c' omitDigest' maxRSS' = Returns (inr x') →
  (∃ engine policy input storage, resolveCase c = inr (engine, policy) ∧ executed artifact engine input storage x) ∧
  ex_Results x' = ex_Results x ∧ ex_ResultDigest x' = ex_ResultDigest x ∧
  BlockDigests sha256_hex (ex_Results x') = BlockDigests sha256_hex (ex_Results x).
Proof.
  intros H1 H2 E1%Execute_executed E2%Execute_executed; [|done..]. split; [done|].
  destruct E1 as (? & ? & input & storage & _ & [Ei Es _ -> -> _]), E2 as (? & ? & input' & storage' & _ & [Ei' Es' _ -> -> _]).
  rewrite Ei in Ei'. injection Ei' as <-. rewrite Es in Es'. by injection Es' as <-.
Qed.

(** ** When an execution succeeds *)

(** The serial case that nothing stops. *)
Definition calm (env : Z → block_env) : Prop := ∀ i, be_ctx (env i) = background.

Definition runnable (b : Block) : Prop := ValidateBlock b = None ∧ ∀ tx, tx ∈ Transactions b → tx_typed tx.

Lemma serial_ExecuteBlock_succeeds block storage c omitDigest clock :
  runnable block → case_resolved c → cc_Engine c = "serial" → cc_Executors c <= 1 →
  ∃ run, ExecuteBlock sha256_hex background block (Some storage)
      (case_engine_config c (MkAnyPolicy unit (preset_policy NewSerialPreset) tt) omitDigest) clock = Returns run ∧ x_err run = None.
Proof.
  intros [Hb Ht] Hc He Hx. destruct (cr_serial _ Hc He) as (_ & Hm & Hp). pose proof (cr_bounds _ Hc).
  destruct (ExecuteBlock_default sha256_hex block storage (case_engine_config c (MkAnyPolicy unit (preset_policy NewSerialPreset) tt) omitDigest)
    clock (case_plan c)) as (d & mode & Hd & ->); [done|cbn; lia|cbn; lia|apply Hc|done|by right|right; apply Hc|].
  destruct (serial_run_preset sha256_hex block (case_engine_config c (MkAnyPolicy unit (preset_policy NewSerialPreset) tt) omitDigest)
    mode storage d Hd Ht) as [trace ->]. eexists. done.
Qed.

(** A serial case with more than one executor never gets through a block. *)
Lemma serial_executors_refused c env block storage policy omitDigest : 1 < cc_Executors c →
  call_engine sha256_hex SerialEngine env block storage (case_engine_config c policy omitDigest) =
    Returns (inl (SerialFailure (default ErrInvalidWorkers (ValidateBlockAndState block (Some storage))))).
Proof.
  intros Hx. cbn [call_engine]. unfold ExecuteBlock. destruct (ValidateBlockAndState block (Some storage)) as [e|]; [done|].
  cbn [case_engine_config ec_Executors]. rewrite (proj2 (Z.eqb_neq (cc_Executors c) 0)), (proj2 (Z.eqb_neq (cc_Executors c) 1)) by lia. done.
Qed.

(** The oracle of a differential validation, a serial case with its preset, always
    succeeds on a workload whose blocks are runnable. *)
Lemma Execute_serial_succeeds env artifact c omitDigest maxRSS input storage :
  execution_input artifact [] = inr input → input_NewState input = Some storage →
  (∀ b, b ∈ i_OrderedBlocks input → runnable b) → calm env →
  case_resolved c → cc_Engine c = "serial" → cc_Policy c = "serial_preset" → cc_Executors c <= 1 →
  ∃ x, Execute sha256_hex env artifact c omitDigest maxRSS = Returns (inr x).
Proof.
  intros Ei Es Hb Henv Hc He Hp Hx. unfold Execute. rewrite Ei, Es. unfold resolveCase. rewrite He, Hp. cbn [String.eqb Ascii.eqb Bool.eqb].
  destruct (engine_capabilities SerialEngine) as [capabilities| |] eqn:Ecap; [|by vm_compute in Ecap..].
  cbn [mbind outcome_bind]. set (x0 := MkExecution _ _ _ _ _ _ _ _). clearbody x0.
  assert (∀ index x, ∃ x', execute_blocks sha256_hex SerialEngine
    (case_engine_config c (MkAnyPolicy unit (preset_policy NewSerialPreset) tt) omitDigest) env index (i_OrderedBlocks input) storage x = Returns (inr x')) as Hloop.
  { clear Ei Es. revert storage. induction (i_OrderedBlocks input) as [|b blocks IH]; intros storage index x; cbn [execute_blocks]; [by eexists|].
    cbn [call_engine]. rewrite Henv. destruct (serial_ExecuteBlock_succeeds b storage c omitDigest (be_clock (env index))) as (run & E & Herr);
      [apply Hb; by left|done..|]. rewrite E. cbn [mbind outcome_bind]. rewrite Herr.
    destruct (ExecuteBlock_any_policy _ _ _ _ _ _ _ E Herr) as [-> _]. cbn [deref mbind outcome_bind].
    apply IH. intros b' Hb'. apply Hb. by right. }
  destruct (Hloop 0 x0) as [x' ->]. cbn [mbind outcome_bind]. by eexists.
Qed.
End reference.

(** ** Two engines on one workload *)

Section witnesses.
#[local] Existing Instance ListTree.
#[local] Existing Instance ListTree_laws.

(** A JSON library that holds one workload. *)
Definition holding (state : list StateEntry) (blocks : list Block) : Json := {|
  json_Valid _ := true; Marshal_artifact _ := None; Decode_artifact _ := None; Decode_any _ := JSONEnd;
  Marshal_input _ := Some []; Unmarshal_input _ := Some (MkExecutionInput state blocks [] []);
|}.

(** A digest that tells results of different lengths apart. *)
Definition length_digest (b : Bytes) : string := String.string_of_list_byte (replicate (length b) Byte.x78).
Definition sample_env (_ : Z) : block_env := MkBlockEnv background [] sample_kernel 5.
Definition sample_artifact : Artifact := zeroArtifact.

Lemma sample_env_ok : case_kernels_ok (J := holding [] [sample_block]) sample_env sample_artifact.
Proof.
  intros input storage Ei Es. injection Ei as <-. injection Es as <-. split; [exact sample_kernel_contract|exact I].
Qed.

(** Two executors on the frozen path. *)
Definition frozen_sample_env (_ : Z) : block_env := MkBlockEnv background [] (frozen_kernel sample_block 2 (mjoin (replicate 400 [0; 1]%nat))) 5.

Lemma frozen_sample_env_ok c : kernel_assumed (J := holding [] [sample_block]) frozen_sample_env sample_artifact c.
Proof.
  apply assumed_frozen. intros input Ei. injection Ei as <-. intros i b Hb.
  assert (b = sample_block) as ->.
  { apply at_index_elem in Hb. by apply list_elem_of_singleton in Hb. }
  split; [vm_compute; reflexivity|]. split; [exact sample_block_typed|].
  intros T st e. apply frozen_kernel_follows; vm_compute; reflexivity.
Qed.

Definition sample_run (c : CaseConfig) : outcome (run_error + Execution) :=
  Execute (J := holding [] [sample_block]) length_digest frozen_sample_env sample_artifact c false 0.

(** The serial engine and two executors on the frozen path: no contract is assumed. *)
Lemma Execute_reference_witness :
  match sample_run (sample_case "s" "serial" TraceOff 1), sample_run (sample_case "b" "blockstm" TraceOff 2) with
  | Returns (inr x), Returns (inr x') =>
      length (ex_Results x) = 1%nat ∧ ex_ExecutionNS x = 5 ∧ ex_Results x' = ex_Results x ∧ ex_ResultDigest x' = ex_ResultDigest x
  | _, _ => False
  end.
Proof.
  assert (match sample_run (sample_case "s" "serial" TraceOff 1) with
          | Returns (inr x) => length (ex_Results x) = 1%nat ∧ ex_ExecutionNS x = 5 | _ => False end) as Hs by (vm_compute; split; reflexivity).
  assert (match sample_run (sample_case "b" "blockstm" TraceOff 2) with Returns (inr _) => True | _ => False end) as Hb by (vm_compute; exact I).
  destruct (sample_run (sample_case "s" "serial" TraceOff 1)) as [[e|x]| |] eqn:E; try (exfalso; exact Hs).
  destruct (sample_run (sample_case "b" "blockstm" TraceOff 2)) as [[e|x']| |] eqn:E'; try (exfalso; exact Hb).
  unfold sample_run in E, E'.
  destruct (Execute_reference (J := holding [] [sample_block]) length_digest frozen_sample_env frozen_sample_env sample_artifact
    (sample_case "s" "serial" TraceOff 1) (sample_case "b" "blockstm" TraceOff 2) false false 0 0 x x'
    (assumed_serial (J := holding [] [sample_block]) _ _ (sample_case "s" "serial" TraceOff 1) eq_refl) (frozen_sample_env_ok _) E E') as (_ & H1 & H2 & _).
  destruct Hs as [? ?]. repeat split; assumption.
Defined.
End witnesses.
