(* ===== verification/Runner.v ===== *)
(** * internal/experiment/runner.go: validating and running a matrix

    The differential validation of the cases against the serial engine, the
    schedule of a run, the worker, and the loop over the scheduled runs.  What a
    write to a file, a worker process or the clock does comes in as an argument;
    an error is kept as a value where the code keeps its text. *)

From Stdlib Require Import ZArith Lia String.
From S2P Require Import Prelude Float64 Format BTree Types Model Canonical State Runtime Plan Workload Generator Control Dispatcher Serial Engine Serializable KernelPolicy Telemetry Experiment Execution.
Local Open Scope Z_scope.

Inductive runner_error :=
| ProtocolFailed (e : protocol_error)
| WorkloadFailed (e : workload_error)
| OracleFailed (e : run_error)
| CaseFailed (case : string) (e : run_error)
| ErrCanonicalMismatch (case : string)
| WriteFailed
| UnknownCase (id : string)
| ExecutionFailed (e : run_error).

Record ValidationResult := MkValidationResult { vl_Cases : Z; vl_ResultDigest : string }.
Record WorkerRequest := MkWorkerRequest { wr_CaseID : string; wr_Phase : string; wr_Round : Z; wr_Order : Z }.

(** Errors of a run of the matrix; [W] is what a worker can fail with. *)
Inductive invoke_error {W : Type} := WorkerError (e : W) | InvokeMismatch.
Arguments invoke_error : clear implicits.
Inductive matrix_error {W : Type} :=
| PrepareError (e : runner_error)
| RunFailed (request : WorkerRequest) (e : invoke_error W)
| AblationError
| ErrTelemetryBudget (observed budget : float64)
| MatrixWriteFailed.
Arguments matrix_error : clear implicits.

Abbreviation run_record W := (BenchmarkRecord (E := invoke_error W) + AblationRecord)%type.
Record WorkerResponse {W : Type} := MkWorkerResponse {
  rs_Record : BenchmarkRecord (E := invoke_error W);
  rs_Traces : list ActionTraceRecord;
}.
Arguments WorkerResponse : clear implicits.

(** ** Preparation *)

Definition UpstreamCommit : string := "7afe924fb4a611a2626f92338f1f76e4ebefa62f".

(** What the process and its platform say of themselves. *)
Record identity := MkRunIdentity { id_commit : string; id_modified : bool; id_pid : Z; id_hardware : Hardware }.

Definition run_provenance (loaded : LoadedConfig) (artifact : Artifact) (id : identity) : Provenance :=
  let c := lc_Config loaded in
  MkProvenance (lc_Path loaded) (id_commit id) (id_modified id) (id_pid id) UpstreamCommit ConfigSchemaVersion
    StatisticalProtocolSchemaVersion (a_SchemaVersion artifact) (g_Version (a_Generator artifact)) (g_Seed (a_Generator artifact))
    (id_hardware id) (xc_Environment c)
    (MkRunProtocol (xc_RunClass c) (xc_WarmupRounds c) (xc_MeasurementRounds c) (xc_OrderSeed c) (xc_Timeout c)).

(** The files are what reading the protocol and the artifact finds. *)
Definition prepare {R : Rand} {P : MathPow} `{J : Json} {CJ : ConfigJson} (patience : nat)
    (decode : Bytes → option (StatisticalProtocol * Bytes)) (protocolFile artifactFile : option Bytes) (id : identity)
    (loaded : LoadedConfig) : outcome (runner_error + (StatisticalProtocol * Artifact * Provenance)) :=
  match LoadStatisticalProtocol decode protocolFile with
  | inl e => Returns (inl (ProtocolFailed e))
  | inr protocol =>
      match ValidateRunClass protocol (lc_Config loaded) with
      | Some e => Returns (inl (ProtocolFailed e))
      | None =>
          '(artifact, e) ← LoadWorkload patience (xc_Workload (lc_Config loaded)) artifactFile;
          match e with
          | Some e => Returns (inl (WorkloadFailed e))
          | None => Returns (inr (protocol, artifact, run_provenance loaded artifact id))
          end
      end
  end.

Definition lookupCase (cases : list CaseConfig) (id : string) : option CaseConfig :=
  findb (λ c, (cc_ID c =? id)%string) cases.
Definition containsString (values : list string) (target : string) : bool := existsb (λ v, (v =? target)%string) values.

(** [%s/%s/%04d/%02d] *)
Definition runID (r : WorkerRequest) : string :=
  (wr_CaseID r ++ "/" ++ wr_Phase r ++ "/" ++ string_of (padded 4 (wr_Round r)) ++ "/" ++ string_of (padded 2 (wr_Order r)))%string.

(** ** The schedule *)

(** [rand.New(rand.NewSource(seed)).Shuffle(n, swap)]: the calls of [swap]. *)
Class Shuffle := shuffle_swaps : Z → Z → list (Z * Z).
Class ShuffleLaws (S : Shuffle) := shuffle_in_range seed n i j : (i, j) ∈ shuffle_swaps seed n → 0 <= i < n ∧ 0 <= j < n.

Section schedule.
Context {S : Shuffle}.

(** [indices[i], indices[j] = indices[j], indices[i]] *)
Definition swap (indices : list Z) (ij : Z * Z) : outcome (list Z) :=
  x ← deref (at_index indices ij.1);
  y ← deref (at_index indices ij.2);
  Returns (<[Z.to_nat ij.2 := x]> (<[Z.to_nat ij.1 := y]> indices)).

(** The requests of a round from its shuffled indices. *)
Fixpoint schedule_round (cases : list CaseConfig) (phase : string) (round order : Z) (indices : list Z) : outcome (list WorkerRequest) :=
  match indices with
  | [] => Returns []
  | index :: indices =>
      c ← deref (at_index cases index);
      rest ← schedule_round cases phase round (order + 1) indices;
      Returns (MkWorkerRequest (cc_ID c) phase round order :: rest)
  end.

Definition appendRounds (c : ExperimentConfig) (schedule : list WorkerRequest) (phase : string) (rounds seedOffset : Z) :
    outcome (list WorkerRequest) :=
  let n := Z.of_nat (length (xc_Cases c)) in
  foldM (λ schedule round,
      indices ← foldM swap (seqZ 0 n) (shuffle_swaps (i64 (i64 (xc_OrderSeed c + seedOffset) + round)) n);
      requests ← schedule_round (xc_Cases c) phase round 0 indices;
      Returns (schedule ++ requests))
    schedule (seqZ 0 rounds).

(** [make] panics for a negative capacity. *)
Definition buildSchedule (c : ExperimentConfig) : outcome (list WorkerRequest) :=
  if i64 (i64 (xc_WarmupRounds c + xc_MeasurementRounds c) * Z.of_nat (length (xc_Cases c))) <? 0 then Panics
  else
    schedule ← appendRounds c [] "warmup" (xc_WarmupRounds c) 0;
    appendRounds c schedule "measurement" (xc_MeasurementRounds c) (2 ^ 32).
End schedule.

(** ** Differential validation *)

Section runner.
Context {BT : BTreeLib} `{J : Json} {MR : MapRange} (sha256_hex : Bytes → string).

Definition oracleCase : CaseConfig :=
  MkCaseConfig "serial-oracle" "serial" "serial_preset" 1 0 DependencyMVCCRuntime DependencySourceRuntimeObserved VersionOnly
    BuilderNone WaitNone EstimatesDisabled DispatchIndexOrder EstimateReadSuspendInPlace IdleWaitGosched TraceOff.

Abbreviation validation := (ValidationRecord (E := run_error)).

Definition validated (c : CaseConfig) (provenance : Provenance) (oracle candidate : Execution) : validation :=
  MkValidationRecord _ ValidationRecordSchema (cc_ID c ++ "/validate") "success" None (TelemetryCase c) (ex_Capabilities candidate)
    provenance (ex_ResultDigest oracle) (ex_ResultDigest candidate) (ResultsEqual oracle candidate).

Definition not_validated (c : CaseConfig) (provenance : Provenance) (e : run_error) : validation :=
  MkValidationRecord _ ValidationRecordSchema (cc_ID c ++ "/validate") "failed" (Some e) (TelemetryCase c) (MkCapabilities "" [])
    provenance "" "" false.

(** The loop over the cases; [env index] is the environment of a case. *)
Fixpoint validate_cases (env : Z → Z → block_env) (maxRSS : Z) (artifact : Artifact) (provenance : Provenance) (oracle : Execution)
    (index : Z) (cases : list CaseConfig) (records : list validation) (mismatch : option runner_error) :
    outcome (list validation * (runner_error + option runner_error)) :=
  match cases with
  | [] => Returns (records, inr mismatch)
  | c :: cases =>
      r ← Execute sha256_hex (env index) artifact c false maxRSS;
      match r with
      | inl e => Returns (records ++ [not_validated c provenance e], inl (CaseFailed (cc_ID c) e))
      | inr candidate =>
          let match_ := ResultsEqual oracle candidate in
          let mismatch := match mismatch with
                          | Some e => Some e
                          | None => if match_ then None else Some (ErrCanonicalMismatch (cc_ID c))
                          end in
          validate_cases env maxRSS artifact provenance oracle (index + 1) cases
            (records ++ [validated c provenance oracle candidate]) mismatch
      end
  end.

(** The records given to the file, if any, and the result; [written]: the write succeeds. *)
Definition validate (oracleEnv : Z → block_env) (env : Z → Z → block_env) (maxRSS : Z) (written : bool) (loaded : LoadedConfig)
    (artifact : Artifact) (provenance : Provenance) : outcome (option (list validation) * (runner_error + ValidationResult)) :=
  r ← Execute sha256_hex oracleEnv artifact oracleCase false maxRSS;
  match r with
  | inl e => Returns (None, inl (OracleFailed e))
  | inr oracle =>
      '(records, r) ← validate_cases env maxRSS artifact provenance oracle 0 (xc_Cases (lc_Config loaded)) [] None;
      Returns (Some records,
        if negb written then inl WriteFailed
        else match r with
        | inl e | inr (Some e) => inl e
        | inr None => inr (MkValidationResult (Z.of_nat (length records)) (ex_ResultDigest oracle))
        end)
  end.

(** ** A worker *)

Definition trace_records (run : string) (x : Execution) : outcome (list ActionTraceRecord) :=
  foldM (λ l it, r ← deref (at_index (ex_Results x) it.1); Returns (l ++ [MkActionTraceRecord ActionTraceSchema run (br_BlockID r) it.2]))
    [] (imap (λ i t, (Z.of_nat i, t)) (ex_Traces x)).

(** [RunWorker] after its preparation. *)
Definition run_worker {W} (env : Z → block_env) (maxRSS : Z) (loaded : LoadedConfig) (artifact : Artifact) (provenance : Provenance)
    (request : WorkerRequest) : outcome (runner_error + WorkerResponse W) :=
  match lookupCase (xc_Cases (lc_Config loaded)) (wr_CaseID request) with
  | None => Returns (inl (UnknownCase (wr_CaseID request)))
  | Some c =>
      r ← Execute sha256_hex env artifact c true maxRSS;
      match r with
      | inl e => Returns (inl (ExecutionFailed e))
      | inr x =>
          let record := MkBenchmarkRecord _ BenchmarkRecordSchema (runID request) "performance" "success" false None
            (wr_Phase request) (wr_Round request) (wr_Order request) (TelemetryCase c) (ex_Capabilities x) provenance
            (MkTiming (ex_ExecutionNS x) (ex_BlockLatencyNS x))
            (CollectMetrics (ex_Results x) (ex_Traces x) (ex_ExecutionNS x) (ex_MaxRSSBytes x))
            (BlockDigests sha256_hex (ex_Results x)) (ex_ResultDigest x) false in
          traces ← (if (cc_TraceMode c =? TraceDetailed)%string then trace_records (runID request) x else Returns []);
          Returns (inr (MkWorkerResponse W record traces))
      end
  end.

Definition RunWorker {W} {R : Rand} {P : MathPow} {CJ : ConfigJson} (patience : nat)
    (decode : Bytes → option (StatisticalProtocol * Bytes)) (protocolFile artifactFile : option Bytes) (id : identity)
    (env : Z → block_env) (maxRSS : Z) (loaded : LoadedConfig) (request : WorkerRequest) : outcome (runner_error + WorkerResponse W) :=
  p ← prepare patience decode protocolFile artifactFile id loaded;
  match p with
  | inl e => Returns (inl e)
  | inr (_, artifact, provenance) => run_worker env maxRSS loaded artifact provenance request
  end.

(** ** The matrix *)

Definition zeroCase : CaseConfig := MkCaseConfig "" "" "" 0 0 "" "" "" "" "" "" "" "" "" "".

Definition set_match {W} (b : BenchmarkRecord (E := invoke_error W)) (matched : bool) : BenchmarkRecord (E := invoke_error W) :=
  MkBenchmarkRecord _ (bm_SchemaVersion b) (bm_RunID b) (bm_Mode b) (bm_Status b) (bm_Censored b) (bm_Error b) (bm_Phase b)
    (bm_Round b) (bm_Order b) (bm_Case b) (bm_Capabilities b) (bm_Provenance b) (bm_Timing b) (bm_Metrics b)
    (bm_BlockDigests b) (bm_ResultDigest b) matched.

Definition zero_timing : Timing := MkTiming 0 [].
Definition no_metrics : Metrics :=
  MkMetrics 0 0 0 0 0 0 0 0 0 f0 f0 0 0 0 0 0 0 0 0 [] [] 0 false false 0 0 0 zeroDependencyCounters zeroKernelPolicyCounters [].

(** The capabilities of a failed run's engine, if it is known. *)
Definition case_capabilities (c : CaseConfig) : outcome Capabilities :=
  match resolveCase c with inr (e, _) => engine_capabilities e | inl _ => Returns (MkCapabilities "" []) end.

Definition failed_record {W} (loaded : LoadedConfig) (provenance : Provenance) (request : WorkerRequest) (timedOut : bool)
    (e : invoke_error W) : outcome (BenchmarkRecord (E := invoke_error W)) :=
  let c := default zeroCase (lookupCase (xc_Cases (lc_Config loaded)) (wr_CaseID request)) in
  capabilities ← case_capabilities c;
  Returns (MkBenchmarkRecord _ BenchmarkRecordSchema (runID request) "performance" (if timedOut then "censored_timeout" else "failed")
    timedOut (Some e) (wr_Phase request) (wr_Round request) (wr_Order request) (TelemetryCase c) capabilities provenance
    zero_timing no_metrics [] "" false).

(** What has been collected so far. *)
Record progress {W : Type} := MkProgress {
  pg_records : list (run_record W);
  pg_traces : list ActionTraceRecord;
  pg_samples : gmap string (list Z);
}.
Arguments progress : clear implicits.
Arguments MkProgress {_} _ _ _.

(** A response with the oracle's digest. *)
Definition accept {W} (p : progress W) (record : BenchmarkRecord (E := invoke_error W)) (traces : list ActionTraceRecord) : progress W :=
  MkProgress (pg_records p ++ [inl record]) (pg_traces p ++ traces)
    (if (bm_Phase record =? "measurement")%string
     then let id := cs_ID (bm_Case record) in
          <[id := default [] (pg_samples p !! id) ++ [tm_ExecutionNS (bm_Timing record)]]> (pg_samples p)
     else pg_samples p).

(** [invoke index request]: what the worker returns, and whether its context has
    timed out. *)
Definition WorkerInvoker (W : Type) : Type := (Z → WorkerRequest → (W + WorkerResponse W) * bool).

Fixpoint run_schedule {W} (invoke : WorkerInvoker W) (oracleDigest : string) (loaded : LoadedConfig) (provenance : Provenance)
    (index : Z) (schedule : list WorkerRequest) (p : progress W) : outcome (progress W * option (matrix_error W)) :=
  match schedule with
  | [] => Returns (p, None)
  | request :: schedule =>
      let '(response, timedOut) := invoke index request in
      let checked :=
        match response with
        | inl e => inl (WorkerError e)
        | inr r => if (bm_ResultDigest (rs_Record r) =? oracleDigest)%string then inr r else inl InvokeMismatch
        end in
      match checked with
      | inl e =>
          record ← failed_record loaded provenance request timedOut e;
          Returns (MkProgress (pg_records p ++ [inl record]) (pg_traces p) (pg_samples p), Some (RunFailed request e))
      | inr r => run_schedule invoke oracleDigest loaded provenance (index + 1) schedule (accept p (set_match (rs_Record r) true) (rs_Traces r))
      end
  end.

(** The ablation record, if one is asked for; [goos] is the platform. *)
Definition run_ablation {W} (loaded : LoadedConfig) (protocol : StatisticalProtocol) (goos : string) (p : progress W) :
    outcome (progress W * option (matrix_error W)) :=
  match xc_TelemetryAblation (lc_Config loaded) with
  | None => Returns (p, None)
  | Some a =>
      let enforced := containsString (EnforcePlatforms a) goos in
      record ← NewAblationRecord (ta_OffCase a) (ta_InstrumentedCase a) (default [] (pg_samples p !! ta_OffCase a))
                 (default [] (pg_samples p !! ta_InstrumentedCase a)) (TelemetryOverheadBudgetRatio protocol) enforced;
      match record with
      | None => Returns (p, Some AblationError)
      | Some record =>
          let p := MkProgress (pg_records p ++ [inr record]) (pg_traces p) (pg_samples p) in
          Returns (p, if enforced && negb (ab_WithinBudget record)
                      then Some (ErrTelemetryBudget (ab_OverheadRatio record) (ab_BudgetRatio record)) else None)
      end
  end.

(** What is given to the two files, and the error returned. *)
Record matrix_end {W : Type} := MkMatrixEnd {
  mx_records : option (list (run_record W));
  mx_traces : option (list ActionTraceRecord);
  mx_err : option (matrix_error W);
}.
Arguments matrix_end : clear implicits.
Arguments MkMatrixEnd {_} _ _ _.

(** [writeRunOutputs], and then the error; [writes]: whether each write succeeds. *)
Definition writeRunOutputs {W} (writes : bool * bool) (p : progress W) (err : option (matrix_error W)) : matrix_end W :=
  if negb writes.1 then MkMatrixEnd (Some (pg_records p)) None (Some MatrixWriteFailed)
  else if negb writes.2 then MkMatrixEnd (Some (pg_records p)) (Some (pg_traces p)) (Some MatrixWriteFailed)
  else MkMatrixEnd (Some (pg_records p)) (Some (pg_traces p)) err.

(** [RunMatrix] after its preparation and validation. *)
Definition run_matrix {W} `{Sh : Shuffle} (invoke : WorkerInvoker W) (writes : bool * bool) (goos : string) (loaded : LoadedConfig)
    (protocol : StatisticalProtocol) (provenance : Provenance) (oracleDigest : string) : outcome (matrix_end W) :=
  schedule ← buildSchedule (lc_Config loaded);
  '(p, err) ← run_schedule invoke oracleDigest loaded provenance 0 schedule (MkProgress [] [] ∅);
  match err with
  | Some _ => Returns (writeRunOutputs writes p err)
  | None => '(p, err) ← run_ablation loaded protocol goos p; Returns (writeRunOutputs writes p err)
  end.

Definition RunMatrix {W} `{Sh : Shuffle} {R : Rand} {P : MathPow} {CJ : ConfigJson} (patience : nat)
    (decode : Bytes → option (StatisticalProtocol * Bytes)) (protocolFile artifactFile : option Bytes) (id : identity)
    (oracleEnv : Z → block_env) (env : Z → Z → block_env) (maxRSS : Z) (validationWritten : bool)
    (invoke : WorkerInvoker W) (writes : bool * bool) (goos : string) (loaded : LoadedConfig) : outcome (matrix_end W) :=
  p ← prepare patience decode protocolFile artifactFile id loaded;
  match p with
  | inl e => Returns (MkMatrixEnd None None (Some (PrepareError e)))
  | inr (protocol, artifact, provenance) =>
      '(_, v) ← validate oracleEnv env maxRSS validationWritten loaded artifact provenance;
      match v with
      | inl e => Returns (MkMatrixEnd None None (Some (PrepareError e)))
      | inr v => run_matrix invoke writes goos loaded protocol provenance (vl_ResultDigest v)
      end
  end.

Definition Validate_matrix {R : Rand} {P : MathPow} {CJ : ConfigJson} (patience : nat)
    (decode : Bytes → option (StatisticalProtocol * Bytes)) (protocolFile artifactFile : option Bytes) (id : identity)
    (oracleEnv : Z → block_env) (env : Z → Z → block_env) (maxRSS : Z) (written : bool) (loaded : LoadedConfig) :
    outcome (option (list validation) * (runner_error + ValidationResult)) :=
  p ← prepare patience decode protocolFile artifactFile id loaded;
  match p with
  | inl e => Returns (None, inl e)
  | inr (_, artifact, provenance) => validate oracleEnv env maxRSS written loaded artifact provenance
  end.
End runner.
Arguments progress : clear implicits.
Arguments MkProgress {_} _ _ _.
Arguments matrix_end : clear implicits.
Arguments MkMatrixEnd {_} _ _ _.
