(* ===== verification/RunnerProps.v ===== *)
(** * What the experiment runner promises

    The schedule is balanced, the differential validation raises no false alarm
    but one, and a matrix whose workers succeed completes. *)

From Stdlib Require Import ZArith Lia String.
From S2P Require Import Prelude Float64 Format Utils BTree Types MVData Model Canonical State Runtime Plan Workload Generator Control Accounting Dispatcher Serial Adapter Engine Serializable KernelPolicy Telemetry Experiment Execution Runner.
Local Open Scope Z_scope.

(** ** The schedule *)

Definition transpose (i j k : nat) : nat := if decide (k = i) then j else if decide (k = j) then i else k.

Lemma transpose_inj i j : Inj (=) (=) (transpose i j).
Proof. intros a b. unfold transpose. repeat case_decide; congruence. Qed.

Lemma swap_perm l i j : 0 <= i < Z.of_nat (length l) → 0 <= j < Z.of_nat (length l) → ∃ l', swap l (i, j) = Returns l' ∧ l' ≡ₚ l.
Proof.
  intros Hi Hj. unfold swap. cbn [fst snd]. destruct (at_index_in l i Hi) as [x Hx], (at_index_in l j Hj) as [y Hy].
  rewrite Hx, Hy. cbn [deref mbind outcome_bind]. eexists. split; [done|].
  apply at_index_lookup in Hx, Hy; [|lia..]. apply Permutation_inj. split; [by rewrite !length_insert|].
  exists (transpose (Z.to_nat i) (Z.to_nat j)). split; [apply transpose_inj|]. intros k. unfold transpose.
  rewrite !list_lookup_insert, length_insert. repeat case_decide; try lia; destruct_and?; subst; try done; congruence.
Qed.

Lemma swaps_perm l ijs : (∀ i j, (i, j) ∈ ijs → 0 <= i < Z.of_nat (length l) ∧ 0 <= j < Z.of_nat (length l)) →
  ∃ l', foldM swap l ijs = Returns l' ∧ l' ≡ₚ l.
Proof.
  revert l. induction ijs as [|[i j] ijs IH]; intros l Hr; cbn [foldM]; [by exists l|].
  destruct (Hr i j) as [Hi Hj]; [by left|]. destruct (swap_perm l i j Hi Hj) as (l1 & -> & H1). cbn [mbind outcome_bind].
  destruct (IH l1) as (l' & E & H2); [intros i' j' Hin; rewrite H1; apply Hr; by right|]. exists l'. split; [done|]. by rewrite H2.
Qed.

Definition slot_of (r : WorkerRequest) : string * Z * Z := (wr_Phase r, wr_Round r, wr_Order r).
Definition run_of (r : WorkerRequest) : string * Z * string := (wr_Phase r, wr_Round r, wr_CaseID r).

Lemma schedule_round_spec cases phase round order indices :
  (∀ i, i ∈ indices → 0 <= i < Z.of_nat (length cases)) →
  ∃ s, schedule_round cases phase round order indices = Returns s ∧
    slot_of <$> s = (λ o, (phase, round, o)) <$> seqZ order (Z.of_nat (length indices)) ∧
    run_of <$> s = omap (λ i, c ← at_index cases i; Some (phase, round, cc_ID c)) indices.
Proof.
  revert order. induction indices as [|i indices IH]; intros order Hr; cbn [schedule_round]; [by exists []|].
  destruct (at_index_in cases i) as [c Hc]; [apply Hr; by left|]. destruct (IH (order + 1)) as (s & -> & H1 & H2); [intros; apply Hr; by right|].
  rewrite Hc. cbn [deref mbind outcome_bind]. eexists. split; [done|]. split.
  - cbn [fmap list_fmap length]. rewrite H1, (seqZ_cons order) by lia. cbn [fmap list_fmap]. do 3 f_equal. lia.
  - cbn [fmap list_fmap omap list_omap]. rewrite H2, Hc. done.
Qed.

Lemma omap_indices {A B} (f : A → B) (l : list A) : omap (λ i, x ← at_index l i; Some (f x)) (seqZ 0 (Z.of_nat (length l))) = f <$> l.
Proof.
  induction l as [|x l IH] using rev_ind; [done|]. rewrite length_app, Nat2Z.inj_add. cbn [length]. rewrite seqZ_app, omap_app by lia.
  rewrite fmap_app, <- IH. f_equal.
  - apply list_omap_ext. clear. generalize (seqZ 0 (Z.of_nat (length l))) as s, (λ i, proj1 (elem_of_seqZ 0 (Z.of_nat (length l)) i)) as Hs.
    intros s Hs. induction s as [|i s IH]; constructor; [|apply IH; intros; apply Hs; by right].
    destruct (Hs i) as [H1 H2]; [by left|]. unfold at_index. rewrite (proj2 (Z.leb_le _ _) H1). by rewrite lookup_app_l by lia.
  - rewrite Z.add_0_l. change (seqZ (Z.of_nat (length l)) (Z.of_nat 1)) with [Z.of_nat (length l)]. cbn [omap list_omap].
    unfold at_index. rewrite (proj2 (Z.leb_le _ _)) by lia. rewrite Nat2Z.id, list_lookup_middle by done. done.
Qed.

Lemma omap_perm_indices {A B} (f : A → B) (l : list A) (indices : list Z) :
  indices ≡ₚ seqZ 0 (Z.of_nat (length l)) → omap (λ i, x ← at_index l i; Some (f x)) indices ≡ₚ f <$> l.
Proof. intros ->. by rewrite omap_indices. Qed.

(** The runs of one round, and of consecutive rounds of a phase. *)
Definition round_slots (n : Z) (phase : string) (round : Z) : list (string * Z * Z) := (λ order, (phase, round, order)) <$> seqZ 0 n.
Definition round_runs (cases : list CaseConfig) (phase : string) (round : Z) : list (string * Z * string) :=
  (λ c, (phase, round, cc_ID c)) <$> cases.
Definition slots (n : Z) (phase : string) (rounds : Z) : list (string * Z * Z) := seqZ 0 rounds ≫= round_slots n phase.
Definition runs (cases : list CaseConfig) (phase : string) (rounds : Z) : list (string * Z * string) :=
  seqZ 0 rounds ≫= round_runs cases phase.

(** ** How often a case is measured *)

Definition measured (id : string) (run : string * Z * string) : Prop := run.1.1 = "measurement" ∧ run.2 = id.
#[export] Instance measured_dec id run : Decision (measured id run).
Proof. unfold measured. apply _. Defined.

Lemma length_filter_fmap {A B} (P : B → Prop) `{!∀ x, Decision (P x)} (f : A → B) (l : list A) :
  length (filter P (f <$> l)) = length (filter (λ x, P (f x)) l).
Proof. induction l as [|x l IH]; [done|]. cbn [fmap list_fmap]. rewrite !filter_cons. by repeat case_decide; cbn [length]; rewrite ?IH. Qed.

Lemma measured_once id phase round cases : NoDup (cc_ID <$> cases) → id ∈ cc_ID <$> cases →
  length (filter (measured id) (round_runs cases phase round)) = if decide (phase = "measurement") then 1%nat else 0%nat.
Proof.
  intros Hnd Hin. unfold round_runs. rewrite length_filter_fmap. unfold measured. cbn [fst snd].
  case_decide as Hp; [subst|clear Hnd Hin; induction cases as [|c cases IH]; [done|]; by rewrite filter_cons, decide_False by (by intros [? _])].
  induction cases as [|c cases IH]; [by apply elem_of_nil in Hin|]. cbn in Hnd, Hin. apply NoDup_cons in Hnd as [Hn Hnd].
  rewrite filter_cons. case_decide as Hc.
  - destruct Hc as [_ <-]. cbn [length]. f_equal. clear IH Hin Hnd. induction cases as [|c' cases IH]; [done|]. cbn in Hn. apply not_elem_of_cons in Hn as [? Hn].
    rewrite filter_cons, decide_False by (by intros [_ ?]). by apply IH.
  - apply elem_of_cons in Hin as [->|Hin]; [by destruct Hc|]. by apply IH.
Qed.

Lemma measured_runs id phase cases rounds : NoDup (cc_ID <$> cases) → id ∈ cc_ID <$> cases →
  length (filter (measured id) (runs cases phase rounds)) = if decide (phase = "measurement") then Z.to_nat rounds else 0%nat.
Proof.
  intros Hnd Hin. unfold runs. transitivity (if decide (phase = "measurement") then length (seqZ 0 rounds) else 0%nat); [|by rewrite length_seqZ].
  induction (seqZ 0 rounds) as [|round l IH]; [by case_decide|]. cbn [mbind list_bind]. rewrite filter_app, length_app, measured_once by done.
  cbn [mbind list_bind] in IH. rewrite IH. by case_decide.
Qed.

(** Every case is measured once in every measurement round. *)
Lemma measured_schedule id cases warmup rounds (s : list WorkerRequest) :
  run_of <$> s ≡ₚ runs cases "warmup" warmup ++ runs cases "measurement" rounds → NoDup (cc_ID <$> cases) → id ∈ cc_ID <$> cases →
  length (filter (λ r, measured id (run_of r)) s) = Z.to_nat rounds.
Proof.
  intros Hs Hnd Hin. rewrite <- length_filter_fmap, Hs, filter_app, length_app, !measured_runs by done. done.
Qed.

(** ** The schedule is balanced *)

Section schedule.
Context {Sh : Shuffle} {SL : ShuffleLaws Sh}.

Lemma shuffled_round cases phase round seed :
  let n := Z.of_nat (length cases) in
  ∃ indices s, foldM swap (seqZ 0 n) (shuffle_swaps seed n) = Returns indices ∧ schedule_round cases phase round 0 indices = Returns s ∧
    slot_of <$> s = round_slots n phase round ∧ run_of <$> s ≡ₚ round_runs cases phase round.
Proof.
  cbv zeta. set (n := Z.of_nat (length cases)). assert (Z.of_nat (length (seqZ 0 n)) = n) as Hn by (rewrite length_seqZ; unfold n; lia).
  destruct (swaps_perm (seqZ 0 n) (shuffle_swaps seed n)) as (indices & -> & Hp); [rewrite Hn; apply shuffle_in_range|].
  destruct (schedule_round_spec cases phase round 0 indices) as (s & E & H1 & H2); [intros i; rewrite Hp, elem_of_seqZ; unfold n; lia|].
  exists indices, s. split_and!; [done|done|by rewrite H1, Hp, Hn|]. rewrite H2. by apply (omap_perm_indices (λ c, (phase, round, cc_ID c))).
Qed.

Lemma appendRounds_exact c schedule phase rounds seedOffset :
  ∃ s, appendRounds c schedule phase rounds seedOffset = Returns (schedule ++ s) ∧
    slot_of <$> s = slots (Z.of_nat (length (xc_Cases c))) phase rounds ∧ run_of <$> s ≡ₚ runs (xc_Cases c) phase rounds.
Proof.
  unfold appendRounds, slots, runs. cbv zeta. generalize (seqZ 0 rounds) as l. intros l. revert schedule.
  induction l as [|round l IH]; intros schedule; cbn [foldM]; [exists []; by rewrite app_nil_r|].
  destruct (shuffled_round (xc_Cases c) phase round (i64 (i64 (xc_OrderSeed c + seedOffset) + round))) as (indices & s1 & -> & E1 & H1 & H2).
  cbn [mbind outcome_bind] in *. rewrite E1. cbn [mbind outcome_bind]. destruct (IH (schedule ++ s1)) as (s2 & -> & H3 & H4).
  exists (s1 ++ s2). cbn [list_bind mbind] in *. split; [by rewrite app_assoc|]. rewrite !fmap_app, H1, H2, H3, H4. done.
Qed.

(** First the warm-up and then the measurement rounds, in order, each with its
    positions in order; and every case exactly once in every round of a phase. *)
Record balanced (c : ExperimentConfig) (s : list WorkerRequest) : Prop := {
  bl_slots : slot_of <$> s = slots (Z.of_nat (length (xc_Cases c))) "warmup" (xc_WarmupRounds c) ++
                             slots (Z.of_nat (length (xc_Cases c))) "measurement" (xc_MeasurementRounds c);
  bl_runs : run_of <$> s ≡ₚ runs (xc_Cases c) "warmup" (xc_WarmupRounds c) ++ runs (xc_Cases c) "measurement" (xc_MeasurementRounds c);
}.

(** The number of runs fits into an [int]. *)
Definition rounds_fit (c : ExperimentConfig) : Prop :=
  0 <= xc_WarmupRounds c ∧ 0 <= xc_MeasurementRounds c ∧
  (xc_WarmupRounds c + xc_MeasurementRounds c) * Z.max 1 (Z.of_nat (length (xc_Cases c))) < 2 ^ 63.

Lemma buildSchedule_balanced c : rounds_fit c → ∃ s, buildSchedule c = Returns s ∧ balanced c s.
Proof.
  intros (H1 & H2 & H3). unfold buildSchedule.
  rewrite (i64_id (xc_WarmupRounds c + _)), i64_id, (proj2 (Z.ltb_ge _ _)) by (unfold i64_range; nia).
  destruct (appendRounds_exact c [] "warmup" (xc_WarmupRounds c) 0) as (s1 & -> & E1 & E2). cbn [mbind outcome_bind app].
  destruct (appendRounds_exact c s1 "measurement" (xc_MeasurementRounds c) (2 ^ 32)) as (s2 & -> & E3 & E4).
  exists (s1 ++ s2). split; [done|]. split; by rewrite fmap_app, ?E1, ?E2, ?E3, ?E4.
Qed.

(** C34: The schedule is balanced.  For any shuffle that swaps within its range, the
    schedule lists first the warm-up and then the measurement rounds, in order,
    each with its positions in order; and every case is run exactly once in every
    round of each phase — nothing is lost, doubled or moved to another round.
    Nothing panics while the number of runs fits into an [int].  When the cases
    have different identifiers, each is measured in exactly [MeasurementRounds]
    of the runs. *)
Theorem buildSchedule_exact c : rounds_fit c →
  ∃ s, buildSchedule c = Returns s ∧ balanced c s ∧
    (NoDup (cc_ID <$> xc_Cases c) → ∀ id, id ∈ cc_ID <$> xc_Cases c →
     length (filter (λ r, measured id (run_of r)) s) = Z.to_nat (xc_MeasurementRounds c)).
Proof.
  intros H. destruct (buildSchedule_balanced c H) as (s & Hs & Hb). exists s. split; [done|]. split; [done|].
  intros Hnd id Hid. by apply (measured_schedule id _ _ _ _ (bl_runs _ _ Hb)).
Qed.
End schedule.

(** ** Differential validation *)

(** A final state holds the empty key. *)
Definition is_empty (e : StateEntry) : bool := match se_Key e with [] => true | _ => false end.
Definition empty_key (results : list BlockResult) : bool := existsb (λ r, existsb is_empty (FinalState r)) results.

Lemma fmap_constant {A B} (f g : A → B) (l : list A) : f <$> l = g <$> l ↔ ∀ x, x ∈ l → f x = g x.
Proof. induction l as [|x l IH]; cbn; [by split; [intros _ ? ?%elem_of_nil|]|]. split; [intros [= H1 H2] y [->|Hin]%elem_of_cons; [done|by apply IH]|].
  intros H. f_equal; [apply H; by left|]. apply IH. intros y Hy. apply H. by right. Qed.

Lemma existsb_false {A} (p : A → bool) (l : list A) : existsb p l = false ↔ ∀ x, x ∈ l → p x = false.
Proof. induction l as [|x l IH]; cbn; [by split; [intros _ ? ?%elem_of_nil|]|]. rewrite orb_false_iff, IH. split.
  - intros [H1 H2] y [->|Hin]%elem_of_cons; [done|by apply H2].
  - intros H. split; [apply H; by left|]. intros y Hy. apply H. by right. Qed.

Lemma nil_key_serial (results : list BlockResult) :
  (λ r, nil_key SerialEngine <$> FinalState r) <$> results = (λ r, nil_key BlockSTMEngine <$> FinalState r) <$> results ↔ empty_key results = false.
Proof.
  unfold empty_key. rewrite fmap_constant, existsb_false. apply forall_proper. intros r. apply imp_iff_compat_l.
  rewrite fmap_constant, existsb_false. apply forall_proper. intros e. apply imp_iff_compat_l.
  unfold nil_key, is_empty. destruct (se_Key e); split; congruence.
Qed.

(** [ResultsEqual] compares the results and, between the two engines, nothing but
    the presence of the empty key besides. *)
Lemma ResultsEqual_exact x y :
  ResultsEqual x y = true ↔ ex_Results y = ex_Results x ∧ (ex_Engine x = ex_Engine y ∨ empty_key (ex_Results x) = false).
Proof.
  unfold ResultsEqual, nil_keys. rewrite andb_true_iff, !bool_decide_eq_true.
  assert (ex_Results x = ex_Results y ↔ ex_Results y = ex_Results x) as -> by by split.
  split; intros [E H].
  - split; [done|]. rewrite E in H. destruct (decide (ex_Engine x = ex_Engine y)) as [|Hne]; [by left|right].
    apply nil_key_serial. destruct (ex_Engine x), (ex_Engine y); done.
  - split; [done|]. rewrite E. destruct H as [->|H]; [done|]. apply nil_key_serial in H.
    destruct (ex_Engine x), (ex_Engine y); done.
Qed.

Section validation.
Context {BT : BTreeLib} {BL : BTreeLaws} `{J : Json} {MR : MapRange} (sha256_hex : Bytes → string).

(** The results of the workload, block after block and transaction after transaction. *)
Definition workload_results (artifact : Artifact) (results : list BlockResult) : Prop :=
  ∃ input storage, execution_input artifact [] = inr input ∧ input_NewState input = Some storage ∧
    results = reference_results sha256_hex (i_OrderedBlocks input) storage.

Lemma Execute_workload env artifact c omitDigest maxRSS x results :
  kernel_assumed env artifact c → workload_results artifact results → Execute sha256_hex env artifact c omitDigest maxRSS = Returns (inr x) →
  ex_Results x = results.
Proof.
  intros Hk (input & storage & Ei & Es & ->) (e & p & input' & storage' & Er & [Ei' Es' _ -> _ _])%Execute_executed; [|done].
  rewrite Ei in Ei'. injection Ei' as <-. rewrite Es in Es'. by injection Es' as <-.
Qed.

(** What the comparison with the serial oracle is to find out of an execution: its
    results are those of the workload.  The states with the empty key make an
    exception: no Block-STM execution of them is told equal. *)
Definition agrees (results : list BlockResult) (c : CaseConfig) (x : Execution) : Prop :=
  ex_Results x = results ∧ (cc_Engine c = "serial" ∨ empty_key results = false).

(** The cases that cannot match. *)
Definition false_alarm (results : list BlockResult) (c : CaseConfig) : Prop := cc_Engine c = "blockstm" ∧ empty_key results = true.

(** Each case has been executed, in order, in its environment. *)
Fixpoint cases_ran (env : Z → Z → block_env) (maxRSS : Z) (artifact : Artifact) (index : Z) (cases : list CaseConfig) (xs : list Execution) : Prop :=
  match cases, xs with
  | [], [] => True
  | c :: cases, x :: xs =>
      Execute sha256_hex (env index) artifact c false maxRSS = Returns (inr x) ∧ cases_ran env maxRSS artifact (index + 1) cases xs
  | _, _ => False
  end.

(** What validating a case records. *)
Record case_validated (results : list BlockResult) (c : CaseConfig) (x : Execution) (r : ValidationRecord (E := run_error)) : Prop := {
  cv_run : vr_RunID r = (cc_ID c ++ "/validate")%string ∧ vr_Status r = "success" ∧ vr_Case r = TelemetryCase c;
  cv_digests : vr_OracleResultDigest r = AggregateResultDigest sha256_hex results ∧
    vr_CandidateResultDigest r = AggregateResultDigest sha256_hex (ex_Results x);
  cv_match : vr_CanonicalMatch r = true ↔ agrees results c x;
}.

(** The serial oracle, which has the workload's results. *)
Record is_oracle (results : list BlockResult) (oracle : Execution) : Prop := {
  io_engine : ex_Engine oracle = SerialEngine;
  io_results : ex_Results oracle = results;
  io_digest : ex_ResultDigest oracle = AggregateResultDigest sha256_hex results;
}.

Lemma oracle_results env artifact maxRSS oracle : Execute sha256_hex env artifact oracleCase false maxRSS = Returns (inr oracle) →
  ∃ results, workload_results artifact results ∧ is_oracle results oracle.
Proof.
  intros (e & p & input & storage & Er & [Ei Es E1 E2 E3 _])%Execute_executed; [|by apply assumed_serial].
  injection Er as <- <-. exists (reference_results sha256_hex (i_OrderedBlocks input) storage). split; [by exists input, storage|done].
Qed.

Lemma ResultsEqual_agrees env artifact results oracle c maxRSS x : is_oracle results oracle →
  Execute sha256_hex env artifact c false maxRSS = Returns (inr x) → ResultsEqual oracle x = true ↔ agrees results c x.
Proof.
  intros [E1 E2 _] [[p Hp%resolveCase_engine] _]%Execute_header. unfold agrees. rewrite ResultsEqual_exact, E1, E2.
  assert (SerialEngine = ex_Engine x ↔ cc_Engine c = "serial") as ->; [|done].
  destruct (ex_Engine x); rewrite Hp; by split.
Qed.

Lemma validated_case env artifact results oracle c maxRSS provenance x : is_oracle results oracle →
  Execute sha256_hex env artifact c false maxRSS = Returns (inr x) → case_validated results c x (validated c provenance oracle x).
Proof.
  intros Ho Hx. pose proof (ResultsEqual_agrees _ _ _ _ _ _ _ Ho Hx) as Heq. destruct (Execute_header _ _ _ _ _ _ _ Hx) as [_ Hd].
  split; [done|split; [apply Ho|done]|done].
Qed.

(** The first case that does not agree, and those before it. *)
Definition first_difference (results : list BlockResult) (cases : list CaseConfig) (xs : list Execution) (c : CaseConfig) : Prop :=
  ∃ before x after xs_before xs_after, cases = before ++ c :: after ∧ xs = xs_before ++ x :: xs_after ∧
    Forall2 (agrees results) before xs_before ∧ ¬ agrees results c x.

Lemma first_difference_cons results c' x' cases xs c :
  agrees results c' x' → first_difference results cases xs c → first_difference results (c' :: cases) (x' :: xs) c.
Proof.
  intros Ha (before & x & after & xs_before & xs_after & -> & -> & HF & Hn).
  exists (c' :: before), x, after, (x' :: xs_before), xs_after. split; [done|]. split; [done|]. split; [by constructor|done].
Qed.

Lemma validate_cases_spec env artifact results oracle maxRSS provenance index cases records mismatch records' r :
  is_oracle results oracle →
  validate_cases sha256_hex env maxRSS artifact provenance oracle index cases records mismatch = Returns (records', r) →
  match r with
  | inl e => ∃ i c err, c ∈ cases ∧ e = CaseFailed (cc_ID c) err ∧ Execute sha256_hex (env i) artifact c false maxRSS = Returns (inl err)
  | inr m => ∃ xs new, cases_ran env maxRSS artifact index cases xs ∧ records' = records ++ new ∧
      Forall3 (case_validated results) cases xs new ∧
      match mismatch, m with
      | Some e, _ => m = Some e
      | None, None => Forall2 (agrees results) cases xs
      | None, Some e => ∃ c, e = ErrCanonicalMismatch (cc_ID c) ∧ first_difference results cases xs c
      end
  end.
Proof.
  intros Ho. revert index records mismatch. induction cases as [|c cases IH]; intros index records mismatch; cbn [validate_cases].
  { intros [= <- <-]. exists [], []. rewrite app_nil_r. split; [done|]. split; [done|]. split; [constructor|]. by destruct mismatch. }
  destruct (Execute _ _ _ _ _ _) as [[err|x]| |] eqn:Ex; cbn [mbind outcome_bind]; [| |done..].
  { intros [= <- <-]. exists index, c, err. split; [by left|done]. }
  pose proof (ResultsEqual_agrees _ _ _ _ _ _ _ Ho Ex) as Heq. pose proof (validated_case _ _ _ _ _ _ provenance _ Ho Ex) as Hv.
  intros H. apply IH in H. destruct r as [e|m].
  { destruct H as (i & c' & err & Hin & H). exists i, c', err. split; [by right|done]. }
  destruct H as (xs & new & Hran & -> & HF & Hm). exists (x :: xs), (validated c provenance oracle x :: new).
  rewrite <- app_assoc. split; [by split|]. split; [done|]. split; [by constructor|].
  destruct mismatch; [done|]. destruct (ResultsEqual oracle x).
  - assert (agrees results c x) as Ha by by apply Heq. destruct m as [e|]; [|by constructor].
    destruct Hm as (c' & -> & Hf). exists c'. split; [done|]. by apply first_difference_cons.
  - assert (¬ agrees results c x) as Ha by by intros ?%Heq. subst m. exists c. split; [done|]. by exists [], x, cases, [], xs.
Qed.

(** When the kernels of the Block-STM cases keep their contract, only a false
    alarm can be raised. *)
Lemma first_difference_false_alarm env maxRSS artifact results index cases xs c :
  workload_results artifact results → (∀ i c, c ∈ cases → kernel_assumed (env i) artifact c) →
  cases_ran env maxRSS artifact index cases xs → first_difference results cases xs c → false_alarm results c.
Proof.
  intros Hw Hk Hran (before & x & after & xs_before & xs_after & -> & -> & HF & Hn).
  assert (∃ i, Execute sha256_hex (env i) artifact c false maxRSS = Returns (inr x)) as [i Hx].
  { revert index Hran. clear Hk. induction HF as [|c' x' before xs_before _ _ IH]; intros index [H1 H2]; [by exists index|]. by apply IH in H2. }
  pose proof (Execute_workload _ _ _ _ _ _ _ (Hk i c ltac:(set_solver)) Hw Hx) as Er.
  destruct (Execute_header _ _ _ _ _ _ _ Hx) as [[p Hp%resolveCase_engine] _]. unfold agrees in Hn. unfold false_alarm.
  destruct (ex_Engine x); [tauto|]. destruct (empty_key results); tauto.
Qed.

(** C8: The differential validation is exact, whatever the kernels under the cases do.
    It ends well only when every case has been executed with results equal to
    those of running the workload in order, and none is a Block-STM case of a workload some of whose states
    hold the empty key; the validation result then has the number of the cases and the digest of
    those results, and the records one success for each case with both digests.  It reports a
    mismatch of exactly the first case whose results differ, or that is such a
    Block-STM case, having recorded of every case whether it agrees; and when the kernels under the Block-STM cases keep
    their contract, the latter, a false alarm, is all it can report.  Any other
    error is an error of that very execution, or of writing the records. *)
Theorem validate_exact oracleEnv env maxRSS written loaded artifact provenance records r :
  validate sha256_hex oracleEnv env maxRSS written loaded artifact provenance = Returns (records, r) →
  let cases := xc_Cases (lc_Config loaded) in
  match r with
  | inr v => written = true ∧ ∃ results xs new, workload_results artifact results ∧ cases_ran env maxRSS artifact 0 cases xs ∧
      Forall2 (agrees results) cases xs ∧ records = Some new ∧ Forall3 (case_validated results) cases xs new ∧
      v = MkValidationResult (Z.of_nat (length cases)) (AggregateResultDigest sha256_hex results)
  | inl (ErrCanonicalMismatch id) => written = true ∧
      ∃ results xs new c, workload_results artifact results ∧ cases_ran env maxRSS artifact 0 cases xs ∧
      records = Some new ∧ Forall3 (case_validated results) cases xs new ∧
      cc_ID c = id ∧ first_difference results cases xs c ∧
      ((∀ i c, c ∈ cases → kernel_assumed (env i) artifact c) → false_alarm results c)
  | inl (CaseFailed id e) =>
      ∃ i c, c ∈ cases ∧ cc_ID c = id ∧ Execute sha256_hex (env i) artifact c false maxRSS = Returns (inl e)
  | inl (OracleFailed e) => records = None ∧ Execute sha256_hex oracleEnv artifact oracleCase false maxRSS = Returns (inl e)
  | inl WriteFailed => written = false
  | inl _ => False
  end.
Proof.
  cbv zeta. unfold validate. destruct (Execute _ oracleEnv _ _ _ _) as [[e|oracle]| |] eqn:Eo; cbn [mbind outcome_bind]; [by intros [= <- <-]| |done..].
  destruct (validate_cases _ _ _ _ _ _ _ _ _ _) as [[records' r']| |] eqn:Ev; cbn [mbind outcome_bind]; [|done..].
  destruct (oracle_results _ _ _ _ Eo) as (results & Hw & Ho).
  apply (validate_cases_spec _ _ _ _ _ _ _ _ _ _ _ _ Ho) in Ev. intros [= <- <-].
  destruct written; [|done]. cbn [negb]. destruct r' as [e|m].
  { destruct Ev as (i & c & err & Hin & -> & H). by exists i, c. }
  destruct Ev as (xs & new & Hran & -> & HF & Hm). destruct m as [e|].
  - destruct Hm as (c & -> & Hf). split; [done|]. exists results, xs, new, c. split_and!; [done..|].
    intros Hk. by eapply first_difference_false_alarm.
  - split; [done|]. exists results, xs, new. rewrite (io_digest _ _ Ho).
    by rewrite app_nil_l, (Forall3_length_lr _ _ _ _ HF).
Qed.
End validation.

(** ** The matrix *)

(** The recorded times of a case's measurements. *)
Definition sample_times {E} (id : string) (records : list (BenchmarkRecord (E := E))) : list Z :=
  (λ b, tm_ExecutionNS (bm_Timing b)) <$> filter (λ b, bm_Phase b = "measurement" ∧ cs_ID (bm_Case b) = id) records.

Definition samples_of {W} (p : progress W) (id : string) : list Z := default [] (pg_samples p !! id).

Lemma accept_samples {W} (p : progress W) b traces id : samples_of (accept p b traces) id = samples_of p id ++ sample_times id [b].
Proof.
  unfold samples_of, accept, sample_times. cbn [pg_samples]. rewrite filter_cons, filter_nil.
  destruct (String.eqb_spec (bm_Phase b) "measurement") as [E|Hne].
  - rewrite lookup_insert. case_decide as Hid; [rewrite decide_True by done; subst; done|]. rewrite decide_False by (by intros [_ ?]). by rewrite app_nil_r.
  - rewrite decide_False by (by intros [? _]). by rewrite app_nil_r.
Qed.

Section matrix.
Context {BT : BTreeLib} {BL : BTreeLaws} `{J : Json} {MR : MapRange} {W : Type} (sha256_hex : Bytes → string).
Context (loaded : LoadedConfig) (artifact : Artifact) (results : list BlockResult) (provenance : Provenance).
Context (Hresults : workload_results sha256_hex artifact results).

(** A worker that answers has run [RunWorker] on this workload, over whatever kernel. *)
Definition honest (invoke : WorkerInvoker W) : Prop := ∀ index request r timedOut, invoke index request = (inr r, timedOut) →
  ∃ env maxRSS provenance, run_worker sha256_hex env maxRSS loaded artifact provenance request = Returns (inr r).

(** The kernels under its Block-STM cases have kept their contract. *)
Definition settled_workers (invoke : WorkerInvoker W) : Prop := ∀ index request r timedOut, invoke index request = (inr r, timedOut) →
  ∃ env maxRSS provenance, run_worker sha256_hex env maxRSS loaded artifact provenance request = Returns (inr r) ∧
    ∀ c, lookupCase (xc_Cases (lc_Config loaded)) (wr_CaseID request) = Some c → kernel_assumed env artifact c.

(** What is kept of a worker's answer. *)
Definition answered (invoke : WorkerInvoker W) (index : Z) (request : WorkerRequest) (b : BenchmarkRecord (E := invoke_error W)) : Prop :=
  ∃ r timedOut, invoke index request = (inr r, timedOut) ∧ b = set_match (rs_Record r) true.

(** Why a run ends the loop: the worker has failed, or its digest is not the oracle's. *)
Definition failure (invoke : WorkerInvoker W) (index : Z) (request : WorkerRequest) (e : invoke_error W) (timedOut : bool) : Prop :=
  match invoke index request with
  | (inl w, t) => e = WorkerError w ∧ timedOut = t
  | (inr r, t) => e = InvokeMismatch ∧ timedOut = t ∧ bm_ResultDigest (rs_Record r) ≠ AggregateResultDigest sha256_hex results
  end.

(** What a run of a worker is recorded as: the execution of its case. *)
Record run_recorded (request : WorkerRequest) (b : BenchmarkRecord (E := invoke_error W)) : Prop := {
  rr_run : bm_RunID b = runID request ∧ bm_Status b = "success" ∧ bm_Censored b = false;
  rr_request : bm_Phase b = wr_Phase request ∧ bm_Round b = wr_Round request ∧ bm_Order b = wr_Order request;
  rr_case : cs_ID (bm_Case b) = wr_CaseID request;
  rr_digest : bm_ResultDigest b = AggregateResultDigest sha256_hex results;
  rr_match : bm_CanonicalMatch b = true;
  rr_time : u64_range (tm_ExecutionNS (bm_Timing b));
  rr_made : ∃ env maxRSS c x, lookupCase (xc_Cases (lc_Config loaded)) (wr_CaseID request) = Some c ∧
    Execute sha256_hex env artifact c true maxRSS = Returns (inr x) ∧ bm_Case b = TelemetryCase c ∧
    bm_ResultDigest b = ex_ResultDigest x ∧ bm_BlockDigests b = BlockDigests sha256_hex (ex_Results x) ∧
    bm_Timing b = MkTiming (ex_ExecutionNS x) (ex_BlockLatencyNS x) ∧
    bm_Metrics b = CollectMetrics (ex_Results x) (ex_Traces x) (ex_ExecutionNS x) (ex_MaxRSSBytes x);
}.

Lemma execute_blocks_time e config env index blocks storage x x' : u64_range (ex_ExecutionNS x) →
  execute_blocks sha256_hex e config env index blocks storage x = Returns (inr x') → u64_range (ex_ExecutionNS x').
Proof.
  revert index storage x. induction blocks as [|b blocks IH]; intros index storage x Hx; cbn [execute_blocks]; [by intros [= <-]|].
  destruct (call_engine _ _ _ _ _ _) as [[err|[[s r] t]]| |]; cbn [mbind outcome_bind]; [done| |done..].
  destruct s as [s|]; cbn [deref mbind outcome_bind]; [|done]. apply IH, u64_bound.
Qed.

Lemma Execute_time env c omitDigest maxRSS x :
  Execute sha256_hex env artifact c omitDigest maxRSS = Returns (inr x) → u64_range (ex_ExecutionNS x).
Proof.
  unfold Execute. destruct (execution_input artifact []); [done|]. destruct (input_NewState _); [|done]. destruct (resolveCase c) as [|[engine policy]]; [done|].
  destruct (engine_capabilities engine); cbn [mbind outcome_bind]; [|done..].
  destruct (execute_blocks _ _ _ _ _ _ _ _) as [[err|x']| |] eqn:E; cbn [mbind outcome_bind]; [done| |done..].
  intros [= <-]. cbn. eapply execute_blocks_time, E. by vm_compute.
Qed.

Lemma lookupCase_ID cases id c : lookupCase cases id = Some c → cc_ID c = id ∧ c ∈ cases.
Proof.
  unfold lookupCase. intros [Hin H%String.eqb_eq]%findb_Some. done.
Qed.

Lemma run_worker_inv env maxRSS prov request (r : WorkerResponse W) :
  run_worker sha256_hex env maxRSS loaded artifact prov request = Returns (inr r) →
  ∃ c x, lookupCase (xc_Cases (lc_Config loaded)) (wr_CaseID request) = Some c ∧ cc_ID c = wr_CaseID request ∧
    Execute sha256_hex env artifact c true maxRSS = Returns (inr x) ∧
    rs_Record r = MkBenchmarkRecord _ BenchmarkRecordSchema (runID request) "performance" "success" false None
      (wr_Phase request) (wr_Round request) (wr_Order request) (TelemetryCase c) (ex_Capabilities x) prov
      (MkTiming (ex_ExecutionNS x) (ex_BlockLatencyNS x))
      (CollectMetrics (ex_Results x) (ex_Traces x) (ex_ExecutionNS x) (ex_MaxRSSBytes x))
      (BlockDigests sha256_hex (ex_Results x)) (ex_ResultDigest x) false.
Proof.
  unfold run_worker. destruct (lookupCase _ _) as [c|] eqn:Ec; [|done]. apply lookupCase_ID in Ec as [Eid _].
  destruct (Execute _ _ _ _ _ _) as [[e|x]| |] eqn:Ex; cbn [mbind outcome_bind]; [done| |done..].
  destruct (if (_ =? _)%string then trace_records _ _ else _) as [traces| |]; cbn [mbind outcome_bind]; [|done..]. intros [= <-].
  by exists c, x.
Qed.

Lemma honest_recorded invoke index request b : honest invoke → answered invoke index request b →
  bm_ResultDigest b = AggregateResultDigest sha256_hex results → run_recorded request b.
Proof.
  intros Hw (r & t & (env & maxRSS & prov & (c & x & Ec & Eid & Ex & Er)%run_worker_inv)%Hw & ->) Hd.
  rewrite Er in Hd |- *. pose proof (Execute_time _ _ _ _ _ Ex). cbn in Hd. split; cbn; try done. by exists env, maxRSS, c, x.
Qed.

Lemma settled_answer invoke index request r t : settled_workers invoke → invoke index request = (inr r, t) →
  bm_ResultDigest (rs_Record r) = AggregateResultDigest sha256_hex results ∧ bm_BlockDigests (rs_Record r) = BlockDigests sha256_hex results.
Proof.
  intros Hs (env & maxRSS & prov & (c & x & Ec & _ & Ex & ->)%run_worker_inv & Hk)%Hs. cbn.
  destruct (Execute_header _ _ _ _ _ _ _ Ex) as [_ ->]. by rewrite (Execute_workload _ _ _ _ _ _ _ _ (Hk c Ec) Hresults Ex).
Qed.

Lemma engine_capabilities_total e : ∃ c, engine_capabilities e = Returns c.
Proof. destruct e; eexists; vm_compute; reflexivity. Qed.

Lemma failed_record_total request timedOut (e : invoke_error W) : ∃ b, failed_record loaded provenance request timedOut e = Returns b.
Proof.
  unfold failed_record, case_capabilities. cbv zeta. destruct (resolveCase _) as [|[engine policy]]; [by eexists|].
  destruct (engine_capabilities_total engine) as [c ->]. by eexists.
Qed.

(** How the loop over the schedule ends, and what it has collected: the requests
    done, and those that are left, the first of which has failed. *)
Record run_ended (invoke : WorkerInvoker W) (index : Z) (p p' : progress W) (err : option (matrix_error W))
    (done rest : list WorkerRequest) (new : list (BenchmarkRecord (E := invoke_error W))) : Prop := {
  rd_recorded : Forall2 run_recorded done new;
  rd_answered : ∀ i request b, done !! i = Some request → new !! i = Some b → answered invoke (index + Z.of_nat i) request b;
  rd_samples : ∀ id, samples_of p' id = samples_of p id ++ sample_times id new;
  rd_rest : match rest with
  | [] => err = None ∧ pg_records p' = pg_records p ++ (inl <$> new)
  | request :: _ => ∃ e timedOut failed, failure invoke (index + Z.of_nat (length done)) request e timedOut ∧
      failed_record loaded provenance request timedOut e = Returns failed ∧
      err = Some (RunFailed request e) ∧ pg_records p' = pg_records p ++ (inl <$> new) ++ [inl failed]
  end;
}.

(** The first run fails. *)
Lemma run_ended_failed invoke index p request schedule e timedOut :
  failure invoke index request e timedOut →
  ∃ failed, failed_record loaded provenance request timedOut e = Returns failed ∧
    run_ended invoke index p (MkProgress (pg_records p ++ [inl failed]) (pg_traces p) (pg_samples p))
      (Some (RunFailed request e)) [] (request :: schedule) [].
Proof.
  intros Hf. destruct (failed_record_total request timedOut e) as [b Hb]. exists b. split; [done|]. split; [constructor|done| |].
  - intros id. by rewrite app_nil_r.
  - exists e, timedOut, b. cbn [length]. by rewrite Z.add_0_r.
Qed.

(** One more run before the others. *)
Lemma run_ended_cons invoke index p p' err request done rest b traces new :
  run_recorded request b → answered invoke index request b →
  run_ended invoke (index + 1) (accept p b traces) p' err done rest new → run_ended invoke index p p' err (request :: done) rest (b :: new).
Proof.
  intros Hr Ha [HF Hans Hs Hrest]. split.
  - by constructor.
  - intros [|i] request' b' H1 H2; [injection H1 as <-; injection H2 as <-; by rewrite Z.add_0_r|].
    replace (index + Z.of_nat (S i)) with (index + 1 + Z.of_nat i) by lia. by apply Hans.
  - intros id. rewrite Hs, accept_samples, <- app_assoc. f_equal. unfold sample_times. rewrite <- fmap_app, <- filter_app. done.
  - destruct rest as [|request' rest].
    + destruct Hrest as [-> ->]. split; [done|]. unfold accept. cbn [pg_records]. by rewrite <- app_assoc.
    + destruct Hrest as (e & t & failed & Hf & Hb & -> & ->). exists e, t, failed. split_and!; [|done..|].
      * replace (index + Z.of_nat (length (request :: done))) with (index + 1 + Z.of_nat (length done)) by (cbn [length]; lia). done.
      * unfold accept. cbn [pg_records fmap list_fmap]. by rewrite <- app_assoc.
Qed.

Lemma run_schedule_exact (invoke : WorkerInvoker W) : honest invoke → ∀ schedule index p,
  ∃ p' err done rest new, run_schedule invoke (AggregateResultDigest sha256_hex results) loaded provenance index schedule p = Returns (p', err) ∧
    schedule = done ++ rest ∧ run_ended invoke index p p' err done rest new.
Proof.
  intros Hw schedule. induction schedule as [|request schedule IH]; intros index p; cbn [run_schedule].
  { exists p, None, [], [], []. split; [done|]. split; [done|]. split; [constructor|done| |]; [intros id|]; by rewrite app_nil_r. }
  destruct (invoke index request) as [[e|r] timedOut] eqn:Ei; cbv zeta.
  - destruct (run_ended_failed invoke index p request schedule (WorkerError e) timedOut) as (b & -> & Hb); [unfold failure; by rewrite Ei|].
    by eexists _, _, [], (request :: schedule), [].
  - destruct (String.eqb_spec (bm_ResultDigest (rs_Record r)) (AggregateResultDigest sha256_hex results)) as [Hd|Hd].
    + destruct (IH (index + 1) (accept p (set_match (rs_Record r) true) (rs_Traces r))) as (p' & err & done & rest & new & -> & -> & Hend).
      assert (answered invoke index request (set_match (rs_Record r) true)) as Ha by by exists r, timedOut.
      exists p', err, (request :: done), rest, (set_match (rs_Record r) true :: new). split; [done|]. split; [done|].
      eapply run_ended_cons; [by eapply honest_recorded|done|done].
    + destruct (run_ended_failed invoke index p request schedule InvokeMismatch timedOut) as (b & -> & Hb); [unfold failure; by rewrite Ei|].
      by eexists _, _, [], (request :: schedule), [].
Qed.

(** Settled workers are never taken for a mismatch, and report the workload's digests. *)
Lemma settled_failure invoke index request e timedOut :
  settled_workers invoke → failure invoke index request e timedOut → ∃ w, e = WorkerError w ∧ invoke index request = (inl w, timedOut).
Proof.
  intros Hs. unfold failure. destruct (invoke index request) as [[w|r] t] eqn:Ei; [intros [-> ->]; by exists w|].
  intros (_ & _ & Hne). by destruct (settled_answer _ _ _ _ _ Hs Ei).
Qed.

Lemma settled_digests invoke index p p' err done rest new :
  settled_workers invoke → run_ended invoke index p p' err done rest new → Forall (λ b, bm_BlockDigests b = BlockDigests sha256_hex results) new.
Proof.
  intros Hs [HF Ha _ _]. apply Forall_lookup. intros i b Hb. destruct (Forall2_lookup_r _ _ _ _ _ HF Hb) as (request & Hreq & _).
  destruct (Ha i request b Hreq Hb) as (r & t & Ei & ->). by destruct (settled_answer _ _ _ _ _ Hs Ei).
Qed.

(** ** The end of a run *)

Lemma sample_times_length id done new : Forall2 run_recorded done new →
  length (sample_times id new) = length (filter (λ r, measured id (run_of r)) done).
Proof.
  unfold sample_times. rewrite length_fmap. induction 1 as [|r b done new Hr HF IH]; [done|]. rewrite !filter_cons.
  unfold measured in *. cbn [run_of fst snd] in *. destruct (rr_request _ _ Hr) as (-> & _). rewrite (rr_case _ _ Hr).
  by repeat case_decide; cbn [length]; rewrite ?IH.
Qed.

Lemma sample_times_range id done new v : Forall2 run_recorded done new → v ∈ sample_times id new → u64_range v.
Proof.
  intros HF (b & -> & [_ Hb]%list_elem_of_filter)%list_elem_of_fmap. apply list_elem_of_lookup in Hb as [i Hi].
  destruct (Forall2_lookup_r _ _ _ _ _ HF Hi) as (r & _ & Hr). apply Hr.
Qed.

(** What the ablation adds to the records, and the error it ends with. *)
Definition ablation_end (protocol : StatisticalProtocol) (goos : string) (new : list (BenchmarkRecord (E := invoke_error W)))
    (extra : list AblationRecord) (err : option (matrix_error W)) : Prop :=
  match xc_TelemetryAblation (lc_Config loaded) with
  | None => extra = [] ∧ err = None
  | Some a => ∃ r, extra = [r] ∧
      ablation_made (ta_OffCase a) (ta_InstrumentedCase a) (sample_times (ta_OffCase a) new) (sample_times (ta_InstrumentedCase a) new)
        (TelemetryOverheadBudgetRatio protocol) (containsString (EnforcePlatforms a) goos) r ∧
      err = if ab_Enforced r && negb (ab_WithinBudget r) then Some (ErrTelemetryBudget (ab_OverheadRatio r) (ab_BudgetRatio r)) else None
  end.

Lemma run_ablation_exact protocol goos p new :
  (∀ id, samples_of p id = sample_times id new) → (∀ id v, v ∈ sample_times id new → u64_range v) →
  (∀ a, xc_TelemetryAblation (lc_Config loaded) = Some a → sample_times (ta_OffCase a) new ≠ [] ∧ sample_times (ta_InstrumentedCase a) new ≠ []) →
  ∃ p' err extra, run_ablation loaded protocol goos p = Returns (p', err) ∧
    pg_records p' = pg_records p ++ (inr <$> extra) ∧ ablation_end protocol goos new extra err.
Proof.
  intros Hs Hr Ha. unfold run_ablation, ablation_end. destruct (xc_TelemetryAblation (lc_Config loaded)) as [a|].
  - destruct (Ha a eq_refl) as [H1 H2]. cbv zeta. unfold samples_of in Hs. rewrite !Hs.
    destruct (NewAblationRecord_made (ta_OffCase a) (ta_InstrumentedCase a) (sample_times (ta_OffCase a) new) (sample_times (ta_InstrumentedCase a) new)
      (TelemetryOverheadBudgetRatio protocol) (containsString (EnforcePlatforms a) goos)) as (r & -> & Hm);
      [by intros v [Hv|Hv]%elem_of_app; eapply Hr|done..|]. cbn [mbind outcome_bind].
    eexists _, _, [r]. split; [done|]. split; [done|]. exists r. split; [done|]. split; [done|]. by rewrite (proj1 (am_budget _ _ _ _ _ _ _ Hm)).
  - exists p, None, []. by rewrite app_nil_r.
Qed.

(** The error after the two files have been given what was collected. *)
Definition after_writes (writes : bool * bool) (err : option (matrix_error W)) : option (matrix_error W) :=
  if writes.1 && writes.2 then err else Some MatrixWriteFailed.

Lemma writeRunOutputs_exact writes (p : progress W) err :
  mx_records (writeRunOutputs writes p err) = Some (pg_records p) ∧ mx_err (writeRunOutputs writes p err) = after_writes writes err.
Proof. unfold writeRunOutputs, after_writes. by destruct writes as [[] []]. Qed.

(** C33: A run of the matrix measures what it set out to.  For an accepted
    configuration whose number of runs fits an [int], and with
    workers that answer what [RunWorker] has computed on this workload, over whatever kernel, the
    loop goes through the
    balanced schedule, recording for each run, in order, the answer to it: its phase, round, order,
    case and the digests, time and metrics of an execution of that case, with the oracle's result digest;
    until it ends, or a worker fails or answers another result digest, which ends it with exactly
    that failure recorded and returned.  If none fails, every case has been
    measured in exactly [MeasurementRounds] rounds, the ablation record holds the
    medians of the measurements of its two cases, and the only error is that the
    overhead exceeds an enforced budget.  What has been collected is given to the
    files in each case.  When the kernels under the workers' Block-STM cases keep their contract, no run
    is taken for a mismatch and every record has the block digests of the workload's results. *)
Theorem run_matrix_exact `{Sh : Shuffle} {SL : ShuffleLaws Sh} {PD : ParseDuration} given timeout invoke writes goos protocol :
  validate_config given = inr (lc_Config loaded, timeout) → rounds_fit (lc_Config loaded) → honest invoke →
  ∃ s m done rest new, buildSchedule (lc_Config loaded) = Returns s ∧
    run_matrix invoke writes goos loaded protocol provenance (AggregateResultDigest sha256_hex results) = Returns m ∧
    balanced (lc_Config loaded) s ∧ s = done ++ rest ∧ Forall2 run_recorded done new ∧
    (∀ i request b, done !! i = Some request → new !! i = Some b → answered invoke (Z.of_nat i) request b) ∧
    (settled_workers invoke → Forall (λ b, bm_BlockDigests b = BlockDigests sha256_hex results) new) ∧
    match rest with
    | [] => ∃ extra err, mx_records m = Some ((inl <$> new) ++ (inr <$> extra)) ∧ mx_err m = after_writes writes err ∧
        ablation_end protocol goos new extra err ∧
        ∀ c, c ∈ xc_Cases (lc_Config loaded) → length (sample_times (cc_ID c) new) = Z.to_nat (xc_MeasurementRounds (lc_Config loaded))
    | request :: _ => ∃ e timedOut failed, failure invoke (Z.of_nat (length done)) request e timedOut ∧
        (settled_workers invoke → ∃ w, e = WorkerError w) ∧
        failed_record loaded provenance request timedOut e = Returns failed ∧
        mx_records m = Some ((inl <$> new) ++ [inl failed]) ∧ mx_err m = after_writes writes (Some (RunFailed request e))
    end.
Proof.
  intros Hc Hfit Hw. apply validate_config_runs in Hc as (_ & Hrounds & Hnd & Habl).
  destruct (buildSchedule_balanced _ Hfit) as (s & Es & Hb).
  destruct (run_schedule_exact invoke Hw s 0 (MkProgress [] [] ∅)) as (p & err & done & rest & new & Er & Happ & Hend).
  pose proof (λ Hs, settled_digests _ _ _ _ _ _ _ _ Hs Hend) as Hdigests. destruct Hend as [HF Hans Hs Hrest].
  unfold run_matrix. rewrite Es. cbn [mbind outcome_bind]. rewrite Er. cbn [mbind outcome_bind]. destruct rest as [|request rest].
  - destruct Hrest as [-> Hrec]. rewrite app_nil_r in Happ. subst done.
    assert (∀ c, c ∈ xc_Cases (lc_Config loaded) → length (sample_times (cc_ID c) new) = Z.to_nat (xc_MeasurementRounds (lc_Config loaded))) as Hlen.
    { intros c Hin. rewrite (sample_times_length _ _ _ HF). apply (measured_schedule _ _ _ _ _ (bl_runs _ _ Hb)); [done|]. by apply list_elem_of_fmap_2. }
    destruct (run_ablation_exact protocol goos p new) as (p' & err & extra & -> & Hp' & Ha); [done|intros id v; by apply (sample_times_range id s)| |].
    { intros a (off & on & H1 & H2 & <- & <- & _)%Habl. apply Hlen in H1, H2.
      split; intros E; rewrite E in H1 || rewrite E in H2; cbn in *; lia. }
    cbn [mbind outcome_bind]. destruct (writeRunOutputs_exact writes p' err) as [W1 W2].
    eexists s, _, s, [], new. rewrite app_nil_r. split_and!; [done..|]. exists extra, err. rewrite W1, Hp', Hrec. by split_and!.
  - destruct Hrest as (e & t & b & Hi & Hb' & -> & Hrec). destruct (writeRunOutputs_exact writes p (Some (RunFailed request e))) as [W1 W2].
    eexists s, _, done, (request :: rest), new. split_and!; [done..|]. exists e, t, b. rewrite W1, Hrec. split_and!; [done| |done..].
    intros Hset. destruct (settled_failure _ _ _ _ _ Hset Hi) as (w & -> & _). by exists w.
Qed.
End matrix.

(** ** Two small matrices *)

Section witnesses.
#[local] Existing Instance ListTree.
#[local] Existing Instance ListTree_laws.
#[local] Existing Instance kernel_store.

(** A shuffle that swaps the first two. *)
#[local] Instance swap_first : Shuffle := λ _ n, if 2 <=? n then [(1, 0)] else [].
#[local] Instance swap_first_laws : ShuffleLaws swap_first.
Proof.
  intros seed n i j Hin. unfold shuffle_swaps, swap_first in Hin. destruct (Z.leb_spec 2 n); [|by apply elem_of_nil in Hin].
  apply list_elem_of_singleton in Hin. injection Hin as -> ->. lia.
Qed.

Definition sample_cases : list CaseConfig := [sample_case "s" "serial" TraceOff 1; sample_case "b" "blockstm" TraceOff 2].
Definition sample_loaded : LoadedConfig := MkLoadedConfig (sample_config sample_cases) "matrix.json" 1000000000.
Definition sample_identity : identity := MkRunIdentity "c" false 1 (MkHardware "h" "linux" "amd64" "cpu" 8 8 "6" "go" 8 "" "" "").
Definition sample_provenance : Provenance := run_provenance sample_loaded sample_artifact sample_identity.

Lemma buildSchedule_exact_witness :
  ∃ s, buildSchedule (sample_config sample_cases) = Returns s ∧
    s = [MkWorkerRequest "b" "measurement" 0 0; MkWorkerRequest "s" "measurement" 0 1] ∧
    run_of <$> s ≡ₚ [("measurement", 0, "s"); ("measurement", 0, "b")].
Proof.
  destruct (buildSchedule_exact (sample_config sample_cases)) as (s & Hs & [_ H2] & _); [split_and!; vm_compute; congruence|].
  exists s. split; [exact Hs|]. split; [vm_compute in Hs; injection Hs as <-; reflexivity|exact H2].
Defined.

(** The empty block on a state with the empty key; the kernel has nothing to do. *)
Definition empty_block : Block := MkBlock "b" 1 [].
Definition idle_env (_ : Z) : block_env := MkBlockEnv background [] (λ T, leaves_slots [] memory0) 5.
Definition keyed_input : Json := holding [MkStateEntry [] []] [empty_block].

Lemma idle_env_ok : case_kernels_ok (J := keyed_input) idle_env sample_artifact.
Proof.
  intros input storage Ei Es. injection Ei as <-. injection Es as <-. split; [|exact I]. intros T start k Hst Hk _ _ He _.
  exists memory0, counter_written. change (be_kernel (idle_env 0) T start) with (leaves_slots (T:=T) [] memory0 start) in Hk. unfold leaves_slots in Hk.
  destruct (SnapshotToStore BytesIsZero memory0 (st_storage start)) as [final| |]; cbn [mbind outcome_bind] in Hk; [|done..].
  injection Hk as <-. split; [|reflexivity]. split.
  - split; [exact memory0_consistent|]. intros key e H%elem_of_nil. destruct H.
  - done.
  - done.
  - done.
  - intros i slot Hs. apply at_index_elem in Hs. by apply elem_of_nil in Hs.
Qed.

Definition validate_sample (J0 : Json) (env : Z → block_env) : outcome (option (list (ValidationRecord (E := run_error))) * (runner_error + ValidationResult)) :=
  validate (J := J0) length_digest env (λ _, env) 0 true sample_loaded sample_artifact sample_provenance.

(** A kernel that gives every transaction the same failed result. *)
Definition wrong_kernel {T} (st : start T) : outcome (kernel_end T) :=
  leaves_slots [store newSlot 0 (MkTxResult 0 "t" TxStatusFailed [] "x" 1 0 [] [] []) false] memory0 st.
Definition wrong_env (_ : Z) : block_env := MkBlockEnv background [] (λ T, wrong_kernel) 5.

(** A matrix that is valid, one with the empty key, which is refused, and one whose
    kernel computes something else, which is found out. *)
Lemma validate_exact_witness :
  match validate_sample (holding [] [sample_block]) sample_env, validate_sample keyed_input idle_env,
    validate_sample (holding [] [sample_block]) wrong_env with
  | Returns (Some _, inr v), Returns (_, inl (ErrCanonicalMismatch id)), Returns (_, inl (ErrCanonicalMismatch id')) =>
      vl_Cases v = 2 ∧ (∃ results, workload_results (J := holding [] [sample_block]) length_digest sample_artifact results ∧
        vl_ResultDigest v = AggregateResultDigest length_digest results) ∧
      id = "b" ∧ (∃ results, workload_results (J := keyed_input) length_digest sample_artifact results ∧ empty_key results = true) ∧
      id' = "b"
  | _, _, _ => False
  end.
Proof.
  assert (match validate_sample (holding [] [sample_block]) sample_env with Returns (Some _, inr v) => vl_Cases v = 2 | _ => False end) as Hg
    by (vm_compute; reflexivity).
  assert (match validate_sample keyed_input idle_env with Returns (_, inl (ErrCanonicalMismatch id)) => id = "b" | _ => False end) as Hb
    by (vm_compute; reflexivity).
  assert (match validate_sample (holding [] [sample_block]) wrong_env with Returns (_, inl (ErrCanonicalMismatch id)) => id = "b" | _ => False end) as Hw
    by (vm_compute; reflexivity).
  destruct (validate_sample (holding [] [sample_block]) wrong_env) as [[records'' [[| | | |id''| | |]|v'']]| |]; try (exfalso; exact Hw).
  destruct (validate_sample (holding [] [sample_block]) sample_env) as [[records r]| |] eqn:E; [|destruct Hg..].
  destruct records as [records|]; [|destruct Hg]. destruct r as [e|v]; [destruct Hg|]. unfold validate_sample in E.
  pose proof (validate_exact (J := holding [] [sample_block]) length_digest sample_env (λ _, sample_env) 0 true sample_loaded
    sample_artifact sample_provenance (Some records) (inr v) E) as (_ & results & _ & _ & Hr & _ & _ & _ & _ & Hv).
  destruct (validate_sample keyed_input idle_env) as [[records' r']| |] eqn:E'; [|destruct Hb..].
  destruct r' as [[| | | |id| | |]|v']; try (exfalso; exact Hb). unfold validate_sample in E'.
  pose proof (validate_exact (J := keyed_input) length_digest idle_env (λ _, idle_env) 0 true sample_loaded
    sample_artifact sample_provenance records' (inl (ErrCanonicalMismatch id)) E')
    as (_ & results' & _ & _ & c & Hr' & _ & _ & _ & _ & _ & He).
  destruct He as [_ He]; [intros i c' _; apply assumed_contract, idle_env_ok|].
  split; [exact Hg|]. split; [exists results; split; [exact Hr|rewrite Hv; reflexivity]|].
  split; [exact Hb|]. split; [exists results'; split; [exact Hr'|exact He]|exact Hw].
Defined.

(** A matrix with an ablation, and workers that run. *)
#[local] Existing Instance listed_range.
#[local] Existing Instance second_durations.

Definition ablation_config : ExperimentConfig := sample_config
  [sample_case "s" "serial" TraceOff 1; sample_case "t" "serial" TraceDetailed 1; sample_case "b" "blockstm" TraceOff 2].
Definition ablation_loaded : LoadedConfig :=
  match validate_config ablation_config with inr (c, d) => MkLoadedConfig c "matrix.json" d | inl _ => sample_loaded end.
Definition sample_results : list BlockResult := reference_results length_digest [sample_block] New.
Definition sample_protocol : StatisticalProtocol :=
  MkStatisticalProtocol StatisticalProtocolSchemaVersion "frozen" true true 0 1 f0 "b" 0 f0 f0 0 "m" "o" "t" "c" [] "p".
Definition sample_worker : WorkerInvoker unit := λ _ request,
  match run_worker (J := holding [] [sample_block]) (W := unit) length_digest sample_env 0 ablation_loaded sample_artifact sample_provenance request with
  | Returns (inr r) => (inr r, false)
  | _ => (inl tt, false)
  end.

Lemma sample_worker_answers index request r t : sample_worker index request = (inr r, t) →
  run_worker (J := holding [] [sample_block]) length_digest sample_env 0 ablation_loaded sample_artifact sample_provenance request = Returns (inr r).
Proof. unfold sample_worker. destruct (run_worker _ _ _ _ _ _ _) as [[e|r']| |]; [done| |done..]. by intros [= <- _]. Qed.

Lemma sample_worker_honest :
  honest (J := holding [] [sample_block]) length_digest ablation_loaded sample_artifact sample_worker.
Proof. intros index request r t E%sample_worker_answers. by exists sample_env, 0, sample_provenance. Qed.

Lemma sample_worker_settled :
  settled_workers (J := holding [] [sample_block]) length_digest ablation_loaded sample_artifact sample_worker.
Proof.
  intros index request r t E%sample_worker_answers. exists sample_env, 0, sample_provenance. split; [done|].
  intros c _. apply assumed_contract, sample_env_ok.
Qed.

Lemma run_matrix_exact_witness :
  match run_matrix sample_worker (true, true) "windows" ablation_loaded sample_protocol sample_provenance
          (AggregateResultDigest length_digest sample_results) with
  | Returns m => mx_err m = None ∧ ∃ s new extra, buildSchedule (lc_Config ablation_loaded) = Returns s ∧
      mx_records m = Some ((inl <$> new) ++ (inr <$> extra)) ∧
      Forall2 (run_recorded (J := holding [] [sample_block]) (W := unit) length_digest ablation_loaded sample_artifact sample_results) s new ∧
      Forall (λ b, bm_BlockDigests b = BlockDigests length_digest sample_results) new ∧
      length (sample_times "s" new) = 1%nat
  | _ => False
  end.
Proof.
  assert (workload_results (J := holding [] [sample_block]) length_digest sample_artifact sample_results) as Hw
    by (eexists _, _; split; [reflexivity|split; [reflexivity|]]; reflexivity).
  destruct (run_matrix_exact (J := holding [] [sample_block]) (W := unit) length_digest ablation_loaded sample_artifact sample_results
    sample_provenance Hw ablation_config 1000000000 sample_worker (true, true) "windows" sample_protocol)
    as (s & m & done & rest & new & Hs & Hm & _ & Happ & HF & _ & Hd & Hrest).
  - vm_compute. reflexivity.
  - split_and!; vm_compute; congruence.
  - exact sample_worker_honest.
  - assert (match run_matrix sample_worker (true, true) "windows" ablation_loaded sample_protocol sample_provenance
      (AggregateResultDigest length_digest sample_results) with Returns m => mx_err m = None | _ => False end) as He by (vm_compute; reflexivity).
    rewrite Hm in *. split; [exact He|]. destruct rest as [|request rest].
    + destruct Hrest as (extra & err & H1 & _ & _ & H2). rewrite app_nil_r in Happ. subst done.
      exists s, new, extra. split; [exact Hs|]. split; [exact H1|]. split; [exact HF|]. split; [exact (Hd sample_worker_settled)|].
      destruct (xc_Cases (lc_Config ablation_loaded)) as [|c cases] eqn:Ec; [vm_compute in Ec; congruence|].
      specialize (H2 c (list_elem_of_here _ _)). assert (cc_ID c = "s") as <- by (vm_compute in Ec; injection Ec as <- _; reflexivity). exact H2.
    + destruct Hrest as (e & t & failed & _ & _ & _ & _ & H). rewrite He in H. discriminate.
Defined.

(** The configuration check accepts two executors for a serial case, which the
    serial engine refuses ([serial_executors_refused]). *)
Example executors_accepted :
  match validate_config (sample_config [sample_case "s" "serial" TraceOff 2; sample_case "t" "serial" TraceDetailed 2]) with
  | inr (c, _) => cc_Executors <$> xc_Cases c = [2; 2]
  | inl _ => False
  end.
Proof. vm_compute. reflexivity. Qed.
End witnesses.
