(* ===== verification/MockBlock.v ===== *)
(** * mock_block.go: simulated transactions

    What a transaction does with one key-value store is a [callback] of
    [Kernel], so that the same code runs on a store ([run_on]), in order
    ([run_plain]) and on the kernel.  Transactions over several stores pass the
    multi-store along. *)

From Stdlib Require Import ZArith Lia.
From S2P Require Import Prelude Utils BTree BTreeIterator Types Encoding Format MemDB MultiMemDB MVData MVProps MVView MergeIterator ViewIterator Prog Status Scheduler Kernel KernelSafety.
Local Open Scope Z_scope.

(** A [[]byte] with its nil. *)
Abbreviation value := (option Bytes).

(** [fmt.Errorf("nonce not incremented: %d", ...)] *)
Inductive tx_error := NonceNotIncremented (got : Z).

(** ** One store *)

Abbreviation tx := (callback value (option tx_error)).

(** A panic of the transaction: a callback panics by setting nil. *)
Definition go_panic : tx := CSet [] None (CReturn None).

(** [binary.BigEndian.Uint64(v)], which reads the first eight bytes. *)
Definition Uint64_of (v : value) : option Z :=
  let v := default [] v in if (length v <? 8)%nat then None else Some (Uint64 (take 8 v)).

Definition with_Uint64 (v : value) (k : Z → tx) : tx :=
  match Uint64_of v with Some n => k n | None => go_panic end.

(** [if v != nil { n = binary.BigEndian.Uint64(v) }], where [n] was zero. *)
Definition number_of (v : value) (k : Z → tx) : tx :=
  match v with None => k 0 | Some _ => with_Uint64 v k end.

Definition nonceKey (sender : Bytes) : Bytes := bytes_of "nonce" ++ sender.
Definition balanceKey (account : Bytes) : Bytes := bytes_of "balance" ++ account.

Definition increaseNonce (sender : Bytes) : tx :=
  CGet (nonceKey sender) (λ v, number_of v (λ nonce,
  CSet (nonceKey sender) (Some (PutUint64 (u64 (nonce + 1))))
  (CGet (nonceKey sender) (λ v, with_Uint64 v (λ got,
  if got =? u64 (nonce + 1) then CReturn None else CReturn (Some (NonceNotIncremented got))))))).

Definition bankTransfer (sender receiver : Bytes) (amount : Z) : tx :=
  CGet (balanceKey sender) (λ v, number_of v (λ senderBalance,
  CGet (balanceKey receiver) (λ v, number_of v (λ receiverBalance,
  (* avoid the failure *)
  let senderBalance := if amount <=? senderBalance then senderBalance - amount else senderBalance in
  let receiverBalance := u64 (receiverBalance + amount) in
  CSet (balanceKey sender) (Some (PutUint64 senderBalance))
  (CSet (balanceKey receiver) (Some (PutUint64 receiverBalance)) (CReturn None)))))).

(** A transaction on a store; setting nil panics, whatever the store. *)
Fixpoint run_on {St} `{!KVStore St value} (s : St) (c : tx) : outcome (St * option tx_error) :=
  match c with
  | CReturn err => Returns (s, err)
  | CGet key k => run_on s (k (kv_Get s key))
  | CSet key v k => if BytesIsZero v then Panics else s ← kv_Set s key v; run_on s k
  | CDelete key k => run_on (kv_Delete s key) k
  end.

(** ** Several stores *)

Inductive StoreKeys := StoreKeyAuth | StoreKeyBank.

#[export] Instance StoreKeys_eq_dec : EqDecision StoreKeys.
Proof. solve_decision. Defined.

(** [strings.TrimPrefix] *)
Definition TrimPrefix (s prefix : Bytes) : Bytes :=
  if bool_decide (take (length prefix) s = prefix) then drop (length prefix) s else s.

Section transactions.
Context {M St SI : Type} `{!KVStore St value, !GIterator SI value, !GStoreIterator St SI, !MultiStore M StoreKeys St}.
(** The check of the signature generated for a transaction; its answer is not
    looked at. *)
Context (verifySig : unit → bool).

Definition Tx : Type := M → outcome (M * option tx_error).

Definition on_store (name : StoreKeys) (c : tx) : Tx := λ m,
  s ← GetKVStore m name;
  '(s, err) ← run_on s c;
  Returns (on_KVStore m name s, err).

Definition NoopTx (sender : Bytes) : Tx := λ store,
  let _ := verifySig tt in
  on_store StoreKeyAuth (increaseNonce sender) store.

Definition BankTransferTx (sender receiver : Bytes) (amount : Z) : Tx := λ store,
  '(store, err) ← NoopTx sender store;
  match err with
  | Some err => Returns (store, Some err)
  | None => on_store StoreKeyBank (bankTransfer sender receiver amount) store
  end.

(** The loop [for ; it.Valid(); it.Next() { j++; if j > 5 { ... it.Key() ... } }]
    with [skip] items to go; [None] when the iterator ends before. *)
Fixpoint nearby_loop (skip : nat) (it : SI) : outcome (option Bytes) :=
  if git_Valid it then
    match skip with
    | O => Returns (Some (git_Key it))
    | S skip => it ← git_Next it; nearby_loop skip it
    end
  else Returns None.

(** For a multi-store whose iterators leave no trace when they are closed. *)
Definition IterateTx (sender receiver : Bytes) (amount : Z) : Tx := λ store,
  '(store, err) ← BankTransferTx sender receiver amount store;
  match err with
  | Some err => Returns (store, Some err)
  | None =>
      (* find a nearby account, do a bank transfer *)
      accStore ← GetKVStore store StoreKeyAuth;
      let transfer key :=
        on_store StoreKeyBank (bankTransfer sender (TrimPrefix key (bytes_of "nonce")) amount) store in
      found ← nearby_loop 5 (store_iterator accStore (MkOptions (Some (nonceKey sender)) None true));
      match found with
      | Some key => transfer key
      | None =>
          found ← nearby_loop 5
            (store_iterator accStore (MkOptions (Some (bytes_of "nonce")) (Some (nonceKey sender)) false));
          match found with
          | Some key => transfer key
          | None => Returns (store, None)
          end
      end
  end.

Record MockBlock := MkMockBlock { Txs : list Tx; Results : list (option tx_error) }.

Definition NewMockBlock (txs : list Tx) : MockBlock := MkMockBlock txs (replicate (length txs) None).

Definition Size (b : MockBlock) : Z := Z.of_nat (length (Txs b)).

Definition ExecuteTx (b : MockBlock) (txn : Z) (store : M) : outcome (MockBlock * M) :=
  t ← deref (at_index (Txs b) txn);
  '(store, err) ← t store;
  results ← deref (set_index (Results b) txn err);
  Returns (MkMockBlock (Txs b) results, store).
End transactions.

(** ** What the transactions do to the contents of a store *)

Definition put (f : Bytes → value) (key : Bytes) (n : Z) : Bytes → value :=
  λ k, if decide (k = key) then Some (PutUint64 n) else f k.

Definition number (f : Bytes → value) (key : Bytes) : Z :=
  match f key with None => 0 | Some v => Uint64 (take 8 v) end.

(** Absent, or at least eight bytes. *)
Definition numeric (f : Bytes → value) (key : Bytes) : Prop :=
  match f key with None => True | Some v => (8 ≤ length v)%nat end.

Definition nonce_up (f : Bytes → value) (sender : Bytes) : Bytes → value :=
  put f (nonceKey sender) (u64 (number f (nonceKey sender) + 1)).

(** A sender that cannot pay keeps its balance; the receiver's balance is the
    one read before the sender's is written. *)
Definition transferred (f : Bytes → value) (sender receiver : Bytes) (amount : Z) : Bytes → value :=
  let sb := number f (balanceKey sender) in
  put (put f (balanceKey sender) (if amount <=? sb then sb - amount else sb))
    (balanceKey receiver) (u64 (number f (balanceKey receiver) + amount)).

Lemma put_eq f k n : put f k n k = Some (PutUint64 n).
Proof. unfold put. by rewrite decide_True. Qed.

Lemma put_ne f k n k' : k' ≠ k → put f k n k' = f k'.
Proof. intros. unfold put. by rewrite decide_False. Qed.

Lemma put_ext f g k n k' : (∀ k, f k = g k) → put f k n k' = put g k n k'.
Proof. intros H. unfold put. by rewrite H. Qed.

Lemma number_put f k n k' : u64_range n → number (put f k n) k' = if decide (k' = k) then n else number f k'.
Proof.
  intros Hn. unfold number, put. case_decide; [|done].
  rewrite take_ge by (rewrite PutUint64_length; lia). by apply Uint64_PutUint64.
Qed.

Lemma numeric_put f k n k' : numeric f k' → numeric (put f k n) k'.
Proof. unfold numeric, put. case_decide; [|done]. intros _. cbn. lia. Qed.

Lemma number_range f k : numeric f k → u64_range (number f k).
Proof.
  unfold numeric, number. destruct (f k) as [v|]; [|done]. intros H. apply Uint64_bound. rewrite length_take. lia.
Qed.

Lemma Uint64_of_long v : (8 ≤ length v)%nat → Uint64_of (Some v) = Some (Uint64 (take 8 v)).
Proof. intros H. unfold Uint64_of. cbv zeta. cbn [from_option id]. by rewrite (proj2 (Nat.ltb_ge _ _) H). Qed.

Lemma Uint64_of_short v : ¬ (8 ≤ length v)%nat → Uint64_of (Some v) = None.
Proof.
  intros H. unfold Uint64_of. cbv zeta. cbn [from_option id]. by rewrite (proj2 (Nat.ltb_lt _ _)) by lia.
Qed.

Lemma Uint64_of_put n : u64_range n → Uint64_of (Some (PutUint64 n)) = Some n.
Proof.
  intros Hn. rewrite Uint64_of_long by (cbn; lia). f_equal. by apply (Uint64_PutUint64 n).
Qed.

Abbreviation plain := (run_plain BytesIsZero).

Lemma number_of_plain f key k : numeric f key → plain f (number_of (f key) k) = plain f (k (number f key)).
Proof.
  unfold numeric, number_of, number, with_Uint64. destruct (f key) as [v|]; [|done].
  intros H. by rewrite Uint64_of_long.
Qed.

(** A nonce that is no number makes the transaction panic. *)
Lemma increaseNonce_panics f sender : ¬ numeric f (nonceKey sender) → plain f (increaseNonce sender) = Panics.
Proof.
  unfold numeric, increaseNonce. cbn [run_plain]. destruct (f (nonceKey sender)) as [v|]; [|done].
  intros H. cbn [number_of]. unfold with_Uint64. by rewrite Uint64_of_short.
Qed.

Lemma increaseNonce_plain f sender :
  numeric f (nonceKey sender) →
  ∃ g, plain f (increaseNonce sender) = Returns (g, None) ∧ ∀ k, g k = nonce_up f sender k.
Proof.
  intros Hf. unfold increaseNonce. cbn [run_plain]. rewrite number_of_plain by done. cbn [run_plain BytesIsZero].
  set (n := number f (nonceKey sender)). rewrite decide_True by done.
  unfold with_Uint64. rewrite Uint64_of_put by apply u64_bound. rewrite Z.eqb_refl. cbn [run_plain].
  eexists. split; [done|]. done.
Qed.

Lemma bankTransfer_plain f sender receiver amount :
  numeric f (balanceKey sender) → numeric f (balanceKey receiver) →
  ∃ g, plain f (bankTransfer sender receiver amount) = Returns (g, None) ∧ ∀ k, g k = transferred f sender receiver amount k.
Proof.
  intros Hs Hr. unfold bankTransfer. cbn [run_plain]. rewrite number_of_plain by done. cbn [run_plain].
  rewrite number_of_plain by done. cbn [run_plain BytesIsZero]. eexists. split; done.
Qed.

(** ** The balances of some accounts *)

Definition supply (f : Bytes → value) (accounts : list Bytes) : Z :=
  total ((λ a, number f (balanceKey a)) <$> accounts).

(** What a transfer creates: a sender that cannot pay does not, and a transfer
    to oneself adds the amount to the balance read before it was taken away. *)
Definition minted (f : Bytes → value) (sender receiver : Bytes) (amount : Z) : Z :=
  if decide (sender = receiver ∨ number f (balanceKey sender) < amount) then amount else 0.

Lemma balanceKey_inj a b : balanceKey a = balanceKey b ↔ a = b.
Proof. unfold balanceKey. split; [apply app_inv_head|by intros ->]. Qed.

Lemma nonceKey_inj a b : nonceKey a = nonceKey b ↔ a = b.
Proof. unfold nonceKey. split; [apply app_inv_head|by intros ->]. Qed.

(** A sum over distinct accounts of which one has changed. *)
Lemma total_update (g h : Bytes → Z) accounts a d :
  NoDup accounts → (∀ b, b ∈ accounts → h b = if decide (b = a) then g b + d else g b) →
  total (h <$> accounts) = total (g <$> accounts) + if decide (a ∈ accounts) then d else 0.
Proof.
  intros Hnd Hh. induction Hnd as [|b l Hb Hnd IH]; [done|].
  rewrite !fmap_cons. change (h b + total (h <$> l) = g b + total (g <$> l) + if decide (a ∈ b :: l) then d else 0).
  rewrite (Hh b) by (by left). rewrite IH by (intros c Hc; apply Hh; by right).
  destruct (decide (b = a)) as [->|Hne].
  - rewrite (decide_True (P := a ∈ a :: l)) by (by left). rewrite decide_False by done. lia.
  - destruct (decide (a ∈ l)) as [Ha|Ha].
    + rewrite (decide_True (P := a ∈ b :: l)) by (by right). lia.
    + rewrite (decide_False (P := a ∈ b :: l)) by (rewrite elem_of_cons; naive_solver). lia.
Qed.

Lemma number_put_balance f a n b : u64_range n →
  number (put f (balanceKey a) n) (balanceKey b) = if decide (b = a) then n else number f (balanceKey b).
Proof.
  intros Hn. rewrite number_put by done.
  destruct (decide (b = a)) as [->|Hne]; [by rewrite decide_True|].
  by rewrite decide_False by (by rewrite balanceKey_inj).
Qed.

Lemma transferred_balance f sender receiver amount a :
  let sb := number f (balanceKey sender) in
  numeric f (balanceKey sender) → 0 <= amount →
  number (transferred f sender receiver amount) (balanceKey a) =
    if decide (a = receiver) then u64 (number f (balanceKey receiver) + amount)
    else if decide (a = sender) then (if amount <=? sb then sb - amount else sb)
    else number f (balanceKey a).
Proof.
  intros sb Hs Ha. pose proof (number_range _ _ Hs) as Hr. fold sb in Hr. unfold transferred. fold sb.
  rewrite number_put_balance by apply u64_bound.
  destruct (decide (a = receiver)); [done|]. apply number_put_balance.
  unfold u64_range in *. destruct (amount <=? sb) eqn:E; lia.
Qed.

Lemma transfer_supply f sender receiver amount accounts :
  numeric f (balanceKey sender) → numeric f (balanceKey receiver) → 0 <= amount →
  number f (balanceKey receiver) + amount < W64 →
  NoDup accounts → sender ∈ accounts → receiver ∈ accounts →
  supply (transferred f sender receiver amount) accounts = supply f accounts + minted f sender receiver amount.
Proof.
  intros Hs Hr Ha Hmax Hnd Hsin Hrin. unfold supply, minted.
  pose proof (number_range _ _ Hr) as Hrr.
  assert (∀ a, number (transferred f sender receiver amount) (balanceKey a) = _) as Hb
    by (intros a; by apply transferred_balance).
  rewrite u64_id in Hb by (unfold u64_range in *; lia).
  set (mid a := if decide (a = sender) then number f (balanceKey a) +
      (if decide (sender = receiver ∨ number f (balanceKey sender) < amount) then 0 else - amount)
    else number f (balanceKey a)).
  rewrite (total_update mid _ accounts receiver amount Hnd).
  - rewrite decide_True by done.
    rewrite (total_update (λ a, number f (balanceKey a)) mid accounts sender
      (if decide (sender = receiver ∨ number f (balanceKey sender) < amount) then 0 else - amount) Hnd) by done.
    rewrite decide_True by done. case_decide; lia.
  - intros b _. rewrite Hb. unfold mid.
    destruct (decide (b = receiver)) as [->|Hn].
    + destruct (decide (receiver = sender)) as [->|]; [|done]. rewrite decide_True by (by left). lia.
    + destruct (decide (b = sender)) as [->|]; [|done].
      destruct (amount <=? number f (balanceKey sender)) eqn:E; [rewrite decide_False by (intros [?|?]; [done|lia])|rewrite decide_True by (right; lia)]; lia.
Qed.

(** ** The transactions on a multi-store *)

Section mock_facts.
Context {M St SI : Type} `{!KVStore St value, !GIterator SI value, !GStoreIterator St SI, !MultiStore M StoreKeys St}.
Context (ok : St → Prop) `{!KVStoreLaws St value BytesIsZero zero ok} `{HI : !GStoreIteratorLaws BytesIsZero ok}.
Context `{!MultiStoreLaws M StoreKeys St} (verifySig : unit → bool).

Lemma run_on_plain c s f g err :
  ok s → (∀ k, kv_Get s k = f k) → plain f c = Returns (g, err) →
  ∃ s', run_on s c = Returns (s', err) ∧ ok s' ∧ ∀ k, kv_Get s' k = g k.
Proof.
  revert s f. induction c as [a|key c IH|key v c IH|key c IH]; intros s f Hok Hf; cbn [run_plain run_on].
  - intros [= <- <-]. by exists s.
  - rewrite Hf. by apply IH.
  - destruct (BytesIsZero v) eqn:Ev; [done|]. destruct (kv_Set_spec s key v Hok Ev) as (s' & -> & Hok' & Hg).
    cbn [mbind outcome_bind]. apply IH; [done|]. intros k. rewrite Hg. by case_decide.
  - destruct (kv_Delete_spec s key Hok) as [Hok' Hg]. apply IH; [done|]. intros k. rewrite Hg. by case_decide.
Qed.

(** The named store has these contents. *)
Definition holds (m : M) (name : StoreKeys) (f : Bytes → value) : Prop :=
  ∃ s, GetKVStore m name = Returns s ∧ ok s ∧ ∀ k, kv_Get s k = f k.

Lemma on_store_plain name c m f g err :
  holds m name f → plain f c = Returns (g, err) →
  ∃ m', on_store name c m = Returns (m', err) ∧ holds m' name g ∧
    ∀ name', name' ≠ name → GetKVStore m' name' = GetKVStore m name'.
Proof.
  intros (s & Hs & Hok & Hf) Hc. destruct (run_on_plain c s f g err Hok Hf Hc) as (s' & E & Hok' & Hg).
  unfold on_store. rewrite Hs. cbn [mbind outcome_bind]. rewrite E. eexists. split; [done|]. split.
  - exists s'. split; [|done]. erewrite GetKVStore_on by done. by rewrite decide_True.
  - intros name' Hn. erewrite GetKVStore_on by done. by rewrite decide_False.
Qed.

Lemma nearby_loop_stands skip it l : store_stands it l → nearby_loop skip it = Returns (l.*1 !! skip).
Proof.
  revert it l. induction skip as [|skip IH]; intros it [|[k v] l] Hst; cbn [nearby_loop].
  1, 3: by rewrite (it_nil _ store_iteration).
  all: destruct (it_cons _ store_iteration it k v l Hst) as (Hv & Hk & _ & it' & E & Hst'); rewrite Hv.
  - by rewrite Hk.
  - rewrite E. cbn [mbind outcome_bind]. by apply IH.
Qed.

(** The sixth stored key from the sender's nonce on, the sender's included;
    if there are not so many, the sixth key before it. *)
Definition nearby (accStore : St) (sender : Bytes) : option Bytes :=
  match (store_range accStore (MkOptions (Some (nonceKey sender)) None true)).*1 !! 5%nat with
  | Some key => Some key
  | None => (store_range accStore (MkOptions (Some (bytes_of "nonce")) (Some (nonceKey sender)) false)).*1 !! 5%nat
  end.

Lemma NoopTx_plain m auth sender :
  holds m StoreKeyAuth auth → numeric auth (nonceKey sender) →
  ∃ m', NoopTx verifySig sender m = Returns (m', None) ∧ holds m' StoreKeyAuth (nonce_up auth sender) ∧
    ∀ name, name ≠ StoreKeyAuth → GetKVStore m' name = GetKVStore m name.
Proof.
  intros Hm Hn. destruct (increaseNonce_plain auth sender Hn) as (g & E & Hg).
  destruct (on_store_plain _ _ m auth g None Hm E) as (m' & Em & (s & Hs & Hok & Hf) & Hrest).
  exists m'. split; [done|]. split; [|done]. exists s. split_and!; [done..|]. intros k. by rewrite Hf.
Qed.

Lemma transfer_plain m bank sender receiver amount :
  holds m StoreKeyBank bank → numeric bank (balanceKey sender) → numeric bank (balanceKey receiver) →
  ∃ m', on_store StoreKeyBank (bankTransfer sender receiver amount) m = Returns (m', None) ∧
    holds m' StoreKeyBank (transferred bank sender receiver amount) ∧
    ∀ name, name ≠ StoreKeyBank → GetKVStore m' name = GetKVStore m name.
Proof.
  intros Hm Hs Hr. destruct (bankTransfer_plain bank sender receiver amount Hs Hr) as (g & E & Hg).
  destruct (on_store_plain _ _ m bank g None Hm E) as (m' & Em & (s & Hst & Hok & Hf) & Hrest).
  exists m'. split; [done|]. split; [|done]. exists s. split_and!; [done..|]. intros k. by rewrite Hf.
Qed.

Lemma holds_same m m' name f : GetKVStore m' name = GetKVStore m name → holds m name f → holds m' name f.
Proof. unfold holds. by intros ->. Qed.

Lemma BankTransferTx_plain m auth bank sender receiver amount :
  holds m StoreKeyAuth auth → holds m StoreKeyBank bank → numeric auth (nonceKey sender) →
  numeric bank (balanceKey sender) → numeric bank (balanceKey receiver) →
  ∃ m', BankTransferTx verifySig sender receiver amount m = Returns (m', None) ∧
    holds m' StoreKeyAuth (nonce_up auth sender) ∧ holds m' StoreKeyBank (transferred bank sender receiver amount).
Proof.
  intros Ha Hb Hn Hs Hr. destruct (NoopTx_plain m auth sender Ha Hn) as (m1 & E1 & Ha1 & Hrest1).
  destruct (transfer_plain m1 bank sender receiver amount) as (m2 & E2 & Hb2 & Hrest2); [|done..|].
  { apply (holds_same m); [by apply Hrest1|done]. }
  exists m2. unfold BankTransferTx. rewrite E1. cbn [mbind outcome_bind]. split; [done|]. split; [|done].
  apply (holds_same m1); [by apply Hrest2|done].
Qed.

(** C39: [IterateTx] always succeeds and does exactly this: the sender's nonce goes
    up, the amount goes to the receiver, and, when there is an account nearby in
    the order of the nonces (the sixth from the sender on, or else the sixth
    before it), the amount goes from the sender to that account too.  Nonces and
    balances are absent or numbers; arithmetic is that of 64-bit words. *)
Theorem IterateTx_exact m auth bank sender receiver amount :
  holds m StoreKeyAuth auth → holds m StoreKeyBank bank →
  numeric auth (nonceKey sender) → (∀ account, numeric bank (balanceKey account)) →
  ∃ m' accStore,
    IterateTx verifySig sender receiver amount m = Returns (m', None) ∧
    GetKVStore m' StoreKeyAuth = Returns accStore ∧ ok accStore ∧ (∀ k, kv_Get accStore k = nonce_up auth sender k) ∧
    let paid := transferred bank sender receiver amount in
    holds m' StoreKeyBank
      (match nearby accStore sender with
       | Some key => transferred paid sender (TrimPrefix key (bytes_of "nonce")) amount
       | None => paid
       end).
Proof.
  intros Ha Hb Hn Hbal.
  destruct (BankTransferTx_plain m auth bank sender receiver amount Ha Hb Hn) as (m1 & E1 & (acc & Hacc & Hok & Hf) & Hb1); [done..|].
  set (paid := transferred bank sender receiver amount) in *.
  assert (∀ account, numeric paid (balanceKey account)) as Hpaid by (intros account; by do 2 apply numeric_put).
  assert (∀ key, ∃ m', on_store StoreKeyBank (bankTransfer sender (TrimPrefix key (bytes_of "nonce")) amount) m1 = Returns (m', None) ∧
    holds m' StoreKeyBank (transferred paid sender (TrimPrefix key (bytes_of "nonce")) amount) ∧
    GetKVStore m' StoreKeyAuth = Returns acc) as Hmore.
  { intros key. destruct (transfer_plain m1 paid sender (TrimPrefix key (bytes_of "nonce")) amount Hb1 (Hpaid _) (Hpaid _))
      as (m2 & E2 & Hb2 & Hrest). exists m2. by rewrite Hrest. }
  unfold IterateTx. rewrite E1. cbn [mbind outcome_bind]. rewrite Hacc. cbn [mbind outcome_bind].
  enough (∃ m', (match nearby acc sender with
      | Some key => on_store StoreKeyBank (bankTransfer sender (TrimPrefix key (bytes_of "nonce")) amount) m1
      | None => Returns (m1, None)
      end) = Returns (m', None) ∧ GetKVStore m' StoreKeyAuth = Returns acc ∧
      holds m' StoreKeyBank (match nearby acc sender with
        | Some key => transferred paid sender (TrimPrefix key (bytes_of "nonce")) amount | None => paid end))
    as (m' & E & Hacc' & Hb').
  { exists m', acc. split_and!; [|done..]. rewrite <- E. unfold nearby.
    rewrite (nearby_loop_stands _ _ _ (store_starts acc (MkOptions (Some (nonceKey sender)) None true) Hok)).
    cbn [mbind outcome_bind].
    destruct ((store_range acc (MkOptions (Some (nonceKey sender)) None true)).*1 !! 5%nat); [done|].
    by rewrite (nearby_loop_stands _ _ _ (store_starts acc _ Hok)). }
  destruct (nearby acc sender) as [key|]; [|exists m1; by split_and!].
  destruct (Hmore key) as (m2 & E2 & Hb2 & Hacc2). exists m2. by split_and!.
Qed.
End mock_facts.

(** ** A block of them on the kernel *)

Definition noop_txs (senders : list Bytes) : list tx := increaseNonce <$> senders.

Definition noop_executor (senders : list Bytes) (txn : Z) : tx :=
  default (CReturn None) (increaseNonce <$> at_index senders txn).

Definition times (sender : Bytes) (senders : list Bytes) : Z :=
  Z.of_nat (length (filter (λ s, s = sender) senders)).

Lemma number_nonce_up f a b : number (nonce_up f a) (nonceKey b) =
  if decide (b = a) then u64 (number f (nonceKey a) + 1) else number f (nonceKey b).
Proof.
  unfold nonce_up. rewrite number_put by apply u64_bound.
  destruct (decide (b = a)) as [->|Hne]; [by rewrite decide_True|].
  by rewrite decide_False by (by rewrite nonceKey_inj).
Qed.

Lemma number_ext f g k : f k = g k → number f k = number g k.
Proof. unfold number. by intros ->. Qed.

Lemma noop_in_order senders f :
  (∀ sender, sender ∈ senders → numeric f (nonceKey sender)) →
  ∃ g, run_in_order BytesIsZero f (noop_txs senders) = Returns (g, replicate (length senders) None) ∧
    (∀ sender, numeric f (nonceKey sender) →
      number g (nonceKey sender) = u64 (number f (nonceKey sender) + times sender senders)) ∧
    ∀ k, (∀ sender, sender ∈ senders → k ≠ nonceKey sender) → g k = f k.
Proof.
  revert f. induction senders as [|a senders IH]; intros f Hf.
  - exists f. split_and!; [done| |done]. intros sender Hs. change (times sender []) with 0. rewrite Z.add_0_r. symmetry. by apply u64_id, number_range.
  - destruct (increaseNonce_plain f a) as (g & E & Hg); [apply Hf; by left|].
    assert (∀ sender, numeric f (nonceKey sender) → numeric g (nonceKey sender)) as Hnum.
    { intros sender Hs. unfold numeric. rewrite Hg. by apply (numeric_put f). }
    destruct (IH g) as (h & Eh & Hnonce & Hrest); [intros s Hs; apply Hnum, Hf; by right|].
    exists h. unfold noop_txs in *. cbn [fmap list_fmap run_in_order length replicate]. rewrite E. cbn [mbind outcome_bind].
    rewrite Eh. split_and!; [done| |].
    + intros sender Hs. rewrite Hnonce by auto. rewrite (number_ext g (nonce_up f a)) by apply Hg.
      rewrite number_nonce_up. unfold times. rewrite filter_cons.
      destruct (decide (sender = a)) as [->|Hne].
      * rewrite decide_True by done. cbn [length]. unfold u64. rewrite Zplus_mod_idemp_l. f_equal. lia.
      * by rewrite decide_False by congruence.
    + intros k Hk. rewrite Hrest by (intros s Hs; apply Hk; by right). rewrite Hg.
      apply put_ne, Hk. by left.
Qed.

Lemma noop_executor_list senders : noop_executor senders <$> seqZ 0 (Z.of_nat (length senders)) = noop_txs senders.
Proof.
  apply list_eq. intros i. unfold noop_txs. rewrite !list_lookup_fmap.
  destruct (senders !! i) as [sender|] eqn:E; cbn [fmap option_fmap option_map].
  - assert (i < length senders)%nat as Hi by (by eapply lookup_lt_Some).
    rewrite lookup_seqZ_lt by lia. cbn [fmap option_fmap option_map]. f_equal. unfold noop_executor.
    rewrite (proj2 (at_index_lookup senders (0 + Z.of_nat i) sender ltac:(lia))); [done|].
    by replace (Z.to_nat (0 + Z.of_nat i)) with i by lia.
  - rewrite lookup_seqZ_ge; [done|]. apply lookup_ge_None in E. lia.
Qed.

(** C38: A block of signature-only transactions on the kernel counts them.
    However the executors interleave, once the block is done every transaction
    has succeeded, every sender's nonce has gone up by the number of its
    transactions (modulo 2^64), and nothing else has changed. *)
Theorem noop_block_nonces {BT : BTreeLib} {BL : BTreeLaws} {St} `{!KVStore St value} (storage : St)
    (kv_ok : St → Prop) `{!KVStoreLaws St value BytesIsZero zero kv_ok}
    (senders : list Bytes) (executors : nat) (estimates : list (list Bytes)) k0 steps k ps :
  kv_ok storage → (∀ sender, sender ∈ senders → numeric (kv_Get storage) (nonceKey sender)) →
  Z.of_nat (length senders) < 2 ^ 62 → Z.of_nat executors < 2 ^ 62 → Z.of_nat steps < 2 ^ 62 →
  Forall sorted_keys estimates → run (k_init 0 estimates) (NewKernel (length senders)) = Returns (k0, tt) →
  nsteps (kernel_step BytesIsZero storage (noop_executor senders)) steps (k0, entering executors) (k, ps) →
  done_marker (k_sched k) = true →
  (∀ i, 0 <= i < Z.of_nat (length senders) → ∃ a, at_index (k_attempts k) i = Some (Some a) ∧ at_result a = None) ∧
  ∃ final, SnapshotToStore BytesIsZero (k_data k) storage = Returns final ∧ kv_ok final ∧
    (∀ sender, numeric (kv_Get storage) (nonceKey sender) →
      number (kv_Get final) (nonceKey sender) = u64 (number (kv_Get storage) (nonceKey sender) + times sender senders)) ∧
    ∀ key, (∀ sender, sender ∈ senders → key ≠ nonceKey sender) → kv_Get final key = kv_Get storage key.
Proof.
  intros Hok Hnum Hsize Hexec Hlt Hest Hinit Hsteps Hdone.
  destruct (kernel_in_order BytesIsZero storage (noop_executor senders) kv_ok (length senders) executors estimates k0 steps k ps)
    as (f & results & final & E & Hr & Ef & Hok' & Hf); [done..|].
  destruct (noop_in_order senders (kv_Get storage) Hnum) as (g & Eg & Hnonce & Hrest).
  rewrite noop_executor_list, Eg in E. injection E as <- <-. split.
  - intros i Hi. destruct (Hr (Z.to_nat i) None) as (a & Ha & Hres).
    { apply lookup_replicate_2. lia. }
    exists a. rewrite Z2Nat.id in Ha by lia. done.
  - exists final. split_and!; [done|done| |].
    + intros sender Hs. by rewrite (number_ext _ g), Hnonce by apply Hf || done.
    + intros key Hk. by rewrite Hf, Hrest.
Qed.

(** The in-memory store with its iterators. *)
Section memdb_no_zeros.
Context {BT : BTreeLib} {BL : BTreeLaws}.
#[local] Instance mock_kv : KVStore (GMemDB value) value := memdb_store BytesIsZero.

Lemma no_zeros_laws : KVStoreLaws (GMemDB value) value BytesIsZero zero (no_zeros BytesIsZero).
Proof.
  pose proof (memdb_store_laws BytesIsZero : KVStoreLaws (GMemDB value) _ _ _ _) as [Hset Hdel]. split.
  - intros db k v [Hwf Hv] Hz. destruct (Hset db k v Hwf Hz) as (db' & E & Hwf' & Hg).
    exists db'. split; [done|]. split; [|done]. split; [done|]. cbn in E. unfold mem_Set in E. rewrite Hz in E.
    injection E as <-. intros k' v'. change (bt_Set db _).1 with (OverlaySet db k v).
    rewrite OverlayGet_Set by done. case_decide; [by intros [= <-]|apply Hv].
  - intros db k [Hwf Hv]. destruct (Hdel db k Hwf) as [Hwf' Hg]. split; [|done]. split; [done|].
    intros k' v'. cbn. rewrite OverlayGet_Delete by done. case_decide; [done|apply Hv].
Qed.
End memdb_no_zeros.

#[export] Instance StoreKeys_countable : Countable StoreKeys.
Proof.
  refine (inj_countable' (λ k, match k with StoreKeyAuth => true | StoreKeyBank => false end)
    (λ b : bool, if b then StoreKeyAuth else StoreKeyBank) _). by intros [].
Defined.

(** ** Runs *)

Section witnesses.
#[local] Existing Instance ListTree.
#[local] Existing Instance ListTree_laws.
#[local] Existing Instance memdb_store_iterator.
#[local] Existing Instance mock_kv.
#[local] Instance mock_kv_laws : KVStoreLaws (GMemDB value) value BytesIsZero zero (no_zeros BytesIsZero) := no_zeros_laws.
#[local] Instance mock_iterator_laws : GStoreIteratorLaws (S := GMemDB value) BytesIsZero (no_zeros BytesIsZero) :=
  memdb_iterator_laws BytesIsZero eq_refl.
#[local] Instance mock_range : MapRange :=
  {| range _ _ _ _ m := map_to_list m; range_perm _ _ _ _ m := reflexivity _ |}.

Definition mock_stores : gmap StoreKeys Z := {[StoreKeyAuth := 0; StoreKeyBank := 1]}.
Abbreviation multi := (MultiMemDB unit StoreKeys).
Definition empty_stores : multi := NewMultiMemDB (λ _, false) mock_stores.
Definition ignored (_ : unit) : bool := true.

(** Accounts [a] to [f] have sent a transaction each. *)
Definition six_accounts : multi :=
  result empty_stores (foldM (λ m sender, fst <$> NoopTx ignored sender m) empty_stores
    (bytes_of <$> ["a"; "b"; "c"; "d"; "e"; "f"]%string)).

(** Eight transactions of two senders. *)
Definition noop_senders : list Bytes := bytes_of <$> ["a"; "b"; "a"]%string.
Definition noop_base : GMemDB value := OverlaySet (NewGMemDB value) (nonceKey (bytes_of "b")) (Some (PutUint64 41)).
Definition noop_start : kernel value (option tx_error) (GMemDB value) :=
  result (NewKernel 3) (fst <$> run (k_init 0 []) (NewKernel 3)).
Abbreviation turns := (mjoin (replicate 200 [0; 1; 2]%nat)).
Abbreviation noop_run := (drive BytesIsZero noop_base (noop_executor noop_senders) turns (noop_start, entering 3)).

Lemma noop_block_nonces_witness :
  done_marker (k_sched noop_run.2.1) = true ∧
  e_incarnation <$> txn_status (k_sched noop_run.2.1) = [0; 0; 1] ∧
  ∃ final, SnapshotToStore BytesIsZero (k_data noop_run.2.1) noop_base = Returns final ∧
    number (mem_Get final) (nonceKey (bytes_of "a")) = 2 ∧ number (mem_Get final) (nonceKey (bytes_of "b")) = 42.
Proof.
  split; [vm_compute; reflexivity|]. split; [vm_compute; reflexivity|].
  destruct (noop_block_nonces noop_base (no_zeros BytesIsZero) noop_senders 3 [] noop_start noop_run.1 noop_run.2.1 noop_run.2.2)
    as (_ & final & Ef & _ & Hn & _).
  - split; [apply OverlaySet_wf, NewGMemDB_wf|]. intros k v. unfold noop_base.
    rewrite OverlayGet_Set by apply NewGMemDB_wf. case_decide; [by intros [= <-]|].
    unfold OverlayGet, NewGMemDB. by rewrite Get_Scan, Scan_new.
  - intros sender Hin. unfold noop_senders in Hin. cbn [fmap list_fmap] in Hin.
    repeat (apply elem_of_cons in Hin as [->|Hin]; [vm_compute; first [exact I | lia]|]). by apply elem_of_nil in Hin.
  - vm_compute. reflexivity.
  - vm_compute. reflexivity.
  - vm_compute. reflexivity.
  - constructor.
  - vm_compute. reflexivity.
  - generalize (drive_steps BytesIsZero noop_base (noop_executor noop_senders) turns (noop_start, entering 3)).
    destruct noop_run as [steps [k ps]]. done.
  - vm_compute. reflexivity.
  - exists final. split; [exact Ef|]. split.
    + change (mem_Get final) with (kv_Get final). rewrite Hn by (vm_compute; exact I). vm_compute. reflexivity.
    + change (mem_Get final) with (kv_Get final). rewrite Hn by (vm_compute; lia). vm_compute. reflexivity.
Defined.

Abbreviation hold := (holds (M := multi) (no_zeros BytesIsZero)).

Lemma empty_holds name : hold empty_stores name (λ _, None).
Proof.
  exists (NewGMemDB value). split; [destruct name; vm_compute; reflexivity|].
  assert (∀ k, OverlayGet (NewGMemDB value) k = (None, false)) as E.
  { intros k. unfold OverlayGet, NewGMemDB. by rewrite Get_Scan, Scan_new. }
  split; [split; [apply NewGMemDB_wf|intros k v; by rewrite E]|].
  intros k. change (mem_Get (NewGMemDB value) k = None). by rewrite mem_Get_Overlay, E.
Qed.

Lemma noops_hold senders (m : multi) f : hold m StoreKeyAuth f → (∀ a, numeric f (nonceKey a)) →
  ∃ m' g, foldM (λ m sender, fst <$> NoopTx ignored sender m) m senders = Returns m' ∧
    hold m' StoreKeyAuth g ∧ (∀ a, numeric g (nonceKey a)) ∧ GetKVStore m' StoreKeyBank = GetKVStore m StoreKeyBank.
Proof.
  revert m f. induction senders as [|a senders IH]; intros m f Hm Hf; cbn [foldM]; [by exists m, f|].
  destruct (NoopTx_plain (no_zeros BytesIsZero) ignored m f a Hm (Hf a)) as (m1 & E & Hm1 & Hrest).
  rewrite E. cbn [fmap outcome_fmap mbind outcome_bind fst].
  destruct (IH m1 _ Hm1) as (m' & g & E' & Hm' & Hg & Hbank); [intros b; by apply numeric_put|].
  exists m', g. split_and!; [done..|]. by rewrite Hbank, Hrest.
Qed.

(** The account nearby [a] is [f]; nobody has money, so both receivers' is new. *)
Lemma IterateTx_exact_witness :
  let a := bytes_of "a" in let f := bytes_of "f" in let z := bytes_of "z" in
  ∃ m' bank, IterateTx ignored a z 9 six_accounts = Returns (m', None) ∧
    GetKVStore m' StoreKeyBank = Returns bank ∧
    number (mem_Get bank) (balanceKey a) = 0 ∧ number (mem_Get bank) (balanceKey f) = 9 ∧
    number (mem_Get bank) (balanceKey z) = 9.
Proof.
  intros a f z.
  destruct (noops_hold (bytes_of <$> ["a"; "b"; "c"; "d"; "e"; "f"]%string) empty_stores (λ _, None) (empty_holds _))
    as (m & g & E & Hm & Hg & Hbank); [done|].
  assert (six_accounts = m) as Hsix by (unfold six_accounts; by rewrite E).
  destruct (IterateTx_exact (no_zeros BytesIsZero) ignored m g (λ _, None) a z 9) as (m' & acc & Ei & Hacc & _ & _ & Hb);
    [exact Hm| |apply Hg|done|].
  { eapply holds_same; [exact Hbank|]. apply empty_holds. }
  assert (match IterateTx ignored a z 9 six_accounts with
          | Returns (m', None) =>
              match GetKVStore m' StoreKeyAuth with Returns acc => nearby (no_zeros BytesIsZero) acc a = Some (nonceKey f) | _ => False end
          | _ => False end) as Hnear by (vm_compute; reflexivity).
  rewrite Hsix, Ei, Hacc in Hnear. cbn beta iota zeta in Hb. rewrite Hnear in Hb. destruct Hb as (bank & Hb & _ & Hf).
  exists m', bank. rewrite Hsix. split; [exact Ei|]. split; [exact Hb|].
  change (mem_Get bank) with (kv_Get bank). split_and!; rewrite (number_ext _ _ _ (Hf _)); vm_compute; reflexivity.
Defined.
End witnesses.
