(* ===== verification/PolicyView.v ===== *)
(** * execpolicyview.go: what a transaction sees under a kernel policy

    The view of the policy kernel is the frozen view, except that a policy
    answers a read that meets an ESTIMATE, and that iterating is refused where
    the policy could not answer. *)

From Stdlib Require Import ZArith Lia String.
From S2P Require Import Prelude Utils BTree BTreeIterator Types MemDB MVData MVView MergeIterator ViewIterator Prog Scheduler Admission KernelPolicy PolicyGate WorkerPool PolicySched.
Local Open Scope Z_scope.

Section policy_view.
Context {BT : BTreeLib} {V : Type} `{!GoZero V} (isZero : V → bool).
Context {Store SI : Type} `{!KVStore Store V, !GIterator SI V, !GStoreIterator Store SI}.
(** What [onEstimateRead] answers for a blocking transaction, and what the
    other transactions have made of the store by then. *)
Context (respond : Z → GMVData V → GMVData V * estimate_response).

(** A read gets a value, or unwinds the transaction with an [estimateAbort]. *)
Inductive policy_read (X : Type) :=
| Got (x : X)
| Unwound (blocking : Z).
Arguments Got {_} _.
Arguments Unwound {_} _.

Fixpoint policy_loop (fuel : nat) (s : GMVMemoryView V Store) (m : GMVData V) (key : Bytes) :
    outcome (GMVMemoryView V Store * GMVData V * policy_read V) :=
  match fuel with
  | O => Waits
  | S fuel =>
      '(value, version, estimate) ← Read m key (v_txn s);
      if (estimate : bool) then
        let '(m, r) := respond (Index version) m in
        match r with
        | Reread => policy_loop fuel s m key
        | EstimateAbort blocking => Returns (s, m, Unwound blocking)
        end
      else
        let s := add_read s (MkRead key version) in
        if negb (version_Valid version) then Returns (s, m, Got (kv_Get (v_storage s) key))
        else Returns (s, m, Got value)
  end.

Definition policy_Get (fuel : nat) (s : GMVMemoryView V Store) (m : GMVData V) (key : Bytes) :
    outcome (GMVMemoryView V Store * GMVData V * policy_read V) :=
  match v_writeSet s with
  | Some ws =>
      let '(value, found) := OverlayGet ws key in
      (* value written by this txn; nil value means deleted *)
      if (found : bool) then Returns (s, m, Got value) else policy_loop fuel s m key
  | None => policy_loop fuel s m key
  end.

Definition policy_Has (fuel : nat) (s : GMVMemoryView V Store) (m : GMVData V) (key : Bytes) :
    outcome (GMVMemoryView V Store * GMVData V * policy_read bool) :=
  '(s, m, r) ← policy_Get fuel s m key;
  Returns (s, m, match r with Got v => Got (negb (isZero v)) | Unwound blocking => Unwound blocking end).

(** The frozen iterators, which always suspend in place. *)
Definition policy_Iterator (waitFor : Z → world V → world V) (fuel : nat) (p : KernelPolicy)
    (s : GMVMemoryView V Store) (m : GMVData V) (start_ end__ : option Bytes) :=
  if negb (iterationSupported p) then Panics
  else view_iterator isZero waitFor fuel s m (MkOptions start_ end__ true).

Definition policy_ReverseIterator (waitFor : Z → world V → world V) (fuel : nat) (p : KernelPolicy)
    (s : GMVMemoryView V Store) (m : GMVData V) (start_ end__ : option Bytes) :=
  if negb (iterationSupported p) then Panics
  else view_iterator isZero waitFor fuel s m (MkOptions start_ end__ false).

(** ** The frozen view, as long as nothing unwinds *)

Abbreviation waits := (λ blocking m, (respond blocking m).1).

(** The read of the frozen view answers the same, and the transaction unwinds
    only where the store then holds an ESTIMATE for the key to which the policy
    answers with an abort; nothing has been recorded by then. *)
Lemma policy_loop_frozen fuel s m key :
  match policy_loop fuel s m key with
  | Returns (s', m', Got v) => read_loop waits fuel s m key = Returns (s', m', v)
  | Returns (s', m', Unwound blocking) => s' = s ∧ ∃ m1 value version,
      Read m1 key (v_txn s) = Returns (value, version, true) ∧ respond (Index version) m1 = (m', EstimateAbort blocking)
  | Panics => read_loop waits fuel s m key = Panics
  | Waits => read_loop waits fuel s m key = Waits
  end.
Proof.
  revert m. induction fuel as [|fuel IH]; intros m; [done|]. cbn [policy_loop read_loop].
  destruct (Read m key (v_txn s)) as [[[value version] estimate]| |] eqn:Er; cbn [mbind outcome_bind]; [|done..].
  destruct estimate.
  - destruct (respond (Index version) m) as [m' [|blocking]] eqn:E; cbn [fst].
    + specialize (IH m'). destruct (policy_loop fuel s m' key) as [[[s' m''] [v|b]]| |]; try done.
      all: by rewrite ?IH.
    + split; [done|]. eauto.
  - destruct (negb (version_Valid version)); done.
Qed.

Lemma policy_Get_frozen fuel s m key :
  match policy_Get fuel s m key with
  | Returns (s', m', Got v) => view_Get waits fuel s m key = Returns (s', m', v)
  | Returns (s', m', Unwound blocking) => s' = s ∧ ∃ m1 value version,
      Read m1 key (v_txn s) = Returns (value, version, true) ∧ respond (Index version) m1 = (m', EstimateAbort blocking)
  | Panics => view_Get waits fuel s m key = Panics
  | Waits => view_Get waits fuel s m key = Waits
  end.
Proof.
  unfold policy_Get, view_Get. destruct (v_writeSet s) as [ws|]; [|apply policy_loop_frozen].
  destruct (OverlayGet ws key) as [value [|]]; [done|apply policy_loop_frozen].
Qed.
End policy_view.
