(* ===== verification/Entry.v ===== *)
(** * stm.go: executing a block, from the arguments to the storage

    [ExecuteBlockWithEstimates] checks its arguments, builds the scheduler and
    the memory, starts the executors, waits until all of them have returned, and
    writes the memory back when the block is done.  What the executors do until
    then is any run of [Kernel]; the context may be cancelled on the way. *)

From Stdlib Require Import ZArith Lia.
From S2P Require Import Prelude Utils BTree BTreeIterator Types MemDB MVData MVDataFacts MVProps MVView Prog Status Scheduler Cells Kernel KernelMoves KernelFollows KernelRuns KernelInv KernelReach KernelSafety.
Local Open Scope Z_scope.

Section entry.
Context {BT : BTreeLib} {V A : Type} `{!GoZero V} (isZero : V → bool).
Context {Store : Type} `{!KVStore Store V} (storage : Store).
Context (txExecutor : Z → callback V A).
Abbreviation kernel := (kernel V A Store).
Abbreviation executor := (prog kernel (option (TxnVersion * TaskKind))).

(** [min(runtime.GOMAXPROCS(0), runtime.NumCPU())] *)
Definition maxParallelism (gomaxprocs numCPU : Z) : Z := Z.min gomaxprocs numCPU.

(** A step of the executors; they see a cancelled context only if it is. *)
Inductive executors_step (cancelled : bool) : kernel * list executor → kernel * list executor → Prop :=
| executor_act k k' ps i X (act : kernel → outcome (kernel * X)) c x :
    ps !! i = Some (Act act c) → act k = Returns (k', x) →
    executors_step cancelled (k, ps) (k', <[i := c x]> ps)
| executor_round k ps i version kind fuel saw :
    ps !! i = Some (Ret (Some (version, kind))) → (saw = true → cancelled = true) →
    executors_step cancelled (k, ps) (k, <[i := k_Run_round isZero storage txExecutor fuel saw version kind]> ps).

(** [wg.Wait()]: every executor has returned, and left [k]. *)
Definition joined (cancelled : bool) (executors : nat) (k0 k : kernel) : Prop :=
  ∃ steps ps, Z.of_nat steps < 2 ^ 62 ∧
    nsteps (executors_step cancelled) steps (k0, entering executors) (k, ps) ∧
    ∀ p, p ∈ ps → p = Ret None.

Inductive block_error :=
| BlockInvalidExecutors (executors : Z)
| BlockContext
| BlockIncomplete.

(** [ctxErr] is the context's error when the executors are back, [workers] what
    they have made of the kernel.  A negative size panics. *)
Context (gomaxprocs numCPU : Z) (ctxErr : bool) (workers : nat → kernel → kernel).

Definition ExecuteBlockWithEstimates (blockSize executors : Z) (estimates : list (list Bytes)) :
    outcome (Store * option block_error) :=
  if executors <? 0 then Returns (storage, Some (BlockInvalidExecutors executors)) else
  let executors := if executors =? 0 then maxParallelism gomaxprocs numCPU else executors in
  if blockSize <? 0 then Panics else
  '(kernel, _) ← run (k_init 0 estimates) (NewKernel (Z.to_nat blockSize));
  let kernel := workers (Z.to_nat executors) kernel in
  if negb (done_marker (k_sched kernel)) then
    Returns (storage, Some (if ctxErr then BlockContext else BlockIncomplete))
  else
    (* Write the snapshot into the storage *)
    storage ← SnapshotToStore isZero (k_data kernel) storage;
    Returns (storage, None).

Definition ExecuteBlock (blockSize executors : Z) : outcome (Store * option block_error) :=
  ExecuteBlockWithEstimates blockSize executors [].
End entry.

(** ** Executors leave only when the block is done or the context cancelled *)

Section leaving.
Context {BT : BTreeLib} {BL : BTreeLaws} {V A : Type} `{!GoZero V} (isZero : V → bool).
Context {Store : Type} `{!KVStore Store V} (storage : Store).
Context (txExecutor : Z → callback V A).
Abbreviation kernel := (kernel V A Store).
Abbreviation executor := (prog kernel (option (TxnVersion * TaskKind))).
Implicit Types (k : kernel) (ps : list executor).

(** The program leaves the loop only after an action that finds the block done. *)
Fixpoint leaves_done {X} (p : prog kernel (option X)) : Prop :=
  match p with
  | Ret (Some _) => True
  | Ret None => False
  | Act act c => ∀ k k' y, act k = Returns (k', y) → done_marker (k_sched k') = true ∨ leaves_done (c y)
  end.

Lemma leaves_done_bind {X Y} (p : prog kernel X) (f : X → prog kernel (option Y)) :
  (∀ x, leaves_done (f x)) → leaves_done (pbind p f).
Proof. intros Hf. induction p as [x|Z act c IH]; cbn; [apply Hf|]. intros k k' y _. right. apply IH. Qed.

Lemma round_leaves_done fuel version kind : leaves_done (k_Run_round isZero storage txExecutor fuel false version kind).
Proof.
  unfold k_Run_round. cbn. intros k k' d [= <- <-]. cbn. destruct (done_marker (k_sched k)); [by left|right].
  destruct (version_Valid version); cbn [negb].
  - apply leaves_done_bind. done.
  - by apply (leaves_done_bind (on_sched NextTask)).
Qed.

Lemma executors_kernel_step cancelled s s' :
  executors_step isZero storage txExecutor cancelled s s' → kernel_step isZero storage txExecutor s s'.
Proof. intros H. destruct H; [by eapply kernel_act|by apply kernel_round]. Qed.

Lemma effect_keeps_done k g k' g' :
  effect k g k' g' → done_marker (k_sched k) = true → done_marker (k_sched k') = true.
Proof. intros H. destruct H as [g s Hs| | | | | | | | | | | | | | | | | | | | |]; cbn; try done. by rewrite (ss_done _ _ Hs). Qed.

Lemma executors_kernel_steps cancelled n s s' :
  nsteps (executors_step isZero storage txExecutor cancelled) n s s' → nsteps (kernel_step isZero storage txExecutor) n s s'.
Proof. apply (nsteps_congruence id). apply executors_kernel_step. Qed.

Lemma step_keeps_done n t k gs ps k' ps' :
  invariant isZero storage txExecutor n t k gs → t < 2 ^ 62 → in_pool isZero storage txExecutor n gs ps →
  kernel_step isZero storage txExecutor (k, ps) (k', ps') →
  done_marker (k_sched k) = true → done_marker (k_sched k') = true.
Proof.
  intros Hinv Ht Hpool Hstep. inversion Hstep as [k0 k1 ps0 i X act c x Hi Hact|]; subst; [|done].
  destruct (Forall2_lookup_r _ _ _ _ _ Hpool Hi) as (g & Hg & Hf).
  destruct (Hf k k' x) as (g' & (g1 & _ & He) & _); [|done|by eapply effect_keeps_done].
  eapply counted_fits; [done|]. exact (v_counted _ _ _ _ _ _ _ Hinv).
Qed.

Lemma uncancelled_run size executors k0 m steps k ps :
  initial size m k0 → Z.of_nat size < 2 ^ 62 → Z.of_nat executors < 2 ^ 62 → Z.of_nat steps < 2 ^ 62 →
  nsteps (executors_step isZero storage txExecutor false) steps (k0, entering executors) (k, ps) →
  length ps = executors ∧ (done_marker (k_sched k) = true ∨ Forall leaves_done ps).
Proof.
  intros Hk0 Hsize Hexec. revert k ps. induction steps as [|steps IH]; intros k ps Ht Hs.
  - inversion Hs; subst. unfold entering. rewrite length_replicate. split; [done|]. right. by apply Forall_replicate.
  - apply nsteps_inv_r in Hs as ([k1 ps1] & Hs & Hstep). destruct (IH k1 ps1) as [Hlen Hdone]; [lia|done|].
    destruct (reach_invariant isZero storage txExecutor size executors k0 m steps k1 ps1) as (gs & Hinv & Hpool);
      [done..|by eapply executors_kernel_steps|lia|].
    pose proof (step_keeps_done _ _ _ _ _ k ps Hinv ltac:(lia) Hpool (executors_kernel_step _ _ _ Hstep)) as Hkeep.
    destruct Hdone as [Hdone|Hall]; [split; [inversion Hstep; subst; by rewrite length_insert|left; auto]|].
    inversion Hstep as [kx k' psx i X act c x Hi Ha|kx psx i version kind fuel saw Hi Hsaw]; subst; rewrite length_insert; (split; [done|]).
    + pose proof (Forall_lookup_1 _ _ _ _ Hall Hi) as Hp. cbn in Hp. destruct (Hp k1 k x Ha) as [?|Hc]; [by left|right].
      by apply Forall_insert.
    + right. apply Forall_insert; [done|]. destruct saw; [by specialize (Hsaw eq_refl)|]. apply round_leaves_done.
Qed.

(** With a context that is not cancelled, the block is done when all executors
    are back. *)
Lemma joined_done size executors k0 m k :
  initial size m k0 → Z.of_nat size < 2 ^ 62 → (0 < executors)%nat → Z.of_nat executors < 2 ^ 62 →
  joined isZero storage txExecutor false executors k0 k → done_marker (k_sched k) = true.
Proof.
  intros Hk0 Hsize Hpos Hexec (steps & ps & Hlt & Hs & Hback).
  destruct (uncancelled_run size executors k0 m steps k ps) as [Hlen [?|Hall]]; [done..|].
  destruct ps as [|p ps]; [cbn in Hlen; lia|]. apply Forall_cons in Hall as [Hp _].
  rewrite (Hback p) in Hp by (by left). done.
Qed.
End leaving.

Section executed.
Context {BT : BTreeLib} {BL : BTreeLaws} {V A : Type} `{!GoZero V} (isZero : V → bool).
Context {Store : Type} `{!KVStore Store V} (storage : Store).
Context (txExecutor : Z → callback V A).

(** C2: Executing a block, as its caller sees it.  Once the executors are back,
    the call returns, and either the storage has the contents that running the
    block in order leaves, or there is an error and nothing was written: the
    number of executors was negative, or the context was cancelled.  In
    particular the scheduler never stops with a block half done.  (The
    estimates are sorted, and there are no more than transactions; the program
    may use a processor.) *)
Theorem ExecuteBlock_exact (kv_ok : Store → Prop) `{!KVStoreLaws Store V isZero zero kv_ok}
    gomaxprocs numCPU cancelled workers blockSize executors estimates :
  kv_ok storage → 0 <= blockSize < 2 ^ 62 → executors < 2 ^ 62 → 0 < gomaxprocs < 2 ^ 62 → 0 < numCPU →
  Z.of_nat (length estimates) <= blockSize → Forall sorted_keys estimates →
  let n := Z.to_nat (if executors =? 0 then maxParallelism gomaxprocs numCPU else executors) in
  (0 <= executors → ∀ k0, run (k_init 0 estimates) (NewKernel (Z.to_nat blockSize)) = Returns (k0, tt) →
    joined isZero storage txExecutor cancelled n k0 (workers n k0)) →
  ∃ storage' err,
    ExecuteBlockWithEstimates (A := A) isZero storage gomaxprocs numCPU cancelled workers blockSize executors estimates =
      Returns (storage', err) ∧
    match err with
    | None => 0 <= executors ∧ kv_ok storage' ∧ ∃ f results,
        run_in_order isZero (kv_Get storage) (txExecutor <$> seqZ 0 blockSize) = Returns (f, results) ∧
        ∀ key, kv_Get storage' key = f key
    | Some e => storage' = storage ∧
        (e = BlockInvalidExecutors executors ∧ executors < 0 ∨ e = BlockContext ∧ cancelled = true)
    end.
Proof.
  intros Hok Hsize Hmax Hgo Hcpu Hlen Hest n Hworkers. unfold ExecuteBlockWithEstimates.
  destruct (executors <? 0) eqn:Eneg; [exists storage, (Some (BlockInvalidExecutors executors)); split; [done|]; split; [done|left; split; [done|lia]]|].
  rewrite (proj2 (Z.ltb_ge blockSize 0)) by lia. cbv zeta. fold n.
  assert (0 < Z.of_nat n < 2 ^ 62) as Hn. { unfold n, maxParallelism. destruct (executors =? 0) eqn:E0; lia. }
  destruct (init_returns (A := A) (Store := Store) (Z.to_nat blockSize) estimates 0 (NewKernel (Z.to_nat blockSize)))
    as (k0 & E); [apply NewKernel_initial|done|lia|].
  specialize (Hworkers ltac:(lia) k0 E). rewrite E. cbn [mbind outcome_bind].
  assert (∃ m, initial (Z.to_nat blockSize) m k0) as [m Hm] by (by eapply (init_initial _ estimates 0); [apply NewKernel_initial|..]).
  destruct (done_marker (k_sched (workers n k0))) eqn:Ed; cbn [negb].
  - destruct Hworkers as (steps & ps & Hlt & Hs & _).
    destruct (kernel_in_order isZero storage txExecutor kv_ok (Z.to_nat blockSize) n estimates k0 steps (workers n k0) ps)
      as (f & results & final & Er & _ & Ef & Hok' & Hf); [done|lia|lia|lia|done|done|by eapply executors_kernel_steps|done|].
    rewrite Ef. cbn [mbind outcome_bind]. exists final, None. split; [done|]. split; [lia|]. split; [done|].
    exists f, results. rewrite Z2Nat.id in Er by lia. done.
  - destruct cancelled; [exists storage, (Some BlockContext); split; [done|]; split; [done|by right]|].
    exfalso. enough (done_marker (k_sched (workers n k0)) = true) by congruence.
    eapply (joined_done isZero storage txExecutor (Z.to_nat blockSize) n k0 m); [done|lia|lia|lia|done].
Qed.
End executed.

(** ** A run *)

Section driven.
Context {BT : BTreeLib} {V A : Type} `{!GoZero V} (isZero : V → bool).
Context {Store : Type} `{!KVStore Store V} (storage : Store).
Context (txExecutor : Z → callback V A).

Lemma drive_executors_steps turns s :
  nsteps (executors_step isZero storage txExecutor false) (drive isZero storage txExecutor turns s).1 s
    (drive isZero storage txExecutor turns s).2.
Proof.
  revert s. induction turns as [|i turns IH]; intros s; cbn [drive]; [apply nsteps_O|].
  destruct (drive_one isZero storage txExecutor i s) as [s'|] eqn:E; [|apply IH]. cbn [fst snd]. apply nsteps_l with s'; [|apply IH].
  destruct s as [k ps]. unfold drive_one in E. cbn [fst snd] in E.
  destruct (ps !! i) as [[[[version kind]|]|X act c]|] eqn:Ei; [|done| |done].
  - injection E as <-. by apply executor_round.
  - destruct (act k) as [[k' x]| |] eqn:Ea; [|done..]. injection E as <-. by eapply executor_act.
Qed.

Definition left_loop (p : prog (kernel V A Store) (option (TxnVersion * TaskKind))) : bool :=
  match p with Ret None => true | _ => false end.

Lemma left_loop_Ret p : left_loop p = true → p = Ret None.
Proof. destruct p as [[]|]; done. Qed.
End driven.

Section witnesses.
#[local] Existing Instance ListTree.
#[local] Existing Instance ListTree_laws.
#[local] Existing Instance memdb_store.

Abbreviation base_store := (memdb_store zero_value).
Definition turns : list nat := mjoin (replicate 200 [0; 1; 2]%nat).
Definition three_workers (n : nat) (k0 : kernel Z Z (GMemDB Z)) : kernel Z Z (GMemDB Z) :=
  (@drive _ _ _ _ zero_value _ base_store base increments turns (k0, entering n)).2.1.

Lemma ExecuteBlock_exact_witness :
  ∃ final, @ExecuteBlockWithEstimates _ Z Z _ zero_value _ base_store base 8 4 false three_workers 3 3 expected =
      Returns (final, None) ∧
    mem_Get final key1 = 9 ∧ mem_Get final key2 = 0.
Proof.
  assert (match run_in_order zero_value (@kv_Get _ _ base_store base) (increments <$> seqZ 0 3) with
          | Returns (g, _) => g key1 = 9 ∧ g key2 = 0 | _ => False end) as Hg by (vm_compute; repeat split).
  assert (match run (k_init (V := Z) (A := Z) (Store := GMemDB Z) 0 expected) (NewKernel 3) with
          | Returns (k0, _) =>
              let r := @drive _ _ _ _ zero_value _ base_store base increments turns (k0, entering 3) in
              forallb left_loop r.2.2 && (r.1 <=? 600)%nat
          | _ => false end = true) as Hback by (vm_compute; reflexivity).
  destruct (@ExecuteBlock_exact _ _ Z Z _ zero_value _ base_store base increments mem_wf (memdb_store_laws zero_value)
    8 4 false three_workers 3 3 expected) as (final & err & E & Herr).
  - apply OverlaySet_wf, NewGMemDB_wf.
  - lia.
  - lia.
  - lia.
  - lia.
  - vm_compute. discriminate.
  - repeat constructor; vm_compute; reflexivity.
  - intros _ k0 E. change (Z.to_nat 3) with 3%nat in E. rewrite E in Hback. cbv zeta in Hback.
    apply andb_prop in Hback as [Hall Hle]. apply Nat.leb_le in Hle.
    exists (@drive _ _ _ _ zero_value _ base_store base increments turns (k0, entering 3)).1,
      (@drive _ _ _ _ zero_value _ base_store base increments turns (k0, entering 3)).2.2.
    split; [lia|]. split.
    + unfold three_workers. change (Z.to_nat (if 3 =? 0 then maxParallelism 8 4 else 3)) with 3%nat.
      generalize (drive_executors_steps zero_value (KVStore0 := base_store) base increments turns (k0, entering 3)).
      destruct (@drive _ _ _ _ zero_value _ base_store base increments turns (k0, entering 3)) as [steps [k ps]]. done.
    + intros p Hp. apply left_loop_Ret. rewrite forallb_forall in Hall. apply Hall. by apply list_elem_of_In.
  - destruct err as [e|].
    { exfalso. destruct Herr as (_ & [[_ ?]|[_ ?]]); [lia|done]. }
    destruct Herr as (_ & _ & f & results & Er & Hf). exists final. split; [exact E|].
    rewrite Er in Hg. destruct Hg as (H1 & H2).
    split; [rewrite <- H1; apply (Hf key1)|rewrite <- H2; apply (Hf key2)].
Defined.
End witnesses.
