(* ===== verification/KernelEntry.v ===== *)
(** * speculation.go, execpolicy.go: the entry points with a limit and a policy

    Both check their arguments, fall back to the frozen entry point of [Entry]
    where nothing else is asked for, and otherwise build their own scheduler,
    run the executors until all are back, and write the memory back when the
    block is done.  What their executors make of scheduler and memory is an
    argument. *)

From Stdlib Require Import ZArith Lia.
From S2P Require Import Prelude Utils BTree BTreeIterator Types MemDB MVData Prog Status Scheduler Kernel Entry Admission KernelPolicy PolicyGate WorkerPool PolicySched Accounting.
Local Open Scope Z_scope.

Definition zeroSpeculationStats : SpeculationStats := MkSpeculationStats 0 false false 0 0 0.
Definition zeroKernelPolicyStats : KernelPolicyStats := MkPolicyStats false 0 0 0 0 0 0 0 0.

(** [policyScheduler.stats] *)
Definition ps_stats (s : policyScheduler) : KernelPolicyStats :=
  let c := ps_counters s in
  MkPolicyStats true (estimateSuspends c) (estimateSuspendNS c) (estimateAborts c) (deferrals c) (workerYields c)
    (peakRunnable (ps_pool s)) (idleParks c) (readyDispatches c).

Inductive entry_error :=
| EntryArguments (e : exec_error)
| EntryBlock (e : block_error).

Definition as_entry : option block_error → option entry_error := fmap EntryBlock.

Section entries.
Context {BT : BTreeLib} {V A : Type} `{!GoZero V} (isZero : V → bool).
Context {Store : Type} `{!KVStore Store V} (storage : Store).
Abbreviation kernel := (kernel V A Store).
Context (gomaxprocs numCPU : Z) (ctxErr : bool) (workers : nat → kernel → kernel).
(** What the executors leave of the scheduler and of the stored values. *)
Context (admission_workers : nat → admissionScheduler → kernel → admissionScheduler * GMVData V).
Context (policy_workers : nat → policyScheduler → kernel → policyScheduler * GMVData V).
Abbreviation frozen := (ExecuteBlockWithEstimates isZero storage gomaxprocs numCPU ctxErr workers).

Definition or_parallelism (executors : Z) : Z :=
  if executors =? 0 then maxParallelism gomaxprocs numCPU else executors.

(** [NewMVMemoryWithEstimates] *)
Definition new_memory (blockSize : Z) (estimates : list (list Bytes)) : outcome kernel :=
  '(memory, _) ← run (k_init 0 estimates) (NewKernel (Z.to_nat blockSize));
  Returns memory.

(** How both paths end. *)
Definition finish_block (done : bool) (data : GMVData V) : outcome (Store * option entry_error) :=
  if negb done then Returns (storage, Some (EntryBlock (if ctxErr then BlockContext else BlockIncomplete)))
  else storage ← SnapshotToStore isZero data storage; Returns (storage, None).

Definition ExecuteBlockWithMaxSpeculativeInflightAndEstimates (blockSize executors maxInflight : Z)
    (estimates : list (list Bytes)) : outcome (Store * SpeculationStats * option entry_error) :=
  match check_arguments blockSize executors maxInflight (Z.of_nat (length estimates)) with
  | Some e => Returns (storage, zeroSpeculationStats, Some (EntryArguments e))
  | None =>
      let executors := or_parallelism executors in
      let effectiveLimit := if (0 <? maxInflight) && (maxInflight <? blockSize) then maxInflight else blockSize in
      let stats := MkSpeculationStats (u64 effectiveLimit) false false 0 0 0 in
      if (blockSize =? 0) || (maxInflight =? 0) || (blockSize <=? maxInflight) then
        '(storage, err) ← match estimates with
          | [] => ExecuteBlock isZero storage gomaxprocs numCPU ctxErr workers blockSize executors
          | _ => frozen blockSize executors estimates
          end;
        Returns (storage, stats, as_entry err)
      else
        let scheduler := newAdmissionScheduler (Z.to_nat blockSize) effectiveLimit in
        memory ← new_memory blockSize estimates;
        let '(scheduler, data) := admission_workers (Z.to_nat executors) scheduler memory in
        let stats := window_stats (as_window scheduler) in
        '(storage, err) ← finish_block (done_marker (as_base scheduler)) data;
        Returns (storage, stats, err)
  end.

Definition ExecuteBlockWithMaxSpeculativeInflight (blockSize executors maxInflight : Z) :=
  ExecuteBlockWithMaxSpeculativeInflightAndEstimates blockSize executors maxInflight [].

Definition ExecuteBlockWithKernelPolicy (blockSize executors maxInflight : Z) (estimates : list (list Bytes))
    (policy : KernelPolicy) : outcome (Store * SpeculationStats * KernelPolicyStats * option entry_error) :=
  let refused e := Returns (storage, zeroSpeculationStats, zeroKernelPolicyStats, Some (EntryArguments e)) in
  match Normalize policy with
  | (_, Some e) => refused (PolicyError e)
  | (normalized, None) =>
      match check_arguments blockSize executors maxInflight (Z.of_nat (length estimates)) with
      | Some e => refused e
      | None =>
          if IsFrozenDefault normalized then
            '(storage, stats, err) ← ExecuteBlockWithMaxSpeculativeInflightAndEstimates blockSize executors maxInflight estimates;
            Returns (storage, stats, zeroKernelPolicyStats, err)
          else
            let executors := or_parallelism executors in
            match validateGate normalized blockSize with
            | Some e => refused (PolicyError e)
            | None =>
                scheduler ← newPolicyScheduler (Z.to_nat blockSize) normalized;
                let scheduler :=
                  if (0 <? maxInflight) && (maxInflight <? blockSize)
                  then ps_put_admission (Some (newAdmissionWindow (Z.to_nat blockSize) maxInflight)) scheduler
                  else scheduler in
                memory ← new_memory blockSize estimates;
                let pool := set_spawn (newWorkerPool executors blockSize) in
                let '(scheduler, data) := policy_workers (Z.to_nat executors) (ps_put_pool (Some pool) scheduler) memory in
                let stats := ps_stats scheduler in
                '(storage, err) ← finish_block (done_marker (ps_base scheduler)) data;
                match err with
                | Some err => Returns (storage, zeroSpeculationStats, stats, Some err)
                | None =>
                    '(_, speculation) ← run ps_speculationStats scheduler;
                    Returns (storage, speculation, stats, None)
                end
            end
      end
  end.

(** ** Facts *)

Lemma ExecuteBlock_no_estimates blockSize executors :
  ExecuteBlock isZero storage gomaxprocs numCPU ctxErr workers blockSize executors = frozen blockSize executors [].
Proof. done. Qed.

(** Without a limit to apply, executing with a limit is executing the block. *)
Lemma unlimited_is_frozen blockSize executors maxInflight estimates :
  check_arguments blockSize executors maxInflight (Z.of_nat (length estimates)) = None →
  maxInflight = 0 ∨ blockSize <= maxInflight →
  ExecuteBlockWithMaxSpeculativeInflightAndEstimates blockSize executors maxInflight estimates =
    '(storage, err) ← frozen blockSize (or_parallelism executors) estimates;
    Returns (storage, MkSpeculationStats (u64 blockSize) false false 0 0 0, as_entry err).
Proof.
  intros Hargs Hlimit. unfold ExecuteBlockWithMaxSpeculativeInflightAndEstimates. rewrite Hargs.
  assert ((blockSize =? 0) || (maxInflight =? 0) || (blockSize <=? maxInflight) = true) as -> by (destruct Hlimit; lia).
  assert ((0 <? maxInflight) && (maxInflight <? blockSize) = false) as -> by (destruct Hlimit; lia).
  by destruct estimates.
Qed.

(** Nor does the default policy change anything. *)
Lemma default_policy_is_frozen blockSize executors maxInflight estimates policy :
  IsFrozenDefault policy = true → maxInflight = 0 ∨ blockSize <= maxInflight →
  check_arguments blockSize executors maxInflight (Z.of_nat (length estimates)) = None →
  ExecuteBlockWithKernelPolicy blockSize executors maxInflight estimates policy =
    '(storage, err) ← frozen blockSize (or_parallelism executors) estimates;
    Returns (storage, MkSpeculationStats (u64 blockSize) false false 0 0 0, zeroKernelPolicyStats, as_entry err).
Proof.
  intros Hpolicy Hlimit Hargs. unfold ExecuteBlockWithKernelPolicy.
  pose proof (Normalize_spec policy) as Hn. unfold IsFrozenDefault in Hpolicy.
  destruct (Normalize policy) as [normalized [e|]]; [done|]. destruct Hn as [Hn _]. rewrite Hargs.
  unfold IsFrozenDefault at 1. rewrite Hn, Hpolicy, unlimited_is_frozen by done.
  by destruct (frozen blockSize (or_parallelism executors) estimates) as [[s err]| |].
Qed.

Lemma finish_block_atomic done data s err : finish_block done data = Returns (s, err) →
  match err with
  | Some e => s = storage ∧ done = false ∧ e = EntryBlock (if ctxErr then BlockContext else BlockIncomplete)
  | None => done = true ∧ SnapshotToStore isZero data storage = Returns s
  end.
Proof.
  unfold finish_block. destruct done; cbn [negb].
  - destruct (SnapshotToStore isZero data storage) as [s'| |]; cbn [mbind outcome_bind]; [|by intros [=]..]. by intros [= <- <-].
  - by intros [= <- <-].
Qed.

Lemma frozen_atomic blockSize executors estimates s e : frozen blockSize executors estimates = Returns (s, Some e) → s = storage.
Proof.
  unfold ExecuteBlockWithEstimates. destruct (executors <? 0); [by intros [= <- _]|]. destruct (blockSize <? 0); [done|].
  destruct (run _ _) as [[k0 []]| |]; cbn [mbind outcome_bind]; [|done..]. destruct (negb _); [by intros [= <- _]|].
  destruct (SnapshotToStore _ _ _); by intros [=].
Qed.

Lemma speculation_atomic blockSize executors maxInflight estimates s stats e :
  ExecuteBlockWithMaxSpeculativeInflightAndEstimates blockSize executors maxInflight estimates = Returns (s, stats, Some e) →
  s = storage.
Proof.
  unfold ExecuteBlockWithMaxSpeculativeInflightAndEstimates.
  destruct (check_arguments _ _ _ _) as [e'|]; [by intros [= <- _ _]|]. cbv zeta.
  destruct ((blockSize =? 0) || _ || _).
  - intros H. assert (∃ e', frozen blockSize (or_parallelism executors) estimates = Returns (s, Some e')) as [e' E].
    { destruct estimates as [|est estimates]; rewrite ?ExecuteBlock_no_estimates in H;
        destruct (frozen _ _ _) as [[s' [e'|]]| |]; cbn [mbind outcome_bind] in H; try done; injection H as <- _ _; by exists e'. }
    by eapply frozen_atomic.
  - destruct (new_memory _ _) as [memory| |]; cbn [mbind outcome_bind]; [|done..].
    destruct (admission_workers _ _ _) as [scheduler data].
    destruct (finish_block _ _) as [[s' err]| |] eqn:E; cbn [mbind outcome_bind]; [|done..]. intros [= <- _ ->].
    by apply finish_block_atomic in E as [-> _].
Qed.

(** Whatever the policy, an error means that nothing was written. *)
Lemma kernel_policy_atomic blockSize executors maxInflight estimates policy s stats pstats e :
  ExecuteBlockWithKernelPolicy blockSize executors maxInflight estimates policy = Returns (s, stats, pstats, Some e) →
  s = storage.
Proof.
  unfold ExecuteBlockWithKernelPolicy. cbv zeta.
  destruct (Normalize policy) as [normalized [e'|]]; [by intros [= <- _ _ _]|].
  destruct (check_arguments _ _ _ _) as [e'|]; [by intros [= <- _ _ _]|]. destruct (IsFrozenDefault normalized).
  - destruct (ExecuteBlockWithMaxSpeculativeInflightAndEstimates _ _ _ _) as [[[s' st] err]| |] eqn:E; cbn [mbind outcome_bind]; [|done..].
    intros [= <- _ _ ->]. by eapply speculation_atomic.
  - destruct (validateGate _ _) as [e'|]; [by intros [= <- _ _ _]|].
    destruct (newPolicyScheduler _ _) as [scheduler| |]; cbn [mbind outcome_bind]; [|done..].
    destruct (new_memory _ _) as [memory| |]; cbn [mbind outcome_bind]; [|done..].
    destruct (policy_workers _ _ _) as [scheduler' data].
    destruct (finish_block _ _) as [[s' [err|]]| |] eqn:E; cbn [mbind outcome_bind]; [| |done..].
    + intros [= <- _ _ ->]. by apply finish_block_atomic in E as [-> _].
    + destruct (run ps_speculationStats scheduler') as [[? ?]| |]; by intros [=].
Qed.
End entries.
